(* ===== verification/_CoqProject ===== *)
-Q . S2P
Prelude.v
Vectors.v
Authority.v
Normalize.v
WireV2.v
WireMaps.v
VerifyCbor.v
Policy.v
ServiceLifecycle.v
Identity.v
Eligibility.v
VerifyDecode.v
VerifyReceipt.v
Network.v
Plan.v
Seccomp.v
ServicePolicy.v
Receipt.v
ReceiptWire.v
ReceiptAccepted.v
ReceiptBinding.v
RunResult.v
DnsMessage.v
DnsResolve.v
JsonCbor.v
ReceiptViews.v
Compose.v
Accept.v
AcceptDecision.v
Composition.v
CompositionWire.v
CompositionExample.v
Diagnostic.v
DiagnosticReceipts.v
Observer.v
Trace.v
Candidate.v
TraceActive.v
Adapter.v
Mapping.v
TraceEvents.v
Session.v
TraceExample.v
Draft.v
DraftPlans.v
System.v
Privilege.v
Landlock.v
Executable.v
Launcher.v
LauncherWire.v
LauncherRun.v
