(* ===== verification/Prelude.v ===== *)
(** * A verification library for Proofbound Runtime

    Proofbound Runtime runs an untrusted tool inside a declared boundary and
    emits a receipt that a separate program verifies.  Execution goes through
    these parts (paths are under [src/crates/], and [core/x.rs] abbreviates
    [proofbound-runtime-core/src/x.rs], likewise for the other crates):

    - a plan file is parsed into validated authority ([core/plan.rs],
      [core/authority.rs], [core/network.rs]);
    - the authority is normalized ([core/normalize.rs]) and compiled into a
      policy ([core/policy.rs] for the deny-network profile,
      [core/service_policy.rs] for the authenticated-service profile), encoded
      as deterministic CBOR ([core/wire_v2.rs]) and identified by its digest
      ([core/identity.rs]);
    - the launcher ([linux/launcher.rs]) receives an install request from its
      supervisor, removes its privileges ([linux/privilege.rs]), installs the
      Landlock rules ([linux/landlock.rs]) and the seccomp filter
      ([linux/seccomp.rs]), acknowledges them and, once released, executes the
      tool;
    - a service session moves through the phases of [core/service_lifecycle.rs];
      the connector resolves the declared names ([connector/dns.rs]);
    - the outcome, the enforcement facts and the digests become a run result
      and a receipt with its reuse eligibility ([core/run_result.rs],
      [core/receipt.rs], [receipt/lib.rs]);
    - [proofbound-runtime-verify] decodes and validates the receipt and derives
      the eligibility again, sharing no code with the producer;
    - [proofbound-runtime-compose] relates a tool receipt to receipts of the
      build, and [proofbound-runtime-accept] decides, under a signed policy,
      whether a verified receipt is accepted;
    - in diagnostic mode a tracer follows the tool ([linux/trace.rs]), an
      adapter turns its stops into observations of the state machine of
      [diagnose/observer.rs] ([diagnose-linux/adapter.rs]), a mapping turns those
      into events ([diagnose-linux/mapping.rs]), and [diagnose/artifact.rs]
      encodes them as a diagnostic receipt,
      from which [diagnose/draft.rs] derives a draft plan for review.

    ** Files

    - [Prelude]: results with the [?] operator, panics ([fault]), fixed-width
      integers, byte strings, text predicates, derived orders ([RustOrd],
      [LawfulOrd]), stable sorting and [dedup], the attenuation interface
      ([Attenuates], [AttenuationPreorder]) and the shared tactics.
    - [Vectors]: the golden vectors of [schemas/vectors/v2], which witnesses use
      as concrete inputs.
    - Authority and policies: [Authority], [Normalize], [Network], [Plan],
      [Policy], [ServicePolicy], [ServiceLifecycle] (the files of
      [proofbound-runtime-core] with those names), [Identity]
      ([core/identity.rs], [verify/commitment.rs]).
    - Codecs: [WireV2] ([core/wire_v2.rs]), [WireMaps] (which values encode, and
      maps assembled from encoded fields), [VerifyCbor] ([verify/cbor.rs]),
      [JsonCbor] (JSON values as CBOR, for the codecs of [compose] and
      [accept]).
    - Boundary: [Seccomp] ([linux/seccomp.rs] and the two wrappers of
      [linux/sys.rs] it calls), [System] (the wrappers of [linux/sys.rs] that
      the launcher calls, over any kernel, and the two program logics of the
      files below: [succeeds] and [ensures]), [Privilege] ([linux/privilege.rs]),
      [Landlock] ([linux/landlock.rs]), [Executable] (the revalidation of an
      inherited executable, [linux/resolve.rs]), [Launcher] (the launcher's
      protocol, [linux/launcher.rs]), [LauncherWire] (what its codec accepts),
      [LauncherRun] (the launcher's run).
    - Receipts of the producer: [Receipt] ([core/receipt.rs] and
      [proofbound-runtime-binding]), [ReceiptWire] (its bytes read by the
      verifier's decoder), [ReceiptAccepted] (what it prints is accepted),
      [ReceiptBinding] (what its bytes bind), [RunResult]
      ([core/run_result.rs], [core/error.rs], [core/diagnostic.rs]).
    - Eligibility and verification: [Eligibility] (Module [Producer]:
      [receipt/lib.rs], [core/outcome.rs]; Module [Verifier]:
      [verify/derive.rs]; Module [Spec]: what both mean), [VerifyDecode]
      ([verify/decode.rs], [verify/decode_v2.rs]), [VerifyReceipt]
      ([verify/identity.rs], [canonical.rs], [lib.rs], [error.rs]),
      [ReceiptViews] (the composition and acceptance views of
      [verify/decode.rs]).
    - Names: [DnsMessage] (the message codec of [connector/dns.rs]),
      [DnsResolve] (its resolution over a network).
    - Relations on receipts: [Compose] ([proofbound-runtime-compose]),
      [Composition] (what a composition means), [CompositionWire] (its version
      2 form), [CompositionExample] (a composition around the golden receipt,
      for the witnesses); [Accept] ([proofbound-runtime-accept]),
      [AcceptDecision] (what a decision means).
    - Diagnostics: [Diagnostic] and [DiagnosticReceipts]
      ([diagnose/artifact.rs], [diagnose/canonical.rs]), [Observer]
      ([diagnose/observer.rs]), [Trace] (decoding, capture, memory reads and
      exec reconciliation of [linux/trace.rs]), [Candidate] (its path
      resolution), [TraceActive] (its active tracer and wait loop), [Adapter]
      ([diagnose-linux/adapter.rs]), [Mapping] ([diagnose-linux/mapping.rs] and the
      observation loop of [diagnose-cli/main.rs]), [TraceEvents] (what the
      tracer's events map to), [Session] (a whole observed run),
      [TraceExample] (a scripted kernel, for the witnesses),
      [Draft] and [DraftPlans] ([diagnose/draft.rs], [diagnose/producer.rs]).

    ** How the code is represented

    A definition has the name of the function, method or type it translates; a
    method [T::m] is [T_m].  A Rust [u8], [u16], [u32], [u64], [usize] or [i64]
    is a [Z]; where arithmetic is checked or wraps the definition says so
    ([checked_add], [u32_try_from], ...); [usize] has 64 bits.  Bytes are
    [Byte.byte] or [ascii], [String] and [&str] are [String.string] with UTF-8
    validity tested where the code tests it.  [Result] is [result], [?] is its
    bind.  An operation that indexes, unwraps or expects returns an [option] or
    a [fault]: the panic is a value, and a theorem shows that it is not
    reached.  [&mut self] is state passing; the tracer, which changes its state
    also when it fails, is written in the state and error monad [eff] of
    [Prelude].  [BTreeMap] and [BTreeSet] are sorted lists; derived [Ord]
    instances are [RustOrd] instances, lexicographic in the order of the
    fields.  A typestate is a type of its own: what a Rust type forbids to
    call has no definition on the corresponding Rocq type.

    ** What the theorems show

    - Codec ([WireV2], [VerifyCbor]): the decoder accepts exactly the canonical
      encodings within its limits, encoding and decoding round trip, assembly of
      a map from encoded fields refines encoding of the map, and the verifier's
      decoder agrees with the producer's on every input.
    - Authority ([Authority], [Normalize], [Network]): constructors accept
      exactly the documented texts; attenuation tests are preorders (an order
      on sessions); normalization never panics, is idempotent, canonical, and
      neither adds nor drops an entry.
    - Plans ([Plan]): the version 2 parser accepts exactly the canonical
      encodings of well-formed plans; what the TOML parser accepts is well
      formed; a service plan is never executable by the deny-network path.
    - Policies ([Policy], [ServicePolicy]): compilation preserves authority in
      both directions, canonical bytes determine the policy, and the pipeline
      from plan bytes to policy bytes is total on accepted plans.
    - Boundary ([Seccomp]): the filter, run by the classic-BPF interpreter,
      decides every architecture and system call as specified, and installation
      succeeds only with that filter in force.
    - Launcher: [lock_privileges] and [install_landlock] succeed exactly after
      the calls and replies they promise ([Privilege], [Landlock]); the protocol
      accepts exactly what it writes ([LauncherWire]); whatever the kernel
      answers, the requested program is started only behind the verified
      boundaries and after the release, and nothing else is ([LauncherRun]).
    - Lifecycle ([ServiceLifecycle]): the accepted event sequences, the
      reachable states, termination.
    - Names ([DnsMessage], [DnsResolve]): parsing stays in bounds, always ends
      and accepts only answers to the question asked; resolution ends within
      its depth and follows only alias chains, and with a resolver that
      answers within the deadlines, in chunks of any sizes, it succeeds.
    - Receipts ([Identity], [Eligibility], [VerifyDecode], [VerifyReceipt],
      [Receipt] and its companions, [RunResult]): digests and commitments parse
      exactly; producer and verifier derive the same eligibility; a receipt the
      producer constructs is one the verifier accepts; a receipt reported
      reusable is canonical, committed, semantically valid and clean;
      verification never panics; the bytes of a receipt determine it.
    - Relations ([Composition], [AcceptDecision]): [compose] succeeds exactly
      on inputs that belong together, a composition is read back from its bytes,
      the reasons of a decision are exactly the violated clauses of the policy,
      and unverified inputs are never accepted.
    - Diagnostics: the encoder of diagnostic receipts accepts exactly the
      well-formed ones ([DiagnosticReceipts]); an observation is
      published only from an empty, confirmed process tree and is complete
      exactly without gaps, and target code is released only behind the
      boundary and the trace options ([Observer]); a captured tracee string
      is the one that the memory holds, within its limits ([Trace]); path resolution ends and yields
      canonical names ([Candidate]); the adapter refines the observer's step
      relation ([Adapter]); traced events map to receipt events
      ([TraceEvents]); a session keeps at most one event more than its bound
      ([Session]), and in one scripted run that event prevents the receipt
      ([TraceExample]); a plan draft proposes only
      candidates inside its scope, lists every open item and does not depend on
      the order of its inputs ([DraftPlans]).

    ** Fuel

    - [WireV2.item] and its verifier counterpart run on [MAX_DEPTH + 2 - depth]:
      the code refuses a depth above [MAX_DEPTH] before it recurses, so the
      branch without fuel is unreachable ([item_fuel_irrelevant]).
    - A decimal [u64] has at most twenty digits, the fuel of the printer; an
      octal [u32] at most eleven.
    - The BPF interpreter runs on the filter's length: jumps only go forward, so
      the program counter leaves the filter within that many steps.
    - The DNS name reader runs on the number of pointers the code allows (128),
      resolution on [depth + 2]; each is refused by the code before the fuel
      ends.
    - The read and write loops of a stream run on the bytes that are left, the
      loop over a tracee's memory on the limit of the string plus one, since a
      pass without progress is an error.
    - The symlink walk runs on [walk_measure] plus one, and [walk_terminates]
      shows that the outcome without fuel is never reached.  Within the capture limits its
      [saturating_mul] and [checked_add] stay far below [usize::MAX].
    - [Executable.read_all] takes its fuel as an argument: in the code the end of
      the file ends the loop.  Without fuel it ends as a panic does, so that a
      run that gets further had enough.
    - [wait_loop], [drain_loop] and the observation loop take their fuel as an
      argument: in the code a deadline of the clock ends them.
    - Every other recursion is structural, on the text, vector or state.

    ** Parameters

    Code outside the repository is a parameter: SHA-256 (a function on bytes);
    [serde_json] and derived (de)serializers (classes [SerdeJson],
    [ComposeSerde], [SerdeWriter] with [SerdeWriterLaws]); the JSON token
    scanner of the canonical-form check; TOML (class [Toml]); libc's syscall
    numbers (class [Libc]) and the kernel (class [SeccompKernel] for the filter;
    [Kernel] of [System] for the launcher: any function of the calls so far;
    [TraceSys] for the tracer, with the laws [TraceMemory], [BoundedReads],
    [StaticFiles], [CanonicalPaths]; [TraceTerminal] for the end of a traced
    process); the clock, random source and TCP stream of the resolver (class
    [Network], [NetworkLaws]).  Laws of a
    parameter are hypotheses of the theorems that need them, and their witnesses
    instantiate the parameter.

    ** Not modelled

    - What the kernel does with the launcher's calls; control groups
      ([linux/cgroup.rs]), the probe ([probe.rs]), path resolution and ELF
      parsing ([resolve.rs], but for the revalidation), the supervisor and the
      connector process: each is a sequence of system calls on descriptors and
      processes, whose meaning is the kernel's.
    - TLS and the byte streams of the connector's session, which [rustls]
      carries out.
    - The start of a traced process and the capture of its output streams
      ([linux/trace.rs], first and last part): fork, pipes and threads.
    - The command line ([proofbound-runtime-cli], the argument parsing and
      printing of [diagnose-cli]), benchmarks and the SDK: input and output
      around this core.
    - Of [seccomp.rs], [launcher.rs], [privilege.rs], [landlock.rs] and
      [resolve.rs] the Linux build is modelled.  [Display] and [Error]
      instances only forward to the [code] functions. *)
From Stdlib Require String.
From Stdlib Require Import Ascii ZArith Lia Sorted.
From stdpp Require sorting.
From stdpp Require Export prelude strings list numbers.
Export stdpp.list_relations.list.
#[export] Set Warnings "-clear-no-such-hyp".

Declare Scope pbr_scope.
Delimit Scope pbr_scope with pbr.

Create HintDb pbr discriminated.
Create Rewrite HintDb pbr.

(** * Results: Rust's [Result<A, E>] with the [?] operator as bind *)

Inductive result (E A : Type) : Type :=
| Ok (a : A)
| Err (e : E).
Arguments Ok {E A} a.
Arguments Err {E A} e.

#[global] Instance result_ret E : MRet (result E) := fun A a => Ok a.
#[global] Instance result_bind E : MBind (result E) := fun A B f m =>
  match m with Ok a => f a | Err e => Err e end.
#[global] Instance result_fmap E : FMap (result E) := fun A B f m =>
  match m with Ok a => Ok (f a) | Err e => Err e end.

#[global] Instance result_eq_dec E A `{EqDecision E, EqDecision A} : EqDecision (result E A).
Proof. solve_decision. Defined.

Definition map_err {E F A} (f : E -> F) (m : result E A) : result F A :=
  match m with Ok a => Ok a | Err e => Err (f e) end.
Definition ok_or {E A} (o : option A) (e : E) : result E A :=
  match o with Some a => Ok a | None => Err e end.
Definition ensure {E} (b : bool) (e : E) : result E () := if b then Ok () else Err e.
Definition is_ok {E A} (m : result E A) : bool :=
  match m with Ok _ => true | Err _ => false end.
Definition result_ok {E A} (m : result E A) : option A :=
  match m with Ok a => Some a | Err _ => None end.
Lemma result_ok_Some {E A} (m : result E A) a : result_ok m = Some a <-> m = Ok a.
Proof. destruct m; cbn; naive_solver. Qed.

Section result_lemmas.
Context {E A B : Type}.
Implicit Types (m : result E A).

Lemma bind_Ok m (f : A -> result E B) b :
  m ≫= f = Ok b <-> exists a, m = Ok a /\ f a = Ok b.
Proof. destruct m; cbn; naive_solver. Qed.

Lemma bind_Err m (f : A -> result E B) e :
  m ≫= f = Err e <-> m = Err e \/ exists a, m = Ok a /\ f a = Err e.
Proof. destruct m; cbn; naive_solver. Qed.

Lemma fmap_Ok m (f : A -> B) b : f <$> m = Ok b <-> exists a, m = Ok a /\ f a = b.
Proof. destruct m; cbn; naive_solver. Qed.

Lemma map_err_Ok {F} (f : E -> F) m a : map_err f m = Ok a <-> m = Ok a.
Proof. destruct m; cbn; naive_solver. Qed.

Lemma map_err_Err {F} (f : E -> F) m e :
  map_err f m = Err e <-> exists e', m = Err e' /\ f e' = e.
Proof. destruct m; cbn; naive_solver. Qed.

Lemma ok_or_Ok (o : option A) (e : E) a : ok_or o e = Ok a <-> o = Some a.
Proof. destruct o; cbn; naive_solver. Qed.

Lemma ensure_Ok (b : bool) (e : E) u : ensure b e = Ok u <-> b = true.
Proof. destruct u, b; cbn; naive_solver. Qed.

End result_lemmas.

Lemma mapM_Ok {E A B} (f : A -> result E B) (l : list A) (k : list B) :
  mapM f l = Ok k <-> Forall2 (fun x y => f x = Ok y) l k.
Proof.
  split.
  - revert k. induction l as [|x l IH]; intros k; cbn.
    + intros [= <-]. constructor.
    + intros (y & Hy & Hr)%bind_Ok. apply bind_Ok in Hr as (k' & Hk & [= <-]). eauto.
  - induction 1 as [|x y l k Hx _ IH]; cbn; [done|]. by rewrite Hx; cbn; rewrite IH.
Qed.

Lemma mapM_Err {E A B} (f : A -> result E B) (l : list A) e :
  mapM f l = Err e -> exists x, x ∈ l /\ f x = Err e.
Proof.
  induction l as [|x l IH]; cbn; [done|].
  intros [He|(y & _ & [He|(k & _ & ?)]%bind_Err)]%bind_Err; [|destruct (IH He) as (z & ? & ?)|done].
  - exists x. split; [left|done].
  - exists z. split; [by right|done].
Qed.

Lemma mapM_Ok_map {E A B C} (f : B -> result E C) (g : A -> B) (h : A -> C) (l : list A) :
  (forall x, x ∈ l -> f (g x) = Ok (h x)) -> mapM f (g <$> l) = Ok (h <$> l).
Proof.
  intros Hf. apply mapM_Ok. induction l as [|x l IH]; cbn; constructor.
  - apply Hf. left.
  - apply IH. intros y Hy. apply Hf. by right.
Qed.

(** Runs through the [?]-chains of a hypothesis [_ = Ok _]. *)
Ltac simp_ok :=
  repeat match goal with
  | H : _ ≫= _ = Ok _ |- _ => apply bind_Ok in H as (? & ? & ?)
  | H : _ <$> _ = Ok _ |- _ => apply fmap_Ok in H as (? & ? & ?)
  | H : map_err _ _ = Ok _ |- _ => apply map_err_Ok in H
  | H : ok_or _ _ = Ok _ |- _ => apply ok_or_Ok in H
  | H : ensure _ _ = Ok _ |- _ => apply ensure_Ok in H
  | H : @mret (result _) _ _ _ = Ok _ |- _ => injection H as H
  | H : Ok _ = Ok _ |- _ => injection H as H
  | H : Err _ = Ok _ |- _ => discriminate H
  | H : (if ?b then _ else _) = Ok _ |- _ => destruct b eqn:?
  end.

(** * Operations that can panic: [None] is a panic (out-of-range index) *)

Definition swap {A} (l : list A) (i j : nat) : option (list A) :=
  x ← l !! i; y ← l !! j; Some (<[i:=y]> (<[j:=x]> l)).

Lemma swap_Some {A} (l : list A) i j :
  i < length l -> j < length l ->
  exists l', swap l i j = Some l' /\ l' ≡ₚ l /\ length l' = length l.
Proof.
  intros [x Hx]%lookup_lt_is_Some_2 [y Hy]%lookup_lt_is_Some_2.
  unfold swap. rewrite Hx; cbn; rewrite Hy; cbn.
  eexists; split; [done|]. split; [by apply Permutation_insert_swap|by rewrite !length_insert].
Qed.

(** * Bytes and machine integers

    A byte is Stdlib's [ascii] (eight bits), so that a Rust [String] is a
    [string] and its [as_bytes] is [String.list_ascii_of_string]; arithmetic on bytes
    goes through their value in [Z]. *)

Abbreviation byte := ascii (only parsing).
Definition bval (b : byte) : Z := Z.of_N (N_of_ascii b).
Definition mkb (z : Z) : byte := ascii_of_N (Z.to_N (z mod 256)).
Abbreviation as_bytes := String.list_ascii_of_string (only parsing).
Abbreviation from_bytes := String.string_of_list_ascii (only parsing).

Definition u8_bound : Z := 2 ^ 8.
Definition u16_bound : Z := 2 ^ 16.
Definition u32_bound : Z := 2 ^ 32.
Definition u64_bound : Z := 2 ^ 64.

(** [uN::try_from] of a nonnegative machine integer. *)
Definition try_from (bound z : Z) : option Z :=
  if (0 <=? z)%Z && (z <? bound)%Z then Some z else None.
Definition u8_try_from : Z -> option Z := try_from u8_bound.
Definition u16_try_from : Z -> option Z := try_from u16_bound.
Definition u32_try_from : Z -> option Z := try_from u32_bound.
Definition i64_try_from (value : Z) : option Z :=
  if (- 2 ^ 63 <=? value)%Z && (value <? 2 ^ 63)%Z then Some value else None.
(** [checked_add] on [u64] and on the 64-bit [usize]. *)
Definition u64_checked_add (a b : Z) : option Z := try_from u64_bound (a + b).
Definition u64_checked_mul (a b : Z) : option Z := try_from u64_bound (a * b).

Lemma try_from_Some bound z z' : try_from bound z = Some z' <-> z' = z /\ (0 <= z < bound)%Z.
Proof. unfold try_from. destruct (0 <=? z)%Z eqn:?, (z <? bound)%Z eqn:?; naive_solver lia. Qed.
Lemma try_from_None bound z : try_from bound z = None <-> ~ (0 <= z < bound)%Z.
Proof. unfold try_from. destruct (0 <=? z)%Z eqn:?, (z <? bound)%Z eqn:?; naive_solver lia. Qed.

Lemma bval_bound b : (0 <= bval b < 256)%Z.
Proof. unfold bval. pose proof (N_ascii_bounded b). lia. Qed.
Lemma bval_mkb z : bval (mkb z) = (z mod 256)%Z.
Proof.
  unfold bval, mkb. pose proof (Z.mod_pos_bound z 256). rewrite N_ascii_embedding; lia.
Qed.
Lemma bval_mkb_small z : (0 <= z < 256)%Z -> bval (mkb z) = z.
Proof. intros. rewrite bval_mkb. by apply Z.mod_small. Qed.
Lemma mkb_bval b : mkb (bval b) = b.
Proof.
  unfold mkb. rewrite Z.mod_small by apply bval_bound.
  unfold bval. by rewrite N2Z.id, ascii_N_embedding.
Qed.
#[global] Instance bval_inj : Inj (=) (=) bval.
Proof. intros a b H. rewrite <- (mkb_bval a), <- (mkb_bval b). by f_equal. Qed.
#[global] Instance as_bytes_inj : Inj (=) (=) String.list_ascii_of_string.
Proof.
  intros a b H. rewrite <- (String.string_of_list_ascii_of_string a).
  rewrite H. apply String.string_of_list_ascii_of_string.
Qed.
#[global] Instance from_bytes_inj : Inj (=) (=) String.string_of_list_ascii.
Proof.
  intros a b H. rewrite <- (String.list_ascii_of_string_of_list_ascii a).
  rewrite H. apply String.list_ascii_of_string_of_list_ascii.
Qed.
#[export] Hint Rewrite String.list_ascii_of_string_of_list_ascii String.string_of_list_ascii_of_string : pbr.
#[export] Hint Rewrite mkb_bval @length_app @length_map @length_fmap @length_drop @length_take : pbr.
#[export] Hint Resolve bval_bound : pbr.

(** [uN::to_be_bytes] / [uN::from_be_bytes] on [n]-byte arrays. *)
Fixpoint be_bytes (n : nat) (z : Z) : list byte :=
  match n with
  | O => []
  | S n => mkb (z / 256 ^ Z.of_nat n) :: be_bytes n z
  end.
Fixpoint be_value (l : list byte) : Z :=
  match l with
  | [] => 0
  | b :: l => bval b * 256 ^ Z.of_nat (length l) + be_value l
  end.

Lemma length_be_bytes n z : length (be_bytes n z) = n.
Proof. induction n; cbn; congruence. Qed.
Lemma be_value_bound l : (0 <= be_value l < 256 ^ Z.of_nat (length l))%Z.
Proof.
  induction l as [|b l IH]; [done|]. cbn [be_value length].
  pose proof (bval_bound b). rewrite Nat2Z.inj_succ, Z.pow_succ_r by lia. nia.
Qed.
Lemma be_value_be_bytes n z : be_value (be_bytes n z) = (z mod 256 ^ Z.of_nat n)%Z.
Proof.
  induction n as [|n IH]; cbn [be_bytes be_value]; [by rewrite Z.mod_1_r|].
  rewrite IH, length_be_bytes, bval_mkb, Nat2Z.inj_succ, Z.pow_succ_r by lia.
  rewrite (Z.mul_comm 256), Z.rem_mul_r by lia. lia.
Qed.
Lemma be_value_be_bytes_small n z :
  (0 <= z < 256 ^ Z.of_nat n)%Z -> be_value (be_bytes n z) = z.
Proof. intros. rewrite be_value_be_bytes. by apply Z.mod_small. Qed.
Lemma be_value_inj l k : length l = length k -> be_value l = be_value k -> l = k.
Proof.
  revert k. induction l as [|b l IH]; intros [|c k]; cbn [be_value length]; try done.
  intros [= Hlen] H. rewrite Hlen in H.
  pose proof (be_value_bound l) as Hl. pose proof (be_value_bound k) as Hk. rewrite Hlen in Hl.
  pose proof (bval_bound b). pose proof (bval_bound c).
  assert (bval b = bval c) as Hbc by nia. apply (inj bval) in Hbc as ->. f_equal. apply IH; lia.
Qed.
Lemma be_bytes_be_value l : be_bytes (length l) (be_value l) = l.
Proof.
  apply be_value_inj; [apply length_be_bytes|].
  apply be_value_be_bytes_small, be_value_bound.
Qed.

(** Little-endian encoding. *)
Definition le_bytes (n : nat) (z : Z) : list byte := reverse (be_bytes n z).

(** * Slices: [s.get(a..b)] *)

Definition get_range {A} (l : list A) (a b : Z) : option (list A) :=
  if (0 <=? a)%Z && (a <=? b)%Z && (b <=? Z.of_nat (length l))%Z
  then Some (take (Z.to_nat (b - a)) (drop (Z.to_nat a) l)) else None.

Lemma get_range_Some {A} (l : list A) a b k :
  get_range l a b = Some k <->
  (0 <= a <= b)%Z /\ (b <= Z.of_nat (length l))%Z /\ k = take (Z.to_nat (b - a)) (drop (Z.to_nat a) l).
Proof.
  unfold get_range.
  destruct (0 <=? a)%Z eqn:?, (a <=? b)%Z eqn:?, (b <=? Z.of_nat (length l))%Z eqn:?; naive_solver lia.
Qed.
Lemma get_range_app {A} (pre mid post : list A) a b :
  a = Z.of_nat (length pre) -> b = (a + Z.of_nat (length mid))%Z ->
  get_range (pre ++ mid ++ post) a b = Some mid.
Proof.
  intros -> ->. apply get_range_Some. rewrite !length_app. split; [lia|split; [lia|]].
  rewrite Nat2Z.id, drop_app_length, Z.add_simpl_l, Nat2Z.id, take_app_length. done.
Qed.
Lemma get_range_split {A} (l : list A) a b k :
  get_range l a b = Some k ->
  exists pre post, l = pre ++ k ++ post /\ a = Z.of_nat (length pre) /\
    b = (a + Z.of_nat (length k))%Z.
Proof.
  intros (?&?&->)%get_range_Some.
  exists (take (Z.to_nat a) l), (drop (Z.to_nat (b - a)) (drop (Z.to_nat a) l)).
  rewrite !take_drop, !length_take, !length_drop. split; [done|lia].
Qed.

Lemma get_range_join {A} (l : list A) a b c x y :
  get_range l a b = Some x -> get_range l b c = Some y -> get_range l a c = Some (x ++ y).
Proof.
  rewrite !get_range_Some. intros (?&?&->) (?&?&->). split; [lia|]. split; [lia|].
  replace (Z.to_nat (c - a)) with (Z.to_nat (b - a) + Z.to_nat (c - b)) by lia.
  rewrite <- (take_drop (Z.to_nat (b - a)) (drop (Z.to_nat a) l)) at 2.
  rewrite <- take_take_drop, !take_drop, drop_drop. repeat f_equal; lia.
Qed.
Lemma get_range_empty {A} (l : list A) a :
  (0 <= a <= Z.of_nat (length l))%Z -> get_range l a a = Some [].
Proof. intros. apply get_range_Some. rewrite Z.sub_diag. split; [lia|]. split; [lia|done]. Qed.
Lemma get_range_length {A} (l : list A) a b x :
  get_range l a b = Some x -> b = (a + Z.of_nat (length x))%Z /\ (0 <= a)%Z
    /\ (b <= Z.of_nat (length l))%Z.
Proof. intros (?&?&->)%get_range_Some. rewrite length_take, length_drop. lia. Qed.
Lemma get_range_full {A} (l x : list A) : get_range l 0 (Z.of_nat (length l)) = Some x -> x = l.
Proof. intros (_&_&->)%get_range_Some. rewrite Z.sub_0_r, Nat2Z.id. by apply take_ge. Qed.

(** A byte string literal of the source, with its double quotes written as single
    quotes; no literal that is written this way has a single quote. *)
Definition literal (text : string) : list byte :=
  map (fun b => if bool_decide (b = "'"%char) then mkb 34 else b) (String.list_ascii_of_string text).

(** * [core::str::from_utf8]: well-formed UTF-8 *)

Definition byte_in (lo hi : Z) (b : byte) : bool := (lo <=? bval b)%Z && (bval b <=? hi)%Z.
Definition continuation : byte -> bool := byte_in 0x80 0xbf.

Fixpoint utf8_valid (l : list byte) : bool :=
  match l with
  | [] => true
  | a :: l =>
    if byte_in 0x00 0x7f a then utf8_valid l else
    match l with
    | [] => false
    | b :: l =>
      if byte_in 0xc2 0xdf a && continuation b then utf8_valid l else
      match l with
      | [] => false
      | c :: l =>
        if ((byte_in 0xe0 0xe0 a && byte_in 0xa0 0xbf b)
            || (byte_in 0xe1 0xec a && continuation b)
            || (byte_in 0xed 0xed a && byte_in 0x80 0x9f b)
            || (byte_in 0xee 0xef a && continuation b)) && continuation c
        then utf8_valid l else
        match l with
        | [] => false
        | d :: l =>
          if ((byte_in 0xf0 0xf0 a && byte_in 0x90 0xbf b)
              || (byte_in 0xf1 0xf3 a && continuation b)
              || (byte_in 0xf4 0xf4 a && byte_in 0x80 0x8f b))
             && continuation c && continuation d
          then utf8_valid l else false
        end
      end
    end
  end.

(** A Rust [String] holds well-formed UTF-8. *)
Definition str_ok (s : string) : bool := utf8_valid (String.list_ascii_of_string s).
Definition from_utf8 (l : list byte) : option string :=
  if utf8_valid l then Some (String.string_of_list_ascii l) else None.

Lemma from_utf8_Some l s :
  from_utf8 l = Some s <-> String.list_ascii_of_string s = l /\ str_ok s = true.
Proof.
  unfold from_utf8, str_ok. destruct (utf8_valid l) eqn:Hl; split.
  - intros [= <-]. autorewrite with pbr. done.
  - intros [<- _]. autorewrite with pbr. done.
  - done.
  - intros [<- ?]. congruence.
Qed.

Lemma utf8_valid_ascii l : Forall (fun b => byte_in 0x00 0x7f b = true) l -> utf8_valid l = true.
Proof. induction 1 as [|b l Hb _ IH]; [done|]. cbn [utf8_valid]. by rewrite Hb. Qed.

(** * Lowercase hexadecimal

    The loops over [HEX[byte >> 4]], [HEX[byte & 0x0f]] and the nibble parser,
    which several modules of the program repeat; [e] is the caller's error. *)

Definition HEX : list byte := String.list_ascii_of_string "0123456789abcdef".
Definition hex_char (nibble : Z) : byte := nth (Z.to_nat nibble) HEX "0"%char.
Definition hex_pair (b : byte) : list byte :=
  [hex_char (Z.shiftr (bval b) 4); hex_char (Z.land (bval b) 0x0f)].
Definition hex_bytes (l : list byte) : list byte := concat (map hex_pair l).
Definition hex_nibble_or {E} (e : E) (value : byte) : result E Z :=
  if byte_in 48 57 value then Ok (bval value - 48)%Z
  else if byte_in 97 102 value then Ok (bval value - 97 + 10)%Z
  else Err e.
(** [(hex_nibble(input[index * 2])? << 4) | hex_nibble(input[index * 2 + 1])?] for
    every index of the output array. *)
Definition unhex_at {E} (e : E) (input : list byte) (index : nat) : result E byte :=
  high ← hex_nibble_or e (nth (index * 2) input "0"%char);
  low ← hex_nibble_or e (nth (index * 2 + 1) input "0"%char);
  Ok (mkb (Z.lor (Z.shiftl high 4) low)).
Definition unhex {E} (e : E) (n : nat) (input : list byte) : result E (list byte) :=
  mapM (unhex_at e input) (seq 0 n).
Definition is_hex (b : byte) : bool := byte_in 48 57 b || byte_in 97 102 b.

(** Decides a property of one byte by computation over all of them. *)
Definition all_bytes (p : byte -> bool) : bool := forallb (fun z => p (mkb z)) (seqZ 0 256).
Lemma all_bytes_spec p b : all_bytes p = true -> p b = true.
Proof.
  unfold all_bytes. rewrite forallb_forall. intros Hp. rewrite <- (mkb_bval b).
  apply Hp, list_elem_of_In, elem_of_seqZ. pose proof (bval_bound b). lia.
Qed.

Lemma Forall2_elem_left {A B} (R : A -> B -> Prop) l k x :
  Forall2 R l k -> x ∈ l -> exists y, y ∈ k /\ R x y.
Proof.
  intros H (i & Hi)%list_elem_of_lookup. destruct (Forall2_lookup_l R l k i x H Hi) as (y & Hy & HR).
  exists y. split; [by eapply list_elem_of_lookup_2|done].
Qed.
Lemma Forall2_elem_right {A B} (R : A -> B -> Prop) l k y :
  Forall2 R l k -> y ∈ k -> exists x, x ∈ l /\ R x y.
Proof.
  intros H (i & Hi)%list_elem_of_lookup. destruct (Forall2_lookup_r R l k i y H Hi) as (x & Hx & HR).
  exists x. split; [by eapply list_elem_of_lookup_2|done].
Qed.
Lemma nth_lookup_lt {A} (l : list A) i d : i < length l -> l !! i = Some (nth i l d).
Proof. intros [x Hx]%lookup_lt_is_Some_2. rewrite Hx. f_equal. symmetry. by apply nth_lookup_Some. Qed.
Lemma length_hex_bytes l : length (hex_bytes l) = 2 * length l.
Proof. unfold hex_bytes. induction l; cbn in *; lia. Qed.
Lemma hex_bytes_app l k : hex_bytes (l ++ k) = hex_bytes l ++ hex_bytes k.
Proof. unfold hex_bytes. by rewrite map_app, concat_app. Qed.
Lemma hex_nibble_char {E} (e : E) z : (0 <= z < 16)%Z -> hex_nibble_or e (hex_char z) = Ok z.
Proof.
  intros Hz. destruct z as [|p|p]; [reflexivity| |lia].
  do 4 (destruct p as [p|p|]; try lia; try reflexivity).
Qed.
Lemma nibble_bounds b : (0 <= Z.shiftr (bval b) 4 < 16)%Z /\ (0 <= Z.land (bval b) 0x0f < 16)%Z.
Proof.
  pose proof (bval_bound b). rewrite Z.shiftr_div_pow2 by lia. change 0x0f%Z with (Z.ones 4).
  rewrite Z.land_ones by lia. change (2 ^ 4)%Z with 16%Z.
  pose proof (Z.mod_pos_bound (bval b) 16).
  split; [split; [by apply Z.div_pos; lia|apply Z.div_lt_upper_bound; lia]|lia].
Qed.
Lemma nibbles_join b : mkb (Z.lor (Z.shiftl (Z.shiftr (bval b) 4) 4) (Z.land (bval b) 0x0f)) = b.
Proof.
  pose proof (all_bytes_spec (fun b => (mkb (Z.lor (Z.shiftl (Z.shiftr (bval b) 4) 4)
    (Z.land (bval b) 0x0f)) =? b)%char) b) as H. apply Ascii.eqb_eq, H. vm_compute. reflexivity.
Qed.
(** Two hexadecimal characters are the pair of the byte they denote. *)
Lemma hex_nibble_inv {E} (e : E) b z :
  hex_nibble_or e b = Ok z -> (0 <= z < 16)%Z /\ hex_char z = b.
Proof.
  intros Hz.
  pose proof (all_bytes_spec (fun b => match hex_nibble_or () b with
    | Ok z => ((0 <=? z) && (z <? 16))%Z && (hex_char z =? b)%char | Err _ => true end) b) as Hb.
  cbn beta in Hb. specialize (Hb ltac:(vm_compute; reflexivity)).
  assert (hex_nibble_or () b = Ok z) as Heq.
  { revert Hz. unfold hex_nibble_or. by repeat case_match; intros [= <-]. }
  rewrite Heq in Hb.
  apply andb_true_iff in Hb as [[? ?]%andb_true_iff ?%Ascii.eqb_eq].
  split; [lia|done].
Qed.
Lemma nibble_pair_inv hi lo :
  (0 <= hi < 16)%Z -> (0 <= lo < 16)%Z ->
  hex_pair (mkb (Z.lor (Z.shiftl hi 4) lo)) = [hex_char hi; hex_char lo].
Proof.
  intros Hhi Hlo. assert (In hi (seqZ 0 16)) as Hi by (apply list_elem_of_In, elem_of_seqZ; lia).
  assert (In lo (seqZ 0 16)) as Hl by (apply list_elem_of_In, elem_of_seqZ; lia).
  assert (forallb (fun hi => forallb (fun lo => bool_decide
    (hex_pair (mkb (Z.lor (Z.shiftl hi 4) lo)) = [hex_char hi; hex_char lo])) (seqZ 0 16)) (seqZ 0 16)
    = true) as Hall by (vm_compute; reflexivity).
  rewrite forallb_forall in Hall. specialize (Hall _ Hi). rewrite forallb_forall in Hall.
  by eapply bool_decide_eq_true_1, Hall.
Qed.

Lemma unhex_at_hex {E} (e : E) l i b :
  l !! i = Some b -> unhex_at e (hex_bytes l) i = Ok b.
Proof.
  intros Hb. pose proof (lookup_lt_Some _ _ _ Hb) as Hi.
  pose proof (take_drop_middle _ _ _ Hb) as Hl.
  assert (exists l1 l2, l = l1 ++ b :: l2 /\ i = length l1) as (l1 & l2 & -> & ->).
  { exists (take i l), (drop (S i) l). rewrite Hl, length_take. split; [done|lia]. }
  clear Hb Hi Hl.
  unfold unhex_at. rewrite hex_bytes_app.
  rewrite !app_nth2 by (rewrite length_hex_bytes; lia). rewrite length_hex_bytes.
  replace (length l1 * 2 - 2 * length l1) with 0 by lia.
  replace (length l1 * 2 + 1 - 2 * length l1) with 1 by lia.
  change (hex_bytes (b :: l2)) with (hex_pair b ++ hex_bytes l2). cbn [hex_pair app nth].
  destruct (nibble_bounds b). rewrite hex_nibble_char by done. cbn [mbind result_bind].
  rewrite hex_nibble_char by done. cbn [mbind result_bind]. by rewrite nibbles_join.
Qed.
Lemma unhex_hex {E} (e : E) l : unhex e (length l) (hex_bytes l) = Ok l.
Proof.
  unfold unhex. apply mapM_Ok. apply Forall2_same_length_lookup_2; [by rewrite length_seq|].
  intros i x y Hx Hy. apply lookup_seq in Hx as [-> _]. by apply unhex_at_hex.
Qed.
Lemma unhex_inv {E} (e : E) n input l :
  length input = 2 * n -> unhex e n input = Ok l -> hex_bytes l = input /\ length l = n.
Proof.
  unfold unhex. intros Hlen H%mapM_Ok. revert input Hlen l H.
  assert (forall k input l, length input = 2 * (k + n) -> Forall2 (fun i b => unhex_at e input i = Ok b)
    (seq k n) l -> hex_bytes l = drop (2 * k) input /\ length l = n) as Hgen.
  { induction n as [|n IH]; intros k input l Hlen H; cbn in H; inversion H; subst.
    { rewrite drop_ge by lia. done. }
    rename l' into l.
    match goal with Hb : unhex_at _ _ k = Ok ?b |- _ => rename Hb into Hk; rename b into x end.
    destruct (IH (S k) input l) as [Hl <-]; [lia|done|]. split; [|done].
    change (hex_bytes (x :: l)) with (hex_pair x ++ hex_bytes l). rewrite Hl.
    unfold unhex_at in Hk. apply bind_Ok in Hk as (hi & Hhi & Hk). apply bind_Ok in Hk as (lo & Hlo & [= <-]).
    apply hex_nibble_inv in Hhi as [Hhi Hc1]. apply hex_nibble_inv in Hlo as [Hlo Hc2].
    rewrite nibble_pair_inv, Hc1, Hc2 by done.
    replace (2 * S k) with (S (S (2 * k))) by lia. replace (k * 2) with (2 * k) by lia.
    replace (2 * k + 1) with (S (2 * k)) by lia.
    rewrite (drop_S input (nth (2 * k) input "0"%char) (2 * k)) by (apply nth_lookup_lt; lia).
    rewrite (drop_S input (nth (S (2 * k)) input "0"%char) (S (2 * k))) by (apply nth_lookup_lt; lia).
    done. }
  intros input Hlen l H. by apply (Hgen 0).
Qed.

(** The characters of hexadecimal text. *)
Lemma hex_is_hex l : forallb is_hex (hex_bytes l) = true.
Proof.
  induction l as [|b l IH]; [done|]. unfold hex_bytes in *. cbn [map concat]. rewrite forallb_app, IH, andb_true_r.
  apply (all_bytes_spec (fun b => forallb is_hex (hex_pair b))). vm_compute. reflexivity.
Qed.
Lemma is_hex_nibble {E} (e : E) b : is_hex b = true -> exists z, hex_nibble_or e b = Ok z.
Proof. unfold is_hex, hex_nibble_or. intros H. repeat case_match; naive_solver. Qed.
Lemma unhex_is_hex {E} (e : E) n l :
  length l = n * 2 -> forallb is_hex l = true -> exists d, unhex e n l = Ok d.
Proof.
  intros Hlen Hhex. unfold unhex. rewrite forallb_forall in Hhex.
  assert (forall i, i < n -> exists b, unhex_at e l i = Ok b) as Hat.
  { intros i Hi. unfold unhex_at.
    assert (forall k, k < length l -> exists z, hex_nibble_or e (nth k l "0"%char) = Ok z) as Hn.
    { intros k Hk. apply is_hex_nibble, Hhex. apply list_elem_of_In, list_elem_of_lookup. exists k. by apply nth_lookup_lt. }
    destruct (Hn (i * 2)) as [x ->]; [lia|]. destruct (Hn (i * 2 + 1)) as [y ->]; [lia|]. cbn. by eexists. }
  clear Hlen. assert (forall k m, k + m = n -> exists d, mapM (unhex_at e l) (seq k m) = Ok d) as Hm; [|by apply Hm].
  intros k m. revert k. induction m as [|m IH]; intros k Hk; cbn; [by eexists|].
  destruct (Hat k) as [b ->]; [lia|]. destruct (IH (S k)) as [d ->]; [lia|]. by eexists.
Qed.
Lemma is_hex_ascii b : is_hex b = true -> byte_in 0x00 0x7f b = true.
Proof. unfold is_hex, byte_in. rewrite orb_true_iff, !andb_true_iff, !Z.leb_le. lia. Qed.

(** * Decimal text of a [u64]: [to_string] and [str::parse]

    Twenty digits hold every [u64], which is the fuel of the printing loop. *)

Definition is_digit : byte -> bool := byte_in 48 57.
Definition digit_byte (z : Z) : byte := mkb (48 + z).
Definition digit_value (b : byte) : Z := (bval b - 48)%Z.
Fixpoint decimal_digits (fuel : nat) (z : Z) (acc : list byte) : list byte :=
  match fuel with
  | O => acc
  | S fuel =>
    if (z <? 10)%Z then digit_byte z :: acc
    else decimal_digits fuel (z / 10) (digit_byte (z mod 10) :: acc)
  end.
Definition u64_decimal (z : Z) : list byte := decimal_digits 20 z [].
Definition u64_to_string (z : Z) : string := String.string_of_list_ascii (u64_decimal z).

Fixpoint parse_digits (acc : Z) (l : list byte) : option Z :=
  match l with
  | [] => Some acc
  | b :: l =>
    if is_digit b then
      shifted ← u64_checked_mul acc 10;
      sum ← u64_checked_add shifted (digit_value b);
      parse_digits sum l
    else None
  end.
Definition u64_parse (l : list byte) : option Z :=
  match l with
  | [] => None
  | b :: rest =>
    if bool_decide (b = "+"%char) then match rest with [] => None | _ => parse_digits 0 rest end
    else parse_digits 0 l
  end.

Lemma digit_byte_spec z :
  (0 <= z < 10)%Z -> is_digit (digit_byte z) = true /\ digit_value (digit_byte z) = z.
Proof.
  intros. unfold is_digit, byte_in, digit_value, digit_byte. rewrite bval_mkb_small by lia.
  split; [|lia]. apply andb_true_iff. lia.
Qed.
Lemma is_digit_spec b : is_digit b = true -> (0 <= digit_value b < 10)%Z /\ digit_byte (digit_value b) = b.
Proof.
  unfold is_digit, byte_in, digit_value, digit_byte. rewrite andb_true_iff. intros ?.
  split; [lia|]. rewrite Z.add_sub_assoc, Z.add_simpl_l. apply mkb_bval.
Qed.
Lemma parse_digits_cons acc b l :
  (0 <= acc)%Z -> is_digit b = true ->
  parse_digits acc (b :: l)
  = if (acc * 10 + digit_value b <? u64_bound)%Z then parse_digits (acc * 10 + digit_value b) l else None.
Proof.
  intros Hacc Hb. pose proof (is_digit_spec b Hb) as [? _]. cbn [parse_digits]. rewrite Hb.
  unfold u64_checked_mul, u64_checked_add, try_from.
  rewrite (proj2 (Z.leb_le 0 (acc * 10))) by lia. cbn [andb].
  destruct (acc * 10 <? u64_bound)%Z eqn:?; cbn [mbind option_bind].
  - rewrite (proj2 (Z.leb_le 0 (acc * 10 + digit_value b))) by lia. cbn [andb].
    by destruct (acc * 10 + digit_value b <? u64_bound)%Z.
  - destruct (acc * 10 + digit_value b <? u64_bound)%Z eqn:?; [lia|done].
Qed.
Lemma parse_decimal_digits fuel z acc :
  (0 <= z < u64_bound)%Z -> (z < 10 ^ Z.of_nat fuel)%Z -> fuel <> 0 ->
  parse_digits 0 (decimal_digits fuel z acc) = parse_digits z acc.
Proof.
  revert z acc. induction fuel as [|fuel IH]; intros z acc Hz Hf H0; [done|]. cbn [decimal_digits].
  destruct (z <? 10)%Z eqn:H10.
  - destruct (digit_byte_spec z) as [Hd Hv]; [lia|]. rewrite parse_digits_cons by done.
    rewrite Hv, Z.add_0_l. destruct (z <? u64_bound)%Z eqn:?; [done|lia].
  - rewrite Nat2Z.inj_succ, Z.pow_succ_r in Hf by lia.
    pose proof (Z.mod_pos_bound z 10) as Hmod. pose proof (Z.div_mod z 10) as Hdm.
    assert (fuel <> 0) by (intros ->; cbn in Hf; lia).
    rewrite IH; [|split; [by apply Z.div_pos; lia|]; nia|apply Z.div_lt_upper_bound; lia|done].
    destruct (digit_byte_spec (z mod 10)) as [Hd Hv]; [lia|].
    rewrite parse_digits_cons; [|by apply Z.div_pos; lia|done]. rewrite Hv.
    replace (z / 10 * 10 + z mod 10)%Z with z by lia. destruct (z <? u64_bound)%Z eqn:?; [done|lia].
Qed.
Lemma decimal_head fuel z acc :
  (0 <= z)%Z -> (z < 10 ^ Z.of_nat fuel)%Z -> fuel <> 0 ->
  exists b rest, decimal_digits fuel z acc = b :: rest /\ is_digit b = true
    /\ (digit_value b = 0%Z -> z = 0%Z /\ rest = acc).
Proof.
  revert z acc. induction fuel as [|fuel IH]; intros z acc Hz Hf H0; [done|]. cbn [decimal_digits].
  destruct (z <? 10)%Z eqn:H10.
  - destruct (digit_byte_spec z) as [Hd Hv]; [lia|]. exists (digit_byte z), acc.
    split; [done|]. split; [done|]. rewrite Hv. done.
  - rewrite Nat2Z.inj_succ, Z.pow_succ_r in Hf by lia.
    pose proof (Z.mod_pos_bound z 10) as Hmod. pose proof (Z.div_mod z 10) as Hdm.
    assert (fuel <> 0) by (intros ->; cbn in Hf; lia).
    destruct (IH (z / 10)%Z (digit_byte (z mod 10) :: acc)) as (b & rest & Heq & Hb & Hz0);
      [by apply Z.div_pos; lia|apply Z.div_lt_upper_bound; lia|done|].
    exists b, rest. split; [done|]. split; [done|]. intros Hv. apply Hz0 in Hv as [Hv _].
    rewrite Hv in Hdm. lia.
Qed.
Lemma u64_fuel z : (0 <= z < u64_bound)%Z -> (z < 10 ^ Z.of_nat 20)%Z.
Proof. intros [_ ?]. eapply Z.lt_trans; [done|]. by vm_compute. Qed.
Lemma u64_parse_decimal z : (0 <= z < u64_bound)%Z -> u64_parse (u64_decimal z) = Some z.
Proof.
  intros Hz. pose proof (u64_fuel z Hz). pose proof (parse_decimal_digits 20 z [] Hz) as Hp.
  destruct (decimal_head 20 z []) as (b & rest & Heq & Hb & _); [lia|done|done|].
  unfold u64_parse, u64_decimal in *. rewrite Heq in *. rewrite bool_decide_eq_false_2; [auto|].
  intros ->. by vm_compute in Hb.
Qed.
Lemma decimal_digits_app fuel z acc : decimal_digits fuel z acc = decimal_digits fuel z [] ++ acc.
Proof.
  revert z acc. induction fuel as [|fuel IH]; intros z acc; [done|]. cbn.
  destruct (z <? 10)%Z; [done|]. rewrite (IH _ (_ :: acc)), (IH _ [_]), <- app_assoc. done.
Qed.
Lemma all_digits_decimal fuel z acc :
  (0 <= z)%Z -> forallb is_digit acc = true -> forallb is_digit (decimal_digits fuel z acc) = true.
Proof.
  revert z acc. induction fuel as [|fuel IH]; intros z acc Hz Hacc; [done|]. cbn [decimal_digits].
  pose proof (Z.mod_pos_bound z 10).
  destruct (z <? 10)%Z eqn:H10.
  - cbn. rewrite Hacc, (proj1 (digit_byte_spec z ltac:(lia))). done.
  - apply IH; [by apply Z.div_pos; lia|]. cbn.
    rewrite Hacc, (proj1 (digit_byte_spec (z mod 10) ltac:(lia))). done.
Qed.
Lemma decimal_digits_S fuel z acc :
  decimal_digits (S fuel) z acc
  = if (z <? 10)%Z then digit_byte z :: acc
    else decimal_digits fuel (z / 10) (digit_byte (z mod 10) :: acc).
Proof. done. Qed.
(** More fuel than digits changes nothing. *)
Lemma decimal_digits_fuel fuel z acc :
  (0 <= z)%Z -> (z < 10 ^ Z.of_nat fuel)%Z -> fuel <> 0 ->
  decimal_digits (S fuel) z acc = decimal_digits fuel z acc.
Proof.
  revert z acc. induction fuel as [|fuel IH]; intros z acc Hz Hf H0; [done|].
  rewrite decimal_digits_S, (decimal_digits_S fuel z acc).
  destruct (z <? 10)%Z eqn:H10; [done|].
  rewrite Nat2Z.inj_succ, Z.pow_succ_r in Hf by lia.
  apply IH; [by apply Z.div_pos; lia|apply Z.div_lt_upper_bound; lia|intros ->; cbn in Hf; lia].
Qed.
Lemma parse_digits_app acc l k :
  parse_digits acc (l ++ k) = (v ← parse_digits acc l; parse_digits v k).
Proof.
  revert acc. induction l as [|b l IH]; intros acc; cbn; [done|]. destruct (is_digit b); [|done].
  destruct (u64_checked_mul acc 10); cbn; [|done]. destruct (u64_checked_add _ _); cbn; [apply IH|done].
Qed.
Lemma parse_digits_bound acc l z :
  (0 <= acc < u64_bound)%Z -> parse_digits acc l = Some z -> (acc <= z < u64_bound)%Z.
Proof.
  revert acc. induction l as [|b l IH]; intros acc Hacc; [naive_solver|].
  destruct (is_digit b) eqn:Hb; [|cbn; by rewrite Hb].
  pose proof (is_digit_spec b Hb) as [? _].
  rewrite parse_digits_cons by (done || lia). destruct (_ <? _)%Z eqn:?; [|done].
  intros ?%IH; lia.
Qed.
(** A digit string without a leading zero is the decimal text of its value. *)
Lemma decimal_of_parse l z :
  l <> [] -> (length l = 1 \/ head l <> Some "0"%char) ->
  parse_digits 0 l = Some z -> u64_decimal z = l /\ (0 <= z < u64_bound)%Z.
Proof.
  revert z. induction l as [|d l IH] using rev_ind; intros z Hne Hhead Hp; [done|].
  rewrite parse_digits_app in Hp. apply bind_Some in Hp as (v & Hv & Hd).
  pose proof (parse_digits_bound 0 l v ltac:(by vm_compute) Hv) as Hvb.
  destruct (is_digit d) eqn:Hdd; [|cbn in Hd; by rewrite Hdd in Hd].
  pose proof (is_digit_spec d Hdd) as [Hdv Hdb].
  rewrite parse_digits_cons in Hd by (done || lia). destruct (_ <? _)%Z eqn:Hlt; [|done].
  cbn in Hd. injection Hd as <-. split; [|lia].
  destruct l as [|a l].
  { cbn in Hv. injection Hv as <-. unfold u64_decimal. change 20 with (S 19). cbn [decimal_digits].
    rewrite Z.mul_0_l, Z.add_0_l. destruct (_ <? 10)%Z eqn:?; [|lia]. by rewrite Hdb. }
  assert (head (a :: l) <> Some "0"%char) as Hh.
  { destruct Hhead as [Hl|Hh]; [cbn in Hl; rewrite length_app in Hl; cbn in Hl; lia|exact Hh]. }
  destruct (IH v) as [Hdec _]; [done|by right|done|].
  assert (v <> 0%Z) as Hv0.
  { intros ->. vm_compute in Hdec. injection Hdec as <- <-. done. }
  rewrite <- Hdec. unfold u64_decimal. pose proof (u64_fuel v ltac:(lia)).
  rewrite <- (decimal_digits_fuel 20 (v * 10 + digit_value d));
    [|lia|apply u64_fuel; lia|done].
  rewrite decimal_digits_S. destruct (v * 10 + digit_value d <? 10)%Z eqn:?; [lia|].
  replace ((v * 10 + digit_value d) / 10)%Z with v
    by (apply (Z.div_unique _ 10 v (digit_value d)); lia).
  replace ((v * 10 + digit_value d) mod 10)%Z with (digit_value d)
    by (apply (Z.mod_unique _ 10 v (digit_value d)); lia).
  by rewrite decimal_digits_app, Hdb.
Qed.

(** * Splitting text: [str::split] on a one-byte separator *)

Fixpoint split_on (sep : byte) (l : list byte) : list (list byte) :=
  match l with
  | [] => [[]]
  | b :: l =>
    if bool_decide (b = sep) then [] :: split_on sep l
    else match split_on sep l with
         | [] => [[b]]
         | c :: cs => (b :: c) :: cs
         end
  end.
Definition is_lower : byte -> bool := byte_in 97 122.
(** [Option::is_some_and] on [first()] and [last()]. *)
Definition option_test (p : byte -> bool) (o : option byte) : bool :=
  match o with Some b => p b | None => false end.
Definition last_byte (l : list byte) : option byte := head (reverse l).

(** The inverse of [split_on]. *)
Fixpoint join_with (sep : byte) (parts : list (list byte)) : list byte :=
  match parts with
  | [] => []
  | [p] => p
  | p :: parts => p ++ sep :: join_with sep parts
  end.

Lemma split_on_cons sep l : exists c cs, split_on sep l = c :: cs.
Proof.
  destruct l as [|b l]; cbn; [eauto|]. case_bool_decide; [eauto|]. destruct (split_on sep l); eauto.
Qed.
Lemma split_on_join sep l : join_with sep (split_on sep l) = l.
Proof.
  induction l as [|b l IH]; [done|]. cbn [split_on]. destruct (split_on_cons sep l) as (c & cs & Hc).
  rewrite Hc in IH |- *. case_bool_decide as Hb; cbn [join_with].
  - change (sep :: join_with sep (c :: cs) = b :: l). by rewrite IH, Hb.
  - destruct cs; cbn [join_with app] in IH |- *; by rewrite IH.
Qed.
Lemma split_on_parts sep l : Forall (fun p => sep ∉ p) (split_on sep l).
Proof.
  induction l as [|b l IH]; cbn [split_on]; [repeat constructor; by intros ?%elem_of_nil|].
  case_bool_decide as Hb; [constructor; [by intros ?%elem_of_nil|done]|].
  assert (sep <> b) by congruence.
  destruct IH as [|c cs Hc Hcs]; constructor; try done; rewrite not_elem_of_cons; split; try done.
  by apply not_elem_of_nil.
Qed.
Lemma split_on_app sep p l :
  sep ∉ p -> split_on sep (p ++ l) = match split_on sep l with c :: cs => (p ++ c) :: cs | [] => [] end.
Proof.
  induction p as [|b p IH]; intros Hp; cbn [app split_on].
  - by destruct (split_on_cons sep l) as (c & cs & ->).
  - rewrite elem_of_cons in Hp. rewrite bool_decide_eq_false_2 by naive_solver. rewrite IH by tauto.
    by destruct (split_on_cons sep l) as (c & cs & ->).
Qed.
(** [split_on] is the unique decomposition into separator-free parts. *)
Lemma split_on_iff sep l ps :
  split_on sep l = ps <-> ps <> [] /\ Forall (fun p => sep ∉ p) ps /\ join_with sep ps = l.
Proof.
  split.
  - intros <-. split; [|split; [apply split_on_parts|apply split_on_join]].
    by destruct (split_on_cons sep l) as (c & cs & ->).
  - intros (Hne & Hps & <-). induction Hps as [|p ps Hp Hps IH]; [done|]. clear Hne.
    destruct ps as [|q ps].
    + cbn [join_with]. rewrite <- (app_nil_r p) at 1. rewrite split_on_app by done. cbn. by rewrite app_nil_r.
    + cbn [join_with]. rewrite split_on_app by done. cbn [split_on]. rewrite bool_decide_eq_true_2 by done.
      cbn [join_with] in IH. rewrite IH by done. by rewrite app_nil_r.
Qed.
(** The parts of a text are over an alphabet when the text is over it and the separator. *)
Lemma split_on_elem sep l b : b ∈ l -> b = sep \/ exists p, p ∈ split_on sep l /\ b ∈ p.
Proof.
  rewrite <- (split_on_join sep l) at 1. generalize (split_on sep l). intros ps.
  induction ps as [|p ps IH]; [by intros ?%elem_of_nil|]. destruct ps as [|q ps].
  - cbn [join_with]. intros Hb. right. exists p. split; [by left|done].
  - change (join_with sep (p :: q :: ps)) with (p ++ sep :: join_with sep (q :: ps)).
    rewrite elem_of_app, elem_of_cons. intros [Hb|[->|Hb]]; [|by left|].
    + right. exists p. split; [by left|done].
    + destruct (IH Hb) as [->|(r & Hr & Hbr)]; [by left|]. right. exists r. split; [by right|done].
Qed.

(** * Total orders: the [Ord] trait and its laws

    [rcmp] is [Ord::cmp]; derived implementations compare fields in
    declaration order, which [ord_via] obtains from a tuple of the fields. *)

Class RustOrd (A : Type) := rcmp : A -> A -> comparison.
Class LawfulOrd (A : Type) `{RustOrd A} : Prop := {
  rcmp_Eq (a b : A) : rcmp a b = Eq <-> a = b;
  rcmp_opp (a b : A) : rcmp b a = CompOpp (rcmp a b);
  rcmp_Lt_trans (a b c : A) : rcmp a b = Lt -> rcmp b c = Lt -> rcmp a c = Lt
}.

Definition rlt `{RustOrd A} (a b : A) : bool := match rcmp a b with Lt => true | _ => false end.
Definition rle `{RustOrd A} (a b : A) : bool := match rcmp a b with Gt => false | _ => true end.
(** [Ordering::then]. *)
Definition cmp_then (c d : comparison) : comparison := match c with Eq => d | _ => c end.

#[global] Instance Z_ord : RustOrd Z := Z.compare.
#[global] Instance prod_ord A B `{RustOrd A, RustOrd B} : RustOrd (A * B) :=
  fun p q => cmp_then (rcmp p.1 q.1) (rcmp p.2 q.2).
Fixpoint list_cmp `{RustOrd A} (l k : list A) : comparison :=
  match l, k with
  | [], [] => Eq
  | [], _ :: _ => Lt
  | _ :: _, [] => Gt
  | a :: l, b :: k => cmp_then (rcmp a b) (list_cmp l k)
  end.
#[global] Instance list_ord A `{RustOrd A} : RustOrd (list A) := list_cmp.
Definition ord_via {A B} `{RustOrd B} (f : A -> B) : RustOrd A := fun a b => rcmp (f a) (f b).
#[global] Instance byte_ord : RustOrd ascii := ord_via bval.
#[global] Instance bool_ord : RustOrd bool := ord_via Z.b2z.
#[global] Instance string_ord : RustOrd string := ord_via String.list_ascii_of_string.

#[global] Instance Z_lawful : LawfulOrd Z.
Proof.
  split; unfold rcmp, Z_ord; intros *.
  - apply Z.compare_eq_iff.
  - apply Z.compare_antisym.
  - rewrite !Z.compare_lt_iff. lia.
Qed.
Lemma ord_via_lawful {A B} `{LawfulOrd B} (f : A -> B) `{!Inj (=) (=) f} :
  @LawfulOrd A (ord_via f).
Proof.
  split; unfold rcmp, ord_via; intros *.
  - rewrite rcmp_Eq. split; [apply (inj f)|congruence].
  - apply rcmp_opp.
  - apply rcmp_Lt_trans.
Qed.
#[global] Instance byte_lawful : LawfulOrd ascii.
Proof. apply (ord_via_lawful bval). Qed.
#[global] Instance bool_lawful : LawfulOrd bool.
Proof. assert (Inj (=) (=) Z.b2z) by (intros [] []; done). apply (ord_via_lawful Z.b2z). Qed.

Lemma rcmp_pair `{RustOrd A, RustOrd B} (a c : A) (b d : B) :
  rcmp (a, b) (c, d) = cmp_then (rcmp a c) (rcmp b d).
Proof. done. Qed.
Lemma rcmp_cons `{RustOrd A} (a b : A) l k :
  rcmp (a :: l) (b :: k) = cmp_then (rcmp a b) (rcmp l k).
Proof. done. Qed.

(** Hexadecimal text keeps the order of the bytes. *)
Lemma rcmp_hex_bytes (l k : list byte) :
  length l = length k -> rcmp (hex_bytes l) (hex_bytes k) = rcmp l k.
Proof.
  assert (forall a b : byte, rcmp (hex_pair a) (hex_pair b) = rcmp a b) as Hpair.
  { intros a b.
    assert (all_bytes (fun a => all_bytes (fun b =>
      bool_decide (rcmp (hex_pair a) (hex_pair b) = rcmp a b))) = true) as H by (vm_compute; reflexivity).
    pose proof (all_bytes_spec _ b (all_bytes_spec _ a H)) as Hab. exact (bool_decide_eq_true_1 _ Hab). }
  revert k. induction l as [|a l IH]; intros [|b k] Hl; try done. injection Hl as Hl.
  unfold hex_bytes in *. cbn [map concat]. rewrite rcmp_cons, <- (IH k Hl), <- (Hpair a b).
  unfold hex_pair. cbn [app]. rewrite !rcmp_cons.
  generalize (rcmp (hex_char (Z.shiftr (bval a) 4)) (hex_char (Z.shiftr (bval b) 4))).
  generalize (rcmp (hex_char (Z.land (bval a) 15)) (hex_char (Z.land (bval b) 15))).
  by intros [] [].
Qed.

(** Transitivity of a lexicographic step. *)
Lemma cmp_then_trans `{LawfulOrd A} (a b c : A) x y z :
  (x = Lt -> y = Lt -> z = Lt) ->
  cmp_then (rcmp a b) x = Lt -> cmp_then (rcmp b c) y = Lt -> cmp_then (rcmp a c) z = Lt.
Proof.
  intros Hxyz. destruct (rcmp a b) eqn:Hab; cbn; [| |done]; intros Hx.
  - apply rcmp_Eq in Hab as ->. destruct (rcmp b c); cbn; auto.
  - destruct (rcmp b c) eqn:Hbc; cbn; [| |done]; intros Hy.
    + apply rcmp_Eq in Hbc as ->. by rewrite Hab.
    + by rewrite (rcmp_Lt_trans _ _ _ Hab Hbc).
Qed.

#[global] Instance prod_lawful A B `{LawfulOrd A, LawfulOrd B} : LawfulOrd (A * B).
Proof.
  split.
  - intros [a b] [c d]. rewrite rcmp_pair. pose proof (rcmp_Eq a c). pose proof (rcmp_Eq b d).
    destruct (rcmp a c); cbn; naive_solver.
  - intros [a b] [c d]. rewrite !rcmp_pair, (rcmp_opp a c), (rcmp_opp b d). by destruct (rcmp a c).
  - intros [a b] [c d] [e f]. rewrite !rcmp_pair. apply cmp_then_trans, rcmp_Lt_trans.
Qed.

#[global] Instance list_lawful A `{LawfulOrd A} : LawfulOrd (list A).
Proof.
  split.
  - intros l. induction l as [|a l IH]; intros [|b k]; try done. rewrite rcmp_cons.
    pose proof (rcmp_Eq a b). specialize (IH k). destruct (rcmp a b); cbn; naive_solver.
  - intros l. induction l as [|a l IH]; intros [|b k]; try done. rewrite !rcmp_cons.
    rewrite (rcmp_opp a b), IH. by destruct (rcmp a b).
  - intros l. induction l as [|a l IH]; intros [|b k] [|c m]; try done.
    rewrite !rcmp_cons. apply cmp_then_trans, IH.
Qed.
#[global] Instance string_lawful : LawfulOrd string.
Proof. apply (ord_via_lawful String.list_ascii_of_string). Qed.

Section ord_lemmas.
Context `{LawfulOrd A}.
Implicit Types a b c : A.

Lemma rlt_Lt a b : rlt a b = true <-> rcmp a b = Lt.
Proof. unfold rlt. destruct (rcmp a b); naive_solver. Qed.
Lemma rcmp_refl a : rcmp a a = Eq.
Proof. by apply rcmp_Eq. Qed.
Lemma rlt_irrefl a : rlt a a = false.
Proof. unfold rlt. by rewrite rcmp_refl. Qed.
Lemma rlt_trans a b c : rlt a b = true -> rlt b c = true -> rlt a c = true.
Proof. rewrite !rlt_Lt. apply rcmp_Lt_trans. Qed.
Lemma rle_rlt a b : rle a b = negb (rlt b a).
Proof. unfold rle, rlt. rewrite (rcmp_opp a b). by destruct (rcmp a b). Qed.
Lemma rlt_ne a b : rlt a b = true -> a <> b.
Proof. intros Hl ->. by rewrite rlt_irrefl in Hl. Qed.
Lemma rlt_asym a b : rlt a b = true -> rlt b a = false.
Proof. unfold rlt. rewrite (rcmp_opp a b). by destruct (rcmp a b). Qed.
Lemma rlt_total a b : rlt a b = true \/ a = b \/ rlt b a = true.
Proof.
  unfold rlt. rewrite (rcmp_opp a b). destruct (rcmp a b) eqn:Hc; cbn; auto.
  right; left. by apply rcmp_Eq.
Qed.
Lemma rle_rlt_eq a b : rle a b = true <-> rlt a b = true \/ a = b.
Proof.
  rewrite rle_rlt. destruct (rlt_total a b) as [Hl|[->|Hl]].
  - rewrite (rlt_asym _ _ Hl); naive_solver.
  - rewrite rlt_irrefl; naive_solver.
  - rewrite Hl. split; [done|]. intros [Hl'| ->]; [by rewrite (rlt_asym _ _ Hl') in Hl|].
    by rewrite rlt_irrefl in Hl.
Qed.
End ord_lemmas.
#[export] Hint Resolve rlt_trans : pbr.

(** * Sorting and deduplication of vectors *)

(** [slice::windows(2).all(p)] *)
Fixpoint windows_all {A} (p : A -> A -> bool) (l : list A) : bool :=
  match l with
  | a :: ((b :: _) as l') => p a b && windows_all p l'
  | _ => true
  end.

(** [slice::sort_by]: the stable sort by a strict "comes before" test. *)
Fixpoint insert_by {A} (before : A -> A -> bool) (x : A) (l : list A) : list A :=
  match l with
  | [] => [x]
  | y :: l' => if before y x then y :: insert_by before x l' else x :: l
  end.
Definition sort_by {A} (before : A -> A -> bool) (l : list A) : list A :=
  foldr (insert_by before) [] l.
Definition sort `{RustOrd A} (l : list A) : list A := sort_by rlt l.

(** [Vec::dedup_by]: drops an element equal to the last one retained. *)
Fixpoint dedup_after {A} (same : A -> A -> bool) (x : A) (l : list A) : list A :=
  match l with
  | [] => []
  | y :: l => if same y x then dedup_after same x l else y :: dedup_after same y l
  end.
Definition dedup_by {A} (same : A -> A -> bool) (l : list A) : list A :=
  match l with [] => [] | x :: l => x :: dedup_after same x l end.

Lemma windows_all_cons {A} (p : A -> A -> bool) a b l :
  windows_all p (a :: b :: l) = p a b && windows_all p (b :: l).
Proof. done. Qed.

Lemma windows_all_StronglySorted {A} (p : A -> A -> bool) (l : list A) :
  (forall a b c, p a b = true -> p b c = true -> p a c = true) ->
  windows_all p l = true <-> StronglySorted (fun a b => p a b = true) l.
Proof.
  intros Htr. induction l as [|a l IH]; [split; [constructor|done]|].
  destruct l as [|b l]; [split; [by repeat constructor|done]|].
  rewrite windows_all_cons, andb_true_iff, IH. split.
  - intros [Hab Hs]. constructor; [done|]. apply StronglySorted_inv in Hs as [_ Hb].
    constructor; [done|]. eapply Forall_impl; [exact Hb|]; cbn; eauto.
  - intros [Hs Ha]%StronglySorted_inv. split; [|done]. by inversion Ha.
Qed.

Lemma insert_by_Permutation {A} (before : A -> A -> bool) x l : insert_by before x l ≡ₚ x :: l.
Proof.
  induction l as [|y l IH]; cbn; [done|]. destruct (before y x); [|done].
  rewrite IH. apply Permutation_swap.
Qed.
Lemma sort_by_Permutation {A} (before : A -> A -> bool) l : sort_by before l ≡ₚ l.
Proof.
  induction l as [|x l IH]; [done|]. change (insert_by before x (sort_by before l) ≡ₚ x :: l).
  rewrite insert_by_Permutation. by apply Permutation_skip.
Qed.
Lemma sort_by_fmap {A B} (f : A -> B) (before : A -> A -> bool) (before' : B -> B -> bool) l :
  (forall a b, before a b = before' (f a) (f b)) ->
  f <$> sort_by before l = sort_by before' (f <$> l).
Proof.
  intros Hb. unfold sort_by. induction l as [|x l IH]; [done|]. cbn. rewrite <- IH. clear IH.
  induction (foldr _ [] l) as [|y k IH]; cbn; [done|]. rewrite <- Hb.
  destruct (before y x); cbn; by rewrite ?IH.
Qed.

Section sort_lemmas.
Context `{LawfulOrd A}.
Implicit Types (l k : list A) (x y : A).
Abbreviation strict := (StronglySorted (fun a b => rlt a b = true)).
Abbreviation weak := (StronglySorted (fun a b => rle a b = true)).

Lemma rle_trans (a b c : A) : rle a b = true -> rle b c = true -> rle a c = true.
Proof. rewrite !rle_rlt_eq. naive_solver eauto using rlt_trans. Qed.

Lemma windows_all_rlt l : windows_all rlt l = true <-> strict l.
Proof. apply windows_all_StronglySorted, rlt_trans. Qed.

Lemma strict_weak l : strict l -> weak l.
Proof.
  induction 1 as [|x l Hs IH Hx]; constructor; [done|].
  eapply Forall_impl; [exact Hx|]. cbn. intros. apply rle_rlt_eq. by left.
Qed.
Lemma strict_NoDup l : strict l -> NoDup l.
Proof.
  induction 1 as [|x l Hs IH Hx]; constructor; [|done].
  intros Hin. rewrite Forall_forall in Hx. apply Hx in Hin. by rewrite rlt_irrefl in Hin.
Qed.

(** A strictly sorted list is determined by its set of elements. *)
Lemma strict_unique l k : strict l -> strict k -> (forall x, x ∈ l <-> x ∈ k) -> l = k.
Proof.
  intros Hl. revert k. induction Hl as [|x l Hs IH Hx]; intros k Hk Heq.
  { destruct k as [|y k]; [done|]. exfalso. by apply (not_elem_of_nil y), Heq; left. }
  destruct Hk as [|y k Hk Hy]; [exfalso; by apply (not_elem_of_nil x), Heq; left|].
  rewrite Forall_forall in Hx, Hy.
  assert (x = y) as <-.
  { assert (x ∈ y :: k) as [Hxy|Hxk]%elem_of_cons by (apply Heq; left); [congruence|].
    assert (y ∈ x :: l) as [Hyx|Hyl]%elem_of_cons by (apply Heq; left); [congruence|].
    apply Hy in Hxk. apply Hx in Hyl. by rewrite (rlt_asym _ _ Hxk) in Hyl. }
  f_equal. apply IH; [done|]. intros z. specialize (Heq z). rewrite !elem_of_cons in Heq.
  split; intros Hz.
  - destruct (proj1 Heq (or_intror Hz)) as [->|?]; [|done].
    apply Hx in Hz. by rewrite rlt_irrefl in Hz.
  - destruct (proj2 Heq (or_intror Hz)) as [->|?]; [|done].
    apply Hy in Hz. by rewrite rlt_irrefl in Hz.
Qed.

Lemma insert_by_weak x l : weak l -> weak (insert_by rlt x l).
Proof.
  induction 1 as [|y l Hs IH Hy]; cbn; [by repeat constructor|].
  destruct (rlt y x) eqn:Hyx.
  - constructor; [done|]. rewrite insert_by_Permutation. constructor; [|done].
    apply rle_rlt_eq. by left.
  - assert (rle x y = true) as Hxy by (by rewrite rle_rlt, Hyx).
    constructor; [by constructor|]. constructor; [done|].
    eapply Forall_impl; [exact Hy|]; cbn; eauto using rle_trans.
Qed.
Lemma sort_weak l : weak (sort l).
Proof.
  unfold sort, sort_by. induction l; cbn; [constructor|]. by apply insert_by_weak.
Qed.

Lemma weak_NoDup_strict l : weak l -> NoDup l -> strict l.
Proof.
  induction 1 as [|x l Hs IH Hx]; [constructor|]. intros [Hni Hnd]%NoDup_cons.
  constructor; [auto|]. rewrite Forall_forall in Hx |- *. intros y Hy.
  specialize (Hx y Hy) as [?| ->]%rle_rlt_eq; [done|]. contradiction.
Qed.
Lemma sort_strict l : NoDup l -> strict (sort l).
Proof.
  intros Hnd. apply weak_NoDup_strict; [apply sort_weak|].
  unfold sort. by rewrite sort_by_Permutation.
Qed.
Lemma elem_of_sort l x : x ∈ sort l <-> x ∈ l.
Proof. unfold sort. by rewrite sort_by_Permutation. Qed.

Lemma sort_fixed l : strict l -> sort l = l.
Proof.
  induction 1 as [|x l Hs IH Hx]; [done|]. unfold sort in *. cbn.
  change (foldr (insert_by rlt) [] l) with (sort_by rlt l). rewrite IH.
  destruct l as [|y l]; [done|]. cbn. inversion Hx as [|? ? Hxy]; subst.
  by rewrite (rlt_asym _ _ Hxy).
Qed.
Lemma rle_antisym : AntiSymm (=) (fun a b : A => rle a b = true).
Proof.
  intros a b Hab Hba. apply rle_rlt_eq in Hab as [Hab|]; [|done].
  apply rle_rlt_eq in Hba as [Hba|]; [|done]. by rewrite (rlt_asym _ _ Hab) in Hba.
Qed.
Lemma sort_Permutation l k : l ≡ₚ k -> sort l = sort k.
Proof.
  intros Hp. pose proof rle_antisym.
  apply (sorting.StronglySorted_unique (fun a b : A => rle a b = true)); [apply sort_weak..|].
  unfold sort. by rewrite !sort_by_Permutation.
Qed.
Lemma sort_unique l k : l ≡ₚ k -> NoDup l -> sort l = sort k.
Proof.
  intros Hp Hnd. apply strict_unique.
  - by apply sort_strict.
  - apply sort_strict. by rewrite <- Hp.
  - intros x. by rewrite !elem_of_sort, Hp.
Qed.
End sort_lemmas.

Section dedup_lemmas.
Context `{LawfulOrd A} (same : A -> A -> bool).
Hypothesis same_eq : forall a b, same a b = true <-> a = b.
Abbreviation strict := (StronglySorted (fun a b : A => rlt a b = true)).
Abbreviation weak := (StronglySorted (fun a b : A => rle a b = true)).

Lemma elem_of_dedup_after (x y : A) l : y ∈ dedup_after same x l \/ y = x <-> y ∈ l \/ y = x.
Proof.
  revert x. induction l as [|z l IH]; intros x; cbn; [done|].
  destruct (same z x) eqn:Hz.
  - apply same_eq in Hz as ->. rewrite IH, elem_of_cons. naive_solver.
  - rewrite !elem_of_cons. specialize (IH z). naive_solver.
Qed.
Lemma elem_of_dedup_by (y : A) l : y ∈ dedup_by same l <-> y ∈ l.
Proof.
  destruct l as [|x l]; [done|]. cbn. rewrite !elem_of_cons.
  pose proof (elem_of_dedup_after x y l). naive_solver.
Qed.
Lemma dedup_after_strict (x : A) l :
  weak (x :: l) -> strict (x :: dedup_after same x l).
Proof.
  revert x. induction l as [|z l IH]; intros x Hw; cbn; [by repeat constructor|].
  apply StronglySorted_inv in Hw as [Hw Hx].
  destruct (same z x) eqn:Hz.
  - apply same_eq in Hz as ->. by apply IH.
  - specialize (IH z Hw). constructor; [done|].
    assert (rlt x z = true) as Hxz.
    { inversion Hx as [|? ? [?| ->]%rle_rlt_eq]; subst; [done|].
      rewrite (proj2 (same_eq z z)) in Hz; done. }
    constructor; [done|]. apply StronglySorted_inv in IH as [_ IH].
    eapply Forall_impl; [exact IH|]; cbn; eauto using rlt_trans.
Qed.
Lemma dedup_by_strict l : weak l -> strict (dedup_by same l).
Proof. destruct l as [|x l]; [constructor|]. apply dedup_after_strict. Qed.
End dedup_lemmas.

(** [slice::windows(2).any(p)] *)
Definition windows_any {A} (p : A -> A -> bool) (l : list A) : bool :=
  negb (windows_all (fun a b => negb (p a b)) l).
Lemma windows_any_ge `{LawfulOrd A} (l : list A) :
  windows_any (fun a b => rle b a) l = false <-> StronglySorted (fun a b => rlt a b = true) l.
Proof.
  unfold windows_any. rewrite negb_false_iff, <- windows_all_rlt.
  assert (forall l, windows_all (fun a b : A => negb (rle b a)) l = windows_all rlt l) as ->; [|done].
  clear l. intros l. induction l as [|a [|b l] IH]; [done..|].
  rewrite !windows_all_cons, IH, rle_rlt, negb_involutive. done.
Qed.

(** * [slice::binary_search_by] *)

Fixpoint binary_search_loop (fuel : nat) (f : nat -> comparison) (base size : nat) : nat :=
  match fuel with
  | O => base
  | S fuel =>
    if size <=? 1 then base
    else
      let half := Nat.div2 size in
      let mid := base + half in
      binary_search_loop fuel f (match f mid with Gt => base | _ => mid end) (size - half)
  end.
(** Whether [binary_search_by(|value| value.cmp(x))] is [Ok]. *)
Definition binary_search_found `{RustOrd A} (l : list A) (x : A) : bool :=
  let f i := match l !! i with Some a => rcmp a x | None => Gt end in
  match l with
  | [] => false
  | _ => match f (binary_search_loop (length l) f 0 (length l)) with Eq => true | _ => false end
  end.

Lemma StronglySorted_iff {A} (R S : A -> A -> Prop) l :
  (forall x y, R x y <-> S x y) -> StronglySorted R l <-> StronglySorted S l.
Proof.
  intros H. induction l as [|x l IH]; [by split; constructor|].
  split; intros [Hs Hx]%StronglySorted_inv; constructor; try tauto;
    (eapply Forall_impl; [exact Hx|]); intros y; apply H.
Qed.
Lemma StronglySorted_lookup_lt {A} (R : A -> A -> Prop) l i j a b :
  StronglySorted R l -> i < j -> l !! i = Some a -> l !! j = Some b -> R a b.
Proof.
  intros Hs. revert i j. induction Hs as [|x l Hs IH Hx]; intros [|i] [|j] Hij Ha Hb; try lia; try done.
  - cbn in *. injection Ha as ->. rewrite Forall_forall in Hx. apply Hx.
    by eapply list_elem_of_lookup_2.
  - cbn in *. apply (IH i j); [lia|done|done].
Qed.
Lemma binary_search_loop_spec `{LawfulOrd A} (l : list A) x i fuel base size :
  StronglySorted (fun a b => rlt a b = true) l -> l !! i = Some x -> size <= fuel ->
  base <= i < base + size -> base + size <= length l ->
  binary_search_loop fuel (fun i => match l !! i with Some a => rcmp a x | None => Gt end) base size = i.
Proof.
  intros Hs Hx. revert base size. induction fuel as [|fuel IH]; intros base size Hf Hi Hl; cbn; [lia|].
  destruct (size <=? 1) eqn:H1; [apply Nat.leb_le in H1; lia|]. apply Nat.leb_gt in H1.
  assert (1 <= Nat.div2 size /\ 2 * Nat.div2 size <= size) as Hh.
  { pose proof (Nat.div2_odd size). destruct (Nat.odd size); cbn in *; lia. }
  destruct (lookup_lt_is_Some_2 l (base + Nat.div2 size)) as [m Hm]; [lia|]. rewrite Hm.
  destruct (rcmp m x) eqn:Hc; apply IH; try lia.
  - apply rcmp_Eq in Hc as ->. assert (base + Nat.div2 size = i) as <-; [|lia].
    destruct (Nat.lt_trichotomy (base + Nat.div2 size) i) as [Hlt|[?|Hlt]]; [|done|].
    + pose proof (StronglySorted_lookup_lt _ _ _ _ _ _ Hs Hlt Hm Hx) as Hr; cbn beta in Hr. by rewrite rlt_irrefl in Hr.
    + pose proof (StronglySorted_lookup_lt _ _ _ _ _ _ Hs Hlt Hx Hm) as Hr; cbn beta in Hr. by rewrite rlt_irrefl in Hr.
  - destruct (decide (base + Nat.div2 size <= i)); [lia|].
    assert (i < base + Nat.div2 size) as Hlt by lia.
    pose proof (StronglySorted_lookup_lt _ _ _ _ _ _ Hs Hlt Hx Hm) as Hr; cbn beta in Hr.
    apply rlt_asym in Hr. unfold rlt in Hr. by rewrite Hc in Hr.
  - assert (base + Nat.div2 size <> i).
    { intros <-. rewrite Hm in Hx. injection Hx as ->. by rewrite rcmp_refl in Hc. }
    destruct (decide (i < base + Nat.div2 size)); [lia|].
    assert (base + Nat.div2 size < i) as Hlt by lia.
    pose proof (StronglySorted_lookup_lt _ _ _ _ _ _ Hs Hlt Hm Hx) as Hr; cbn beta in Hr.
    unfold rlt in Hr. by rewrite Hc in Hr.
Qed.
(** On a strictly sorted slice the search decides membership. *)
Lemma binary_search_found_spec `{LawfulOrd A} (l : list A) x :
  StronglySorted (fun a b => rlt a b = true) l -> binary_search_found l x = true <-> x ∈ l.
Proof.
  intros Hs. unfold binary_search_found. split.
  - destruct l as [|a l]; [done|]. cbv zeta. destruct (_ !! _) as [b|] eqn:Hb; [|done].
    destruct (rcmp b x) eqn:Hc; [|done..]. intros _. apply rcmp_Eq in Hc as ->.
    by eapply list_elem_of_lookup_2.
  - intros [i Hi]%list_elem_of_lookup_1. destruct l as [|a l]; [done|]. cbv zeta.
    rewrite (binary_search_loop_spec (a :: l) x i) by
      (try done; pose proof (lookup_lt_Some _ _ _ Hi); lia).
    by rewrite Hi, rcmp_refl.
Qed.

(** * Errors and panics

    A function that can also panic returns [result (fault E) A]. *)

Inductive fault (E : Type) :=
| Failure (e : E)
| Panicked.
Arguments Failure {E} e.
Arguments Panicked {E}.
Definition lift_fault {E A} (m : result E A) : result (fault E) A := map_err Failure m.

Lemma lift_fault_not_panicked {E A} (m : result E A) : lift_fault m <> Err Panicked.
Proof. by destruct m. Qed.
Lemma bind_not_panicked {E A B} (m : result (fault E) A) (f : A -> result (fault E) B) :
  m <> Err Panicked -> (forall a, m = Ok a -> f a <> Err Panicked) -> m ≫= f <> Err Panicked.
Proof. destruct m as [a|e]; cbn; [auto|]. congruence. Qed.

(** [yields m P]: [m] does not panic, and a value it returns satisfies [P]. *)
Definition yields {E A} (m : result (fault E) A) (P : A -> Prop) : Prop :=
  match m with Ok a => P a | Err (Failure _) => True | Err Panicked => False end.
Section yields.
Context {E A B : Type}.
Implicit Types (m : result (fault E) A) (f : A -> result (fault E) B) (P : A -> Prop) (Q : B -> Prop).
Lemma yields_bind m f P Q : yields m P -> (forall a, P a -> yields (f a) Q) -> yields (m ≫= f) Q.
Proof. destruct m as [a|[e|]]; cbn; auto. Qed.
Lemma yields_mono m P P' : yields m P -> (forall a, P a -> P' a) -> yields m P'.
Proof. destruct m as [a|[e|]]; cbn; auto. Qed.
Lemma yields_Ok m P a : yields m P -> m = Ok a -> P a.
Proof. intros H ->. exact H. Qed.
Lemma yields_not_panicked m P : yields m P -> m <> Err Panicked.
Proof. by destruct m as [a|[e|]]. Qed.
Lemma yields_value m P : (forall a, m = Ok a -> P a) -> m <> Err Panicked -> yields m P.
Proof. destruct m as [a|[e|]]; cbn; auto. Qed.
Lemma yields_lift (m : result E A) P : (forall a, m = Ok a -> P a) -> yields (lift_fault m) P.
Proof. destruct m; cbn; auto. Qed.
Lemma yields_ok_or (o : option A) (e : E) P :
  (forall a, o = Some a -> P a) -> yields (ok_or o (Failure e)) P.
Proof. destruct o; cbn; auto. Qed.
End yields.

(** * Attenuation: the [is_no_more_permissive_than] tests

    [no_more a b] says that [a] grants no more than [b].  The types that offer
    the test promise that it is a preorder. *)

Class Attenuates (A : Type) := no_more : A -> A -> bool.
Class AttenuationPreorder (A : Type) `{Attenuates A} : Prop := {
  no_more_refl (a : A) : no_more a a = true;
  no_more_trans (a b c : A) : no_more a b = true -> no_more b c = true -> no_more a c = true
}.

(** Splits a conjunction of boolean tests, in hypotheses and in the goal. *)
Ltac split_andb :=
  repeat match goal with
  | H : _ && _ = true |- _ => apply andb_true_iff in H as [? ?]
  | |- _ && _ = true => apply andb_true_iff; split
  end.

Lemma filter_all {A} (P : A -> Prop) `{forall a, Decision (P a)} l : Forall P l -> filter P l = l.
Proof. induction 1 as [|a l Ha _ IH]; [done|]. by rewrite filter_cons_True, IH by done. Qed.

(** ** [BTreeSet] as a strictly sorted list *)

Section btree_set.
Context `{LawfulOrd A}.
#[local] Abbreviation strict := (StronglySorted (fun a b : A => rlt a b = true)).

Fixpoint set_insert (x : A) (l : list A) : list A :=
  match l with
  | [] => [x]
  | y :: rest => match rcmp x y with Lt => x :: l | Eq => l | Gt => y :: set_insert x rest end
  end.
Lemma elem_of_set_insert x y l : y ∈ set_insert x l <-> y = x \/ y ∈ l.
Proof.
  induction l as [|z l IH]; cbn; [set_solver|]. destruct (rcmp x z) eqn:Hc; [|set_solver|set_solver].
  apply rcmp_Eq in Hc as ->. set_solver.
Qed.
Lemma set_insert_strict x l : strict l -> strict (set_insert x l).
Proof.
  induction 1 as [|y l Hs IH Hx]; cbn; [repeat constructor|]. destruct (rcmp x y) eqn:Hc.
  - by constructor.
  - assert (rlt x y = true) as Hlt by (unfold rlt; by rewrite Hc). constructor; [by constructor|].
    constructor; [done|]. eapply Forall_impl; [exact Hx|]. cbn. intros z. by apply rlt_trans.
  - constructor; [done|]. apply Forall_forall. intros z [->|Hz]%elem_of_set_insert.
    + unfold rlt. rewrite (rcmp_opp x y), Hc. done.
    + rewrite Forall_forall in Hx. by apply Hx.
Qed.
Definition set_of (l : list A) : list A := fold_left (fun s x => set_insert x s) l [].
Lemma set_of_spec l : strict (set_of l) /\ forall x, x ∈ set_of l <-> x ∈ l.
Proof.
  unfold set_of. cut (forall s, strict s -> strict (fold_left (fun s x => set_insert x s) l s)
    /\ forall x, x ∈ fold_left (fun s x => set_insert x s) l s <-> x ∈ s \/ x ∈ l).
  { intros Hg. destruct (Hg []) as [H1 H2]; [constructor|]. split; [done|]. intros x. rewrite H2. set_solver. }
  induction l as [|y l IH]; intros s Hs; cbn; [split; [done|set_solver]|].
  destruct (IH (set_insert y s)) as [H1 H2]; [by apply set_insert_strict|]. split; [done|].
  intros x. rewrite H2, elem_of_set_insert. set_solver.
Qed.
(** The set does not depend on the order of insertion. *)
Lemma set_of_unique l k : (forall x, x ∈ l <-> x ∈ k) -> set_of l = set_of k.
Proof.
  intros Hlk. destruct (set_of_spec l) as [H1 H2], (set_of_spec k) as [H3 H4].
  apply strict_unique; [done|done|]. intros x. by rewrite H2, H4.
Qed.
End btree_set.

Lemma existsb_false {A} (p : A -> bool) l : existsb p l = false <-> Forall (fun x => p x = false) l.
Proof. induction l as [|a l IH]; cbn; [by split|]. by rewrite orb_false_iff, IH, Forall_cons. Qed.
Lemma existsb_Permutation {A} (p : A -> bool) l k : l ≡ₚ k -> existsb p l = existsb p k.
Proof. induction 1; cbn; try congruence. destruct (p x), (p y); done. Qed.
Lemma forallb_Forall' {A} (p : A -> bool) l : forallb p l = true <-> Forall (fun a => p a = true) l.
Proof. rewrite Forall_forall, forallb_forall. by setoid_rewrite list_elem_of_In. Qed.

(** [iter().all(|x| other.contains(x))] *)
Definition all_contained {A} `{EqDecision A} (l k : list A) : bool :=
  forallb (fun x => bool_decide (x ∈ k)) l.
Lemma all_contained_subseteq {A} `{EqDecision A} (l k : list A) :
  all_contained l k = true <-> l ⊆ k.
Proof.
  unfold all_contained. rewrite forallb_forall. split.
  - intros Hl x Hx. apply (bool_decide_eq_true_1 _ (Hl x (proj1 (list_elem_of_In _ _) Hx))).
  - intros Hs x Hx%list_elem_of_In. by apply bool_decide_eq_true, Hs.
Qed.

(** * Effects *)

(** A computation on a state [S] that can fail; the state it has reached is kept
    with its error, as that of a [&mut] argument is. *)
Definition eff (S E A : Type) : Type := S -> result E A * S.
#[global] Instance eff_ret S E : MRet (eff S E) := fun A a s => (Ok a, s).
#[global] Instance eff_bind S E : MBind (eff S E) := fun A B f m s =>
  match m s with (Ok a, s) => f a s | (Err e, s) => (Err e, s) end.
Definition throw {S E A} (e : E) : eff S E A := fun s => (Err e, s).
Definition lift_result {S E A} (m : result E A) : eff S E A := fun s => (m, s).
(** [io::Result], of which the code keeps only whether it is an error. *)
Definition call {S E A} (f : S -> option A * S) (e : E) : eff S E A := fun s =>
  let '(o, s) := f s in (ok_or o e, s).
Definition ask {S E A} (f : S -> A * S) : eff S E A := fun s => let '(a, s) := f s in (Ok a, s).

Section Effects.
Context {S E A B : Type}.
Implicit Types (m : eff S E A) (f : A -> eff S E B) (s : S).
Lemma eff_bind_Ok m f s b s' :
  (m ≫= f) s = (Ok b, s') <-> exists a s1, m s = (Ok a, s1) /\ f a s1 = (Ok b, s').
Proof. unfold mbind, eff_bind. destruct (m s) as [[a|e] s1]; naive_solver. Qed.
Lemma eff_bind_eq m f s r s1 : m s = (r, s1) ->
  (m ≫= f) s = match r with Ok a => f a s1 | Err e => (Err e, s1) end.
Proof. unfold mbind, eff_bind. by intros ->. Qed.
End Effects.
