(* ===== verification/Vectors.v ===== *)
(** The repository's golden wire vectors of [schemas/vectors/v2], as the
    lowercase hexadecimal text of their files, used by examples and witnesses. *)
From S2P Require Import Prelude.
From Stdlib Require Import Ascii ZArith Lia Sorted.
From stdpp Require Import prelude strings list numbers.
Export stdpp.list_relations.list.

(** The bytes of a hexadecimal text; an invalid text gives no bytes. *)
Definition bytes_of_hex (text : string) : list byte :=
  let input := String.list_ascii_of_string text in
  match unhex () (Nat.div2 (length input)) input with Ok l => l | Err _ => [] end.

(** [schemas/vectors/v2/execution-receipt.cbor.hex] *)
Definition execution_receipt : list byte := Eval vm_compute in bytes_of_hex
  "b564706c616ea462696469676f6c64656e2d7632666c696d697473a66970726f636573736573026a737761705f6279746573006c6d656d6f72795f62797465731a000100006c7374646572725f62797465731908006c7374646f75745f62797465731904006c77616c6c5f74696d655f6d731903e866736f75726365a4646d6f64651901ed64726f6c656e657865637574696f6e2d706c616e6473697a6512667368613235365820281cbffd267de3baa7ee90198a2888a00796621b477565a50be74aa597f294a16a6e6f726d616c697a6564a4646d6f64651901ed64726f6c656f6e6f726d616c697a65642d706c616e6473697a6516667368613235365820899c84ba720673653f8df702fb10e11cb62f813c13ecffe5717d11432c061d9766696e707574738066706f6c696379a2686964656e74697479a4646d6f64651901ed64726f6c656f636f6d70696c65642d706f6c6963796473697a650d6673686132353658205e73121cc9850ccc90a41e7f4ff951c5c499e8847292f94597230061d25d84806d6d6f64656c5f76657273696f6e782170726f6f66626f756e642d72756e74696d652d6c696e75782d706f6c6963792f3266736368656d61782670726f6f66626f756e642d72756e74696d652d657865637574696f6e2d726563656970742f3267636f6d6d616e64a4666c6f61646572f66a65786563757461626c65a4646d6f64651901ed64726f6c657272756e74696d652d65786563757461626c656473697a65116673686132353658205c18c8bd473f526f3bda0097dc1ee8f1773d28dcdc2fbb015a1e698049f3568470617267756d656e74735f7368613235365820b3f109398794e6323bfb9f0689b1c126a0a7cb7694c38b981f9ff775932ff67a71776f726b696e675f6469726563746f7279a4646d6f64651901ed64726f6c6571776f726b696e672d6469726563746f72796473697a650a667368613235365820d3e6b2848d8ab0de976f0673252fb15547e205e839057cb77a534178a9cdc262676f7574636f6d65a264636f646500646b696e6466657869746564676f757470757473806772756e74696d65a26772756e74696d65a4646d6f64651901ed64726f6c656e72756e74696d652d62696e6172796473697a65096673686132353658203022d33ed00ece081b990d06bb14aadf610488530808546c8d9c0f7641e4d06e686c61756e63686572a4646d6f64651901ed64726f6c656f6c61756e636865722d62696e6172796473697a650e667368613235365820bdda2976529c5f62debdab8891c2371309082181be4fdf7aa416626f184b2f766773747265616d73a266737464657272a2676361707475726568636f6d706c657465686172746966616374a4646d6f646519018064726f6c656e7374616e646172642d6572726f726473697a650d66736861323536582006f9921f8e67ce3fe3a96ff36f9ec7c29327d53bd94789acf075bf1c4704fb33667374646f7574a2676361707475726568636f6d706c657465686172746966616374a4646d6f646519018064726f6c656f7374616e646172642d6f75747075746473697a650d66736861323536582070475a4ae63801e91671615b41d7303a28e53e8d7f4e78bfdcb0560d7023844468626f756e64617279a465737461746569696e7374616c6c6564666367726f7570a265696e6f64650c686d6f756e745f696418226c657865637574696f6e5f69645000112233445546778899aabbccddeeff6d706f6c6963795f73686132353658205e73121cc9850ccc90a41e7f4ff951c5c499e8847292f94597230061d25d848068706c6174666f726da66c617263686974656374757265667838365f36346c6c616e646c6f636b5f616269046e6b65726e656c5f72656c6561736565362e382e30706f7065726174696e675f73797374656d656c696e757870736563636f6d705f6665617475726573816f64656e792d6e6574776f726b2d7631726367726f75705f636f6e74726f6c6c65727382666d656d6f727964706964736870726f6475636572a4646d6f64651901ed64726f6c656e72756e74696d652d62696e6172796473697a65096673686132353658203022d33ed00ece081b990d06bb14aadf610488530808546c8d9c0f7641e4d06e697265736f7572636573a3687465726d696e616ca46b737761705f6576656e7473a2636d617800646661696c006d6d656d6f72795f6576656e7473a6636c6f7700636d617800636f6f6d00646869676800686f6f6d5f6b696c6c006e6f6f6d5f67726f75705f6b696c6c006f737761705f7065616b5f627974657300716d656d6f72795f7065616b5f62797465731980006a636f6e66696775726564a468706964732e6d6178026a6d656d6f72792e6d61781a000100006f6d656d6f72792e737761702e6d617800706d656d6f72792e6f6f6d2e67726f7570016c6c696d69745f6576656e7473806b617373756d7074696f6e73836f5042522d484f53542d41582d303032705042522d4c494e55582d41582d303031745042522d544f4f4c434841494e2d41582d3030336b656c69676962696c697479a266737461747573687265757361626c6567726561736f6e73806b656e7669726f6e6d656e74806b6f75747075745f726f6f74a4646d6f64651901c064726f6c656b6f75747075742d726f6f746473697a650d6673686132353658208c6db6f8c394c1f6348af72cff2c4671c6c44939a86a75d96112f6670cc8c6546c657865637574696f6e5f69645000112233445546778899aabbccddeeff6c6f62736572766174696f6e73a365636c6f636b6f6c696e75782d6d6f6e6f746f6e69636a737461727465645f6e7318646b66696e69736865645f6e7318c86f70726f647563745f76657273696f6e65302e322e3076747275737465645f636f6d707574696e675f626173658ca264726f6c6576686f73742d68617264776172652d6669726d77617265686964656e746974796b676f6c64656e2d686f7374a264726f6c656c6c696e75782d6b65726e656c686964656e746974796c676f6c64656e2d6c696e7578a264726f6c65686c616e646c6f636b686964656e746974796f676f6c64656e2d6c616e646c6f636ba264726f6c6567736563636f6d70686964656e746974796e676f6c64656e2d736563636f6d70a264726f6c65696367726f75702d7632686964656e746974796d676f6c64656e2d6367726f7570a264726f6c65716e6f2d6e65772d70726976696c65676573686964656e746974796a676f6c64656e2d6e6e70a264726f6c656a66696c6573797374656d686964656e7469747971676f6c64656e2d66696c6573797374656da264726f6c656e72756e74696d652d62696e617279686964656e74697479784033303232643333656430306563653038316239393064303662623134616164663631303438383533303830383534366338643963306637363431653464303665a264726f6c656f6c61756e636865722d62696e617279686964656e74697479784062646461323937363532396335663632646562646162383839316332333731333039303832313831626534666466376161343136363236663138346232663736a264726f6c656e727573742d746f6f6c636861696e686964656e746974796b676f6c64656e2d72757374a264726f6c657463727970746f677261706869632d646967657374686964656e7469747966736861323536a264726f6c657272756e74696d652d65786563757461626c65686964656e74697479784035633138633862643437336635323666336264613030393764633165653866313737336432386463646332666262303135613165363938303439663335363834".

(** [schemas/vectors/v2/compiled-policy.cbor.hex] *)
Definition compiled_policy : list byte := Eval vm_compute in bytes_of_hex
  "a6666367726f7570a768706964732e6d6178026a6d656d6f72792e6d61781a000100006c7374646572725f62797465731904006c7374646f75745f62797465731904006c77616c6c5f74696d655f6d731903e86f6d656d6f72792e737761702e6d617800706d656d6f72792e6f6f6d2e67726f75700166736368656d61782170726f6f66626f756e642d72756e74696d652d6c696e75782d706f6c6963792f32676e6574776f726b6f64656e792d6e6574776f726b2d76316a66696c6573797374656d82a364706174686962696e2f68656c6c6f64726f6c657272756e74696d652d65786563757461626c65666163636573736765786563757465a36470617468636f757464726f6c656b6f75747075742d726f6f74666163636573736577726974656b656e7669726f6e6d656e7480716e6f5f6e65775f70726976696c65676573f5".

(** [schemas/vectors/v2/run-result.cbor.hex] *)
Definition run_result : list byte := Eval vm_compute in bytes_of_hex
  "a566736368656d61781f70726f6f66626f756e642d72756e74696d652d72756e2d726573756c742f32676f7574636f6d65a264636f646500646b696e646665786974656467726563656970746c726563656970742e63626f726a636f6d6d69746d656e74582009090909090909090909090909090909090909090909090909090909090909096c657865637574696f6e5f69645000000000000040008000000000000000".

(** [schemas/vectors/v2/compiled-policy-service-session.cbor.hex] *)
Definition compiled_policy_service_session : list byte := Eval vm_compute in bytes_of_hex
  "a8666367726f7570a768706964732e6d6178026a6d656d6f72792e6d61781a000100006c7374646572725f62797465731904006c7374646f75745f62797465731904006c77616c6c5f74696d655f6d731903e86f6d656d6f72792e737761702e6d617800706d656d6f72792e6f6f6d2e67726f75700166736368656d61782170726f6f66626f756e642d72756e74696d652d6c696e75782d706f6c6963792f32676e6574776f726b6f64656e792d6e6574776f726b2d76316a66696c6573797374656d82a364706174686962696e2f68656c6c6f64726f6c657272756e74696d652d65786563757461626c65666163636573736765786563757465a36470617468636f757464726f6c656b6f75747075742d726f6f74666163636573736577726974656b656e7669726f6e6d656e7481674150495f4b45596d6368696c645f6e6574776f726b6f6368616e6e656c2d6f6e6c792d76316f736572766963655f73657373696f6ea963746c73a66a6561726c795f646174616464656e796a7265766f636174696f6e781f6e6f742d636865636b65642d7265636f726465642d617373756d7074696f6e6e74727573745f726f6f745f73657478222f6574632f73736c2f63657274732f63612d6365727469666963617465732e6372746f6d696e696d756d5f76657273696f6e67746c732d312e337273657373696f6e5f726573756d7074696f6e6464656e797819736572766963655f6e616d655f766572696669636174696f6e6d646e732d73616e2d6578616374646d6f6465782061757468656e746963617465642d736572766963652d73657373696f6e2d7631666c696d697473a76c646e735f6d65737361676573046d73657475705f74696d655f6d731927106f73657373696f6e5f74696d655f6d7319753071656e64706f696e745f617474656d7074730473746c735f68616e647368616b655f62797465731a00040000766368696c645f746f5f736572766963655f62797465731a0010000076736572766963655f746f5f6368696c645f62797465731a001000006773657276696365a2646e616d65716170692e616e7468726f7069632e636f6d64706f72741901bb687265736f6c766572a964706f727418356761646472657373a265627974657344010101016666616d696c7964697076346d616464726573735f6f72646572781c697076342d7468656e2d697076362d6c657869636f677261706869636d636f6e66696775726174696f6e781d2f6574632f70726f6f66626f756e642f7265736f6c7665722e636f6e6673617474656d70745f646561646c696e655f6d731903e8736d6178696d756d5f636e616d655f646570746808746d6178696d756d5f616e737765725f636f756e7410766d6178696d756d5f726573706f6e73655f62797465731a00010000767265736f6c7574696f6e5f646561646c696e655f6d731913886d6c6f63616c5f6368616e6e656ca26870726f746f636f6c6e756e69782d73747265616d2d7631706368696c645f64657363726970746f72097163726564656e7469616c5f736f75726365a36269646e616e7468726f7069632d746573746773657276696365716170692e616e7468726f7069632e636f6d6b656e7669726f6e6d656e74674150495f4b455974636f6e6e6563746f725f65786563757461626c6578212f7573722f6c6962657865632f70726f6f66626f756e642d636f6e6e6563746f7276636f6e6e6563746f725f72756e74696d655f7265616481682f7573722f6c6962716e6f5f6e65775f70726976696c65676573f5".

(** [schemas/vectors/v2/execution-plan.cbor.hex] *)
Definition execution_plan : list byte := Eval vm_compute in bytes_of_hex
  "a562696469676f6c64656e2d7632666c696d697473a66970726f636573736573026a737761705f6279746573006c6d656d6f72795f62797465731a000100006c7374646572725f62797465731904006c7374646f75745f62797465731904006c77616c6c5f74696d655f6d731903e866736368656d61781970726f6f66626f756e642d72756e74696d652d706c616e2f3267636f6d6d616e64a369617267756d656e7473806a65786563757461626c656962696e2f68656c6c6f71776f726b696e675f6469726563746f7279612e69617574686f72697479a664726561648065777269746581636f75746765786563757465816962696e2f68656c6c6f676e6574776f726b6464656e796b656e7669726f6e6d656e74806c72756e74696d655f7265616480".

(** [schemas/vectors/v2/execution-plan-service-session.cbor.hex] *)
Definition execution_plan_service_session : list byte := Eval vm_compute in bytes_of_hex
  "a562696469676f6c64656e2d7632666c696d697473a66970726f636573736573026a737761705f6279746573006c6d656d6f72795f62797465731a000100006c7374646572725f62797465731904006c7374646f75745f62797465731904006c77616c6c5f74696d655f6d731903e866736368656d61781970726f6f66626f756e642d72756e74696d652d706c616e2f3267636f6d6d616e64a369617267756d656e7473806a65786563757461626c656962696e2f68656c6c6f71776f726b696e675f6469726563746f7279612e69617574686f72697479a664726561648065777269746581636f75746765786563757465816962696e2f68656c6c6f676e6574776f726ba963746c73a66a6561726c795f646174616464656e796a7265766f636174696f6e781f6e6f742d636865636b65642d7265636f726465642d617373756d7074696f6e6e74727573745f726f6f745f73657478222f6574632f73736c2f63657274732f63612d6365727469666963617465732e6372746f6d696e696d756d5f76657273696f6e67746c732d312e337273657373696f6e5f726573756d7074696f6e6464656e797819736572766963655f6e616d655f766572696669636174696f6e6d646e732d73616e2d6578616374646d6f6465781d61757468656e746963617465642d736572766963652d73657373696f6e666c696d697473a76c646e735f6d65737361676573046d73657475705f74696d655f6d731927106f73657373696f6e5f74696d655f6d7319753071656e64706f696e745f617474656d7074730473746c735f68616e647368616b655f62797465731a00040000766368696c645f746f5f736572766963655f62797465731a0010000076736572766963655f746f5f6368696c645f62797465731a001000006773657276696365a2646e616d65716170692e616e7468726f7069632e636f6d64706f72741901bb687265736f6c766572a964706f727418356761646472657373a265627974657344010101016666616d696c7964697076346d616464726573735f6f72646572781c697076342d7468656e2d697076362d6c657869636f677261706869636d636f6e66696775726174696f6e781d2f6574632f70726f6f66626f756e642f7265736f6c7665722e636f6e6673617474656d70745f646561646c696e655f6d731903e8736d6178696d756d5f636e616d655f646570746808746d6178696d756d5f616e737765725f636f756e7410766d6178696d756d5f726573706f6e73655f62797465731a00010000767265736f6c7574696f6e5f646561646c696e655f6d731913886d6c6f63616c5f6368616e6e656ca26870726f746f636f6c6e756e69782d73747265616d2d7631706368696c645f64657363726970746f72097163726564656e7469616c5f736f75726365a36269646e616e7468726f7069632d746573746773657276696365716170692e616e7468726f7069632e636f6d6b656e7669726f6e6d656e74674150495f4b455974636f6e6e6563746f725f65786563757461626c6578212f7573722f6c6962657865632f70726f6f66626f756e642d636f6e6e6563746f7276636f6e6e6563746f725f72756e74696d655f7265616481682f7573722f6c69626b656e7669726f6e6d656e7481674150495f4b45596c72756e74696d655f7265616480".


(** [schemas/vectors/diagnostic/diagnostic-receipt.json], without the final newline *)
Definition diagnostic_receipt : list byte := Eval vm_compute in literal
  "{'arguments':['--fixture','π'],'assumptions':['PBR-HOST-AX-002'],'bounds':{'event_count':2,'event_count_per_process':256,'output_bytes':1048576,'path_bytes':4096,'process_count':16,'socket_address_bytes':128,'symlink_hops':40,'tracee_string_bytes':4096},'completion':'incomplete','environment_names':['LANG'],'events':[{'architecture':'x86_64','class':'openat','error':13,'object_after':{'device_major':8,'device_minor':1,'inode':42,'mode':'100644','mount_id':7},'object_before':{'device_major':8,'device_minor':1,'inode':42,'mode':'100644','mount_id':7},'operands':{'buffer_bytes':null,'directory_fd':-100,'flags':0,'kind':'path','mask':null,'mode':null,'path':'config','resolve':null,'symlink_hops':0},'process':1000,'resolution':'stable-candidate','resolved_path':'/workspace/config','result':null,'sequence':0},{'architecture':'x86_64','class':'connect','error':1,'object_after':null,'object_before':null,'operands':{'address':{'bytes_hex':'020001bb7f0000010000000000000000','family':'inet','length_bytes':16},'descriptor':3,'kind':'socket-address','payload_bytes':null},'process':1000,'resolution':'unresolved','resolved_path':null,'result':null,'sequence':1}],'execution_id':'00112233-4455-4677-8899-aabbccddeeff','execution_profile':'diagnostic','gaps':['event-limit'],'launcher':{'mode':'0755','role':'launcher-binary','sha256':'sha256:2222222222222222222222222222222222222222222222222222222222222222','size_bytes':2},'mechanism':'linux-ptrace-syscall-v1','observer':{'mode':'0755','role':'diagnostic-observer','sha256':'sha256:3333333333333333333333333333333333333333333333333333333333333333','size_bytes':3},'platform':{'architecture':'x86_64','kernel_release':'fixture','landlock_abi':11,'operating_system':'linux'},'reusable':false,'runtime':{'mode':'0755','role':'runtime-binary','sha256':'sha256:1111111111111111111111111111111111111111111111111111111111111111','size_bytes':1},'safe_policy':false,'schema':'proofbound-runtime-diagnostic-receipt/1','seed_plan':{'mode':'0644','role':'execution-plan','sha256':'sha256:4444444444444444444444444444444444444444444444444444444444444444','size_bytes':4},'target':{'mode':'0755','role':'runtime-executable','sha256':'sha256:5555555555555555555555555555555555555555555555555555555555555555','size_bytes':5},'trusted_computing_base':[{'identity':'fixture-observer','role':'diagnostic-observer'},{'identity':'fixture-filesystem','role':'filesystem'},{'identity':'fixture-hardware','role':'hardware'},{'identity':'fixture-kernel','role':'linux-kernel'},{'identity':'fixture-launcher','role':'runtime-launcher'},{'identity':'fixture-supervisor','role':'runtime-supervisor'}]}".

(** [schemas/vectors/diagnostic/plan-draft.json], without the final newline *)
Definition plan_draft : list byte := Eval vm_compute in literal
  "{'arguments':['--fixture','π'],'breadth':{'broad_roots':0,'denials':2,'suggested_roots':1,'unresolved_events':1},'candidates':[{'kind':'read','path':'/workspace/config','provenance':['diagnostic-runtime-observation']}],'capsec':null,'diagnostic_receipt_commitment':'sha256:807c2d80af519e661059fd89f788fec9964898c85349b28530b87e4b12a7e7ce','differences':[],'environment_names':['LANG'],'gaps':['event-limit'],'identified_closure':[],'inputs':[],'open_items':[{'code':'capsec-missing','detail':'No Capsec report was selected.','provenance':'human-authored'},{'code':'choose-environment','detail':'Select registered environment names.','provenance':'human-authored'},{'code':'choose-limits','detail':'Select every resource limit.','provenance':'human-authored'},{'code':'choose-network-mode','detail':'Select the network mode.','provenance':'human-authored'},{'code':'choose-write-roots','detail':'Select write roots.','provenance':'human-authored'},{'code':'diagnostic-gap','detail':'Diagnostic coverage gap: event-limit.','provenance':'diagnostic-runtime-observation'},{'code':'network-attempt','detail':'Observed connect at event 1; select network authority explicitly.','provenance':'diagnostic-runtime-observation'},{'code':'observation-unresolved','detail':'Event 1 has no exact reusable target.','provenance':'diagnostic-runtime-observation'}],'safe_policy':false,'schema':'proofbound-runtime-plan-draft/1','seed_plan':'sha256:4444444444444444444444444444444444444444444444444444444444444444','static_scaffold':null}".
