(* ===== verification/Authority.v ===== *)
(** The authority data model of [proofbound-runtime-core/src/authority.rs]:
    validated paths and environment names with their byte mirror, path
    authorities in canonical order, and resource limits with the
    "no more permissive" comparison.

    The byte loops of [AuthorityText] index their arrays, so they are modelled
    in the [option] monad, where [None] is an index panic; the lemmas show that
    no index is ever out of range. *)
From S2P Require Import Prelude.
From Stdlib Require Import Ascii ZArith Lia Sorted.
From stdpp Require Import prelude strings list numbers.
Export stdpp.list_relations.list.

(** * Errors *)

Inductive AuthorityError :=
| EmptyPath | PathContainsNull
| EmptyEnvironmentName | EnvironmentNameContainsNull | EnvironmentNameContainsEquals
| ZeroProcessLimit | ZeroWallTimeLimit
| MemoryLimitBelowMinimum | MemoryLimitAboveMaximum | MemoryLimitNotQuantized
| SwapLimitAboveMaximum | SwapLimitNotQuantized.
#[global] Instance AuthorityError_eq_dec : EqDecision AuthorityError.
Proof. solve_decision. Defined.

Definition AuthorityError_code (e : AuthorityError) : string :=
  match e with
  | EmptyPath => "authority.path.empty"
  | PathContainsNull => "authority.path.null"
  | EmptyEnvironmentName => "authority.environment.empty"
  | EnvironmentNameContainsNull => "authority.environment.null"
  | EnvironmentNameContainsEquals => "authority.environment.equals"
  | ZeroProcessLimit => "authority.limit.processes.zero"
  | ZeroWallTimeLimit => "authority.limit.wall_time.zero"
  | MemoryLimitBelowMinimum => "authority.limit.memory.below-minimum"
  | MemoryLimitAboveMaximum => "authority.limit.memory.above-maximum"
  | MemoryLimitNotQuantized => "authority.limit.memory.not-quantized"
  | SwapLimitAboveMaximum => "authority.limit.swap.above-maximum"
  | SwapLimitNotQuantized => "authority.limit.swap.not-quantized"
  end.

(** * Text with its byte mirror *)

Record AuthorityText := mkAuthorityText { at_text : string; at_bytes : list byte }.
#[global] Instance AuthorityText_eq_dec : EqDecision AuthorityText.
Proof. solve_decision. Defined.
(** [#[derive(Ord)]]: the fields in declaration order. *)
#[global] Instance AuthorityText_ord : RustOrd AuthorityText :=
  ord_via (fun t => (at_text t, at_bytes t)).
#[global] Instance AuthorityText_lawful : LawfulOrd AuthorityText.
Proof.
  assert (Inj (=) (=) (fun t => (at_text t, at_bytes t))) by (intros [] []; cbn; congruence).
  apply (ord_via_lawful (fun t => (at_text t, at_bytes t))).
Qed.

Definition AuthorityText_new (t : string) : AuthorityText :=
  {| at_text := t; at_bytes := String.list_ascii_of_string t |}.

(** The mirror invariant the only constructor establishes. *)
Definition AuthorityText_ok (t : AuthorityText) : Prop :=
  at_bytes t = String.list_ascii_of_string (at_text t).

Fixpoint same_value_loop (self other : list byte) (index remaining : nat) : option bool :=
  match remaining with
  | O => Some true
  | S remaining =>
    a ← self !! index;
    b ← other !! index;
    if bool_decide (a = b) then same_value_loop self other (S index) remaining else Some false
  end.
Definition AuthorityText_same_value (self other : AuthorityText) : option bool :=
  if bool_decide (length (at_bytes self) = length (at_bytes other))
  then same_value_loop (at_bytes self) (at_bytes other) 0 (length (at_bytes self))
  else Some false.

Fixpoint comes_before_loop (self other : list byte) (index remaining : nat) : option bool :=
  match remaining with
  | O => Some (bool_decide (length self < length other))
  | S remaining =>
    a ← self !! index;
    b ← other !! index;
    if bool_decide (a = b) then comes_before_loop self other (S index) remaining
    else Some (bval a <? bval b)%Z
  end.
Definition AuthorityText_comes_before (self other : AuthorityText) : option bool :=
  let common_length :=
    if bool_decide (length (at_bytes self) < length (at_bytes other))
    then length (at_bytes self) else length (at_bytes other) in
  comes_before_loop (at_bytes self) (at_bytes other) 0 common_length.

(** * Enumerations *)

Inductive FileAccess := Read | Write | Execute.
Inductive PathRole :=
| ProjectInput | OutputRoot | RuntimeExecutable | RuntimeLoaderExecutable | RuntimeLibrary.
#[global] Instance FileAccess_eq_dec : EqDecision FileAccess.
Proof. solve_decision. Defined.
#[global] Instance PathRole_eq_dec : EqDecision PathRole.
Proof. solve_decision. Defined.

Definition file_access_rank (a : FileAccess) : Z :=
  match a with Read => 0 | Write => 1 | Execute => 2 end.
Definition path_role_rank (r : PathRole) : Z :=
  match r with
  | ProjectInput => 0 | OutputRoot => 1 | RuntimeExecutable => 2
  | RuntimeLoaderExecutable => 3 | RuntimeLibrary => 4
  end.

(** The discriminants that [#[derive(Ord)]] compares. *)
Definition FileAccess_discriminant (a : FileAccess) : Z :=
  match a with Read => 0 | Write => 1 | Execute => 2 end.
Definition PathRole_discriminant (r : PathRole) : Z :=
  match r with
  | ProjectInput => 0 | OutputRoot => 1 | RuntimeExecutable => 2
  | RuntimeLoaderExecutable => 3 | RuntimeLibrary => 4
  end.
#[global] Instance FileAccess_discriminant_inj : Inj (=) (=) FileAccess_discriminant.
Proof. intros [] []; done. Qed.
#[global] Instance PathRole_discriminant_inj : Inj (=) (=) PathRole_discriminant.
Proof. intros [] []; done. Qed.

(** * Paths, environment names and path authorities *)

Record AuthorityPath := mkAuthorityPath { path_text : AuthorityText }.
Record EnvironmentName := mkEnvironmentName { name_text : AuthorityText }.
#[global] Instance AuthorityPath_eq_dec : EqDecision AuthorityPath.
Proof. solve_decision. Defined.
#[global] Instance EnvironmentName_eq_dec : EqDecision EnvironmentName.
Proof. solve_decision. Defined.

Definition contains_byte (b : byte) (s : string) : bool :=
  bool_decide (b ∈ String.list_ascii_of_string s).
Definition nul : byte := mkb 0.

Definition AuthorityPath_new (value : string) : result AuthorityError AuthorityPath :=
  if bool_decide (value = "") then Err EmptyPath
  else if contains_byte nul value then Err PathContainsNull
  else Ok {| path_text := AuthorityText_new value |}.
Definition AuthorityPath_as_str (p : AuthorityPath) : string := at_text (path_text p).
Definition AuthorityPath_same_value (self other : AuthorityPath) : option bool :=
  AuthorityText_same_value (path_text self) (path_text other).
Definition AuthorityPath_comes_before (self other : AuthorityPath) : option bool :=
  AuthorityText_comes_before (path_text self) (path_text other).

Definition EnvironmentName_new (value : string) : result AuthorityError EnvironmentName :=
  if bool_decide (value = "") then Err EmptyEnvironmentName
  else if contains_byte nul value then Err EnvironmentNameContainsNull
  else if contains_byte "="%char value then Err EnvironmentNameContainsEquals
  else Ok {| name_text := AuthorityText_new value |}.
Definition EnvironmentName_as_str (n : EnvironmentName) : string := at_text (name_text n).
Definition EnvironmentName_same_value (self other : EnvironmentName) : option bool :=
  AuthorityText_same_value (name_text self) (name_text other).
Definition EnvironmentName_comes_before (self other : EnvironmentName) : option bool :=
  AuthorityText_comes_before (name_text self) (name_text other).

Record PathAuthority := mkPathAuthority {
  pa_path : AuthorityPath; pa_access : FileAccess; pa_role : PathRole
}.
#[global] Instance PathAuthority_eq_dec : EqDecision PathAuthority.
Proof. solve_decision. Defined.
Definition PathAuthority_new (p : AuthorityPath) (a : FileAccess) (r : PathRole) : PathAuthority :=
  {| pa_path := p; pa_access := a; pa_role := r |}.

Definition PathAuthority_same_value (self other : PathAuthority) : option bool :=
  same ← AuthorityPath_same_value (pa_path self) (pa_path other);
  Some (same
        && (file_access_rank (pa_access self) =? file_access_rank (pa_access other))%Z
        && (path_role_rank (pa_role self) =? path_role_rank (pa_role other))%Z).
Definition PathAuthority_comes_before (self other : PathAuthority) : option bool :=
  same ← AuthorityPath_same_value (pa_path self) (pa_path other);
  if negb same then AuthorityPath_comes_before (pa_path self) (pa_path other)
  else
    let access_rank := file_access_rank (pa_access self) in
    let other_access := file_access_rank (pa_access other) in
    if negb (access_rank =? other_access)%Z then Some (access_rank <? other_access)%Z
    else Some (path_role_rank (pa_role self) <? path_role_rank (pa_role other))%Z.

(** [#[derive(Ord)]] on the newtypes and the struct. *)
#[global] Instance AuthorityPath_ord : RustOrd AuthorityPath := ord_via path_text.
#[global] Instance EnvironmentName_ord : RustOrd EnvironmentName := ord_via name_text.
#[global] Instance FileAccess_ord : RustOrd FileAccess := ord_via FileAccess_discriminant.
#[global] Instance PathRole_ord : RustOrd PathRole := ord_via PathRole_discriminant.
#[global] Instance PathAuthority_ord : RustOrd PathAuthority :=
  ord_via (fun p => (pa_path p, (pa_access p, pa_role p))).

#[global] Instance AuthorityPath_lawful : LawfulOrd AuthorityPath.
Proof.
  assert (Inj (=) (=) path_text) by (intros [] []; cbn; congruence).
  apply (ord_via_lawful path_text).
Qed.
#[global] Instance EnvironmentName_lawful : LawfulOrd EnvironmentName.
Proof.
  assert (Inj (=) (=) name_text) by (intros [] []; cbn; congruence).
  apply (ord_via_lawful name_text).
Qed.
#[global] Instance FileAccess_lawful : LawfulOrd FileAccess.
Proof. apply (ord_via_lawful FileAccess_discriminant). Qed.
#[global] Instance PathRole_lawful : LawfulOrd PathRole.
Proof. apply (ord_via_lawful PathRole_discriminant). Qed.
#[global] Instance PathAuthority_lawful : LawfulOrd PathAuthority.
Proof.
  assert (Inj (=) (=) (fun p => (pa_path p, (pa_access p, pa_role p)))) by (intros [] []; cbn; congruence).
  apply (ord_via_lawful (fun p => (pa_path p, (pa_access p, pa_role p)))).
Qed.

(** * Resource limits *)

Record ProcessLimit := mkProcessLimit { ProcessLimit_get : Z }.
Record WallTimeLimit := mkWallTimeLimit { WallTimeLimit_milliseconds : Z }.
Record OutputByteLimit := mkOutputByteLimit { OutputByteLimit_get : Z }.
Record MemoryByteLimit := mkMemoryByteLimit { MemoryByteLimit_get : Z }.
Record SwapByteLimit := mkSwapByteLimit { SwapByteLimit_get : Z }.
#[global] Instance ProcessLimit_eq_dec : EqDecision ProcessLimit.
Proof. solve_decision. Defined.
#[global] Instance WallTimeLimit_eq_dec : EqDecision WallTimeLimit.
Proof. solve_decision. Defined.
#[global] Instance OutputByteLimit_eq_dec : EqDecision OutputByteLimit.
Proof. solve_decision. Defined.
#[global] Instance MemoryByteLimit_eq_dec : EqDecision MemoryByteLimit.
Proof. solve_decision. Defined.
#[global] Instance SwapByteLimit_eq_dec : EqDecision SwapByteLimit.
Proof. solve_decision. Defined.

(** The argument is a [u32]. *)
Definition ProcessLimit_new (value : Z) : result AuthorityError ProcessLimit :=
  if (value =? 0)%Z then Err ZeroProcessLimit else Ok (mkProcessLimit value).
(** The arguments of the following constructors are [u64]s. *)
Definition WallTimeLimit_from_milliseconds (value : Z) : result AuthorityError WallTimeLimit :=
  if (value =? 0)%Z then Err ZeroWallTimeLimit else Ok (mkWallTimeLimit value).
Definition OutputByteLimit_new (value : Z) : OutputByteLimit := mkOutputByteLimit value.

Definition MemoryByteLimit_MINIMUM : Z := 65536.
Definition MemoryByteLimit_MAXIMUM : Z := 1099511627776.
Definition MemoryByteLimit_QUANTUM : Z := 65536.
Definition MemoryByteLimit_new (value : Z) : result AuthorityError MemoryByteLimit :=
  if (value <? MemoryByteLimit_MINIMUM)%Z then Err MemoryLimitBelowMinimum
  else if (MemoryByteLimit_MAXIMUM <? value)%Z then Err MemoryLimitAboveMaximum
  else if negb (value mod MemoryByteLimit_QUANTUM =? 0)%Z then Err MemoryLimitNotQuantized
  else Ok (mkMemoryByteLimit value).

Definition SwapByteLimit_MAXIMUM : Z := 1099511627776.
Definition SwapByteLimit_QUANTUM : Z := 65536.
Definition SwapByteLimit_new (value : Z) : result AuthorityError SwapByteLimit :=
  if (SwapByteLimit_MAXIMUM <? value)%Z then Err SwapLimitAboveMaximum
  else if negb (value mod SwapByteLimit_QUANTUM =? 0)%Z then Err SwapLimitNotQuantized
  else Ok (mkSwapByteLimit value).

Record ResourceLimits := mkResourceLimits {
  processes : ProcessLimit;
  wall_time : WallTimeLimit;
  stdout : OutputByteLimit;
  stderr : OutputByteLimit;
  memory : option MemoryByteLimit;
  swap_limit : option SwapByteLimit
}.
#[global] Instance ResourceLimits_eq_dec : EqDecision ResourceLimits.
Proof. solve_decision. Defined.

Definition ResourceLimits_new (p : ProcessLimit) (w : WallTimeLimit)
    (out err : OutputByteLimit) : ResourceLimits :=
  mkResourceLimits p w out err None None.
Definition ResourceLimits_new_v2 (p : ProcessLimit) (w : WallTimeLimit)
    (out err : OutputByteLimit) (m : MemoryByteLimit) (s : SwapByteLimit) : ResourceLimits :=
  mkResourceLimits p w out err (Some m) (Some s).
Definition is_version_two (l : ResourceLimits) : bool :=
  bool_decide (is_Some (memory l)) && bool_decide (is_Some (swap_limit l)).

Definition optional_bound_is_no_more_permissive {A} (le : A -> A -> bool)
    (left right : option A) : bool :=
  match left, right with
  | Some l, Some r => le l r
  | Some _, None | None, None => true
  | None, Some _ => false
  end.

Definition ResourceLimits_is_no_more_permissive_than (self other : ResourceLimits) : bool :=
  (ProcessLimit_get (processes self) <=? ProcessLimit_get (processes other))%Z
  && (WallTimeLimit_milliseconds (wall_time self)
      <=? WallTimeLimit_milliseconds (wall_time other))%Z
  && (OutputByteLimit_get (stdout self) <=? OutputByteLimit_get (stdout other))%Z
  && (OutputByteLimit_get (stderr self) <=? OutputByteLimit_get (stderr other))%Z
  && optional_bound_is_no_more_permissive
       (fun l r => (MemoryByteLimit_get l <=? MemoryByteLimit_get r)%Z) (memory self) (memory other)
  && optional_bound_is_no_more_permissive
       (fun l r => (SwapByteLimit_get l <=? SwapByteLimit_get r)%Z)
       (swap_limit self) (swap_limit other).
#[global] Instance ResourceLimits_attenuates : Attenuates ResourceLimits :=
  ResourceLimits_is_no_more_permissive_than.

(** * The authority plan *)

Inductive NetworkMode := Deny.
#[global] Instance NetworkMode_eq_dec : EqDecision NetworkMode.
Proof. solve_decision. Defined.

Record AuthorityPlan := mkAuthorityPlan {
  plan_paths : list PathAuthority;
  plan_environment : list EnvironmentName;
  plan_limits : ResourceLimits;
  plan_network : NetworkMode
}.
Definition AuthorityPlan_new (paths : list PathAuthority) (environment : list EnvironmentName)
    (limits : ResourceLimits) : AuthorityPlan :=
  mkAuthorityPlan paths environment limits Deny.
Definition AuthorityPlan_into_parts (p : AuthorityPlan) :
    list PathAuthority * list EnvironmentName * ResourceLimits * NetworkMode :=
  (plan_paths p, plan_environment p, plan_limits p, plan_network p).

(** What the constructors guarantee of the values of a plan. *)
Definition AuthorityPath_ok (p : AuthorityPath) : Prop :=
  AuthorityText_ok (path_text p) /\ at_text (path_text p) <> ""
  /\ ~ (nul ∈ String.list_ascii_of_string (at_text (path_text p))).
Definition EnvironmentName_ok (n : EnvironmentName) : Prop :=
  AuthorityText_ok (name_text n) /\ at_text (name_text n) <> ""
  /\ ~ (nul ∈ String.list_ascii_of_string (at_text (name_text n)))
  /\ ~ ("="%char ∈ String.list_ascii_of_string (at_text (name_text n))).
Definition PathAuthority_ok (p : PathAuthority) : Prop := AuthorityPath_ok (pa_path p).
Definition AuthorityPlan_ok (p : AuthorityPlan) : Prop :=
  Forall PathAuthority_ok (plan_paths p) /\ Forall EnvironmentName_ok (plan_environment p).

(** * Lemmas *)

Lemma same_value_loop_spec l k i n :
  i + n = length l -> length l = length k ->
  same_value_loop l k i n = Some (bool_decide (drop i l = drop i k)).
Proof.
  revert i. induction n as [|n IH]; intros i Hn Hlk; cbn.
  { rewrite !drop_ge by lia. by rewrite bool_decide_eq_true_2. }
  destruct (lookup_lt_is_Some_2 l i) as [a Ha]; [lia|].
  destruct (lookup_lt_is_Some_2 k i) as [b Hb]; [lia|].
  rewrite Ha; cbn; rewrite Hb; cbn.
  rewrite (drop_S l a i Ha), (drop_S k b i Hb).
  case_bool_decide as Hab.
  - rewrite IH by lia. f_equal. apply bool_decide_ext. subst. split; congruence.
  - f_equal. symmetry. apply bool_decide_eq_false. congruence.
Qed.

Lemma AuthorityText_same_value_spec t u :
  AuthorityText_ok t -> AuthorityText_ok u ->
  AuthorityText_same_value t u = Some (bool_decide (t = u)).
Proof.
  unfold AuthorityText_ok, AuthorityText_same_value. intros Ht Hu.
  assert (t = u <-> at_bytes t = at_bytes u) as Heq.
  { split; [congruence|]. intros Hb. destruct t, u; cbn in *. subst.
    apply (inj String.list_ascii_of_string) in Hb as ->. done. }
  case_bool_decide as Hlen.
  - rewrite same_value_loop_spec by (done || lia). f_equal. by apply bool_decide_ext.
  - f_equal. symmetry. apply bool_decide_eq_false. intros ->. done.
Qed.

Lemma comes_before_loop_spec l k i n :
  i + n = length l `min` length k -> comes_before_loop l k i n = Some (rlt (drop i l) (drop i k)).
Proof.
  revert i. induction n as [|n IH]; intros i Hn; cbn.
  { case_bool_decide as Hlt; f_equal; unfold rlt, rcmp, list_ord.
    - rewrite (drop_ge l) by lia. destruct (drop i k) eqn:Hk; [|done].
      apply (f_equal length) in Hk. rewrite length_drop in Hk. cbn in Hk. lia.
    - rewrite (drop_ge k) by lia. by destruct (drop i l). }
  destruct (lookup_lt_is_Some_2 l i) as [a Ha]; [lia|].
  destruct (lookup_lt_is_Some_2 k i) as [b Hb]; [lia|].
  rewrite Ha; cbn; rewrite Hb; cbn.
  rewrite (drop_S l a i Ha), (drop_S k b i Hb). unfold rlt. rewrite rcmp_cons.
  case_bool_decide as Hab.
  - subst. rewrite rcmp_refl; cbn. rewrite IH by lia. done.
  - f_equal. unfold rcmp at 1, byte_ord, ord_via, rcmp, Z_ord, Z.ltb.
    destruct (bval a ?= bval b)%Z eqn:Hc; [|done..].
    apply Z.compare_eq_iff, (inj bval) in Hc. done.
Qed.

Lemma AuthorityText_comes_before_spec t u :
  AuthorityText_ok t -> AuthorityText_ok u ->
  AuthorityText_comes_before t u = Some (rlt t u).
Proof.
  unfold AuthorityText_ok, AuthorityText_comes_before. intros Ht Hu.
  rewrite comes_before_loop_spec by (case_bool_decide; lia). f_equal.
  unfold rlt, rcmp at 2, AuthorityText_ord, ord_via. rewrite rcmp_pair, Ht, Hu, !drop_0.
  change (rcmp (at_text t) (at_text u))
    with (rcmp (String.list_ascii_of_string (at_text t)) (String.list_ascii_of_string (at_text u))).
  by destruct (rcmp _ _).
Qed.

Lemma AuthorityText_new_ok s : AuthorityText_ok (AuthorityText_new s).
Proof. done. Qed.
#[export] Hint Resolve AuthorityText_new_ok : pbr.

Lemma contains_byte_spec b s : contains_byte b s = true <-> b ∈ String.list_ascii_of_string s.
Proof. apply bool_decide_eq_true. Qed.

Lemma EnvironmentName_same_value_spec a b :
  EnvironmentName_ok a -> EnvironmentName_ok b ->
  EnvironmentName_same_value a b = Some (bool_decide (a = b)).
Proof.
  intros [Ha _] [Hb _]. unfold EnvironmentName_same_value.
  rewrite AuthorityText_same_value_spec by done. f_equal. apply bool_decide_ext.
  destruct a, b; cbn. split; congruence.
Qed.
Lemma EnvironmentName_comes_before_spec a b :
  EnvironmentName_ok a -> EnvironmentName_ok b ->
  EnvironmentName_comes_before a b = Some (rlt a b).
Proof.
  intros [Ha _] [Hb _]. unfold EnvironmentName_comes_before.
  by rewrite AuthorityText_comes_before_spec.
Qed.

Lemma AuthorityPath_same_value_spec a b :
  AuthorityPath_ok a -> AuthorityPath_ok b ->
  AuthorityPath_same_value a b = Some (bool_decide (a = b)).
Proof.
  intros [Ha _] [Hb _]. unfold AuthorityPath_same_value.
  rewrite AuthorityText_same_value_spec by done. f_equal. apply bool_decide_ext.
  destruct a, b; cbn. split; congruence.
Qed.
Lemma AuthorityPath_comes_before_spec a b :
  AuthorityPath_ok a -> AuthorityPath_ok b -> AuthorityPath_comes_before a b = Some (rlt a b).
Proof.
  intros [Ha _] [Hb _]. unfold AuthorityPath_comes_before.
  by rewrite AuthorityText_comes_before_spec.
Qed.

Lemma file_access_rank_discriminant a : file_access_rank a = FileAccess_discriminant a.
Proof. by destruct a. Qed.
Lemma path_role_rank_discriminant r : path_role_rank r = PathRole_discriminant r.
Proof. by destruct r. Qed.

Lemma PathAuthority_same_value_spec a b :
  PathAuthority_ok a -> PathAuthority_ok b ->
  PathAuthority_same_value a b = Some (bool_decide (a = b)).
Proof.
  intros Ha Hb. unfold PathAuthority_same_value.
  rewrite AuthorityPath_same_value_spec by done; cbn. f_equal.
  rewrite !file_access_rank_discriminant, !path_role_rank_discriminant.
  destruct a as [p x r], b as [q y r']; cbn.
  apply eq_true_iff_eq. rewrite !andb_true_iff, !Z.eqb_eq, !bool_decide_eq_true.
  split; [|naive_solver].
  intros [[-> ->%(inj FileAccess_discriminant)] ->%(inj PathRole_discriminant)]. done.
Qed.

Lemma PathAuthority_comes_before_spec a b :
  PathAuthority_ok a -> PathAuthority_ok b -> PathAuthority_comes_before a b = Some (rlt a b).
Proof.
  intros Ha Hb. unfold PathAuthority_comes_before.
  rewrite AuthorityPath_same_value_spec by done; cbn.
  unfold rlt, rcmp at 1, PathAuthority_ord, ord_via. rewrite !rcmp_pair.
  rewrite !file_access_rank_discriminant, !path_role_rank_discriminant.
  case_bool_decide as Hp; cbn.
  - rewrite Hp, rcmp_refl. cbn [cmp_then negb].
    change (rcmp (pa_access a) (pa_access b)) with
      (FileAccess_discriminant (pa_access a) ?= FileAccess_discriminant (pa_access b))%Z.
    change (rcmp (pa_role a) (pa_role b)) with
      (PathRole_discriminant (pa_role a) ?= PathRole_discriminant (pa_role b))%Z.
    unfold Z.ltb. case_match eqn:He; apply negb_true_iff, Z.eqb_neq in He
      || apply negb_false_iff, Z.eqb_eq in He.
    + destruct (_ ?= _)%Z eqn:Hc; try done. by apply Z.compare_eq_iff in Hc.
    + rewrite He, Z.compare_refl. done.
  - rewrite AuthorityPath_comes_before_spec by done. unfold rlt. f_equal.
    destruct (rcmp (pa_path a) (pa_path b)) eqn:Hc; [|done..]. by apply rcmp_Eq in Hc.
Qed.

Lemma AuthorityPath_new_Ok s p :
  AuthorityPath_new s = Ok p <->
  s <> "" /\ ~ (nul ∈ String.list_ascii_of_string s) /\ p = mkAuthorityPath (AuthorityText_new s).
Proof.
  unfold AuthorityPath_new. case_bool_decide; [naive_solver|].
  rewrite <- contains_byte_spec. destruct (contains_byte nul s); naive_solver.
Qed.
Lemma AuthorityPath_new_ok s p : AuthorityPath_new s = Ok p -> AuthorityPath_ok p.
Proof. intros (?&?&->)%AuthorityPath_new_Ok. done. Qed.
Lemma EnvironmentName_new_Ok s n :
  EnvironmentName_new s = Ok n <->
  s <> "" /\ ~ (nul ∈ String.list_ascii_of_string s) /\ ~ ("="%char ∈ String.list_ascii_of_string s)
  /\ n = mkEnvironmentName (AuthorityText_new s).
Proof.
  unfold EnvironmentName_new. case_bool_decide; [naive_solver|].
  rewrite <- !contains_byte_spec.
  destruct (contains_byte nul s), (contains_byte "=" s); naive_solver.
Qed.
Lemma EnvironmentName_new_ok s n : EnvironmentName_new s = Ok n -> EnvironmentName_ok n.
Proof. intros (?&?&?&->)%EnvironmentName_new_Ok. done. Qed.
#[export] Hint Resolve AuthorityPath_new_ok EnvironmentName_new_ok : pbr.

Lemma optional_bound_refl {A} (le : A -> A -> bool) o :
  (forall a, le a a = true) -> optional_bound_is_no_more_permissive le o o = true.
Proof. destruct o; cbn; auto. Qed.
Lemma optional_bound_trans {A} (le : A -> A -> bool) o1 o2 o3 :
  (forall a b c, le a b = true -> le b c = true -> le a c = true) ->
  optional_bound_is_no_more_permissive le o1 o2 = true ->
  optional_bound_is_no_more_permissive le o2 o3 = true ->
  optional_bound_is_no_more_permissive le o1 o3 = true.
Proof. destruct o1, o2, o3; cbn; eauto; done. Qed.

#[global] Instance ResourceLimits_preorder : AttenuationPreorder ResourceLimits.
Proof.
  split; unfold no_more, ResourceLimits_attenuates, ResourceLimits_is_no_more_permissive_than; intros *.
  - split_andb; try lia; apply optional_bound_refl; lia.
  - intros. split_andb; try lia; eapply optional_bound_trans; try eassumption; cbn; lia.
Qed.
