(* ===== verification/Normalize.v ===== *)
(** Authority normalization, [proofbound-runtime-core/src/normalize.rs]:
    in-place deduplication by swapping followed by an insertion sort.  The
    vector operations index and swap, so they live in the [option] monad
    ([None] is an index panic); the theorems show that they never panic. *)
From S2P Require Import Prelude Authority.
From Stdlib Require Import Ascii ZArith Lia Sorted.
From stdpp Require Import prelude strings list numbers.
Export stdpp.list_relations.list.

(** * The interface normalization needs of an entry type

    [same_value] and [comes_before] are the crate-private comparisons; on the
    values the constructors build they decide equality and the derived order. *)

Class CanonicalItem (A : Type) `{EqDecision A, LawfulOrd A} := {
  same_value : A -> A -> option bool;
  comes_before : A -> A -> option bool;
  item_ok : A -> Prop;
  same_value_spec (a b : A) :
    item_ok a -> item_ok b -> same_value a b = Some (bool_decide (a = b));
  comes_before_spec (a b : A) :
    item_ok a -> item_ok b -> comes_before a b = Some (rlt a b)
}.

#[global] Instance PathAuthority_item : CanonicalItem PathAuthority := {
  same_value := PathAuthority_same_value;
  comes_before := PathAuthority_comes_before;
  item_ok := PathAuthority_ok;
  same_value_spec := PathAuthority_same_value_spec;
  comes_before_spec := PathAuthority_comes_before_spec
}.
#[global] Instance EnvironmentName_item : CanonicalItem EnvironmentName := {
  same_value := EnvironmentName_same_value;
  comes_before := EnvironmentName_comes_before;
  item_ok := EnvironmentName_ok;
  same_value_spec := EnvironmentName_same_value_spec;
  comes_before_spec := EnvironmentName_comes_before_spec
}.

(** * The loops *)

Section loops.
Context `{CanonicalItem A}.

(** [while index < end] of [path_prefix_contains]. *)
Fixpoint prefix_contains_loop (items : list A) (candidate index remaining : nat) : option bool :=
  match remaining with
  | O => Some false
  | S remaining =>
    a ← items !! index;
    c ← items !! candidate;
    same ← same_value a c;
    if (same : bool) then Some true
    else prefix_contains_loop items candidate (S index) remaining
  end.
Definition prefix_contains (items : list A) (end_ candidate : nat) : option bool :=
  prefix_contains_loop items candidate 0 end_.

(** One iteration of [for read in 0..items.len()]. *)
Definition deduplicate_step (st : list A * nat) (read : nat) : option (list A * nat) :=
  let '(items, write) := st in
  contained ← prefix_contains items write read;
  if negb contained then
    items ← (if bool_decide (write <> read) then swap items write read else Some items);
    Some (items, S write)
  else Some (items, write).
Fixpoint deduplicate_loop (st : list A * nat) (reads : list nat) : option (list A * nat) :=
  match reads with
  | [] => Some st
  | read :: reads => st ← deduplicate_step st read; deduplicate_loop st reads
  end.
Definition deduplicate (items : list A) : option (list A) :=
  '(items', write) ← deduplicate_loop (items, 0) (seq 0 (length items));
  Some (take write items').

(** [while cursor > 0 && items[cursor].comes_before(&items[cursor - 1])]. *)
Fixpoint sift (cursor : nat) (items : list A) : option (list A) :=
  match cursor with
  | O => Some items
  | S previous =>
    a ← items !! cursor;
    b ← items !! previous;
    before ← comes_before a b;
    if (before : bool) then items ← swap items cursor previous; sift previous items
    else Some items
  end.
Fixpoint insertion_loop (items : list A) (indices : list nat) : option (list A) :=
  match indices with
  | [] => Some items
  | index :: indices => items ← sift index items; insertion_loop items indices
  end.
Definition sort_and_deduplicate (items : list A) : option (list A) :=
  items ← deduplicate items;
  insertion_loop items (seq 1 (length items - 1)).
End loops.

Definition path_prefix_contains : list PathAuthority -> nat -> nat -> option bool := prefix_contains.
Definition deduplicate_paths : list PathAuthority -> option (list PathAuthority) := deduplicate.
Definition sort_and_deduplicate_paths : list PathAuthority -> option (list PathAuthority) :=
  sort_and_deduplicate.
Definition environment_prefix_contains : list EnvironmentName -> nat -> nat -> option bool :=
  prefix_contains.
Definition deduplicate_environment : list EnvironmentName -> option (list EnvironmentName) :=
  deduplicate.
Definition sort_and_deduplicate_environment :
  list EnvironmentName -> option (list EnvironmentName) := sort_and_deduplicate.

(** * Normalized authority *)

Record NormalizedAuthority := mkNormalizedAuthority {
  paths : list PathAuthority;
  environment : list EnvironmentName;
  limits : ResourceLimits;
  network : NetworkMode
}.
#[global] Instance NormalizedAuthority_eq_dec : EqDecision NormalizedAuthority.
Proof. solve_decision. Defined.

(** [normalize_authority] never returns its [Err]; the outer [option] is the
    panic of the vector operations. *)
Definition normalize_authority (plan : AuthorityPlan) :
    option (result AuthorityError NormalizedAuthority) :=
  let '(ps, env, lim, net) := AuthorityPlan_into_parts plan in
  ps ← sort_and_deduplicate_paths ps;
  env ← sort_and_deduplicate_environment env;
  Some (Ok (mkNormalizedAuthority ps env lim net)).

Definition NormalizedAuthority_is_subset_of (self : NormalizedAuthority) (plan : AuthorityPlan) : bool :=
  all_contained (paths self) (plan_paths plan)
  && all_contained (environment self) (plan_environment plan)
  && ResourceLimits_is_no_more_permissive_than (limits self) (plan_limits plan)
  && bool_decide (network self = plan_network plan).
Definition NormalizedAuthority_to_plan (self : NormalizedAuthority) : AuthorityPlan :=
  AuthorityPlan_new (paths self) (environment self) (limits self).
Definition NormalizedAuthority_into_parts (self : NormalizedAuthority) :
    list PathAuthority * list EnvironmentName * ResourceLimits * NetworkMode :=
  (paths self, environment self, limits self, network self).
Definition is_strictly_sorted `{RustOrd A} (items : list A) : bool := windows_all rlt items.
Definition NormalizedAuthority_is_canonical (self : NormalizedAuthority) : bool :=
  is_strictly_sorted (paths self) && is_strictly_sorted (environment self).

(** * The loops against their specification *)

Section loop_lemmas.
Context `{CanonicalItem A}.
Implicit Types (items l : list A) (x : A).

Lemma prefix_contains_loop_spec items c i n x :
  items !! c = Some x -> i + n <= length items -> Forall item_ok items ->
  prefix_contains_loop items c i n = Some (bool_decide (x ∈ take n (drop i items))).
Proof.
  intros Hc. revert i. induction n as [|n IH]; intros i Hn Hok; cbn.
  { done. }
  destruct (lookup_lt_is_Some_2 items i) as [a Ha]; [lia|].
  rewrite Ha; cbn; rewrite Hc; cbn.
  rewrite same_value_spec by (eapply Forall_lookup_1; eassumption); cbn.
  rewrite (drop_S _ _ _ Ha); cbn.
  case_bool_decide as Hax.
  - subst. rewrite bool_decide_eq_true_2; [done|left].
  - rewrite IH by (lia || done). f_equal. apply bool_decide_ext.
    rewrite elem_of_cons. split; [auto|]. intros [?|?]; [congruence|done].
Qed.
Lemma prefix_contains_spec items e c x :
  items !! c = Some x -> e <= length items -> Forall item_ok items ->
  prefix_contains items e c = Some (bool_decide (x ∈ take e items)).
Proof. intros. unfold prefix_contains. by erewrite prefix_contains_loop_spec, drop_0 by done. Qed.

(** The invariant of the deduplication loop after [read] iterations. *)
Record dedup_inv (orig : list A) (read : nat) (st : list A * nat) : Prop := {
  di_perm : st.1 ≡ₚ orig;
  di_write : st.2 <= read <= length orig;
  di_nodup : NoDup (take st.2 st.1);
  di_elems x : x ∈ take st.2 st.1 <-> x ∈ take read orig;
  di_rest : drop read st.1 = drop read orig
}.

Lemma dedup_inv_step orig read st :
  Forall item_ok orig -> read < length orig -> dedup_inv orig read st ->
  exists st', deduplicate_step st read = Some st' /\ dedup_inv orig (S read) st'.
Proof.
  intros Hok Hlt [Hperm Hw Hnd Hel Hrest]. destruct st as [items write]; cbn in *.
  pose proof (Permutation_length Hperm) as Hlen.
  destruct (lookup_lt_is_Some_2 orig read Hlt) as [c Hc].
  assert (items !! read = Some c) as Hic.
  { rewrite <- (Nat.add_0_r read), <- lookup_drop, Hrest, lookup_drop, Nat.add_0_r. done. }
  rewrite (prefix_contains_spec _ _ _ c) by (done || lia || by rewrite Hperm); cbn.
  assert (take (S read) orig = take read orig ++ [c]) as Htk by (by apply take_S_r).
  assert (drop (S read) items = drop (S read) orig) as Hrest'.
  { rewrite (drop_S _ _ _ Hic), (drop_S _ _ _ Hc) in Hrest. congruence. }
  case_bool_decide as Hin; cbn.
  - eexists; split; [done|]. split; cbn; try done; [lia|].
    intros x. rewrite Hel, Htk, elem_of_app, list_elem_of_singleton.
    split; [auto|]. intros [?| ->]; [done|by apply Hel].
  - destruct (lookup_lt_is_Some_2 items write) as [y Hy]; [lia|].
    assert (exists items', (if bool_decide (write <> read) then swap items write read
        else Some items) = Some items' /\ items' ≡ₚ items
        /\ take (S write) items' = take write items ++ [c]
        /\ drop (S read) items' = drop (S read) items) as (items' & -> & Hp & Htk' & Hdr).
    { case_bool_decide as Hwr.
      - unfold swap. rewrite Hy; cbn; rewrite Hic; cbn. eexists; split; [done|].
        split; [by apply Permutation_insert_swap|]. split.
        + rewrite (take_S_r _ _ c).
          * f_equal. rewrite take_insert_ge by lia. by rewrite take_insert_ge by lia.
          * apply list_lookup_insert_eq. rewrite length_insert. lia.
        + rewrite drop_insert_lt by lia. by rewrite drop_insert_lt by lia.
      - assert (write = read) as -> by (destruct (decide (write = read)); tauto).
        eexists; split; [done|]. split; [done|]. split; [|done]. by apply take_S_r. }
    cbn. eexists; split; [done|]. split; cbn.
    + by rewrite Hp.
    + lia.
    + rewrite Htk'. apply NoDup_app. split; [done|]. split; [|apply NoDup_singleton].
      intros x Hx ->%list_elem_of_singleton. done.
    + intros x. by rewrite Htk', Htk, !elem_of_app, Hel.
    + by rewrite Hdr.
Qed.

Lemma deduplicate_loop_spec orig n read st :
  Forall item_ok orig -> read + n = length orig -> dedup_inv orig read st ->
  exists st', deduplicate_loop st (seq read n) = Some st' /\ dedup_inv orig (length orig) st'.
Proof.
  intros Hok. revert read st. induction n as [|n IH]; intros read st Hn Hinv; cbn.
  { exists st. split; [done|]. by replace (length orig) with read by lia. }
  destruct (dedup_inv_step orig read st) as (st' & -> & Hinv'); [done|lia|done|].
  cbn. apply IH; [lia|done].
Qed.

Lemma deduplicate_spec items :
  Forall item_ok items ->
  exists l, deduplicate items = Some l /\ NoDup l /\ (forall x, x ∈ l <-> x ∈ items).
Proof.
  intros Hok. unfold deduplicate.
  destruct (deduplicate_loop_spec items (length items) 0 (items, 0)) as ([l w] & -> & Hinv);
    [done|done|split; cbn; auto using NoDup_nil_2; lia|].
  destruct Hinv as [_ _ Hnd Hel _]; cbn in *. eexists; split; [done|]. split; [done|].
  intros x. by rewrite Hel, take_ge by done.
Qed.

Lemma insert_by_last x y l :
  rlt x y = true -> insert_by rlt x (l ++ [y]) = insert_by rlt x l ++ [y].
Proof.
  intros Hxy. induction l as [|z l IH]; cbn; [by rewrite (rlt_asym _ _ Hxy)|].
  destruct (rlt z x); cbn; by rewrite ?IH.
Qed.
Lemma insert_by_above x l : Forall (fun y => rlt y x = true) l -> insert_by rlt x l = l ++ [x].
Proof. induction 1 as [|y l Hy _ IH]; cbn; [done|]. by rewrite Hy, IH. Qed.

Lemma StronglySorted_snoc (R : A -> A -> Prop) l y :
  StronglySorted R (l ++ [y]) <-> StronglySorted R l /\ Forall (fun x => R x y) l.
Proof.
  induction l as [|x l IH]; cbn; [split; [by repeat constructor|by repeat constructor]|].
  split.
  - intros [(?&?)%IH Hx]%StronglySorted_inv. apply Forall_app in Hx as [? Hxy].
    inversion Hxy; subst. by repeat constructor.
  - intros [[? ?]%StronglySorted_inv Hf]. inversion Hf; subst.
    constructor; [by apply IH|]. apply Forall_app. by repeat constructor.
Qed.

Lemma lookup_app_second p x y (s : list A) : (p ++ y :: x :: s) !! S (length p) = Some x.
Proof. rewrite lookup_app_r by lia. by replace (S (length p) - length p) with 1 by lia. Qed.
Lemma swap_adjacent p x y (s : list A) :
  swap (p ++ y :: x :: s) (S (length p)) (length p) = Some (p ++ x :: y :: s).
Proof.
  unfold swap. rewrite lookup_app_second; cbn. rewrite list_lookup_middle by done; cbn.
  f_equal. rewrite insert_app_r_alt by lia. rewrite Nat.sub_diag; cbn.
  rewrite insert_app_r_alt by lia. by replace (S (length p) - length p) with 1 by lia.
Qed.

(** Sifting moves the element behind a sorted prefix to its place. *)
Lemma sift_spec p x s :
  StronglySorted (fun a b => rlt a b = true) p -> ~ (x ∈ p) ->
  Forall item_ok p -> item_ok x ->
  sift (length p) (p ++ x :: s) = Some (insert_by rlt x p ++ s).
Proof.
  revert s. induction p as [|y p IH] using rev_ind; intros s Hs Hni Hok Hx; [done|].
  apply StronglySorted_snoc in Hs as [Hs Hall].
  apply Forall_app in Hok as [Hokp Hoky]. inversion Hoky; subst.
  rewrite length_app, Nat.add_1_r; cbn [sift].
  rewrite <- app_assoc; cbn [app].
  rewrite lookup_app_second; cbn. rewrite list_lookup_middle by done; cbn.
  rewrite comes_before_spec by done; cbn.
  destruct (rlt x y) eqn:Hxy.
  - rewrite swap_adjacent; cbn.
    rewrite IH by (done || set_solver). rewrite insert_by_last by done.
    by rewrite <- app_assoc.
  - assert (rlt y x = true) as Hyx.
    { destruct (rlt_total x y) as [?|[->|?]]; [congruence|set_solver|done]. }
    rewrite insert_by_above; [by rewrite <- !app_assoc|].
    apply Forall_app. split; [|by repeat constructor].
    eapply Forall_impl; [exact Hall|]. cbn. eauto using rlt_trans.
Qed.

Lemma insertion_loop_spec p s :
  StronglySorted (fun a b => rlt a b = true) p -> NoDup (p ++ s) -> Forall item_ok (p ++ s) ->
  exists l, insertion_loop (p ++ s) (seq (length p) (length s)) = Some l
    /\ StronglySorted (fun a b => rlt a b = true) l /\ l ≡ₚ p ++ s.
Proof.
  revert p. induction s as [|x s IH]; intros p Hs Hnd Hok; cbn.
  { exists (p ++ []). rewrite app_nil_r. auto. }
  pose proof Hok as [Hokp [Hx Hoks]%Forall_cons]%Forall_app.
  pose proof Hnd as (Hndp & Hdisj & Hnds)%NoDup_app.
  assert (~ (x ∈ p)) as Hni by (intros Hxp; apply (Hdisj x Hxp); left).
  rewrite sift_spec by done; cbn.
  assert (insert_by rlt x p ++ s ≡ₚ p ++ x :: s) as Hp.
  { rewrite insert_by_Permutation; cbn. apply Permutation_middle. }
  replace (S (length p)) with (length (insert_by rlt x p))
    by (by rewrite (Permutation_length (insert_by_Permutation _ _ _))).
  destruct (IH (insert_by rlt x p)) as (l & -> & Hsl & Hpl).
  - apply weak_NoDup_strict.
    + by apply insert_by_weak, strict_weak.
    + rewrite insert_by_Permutation. by constructor.
  - by rewrite Hp.
  - by rewrite Hp.
  - exists l. split; [done|]. split; [done|]. by rewrite Hpl.
Qed.

Lemma sort_and_deduplicate_spec items :
  Forall item_ok items ->
  exists l, sort_and_deduplicate items = Some l
    /\ StronglySorted (fun a b => rlt a b = true) l /\ (forall x, x ∈ l <-> x ∈ items).
Proof.
  intros Hok. unfold sort_and_deduplicate.
  destruct (deduplicate_spec items Hok) as (d & -> & Hnd & Hel); cbn.
  assert (Forall item_ok d) as Hokd.
  { apply Forall_forall. intros x Hx%Hel. by eapply Forall_forall in Hok. }
  destruct d as [|x d].
  { cbn. exists []. split; [done|]. split; [constructor|done]. }
  replace (length (x :: d) - 1) with (length d) by (cbn; lia).
  destruct (insertion_loop_spec [x] d) as (l & Hl & Hs & Hp); [by repeat constructor|done|done|].
  exists l. split; [exact Hl|]. split; [done|]. intros y. by rewrite Hp, <- Hel.
Qed.
End loop_lemmas.

Lemma sort_and_deduplicate_paths_spec items :
  Forall PathAuthority_ok items ->
  exists l, sort_and_deduplicate_paths items = Some l
    /\ StronglySorted (fun a b => rlt a b = true) l /\ (forall x, x ∈ l <-> x ∈ items).
Proof. exact (sort_and_deduplicate_spec items). Qed.
Lemma sort_and_deduplicate_environment_spec items :
  Forall EnvironmentName_ok items ->
  exists l, sort_and_deduplicate_environment items = Some l
    /\ StronglySorted (fun a b => rlt a b = true) l /\ (forall x, x ∈ l <-> x ∈ items).
Proof. exact (sort_and_deduplicate_spec items). Qed.

(** [normalize_authority] in one equation, for the clients of this file. *)
Lemma normalize_authority_spec plan :
  AuthorityPlan_ok plan ->
  exists ps env,
    normalize_authority plan
      = Some (Ok (mkNormalizedAuthority ps env (plan_limits plan) (plan_network plan)))
    /\ StronglySorted (fun a b => rlt a b = true) ps /\ (forall x, x ∈ ps <-> x ∈ plan_paths plan)
    /\ StronglySorted (fun a b => rlt a b = true) env
    /\ (forall x, x ∈ env <-> x ∈ plan_environment plan).
Proof.
  intros [Hp He]. unfold normalize_authority; cbn.
  destruct (sort_and_deduplicate_paths_spec _ Hp) as (ps & -> & Hsp & Hep); cbn.
  destruct (sort_and_deduplicate_environment_spec _ He) as (env & -> & Hse & Hee); cbn.
  exists ps, env. auto.
Qed.

Lemma normalized_subset plan ps env :
  (forall x, x ∈ ps <-> x ∈ plan_paths plan) -> (forall x, x ∈ env <-> x ∈ plan_environment plan) ->
  NormalizedAuthority_is_subset_of
    (mkNormalizedAuthority ps env (plan_limits plan) (plan_network plan)) plan = true.
Proof.
  intros Hp He. unfold NormalizedAuthority_is_subset_of; cbn. split_andb.
  - apply all_contained_subseteq. intros x. by rewrite Hp.
  - apply all_contained_subseteq. intros x. by rewrite He.
  - apply (no_more_refl (A := ResourceLimits)).
  - by apply bool_decide_eq_true.
Qed.

(** * Concrete plans *)

Definition example_limits : ResourceLimits :=
  ResourceLimits_new (mkProcessLimit 2) (mkWallTimeLimit 100) (mkOutputByteLimit 200)
    (mkOutputByteLimit 300).
Definition example_path (s : string) (a : FileAccess) (r : PathRole) : PathAuthority :=
  PathAuthority_new (mkAuthorityPath (AuthorityText_new s)) a r.
Definition example_name (s : string) : EnvironmentName := mkEnvironmentName (AuthorityText_new s).
(** The fixture of the unit test [sorts_and_deduplicates_without_amplification]. *)
Definition example_plan : AuthorityPlan :=
  AuthorityPlan_new
    [example_path "src" Read ProjectInput; example_path "out" Write OutputRoot;
     example_path "src" Read ProjectInput]
    [example_name "PATH"; example_name "LANG"; example_name "PATH"] example_limits.

Definition AuthorityPlan_okb (p : AuthorityPlan) : bool :=
  let okb (t : AuthorityText) :=
    bool_decide (at_bytes t = String.list_ascii_of_string (at_text t))
    && negb (bool_decide (at_text t = "")) && negb (contains_byte nul (at_text t)) in
  forallb (fun q => okb (path_text (pa_path q))) (plan_paths p)
  && forallb (fun n => okb (name_text n) && negb (contains_byte "=" (at_text (name_text n))))
       (plan_environment p).
Lemma AuthorityPlan_okb_spec p : AuthorityPlan_okb p = true -> AuthorityPlan_ok p.
Proof.
  unfold AuthorityPlan_okb. intros H. split_andb. split.
  - apply Forall_forall. intros q Hq%list_elem_of_In.
    match goal with H : forallb _ (plan_paths p) = true |- _ =>
      apply (proj1 (forallb_forall _ _) H) in Hq end.
    split_andb. repeat split; [by eapply bool_decide_eq_true_1|..]; rewrite negb_true_iff in *.
    + by eapply bool_decide_eq_false_1.
    + rewrite <- contains_byte_spec. congruence.
  - apply Forall_forall. intros q Hq%list_elem_of_In.
    match goal with H : forallb _ (plan_environment p) = true |- _ =>
      apply (proj1 (forallb_forall _ _) H) in Hq end.
    split_andb. repeat split; [by eapply bool_decide_eq_true_1|..]; rewrite negb_true_iff in *.
    + by eapply bool_decide_eq_false_1.
    + rewrite <- contains_byte_spec. congruence.
    + rewrite <- contains_byte_spec. congruence.
Qed.

Example normalize_example :
  normalize_authority example_plan =
  Some (Ok (mkNormalizedAuthority
    [example_path "out" Write OutputRoot; example_path "src" Read ProjectInput]
    [example_name "LANG"; example_name "PATH"] example_limits Deny)).
Proof. vm_compute. reflexivity. Qed.

(** * Properties *)

(** C28: on every validated plan [normalize_authority] terminates without an
    index panic and returns [Ok] of a canonical authority (strictly sorted paths
    and environment, hence no duplicates) with exactly the plan's paths and
    names, its limits and its network mode; the code's own [is_canonical] and
    [is_subset_of] tests accept it. *)
Theorem normalize_authority_correct (plan : AuthorityPlan) (Hok : AuthorityPlan_ok plan) :
  exists na, normalize_authority plan = Some (Ok na)
    /\ NormalizedAuthority_is_canonical na = true
    /\ NormalizedAuthority_is_subset_of na plan = true
    /\ (forall p, p ∈ paths na <-> p ∈ plan_paths plan)
    /\ (forall n, n ∈ environment na <-> n ∈ plan_environment plan)
    /\ limits na = plan_limits plan /\ network na = plan_network plan.
Proof.
  destruct (normalize_authority_spec plan Hok) as (ps & env & -> & Hsp & Hep & Hse & Hee).
  eexists; split; [done|]. split; [|by split; [apply normalized_subset|]].
  unfold NormalizedAuthority_is_canonical, is_strictly_sorted; cbn.
  apply andb_true_iff. by rewrite !windows_all_rlt.
Qed.

Lemma normalize_authority_correct_witness :
  AuthorityPlan_okb example_plan = true /\
  exists na, normalize_authority example_plan = Some (Ok na)
    /\ NormalizedAuthority_is_canonical na = true.
Proof.
  split; [vm_compute; reflexivity|].
  destruct (normalize_authority_correct example_plan
    (AuthorityPlan_okb_spec example_plan eq_refl)) as (na & H & Hc & _).
  exists na. split; [exact H|exact Hc].
Defined.

(** The normalized authority depends only on the set of requested entries:
    two validated plans with the same paths and names (in any order, with any
    repetition), limits and network mode normalize to the same value. *)
Theorem normalize_authority_canonical_form (p q : AuthorityPlan)
    (Hp : AuthorityPlan_ok p) (Hq : AuthorityPlan_ok q)
    (Hpaths : forall x, x ∈ plan_paths p <-> x ∈ plan_paths q)
    (Henv : forall x, x ∈ plan_environment p <-> x ∈ plan_environment q)
    (Hlim : plan_limits p = plan_limits q) (Hnet : plan_network p = plan_network q) :
  normalize_authority p = normalize_authority q.
Proof.
  destruct (normalize_authority_spec p Hp) as (ps & env & -> & Hsp & Hep & Hse & Hee).
  destruct (normalize_authority_spec q Hq) as (ps' & env' & -> & Hsp' & Hep' & Hse' & Hee').
  rewrite Hlim, Hnet. do 3 f_equal.
  - apply strict_unique; [done..|]. intros x. by rewrite Hep, Hep'.
  - apply strict_unique; [done..|]. intros x. by rewrite Hee, Hee'.
Qed.

Definition example_plan_permuted : AuthorityPlan :=
  AuthorityPlan_new
    [example_path "out" Write OutputRoot; example_path "src" Read ProjectInput]
    [example_name "LANG"; example_name "LANG"; example_name "PATH"] example_limits.

Lemma normalize_authority_canonical_form_witness :
  normalize_authority example_plan = normalize_authority example_plan_permuted.
Proof.
  apply normalize_authority_canonical_form.
  - apply AuthorityPlan_okb_spec. vm_compute. reflexivity.
  - apply AuthorityPlan_okb_spec. vm_compute. reflexivity.
  - intros x. cbn. set_solver.
  - intros x. cbn. set_solver.
  - reflexivity.
  - reflexivity.
Defined.

(** Normalization is idempotent: a normalized authority turned back into a
    plan normalizes to itself. *)
Theorem normalize_authority_idempotent (plan : AuthorityPlan) (na : NormalizedAuthority)
    (Hok : AuthorityPlan_ok plan) (Hn : normalize_authority plan = Some (Ok na)) :
  normalize_authority (NormalizedAuthority_to_plan na) = Some (Ok na).
Proof.
  destruct (normalize_authority_spec plan Hok) as (ps & env & Heq & Hsp & Hep & Hse & Hee).
  rewrite Heq in Hn. injection Hn as <-.
  destruct (normalize_authority_spec (NormalizedAuthority_to_plan
    (mkNormalizedAuthority ps env (plan_limits plan) (plan_network plan))))
    as (ps' & env' & -> & Hsp' & Hep' & Hse' & Hee'); cbn in *.
  - destruct Hok as [Hp He]. split; cbn; apply Forall_forall; intros x Hx.
    + apply Hep in Hx. by eapply Forall_forall in Hp.
    + apply Hee in Hx. by eapply Forall_forall in He.
  - destruct (plan_network plan). do 3 f_equal; by apply strict_unique.
Qed.

Lemma normalize_authority_idempotent_witness :
  exists na, normalize_authority example_plan = Some (Ok na)
    /\ normalize_authority (NormalizedAuthority_to_plan na) = Some (Ok na).
Proof.
  eexists. split; [exact normalize_example|].
  apply (normalize_authority_idempotent example_plan).
  - apply AuthorityPlan_okb_spec. vm_compute. reflexivity.
  - exact normalize_example.
Defined.
