(* ===== verification/WireV2.v ===== *)
(** The deterministic-CBOR codec of [proofbound-runtime-core/src/wire_v2.rs]:
    the encoder, the bounded decoder, and the assembly of a map from encoded
    fields.

    The decoder threads its [offset] and [items] counters through a state and
    error monad.  Its recursion is bounded by [MAX_DEPTH]: [item] runs on fuel
    [MAX_DEPTH + 2 - depth] and the branch without fuel is never reached
    ([item_fuel_irrelevant]).  A map entry of the encoder carries the encoder of
    its value, so that sorting the entries first and encoding the values in the
    sorted order stays a structural recursion. *)
From S2P Require Import Prelude.
From Stdlib Require Import Ascii ZArith Lia Sorted.
From stdpp Require Import prelude strings list numbers.
Export stdpp.list_relations.list.

Inductive Value :=
| Unsigned (value : Z)
| Negative (argument : Z)
| Bytes (value : list byte)
| Text (value : string)
| Array (values : list Value)
| Map (values : list (string * Value))
| Bool (value : bool)
| Null.

Inductive Error := Invalid | NonDeterministic | LimitExceeded.
#[global] Instance Error_eq_dec : EqDecision Error.
Proof. solve_decision. Defined.

Definition MAX_BYTES : Z := 16 * 1024 * 1024.
Definition MAX_DEPTH : nat := 128.
Definition MAX_ITEMS : Z := 1000000.

(** * Encoder *)

Definition encode_argument (major argument : Z) (output : list byte) : list byte :=
  let prefix := ((Z.shiftl major 5) mod 256)%Z in
  if (argument <? 24)%Z then output ++ [mkb (Z.lor prefix argument)]
  else match u8_try_from argument with
  | Some value => output ++ [mkb (Z.lor prefix 24); mkb value]
  | None =>
    match u16_try_from argument with
    | Some value => output ++ [mkb (Z.lor prefix 25)] ++ be_bytes 2 value
    | None =>
      match u32_try_from argument with
      | Some value => output ++ [mkb (Z.lor prefix 26)] ++ be_bytes 4 value
      | None => output ++ [mkb (Z.lor prefix 27)] ++ be_bytes 8 argument
      end
    end
  end.

(** [length] is a 64-bit [usize]. *)
Definition encode_length (major : Z) (length : nat) (output : list byte) : result Error (list byte) :=
  length ← ok_or (try_from u64_bound (Z.of_nat length)) LimitExceeded;
  Ok (encode_argument major length output).

(** The [Value::Text] branch, which also encodes the keys of a map. *)
Definition encode_text (value : string) (output : list byte) : result Error (list byte) :=
  output ← encode_length 3 (length (String.list_ascii_of_string value)) output;
  Ok (output ++ String.list_ascii_of_string value).

Definition encoder := list byte -> result Error (list byte).

Fixpoint run_encoders (encoders : list encoder) : encoder := fun output =>
  match encoders with
  | [] => Ok output
  | enc :: encoders => output ← enc output; run_encoders encoders output
  end.

Definition key_before {A} (left right : list byte * A) : bool := rlt left.1 right.1.
Definition no_adjacent_equal {A} (entries : list (list byte * A)) : bool :=
  windows_all (fun l r => negb (bool_decide (l.1 = r.1))) entries.

(** The common shape of [encode_map] and the second half of
    [encode_bound_map]: sort by key encoding, refuse equal neighbours, emit. *)
Definition encode_entries (entries : list (list byte * encoder)) : encoder := fun output =>
  let entries := sort_by key_before entries in
  if negb (no_adjacent_equal entries) then Err Invalid
  else
    output ← encode_length 5 (length entries) output;
    run_encoders (map (fun entry output => entry.2 (output ++ entry.1)) entries)
      output.

Definition encode_map (values : list (string * encoder)) : encoder := fun output =>
  entries ← mapM (fun kv => key_encoding ← encode_text kv.1 []; Ok (key_encoding, kv.2)) values;
  encode_entries entries output.

Fixpoint encode_item (value : Value) : encoder := fun output =>
  match value with
  | Unsigned value => Ok (encode_argument 0 value output)
  | Negative argument => Ok (encode_argument 1 argument output)
  | Bytes value =>
    output ← encode_length 2 (length value) output;
    Ok (output ++ value)
  | Text value => encode_text value output
  | Array values =>
    output ← encode_length 4 (length values) output;
    run_encoders (map encode_item values) output
  | Map values => encode_map (map (fun kv => (kv.1, encode_item kv.2)) values) output
  | Bool value => Ok (output ++ [mkb (if value then 0xf5 else 0xf4)])
  | Null => Ok (output ++ [mkb 0xf6])
  end.

Definition encode (value : Value) : result Error (list byte) := encode_item value [].

(** * Decoder *)

Record Decoder := mkDecoder { offset : Z; items : Z }.
Definition Dec (A : Type) : Type := Decoder -> result Error (A * Decoder).
#[global] Instance Dec_ret : MRet Dec := fun A a s => Ok (a, s).
#[global] Instance Dec_bind : MBind Dec := fun A B f m s =>
  match m s with Ok (a, s) => f a s | Err e => Err e end.
Definition dec_fail {A} (e : Error) : Dec A := fun _ => Err e.
Definition dec_lift {A} (m : result Error A) : Dec A := fun s =>
  match m with Ok a => Ok (a, s) | Err e => Err e end.

Definition to_usize (value : Z) : result Error Z := ok_or (try_from u64_bound value) LimitExceeded.
Definition bounded_count (value : Z) : result Error Z :=
  value ← to_usize value;
  if (MAX_ITEMS <? value)%Z then Err LimitExceeded else Ok value.

Section decoder.
Context (input : list byte).

Definition take (length : Z) : Dec (list byte) := fun s =>
  end_ ← ok_or (u64_checked_add (offset s) length) LimitExceeded;
  value ← ok_or (get_range input (offset s) end_) Invalid;
  Ok (value, mkDecoder end_ (items s)).

Definition argument_width (additional : Z) : result Error (Z * Z) :=
  if (additional =? 24)%Z then Ok (1, 24)%Z
  else if (additional =? 25)%Z then Ok (2, Z.shiftl 1 8)%Z
  else if (additional =? 26)%Z then Ok (4, Z.shiftl 1 16)%Z
  else if (additional =? 27)%Z then Ok (8, Z.shiftl 1 32)%Z
  else if (additional =? 31)%Z then Err NonDeterministic
  else Err Invalid.

Definition argument (additional : Z) : Dec Z :=
  if (additional <? 24)%Z then mret additional
  else
    '(width, minimum) ← dec_lift (argument_width additional);
    bytes ← take width;
    (* [full[8 - width..].copy_from_slice(bytes)], then [u64::from_be_bytes] *)
    let value := be_value (replicate (8 - Z.to_nat width) (mkb 0) ++ bytes) in
    if (value <? minimum)%Z then dec_fail NonDeterministic else mret value.

(** [for _ in 0..count { values.push(self.item(depth + 1)?) }] *)
Fixpoint push_items (item : Dec Value) (count : nat) (values : list Value) : Dec (list Value) :=
  match count with
  | O => mret values
  | S count => value ← item; push_items item count (values ++ [value])
  end.

(** The loop of [Decoder::map]. *)
Fixpoint map_entries (item : Dec Value) (count : nat) (previous : option (list byte))
    (values : list (string * Value)) : Dec (list (string * Value)) :=
  match count with
  | O => mret values
  | S count => fun s =>
    let key_start := offset s in
    '(key, s) ← item s;
    match key with
    | Text key =>
      key_encoding ← ok_or (get_range input key_start (offset s)) Invalid;
      if match previous with Some previous => rle key_encoding previous | None => false end
      then Err NonDeterministic
      else
        '(value, s) ← item s;
        map_entries item count (Some key_encoding) (values ++ [(key, value)]) s
    | _ => Err Invalid
    end
  end.

Definition decode_map (item : Dec Value) (arg : Z) : Dec Value :=
  count ← dec_lift (bounded_count arg);
  values ← map_entries item (Z.to_nat count) None [];
  mret (Map values).

Definition simple_value (additional : Z) : result Error Value :=
  if (additional =? 20)%Z then Ok (Bool false)
  else if (additional =? 21)%Z then Ok (Bool true)
  else if (additional =? 22)%Z then Ok Null
  else Err Invalid.

(** [match major] of [item]; [item] is the recursive call at the next depth. *)
Definition item_major (item : Dec Value) (major arg : Z) : Dec Value :=
  if (major =? 0)%Z then mret (Unsigned arg)
  else if (major =? 1)%Z then mret (Negative arg)
  else if (major =? 2)%Z then
    length ← dec_lift (to_usize arg); bytes ← take length; mret (Bytes bytes)
  else if (major =? 3)%Z then
    length ← dec_lift (to_usize arg);
    bytes ← take length;
    text ← dec_lift (ok_or (from_utf8 bytes) Invalid);
    mret (Text text)
  else if (major =? 4)%Z then
    count ← dec_lift (bounded_count arg);
    values ← push_items item (Z.to_nat count) [];
    mret (Array values)
  else if (major =? 5)%Z then decode_map item arg
  else dec_fail Invalid.

(** The part of [item] behind the initial byte. *)
Definition item_body (item : Dec Value) (initial : Z) : Dec Value :=
  let major := Z.shiftr initial 5 in
  let additional := Z.land initial 0x1f in
  if (major =? 7)%Z then dec_lift (simple_value additional)
  else arg ← argument additional; item_major item major arg.

Fixpoint item (fuel : nat) (depth : nat) : Dec Value :=
  match fuel with
  | O => dec_fail LimitExceeded
  | S fuel => fun s =>
    if bool_decide (MAX_DEPTH < depth) || (MAX_ITEMS <=? items s)%Z then Err LimitExceeded
    else
      let s := mkDecoder (offset s) (items s + 1) in
      '(first, s) ← take 1 s;
      initial ← ok_or (head first) Invalid;
      item_body (item fuel (S depth)) (bval initial) s
  end.

Definition item_fuel (depth : nat) : nat := MAX_DEPTH + 2 - depth.

Definition decode : result Error Value :=
  if bool_decide (input = []) || (MAX_BYTES <? Z.of_nat (length input))%Z then Err LimitExceeded
  else
    '(value, s) ← item (item_fuel 0) 0 (mkDecoder 0 0);
    if negb (offset s =? Z.of_nat (length input))%Z then Err Invalid else Ok value.
End decoder.

(** [encode_bound_map]: a map from separately encoded canonical values. *)
Definition bound_entry (kv : string * list byte) : result Error (list byte * encoder) :=
  key_encoding ← encode_text kv.1 [];
  decoded ← decode kv.2;
  encoded ← encode decoded;
  if negb (bool_decide (encoded = kv.2)) then Err NonDeterministic
  else Ok (key_encoding, fun output => Ok (output ++ kv.2)).
Definition encode_bound_map (values : list (string * list byte)) : result Error (list byte) :=
  entries ← mapM bound_entry values;
  encode_entries entries [].

(** The golden vectors of the module's unit tests. *)
Example encode_sorts :
  encode (Map [("memory.max", Unsigned 65536); ("pids.max", Unsigned 2)]) ≫= decode
  = Ok (Map [("pids.max", Unsigned 2); ("memory.max", Unsigned 65536)]).
Proof. vm_compute. reflexivity. Qed.

Definition bytes_of (l : list Z) : list byte := mkb <$> l.
Example rejects_noncanonical :
  (fun l => is_ok (decode (bytes_of l))) <$>
    [[0x18; 0x17]; [0x9f; 0xff]; [0xa1; 0x00; 0x00]; [0xa2; 0x61; 98; 0x00; 0x61; 97; 0x00];
     [0xa2; 0x61; 97; 0x00; 0x61; 97; 0x01]; [0x00; 0x00]; [0xc0; 0x00]; [0xf9; 0x00; 0x00]]%Z
  = replicate 8 false.
Proof. vm_compute. reflexivity. Qed.

(** * The canonical wire form

    [wire] is the encoding of a value whose maps are already in key order;
    [value_ok] says that the value is one a decoder can return: machine-width
    integers and lengths, well-formed text, and strictly increasing key
    encodings.  [canon] sorts the maps of an arbitrary value. *)

Definition text_wire (s : string) : list byte :=
  encode_argument 3 (Z.of_nat (length (String.list_ascii_of_string s))) []
  ++ String.list_ascii_of_string s.

Fixpoint wire (v : Value) : list byte :=
  match v with
  | Unsigned z => encode_argument 0 z []
  | Negative z => encode_argument 1 z []
  | Bytes b => encode_argument 2 (Z.of_nat (length b)) [] ++ b
  | Text s => text_wire s
  | Array vs => encode_argument 4 (Z.of_nat (length vs)) [] ++ concat (map wire vs)
  | Map kvs =>
    encode_argument 5 (Z.of_nat (length kvs)) []
    ++ concat (map (fun kv => text_wire kv.1 ++ wire kv.2) kvs)
  | Bool b => [mkb (if b then 0xf5 else 0xf4)]
  | Null => [mkb 0xf6]
  end.

Definition in_u64 (z : Z) : bool := (0 <=? z)%Z && (z <? u64_bound)%Z.
Definition text_ok (s : string) : bool :=
  str_ok s && in_u64 (Z.of_nat (length (String.list_ascii_of_string s))).
Definition key_lt (k k' : string) : bool := rlt (text_wire k) (text_wire k').

Fixpoint value_ok (v : Value) : bool :=
  match v with
  | Unsigned z | Negative z => in_u64 z
  | Bytes b => in_u64 (Z.of_nat (length b))
  | Text s => text_ok s
  | Array vs => in_u64 (Z.of_nat (length vs)) && forallb value_ok vs
  | Map kvs =>
    in_u64 (Z.of_nat (length kvs))
    && forallb (fun kv => text_ok kv.1 && value_ok kv.2) kvs
    && windows_all key_lt kvs.*1
  | Bool _ | Null => true
  end.

(** The number of [item] calls and the nesting the decoder counts. *)
Definition sum_list (l : list Z) : Z := foldr Z.add 0%Z l.
Fixpoint item_count (v : Value) : Z :=
  match v with
  | Array vs => (1 + sum_list (map item_count vs))%Z
  | Map kvs => (1 + sum_list (map (fun kv => 1 + item_count kv.2) kvs))%Z
  | _ => 1
  end.
Definition max_list (l : list nat) : nat := foldr Nat.max 0 l.
Fixpoint nesting (v : Value) : nat :=
  match v with
  | Array vs => max_list (map (fun v => S (nesting v)) vs)
  | Map kvs => max_list (map (fun kv => S (nesting kv.2)) kvs)
  | _ => 0
  end.

Fixpoint canon (v : Value) : Value :=
  match v with
  | Array vs => Array (map canon vs)
  | Map kvs =>
    Map (sort_by (fun l r => key_lt l.1 r.1) (map (fun kv => (kv.1, canon kv.2)) kvs))
  | v => v
  end.

(** The ranges Rust's types enforce on every [Value], and distinctness of the
    keys of every map, which they do not. *)
Fixpoint typed (v : Value) : bool :=
  match v with
  | Unsigned z | Negative z => in_u64 z
  | Bytes b => in_u64 (Z.of_nat (length b))
  | Text s => text_ok s
  | Array vs => in_u64 (Z.of_nat (length vs)) && forallb typed vs
  | Map kvs =>
    in_u64 (Z.of_nat (length kvs)) && forallb (fun kv => text_ok kv.1 && typed kv.2) kvs
  | Bool _ | Null => true
  end.
Fixpoint distinct_keys (v : Value) : bool :=
  match v with
  | Array vs => forallb distinct_keys vs
  | Map kvs => bool_decide (NoDup kvs.*1) && forallb (fun kv => distinct_keys kv.2) kvs
  | _ => true
  end.

(** * Induction on values *)

Section value_induction.
Variable P : Value -> Prop.
Hypothesis HUnsigned : forall z, P (Unsigned z).
Hypothesis HNegative : forall z, P (Negative z).
Hypothesis HBytes : forall b, P (Bytes b).
Hypothesis HText : forall s, P (Text s).
Hypothesis HArray : forall vs, Forall P vs -> P (Array vs).
Hypothesis HMap : forall kvs, Forall (fun kv => P kv.2) kvs -> P (Map kvs).
Hypothesis HBool : forall b, P (Bool b).
Hypothesis HNull : P Null.

Fixpoint Value_rec_full (v : Value) : P v :=
  match v with
  | Unsigned z => HUnsigned z
  | Negative z => HNegative z
  | Bytes b => HBytes b
  | Text s => HText s
  | Array vs =>
    HArray vs ((fix go l : Forall P l :=
      match l with [] => Forall_nil_2 _ | v :: l => Forall_cons_2 _ _ _ (Value_rec_full v) (go l) end) vs)
  | Map kvs =>
    HMap kvs ((fix go l : Forall (fun kv => P kv.2) l :=
      match l with
      | [] => Forall_nil_2 _
      | kv :: l => Forall_cons_2 _ _ _ (Value_rec_full kv.2) (go l)
      end) kvs)
  | Bool b => HBool b
  | Null => HNull
  end.
End value_induction.

Lemma in_u64_spec z : in_u64 z = true <-> (0 <= z < u64_bound)%Z.
Proof. unfold in_u64. rewrite andb_true_iff, Z.leb_le, Z.ltb_lt. done. Qed.

(** * The initial byte and the argument *)

(** The additional information and the argument bytes of a head. *)
Definition arg_split (arg : Z) : Z * list byte :=
  if (arg <? 24)%Z then (arg, [])
  else if (arg <? u8_bound)%Z then (24%Z, be_bytes 1 arg)
  else if (arg <? u16_bound)%Z then (25%Z, be_bytes 2 arg)
  else if (arg <? u32_bound)%Z then (26%Z, be_bytes 4 arg)
  else (27%Z, be_bytes 8 arg).
Definition initial_byte (major additional : Z) : Z :=
  Z.lor (Z.shiftl major 5 mod 256) additional.

Lemma encode_argument_split major arg out :
  (0 <= arg)%Z ->
  encode_argument major arg out
  = out ++ mkb (initial_byte major (arg_split arg).1) :: (arg_split arg).2.
Proof.
  intros. unfold encode_argument, arg_split, u8_try_from, u16_try_from, u32_try_from, try_from.
  rewrite !(proj2 (Z.leb_le 0 arg)) by done; cbn [andb].
  destruct (arg <? 24)%Z; [done|].
  destruct (arg <? u8_bound)%Z; [by cbn; rewrite Z.div_1_r|].
  destruct (arg <? u16_bound)%Z; [done|]. by destruct (arg <? u32_bound)%Z.
Qed.
Lemma encode_argument_app major arg out :
  (0 <= arg)%Z -> encode_argument major arg out = out ++ encode_argument major arg [].
Proof. intros. by rewrite !(encode_argument_split major arg) by done. Qed.

Lemma arg_split_additional arg : (0 <= arg)%Z -> (0 <= (arg_split arg).1 < 32)%Z.
Proof. intros. unfold arg_split. repeat case_match; cbn; lia. Qed.

Definition byte_check (p : Z -> bool) : bool := forallb p (seqZ 0 256).
Lemma byte_check_spec p z : byte_check p = true -> (0 <= z < 256)%Z -> p z = true.
Proof.
  unfold byte_check. rewrite forallb_forall. intros Hp Hz. apply Hp, list_elem_of_In, elem_of_seqZ. lia.
Qed.
Lemma initial_byte_join z :
  (0 <= z < 256)%Z -> initial_byte (Z.shiftr z 5) (Z.land z 0x1f) = z.
Proof.
  intros Hz. apply Z.eqb_eq.
  apply (byte_check_spec (fun z => initial_byte (Z.shiftr z 5) (Z.land z 0x1f) =? z)%Z);
    [vm_compute; reflexivity|done].
Qed.
Lemma byte_parts z :
  (0 <= z < 256)%Z -> (0 <= Z.shiftr z 5 < 8)%Z /\ (0 <= Z.land z 0x1f < 32)%Z.
Proof.
  intros Hz. rewrite Z.shiftr_div_pow2 by lia. change 0x1f%Z with (Z.ones 5).
  rewrite Z.land_ones by lia. change (2 ^ 5)%Z with 32%Z.
  pose proof (Z.mod_pos_bound z 32). split; [|lia].
  split; [by apply Z.div_pos; lia|apply Z.div_lt_upper_bound; lia].
Qed.
Lemma initial_byte_value major additional :
  (0 <= major < 8)%Z -> (0 <= additional < 32)%Z ->
  (initial_byte major additional = major * 32 + additional)%Z.
Proof.
  intros. unfold initial_byte. rewrite Z.shiftl_mul_pow2 by lia. change (2 ^ 5)%Z with 32%Z.
  rewrite Z.mod_small by lia. rewrite <- Z.lxor_lor, <- Z.add_nocarry_lxor; [done|..].
  all: apply Z.bits_inj'; intros n Hn; rewrite Z.land_spec, Z.bits_0;
    change (major * 32)%Z with (major * 2 ^ 5)%Z; rewrite Z.mul_pow2_bits by lia;
    destruct (decide (n < 5)%Z); [rewrite Z.testbit_neg_r by lia; done|];
    rewrite (Z.bits_above_log2 additional), andb_false_r; [done|lia|];
    destruct (decide (additional = 0)%Z) as [->|]; [cbn; lia|];
    apply Z.lt_le_trans with 5%Z; [apply Z.log2_lt_pow2; lia|lia].
Qed.
Lemma initial_byte_parts major additional :
  (0 <= major < 8)%Z -> (0 <= additional < 32)%Z ->
  bval (mkb (initial_byte major additional)) = initial_byte major additional
  /\ Z.shiftr (initial_byte major additional) 5 = major
  /\ Z.land (initial_byte major additional) 0x1f = additional.
Proof.
  intros. rewrite initial_byte_value by done. rewrite bval_mkb_small by lia.
  rewrite Z.shiftr_div_pow2 by lia. change 0x1f%Z with (Z.ones 5).
  rewrite Z.land_ones by lia. change (2 ^ 5)%Z with 32%Z.
  rewrite (Z.add_comm (major * 32)), Z.div_add, Z.mod_add, Z.div_small, Z.mod_small by lia. done.
Qed.

Lemma be_value_pad n bs : be_value (replicate n (mkb 0) ++ bs) = be_value bs.
Proof. induction n as [|n IH]; [done|]. cbn [replicate app be_value]. rewrite IH. by rewrite bval_mkb_small by lia. Qed.

(** * Heads are prefix-free *)

Definition arg_of (additional : Z) (tail : list byte) : Z :=
  if (additional <? 24)%Z then additional else be_value tail.
Definition tail_width (additional : Z) : nat :=
  if (additional =? 24)%Z then 1 else if (additional =? 25)%Z then 2
  else if (additional =? 26)%Z then 4 else if (additional =? 27)%Z then 8 else 0.

(** Machine bounds as literals. *)
Ltac pow_consts :=
  unfold u8_bound, u16_bound, u32_bound, u64_bound in *;
  change (256 ^ Z.of_nat 1)%Z with 256%Z in *; change (256 ^ Z.of_nat 2)%Z with 65536%Z in *;
  change (256 ^ Z.of_nat 4)%Z with 4294967296%Z in *;
  change (256 ^ Z.of_nat 8)%Z with 18446744073709551616%Z in *;
  change (2 ^ 8)%Z with 256%Z in *; change (2 ^ 16)%Z with 65536%Z in *;
  change (2 ^ 32)%Z with 4294967296%Z in *; change (2 ^ 64)%Z with 18446744073709551616%Z in *.

Lemma arg_of_split a :
  (0 <= a < u64_bound)%Z -> arg_of (arg_split a).1 (arg_split a).2 = a.
Proof.
  unfold arg_split, arg_of, u64_bound. intros Ha.
  repeat (case_match; cbn [fst snd] in *); try lia; rewrite be_value_be_bytes_small; try done;
    pow_consts; lia.
Qed.
Lemma arg_split_width a : (0 <= a)%Z -> length (arg_split a).2 = tail_width (arg_split a).1.
Proof.
  intros. unfold arg_split, tail_width.
  repeat (case_match; cbn [fst snd length] in *); rewrite ?length_be_bytes; lia || done.
Qed.

Lemma encode_argument_prefix_free major a b x y :
  (0 <= major < 8)%Z -> (0 <= a < u64_bound)%Z -> (0 <= b < u64_bound)%Z ->
  encode_argument major a [] ++ x = encode_argument major b [] ++ y -> a = b /\ x = y.
Proof.
  intros Hm Ha Hb. rewrite !encode_argument_split by lia. cbn [app]. intros [= Hi Ht].
  pose proof (arg_split_additional a (proj1 Ha)) as Hra.
  pose proof (arg_split_additional b (proj1 Hb)) as Hrb.
  apply (f_equal bval) in Hi.
  destruct (initial_byte_parts major (arg_split a).1) as (Ha1 & _ & Ha2); [lia..|].
  destruct (initial_byte_parts major (arg_split b).1) as (Hb1 & _ & Hb2); [lia..|].
  assert ((arg_split a).1 = (arg_split b).1) as Hadd by congruence.
  apply app_inj_1 in Ht as [Htl ->]; [|by rewrite !arg_split_width, Hadd by lia].
  split; [|done]. rewrite <- (arg_of_split a), <- (arg_of_split b) by lia. congruence.
Qed.

Lemma text_ok_spec s :
  text_ok s = true ->
  str_ok s = true /\ (Z.of_nat (length (String.list_ascii_of_string s)) < u64_bound)%Z.
Proof. unfold text_ok. rewrite andb_true_iff, in_u64_spec. intuition. Qed.

Lemma text_wire_inj s t : text_ok s = true -> text_ok t = true -> text_wire s = text_wire t -> s = t.
Proof.
  intros [_ Hs]%text_ok_spec [_ Ht]%text_ok_spec Heq.
  apply encode_argument_prefix_free in Heq as [_ Heq]; [|lia..].
  by apply (inj String.list_ascii_of_string) in Heq.
Qed.

(** * The encoder against the wire form *)

Lemma encode_length_spec major n out :
  (Z.of_nat n < u64_bound)%Z ->
  encode_length major n out = Ok (out ++ encode_argument major (Z.of_nat n) []).
Proof.
  intros. unfold encode_length. rewrite (proj2 (try_from_Some _ _ (Z.of_nat n))) by lia. cbn.
  by rewrite encode_argument_app by lia.
Qed.
Lemma encode_text_spec s out : text_ok s = true -> encode_text s out = Ok (out ++ text_wire s).
Proof.
  intros [_ Hs]%text_ok_spec. unfold encode_text. rewrite encode_length_spec by done. cbn.
  by rewrite <- app_assoc.
Qed.

(** An encoder that appends [w], or fails with [Invalid] when [ok] does not hold. *)
Definition encodes (enc : encoder) (ok : bool) (w : list byte) : Prop :=
  forall out, enc out = if ok then Ok (out ++ w) else Err Invalid.

Lemma run_encoders_spec {A} (enc : A -> encoder) (ok : A -> bool) (w : A -> list byte) l :
  Forall (fun a => encodes (enc a) (ok a) (w a)) l ->
  encodes (run_encoders (map enc l)) (forallb ok l) (concat (map w l)).
Proof.
  induction 1 as [|a l Ha _ IH]; intros out; cbn; [by rewrite app_nil_r|].
  rewrite Ha. destruct (ok a); cbn; [|done]. rewrite IH. by rewrite <- app_assoc.
Qed.

Lemma no_adjacent_equal_NoDup {A} (l : list (list byte * A)) :
  StronglySorted (fun a b => rle a b = true) l.*1 -> no_adjacent_equal l = bool_decide (NoDup l.*1).
Proof.
  unfold no_adjacent_equal. induction l as [|a l IH]; intros Hs; [done|].
  destruct l as [|b l]; [by cbn; rewrite bool_decide_eq_true_2 by apply NoDup_singleton|].
  rewrite windows_all_cons. apply StronglySorted_inv in Hs as [Hs Ha]. rewrite IH by done.
  rewrite (bool_decide_ext (NoDup (a :: b :: l).*1)
    (~ (a.1 ∈ (b :: l).*1) /\ NoDup (b :: l).*1)) by apply NoDup_cons.
  rewrite bool_decide_and, bool_decide_not. f_equal. f_equal.
  apply bool_decide_ext. split; [intros ->; left|].
  intros Hin. cbn in *. apply Forall_cons in Ha as [Hab _].
  apply StronglySorted_inv in Hs as [_ Hb]. apply elem_of_cons in Hin as [?|Hin]; [done|].
  rewrite Forall_forall in Hb. specialize (Hb _ Hin). apply rle_rlt_eq in Hab as [Hab| ->]; [|done].
  rewrite rle_rlt, Hab in Hb. done.
Qed.

Lemma sort_by_key_sorted {A} (l : list (list byte * A)) :
  StronglySorted (fun a b => rle a b = true) (sort_by key_before l).*1.
Proof. rewrite (sort_by_fmap fst key_before rlt) by done. apply sort_weak. Qed.

Lemma forallb_Permutation {A} (p : A -> bool) l k : l ≡ₚ k -> forallb p l = forallb p k.
Proof. induction 1; cbn; try congruence. destruct (p x), (p y); done. Qed.

Lemma encode_entries_spec {A} (key : A -> list byte) (enc : A -> encoder) (ok : A -> bool)
    (w : A -> list byte) (l : list A) :
  (Z.of_nat (length l) < u64_bound)%Z ->
  Forall (fun a => encodes (enc a) (ok a) (w a)) l ->
  encodes (encode_entries (map (fun a => (key a, enc a)) l))
    (bool_decide (NoDup (map key l)) && forallb ok l)
    (encode_argument 5 (Z.of_nat (length l)) []
     ++ concat (map (fun a => key a ++ w a) (sort_by (fun a b => rlt (key a) (key b)) l))).
Proof.
  intros Hlen Henc out. unfold encode_entries.
  pose proof (sort_by_Permutation (fun a b => rlt (key a) (key b)) l) as Hperm.
  set (ks := sort_by (fun a b => rlt (key a) (key b)) l) in *.
  rewrite no_adjacent_equal_NoDup by apply sort_by_key_sorted.
  change (map (fun a => (key a, enc a)) l) with ((fun a => (key a, enc a)) <$> l).
  rewrite <- (sort_by_fmap (fun a => (key a, enc a)) (fun a b => rlt (key a) (key b))) by done.
  fold ks. rewrite <- list_fmap_compose, length_fmap.
  rewrite (bool_decide_ext (NoDup ((fst ∘ (fun a => (key a, enc a))) <$> ks)) (NoDup (map key l)))
    by (change (map key l) with (key <$> l); by rewrite <- Hperm).
  case_bool_decide; cbn [negb andb]; [|done].
  rewrite (Permutation_length Hperm), encode_length_spec by done. cbn [mbind result_bind].
  rewrite map_map. cbn [fst snd].
  rewrite (run_encoders_spec (fun a output => enc a (output ++ key a)) ok (fun a => key a ++ w a)).
  - rewrite (forallb_Permutation ok _ _ Hperm). destruct (forallb ok l); [|done].
    by rewrite <- app_assoc.
  - rewrite Hperm. eapply Forall_impl; [exact Henc|]. intros a Ha out'. rewrite (Ha _).
    destruct (ok a); [|done]. by rewrite <- app_assoc.
Qed.


Lemma NoDup_text_wire (ks : list string) :
  Forall (fun k => text_ok k = true) ks -> NoDup (text_wire <$> ks) <-> NoDup ks.
Proof.
  induction 1 as [|k ks Hk Hks IH]; cbn; [split; constructor|]. rewrite !NoDup_cons, IH.
  split; intros [Hn ?]; (split; [|done]); intros Hin; apply Hn.
  - apply list_elem_of_fmap. eauto.
  - apply list_elem_of_fmap in Hin as (k' & Heq & Hin).
    rewrite Forall_forall in Hks. by apply text_wire_inj in Heq as ->; auto.
Qed.

(** The encoder on every value the types allow: the wire form of the sorted
    value, or [Invalid] exactly when some map repeats a key. *)
Lemma encode_item_spec v :
  typed v = true -> encodes (encode_item v) (distinct_keys v) (wire (canon v)).
Proof.
  induction v as [z|z|b|s|vs IH|kvs IH|b|] using Value_rec_full; intros Hty out; cbn in Hty |- *.
  - apply in_u64_spec in Hty. by rewrite encode_argument_app by lia.
  - apply in_u64_spec in Hty. by rewrite encode_argument_app by lia.
  - apply in_u64_spec in Hty. rewrite encode_length_spec by lia. cbn. by rewrite <- app_assoc.
  - by apply encode_text_spec.
  - apply andb_true_iff in Hty as [Hlen%in_u64_spec Hty%forallb_Forall'].
    rewrite encode_length_spec by lia. cbn [mbind result_bind].
    rewrite (run_encoders_spec encode_item distinct_keys (fun v => wire (canon v))).
    + destruct (forallb distinct_keys vs); [|done]. by rewrite length_map, map_map, <- app_assoc.
    + clear Hlen. induction IH; inversion Hty; subst; constructor; auto.
  - apply andb_true_iff in Hty as [Hlen%in_u64_spec Hty%forallb_Forall'].
    unfold encode_map.
    assert (Forall (fun kv => text_ok kv.1 = true) kvs) as Hkeys.
    { eapply Forall_impl; [exact Hty|]. cbn. intros kv [? ?]%andb_true_iff. done. }
    rewrite (mapM_Ok_map _ _ (fun kv => (text_wire kv.1, encode_item kv.2))).
    2:{ intros kv Hkv. rewrite Forall_forall in Hkeys. cbn.
        by rewrite encode_text_spec by auto. }
    cbn [mbind result_bind].
    rewrite (encode_entries_spec (fun kv => text_wire kv.1) (fun kv => encode_item kv.2)
      (fun kv => distinct_keys kv.2) (fun kv => wire (canon kv.2))); [|lia|].
    + rewrite (bool_decide_ext (NoDup (map (fun kv => text_wire kv.1) kvs)) (NoDup kvs.*1)).
      2:{ change (map (fun kv => text_wire kv.1) kvs) with ((text_wire ∘ fst) <$> kvs).
          rewrite list_fmap_compose. apply NoDup_text_wire. by apply Forall_fmap. }
      destruct (_ && _); [|done]. do 2 f_equal.
      change (map (fun kv => (kv.1, canon kv.2)) kvs) with ((fun kv => (kv.1, canon kv.2)) <$> kvs).
      rewrite <- (sort_by_fmap (fun kv => (kv.1, canon kv.2))
        (fun l r => key_lt l.1 r.1) (fun l r => key_lt l.1 r.1)) by done.
      rewrite length_fmap, (Permutation_length (sort_by_Permutation _ _)). f_equal.
      change (?f <$> ?l) with (map f l). rewrite map_map. done.
    + clear Hlen Hkeys. induction IH; inversion Hty as [|? ? [? ?]%andb_true_iff]; subst;
        constructor; auto.
  - done.
  - done.
Qed.

(** * Canonical values *)

Lemma key_lt_trans k1 k2 k3 : key_lt k1 k2 = true -> key_lt k2 k3 = true -> key_lt k1 k3 = true.
Proof. unfold key_lt. apply rlt_trans. Qed.

Lemma windows_all_fmap {A B} (f : A -> B) p l :
  windows_all p (f <$> l) = windows_all (fun a b => p (f a) (f b)) l.
Proof.
  induction l as [|a [|b l] IH]; [done..|].
  change (p (f a) (f b) && windows_all p (f <$> b :: l) =
    p (f a) (f b) && windows_all (fun a b => p (f a) (f b)) (b :: l)). by rewrite IH.
Qed.
Lemma sort_by_sorted_fixed {A} (before : A -> A -> bool) l :
  (forall a b, before a b = true -> before b a = false) ->
  windows_all before l = true -> sort_by before l = l.
Proof.
  intros Hasym. induction l as [|a l IH]; [done|]. intros Hw.
  change (sort_by before (a :: l)) with (insert_by before a (sort_by before l)).
  destruct l as [|b l]; [done|]. rewrite windows_all_cons in Hw. apply andb_true_iff in Hw as [Hab Hw].
  rewrite IH by done. cbn. by rewrite (Hasym _ _ Hab).
Qed.

Lemma value_ok_canon v :
  value_ok v = true -> typed v = true /\ distinct_keys v = true /\ canon v = v.
Proof.
  induction v as [z|z|b|s|vs IH|kvs IH|b|] using Value_rec_full; cbn; try tauto.
  - rewrite andb_true_iff, forallb_Forall'. intros [Hlen Hok]. rewrite Hlen; cbn.
    rewrite !forallb_Forall'.
    assert (Forall (fun v => typed v = true /\ distinct_keys v = true /\ canon v = v) vs) as Hall.
    { clear Hlen. induction IH; inversion Hok; subst; constructor; auto. }
    split; [|split].
    + eapply Forall_impl; [exact Hall|]. cbn. tauto.
    + eapply Forall_impl; [exact Hall|]. cbn. tauto.
    + f_equal. clear -Hall. induction Hall; cbn; [done|]. intuition congruence.
  - rewrite !andb_true_iff, forallb_Forall'. intros [[Hlen Hok] Hsort]. rewrite Hlen; cbn.
    assert (Forall (fun kv => text_ok kv.1 = true /\ typed kv.2 = true
      /\ distinct_keys kv.2 = true /\ canon kv.2 = kv.2) kvs) as Hall.
    { clear Hlen Hsort. induction IH; inversion Hok as [|? ? [? ?]%andb_true_iff]; subst;
        constructor; auto. }
    assert (map (fun kv => (kv.1, canon kv.2)) kvs = kvs) as ->.
    { clear -Hall. induction Hall as [|[k v] l (?&?&?&Hc)]; cbn in *; congruence. }
    rewrite !forallb_Forall'. split; [|split; [split|]].
    + split; [done|]. eapply Forall_impl; [exact Hall|]. cbn. intros kv (-> & -> & _). done.
    + apply bool_decide_eq_true, (NoDup_fmap_1 text_wire).
      apply strict_NoDup. apply windows_all_rlt. by rewrite windows_all_fmap.
    + eapply Forall_impl; [exact Hall|]. cbn. tauto.
    + f_equal. rewrite windows_all_fmap in Hsort. apply sort_by_sorted_fixed; [|exact Hsort].
      intros a b. unfold key_lt. apply rlt_asym.
Qed.

Lemma encode_value_ok v : value_ok v = true -> encode v = Ok (wire v).
Proof.
  intros (Hty & Hd & Hc)%value_ok_canon. unfold encode.
  by rewrite encode_item_spec, Hd, Hc by done.
Qed.

(** Sorting makes any encodable value canonical. *)
Lemma canon_value_ok v : typed v = true -> distinct_keys v = true -> value_ok (canon v) = true.
Proof.
  induction v as [z|z|b|s|vs IH|kvs IH|b|] using Value_rec_full; cbn; try tauto.
  - rewrite andb_true_iff, !forallb_Forall'. intros [Hlen Hty] Hd.
    rewrite length_map, Hlen; cbn. apply forallb_Forall', Forall_fmap.
    clear Hlen. induction IH; inversion Hty; inversion Hd; subst; constructor; cbn; auto.
  - rewrite !andb_true_iff, !forallb_Forall', bool_decide_eq_true. intros [Hlen Hty] [Hnd Hd].
    pose proof (sort_by_Permutation (fun l r => key_lt l.1 r.1)
      (map (fun kv => (kv.1, canon kv.2)) kvs)) as Hperm.
    split; [split|].
    + by rewrite (Permutation_length Hperm), length_map.
    + rewrite Hperm. apply Forall_fmap. clear Hlen Hnd Hperm.
      induction IH; inversion Hty as [|? ? [? ?]%andb_true_iff]; inversion Hd; subst;
        constructor; cbn; auto using andb_true_intro.
    + assert (Forall (fun k => text_ok k = true) kvs.*1) as Hks.
      { apply Forall_fmap. eapply Forall_impl; [exact Hty|]. cbn.
        intros ? [? ?]%andb_true_iff. done. }
      unfold key_lt at 1. rewrite <- (windows_all_fmap text_wire rlt), <- list_fmap_compose. apply windows_all_rlt.
      rewrite (sort_by_fmap (text_wire ∘ fst) _ rlt) by done. apply sort_strict.
      replace ((text_wire ∘ fst) <$> map (fun kv => (kv.1, canon kv.2)) kvs)
        with (text_wire <$> kvs.*1)
        by (rewrite <- list_fmap_compose; change (map ?f ?l) with (f <$> l);
            by rewrite <- list_fmap_compose).
      by apply NoDup_text_wire.
Qed.

(** * Decoder: what a successful run consumed *)

Section decoder_sound.
Context (input : list byte).

Definition in_input (s : Decoder) : Prop := (0 <= offset s <= Z.of_nat (length input))%Z.
(** The step from [s] to [s'] read exactly [bs] and counted [n] items. *)
Definition consumed (s s' : Decoder) (bs : list byte) (n : Z) : Prop :=
  get_range input (offset s) (offset s') = Some bs /\ items s' = (items s + n)%Z.

Lemma consumed_in_input s s' bs n : consumed s s' bs n -> in_input s' /\ in_input s.
Proof. intros [(?&?&?)%get_range_length _]. unfold in_input. lia. Qed.
Lemma consumed_trans s1 s2 s3 x y m n :
  consumed s1 s2 x m -> consumed s2 s3 y n -> consumed s1 s3 (x ++ y) (m + n).
Proof.
  intros [Hx Hm] [Hy Hn]. split; [by eapply get_range_join|lia].
Qed.
Lemma consumed_refl s : in_input s -> consumed s s [] 0.
Proof. intros. split; [by apply get_range_empty|lia]. Qed.
Lemma take_sound n s bs s' :
  take input n s = Ok (bs, s') -> consumed s s' bs 0 /\ Z.of_nat (length bs) = n.
Proof.
  unfold take. intros (e & [-> _]%ok_or_Ok%try_from_Some & Hr)%bind_Ok.
  apply bind_Ok in Hr as (v & Hv%ok_or_Ok & [= <- <-]).
  pose proof Hv as (? & ? & ?)%get_range_length.
  split; [split; cbn; [done|lia]|lia].
Qed.

Lemma dec_bind_Ok {A B} (m : Dec A) (f : A -> Dec B) s b s' :
  (m ≫= f) s = Ok (b, s') <-> exists a s1, m s = Ok (a, s1) /\ f a s1 = Ok (b, s').
Proof. unfold mbind, Dec_bind. destruct (m s) as [[a s1]|e]; naive_solver. Qed.
Lemma dec_lift_Ok {A} (m : result Error A) s a s' :
  dec_lift m s = Ok (a, s') <-> m = Ok a /\ s' = s.
Proof. unfold dec_lift. destruct m; naive_solver. Qed.
Lemma dec_ret_Ok {A} (x : A) s a s' : (mret x : Dec A) s = Ok (a, s') <-> a = x /\ s' = s.
Proof. unfold mret, Dec_ret. naive_solver. Qed.

Lemma to_usize_Ok z n : to_usize z = Ok n <-> n = z /\ (0 <= z < u64_bound)%Z.
Proof. unfold to_usize. rewrite ok_or_Ok. apply try_from_Some. Qed.
Lemma bounded_count_Ok z n :
  bounded_count z = Ok n <-> n = z /\ (0 <= z <= MAX_ITEMS)%Z.
Proof.
  unfold bounded_count, MAX_ITEMS. rewrite bind_Ok. setoid_rewrite to_usize_Ok. pow_consts.
  split.
  - intros (n0 & [-> Hz] & Hif). simp_ok. simplify_eq. lia.
  - intros [-> ?]. exists z. split; [lia|]. destruct (_ <? z)%Z eqn:?; [lia|done].
Qed.

Lemma argument_sound additional s arg s' :
  (0 <= additional < 32)%Z -> in_input s -> argument input additional s = Ok (arg, s') ->
  exists tail, consumed s s' tail 0 /\ (0 <= arg < u64_bound)%Z
    /\ arg_split arg = (additional, tail).
Proof.
  intros Hadd Hin. unfold argument. destruct (additional <? 24)%Z eqn:H24.
  { intros [-> ->]%dec_ret_Ok. exists []. split; [by apply consumed_refl|].
    unfold arg_split. rewrite H24. split; [pow_consts; lia|done]. }
  intros ([width minimum] & s1 & [Hw ->]%dec_lift_Ok & H)%dec_bind_Ok.
  apply dec_bind_Ok in H as (bs & s2 & [Hc Hbs]%take_sound & H).
  rewrite be_value_pad in H. pose proof (be_value_bound bs) as Hb.
  destruct (be_value bs <? minimum)%Z eqn:Hmin; [done|].
  apply dec_ret_Ok in H as [-> ->]. exists bs. split; [done|].
  assert (forall n, length bs = n -> be_bytes n (be_value bs) = bs) as Hbb
    by (intros n <-; apply be_bytes_be_value).
  unfold argument_width in Hw.
  repeat case_match; simplify_eq; rewrite Z.eqb_eq in *; subst additional.
  all: assert (exists n, length bs = n) as [n Hn] by eauto; rewrite Hn in *.
  all: first [replace n with 1 in * by lia | replace n with 2 in * by lia
    | replace n with 4 in * by lia | replace n with 8 in * by lia].
  all: pow_consts; change (Z.shiftl 1 8) with 256%Z in *; change (Z.shiftl 1 16) with 65536%Z in *;
    change (Z.shiftl 1 32) with 4294967296%Z in *.
  all: split; [lia|]; rewrite <- (Hbb _ eq_refl) at 2; unfold arg_split; pow_consts.
  all: repeat case_match; try lia; done.
Qed.

Lemma head_sound initial s arg s' :
  (0 <= initial < 256)%Z -> in_input s ->
  argument input (Z.land initial 0x1f) s = Ok (arg, s') ->
  exists tail, consumed s s' tail 0 /\ (0 <= arg < u64_bound)%Z
    /\ encode_argument (Z.shiftr initial 5) arg [] = mkb initial :: tail.
Proof.
  intros Hi Hin Ha. pose proof (byte_parts initial Hi) as [_ Hadd].
  apply argument_sound in Ha as (tail & Hc & Harg & Hs); [|done..].
  exists tail. split; [done|]. split; [done|].
  rewrite encode_argument_split, Hs by lia. cbn. by rewrite initial_byte_join.
Qed.

(** What is known of the recursive call. *)
Definition item_spec (item : Dec Value) (depth : nat) : Prop := forall s v s',
  in_input s -> item s = Ok (v, s') ->
  consumed s s' (wire v) (item_count v) /\ value_ok v = true /\ nesting v + depth <= MAX_DEPTH.

Lemma push_items_sound item depth n acc s vs s' :
  item_spec item depth -> in_input s -> push_items item n acc s = Ok (vs, s') ->
  exists ws, vs = acc ++ ws /\ length ws = n
    /\ consumed s s' (concat (map wire ws)) (sum_list (map item_count ws))
    /\ Forall (fun v => value_ok v = true /\ nesting v + depth <= MAX_DEPTH) ws.
Proof.
  intros Hitem. revert acc s. induction n as [|n IH]; intros acc s Hin; cbn.
  { intros [-> ->]%dec_ret_Ok. exists []. rewrite app_nil_r.
    split; [done|]. split; [done|]. split; [by apply consumed_refl|constructor]. }
  intros (v & s1 & Hv & H)%dec_bind_Ok. apply Hitem in Hv as (Hc & Hok & Hnest); [|done].
  pose proof (consumed_in_input _ _ _ _ Hc) as [Hin1 _].
  apply IH in H as (ws & -> & <- & Hc' & Hws); [|done].
  exists (v :: ws). rewrite <- app_assoc. split; [done|]. split; [done|].
  split; [exact (consumed_trans _ _ _ _ _ _ _ Hc Hc')|by constructor].
Qed.

Lemma map_entries_sound item depth n prev acc s kvs s' :
  item_spec item depth -> in_input s -> map_entries input item n prev acc s = Ok (kvs, s') ->
  exists ws, kvs = acc ++ ws /\ length ws = n
    /\ consumed s s' (concat (map (fun kv => text_wire kv.1 ++ wire kv.2) ws))
         (sum_list (map (fun kv => 1 + item_count kv.2)%Z ws))
    /\ Forall (fun kv => text_ok kv.1 = true /\ value_ok kv.2 = true /\ nesting kv.2 + depth <= MAX_DEPTH) ws
    /\ windows_all rlt (option_list prev ++ (text_wire <$> ws.*1)) = true.
Proof.
  intros Hitem. revert prev acc s. induction n as [|n IH]; intros prev acc s Hin; cbn.
  { intros [-> ->]%dec_ret_Ok. exists []. rewrite app_nil_r.
    split; [done|]. split; [done|]. split; [by apply consumed_refl|].
    split; [constructor|]. by destruct prev. }
  intros ([key s1] & Hk & H)%bind_Ok. apply Hitem in Hk as (Hc1 & Hok1 & _); [|done].
  destruct key as [| | |key| | | |]; try done.
  apply bind_Ok in H as (kenc & Hkenc%ok_or_Ok & H).
  destruct Hc1 as [Hr1 Hi1]. rewrite Hkenc in Hr1. injection Hr1 as ->.
  assert (consumed s s1 (text_wire key) 1) as Hc1 by done.
  pose proof (consumed_in_input _ _ _ _ Hc1) as [Hin1 _].
  destruct (match prev with Some p => rle (text_wire key) p | None => false end) eqn:Hprev; [done|].
  apply bind_Ok in H as ([v s2] & Hv & H). apply Hitem in Hv as (Hc2 & Hok2 & Hn2); [|done].
  pose proof (consumed_in_input _ _ _ _ Hc2) as [Hin2 _].
  apply IH in H as (ws & -> & <- & Hc3 & Hws & Hsorted); [|done].
  exists ((key, v) :: ws). rewrite <- app_assoc. split; [done|]. split; [done|].
  split; [|split; [by constructor|]].
  - exact (consumed_trans _ _ _ _ _ _ _ (consumed_trans _ _ _ _ _ _ _ Hc1 Hc2) Hc3).
  - destruct prev as [p|]; [|exact Hsorted]. rewrite rle_rlt in Hprev.
    apply negb_false_iff in Hprev. apply andb_true_iff. split; [exact Hprev|exact Hsorted].
Qed.

Lemma max_list_add (l : list nat) d b :
  d <= b -> Forall (fun n => n + d <= b) l -> max_list l + d <= b.
Proof. intros Hd. unfold max_list. induction 1; cbn [foldr]; lia. Qed.

Lemma item_body_sound item depth initial s v s' :
  depth <= MAX_DEPTH -> item_spec item (S depth) -> (0 <= initial < 256)%Z -> in_input s ->
  item_body input item initial s = Ok (v, s') ->
  exists rest, wire v = mkb initial :: rest /\ consumed s s' rest (item_count v - 1)
    /\ value_ok v = true /\ nesting v + depth <= MAX_DEPTH.
Proof.
  intros Hdepth Hitem Hi Hin. unfold item_body.
  destruct (Z.shiftr initial 5 =? 7)%Z eqn:H7.
  { intros [Hs ->]%dec_lift_Ok. unfold simple_value in Hs.
    rewrite <- (initial_byte_join initial Hi), (proj1 (Z.eqb_eq _ _) H7).
    exists []. repeat case_match; simplify_eq; rewrite Z.eqb_eq in *;
      match goal with H : Z.land initial 31 = _ |- _ => rewrite H end;
      (split; [reflexivity|split; [exact (consumed_refl _ Hin)|split; [done|cbn; lia]]]). }
  intros (arg & s1 & (tail & Hc & Harg & Hhead)%head_sound & H)%dec_bind_Ok; [|done..].
  pose proof (consumed_in_input _ _ _ _ Hc) as [Hin1 _]. unfold item_major in H.
  repeat match type of H with
  | (if (Z.shiftr initial 5 =? ?k)%Z then _ else _) _ = _ =>
    destruct (Z.shiftr initial 5 =? k)%Z eqn:Hmajor;
      [apply Z.eqb_eq in Hmajor; rewrite Hmajor in Hhead|clear Hmajor]
  end.
  - apply dec_ret_Ok in H as [-> ->]. exists tail. cbn. rewrite Hhead.
    split; [done|]. split; [done|]. split; [by apply in_u64_spec|lia].
  - apply dec_ret_Ok in H as [-> ->]. exists tail. cbn. rewrite Hhead.
    split; [done|]. split; [done|]. split; [by apply in_u64_spec|lia].
  - apply dec_bind_Ok in H as (n & s2 & [[-> _]%to_usize_Ok ->]%dec_lift_Ok & H).
    apply dec_bind_Ok in H as (bs & s2 & [Hb <-]%take_sound & [-> ->]%dec_ret_Ok).
    exists (tail ++ bs). cbn. rewrite Hhead. split; [done|].
    split; [exact (consumed_trans _ _ _ _ _ _ _ Hc Hb)|]. split; [by apply in_u64_spec|lia].
  - apply dec_bind_Ok in H as (n & s2 & [[-> _]%to_usize_Ok ->]%dec_lift_Ok & H).
    apply dec_bind_Ok in H as (bs & s2 & [Hb <-]%take_sound & H).
    apply dec_bind_Ok in H as (t & s3 & [Ht%ok_or_Ok%from_utf8_Some ->]%dec_lift_Ok & [-> ->]%dec_ret_Ok).
    destruct Ht as [<- Ht]. exists (tail ++ String.list_ascii_of_string t). cbn. unfold text_wire.
    rewrite Hhead. split; [done|]. split; [exact (consumed_trans _ _ _ _ _ _ _ Hc Hb)|].
    split; [|lia]. unfold text_ok. rewrite Ht. by apply in_u64_spec.
  - apply dec_bind_Ok in H as (n & s2 & [[-> Hn]%bounded_count_Ok ->]%dec_lift_Ok & H).
    apply dec_bind_Ok in H as (vs & s3 & Hvs & [-> ->]%dec_ret_Ok).
    eapply push_items_sound in Hvs as (ws & -> & Hlw & Hcw & Hws); [|done..]. cbn [app] in *.
    assert (arg = Z.of_nat (length ws)) as -> by lia.
    exists (tail ++ concat (map wire ws)). cbn [wire]. rewrite Hhead. split; [done|].
    split; [cbn [item_count]; rewrite Z.add_simpl_l; exact (consumed_trans _ _ _ _ _ _ _ Hc Hcw)|].
    split.
    + cbn. rewrite (proj2 (in_u64_spec _)) by done. apply forallb_Forall'.
      eapply Forall_impl; [exact Hws|]. cbn. tauto.
    + cbn [nesting]. apply max_list_add; [done|]. apply Forall_fmap.
      eapply Forall_impl; [exact Hws|]. cbn. lia.
  - apply dec_bind_Ok in H as (n & s2 & [[-> Hn]%bounded_count_Ok ->]%dec_lift_Ok & H).
    apply dec_bind_Ok in H as (kvs & s3 & Hkvs & [-> ->]%dec_ret_Ok).
    eapply map_entries_sound in Hkvs as (ws & -> & Hlw & Hcw & Hws & Hsorted); [|done..].
    cbn [app option_list] in *.
    assert (arg = Z.of_nat (length ws)) as -> by lia.
    exists (tail ++ concat (map (fun kv => text_wire kv.1 ++ wire kv.2) ws)).
    cbn [wire]. rewrite Hhead. split; [done|].
    split; [cbn [item_count]; rewrite Z.add_simpl_l; exact (consumed_trans _ _ _ _ _ _ _ Hc Hcw)|].
    split.
    + cbn. rewrite (proj2 (in_u64_spec _)) by done. cbn. apply andb_true_iff. split.
      * apply forallb_Forall'. eapply Forall_impl; [exact Hws|]. cbn. intros kv (-> & -> & _). done.
      * rewrite <- Hsorted. symmetry. apply (windows_all_fmap text_wire rlt).
    + cbn [nesting]. apply max_list_add; [done|]. apply Forall_fmap.
      eapply Forall_impl; [exact Hws|]. cbn. lia.
  - done.
Qed.

Lemma item_sound fuel depth : item_spec (item input fuel depth) depth.
Proof.
  revert depth. induction fuel as [|fuel IH]; intros depth s v s' Hin; cbn [item]; [done|].
  destruct (bool_decide (MAX_DEPTH < depth)) eqn:Hd; [done|]. apply bool_decide_eq_false in Hd.
  destruct (MAX_ITEMS <=? items s)%Z; cbn [orb]; [done|].
  intros ([first s1] & [Hc Hfirst]%take_sound & H)%bind_Ok.
  apply bind_Ok in H as (initial & Hinit%ok_or_Ok & H).
  destruct first as [|b [|]]; cbn in Hfirst; try lia. injection Hinit as ->.
  pose proof (consumed_in_input _ _ _ _ Hc) as [Hin1 _].
  apply (item_body_sound _ depth) in H as (rest & Hw & Hc' & Hok & Hnest); [|lia|apply IH|apply bval_bound|done].
  rewrite mkb_bval in Hw. rewrite Hw. split; [|done].
  - destruct Hc as [Hr Hit], Hc' as [Hr' Hit']. cbn in *. split; [|lia].
    exact (get_range_join _ _ _ _ _ _ Hr Hr').
Qed.

Lemma decode_sound v :
  decode input = Ok v ->
  value_ok v = true /\ wire v = input /\ nesting v <= MAX_DEPTH
  /\ (Z.of_nat (length input) <= MAX_BYTES)%Z.
Proof.
  unfold decode. destruct (bool_decide (input = [])); [done|]. cbn [orb].
  destruct (MAX_BYTES <? Z.of_nat (length input))%Z eqn:Hmax; [done|].
  intros ([v' s] & Hitem & H)%bind_Ok.
  destruct (offset s =? Z.of_nat (length input))%Z eqn:Hoff; cbn in H; [|done].
  injection H as ->. apply Z.eqb_eq in Hoff.
  apply item_sound in Hitem as ([Hr _] & Hok & Hn); [|unfold in_input; cbn; lia].
  cbn in Hr. rewrite Hoff in Hr. apply get_range_full in Hr. rewrite Nat.add_0_r in Hn.
  split; [done|]. split; [done|]. split; [done|lia].
Qed.
End decoder_sound.

(** * Decoder: canonical bytes are accepted *)

Section decoder_complete.
Context (input : list byte).
Hypothesis Hlen : (Z.of_nat (length input) < u64_bound)%Z.

Definition reads_at (s : Decoder) (bs : list byte) : Prop :=
  exists pre post, input = pre ++ bs ++ post /\ offset s = Z.of_nat (length pre).
Definition advance (s : Decoder) (bs : list byte) (n : Z) : Decoder :=
  mkDecoder (offset s + Z.of_nat (length bs)) (items s + n).

Lemma advance_advance s x y m n : advance (advance s x m) y n = advance s (x ++ y) (m + n).
Proof. unfold advance; cbn. rewrite length_app. f_equal; lia. Qed.
Lemma advance_nil s : advance s [] 0 = s.
Proof. destruct s. unfold advance; cbn. f_equal; lia. Qed.
Lemma reads_at_app s x y n :
  reads_at s (x ++ y) -> reads_at s x /\ reads_at (advance s x n) y.
Proof.
  intros (pre & post & Hi & Ho). unfold reads_at. rewrite Hi. split.
  - exists pre, (y ++ post). by rewrite <- app_assoc.
  - exists (pre ++ x), post. split; [by rewrite <- !app_assoc|]. cbn. rewrite length_app. lia.
Qed.
Lemma reads_at_length s x : reads_at s x -> (Z.of_nat (length x) < u64_bound)%Z.
Proof. intros (pre & post & Hi & _). rewrite Hi, !length_app in Hlen. lia. Qed.

Lemma take_complete s bs n :
  reads_at s bs -> n = Z.of_nat (length bs) -> take input n s = Ok (bs, advance s bs 0).
Proof.
  intros Hr ->. pose proof Hr as (pre & post & Hi & Ho). unfold take, u64_checked_add.
  rewrite (proj2 (try_from_Some _ _ (offset s + Z.of_nat (length bs)))); cbn.
  - rewrite Hi, (get_range_app pre bs post) by lia. cbn. unfold advance. do 3 f_equal. lia.
  - rewrite Hi, !length_app in Hlen. lia.
Qed.

Lemma dec_bind_eq {A B} (m : Dec A) (f : A -> Dec B) s a s1 :
  m s = Ok (a, s1) -> (m ≫= f) s = f a s1.
Proof. unfold mbind, Dec_bind. by intros ->. Qed.
Lemma dec_lift_eq {A B} (m : result Error A) (f : A -> Dec B) s a :
  m = Ok a -> (dec_lift m ≫= f) s = f a s.
Proof. intros ->. done. Qed.

Lemma argument_complete s arg :
  (0 <= arg < u64_bound)%Z -> reads_at s (arg_split arg).2 ->
  argument input (arg_split arg).1 s = Ok (arg, advance s (arg_split arg).2 0).
Proof.
  intros Harg. unfold arg_split. pow_consts. intros Hr.
  repeat match goal with |- context [(arg <? ?k)%Z] => destruct (arg <? k)%Z eqn:? end; cbn [fst snd] in *.
  { unfold argument. rewrite Heqb. by rewrite advance_nil. }
  all: unfold argument; cbn [Z.ltb Z.compare Pos.compare Pos.compare_cont].
  all: (erewrite dec_lift_eq; [|reflexivity]); cbv beta iota.
  all: (erewrite dec_bind_eq; [|apply take_complete; [exact Hr|reflexivity]]).
  all: rewrite be_value_pad, be_value_be_bytes_small by (pow_consts; lia).
  all: match goal with |- context [(?a <? ?k)%Z] => destruct (a <? k)%Z eqn:? end; [|done].
  all: exfalso.
  all: try change (Z.shiftl 1 8) with 256%Z in *; try change (Z.shiftl 1 16) with 65536%Z in *;
    try change (Z.shiftl 1 32) with 4294967296%Z in *; lia.
Qed.

Lemma item_count_pos v : (1 <= item_count v)%Z.
Proof.
  destruct v as [| | | |vs|kvs| |] using Value_rec_full; cbn; try lia.
  - assert (0 <= sum_list (map item_count vs))%Z; [|lia]. unfold sum_list.
    induction H; cbn [map foldr]; lia.
  - assert (0 <= sum_list (map (fun kv => 1 + item_count kv.2) kvs))%Z; [|lia]. unfold sum_list.
    induction H; cbn [map foldr]; lia.
Qed.
Lemma sum_list_length {A} (f : A -> Z) l :
  (forall a, 1 <= f a)%Z -> (Z.of_nat (length l) <= sum_list (map f l))%Z.
Proof.
  intros Hf. unfold sum_list. induction l as [|a l IH]; cbn [map foldr length]; [lia|].
  specialize (Hf a). lia.
Qed.

(** A head in front of [rest]: one step into the [match major]. *)
Lemma item_head fuel depth s major arg rest :
  depth <= MAX_DEPTH -> (items s < MAX_ITEMS)%Z -> (0 <= major < 7)%Z ->
  (0 <= arg < u64_bound)%Z -> reads_at s (encode_argument major arg [] ++ rest) ->
  item input (S fuel) depth s
  = item_major input (item input fuel (S depth)) major arg
      (advance s (encode_argument major arg []) 1)
  /\ reads_at (advance s (encode_argument major arg []) 1) rest.
Proof.
  intros Hd Hi Hm Ha Hr. split; [|by apply reads_at_app].
  rewrite encode_argument_split in Hr |- * by lia. cbn [app] in *.
  destruct (initial_byte_parts major (arg_split arg).1) as (Hb & Hmaj & Hadd);
    [lia|apply arg_split_additional; lia|].
  set (b := mkb (initial_byte major (arg_split arg).1)) in *.
  cbn [item]. rewrite bool_decide_eq_false_2 by lia. rewrite (proj2 (Z.leb_gt _ _)) by done.
  cbn [orb]. change (b :: (arg_split arg).2 ++ rest) with ([b] ++ (arg_split arg).2 ++ rest) in Hr.
  apply (reads_at_app s [b] _ 1) in Hr as [Hrb Hr].
  rewrite (take_complete (mkDecoder (offset s) (items s + 1)) [b] 1 Hrb eq_refl).
  cbn [mbind result_bind head ok_or]. unfold item_body. rewrite Hb, Hmaj, Hadd.
  rewrite (proj2 (Z.eqb_neq _ _)) by lia.
  apply (reads_at_app _ _ _ 0) in Hr as [Hrt Hr].
  erewrite dec_bind_eq; [|apply argument_complete; [done|exact Hrt]]. f_equal.
  unfold advance. cbn [offset items length]. f_equal; lia.
Qed.

Definition item_total (item : Dec Value) (v : Value) : Prop := forall s,
  (0 <= items s)%Z -> (items s + item_count v <= MAX_ITEMS)%Z -> reads_at s (wire v) ->
  item s = Ok (v, advance s (wire v) (item_count v)).

Lemma push_items_complete item ws acc s :
  Forall (item_total item) ws -> (0 <= items s)%Z ->
  (items s + sum_list (map item_count ws) <= MAX_ITEMS)%Z -> reads_at s (concat (map wire ws)) ->
  push_items item (length ws) acc s
  = Ok (acc ++ ws, advance s (concat (map wire ws)) (sum_list (map item_count ws))).
Proof.
  intros Hws. revert acc s. induction Hws as [|w ws Hw Hws IH]; intros acc s H0 Hmax Hr.
  { by rewrite app_nil_r, advance_nil. }
  cbn [map concat sum_list foldr length push_items] in *.
  fold (sum_list (map item_count ws)) in *.
  apply (reads_at_app _ _ _ (item_count w)) in Hr as [Hr Hrs].
  pose proof (item_count_pos w).
  assert (0 <= sum_list (map item_count ws))%Z.
  { pose proof (sum_list_length item_count ws item_count_pos). lia. }
  rewrite (dec_bind_eq _ _ _ _ _ (Hw s H0 ltac:(lia) Hr)).
  rewrite IH; [|cbn; lia|cbn; lia|done]. by rewrite advance_advance, <- app_assoc.
Qed.

Definition above (prev : option (list byte)) (k : list byte) : bool :=
  match prev with Some p => rlt p k | None => true end.

Lemma map_entries_complete item prev ws acc s :
  Forall (fun kv => item_total item (Text kv.1) /\ item_total item kv.2) ws -> (0 <= items s)%Z ->
  (items s + sum_list (map (fun kv => 1 + item_count kv.2) ws) <= MAX_ITEMS)%Z ->
  reads_at s (concat (map (fun kv => text_wire kv.1 ++ wire kv.2) ws)) ->
  windows_all rlt (option_list prev ++ (text_wire <$> ws.*1)) = true ->
  map_entries input item (length ws) prev acc s
  = Ok (acc ++ ws, advance s (concat (map (fun kv => text_wire kv.1 ++ wire kv.2) ws))
      (sum_list (map (fun kv => 1 + item_count kv.2)%Z ws))).
Proof.
  intros Hws. revert prev acc s.
  induction Hws as [|[k w] ws [Hk Hw] Hws IH]; intros prev acc s H0 Hmax Hr Hs.
  { by rewrite app_nil_r, advance_nil. }
  cbn [map concat sum_list foldr length map_entries fst snd] in *.
  fold (sum_list (map (fun kv => 1 + item_count kv.2)%Z ws)) in *.
  rewrite <- app_assoc in Hr. apply (reads_at_app _ _ _ 1) in Hr as [Hrk Hr].
  apply (reads_at_app _ _ _ (item_count w)) in Hr as [Hrw Hr].
  pose proof (item_count_pos w).
  assert (0 <= sum_list (map (fun kv => 1 + item_count kv.2) ws))%Z.
  { pose proof (sum_list_length (fun kv : string * Value => 1 + item_count kv.2)%Z ws) as Hsum.
    enough (Z.of_nat (length ws) <= sum_list (map (fun kv => 1 + item_count kv.2) ws))%Z by lia.
    apply Hsum. intros a. pose proof (item_count_pos a.2). lia. }
  rewrite (Hk s H0) by (cbn; lia || done). cbn [mbind result_bind].
  change (wire (Text k)) with (text_wire k). change (item_count (Text k)) with 1%Z.
  assert (get_range input (offset s) (offset (advance s (text_wire k) 1)) = Some (text_wire k)) as ->.
  { destruct Hrk as (pre & post & Hi & Ho). rewrite Hi. apply get_range_app; [done|]. done. }
  cbn [ok_or mbind result_bind].
  assert ((match prev with Some previous => rle (text_wire k) previous | None => false end) = false
    /\ windows_all rlt (option_list (Some (text_wire k)) ++ (text_wire <$> ws.*1)) = true) as [-> Hs'].
  { destruct prev as [p|]; [|done]. apply andb_true_iff in Hs as [Hp Hs].
    rewrite rle_rlt. change (rlt p (text_wire k) = true) in Hp. by rewrite Hp. }
  rewrite (Hw (advance s (text_wire k) 1)) by (cbn; lia || done). cbn [mbind result_bind].
  rewrite IH by (cbn; lia || done). rewrite !advance_advance, <- !app_assoc.
  do 3 f_equal. lia.
Qed.

Lemma item_simple fuel depth s b v :
  depth <= MAX_DEPTH -> (items s < MAX_ITEMS)%Z -> reads_at s [b] ->
  Z.shiftr (bval b) 5 = 7%Z -> simple_value (Z.land (bval b) 0x1f) = Ok v ->
  item input (S fuel) depth s = Ok (v, advance s [b] 1).
Proof.
  intros Hd Hi Hr Hm Hv. cbn [item].
  rewrite bool_decide_eq_false_2 by lia. rewrite (proj2 (Z.leb_gt _ _)) by done. cbn [orb].
  rewrite (take_complete (mkDecoder (offset s) (items s + 1)) [b] 1 Hr eq_refl).
  cbn [mbind result_bind head ok_or]. unfold item_body. rewrite Hm, Hv. unfold dec_lift, advance.
  cbn [Z.eqb Pos.eqb offset items]. by rewrite Z.add_0_r.
Qed.

Lemma to_usize_complete n : (0 <= n < u64_bound)%Z -> to_usize n = Ok n.
Proof. intros. by apply to_usize_Ok. Qed.
Lemma bounded_count_complete n : (0 <= n <= MAX_ITEMS)%Z -> bounded_count n = Ok n.
Proof. intros. by apply bounded_count_Ok. Qed.

Lemma Forall_max_list {A} (f : A -> nat) l d :
  max_list (map f l) <= d -> Forall (fun a => f a <= d) l.
Proof.
  unfold max_list. induction l as [|a l IH]; cbn [map foldr]; intros; constructor; [lia|].
  apply IH. lia.
Qed.

Lemma advance_head s major arg : forall bs n,
  advance (advance s (encode_argument major arg []) 1) bs n
  = advance s (encode_argument major arg [] ++ bs) (1 + n).
Proof. intros. by rewrite advance_advance. Qed.

Lemma text_complete fuel depth t :
  text_ok t = true -> depth <= MAX_DEPTH -> item_total (item input (S fuel) depth) (Text t).
Proof.
  intros [Hu Hl]%text_ok_spec Hd s H0 Hmax Hr. cbn [wire item_count] in *. unfold text_wire in *.
  destruct (item_head fuel depth s 3 _ _ Hd ltac:(lia) ltac:(lia) ltac:(split; [apply Nat2Z.is_nonneg|exact Hl]) Hr)
    as [-> Hr']. unfold item_major. cbn [Z.eqb Pos.eqb].
  erewrite dec_lift_eq; [|apply to_usize_complete; lia].
  erewrite dec_bind_eq; [|apply take_complete; [exact Hr'|done]].
  erewrite dec_lift_eq; [|apply ok_or_Ok, from_utf8_Some; split; [reflexivity|exact Hu]].
  by rewrite advance_head.
Qed.

Lemma item_complete v fuel depth :
  value_ok v = true -> nesting v + depth <= MAX_DEPTH -> nesting v < fuel ->
  item_total (item input fuel depth) v.
Proof.
  revert fuel depth.
  induction v as [z|z|b|t|vs IH|kvs IH|b|] using Value_rec_full;
    intros [|fuel] depth Hok Hn Hf s H0 Hmax Hr; try lia.
  4:{ apply text_complete; [done|cbn in Hn; lia|done..]. }
  6,7: cbn in Hn; cbn [wire item_count] in *; apply item_simple;
    [lia|lia|done|try destruct b; reflexivity|try destruct b; reflexivity].
  all: cbn [wire value_ok item_count] in *.
  1,2: apply in_u64_spec in Hok; rewrite <- (app_nil_r (encode_argument _ _ _)) in Hr;
    apply (item_head fuel depth) in Hr as [-> _];
    [unfold item_major; cbn [Z.eqb Pos.eqb]; done|cbn in Hn; lia|lia|lia|done].
  - apply in_u64_spec in Hok.
    apply (item_head fuel depth) in Hr as [-> Hr]; [|cbn in Hn; lia|lia|lia|done].
    unfold item_major; cbn [Z.eqb Pos.eqb].
    erewrite dec_lift_eq; [|apply to_usize_complete; lia].
    erewrite dec_bind_eq; [|apply take_complete; [exact Hr|done]].
    by rewrite advance_head.
  - apply andb_true_iff in Hok as [Hl%in_u64_spec Hok%forallb_Forall'].
    apply (item_head fuel depth) in Hr as [-> Hr]; [|lia| |lia|done].
    2:{ pose proof (sum_list_length item_count vs item_count_pos). lia. }
    pose proof (sum_list_length item_count vs item_count_pos).
    unfold item_major; cbn [Z.eqb Pos.eqb].
    erewrite dec_lift_eq; [|apply bounded_count_complete; lia]. rewrite Nat2Z.id.
    erewrite dec_bind_eq; [|apply push_items_complete; [|cbn; lia|cbn; lia|exact Hr]].
    + by rewrite advance_head.
    + pose proof (Forall_max_list (fun v => S (nesting v)) vs _ (le_n (nesting (Array vs)))) as Hmv.
      rewrite Forall_forall in IH, Hok, Hmv |- *. intros v Hv.
      specialize (Hmv v Hv). cbn beta in Hmv. apply IH; [done|by apply Hok|lia|lia].
  - apply andb_true_iff in Hok as [[Hl%in_u64_spec Hok%forallb_Forall']%andb_true_iff Hsort].
    assert (Z.of_nat (length kvs) <= sum_list (map (fun kv => 1 + item_count kv.2) kvs))%Z as Hcount.
    { apply (sum_list_length (fun kv : string * Value => 1 + item_count kv.2)%Z). intros a.
      pose proof (item_count_pos a.2). lia. }
    apply (item_head fuel depth) in Hr as [-> Hr]; [|lia|lia|lia|done].
    unfold item_major, decode_map; cbn [Z.eqb Pos.eqb].
    erewrite dec_lift_eq; [|apply bounded_count_complete; lia]. rewrite Nat2Z.id.
    erewrite dec_bind_eq; [|apply map_entries_complete; [|cbn; lia|cbn; lia|exact Hr|]].
    + by rewrite advance_head.
    + pose proof (Forall_max_list (fun kv : string * Value => S (nesting kv.2)) kvs _
        (le_n (nesting (Map kvs)))) as Hmv.
      rewrite Forall_forall in IH, Hok, Hmv |- *. intros kv Hkv.
      specialize (Hmv kv Hkv). cbn beta in Hmv.
      specialize (Hok kv Hkv) as [Hk Hv]%andb_true_iff. split.
      * destruct fuel as [|fuel']; [lia|]. apply text_complete; [done|lia].
      * apply IH; [done|done|lia|lia].
    + cbn [option_list app]. rewrite <- Hsort. apply (windows_all_fmap text_wire rlt).
Qed.
End decoder_complete.

(** * The item budget *)

Section decoder_budget.
Context (input : list byte).

(** A run that starts within the item budget ends within it. *)
Definition within {A} (m : Dec A) : Prop := forall s a s',
  (items s <= MAX_ITEMS)%Z -> m s = Ok (a, s') -> (items s' <= MAX_ITEMS)%Z.

Lemma within_ret {A} (a : A) : within (mret a).
Proof. by intros s b s' Hs [-> ->]%dec_ret_Ok. Qed.
Lemma within_lift {A} (m : result Error A) : within (dec_lift m).
Proof. by intros s b s' Hs [_ ->]%dec_lift_Ok. Qed.
Lemma within_fail {A} e : within (@dec_fail A e).
Proof. done. Qed.
Lemma within_bind {A B} (m : Dec A) (f : A -> Dec B) :
  within m -> (forall a, within (f a)) -> within (m ≫= f).
Proof.
  intros Hm Hf s b s' Hs (a & s1 & H1 & H2)%dec_bind_Ok. eapply Hf; [|exact H2].
  by eapply Hm.
Qed.
Lemma within_take n : within (take input n).
Proof. intros s b s' Hs [[_ Hi] _]%take_sound. lia. Qed.
Lemma within_if {A} (b : bool) (m n : Dec A) : within m -> within n -> within (if b then m else n).
Proof. by destruct b. Qed.
Hint Resolve within_ret within_lift within_fail within_take : core.

Lemma within_argument additional : within (argument input additional).
Proof.
  unfold argument. apply within_if; [auto|]. apply within_bind; [auto|].
  intros [width minimum]. apply within_bind; [auto|]. intros bs. apply within_if; auto.
Qed.
Lemma within_push_items item n acc : within item -> within (push_items item n acc).
Proof.
  intros Hi. revert acc. induction n as [|n IH]; intros acc; [apply within_ret|].
  apply within_bind; auto.
Qed.
Lemma within_map_entries item n prev acc : within item -> within (map_entries input item n prev acc).
Proof.
  intros Hi. revert prev acc. induction n as [|n IH]; intros prev acc; [apply within_ret|].
  intros s kvs s' Hs. cbn. intros ([key s1] & Hk & H)%bind_Ok. apply Hi in Hk; [|done].
  destruct key; try done. apply bind_Ok in H as (kenc & _ & H).
  destruct (match prev with Some _ => _ | None => _ end); [done|].
  apply bind_Ok in H as ([v s2] & Hv & H). apply Hi in Hv; [|done]. by eapply IH.
Qed.
Lemma within_item_body item initial : within item -> within (item_body input item initial).
Proof.
  intros Hi. unfold item_body. apply within_if; [auto|].
  apply within_bind; [apply within_argument|]. intros arg. unfold item_major, decode_map.
  repeat apply within_if; auto.
  all: repeat (apply within_bind; [auto using within_push_items, within_map_entries|intros]); auto.
Qed.
Lemma within_item fuel depth : within (item input fuel depth).
Proof.
  revert depth. induction fuel as [|fuel IH]; intros depth s v s' Hs; [done|]. cbn [item].
  destruct (bool_decide (MAX_DEPTH < depth)); [done|].
  destruct (MAX_ITEMS <=? items s)%Z eqn:Hi; cbn [orb]; [done|].
  intros ([first s1] & Ht & H)%bind_Ok. apply within_take in Ht; [|cbn; lia].
  apply bind_Ok in H as (initial & _ & H). eapply within_item_body; [apply IH|exact Ht|exact H].
Qed.
End decoder_budget.

(** * Fuel *)

Section decoder_fuel.
Context (input : list byte) (item item' : Dec Value).
Hypothesis same : forall s, item s = item' s.

Lemma push_items_ext n acc s : push_items item n acc s = push_items item' n acc s.
Proof.
  revert acc s. induction n as [|n IH]; intros acc s; [done|]. cbn.
  unfold mbind, Dec_bind. rewrite same. destruct (item' s) as [[v s']|]; [apply IH|done].
Qed.
Lemma map_entries_ext n prev acc s :
  map_entries input item n prev acc s = map_entries input item' n prev acc s.
Proof.
  revert prev acc s. induction n as [|n IH]; intros prev acc s; [done|]. cbn. rewrite same.
  destruct (item' s) as [[[] s']|]; cbn; try done. destruct (get_range _ _ _); cbn; [|done].
  destruct (match prev with Some _ => _ | None => _ end); [done|]. rewrite same.
  destruct (item' s') as [[v s2]|]; cbn; [apply IH|done].
Qed.
Lemma item_body_ext initial s : item_body input item initial s = item_body input item' initial s.
Proof.
  unfold item_body. destruct (_ =? 7)%Z; [done|]. unfold mbind, Dec_bind.
  destruct (argument _ _ _) as [[arg s']|]; [|done].
  unfold item_major, decode_map. repeat case_match; try done;
    unfold mbind, Dec_bind; destruct (dec_lift _ _) as [[n s2]|]; try done.
  - by rewrite push_items_ext.
  - by rewrite map_entries_ext.
Qed.
End decoder_fuel.

Lemma item_fuel_step input fuel depth s :
  item_fuel depth <= fuel -> 0 < fuel -> item input fuel depth s = item input (S fuel) depth s.
Proof.
  unfold item_fuel. revert depth s. induction fuel as [|fuel IH]; intros depth s Hf H0; [lia|].
  cbn [item]. destruct (bool_decide (MAX_DEPTH < depth)) eqn:Hd; [done|].
  apply bool_decide_eq_false in Hd. cbn [orb]. destruct (MAX_ITEMS <=? items s)%Z; [done|].
  destruct (take _ _ _) as [[first s1]|]; [|done]. cbn [mbind result_bind].
  destruct (ok_or _ _); [|done]. cbn [mbind result_bind]. apply item_body_ext.
  intros s2. apply IH; lia.
Qed.

(** * [decode] as a partial inverse of [encode] *)

Definition within_limits (v : Value) : bool :=
  bool_decide (nesting v <= MAX_DEPTH) && (item_count v <=? MAX_ITEMS)%Z
  && (Z.of_nat (length (wire v)) <=? MAX_BYTES)%Z.

Lemma within_limits_spec v : within_limits v = true <->
  nesting v <= MAX_DEPTH /\ (item_count v <= MAX_ITEMS)%Z /\ (Z.of_nat (length (wire v)) <= MAX_BYTES)%Z.
Proof.
  unfold within_limits. rewrite !andb_true_iff, bool_decide_eq_true, !Z.leb_le. tauto.
Qed.

Lemma wire_not_nil v : wire v <> [].
Proof.
  destruct v; cbn; try done; unfold text_wire, encode_argument;
    repeat case_match; done.
Qed.

Lemma MAX_BYTES_u64 : (MAX_BYTES < u64_bound)%Z.
Proof. by vm_compute. Qed.

Lemma decode_wire v : value_ok v = true -> within_limits v = true -> decode (wire v) = Ok v.
Proof.
  intros Hok (Hn & Hi & Hb)%within_limits_spec. pose proof MAX_BYTES_u64. unfold decode.
  rewrite bool_decide_eq_false_2 by apply wire_not_nil.
  rewrite (proj2 (Z.ltb_ge _ _)) by done. cbn [orb].
  rewrite (item_complete (wire v) ltac:(lia) v (item_fuel 0) 0); cbn -[Z.eqb wire item_fuel].
  - rewrite Z.eqb_refl. done.
  - done.
  - lia.
  - unfold item_fuel, MAX_DEPTH in *. lia.
  - lia.
  - cbn. lia.
  - exists [], []. split; [by rewrite app_nil_r|done].
Qed.

Lemma decode_iff input v :
  decode input = Ok v <-> value_ok v = true /\ within_limits v = true /\ wire v = input.
Proof.
  split; [|intros (? & ? & <-); by apply decode_wire].
  intros Hd.
  pose proof (decode_sound input v Hd) as (Hok & <- & Hn & Hb).
  split; [done|]. split; [|done]. apply within_limits_spec. split; [done|]. split; [|done].
  unfold decode in Hd. destruct (_ || _); [done|].
  apply bind_Ok in Hd as ([v' s] & Hi & Hd).
  pose proof Hi as Hmax. apply within_item in Hmax; [|cbn; unfold MAX_ITEMS; lia].
  apply item_sound in Hi as ([_ Hc] & _); [|unfold in_input; cbn; lia].
  destruct (negb _); [done|]. injection Hd as ->. cbn in Hc. lia.
Qed.

(** * The wire form is prefix-free, hence injective *)

Definition head_of (v : Value) : Z * Z :=
  match v with
  | Unsigned z => (0, z)
  | Negative z => (1, z)
  | Bytes b => (2, Z.of_nat (length b))
  | Text s => (3, Z.of_nat (length (String.list_ascii_of_string s)))
  | Array vs => (4, Z.of_nat (length vs))
  | Map kvs => (5, Z.of_nat (length kvs))
  | Bool b => (7, if b then 21 else 20)
  | Null => (7, 22)
  end%Z.
Definition body_of (v : Value) : list byte :=
  match v with
  | Bytes b => b
  | Text s => String.list_ascii_of_string s
  | Array vs => concat (map wire vs)
  | Map kvs => concat (map (fun kv => text_wire kv.1 ++ wire kv.2) kvs)
  | _ => []
  end.

Lemma wire_head_body v : wire v = encode_argument (head_of v).1 (head_of v).2 [] ++ body_of v.
Proof. destruct v as [| | | | | |[]|]; cbn; by rewrite ?app_nil_r. Qed.
Lemma head_of_bounds v :
  value_ok v = true -> (0 <= (head_of v).1 < 8)%Z /\ (0 <= (head_of v).2 < u64_bound)%Z.
Proof.
  destruct v as [| | |s|vs|kvs|[]|]; cbn; intros Hok; split; try lia.
  all: try (by apply in_u64_spec).
  - apply text_ok_spec in Hok as [_ ?]. lia.
  - apply andb_true_iff in Hok as [?%in_u64_spec _]. done.
  - apply andb_true_iff in Hok as [[?%in_u64_spec _]%andb_true_iff _]. done.
Qed.

Lemma head_prefix_free m n a b x y :
  (0 <= m < 8)%Z -> (0 <= n < 8)%Z -> (0 <= a < u64_bound)%Z -> (0 <= b < u64_bound)%Z ->
  encode_argument m a [] ++ x = encode_argument n b [] ++ y -> m = n /\ a = b /\ x = y.
Proof.
  intros Hm Hn Ha Hb Heq. assert (m = n) as ->.
  { rewrite !encode_argument_split in Heq by lia. cbn [app] in Heq. injection Heq as Hi _.
    destruct (initial_byte_parts m (arg_split a).1) as (Ha1 & <- & _);
      [lia|apply arg_split_additional; lia|].
    destruct (initial_byte_parts n (arg_split b).1) as (Hb1 & <- & _);
      [lia|apply arg_split_additional; lia|]. congruence. }
  split; [done|]. by eapply encode_argument_prefix_free.
Qed.

Lemma concat_prefix_free {A} (f : A -> list byte) l k x y :
  Forall (fun a => forall b x y, b ∈ k -> f a ++ x = f b ++ y -> a = b /\ x = y) l ->
  length l = length k -> concat (map f l) ++ x = concat (map f k) ++ y -> l = k /\ x = y.
Proof.
  intros Hl. revert k Hl x y. induction l as [|a l IH]; intros [|b k] Hl x y Hlen; try done.
  cbn. rewrite <- !app_assoc. intros Heq. inversion Hl as [|? ? Ha Hl']; subst.
  apply Ha in Heq as [-> Heq]; [|left]. apply IH in Heq as [-> ->]; [done| |by injection Hlen].
  eapply Forall_impl; [exact Hl'|]. cbn. intros c Hc d x' y' Hd. apply Hc. by right.
Qed.

Lemma text_prefix_free s t x y :
  text_ok s = true -> text_ok t = true -> text_wire s ++ x = text_wire t ++ y -> s = t /\ x = y.
Proof.
  intros [_ Hs]%text_ok_spec [_ Ht]%text_ok_spec. unfold text_wire. rewrite <- !app_assoc.
  intros (_ & Hlen & Heq)%head_prefix_free; [|lia..].
  apply app_inj_1 in Heq as [?%(inj String.list_ascii_of_string) ->]; [done|lia].
Qed.

Lemma wire_heads v w x y :
  value_ok v = true -> value_ok w = true -> wire v ++ x = wire w ++ y ->
  head_of v = head_of w /\ body_of v ++ x = body_of w ++ y.
Proof.
  intros Hv Hw. pose proof (head_of_bounds _ Hv) as [Hm Ha]. pose proof (head_of_bounds _ Hw) as [Hn Hb].
  rewrite (wire_head_body v), (wire_head_body w), <- !app_assoc.
  intros (Hmaj & Harg & Heq)%head_prefix_free; [|done..]. split; [|done].
  destruct (head_of v), (head_of w); cbn in *; congruence.
Qed.

Lemma wire_prefix_free v w x y :
  value_ok v = true -> value_ok w = true -> wire v ++ x = wire w ++ y -> v = w /\ x = y.
Proof.
  revert w x y. induction v as [z|z|b|s|vs IH|kvs IH|b|] using Value_rec_full; intros w x y Hv Hw Heq;
    (apply wire_heads in Heq as [Hh Heq]; [|done|done]).
  all: destruct w as [z'|z'|b'|s'|vs'|kvs'|b'|]; try discriminate Hh; cbn in Hh, Heq; simplify_eq; try done.
  - apply app_inj_1 in Heq as [-> ->]; [done|lia].
  - apply app_inj_1 in Heq as [?%(inj String.list_ascii_of_string) ->]; [by subst|lia].
  - cbn in Hv, Hw. apply andb_true_iff in Hv as [_ Hv%forallb_Forall'].
    apply andb_true_iff in Hw as [_ Hw%forallb_Forall']. rewrite Forall_forall in Hw.
    apply concat_prefix_free in Heq as [-> ->]; [done| |lia].
    clear -IH Hv Hw. induction IH; inversion Hv; subst; constructor; eauto.
  - cbn in Hv, Hw. apply andb_true_iff in Hv as [[_ Hv%forallb_Forall']%andb_true_iff _].
    apply andb_true_iff in Hw as [[_ Hw%forallb_Forall']%andb_true_iff _]. rewrite Forall_forall in Hw.
    apply concat_prefix_free in Heq as [-> ->]; [done| |lia]. clear -IH Hv Hw.
    induction IH as [|[k v] l Hkv _ IHl]; inversion Hv as [|? ? Hok]; subst; constructor; [|auto].
    cbn in *. apply andb_true_iff in Hok as [Hk Hvok].
    intros [k' v'] x y Hin. specialize (Hw _ Hin). cbn in *. apply andb_true_iff in Hw as [Hk' Hv'].
    rewrite <- !app_assoc. intros (<- & [-> ->]%Hkv)%text_prefix_free; done.
  - by destruct b, b'.
  - by destruct b.
  - by destruct b'.
Qed.

(** Values that encode to the same bytes have the same canonical form. *)
Lemma encode_canon_inj v w bytes :
  typed v = true -> typed w = true -> encode v = Ok bytes -> encode w = Ok bytes ->
  canon v = canon w.
Proof.
  intros Hv Hw. unfold encode. rewrite !encode_item_spec by done.
  destruct (distinct_keys v) eqn:Hdv; [|done]. destruct (distinct_keys w) eqn:Hdw; [|done].
  intros [= Hev] [= Hew]. rewrite <- Hew in Hev.
  assert (wire (canon v) ++ [] = wire (canon w) ++ []) as Heq by congruence.
  apply wire_prefix_free in Heq as [? _]; [done|by apply canon_value_ok..].
Qed.

(** Maps with the same keys in the same order. *)
Lemma canon_map_inj (a b : list (string * Value)) :
  a.*1 = b.*1 -> NoDup a.*1 -> canon (Map a) = canon (Map b) -> (canon <$> a.*2) = (canon <$> b.*2).
Proof.
  intros Hk Hnd [= Heq].
  pose proof (sort_by_Permutation (fun l r => key_lt l.1 r.1)
    (map (fun kv => (kv.1, canon kv.2)) a)) as Hpa.
  rewrite Heq, sort_by_Permutation in Hpa. symmetry in Hpa. clear Heq.
  set (f := fun kv : string * Value => (kv.1, canon kv.2)) in *.
  change (map f a ≡ₚ map f b) in Hpa.
  assert (Hel : forall p, p ∈ map f a -> p ∈ map f b) by (intros p; by rewrite Hpa). clear Hpa.
  assert (Hgen : forall l k, l.*1 = k.*1 -> NoDup l.*1 ->
    (forall p, p ∈ map f l -> p ∈ map f k) -> (canon <$> l.*2) = (canon <$> k.*2)); [|by apply Hgen].
  clear. intros l. induction l as [|[x v] l IH]; intros [|[y w] k] Hk Hnd Hel; try done.
  cbn in Hk. injection Hk as <- Hk. cbn in Hnd. apply NoDup_cons in Hnd as [Hni Hnd].
  assert (Hfst : forall p m, p ∈ map f m -> p.1 ∈ m.*1).
  { intros p m (q & -> & Hq)%list_elem_of_fmap. cbn. apply list_elem_of_fmap. eauto. }
  cbn. f_equal.
  - assert ((x, canon v) ∈ map f ((x, w) :: k)) as Hin by (apply Hel; left).
    apply elem_of_cons in Hin as [[= ?]|Hin]; [done|].
    apply Hfst in Hin. cbn in Hin. rewrite <- Hk in Hin. done.
  - apply IH; [done|done|]. intros p Hp. specialize (Hel p ltac:(by right)).
    apply elem_of_cons in Hel as [->|?]; [|done]. apply Hfst in Hp. done.
Qed.

(** * Properties *)

(** C27: the decoder accepts exactly the deterministic encodings.  [decode]
    returns a value for [input] if and only if [input] is what [encode] produces
    for that value, the value's maps are already in strict key order, and the
    nesting, item and byte limits hold: every other byte string is refused. *)
Theorem decode_accepts_exactly_canonical (input : list byte) (v : Value) :
  decode input = Ok v <->
  encode v = Ok input /\ value_ok v = true
  /\ nesting v <= MAX_DEPTH /\ (item_count v <= MAX_ITEMS)%Z
  /\ (Z.of_nat (length input) <= MAX_BYTES)%Z.
Proof.
  rewrite decode_iff, within_limits_spec. split.
  - intros (Hok & (? & ? & ?) & <-). by rewrite encode_value_ok.
  - intros (He & Hok & ? & ? & ?). rewrite encode_value_ok in He by done. by injection He as <-.
Qed.

(** On every value the Rust types allow (64-bit integers and lengths, UTF-8
    text) [encode] either succeeds or reports [Invalid], and it reports [Invalid]
    exactly when some map, at any depth, repeats a key. *)
Theorem encode_fails_only_on_repeated_keys (v : Value) (Hty : typed v = true) :
  if distinct_keys v then exists bytes, encode v = Ok bytes else encode v = Err Invalid.
Proof.
  unfold encode. rewrite encode_item_spec by done. destruct (distinct_keys v); eauto.
Qed.

Definition example_value : Value :=
  Map [("memory.max", Unsigned 65536); ("pids.max", Array [Null; Bool true; Negative 255]);
       ("digest", Bytes (bytes_of [1; 2; 3]%Z))].
Definition duplicate_value : Value := Array [Map [("a", Null); ("b", Null); ("a", Bool true)]].

Lemma encode_fails_only_on_repeated_keys_witness :
  (exists bytes, encode example_value = Ok bytes) /\ encode duplicate_value = Err Invalid.
Proof.
  split.
  - exact (encode_fails_only_on_repeated_keys example_value eq_refl).
  - exact (encode_fails_only_on_repeated_keys duplicate_value eq_refl).
Defined.

(** Round trip.  A value without repeated keys whose canonical form stays
    within the decoder's limits encodes to bytes that decode to its canonical
    form (each map sorted by key encoding); decoding and encoding again gives the
    same bytes. *)
Theorem encode_decode_roundtrip (v : Value) (Hty : typed v = true)
    (Hd : distinct_keys v = true) (Hl : within_limits (canon v) = true) :
  exists bytes, encode v = Ok bytes /\ decode bytes = Ok (canon v)
    /\ encode (canon v) = Ok bytes.
Proof.
  pose proof (canon_value_ok v Hty Hd) as Hok. exists (wire (canon v)).
  split; [unfold encode; by rewrite encode_item_spec, Hd|].
  split; [by apply decode_wire|by apply encode_value_ok].
Qed.

Lemma encode_decode_roundtrip_witness :
  exists bytes, encode example_value = Ok bytes /\ decode bytes = Ok (canon example_value)
    /\ encode (canon example_value) = Ok bytes.
Proof. exact (encode_decode_roundtrip example_value eq_refl eq_refl eq_refl). Defined.

(** The recursion bound of the model is the code's own depth limit: with any
    fuel at least [item_fuel depth] the decoder gives the result it gives with
    one unit more, so the branch without fuel is never what decides a result. *)
Theorem item_fuel_irrelevant (input : list byte) (depth extra : nat) (s : Decoder)
    (Hd : depth <= S MAX_DEPTH) :
  item input (item_fuel depth + extra) depth s = item input (item_fuel depth) depth s.
Proof.
  induction extra as [|extra IH]; [by rewrite Nat.add_0_r|].
  rewrite <- IH, Nat.add_succ_r. symmetry. apply item_fuel_step; unfold item_fuel; lia.
Qed.

Lemma item_fuel_irrelevant_witness :
  item (bytes_of [0x81; 0x05]%Z) (item_fuel 0 + 70) 0 (mkDecoder 0 0)
  = Ok (Array [Unsigned 5], mkDecoder 2 2).
Proof.
  rewrite (item_fuel_irrelevant (bytes_of [0x81; 0x05]%Z) 0 70 (mkDecoder 0 0) ltac:(unfold MAX_DEPTH; lia)).
  vm_compute. reflexivity.
Defined.

(** The entries of [encode_bound_map] decoded. *)
Definition decode_entry (kv : string * list byte) : result Error (string * Value) :=
  value ← decode kv.2; Ok (kv.1, value).

Lemma bound_entry_spec kv :
  text_ok kv.1 = true ->
  bound_entry kv = (_ ← decode kv.2; Ok (text_wire kv.1, fun output => Ok (output ++ kv.2))).
Proof.
  intros Hk. unfold bound_entry. rewrite encode_text_spec by done. cbn [mbind result_bind app].
  destruct (decode kv.2) as [v|e] eqn:Hd; [|done]. cbn [mbind result_bind].
  apply decode_iff in Hd as (Hok & _ & Hw). rewrite encode_value_ok by done.
  cbn [mbind result_bind]. by rewrite bool_decide_eq_true_2.
Qed.

Lemma mapM_bound_entry values :
  Forall (fun kv => text_ok kv.1 = true) values ->
  mapM bound_entry values
  = (_ ← mapM decode_entry values;
     Ok (map (fun kv => (text_wire kv.1, fun output => Ok (output ++ kv.2))) values)).
Proof.
  induction 1 as [|kv values Hk _ IH]; [done|]. cbn. rewrite bound_entry_spec by done.
  assert (decode_entry kv = (value ← decode kv.2; Ok (kv.1, value))) as -> by done.
  destruct (decode kv.2); cbn; [|done]. rewrite IH. by destruct (mapM decode_entry values).
Qed.

Lemma decode_entries_Ok values kvs :
  mapM decode_entry values = Ok kvs ->
  values = map (fun kv => (kv.1, wire kv.2)) kvs
  /\ Forall (fun kv => value_ok kv.2 = true) kvs.
Proof.
  intros H%mapM_Ok. induction H as [|[k bs] [k' v] values kvs Hd _ [-> IH]]; [done|].
  unfold decode_entry in Hd. cbn [fst snd] in Hd. apply bind_Ok in Hd as (v' & Hv & [= <- <-]).
  apply decode_iff in Hv as (? & _ & <-). split; [done|by constructor].
Qed.

Lemma encode_bound_map_decoded values :
  Forall (fun kv => text_ok kv.1 = true) values -> (Z.of_nat (length values) < u64_bound)%Z ->
  encode_bound_map values = (kvs ← mapM decode_entry values; encode (Map kvs)).
Proof.
  intros Hk Hn.
  unfold encode_bound_map. rewrite mapM_bound_entry by done.
  destruct (mapM decode_entry values) as [kvs|e] eqn:Hd; [|done]. cbn [mbind result_bind].
  apply decode_entries_Ok in Hd as [-> Hok]. rewrite length_map in Hn.
  change (map ?f ?l) with (f <$> l) in Hk. apply Forall_fmap in Hk.
  rewrite map_map. cbn [fst snd].
  rewrite (encode_entries_spec (fun kv => text_wire kv.1)
    (fun kv output => Ok (output ++ wire kv.2)) (fun _ => true) (fun kv => wire kv.2)); [|done|].
  2:{ apply Forall_forall. intros kv _ out. done. }
  unfold encode. cbn [encode_item]. unfold encode_map.
  change (map ?f ?l) with (f <$> l).
  rewrite (mapM_Ok_map _ _ (fun kv => (text_wire kv.1, encode_item kv.2))).
  2:{ intros kv Hkv. rewrite Forall_forall in Hk. cbn. by rewrite encode_text_spec by (by apply Hk). }
  cbn [mbind result_bind].
  change (?f <$> ?l) with (map f l).
  rewrite (encode_entries_spec (fun kv => text_wire kv.1) (fun kv => encode_item kv.2)
    (fun _ => true) (fun kv => wire kv.2)); [done|done|].
  eapply Forall_impl; [exact Hok|]. intros kv Hv out.
  apply value_ok_canon in Hv as (Hty & Hdk & Hc). rewrite encode_item_spec, Hdk, Hc by done. done.
Qed.

(** Assembling a map from separately encoded fields ([encode_bound_map]) is
    encoding the map of their decoded values: the same bytes, [Invalid] for a
    repeated key, and the field's own decoding error when a field is not
    deterministic CBOR. *)
Theorem encode_bound_map_refines (values : list (string * list byte))
    (Hk : Forall (fun kv => text_ok kv.1 = true) values)
    (Hn : (Z.of_nat (length values) < u64_bound)%Z) :
  encode_bound_map values = (kvs ← mapM decode_entry values; encode (Map kvs)).
Proof. by apply encode_bound_map_decoded. Qed.

Lemma encode_bound_map_refines_witness :
  let values := [("b", bytes_of [0x81; 0x05]%Z); ("a", bytes_of [0xf6]%Z)] in
  encode_bound_map values = (kvs ← mapM decode_entry values; encode (Map kvs))
  /\ is_ok (encode_bound_map values) = true.
Proof.
  split; [|vm_compute; reflexivity].
  apply encode_bound_map_refines.
  - repeat constructor.
  - vm_compute. reflexivity.
Defined.
