(* ===== verification/WireMaps.v ===== *)
(** Values that encode: the two conditions of the encoder of [WireV2] as one
    test, closed under the constructors, and the assembly of a map from the
    encodings of its fields ([encode_bound_map]).  Every wire object of the
    runtime is built from these. *)
From S2P Require Import Prelude WireV2.
From Stdlib Require Import Ascii ZArith Lia Sorted.
From stdpp Require Import prelude strings list numbers.
Export stdpp.list_relations.list.

(** The two conditions of [encode_item_spec], together. *)
Definition encodable (v : Value) : bool := typed v && distinct_keys v.

Lemma encodable_Array vs :
  in_u64 (Z.of_nat (length vs)) = true -> forallb encodable vs = true -> encodable (Array vs) = true.
Proof.
  intros Hl Hvs. unfold encodable. cbn. rewrite Hl; cbn.
  rewrite forallb_Forall' in Hvs. apply andb_true_iff.
  split; apply forallb_Forall'; (eapply Forall_impl; [exact Hvs|]); cbn;
    intros v [? ?]%andb_true_iff; done.
Qed.
Lemma encodable_Map kvs :
  in_u64 (Z.of_nat (length kvs)) = true ->
  forallb (fun kv => text_ok kv.1) kvs = true ->
  bool_decide (NoDup kvs.*1) = true ->
  forallb (fun kv => encodable kv.2) kvs = true -> encodable (Map kvs) = true.
Proof.
  intros Hl Hk Hnd Hv. unfold encodable. cbn. rewrite Hl, Hnd; cbn.
  rewrite forallb_Forall' in Hk, Hv. rewrite Forall_forall in Hk, Hv.
  apply andb_true_iff; split; apply forallb_Forall', Forall_forall; intros kv Hkv;
    specialize (Hk kv Hkv); specialize (Hv kv Hkv); unfold encodable in Hv;
    apply andb_true_iff in Hv as [? ?]; [by apply andb_true_iff|done].
Qed.
Lemma encodable_Text s : text_ok s = true -> encodable (Text s) = true.
Proof. intros Hs. unfold encodable. cbn. by rewrite Hs. Qed.
Lemma encodable_Unsigned z : in_u64 z = true -> encodable (Unsigned z) = true.
Proof. intros Hz. unfold encodable. cbn. by rewrite Hz. Qed.
Lemma encodable_Bytes l : in_u64 (Z.of_nat (length l)) = true -> encodable (Bytes l) = true.
Proof. intros Hl. unfold encodable. cbn. by rewrite Hl. Qed.
Lemma encodable_encode v : encodable v = true -> encode v = Ok (wire (canon v)).
Proof. intros [? Hd]%andb_true_iff. unfold encode. by rewrite encode_item_spec, Hd. Qed.
Lemma encodable_map_Array {A} (f : A -> Value) l :
  in_u64 (Z.of_nat (length l)) = true -> Forall (fun a => encodable (f a) = true) l ->
  encodable (Array (map f l)) = true.
Proof.
  intros Hl Hf. apply encodable_Array; [by rewrite length_map|]. by apply forallb_Forall', Forall_fmap.
Qed.
(** What [encodable_Map] needs, read back. *)
Lemma encodable_Map_inv kvs :
  encodable (Map kvs) = true ->
  in_u64 (Z.of_nat (length kvs)) = true /\ Forall (fun kv => text_ok kv.1 = true) kvs
  /\ NoDup kvs.*1 /\ Forall (fun kv => encodable kv.2 = true) kvs.
Proof.
  unfold encodable; cbn. intros H. apply andb_true_iff in H as [H1 H2].
  apply andb_true_iff in H1 as [Hl H1%forallb_Forall'].
  apply andb_true_iff in H2 as [Hnd%bool_decide_eq_true H2%forallb_Forall'].
  split; [done|]. split; [|split; [done|]].
  - eapply Forall_impl; [exact H1|]. intros kv [? _]%andb_true_iff. done.
  - rewrite Forall_forall in H1. rewrite Forall_forall in H2. apply Forall_forall. intros kv Hkv.
    specialize (H1 kv Hkv). specialize (H2 kv Hkv). apply andb_true_iff in H1 as [_ ?].
    by apply andb_true_iff.
Qed.

Lemma encodable_canon_ok v : encodable v = true -> value_ok (canon v) = true.
Proof. intros [Ht Hd]%andb_true_iff. by apply canon_value_ok. Qed.
Lemma canon_ok_fixed v : value_ok v = true -> canon v = v.
Proof. intros (_ & _ & H)%value_ok_canon. done. Qed.
Lemma value_ok_encodable v : value_ok v = true -> encodable v = true.
Proof. intros (H1 & H2 & _)%value_ok_canon. by apply andb_true_iff. Qed.
Lemma wire_inj v w : value_ok v = true -> value_ok w = true -> wire v = wire w -> v = w.
Proof.
  intros Hv Hw Heq. assert (wire v ++ [] = wire w ++ []) as H by congruence.
  by apply wire_prefix_free in H as [? _].
Qed.

(** ** Maps assembled from the encodings of their fields *)

Definition canon_values (kvs : list (string * Value)) : list (string * Value) :=
  map (fun kv => (kv.1, canon kv.2)) kvs.
Definition field_bytes (kvs : list (string * Value)) : list (string * list byte) :=
  map (fun kv => (kv.1, wire (canon kv.2))) kvs.

Lemma decode_fields_inv kvs ds :
  Forall (fun kv => encodable kv.2 = true) kvs ->
  mapM decode_entry (field_bytes kvs) = Ok ds -> ds = canon_values kvs.
Proof.
  intros He (Hw & Hok)%decode_entries_Ok. revert ds Hw Hok.
  induction He as [|[k v] kvs Hv _ IH]; intros [|[k' d] ds] Hw Hok; try done.
  cbn in Hw. injection Hw as -> Hwd Hw. inversion Hok as [|? ? Hd Hds]; subst. cbn in *.
  f_equal; [|by apply IH]. f_equal. symmetry. apply wire_inj; [by apply encodable_canon_ok|done|done].
Qed.
Lemma decode_fields kvs :
  Forall (fun kv => encodable kv.2 = true) kvs ->
  Forall (fun kv => within_limits (canon kv.2) = true) kvs ->
  mapM decode_entry (field_bytes kvs) = Ok (canon_values kvs).
Proof.
  intros He Hl. induction He as [|[k v] kvs Hv _ IH]; [done|].
  inversion Hl as [|? ? Hlv Hls]; subst. 
  assert (decode_entry (k, wire (canon v)) = Ok (k, canon v)) as Hk.
  { unfold decode_entry; cbn [fst snd]. rewrite decode_wire; [done|by apply encodable_canon_ok|done]. }
  unfold field_bytes in *. cbn [map fst snd mapM]. rewrite Hk. cbn [mbind result_bind].
  rewrite IH by done. done.
Qed.
Lemma encode_canon_values kvs :
  encodable (Map kvs) = true -> encode (Map (canon_values kvs)) = Ok (wire (canon (Map kvs))).
Proof.
  intros He. pose proof (encodable_Map_inv kvs He) as (Hl & Hk & Hnd & Hv).
  assert (Hc : canon (Map (canon_values kvs)) = canon (Map kvs)).
  { cbn. unfold canon_values. rewrite map_map. do 2 f_equal. apply map_ext_Forall.
    eapply Forall_impl; [exact Hv|]. intros kv Hkv; cbn. f_equal. by apply canon_ok_fixed, encodable_canon_ok. }
  rewrite <- Hc. apply encodable_encode, encodable_Map.
  - unfold canon_values. by rewrite length_map.
  - apply forallb_Forall', Forall_fmap. exact Hk.
  - apply bool_decide_eq_true. unfold canon_values. change (map ?f kvs) with (f <$> kvs).
    rewrite <- list_fmap_compose. exact Hnd.
  - apply forallb_Forall', Forall_fmap. eapply Forall_impl; [exact Hv|]. intros kv Hkv; cbn.
    by apply value_ok_encodable, encodable_canon_ok.
Qed.

(** [encode_bound_map] on the encodings of the fields is the encoding of the map,
    when every field is within the decoder's limits; what it returns is never
    anything else. *)
Lemma encode_bound_map_fields kvs :
  encodable (Map kvs) = true ->
  (Forall (fun kv => within_limits (canon kv.2) = true) kvs ->
     encode_bound_map (field_bytes kvs) = Ok (wire (canon (Map kvs))))
  /\ (forall bytes, encode_bound_map (field_bytes kvs) = Ok bytes -> bytes = wire (canon (Map kvs))).
Proof.
  intros He. pose proof (encodable_Map_inv kvs He) as (Hl & Hk & Hnd & Hv).
  rewrite encode_bound_map_decoded.
  - split.
    + intros Hw. rewrite decode_fields by done. by apply encode_canon_values.
    + intros bytes (ds & ->%decode_fields_inv & Hb)%bind_Ok; [|done].
      rewrite encode_canon_values in Hb by done. congruence.
  - by apply Forall_fmap.
  - unfold field_bytes. rewrite length_map. apply in_u64_spec in Hl. lia.
Qed.

(** The fields of a map within the limits are within the limits. *)
Lemma elem_sum_list {A} (f : A -> Z) l x :
  (forall a, 0 <= f a)%Z -> x ∈ l -> (f x <= WireV2.sum_list (map f l))%Z.
Proof.
  intros Hf. assert (forall l, 0 <= WireV2.sum_list (map f l))%Z as Hpos.
  { intros k. unfold WireV2.sum_list. induction k as [|a k IH]; cbn; [lia|]. specialize (Hf a). lia. }
  intros Hx. induction Hx as [y k|y z k Hx IH]; unfold WireV2.sum_list in *; cbn.
  - specialize (Hpos k). lia.
  - specialize (Hf z). lia.
Qed.
Lemma elem_max_list {A} (f : A -> nat) l x : x ∈ l -> f x <= WireV2.max_list (map f l).
Proof. unfold WireV2.max_list. induction 1; cbn; lia. Qed.
Lemma elem_length_concat {A B} (f : A -> list B) l x :
  x ∈ l -> length (f x) <= length (concat (map f l)).
Proof. induction 1; cbn; rewrite length_app; lia. Qed.
Lemma within_limits_field kvs k v :
  within_limits (Map kvs) = true -> (k, v) ∈ kvs -> within_limits v = true.
Proof.
  intros (Hn & Hi & Hb)%within_limits_spec Hin. apply within_limits_spec. cbn in Hn, Hi, Hb.
  pose proof (elem_max_list (fun kv => S (nesting kv.2)) _ _ Hin) as Hn'.
  pose proof (elem_sum_list (fun kv => 1 + item_count kv.2)%Z kvs (k, v)) as Hi'.
  pose proof (elem_length_concat (fun kv => text_wire kv.1 ++ wire kv.2) _ _ Hin) as Hb'.
  cbn [fst snd] in *. rewrite length_app in Hb, Hb'. split; [lia|]. split; [|lia].
  specialize (Hi' ltac:(intros [k2 v2]; pose proof (item_count_pos [] v2); cbn; lia) Hin). lia.
Qed.
Lemma within_limits_fields kvs :
  within_limits (canon (Map kvs)) = true -> Forall (fun kv => within_limits (canon kv.2) = true) kvs.
Proof.
  intros Hw. apply Forall_forall. intros kv Hkv. apply (within_limits_field _ kv.1 (canon kv.2) Hw).
  rewrite sort_by_Permutation. apply list_elem_of_fmap. by exists kv.
Qed.

(** ** The size of a canonical form *)

Lemma sum_list_perm l k : l ≡ₚ k -> WireV2.sum_list l = WireV2.sum_list k.
Proof. unfold WireV2.sum_list. induction 1; cbn in *; lia. Qed.
Lemma item_count_canon v : item_count (canon v) = item_count v.
Proof.
  induction v as [z|z|b|s|vs IH|kvs IH|b|] using Value_rec_full; cbn [canon item_count]; try done.
  - do 2 f_equal. rewrite map_map. clear -IH. induction IH as [|v vs Hv _ IHvs]; cbn; [done|]. by rewrite Hv, IHvs.
  - f_equal. assert (Hp := sort_by_Permutation (fun l r : string * Value => key_lt l.1 r.1)
      (map (fun kv : string * Value => (kv.1, canon kv.2)) kvs)).
    etrans; [exact (sum_list_perm _ _ (fmap_Permutation (fun kv : string * Value => (1 + item_count kv.2)%Z) _ _ Hp))|].
    clear -IH. induction IH as [|v vs Hv _ IHvs]; [done|].
    cbn [map fmap list_fmap fst snd WireV2.sum_list foldr] in *. unfold WireV2.sum_list in *.
    cbn [foldr]. rewrite Hv. by f_equal.
Qed.
(** A bound on the length of the encoding: nine bytes for every head. *)
Definition text_length (s : string) : Z := Z.of_nat (length (String.list_ascii_of_string s)).
Fixpoint weight (v : Value) : Z :=
  match v with
  | Bytes b => (9 + Z.of_nat (length b))%Z
  | Text s => (9 + text_length s)%Z
  | Array vs => (9 + WireV2.sum_list (map weight vs))%Z
  | Map kvs => (9 + WireV2.sum_list (map (fun kv => 9 + text_length kv.1 + weight kv.2) kvs))%Z
  | _ => 9%Z
  end.
Lemma length_argument major a : (Z.of_nat (length (encode_argument major a [])) <= 9)%Z.
Proof. unfold encode_argument. repeat case_match; cbn [app length]; rewrite ?length_app, ?length_be_bytes; cbn; lia. Qed.
Lemma length_text_wire s : (Z.of_nat (length (text_wire s)) <= 9 + text_length s)%Z.
Proof. unfold text_wire, text_length. rewrite length_app. pose proof (length_argument 3 (text_length s)). unfold text_length in *. lia. Qed.
Lemma length_concat_perm {A} (l k : list (list A)) : l ≡ₚ k -> length (concat l) = length (concat k).
Proof. induction 1; cbn; rewrite ?length_app; lia. Qed.
Lemma length_wire_canon v : (Z.of_nat (length (wire (canon v))) <= weight v)%Z.
Proof.
  induction v as [z|z|b|s|vs IH|kvs IH|b|] using Value_rec_full; cbn [canon wire weight]; try apply length_argument; try done.
  - rewrite length_app. pose proof (length_argument 2 (Z.of_nat (length b))). lia.
  - apply length_text_wire.
  - rewrite length_app, map_map. pose proof (length_argument 4 (Z.of_nat (length (map canon vs)))).
    assert (Z.of_nat (length (concat (map (fun v => wire (canon v)) vs))) <= WireV2.sum_list (map weight vs))%Z; [|lia].
    clear -IH. induction IH as [|v vs Hv _ IHvs]; cbn; [done|]. rewrite length_app. unfold WireV2.sum_list in *. lia.
  - rewrite length_app. match goal with |- context [encode_argument 5 ?n []] => pose proof (length_argument 5 n) end.
    assert (Z.of_nat (length (concat (map (fun kv : string * Value => text_wire kv.1 ++ wire kv.2)
      (sort_by (fun l r : string * Value => key_lt l.1 r.1) (map (fun kv : string * Value => (kv.1, canon kv.2)) kvs)))))
      <= WireV2.sum_list (map (fun kv => 9 + text_length kv.1 + weight kv.2) kvs))%Z; [|lia].
    pose proof (sort_by_Permutation (fun l r : string * Value => key_lt l.1 r.1)
      (map (fun kv : string * Value => (kv.1, canon kv.2)) kvs)) as Hp.
    rewrite (length_concat_perm _ _ (Permutation_map _ Hp)). clear -IH.
    induction IH as [|kv kvs Hv _ IHvs]; cbn; [done|]. rewrite !length_app. pose proof (length_text_wire kv.1).
    unfold WireV2.sum_list in *. lia.
Qed.
Lemma max_list_perm l k : l ≡ₚ k -> WireV2.max_list l = WireV2.max_list k.
Proof. unfold WireV2.max_list. induction 1; cbn in *; lia. Qed.
Lemma nesting_canon v : nesting (canon v) = nesting v.
Proof.
  induction v as [z|z|b|s|vs IH|kvs IH|b|] using Value_rec_full; cbn [canon nesting]; try done.
  - rewrite map_map. f_equal. apply map_ext_in. intros v Hv. rewrite Forall_forall in IH.
    by rewrite IH by by apply list_elem_of_In.
  - etransitivity; [exact (max_list_perm _ _ (Permutation_map _ (sort_by_Permutation _ _)))|].
    rewrite map_map. f_equal. apply map_ext_in. intros kv Hkv. rewrite Forall_forall in IH. cbn.
    by rewrite IH by by apply list_elem_of_In.
Qed.
Lemma within_limits_canon v :
  nesting v <= MAX_DEPTH -> (item_count v <= MAX_ITEMS)%Z -> (weight v <= MAX_BYTES)%Z ->
  within_limits (canon v) = true.
Proof.
  intros Hn Hi Hw. apply within_limits_spec. rewrite nesting_canon, item_count_canon.
  pose proof (length_wire_canon v). lia.
Qed.

(** The encoding of a map is not JSON text. *)
Lemma map_head kvs : encodable (Map kvs) = true -> head (wire (canon (Map kvs))) <> Some "{"%char.
Proof.
  intros He%encodable_canon_ok%head_of_bounds.
  intros Hh.
  rewrite wire_head_body in Hh. cbn [canon head_of fst snd] in He, Hh.
  rewrite encode_argument_split in Hh by lia. cbn [app head] in Hh. injection Hh as Hh.
  destruct (initial_byte_parts 5 (arg_split
    (Z.of_nat (length (sort_by (fun l r => key_lt l.1 r.1) (map (fun kv => (kv.1, canon kv.2)) kvs))))).1)
    as (Hi & Hm & _); [lia|apply arg_split_additional; lia|].
  rewrite Hh in Hi. rewrite <- Hi in Hm. by vm_compute in Hm.
Qed.
