(* ===== verification/VerifyCbor.v ===== *)
(** The verifier's own deterministic-CBOR decoder,
    [proofbound-runtime-verify/src/cbor.rs].  The verifier does not share code
    with the producer, so this file translates its decoder separately and then
    proves that it agrees with the producer's decoder of [WireV2] on every input,
    which carries the acceptance theorem over to it. *)
From S2P Require Import Prelude.
From S2P Require WireV2 WireMaps.
From Stdlib Require Import Ascii ZArith Lia Sorted.
From stdpp Require Import prelude strings list numbers.
Export stdpp.list_relations.list.

Inductive Value :=
| Unsigned (value : Z)
| Negative (argument : Z)
| Bytes (value : list byte)
| Text (value : string)
| Array (values : list Value)
| Map (values : list (string * Value))
| Bool (value : bool)
| Null.

Inductive Error := Invalid | NonDeterministic | LimitExceeded.
#[global] Instance Error_eq_dec : EqDecision Error.
Proof. solve_decision. Defined.

Definition MAX_BYTES : Z := 16 * 1024 * 1024.
Definition MAX_DEPTH : nat := 128.
Definition MAX_ITEMS : Z := 1000000.

(** The composition and acceptance crates hold copies of this decoder in which
    every error is [()].  The decoder is therefore translated over the error type
    [E] of the crate and the name [error e] it has for each error. *)
Record Decoder := mkDecoder { offset : Z; items : Z }.
Definition Dec (E A : Type) : Type := Decoder -> result E (A * Decoder).
#[global] Instance Dec_ret E : MRet (Dec E) := fun A a s => Ok (a, s).
#[global] Instance Dec_bind E : MBind (Dec E) := fun A B f m s =>
  match m s with Ok (a, s) => f a s | Err e => Err e end.
Definition dec_fail {E A} (e : E) : Dec E A := fun _ => Err e.
Definition dec_lift {E A} (m : result E A) : Dec E A := fun s =>
  match m with Ok a => Ok (a, s) | Err e => Err e end.

Section decoder.
Context {E : Type} (error : Error -> E) (input : list byte).

Definition to_usize (value : Z) : result E Z := ok_or (try_from u64_bound value) (error LimitExceeded).
Definition bounded_count (value : Z) : result E Z :=
  value ← to_usize value;
  if (MAX_ITEMS <? value)%Z then Err (error LimitExceeded) else Ok value.

Definition take (length : Z) : Dec E (list byte) := fun s =>
  end_ ← ok_or (u64_checked_add (offset s) length) (error LimitExceeded);
  value ← ok_or (get_range input (offset s) end_) (error Invalid);
  Ok (value, mkDecoder end_ (items s)).

Definition argument_width (additional : Z) : result E (Z * Z) :=
  if (additional =? 24)%Z then Ok (1, 24)%Z
  else if (additional =? 25)%Z then Ok (2, Z.shiftl 1 8)%Z
  else if (additional =? 26)%Z then Ok (4, Z.shiftl 1 16)%Z
  else if (additional =? 27)%Z then Ok (8, Z.shiftl 1 32)%Z
  else if (additional =? 31)%Z then Err (error NonDeterministic)
  else Err (error Invalid).

Definition argument (additional : Z) : Dec E Z :=
  if (additional <? 24)%Z then mret additional
  else
    '(width, minimum) ← dec_lift (argument_width additional);
    bytes ← take width;
    (* [full[8 - width..].copy_from_slice(bytes)], then [u64::from_be_bytes] *)
    let value := be_value (replicate (8 - Z.to_nat width) (mkb 0) ++ bytes) in
    if (value <? minimum)%Z then dec_fail (error NonDeterministic) else mret value.

(** [for _ in 0..count { values.push(self.item(depth + 1)?) }] *)
Fixpoint push_items (item : Dec E Value) (count : nat) (values : list Value) : Dec E (list Value) :=
  match count with
  | O => mret values
  | S count => value ← item; push_items item count (values ++ [value])
  end.

(** The loop of [Decoder::map]. *)
Fixpoint map_entries (item : Dec E Value) (count : nat) (previous : option (list byte))
    (values : list (string * Value)) : Dec E (list (string * Value)) :=
  match count with
  | O => mret values
  | S count => fun s =>
    let key_start := offset s in
    '(key, s) ← item s;
    match key with
    | Text key =>
      key_encoding ← ok_or (get_range input key_start (offset s)) (error Invalid);
      if match previous with Some previous => rle key_encoding previous | None => false end
      then Err (error NonDeterministic)
      else
        '(value, s) ← item s;
        map_entries item count (Some key_encoding) (values ++ [(key, value)]) s
    | _ => Err (error Invalid)
    end
  end.

Definition decode_map (item : Dec E Value) (arg : Z) : Dec E Value :=
  count ← dec_lift (bounded_count arg);
  values ← map_entries item (Z.to_nat count) None [];
  mret (Map values).

Definition simple_value (additional : Z) : result E Value :=
  if (additional =? 20)%Z then Ok (Bool false)
  else if (additional =? 21)%Z then Ok (Bool true)
  else if (additional =? 22)%Z then Ok Null
  else Err (error Invalid).

(** [match major] of [item]; [item] is the recursive call at the next depth. *)
Definition item_major (item : Dec E Value) (major arg : Z) : Dec E Value :=
  if (major =? 0)%Z then mret (Unsigned arg)
  else if (major =? 1)%Z then mret (Negative arg)
  else if (major =? 2)%Z then
    length ← dec_lift (to_usize arg); bytes ← take length; mret (Bytes bytes)
  else if (major =? 3)%Z then
    length ← dec_lift (to_usize arg);
    bytes ← take length;
    text ← dec_lift (ok_or (from_utf8 bytes) (error Invalid));
    mret (Text text)
  else if (major =? 4)%Z then
    count ← dec_lift (bounded_count arg);
    values ← push_items item (Z.to_nat count) [];
    mret (Array values)
  else if (major =? 5)%Z then decode_map item arg
  else dec_fail (error Invalid).

(** The part of [item] behind the initial byte. *)
Definition item_body (item : Dec E Value) (initial : Z) : Dec E Value :=
  let major := Z.shiftr initial 5 in
  let additional := Z.land initial 0x1f in
  if (major =? 7)%Z then dec_lift (simple_value additional)
  else arg ← argument additional; item_major item major arg.

Fixpoint item (fuel : nat) (depth : nat) : Dec E Value :=
  match fuel with
  | O => dec_fail (error LimitExceeded)
  | S fuel => fun s =>
    if bool_decide (MAX_DEPTH < depth) || (MAX_ITEMS <=? items s)%Z then Err (error LimitExceeded)
    else
      let s := mkDecoder (offset s) (items s + 1) in
      '(first, s) ← take 1 s;
      initial ← ok_or (head first) (error Invalid);
      item_body (item fuel (S depth)) (bval initial) s
  end.

Definition item_fuel (depth : nat) : nat := MAX_DEPTH + 2 - depth.

Definition decode_with : result E Value :=
  if bool_decide (input = []) || (MAX_BYTES <? Z.of_nat (length input))%Z then Err (error LimitExceeded)
  else
    '(value, s) ← item (item_fuel 0) 0 (mkDecoder 0 0);
    if negb (offset s =? Z.of_nat (length input))%Z then Err (error Invalid) else Ok value.
End decoder.

(** The decoder of the verifier. *)
Definition decode : list byte -> result Error Value := decode_with id.


(** * Agreement with the producer's decoder *)

Fixpoint core_value (v : Value) : WireV2.Value :=
  match v with
  | Unsigned value => WireV2.Unsigned value
  | Negative argument => WireV2.Negative argument
  | Bytes value => WireV2.Bytes value
  | Text value => WireV2.Text value
  | Array values => WireV2.Array (map core_value values)
  | Map values => WireV2.Map (map (fun kv => (kv.1, core_value kv.2)) values)
  | Bool value => WireV2.Bool value
  | Null => WireV2.Null
  end.
Definition core_error (e : Error) : WireV2.Error :=
  match e with
  | Invalid => WireV2.Invalid
  | NonDeterministic => WireV2.NonDeterministic
  | LimitExceeded => WireV2.LimitExceeded
  end.
Definition core_state (s : Decoder) : WireV2.Decoder := WireV2.mkDecoder (offset s) (items s).
Definition core_result {A B} (f : A -> B) (m : result Error A) : result WireV2.Error B :=
  match m with Ok a => Ok (f a) | Err e => Err (core_error e) end.
(** [n] does to the producer's state what [m] does to the verifier's. *)
Definition agree {A B} (f : A -> B) (m : Dec Error A) (n : WireV2.Dec B) : Prop :=
  forall s, n (core_state s) = core_result (fun p => (f p.1, core_state p.2)) (m s).

Lemma agree_ret {A B} (f : A -> B) a b : b = f a -> agree f (mret a) (mret b).
Proof. by intros -> s. Qed.
Lemma agree_lift {A B} (f : A -> B) m n :
  n = core_result f m -> agree f (dec_lift m) (WireV2.dec_lift n).
Proof. intros -> s. by destruct m. Qed.
Lemma agree_fail {A B} (f : A -> B) e : agree f (dec_fail e) (WireV2.dec_fail (core_error e)).
Proof. done. Qed.
Lemma agree_bind {A B C D} (f : A -> B) (g : C -> D) m n (k : A -> Dec Error C) (l : B -> WireV2.Dec D) :
  agree f m n -> (forall a, agree g (k a) (l (f a))) -> agree g (m ≫= k) (n ≫= l).
Proof.
  intros Hm Hk s. unfold mbind, Dec_bind, WireV2.Dec_bind. rewrite Hm.
  destruct (m s) as [[a s']|e]; cbn; [apply Hk|done].
Qed.
Lemma agree_if {A B} (f : A -> B) (b : bool) m n m' n' :
  agree f m n -> agree f m' n' -> agree f (if b then m else m') (if b then n else n').
Proof. by destruct b. Qed.

Lemma to_usize_agree z : WireV2.to_usize z = core_result id (to_usize id z).
Proof. unfold to_usize, WireV2.to_usize. by destruct (try_from _ _). Qed.
Lemma bounded_count_agree z : WireV2.bounded_count z = core_result id (bounded_count id z).
Proof.
  unfold bounded_count, WireV2.bounded_count. rewrite to_usize_agree.
  destruct (to_usize id z); cbn; [|done]. by destruct (_ <? _)%Z.
Qed.

Section agreement.
Context (input : list byte).

Lemma take_agree n : agree id (take id input n) (WireV2.take input n).
Proof.
  intros s. unfold take, WireV2.take; cbn. destruct (u64_checked_add _ _); cbn; [|done].
  by destruct (get_range _ _ _).
Qed.
Lemma argument_agree additional :
  agree id (argument id input additional) (WireV2.argument input additional).
Proof.
  unfold argument, WireV2.argument. apply agree_if; [by apply agree_ret|].
  eapply (agree_bind id).
  - apply agree_lift. unfold argument_width, WireV2.argument_width. by repeat case_match.
  - intros [width minimum]. eapply (agree_bind id); [apply take_agree|]. intros bytes.
    apply agree_if; [apply agree_fail|by apply agree_ret].
Qed.

Section items.
Context (rec : Dec Error Value) (rec' : WireV2.Dec WireV2.Value).
Hypothesis rec_agree : agree core_value rec rec'.

Lemma push_items_agree n acc :
  agree (map core_value) (push_items rec n acc) (WireV2.push_items rec' n (map core_value acc)).
Proof.
  revert acc. induction n as [|n IH]; intros acc; cbn; [by apply agree_ret|].
  eapply agree_bind; [exact rec_agree|]. intros v.
  replace (map core_value acc ++ [core_value v]) with (map core_value (acc ++ [v])) by apply map_app.
  apply IH.
Qed.
Definition core_entries : list (string * Value) -> list (string * WireV2.Value) :=
  map (fun kv => (kv.1, core_value kv.2)).
Lemma map_entries_agree n prev acc :
  agree core_entries (map_entries id input rec n prev acc)
    (WireV2.map_entries input rec' n prev (core_entries acc)).
Proof.
  revert prev acc. induction n as [|n IH]; intros prev acc s; cbn; [done|].
  rewrite rec_agree. destruct (rec s) as [[k s1]|e]; cbn; [|done].
  destruct k; cbn; try done. destruct (get_range _ _ _); cbn; [|done].
  destruct (match prev with Some _ => _ | None => _ end); cbn; [done|].
  rewrite rec_agree. destruct (rec s1) as [[v s2]|e]; cbn; [|done].
  rewrite <- IH. do 2 f_equal. unfold core_entries. by rewrite map_app.
Qed.
Lemma item_body_agree initial :
  agree core_value (item_body id input rec initial) (WireV2.item_body input rec' initial).
Proof.
  unfold item_body, WireV2.item_body. apply agree_if.
  { apply agree_lift. unfold simple_value, WireV2.simple_value. by repeat case_match. }
  eapply (agree_bind id); [apply argument_agree|]. intros arg.
  unfold item_major, WireV2.item_major, decode_map, WireV2.decode_map, id.
  repeat apply agree_if; try apply agree_fail; try (by apply agree_ret).
  - eapply (agree_bind id); [apply agree_lift, to_usize_agree|]. intros n.
    eapply (agree_bind id); [apply take_agree|]. intros bs. by apply agree_ret.
  - eapply (agree_bind id); [apply agree_lift, to_usize_agree|]. intros n.
    eapply (agree_bind id); [apply take_agree|]. intros bs.
    eapply (agree_bind id); [apply agree_lift; unfold id; by destruct (from_utf8 bs)|].
    intros t. by apply agree_ret.
  - eapply (agree_bind id); [apply agree_lift, bounded_count_agree|]. intros n.
    eapply agree_bind; [apply (push_items_agree _ [])|]. intros vs. by apply agree_ret.
  - eapply (agree_bind id); [apply agree_lift, bounded_count_agree|]. intros n.
    eapply agree_bind; [apply (map_entries_agree _ _ [])|]. intros vs. by apply agree_ret.
Qed.
End items.

Lemma item_agree fuel depth :
  agree core_value (item id input fuel depth) (WireV2.item input fuel depth).
Proof.
  revert depth. induction fuel as [|fuel IH]; intros depth s; [done|].
  cbn [item WireV2.item].
  change (WireV2.items (core_state s)) with (items s).
  change WireV2.MAX_DEPTH with MAX_DEPTH. change WireV2.MAX_ITEMS with MAX_ITEMS.
  destruct (_ || _); [done|].
  change (WireV2.mkDecoder (WireV2.offset (core_state s)) (items s + 1))
    with (core_state (mkDecoder (offset s) (items s + 1))).
  rewrite take_agree. destruct (take _ _ _ _) as [[first s1]|e]; cbn [core_result mbind result_bind]; [|done].
  cbn [fst snd id]. destruct (head first); cbn [ok_or mbind result_bind]; [|done].
  apply item_body_agree, IH.
Qed.

Lemma decode_agree : WireV2.decode input = core_result core_value (decode input).
Proof.
  unfold decode, decode_with, WireV2.decode.
  change WireV2.MAX_BYTES with MAX_BYTES. destruct (_ || _); [done|].
  change (WireV2.item_fuel 0) with (item_fuel 0).
  change (WireV2.mkDecoder 0 0) with (core_state (mkDecoder 0 0)).
  rewrite item_agree.
  destruct (item _ _ _ _ _) as [[v s]|e]; cbn [core_result mbind result_bind fst snd]; [|done].
  change (WireV2.offset (core_state s)) with (offset s). by destruct (negb _).
Qed.
End agreement.

(** * Reading the producer's values *)

Fixpoint seen (v : WireV2.Value) : Value :=
  match v with
  | WireV2.Unsigned z => Unsigned z
  | WireV2.Negative z => Negative z
  | WireV2.Bytes b => Bytes b
  | WireV2.Text s => Text s
  | WireV2.Array vs => Array (map seen vs)
  | WireV2.Map kvs => Map (map (fun kv => (kv.1, seen kv.2)) kvs)
  | WireV2.Bool b => Bool b
  | WireV2.Null => Null
  end.
Lemma core_value_seen v : core_value (seen v) = v.
Proof.
  induction v as [| | | |vs IH|kvs IH| |] using WireV2.Value_rec_full; cbn; try done.
  - f_equal. rewrite map_map. induction IH as [|v vs Hv _ IH]; cbn; congruence.
  - f_equal. rewrite map_map. induction IH as [|[k v] kvs Hv _ IH]; cbn in *; congruence.
Qed.
Lemma core_value_inj v w : core_value v = w -> v = seen w.
Proof.
  intros <-. revert v. fix IH 1. intros [z|z|b|s|vs|kvs|b|]; cbn; try reflexivity.
  - f_equal. induction vs as [|v vs IHv]; cbn; [reflexivity|]. f_equal; [apply IH|exact IHv].
  - f_equal. induction kvs as [|[k v] kvs IHv]; cbn; [reflexivity|]. f_equal; [f_equal; apply IH|exact IHv].
Qed.

(** What the verifier decodes of the producer's encoding. *)
Definition lift (v : WireV2.Value) : Value := seen (WireV2.canon v).
Lemma decode_lift v :
  WireMaps.encodable v = true ->
  decode (WireV2.wire (WireV2.canon v))
  = if WireV2.within_limits (WireV2.canon v) then Ok (lift v) else decode (WireV2.wire (WireV2.canon v)).
Proof.
  intros He. destruct (WireV2.within_limits _) eqn:Hl; [|done].
  pose proof (WireV2.decode_wire _ (WireMaps.encodable_canon_ok v He) Hl) as Hd.
  rewrite decode_agree in Hd. destruct (decode _) as [w|e]; cbn in Hd; [|done].
  injection Hd as Hd. f_equal. by apply core_value_inj.
Qed.
Lemma decode_too_large v :
  WireMaps.encodable v = true -> WireV2.within_limits (WireV2.canon v) = false ->
  exists e, decode (WireV2.wire (WireV2.canon v)) = Err e.
Proof.
  intros He Hl. destruct (decode _) as [w|e] eqn:Hd; [|by eexists]. exfalso.
  assert (WireV2.decode (WireV2.wire (WireV2.canon v)) = Ok (core_value w)) as Hc
    by (rewrite decode_agree, Hd; done).
  apply WireV2.decode_iff in Hc as (Hok & Hw & Heq).
  apply WireMaps.wire_inj in Heq; [|done|by apply WireMaps.encodable_canon_ok]. congruence.
Qed.

(** * The copies of the decoder *)

Section copies.
Context {E : Type} (error : Error -> E) (input : list byte).

(** [m] is [n] with the errors renamed. *)
Definition renames {A} (m : Dec E A) (n : Dec Error A) : Prop := forall s, m s = map_err error (n s).
Lemma renames_ret {A} (a : A) : renames (mret a) (mret a).
Proof. done. Qed.
Lemma renames_lift {A} (m : result E A) n : m = map_err error n -> renames (dec_lift m) (dec_lift n).
Proof. intros -> s. by destruct n. Qed.
Lemma renames_fail {A} e : renames (A := A) (dec_fail (error e)) (dec_fail e).
Proof. done. Qed.
Lemma renames_bind {A B} (m : Dec E A) n (k : A -> Dec E B) l :
  renames m n -> (forall a, renames (k a) (l a)) -> renames (m ≫= k) (n ≫= l).
Proof.
  intros Hm Hk s. unfold mbind, Dec_bind. rewrite Hm. destruct (n s) as [[a s']|e]; cbn; [apply Hk|done].
Qed.
Lemma renames_if {A} (b : bool) (m m' : Dec E A) n n' :
  renames m n -> renames m' n' -> renames (if b then m else m') (if b then n else n').
Proof. by destruct b. Qed.
Lemma to_usize_renames z : to_usize error z = map_err error (to_usize id z).
Proof. unfold to_usize. by destruct (try_from _ _). Qed.
Lemma bounded_count_renames z : bounded_count error z = map_err error (bounded_count id z).
Proof.
  unfold bounded_count. rewrite to_usize_renames. destruct (to_usize id z); cbn; [|done]. by destruct (_ <? _)%Z.
Qed.
Lemma take_renames n : renames (take error input n) (take id input n).
Proof.
  intros s. unfold take. destruct (u64_checked_add _ _); cbn; [|done]. by destruct (get_range _ _ _).
Qed.
Lemma argument_renames additional : renames (argument error input additional) (argument id input additional).
Proof.
  unfold argument. apply renames_if; [apply renames_ret|]. apply renames_bind.
  - apply renames_lift. unfold argument_width. by repeat case_match.
  - intros [width minimum]. apply renames_bind; [apply take_renames|]. intros bytes.
    apply renames_if; [apply renames_fail|apply renames_ret].
Qed.
Section items.
Context (rec : Dec E Value) (rec' : Dec Error Value) (Hrec : renames rec rec').
Lemma push_items_renames n acc : renames (push_items rec n acc) (push_items rec' n acc).
Proof.
  revert acc. induction n as [|n IH]; intros acc; cbn; [apply renames_ret|].
  apply renames_bind; [exact Hrec|]. intros v. apply IH.
Qed.
Lemma map_entries_renames n prev acc :
  renames (map_entries error input rec n prev acc) (map_entries id input rec' n prev acc).
Proof.
  revert prev acc. induction n as [|n IH]; intros prev acc s; cbn; [done|].
  rewrite Hrec. destruct (rec' s) as [[k s1]|e]; cbn; [|done]. destruct k; cbn; try done.
  destruct (get_range _ _ _); cbn; [|done]. destruct (match prev with Some _ => _ | None => _ end); cbn; [done|].
  rewrite Hrec. destruct (rec' s1) as [[v s2]|e]; cbn; [|done]. apply IH.
Qed.
Lemma item_body_renames initial : renames (item_body error input rec initial) (item_body id input rec' initial).
Proof.
  unfold item_body. apply renames_if; [apply renames_lift; unfold simple_value; by repeat case_match|].
  apply renames_bind; [apply argument_renames|]. intros arg. unfold item_major, decode_map.
  repeat apply renames_if; try apply renames_fail; try apply renames_ret.
  - apply renames_bind; [apply renames_lift, to_usize_renames|]. intros n.
    apply renames_bind; [apply take_renames|]. intros bs. apply renames_ret.
  - apply renames_bind; [apply renames_lift, to_usize_renames|]. intros n.
    apply renames_bind; [apply take_renames|]. intros bs.
    apply renames_bind; [apply renames_lift; by destruct (from_utf8 bs)|]. intros text. apply renames_ret.
  - apply renames_bind; [apply renames_lift, bounded_count_renames|]. intros n.
    apply renames_bind; [apply push_items_renames|]. intros vs. apply renames_ret.
  - apply renames_bind; [apply renames_lift, bounded_count_renames|]. intros n.
    apply renames_bind; [apply map_entries_renames|]. intros vs. apply renames_ret.
Qed.
End items.
Lemma item_renames fuel depth : renames (item error input fuel depth) (item id input fuel depth).
Proof.
  revert depth. induction fuel as [|fuel IH]; intros depth s; [done|]. cbn [item]. destruct (_ || _); [done|].
  rewrite take_renames. destruct (take id _ _ _) as [[first s1]|e]; cbn [map_err mbind result_bind]; [|done].
  destruct (head first); cbn [ok_or mbind result_bind]; [|done]. apply item_body_renames, IH.
Qed.
(** A copy decodes what the verifier decodes. *)
Lemma decode_with_renames : decode_with error input = map_err error (decode input).
Proof.
  unfold decode, decode_with. destruct (_ || _); [done|]. rewrite item_renames.
  destruct (item id _ _ _ _) as [[v s]|e]; cbn [map_err mbind result_bind]; [|done]. by destruct (negb _).
Qed.
End copies.

(** * Properties *)

(** C33: the two independent decoders agree on every byte string: the verifier
    accepts what the producer's decoder accepts, with the same value, and
    refuses everything else with the same error. *)
Theorem verifier_decoder_agrees (input : list byte) :
  WireV2.decode input
  = match decode input with
    | Ok v => Ok (core_value v)
    | Err e => Err (core_error e)
    end.
Proof. apply decode_agree. Qed.

(** What the producer encodes, the verifier reads: for a value without
    repeated keys and within the limits, the verifier decodes the producer's
    bytes to the canonical form of that value, and two inputs it decodes to the
    same value are the same bytes. *)
Theorem verifier_reads_producer (v : WireV2.Value)
    (Hty : WireV2.typed v = true) (Hd : WireV2.distinct_keys v = true)
    (Hl : WireV2.within_limits (WireV2.canon v) = true) :
  exists bytes w, WireV2.encode v = Ok bytes /\ decode bytes = Ok w
    /\ core_value w = WireV2.canon v
    /\ forall other, decode other = Ok w -> other = bytes.
Proof.
  pose proof (WireV2.canon_value_ok v Hty Hd) as Hok.
  pose proof (WireV2.decode_wire _ Hok Hl) as Hdec. rewrite decode_agree in Hdec.
  destruct (decode (WireV2.wire (WireV2.canon v))) as [w|e] eqn:Hw; cbn in Hdec; [|done].
  injection Hdec as Hcw. exists (WireV2.wire (WireV2.canon v)), w.
  split; [unfold WireV2.encode; by rewrite WireV2.encode_item_spec, Hd|].
  split; [done|]. split; [done|]. intros other Ho.
  assert (WireV2.decode other = Ok (core_value w)) as Hdo by (rewrite decode_agree, Ho; done).
  apply WireV2.decode_iff in Hdo as (_ & _ & <-). congruence.
Qed.

Lemma verifier_reads_producer_witness :
  exists bytes w, WireV2.encode WireV2.example_value = Ok bytes /\ decode bytes = Ok w.
Proof.
  destruct (verifier_reads_producer WireV2.example_value eq_refl eq_refl eq_refl)
    as (bytes & w & He & Hd & _). exists bytes, w. split; [exact He|exact Hd].
Defined.
