(* ===== verification/Policy.v ===== *)
(** The compiled Linux policy of [proofbound-runtime-core/src/policy.rs]:
    compilation of a normalized authority, its attenuation test and its
    deterministic-CBOR encoding.  [Option::expect] panics, so [wire_value] is
    partial: [None] is the panic, which [canonical_bytes] never reaches. *)
From S2P Require Import Prelude Authority Normalize WireV2 WireMaps.
From Stdlib Require Import Ascii ZArith Lia Sorted.
From stdpp Require Import prelude strings list numbers.
Export stdpp.list_relations.list.

Definition POLICY_MODEL_VERSION_V1 : string := "proofbound-runtime-linux-policy/1".
Definition POLICY_MODEL_VERSION_V2 : string := "proofbound-runtime-linux-policy/2".

Inductive PolicyEncodingError := UnsupportedVersion | CanonicalEncoding.
#[global] Instance PolicyEncodingError_eq_dec : EqDecision PolicyEncodingError.
Proof. solve_decision. Defined.
Definition PolicyEncodingError_code (e : PolicyEncodingError) : string :=
  match e with
  | UnsupportedVersion => "policy.schema.unsupported-version"
  | CanonicalEncoding => "policy.encoding.canonical-failed"
  end.

Record FilesystemPolicy := mkFilesystemPolicy { rules : list PathAuthority }.
Inductive SeccompPolicy := DenyNetworkV1.
Record CgroupPolicy := mkCgroupPolicy { cgroup_limits : ResourceLimits }.
Inductive NoNewPrivileges := Required.
#[global] Instance SeccompPolicy_eq_dec : EqDecision SeccompPolicy.
Proof. solve_decision. Defined.
#[global] Instance NoNewPrivileges_eq_dec : EqDecision NoNewPrivileges.
Proof. solve_decision. Defined.

Record CompiledPolicy := mkCompiledPolicy {
  filesystem : FilesystemPolicy;
  cp_environment : list EnvironmentName;
  cp_network : SeccompPolicy;
  cgroup : CgroupPolicy;
  no_new_privileges : NoNewPrivileges
}.

Definition CompiledPolicy_model_version (p : CompiledPolicy) : string :=
  if is_version_two (cgroup_limits (cgroup p)) then POLICY_MODEL_VERSION_V2
  else POLICY_MODEL_VERSION_V1.

(** The helpers [map] and [text]. *)
Definition wire_map (entries : list (string * Value)) : Value :=
  Map (map (fun kv => (kv.1, kv.2)) entries).
Definition wire_text (value : string) : Value := Text value.

Definition file_access_name (a : FileAccess) : string :=
  match a with Read => "read" | Write => "write" | Execute => "execute" end.
Definition path_role_name (r : PathRole) : string :=
  match r with
  | ProjectInput => "project-input"
  | OutputRoot => "output-root"
  | RuntimeExecutable => "runtime-executable"
  | RuntimeLoaderExecutable => "runtime-loader-executable"
  | RuntimeLibrary => "runtime-library"
  end.

(** The array elements of [wire_value]. *)
Definition rule_value (rule : PathAuthority) : Value :=
  wire_map
    [("path", wire_text (AuthorityPath_as_str (pa_path rule)));
     ("role", wire_text (path_role_name (pa_role rule)));
     ("access", wire_text (file_access_name (pa_access rule)))].
Definition name_value (name : EnvironmentName) : Value := wire_text (EnvironmentName_as_str name).

(** The [cgroup] field. *)
Definition cgroup_value (l : ResourceLimits) (m : MemoryByteLimit) (s : SwapByteLimit) : Value :=
  wire_map
    [("pids.max", Unsigned (ProcessLimit_get (processes l)));
     ("memory.max", Unsigned (MemoryByteLimit_get m));
     ("memory.oom.group", Unsigned 1);
     ("memory.swap.max", Unsigned (SwapByteLimit_get s));
     ("stderr_bytes", Unsigned (OutputByteLimit_get (stderr l)));
     ("stdout_bytes", Unsigned (OutputByteLimit_get (stdout l)));
     ("wall_time_ms", Unsigned (WallTimeLimit_milliseconds (wall_time l)))].

Definition CompiledPolicy_wire_value (p : CompiledPolicy) : option Value :=
  let limits := cgroup_limits (cgroup p) in
  m ← memory limits;
  s ← swap_limit limits;
  Some (wire_map
    [("schema", wire_text POLICY_MODEL_VERSION_V2);
     ("cgroup", cgroup_value limits m s);
     ("network", wire_text "deny-network-v1");
     ("filesystem", Array (map rule_value (rules (filesystem p))));
     ("environment", Array (map name_value (cp_environment p)));
     ("no_new_privileges", Bool true)]).

Definition CompiledPolicy_canonical_bytes (p : CompiledPolicy) :
    option (result PolicyEncodingError (list byte)) :=
  if negb (is_version_two (cgroup_limits (cgroup p))) then Some (Err UnsupportedVersion)
  else
    v ← CompiledPolicy_wire_value p;
    Some (map_err (fun _ => CanonicalEncoding) (encode v)).

Definition CompiledPolicy_is_no_more_permissive_than (p : CompiledPolicy)
    (authority : NormalizedAuthority) : bool :=
  all_contained (rules (filesystem p)) (paths authority)
  && all_contained (cp_environment p) (environment authority)
  && ResourceLimits_is_no_more_permissive_than (cgroup_limits (cgroup p)) (limits authority)
  && bool_decide (cp_network p = DenyNetworkV1)
  && bool_decide (no_new_privileges p = Required).

Definition compile_policy (authority : NormalizedAuthority) : CompiledPolicy :=
  let '(paths, environment, limits, _) := NormalizedAuthority_into_parts authority in
  mkCompiledPolicy (mkFilesystemPolicy paths) environment DenyNetworkV1
    (mkCgroupPolicy limits) Required.

(** * Ranges

    What Rust's types and the constructors enforce on the values of a policy. *)

Definition ResourceLimits_typed (l : ResourceLimits) : bool :=
  in_u64 (ProcessLimit_get (processes l))
  && in_u64 (WallTimeLimit_milliseconds (wall_time l))
  && in_u64 (OutputByteLimit_get (stdout l)) && in_u64 (OutputByteLimit_get (stderr l))
  && match memory l with Some m => in_u64 (MemoryByteLimit_get m) | None => true end
  && match swap_limit l with Some s => in_u64 (SwapByteLimit_get s) | None => true end.
Definition text_mirrored (t : AuthorityText) : bool :=
  bool_decide (at_bytes t = String.list_ascii_of_string (at_text t)) && text_ok (at_text t).
Definition CompiledPolicy_typed (p : CompiledPolicy) : bool :=
  forallb (fun r => text_mirrored (path_text (pa_path r))) (rules (filesystem p))
  && forallb (fun n => text_mirrored (name_text n)) (cp_environment p)
  && in_u64 (Z.of_nat (length (rules (filesystem p))))
  && in_u64 (Z.of_nat (length (cp_environment p)))
  && ResourceLimits_typed (cgroup_limits (cgroup p)).

(** * Encodability of the fixed-shape maps *)

Lemma wire_map_eq entries : wire_map entries = Map entries.
Proof. unfold wire_map. f_equal. induction entries as [|[k v] l IH]; cbn; congruence. Qed.
Lemma encodable_map entries :
  in_u64 (Z.of_nat (length entries)) = true ->
  forallb (fun kv => text_ok kv.1) entries = true ->
  bool_decide (NoDup entries.*1) = true ->
  forallb (fun kv => encodable kv.2) entries = true -> encodable (wire_map entries) = true.
Proof. rewrite wire_map_eq. apply encodable_Map. Qed.
Lemma encodable_text s : text_ok s = true -> encodable (wire_text s) = true.
Proof. apply encodable_Text. Qed.

(** Solves [encodable] for a literal map: the keys by computation, the values by
    the lemmas above. *)
Ltac solve_encodable :=
  repeat match goal with
  | |- encodable (wire_map _) = true =>
    apply encodable_map; [reflexivity|vm_compute; reflexivity|vm_compute; reflexivity|cbn [forallb fst snd]]
  | |- encodable (wire_text _) = true => apply encodable_text
  | |- encodable (Unsigned _) = true => apply encodable_Unsigned
  | |- encodable (Bool _) = true => reflexivity
  | |- encodable Null = true => reflexivity
  | |- _ && _ = true => apply andb_true_iff; split
  | |- true = true => reflexivity
  | |- text_ok _ = true => reflexivity
  | |- _ = true => assumption
  | |- in_u64 1 = true => reflexivity
  end.

Lemma text_mirrored_spec t :
  text_mirrored t = true -> AuthorityText_ok t /\ text_ok (at_text t) = true.
Proof. unfold text_mirrored. rewrite andb_true_iff, bool_decide_eq_true. done. Qed.

Lemma rule_value_encodable r :
  text_mirrored (path_text (pa_path r)) = true -> encodable (rule_value r) = true.
Proof.
  intros [_ Ht]%text_mirrored_spec. unfold rule_value, AuthorityPath_as_str. solve_encodable.
  - by destruct (pa_role r).
  - by destruct (pa_access r).
Qed.
Lemma name_value_encodable n :
  text_mirrored (name_text n) = true -> encodable (name_value n) = true.
Proof. intros [_ Ht]%text_mirrored_spec. by apply encodable_text. Qed.
Lemma cgroup_value_encodable l m s :
  ResourceLimits_typed l = true -> memory l = Some m -> swap_limit l = Some s ->
  encodable (cgroup_value l m s) = true.
Proof.
  unfold ResourceLimits_typed. intros Hl Hm Hs. rewrite Hm, Hs in Hl. split_andb.
  unfold cgroup_value. solve_encodable.
Qed.
Lemma forallb_map_encodable {A} (ok : A -> bool) (f : A -> Value) l :
  (forall a, ok a = true -> encodable (f a) = true) -> forallb ok l = true ->
  forallb encodable (map f l) = true.
Proof.
  intros Hf Hl. apply forallb_Forall', Forall_fmap. apply forallb_Forall' in Hl.
  eapply Forall_impl; [exact Hl|]. exact Hf.
Qed.

Lemma wire_value_encodable p v :
  CompiledPolicy_typed p = true -> CompiledPolicy_wire_value p = Some v -> encodable v = true.
Proof.
  unfold CompiledPolicy_typed, CompiledPolicy_wire_value. intros Hp Hv. split_andb.
  apply bind_Some in Hv as (m & Hm & Hv). apply bind_Some in Hv as (s & Hs & [= <-]).
  solve_encodable.
  - by apply cgroup_value_encodable.
  - apply encodable_Array; [by rewrite length_map|].
    by eapply forallb_map_encodable; [apply rule_value_encodable|].
  - apply encodable_Array; [by rewrite length_map|].
    by eapply forallb_map_encodable; [apply name_value_encodable|].
Qed.

Lemma is_version_two_spec l :
  is_version_two l = true <-> exists m s, memory l = Some m /\ swap_limit l = Some s.
Proof.
  unfold is_version_two. rewrite andb_true_iff, !bool_decide_eq_true. unfold is_Some. naive_solver.
Qed.

(** * Attenuation *)

Lemma CompiledPolicy_no_more_spec p na :
  CompiledPolicy_is_no_more_permissive_than p na = true <->
  rules (filesystem p) ⊆ paths na /\ cp_environment p ⊆ environment na
  /\ no_more (cgroup_limits (cgroup p)) (limits na) = true.
Proof.
  unfold CompiledPolicy_is_no_more_permissive_than.
  rewrite !andb_true_iff, !all_contained_subseteq, !bool_decide_eq_true.
  destruct (cp_network p), (no_new_privileges p). unfold no_more, ResourceLimits_attenuates. tauto.
Qed.

(** C29: compilation never amplifies.  For every validated plan, normalizing and
    compiling succeeds, and the compiled policy grants exactly the plan's path
    authorities, environment names and limits, denies the network and requires
    [no_new_privs]; the code's own attenuation test accepts it against the
    normalized authority, and against no authority that lacks one of the rules,
    one of the names, or a limit as large. *)
Theorem compile_policy_preserves_authority (plan : AuthorityPlan) (Hok : AuthorityPlan_ok plan) :
  exists na, normalize_authority plan = Some (Ok na)
    /\ (forall r, r ∈ rules (filesystem (compile_policy na)) <-> r ∈ plan_paths plan)
    /\ (forall n, n ∈ cp_environment (compile_policy na) <-> n ∈ plan_environment plan)
    /\ cgroup_limits (cgroup (compile_policy na)) = plan_limits plan
    /\ cp_network (compile_policy na) = DenyNetworkV1
    /\ no_new_privileges (compile_policy na) = Required
    /\ CompiledPolicy_is_no_more_permissive_than (compile_policy na) na = true
    /\ (forall other, CompiledPolicy_is_no_more_permissive_than (compile_policy na) other = true <->
          plan_paths plan ⊆ paths other /\ plan_environment plan ⊆ environment other
          /\ ResourceLimits_is_no_more_permissive_than (plan_limits plan) (limits other) = true).
Proof.
  destruct (normalize_authority_spec plan Hok) as (ps & env & -> & _ & Hp & _ & He).
  eexists. split; [done|]. split; [exact Hp|]. split; [exact He|]. do 3 (split; [done|]).
  split.
  - apply CompiledPolicy_no_more_spec. cbn. split; [done|]. split; [done|].
    apply (no_more_refl (A := ResourceLimits)).
  - intros other. rewrite CompiledPolicy_no_more_spec. cbn.
    assert (ps ⊆ paths other <-> plan_paths plan ⊆ paths other) as ->
      by (split; intros Hs x Hx; apply Hs, Hp, Hx).
    assert (env ⊆ environment other <-> plan_environment plan ⊆ environment other) as ->
      by (split; intros Hs x Hx; apply Hs, He, Hx).
    done.
Qed.

Lemma compile_policy_preserves_authority_witness :
  exists na, normalize_authority example_plan = Some (Ok na)
    /\ CompiledPolicy_is_no_more_permissive_than (compile_policy na) na = true.
Proof.
  destruct (compile_policy_preserves_authority example_plan
    (AuthorityPlan_okb_spec example_plan eq_refl)) as (na & Hn & _ & _ & _ & _ & _ & Hp & _).
  exists na. split; [exact Hn|exact Hp].
Defined.

(** * Canonical bytes *)

Definition v2_limits : ResourceLimits :=
  ResourceLimits_new_v2 (mkProcessLimit 2) (mkWallTimeLimit 100) (mkOutputByteLimit 200)
    (mkOutputByteLimit 300) (mkMemoryByteLimit 65536) (mkSwapByteLimit 0).
Definition example_policy : CompiledPolicy :=
  compile_policy (mkNormalizedAuthority
    [example_path "out" Write OutputRoot; example_path "src" Read ProjectInput]
    [example_name "LANG"; example_name "PATH"] v2_limits Deny).
Example example_policy_typed : CompiledPolicy_typed example_policy = true.
Proof. vm_compute. reflexivity. Qed.

Lemma canonical_bytes_typed p :
  CompiledPolicy_typed p = true -> is_version_two (cgroup_limits (cgroup p)) = true ->
  exists v, CompiledPolicy_wire_value p = Some v /\ encodable v = true
    /\ CompiledPolicy_canonical_bytes p = Some (Ok (wire (canon v))).
Proof.
  intros Hp Hv2. pose proof Hv2 as (m & s & Hm & Hs)%is_version_two_spec.
  destruct (CompiledPolicy_wire_value p) as [v|] eqn:Hv.
  2:{ unfold CompiledPolicy_wire_value in Hv. rewrite Hm, Hs in Hv. done. }
  pose proof (wire_value_encodable p v Hp Hv) as He. exists v. split; [done|]. split; [done|].
  unfold CompiledPolicy_canonical_bytes. rewrite Hv2, Hv. cbn [negb mbind option_bind].
  by rewrite encodable_encode.
Qed.

(** Encoding a policy never panics and never reports
    [CanonicalEncoding]: a version 2 profile gives deterministic CBOR that the
    bounded decoder reads back (when it fits its limits), any other profile is
    refused with [UnsupportedVersion]. *)
Theorem policy_canonical_bytes_total (p : CompiledPolicy) (Hp : CompiledPolicy_typed p = true) :
  if is_version_two (cgroup_limits (cgroup p)) then
    exists v bytes, CompiledPolicy_wire_value p = Some v
      /\ CompiledPolicy_canonical_bytes p = Some (Ok bytes)
      /\ (within_limits (canon v) = true -> decode bytes = Ok (canon v))
  else CompiledPolicy_canonical_bytes p = Some (Err UnsupportedVersion).
Proof.
  destruct (is_version_two _) eqn:Hv2.
  - destruct (canonical_bytes_typed p Hp Hv2) as (v & Hv & [Hty Hd]%andb_true_iff & Hb).
    exists v, (wire (canon v)). split; [done|]. split; [done|]. intros Hl.
    apply decode_wire; [by apply canon_value_ok|done].
  - unfold CompiledPolicy_canonical_bytes. by rewrite Hv2.
Qed.

Lemma policy_canonical_bytes_total_witness :
  (exists v bytes, CompiledPolicy_wire_value example_policy = Some v
    /\ CompiledPolicy_canonical_bytes example_policy = Some (Ok bytes)
    /\ decode bytes = Ok (canon v))
  /\ CompiledPolicy_canonical_bytes (compile_policy
       (mkNormalizedAuthority [] [] example_limits Deny)) = Some (Err UnsupportedVersion).
Proof.
  split.
  - destruct (policy_canonical_bytes_total example_policy eq_refl) as (v & bytes & Hv & Hb & Hd).
    exists v, bytes. split; [exact Hv|]. split; [exact Hb|]. apply Hd.
    vm_compute in Hv. injection Hv as <-. vm_compute. reflexivity.
  - exact (policy_canonical_bytes_total
      (compile_policy (mkNormalizedAuthority [] [] example_limits Deny)) eq_refl).
Defined.

(** ** The encoding identifies the policy *)

(** Strips a wire map off an equation of canonical forms. *)
Lemma canon_wire_map_inj a b :
  a.*1 = b.*1 -> bool_decide (NoDup a.*1) = true ->
  canon (wire_map a) = canon (wire_map b) -> (canon <$> a.*2) = (canon <$> b.*2).
Proof.
  rewrite !wire_map_eq. intros Hk Hnd%bool_decide_eq_true. by apply canon_map_inj.
Qed.
Lemma cons_eq {A} (a b : A) l k : a :: l = b :: k -> a = b /\ l = k.
Proof. intros [= -> ->]. done. Qed.
Ltac canon_map_eq H :=
  apply canon_wire_map_inj in H; [|reflexivity|vm_compute; reflexivity]; cbn [fmap list_fmap snd] in H;
  repeat match type of H with
  | _ :: _ = _ :: _ => let Hx := fresh "Hx" in apply cons_eq in H as [Hx H]
  end;
  repeat match goal with
  | Hx : canon (wire_text _) = canon (wire_text _) |- _ => injection Hx as Hx
  | Hx : canon (Unsigned _) = canon (Unsigned _) |- _ => injection Hx as Hx
  | Hx : canon (Bytes _) = canon (Bytes _) |- _ => injection Hx as Hx
  | Hx : canon (Array _) = canon (Array _) |- _ => injection Hx as Hx
  end.

Lemma list_map_inj {A B} (f : A -> B) (P : A -> Prop) l k :
  (forall a b, P a -> P b -> f a = f b -> a = b) -> Forall P l -> Forall P k ->
  map f l = map f k -> l = k.
Proof.
  intros Hf Hl. revert k. induction Hl as [|a l Ha _ IH]; intros k Hk Heq; destruct Hk as [|b k Hb Hk];
    try done. cbn in Heq. injection Heq as Hab Hlk. f_equal; auto.
Qed.

Lemma file_access_name_inj a b : file_access_name a = file_access_name b -> a = b.
Proof. by destruct a, b. Qed.
Lemma path_role_name_inj a b : path_role_name a = path_role_name b -> a = b.
Proof. by destruct a, b. Qed.
Lemma AuthorityText_text_inj t u :
  AuthorityText_ok t -> AuthorityText_ok u -> at_text t = at_text u -> t = u.
Proof. destruct t, u. unfold AuthorityText_ok. cbn. congruence. Qed.

Lemma rule_value_inj r q :
  text_mirrored (path_text (pa_path r)) = true -> text_mirrored (path_text (pa_path q)) = true ->
  canon (rule_value r) = canon (rule_value q) -> r = q.
Proof.
  intros [Hr _]%text_mirrored_spec [Hq _]%text_mirrored_spec Heq. unfold rule_value in Heq.
  canon_map_eq Heq. destruct r as [[p] a ro], q as [[p'] a' ro']; cbn in *.
  f_equal; [f_equal; by apply AuthorityText_text_inj|by apply file_access_name_inj|by apply path_role_name_inj].
Qed.
Lemma name_value_inj n m :
  text_mirrored (name_text n) = true -> text_mirrored (name_text m) = true ->
  canon (name_value n) = canon (name_value m) -> n = m.
Proof.
  intros [Hn _]%text_mirrored_spec [Hm _]%text_mirrored_spec [= Heq].
  destruct n as [t], m as [u]. f_equal. by apply AuthorityText_text_inj.
Qed.
Lemma cgroup_value_inj l m s l' m' s' :
  memory l = Some m -> swap_limit l = Some s -> memory l' = Some m' -> swap_limit l' = Some s' ->
  canon (cgroup_value l m s) = canon (cgroup_value l' m' s') -> l = l'.
Proof.
  intros Hm Hs Hm' Hs' Heq. unfold cgroup_value in Heq. canon_map_eq Heq.
  destruct l as [[?] [?] [?] [?] ? ?], l' as [[?] [?] [?] [?] ? ?], m, s, m', s'. cbn in *. congruence.
Qed.

Lemma canon_array_map_inj {A} (f : A -> Value) (ok : A -> bool) l k :
  (forall a b, ok a = true -> ok b = true -> canon (f a) = canon (f b) -> a = b) ->
  forallb ok l = true -> forallb ok k = true -> map canon (map f l) = map canon (map f k) -> l = k.
Proof.
  rewrite !forallb_Forall', !map_map. intros Hf Hl Hk.
  by apply (list_map_inj (fun a => canon (f a)) (fun a => ok a = true)).
Qed.

Lemma compiled_bytes_inj (p q : CompiledPolicy) (bytes : list byte)
    (Hp : CompiledPolicy_typed p = true) (Hq : CompiledPolicy_typed q = true)
    (Hpb : CompiledPolicy_canonical_bytes p = Some (Ok bytes))
    (Hqb : CompiledPolicy_canonical_bytes q = Some (Ok bytes)) :
  p = q.
Proof.
  assert (forall p, CompiledPolicy_canonical_bytes p = Some (Ok bytes) ->
    is_version_two (cgroup_limits (cgroup p)) = true) as Hv2.
  { intros r Hr. unfold CompiledPolicy_canonical_bytes in Hr. by destruct (is_version_two _). }
  destruct (canonical_bytes_typed p Hp (Hv2 p Hpb)) as (v & Hv & [Htv Hdv]%andb_true_iff & Hbv).
  destruct (canonical_bytes_typed q Hq (Hv2 q Hqb)) as (w & Hw & [Htw Hdw]%andb_true_iff & Hbw).
  assert (canon v = canon w) as Heq.
  { apply (encode_canon_inj v w bytes Htv Htw); rewrite encodable_encode; try congruence;
      by apply andb_true_iff. }
  unfold CompiledPolicy_wire_value in Hv, Hw.
  apply bind_Some in Hv as (m & Hm & Hv). apply bind_Some in Hv as (s & Hs & [= <-]).
  apply bind_Some in Hw as (m' & Hm' & Hw). apply bind_Some in Hw as (s' & Hs' & [= <-]).
  canon_map_eq Heq. unfold CompiledPolicy_typed in Hp, Hq. split_andb.
  destruct p as [[rs] env [] [l] []], q as [[rs'] env' [] [l'] []]; cbn [filesystem rules cp_environment
    cgroup cgroup_limits] in *.
  f_equal; [f_equal|..|f_equal].
  - by eapply (canon_array_map_inj rule_value); [apply rule_value_inj|..].
  - by eapply (canon_array_map_inj name_value); [apply name_value_inj|..].
  - by eapply cgroup_value_inj.
Qed.

(** The canonical bytes identify the policy: two policies of the version 2
    profile with the same bytes are the same policy, so a digest of the bytes
    commits to every rule, name and limit. *)
Theorem policy_canonical_bytes_injective (p q : CompiledPolicy) (bytes : list byte)
    (Hp : CompiledPolicy_typed p = true) (Hq : CompiledPolicy_typed q = true)
    (Hpb : CompiledPolicy_canonical_bytes p = Some (Ok bytes))
    (Hqb : CompiledPolicy_canonical_bytes q = Some (Ok bytes)) :
  p = q.
Proof. by apply (compiled_bytes_inj p q bytes). Qed.

Lemma policy_canonical_bytes_injective_witness :
  exists bytes, CompiledPolicy_canonical_bytes example_policy = Some (Ok bytes)
    /\ example_policy = example_policy.
Proof.
  eexists. split; [vm_compute; reflexivity|].
  eapply policy_canonical_bytes_injective; vm_compute; reflexivity.
Defined.
