(* ===== verification/ServiceLifecycle.v ===== *)
(** The service-session lifecycle of
    [proofbound-runtime-core/src/service_lifecycle.rs]: a state machine over
    phases with a typed failure reason.  [transition] is the code's function,
    [step] the relation it induces; the theorems describe the accepted event
    sequences, the reachable states and termination. *)
From S2P Require Import Prelude.
From Stdlib Require Import Ascii ZArith Lia Sorted.
From stdpp Require Import prelude strings list numbers relations.
Export stdpp.list_relations.list.

Inductive ServiceSessionPhase :=
| Created | Resolving | Connecting | Authenticating | Ready | Active | Closing | Closed | Failed.
#[global] Instance ServiceSessionPhase_eq_dec : EqDecision ServiceSessionPhase.
Proof. solve_decision. Defined.

Inductive ServiceSessionFailureReason :=
| Resolution | Endpoint | Tls | Connector | Channel | Limit | Launcher | Cleanup.
#[global] Instance ServiceSessionFailureReason_eq_dec : EqDecision ServiceSessionFailureReason.
Proof. solve_decision. Defined.

Inductive ServiceSessionEvent :=
| BeginResolution | ResolutionComplete | EndpointConnected | TlsAuthenticated | ChildReleased
| BeginClose | CloseComplete
| Fail_ (reason : ServiceSessionFailureReason).
#[global] Instance ServiceSessionEvent_eq_dec : EqDecision ServiceSessionEvent.
Proof. solve_decision. Defined.

Record ServiceSessionLifecycle := mkLifecycle {
  phase : ServiceSessionPhase;
  failure : option ServiceSessionFailureReason
}.
#[global] Instance ServiceSessionLifecycle_eq_dec : EqDecision ServiceSessionLifecycle.
Proof. solve_decision. Defined.

Inductive ServiceLifecycleError := InvalidTransition.
Definition ServiceLifecycleError_code (e : ServiceLifecycleError) : string :=
  match e with InvalidTransition => "network.connector.lifecycle.transition.invalid" end.

Definition ServiceSessionLifecycle_new : ServiceSessionLifecycle := mkLifecycle Created None.
Definition is_terminal (s : ServiceSessionLifecycle) : bool :=
  match phase s with Closed | Failed => true | _ => false end.

Definition transition (s : ServiceSessionLifecycle) (event : ServiceSessionEvent) :
    result ServiceLifecycleError ServiceSessionLifecycle :=
  let next (p : ServiceSessionPhase) := Ok (mkLifecycle p None) in
  match phase s, event with
  | Created, BeginResolution => next Resolving
  | Resolving, ResolutionComplete => next Connecting
  | Connecting, EndpointConnected => next Authenticating
  | Authenticating, TlsAuthenticated => next Ready
  | Ready, ChildReleased => next Active
  | Active, BeginClose => next Closing
  | Closing, CloseComplete => next Closed
  | (Created | Resolving | Connecting | Authenticating | Ready | Active | Closing), Fail_ reason =>
    Ok (mkLifecycle Failed (Some reason))
  | _, _ => Err InvalidTransition
  end.

(** * Runs *)

(** The relation on states and the run of an event sequence. *)
Definition step (s s' : ServiceSessionLifecycle) : Prop := exists e, transition s e = Ok s'.
Fixpoint run (s : ServiceSessionLifecycle) (events : list ServiceSessionEvent) :
    result ServiceLifecycleError ServiceSessionLifecycle :=
  match events with
  | [] => Ok s
  | e :: events => s ← transition s e; run s events
  end.

(** The nominal session: the seven events and the eight phases they visit. *)
Definition nominal_events : list ServiceSessionEvent :=
  [BeginResolution; ResolutionComplete; EndpointConnected; TlsAuthenticated; ChildReleased;
   BeginClose; CloseComplete].
Definition nominal_phases : list ServiceSessionPhase :=
  [Created; Resolving; Connecting; Authenticating; Ready; Active; Closing; Closed].
(** The number of nominal events still ahead. *)
Definition remaining (s : ServiceSessionLifecycle) : nat :=
  match phase s with
  | Created => 7 | Resolving => 6 | Connecting => 5 | Authenticating => 4
  | Ready => 3 | Active => 2 | Closing => 1 | Closed | Failed => 0
  end.
Definition well_formed (s : ServiceSessionLifecycle) : bool :=
  bool_decide (is_Some (failure s) <-> phase s = Failed).

Example nominal_run : run ServiceSessionLifecycle_new nominal_events = Ok (mkLifecycle Closed None).
Proof. reflexivity. Qed.

(** The state after [n] nominal events. *)
Definition nominal_state (n : nat) : ServiceSessionLifecycle :=
  mkLifecycle (nth n nominal_phases Closed) None.

(** One step from a nominal state: the next nominal event, or a failure. *)
Lemma transition_nominal n e s :
  n <= 7 -> transition (nominal_state n) e = Ok s <->
  n < 7 /\ ((nominal_events !! n = Some e /\ s = nominal_state (S n))
            \/ exists r, e = Fail_ r /\ s = mkLifecycle Failed (Some r)).
Proof.
  intros Hn. do 8 (destruct n as [|n]; [destruct e; cbn; naive_solver lia|]). lia.
Qed.
Lemma transition_failed r e s : transition (mkLifecycle Failed r) e = Ok s <-> False.
Proof. destruct e; cbn; naive_solver. Qed.

Lemma run_nominal n events s :
  n <= 7 -> run (nominal_state n) events = Ok s <->
  (exists m, n <= m <= 7 /\ events = take (m - n) (drop n nominal_events) /\ s = nominal_state m)
  \/ (exists m r, n <= m < 7 /\ events = take (m - n) (drop n nominal_events) ++ [Fail_ r]
      /\ s = mkLifecycle Failed (Some r)).
Proof.
  revert n. induction events as [|e events IH]; intros n Hn; cbn [run].
  - split.
    + intros [= <-]. left. exists n. by rewrite Nat.sub_diag, take_0.
    + intros [(m & Hm & Hev & ->)|(m & r & _ & Hev & _)]; [|by destruct (take _ _)].
      destruct (decide (m = n)) as [->|]; [done|].
      apply (f_equal length) in Hev. rewrite length_take, length_drop in Hev. cbn in Hev. lia.
  - rewrite bind_Ok. setoid_rewrite transition_nominal; [|done].
    assert (Hcons : forall e', nominal_events !! n = Some e' -> forall m, n < m ->
      take (m - n) (drop n nominal_events) = e' :: take (m - S n) (drop (S n) nominal_events)).
    { intros e' He' m Hm. rewrite (drop_S _ _ _ He'). by replace (m - n) with (S (m - S n)) by lia. }
    split.
    + intros (s1 & (Hlt & [[He ->]|(r & -> & ->)]) & Hrun).
      * apply IH in Hrun as [(m & Hm & -> & ->)|(m & r & Hm & -> & ->)]; [| |lia].
        -- left. exists m. split; [lia|]. by rewrite (Hcons e) by (done || lia).
        -- right. exists m, r. split; [lia|]. by rewrite (Hcons e) by (done || lia).
      * destruct events as [|e' events]; cbn in Hrun; [|done].
        injection Hrun as <-. right. exists n, r. split; [lia|]. by rewrite Nat.sub_diag, take_0.
    + intros [(m & Hm & Hev & ->)|(m & r & Hm & Hev & ->)].
      * destruct (decide (m = n)) as [->|]; [by rewrite Nat.sub_diag, take_0 in Hev|].
        destruct (lookup_lt_is_Some_2 nominal_events n) as [e' He']; [cbn; lia|].
        rewrite (Hcons e') in Hev by (done || lia). injection Hev as -> ->.
        exists (nominal_state (S n)). split; [split; [lia|by left]|].
        apply IH; [lia|]. left. exists m. split; [lia|done].
      * destruct (decide (m = n)) as [->|].
        -- rewrite Nat.sub_diag, take_0 in Hev. injection Hev as -> ->.
           exists (mkLifecycle Failed (Some r)). split; [split; [lia|eauto]|done].
        -- destruct (lookup_lt_is_Some_2 nominal_events n) as [e' He']; [cbn; lia|].
           rewrite (Hcons e') in Hev by (done || lia). injection Hev as -> ->.
           exists (nominal_state (S n)). split; [split; [lia|by left]|].
           apply IH; [lia|]. right. exists m, r. split; [lia|done].
Qed.

(** * Properties *)

(** C32: the accepted event sequences of a session are exactly the prefixes of
    the nominal sequence, and such a proper prefix followed by one failure; the
    final state is determined.  In particular the child is released only after
    TLS authentication, and nothing follows a failure. *)
Theorem lifecycle_traces (events : list ServiceSessionEvent) (s : ServiceSessionLifecycle) :
  run ServiceSessionLifecycle_new events = Ok s <->
  (exists n, n <= 7 /\ events = take n nominal_events /\ s = nominal_state n)
  \/ (exists n r, n < 7 /\ events = take n nominal_events ++ [Fail_ r]
      /\ s = mkLifecycle Failed (Some r)).
Proof.
  change ServiceSessionLifecycle_new with (nominal_state 0). rewrite run_nominal by lia.
  rewrite drop_0.
  split; intros [(m & Hm & -> & ->)|(m & r & Hm & -> & ->)].
  - left. exists m. rewrite Nat.sub_0_r. split; [lia|done].
  - right. exists m, r. rewrite Nat.sub_0_r. split; [lia|done].
  - left. exists m. rewrite Nat.sub_0_r. split; [lia|done].
  - right. exists m, r. rewrite Nat.sub_0_r. split; [lia|done].
Qed.

Lemma step_remaining s s' : step s s' -> remaining s' < remaining s.
Proof. intros [e He]. destruct s as [[] f], e; cbn in He; simplify_eq; cbn; lia. Qed.
Lemma step_well_formed s s' : step s s' -> well_formed s' = true.
Proof.
  intros [e He]. apply bool_decide_eq_true. unfold is_Some.
  destruct s as [[] f], e; cbn in He; simplify_eq; cbn; naive_solver.
Qed.
Lemma nsteps_remaining n s s' : nsteps step n s s' -> n + remaining s' <= remaining s.
Proof. induction 1 as [|n s s1 s' Hs _ IH]; [lia|]. apply step_remaining in Hs. lia. Qed.

(** Every reachable state carries a failure reason exactly in the [Failed]
    phase, it is one of the nominal states or a failure, a terminal state has no
    successor and every other state can both proceed and fail. *)
Theorem lifecycle_reachable (s : ServiceSessionLifecycle)
    (Hr : rtc step ServiceSessionLifecycle_new s) :
  well_formed s = true
  /\ (is_terminal s = true -> forall e, transition s e = Err InvalidTransition)
  /\ (is_terminal s = false ->
      (exists e, e ∈ nominal_events /\ is_ok (transition s e) = true)
      /\ forall r, transition s (Fail_ r) = Ok (mkLifecycle Failed (Some r))).
Proof.
  split; [|split].
  - apply rtc_inv_r in Hr as [<-|(s1 & _ & Hs)]; [by vm_compute|by eapply step_well_formed].
  - destruct s as [[] f]; try done; by intros _ [].
  - destruct s as [[] f]; try done; intros _; (split; [|done]);
      match goal with |- exists e, _ /\ is_ok (transition (mkLifecycle ?p _) _) = true =>
        match p with
        | Created => exists BeginResolution | Resolving => exists ResolutionComplete
        | Connecting => exists EndpointConnected | Authenticating => exists TlsAuthenticated
        | Ready => exists ChildReleased | Active => exists BeginClose | Closing => exists CloseComplete
        end end; (split; [unfold nominal_events; set_solver|done]).
Qed.

Lemma lifecycle_reachable_witness :
  rtc step ServiceSessionLifecycle_new (mkLifecycle Failed (Some Tls))
  /\ well_formed (mkLifecycle Failed (Some Tls)) = true.
Proof.
  assert (rtc step ServiceSessionLifecycle_new (mkLifecycle Failed (Some Tls))) as Hr.
  { eapply rtc_l; [exists BeginResolution; reflexivity|].
    eapply rtc_l; [exists (Fail_ Tls); reflexivity|]. apply rtc_refl. }
  split; [exact Hr|]. exact (proj1 (lifecycle_reachable _ Hr)).
Defined.

(** Termination: from any state at most [remaining] transitions are
    possible, so no session performs more than seven. *)
Theorem lifecycle_terminates (n : nat) (s : ServiceSessionLifecycle)
    (Hs : nsteps step n ServiceSessionLifecycle_new s) :
  n + remaining s <= 7 /\ (n = 7 -> phase s = Closed \/ phase s = Failed).
Proof.
  pose proof (nsteps_remaining _ _ _ Hs) as Hr. split; [exact Hr|]. intros ->.
  assert (remaining s = 0) as H0 by (cbn in Hr; lia). unfold remaining in H0.
  destruct (phase s); auto; lia.
Qed.

Lemma lifecycle_terminates_witness :
  nsteps step 1 ServiceSessionLifecycle_new (mkLifecycle Resolving None) /\ 1 + 6 <= 7.
Proof.
  assert (nsteps step 1 ServiceSessionLifecycle_new (mkLifecycle Resolving None)) as Hs.
  { apply nsteps_once. exists BeginResolution. reflexivity. }
  split; [exact Hs|]. exact (proj1 (lifecycle_terminates 1 _ Hs)).
Defined.
