(* ===== verification/Identity.v ===== *)
(** Artifact identities: [proofbound-runtime-core/src/identity.rs] (roles,
    digests, modes) and the receipt commitment of
    [proofbound-runtime-verify/src/commitment.rs].  SHA-256 is the [sha2] crate,
    so the hash function is a parameter of the commitment's operations. *)
From S2P Require Import Prelude.
From Stdlib Require Import Ascii ZArith Lia Sorted.
From stdpp Require Import prelude strings list numbers.
Export stdpp.list_relations.list.

(** * [core/identity.rs] *)

Inductive IdentityError := UnsupportedRole | DigestLength | DigestCharacter | ModeRange.
#[global] Instance IdentityError_eq_dec : EqDecision IdentityError.
Proof. solve_decision. Defined.
Definition IdentityError_code (e : IdentityError) : string :=
  match e with
  | UnsupportedRole => "identity.role.unsupported"
  | DigestLength => "identity.digest.length"
  | DigestCharacter => "identity.digest.character"
  | ModeRange => "identity.mode.range"
  end.

Inductive ArtifactRole :=
| ExecutionPlan | NormalizedPlan | CompiledPolicy | RuntimeBinary | LauncherBinary
| VerifierBinary | RuntimeExecutable | RuntimeLoaderExecutable | RuntimeLibrary
| WorkingDirectory | ProjectInput | OutputRoot | StandardOutput | StandardError | OutputArtifact.
#[global] Instance ArtifactRole_eq_dec : EqDecision ArtifactRole.
Proof. solve_decision. Defined.

Definition ArtifactRole_as_str (r : ArtifactRole) : string :=
  match r with
  | ExecutionPlan => "execution-plan"
  | NormalizedPlan => "normalized-plan"
  | CompiledPolicy => "compiled-policy"
  | RuntimeBinary => "runtime-binary"
  | LauncherBinary => "launcher-binary"
  | VerifierBinary => "verifier-binary"
  | RuntimeExecutable => "runtime-executable"
  | RuntimeLoaderExecutable => "runtime-loader-executable"
  | RuntimeLibrary => "runtime-library"
  | WorkingDirectory => "working-directory"
  | ProjectInput => "project-input"
  | OutputRoot => "output-root"
  | StandardOutput => "standard-output"
  | StandardError => "standard-error"
  | OutputArtifact => "output-artifact"
  end.
(** [match value { "execution-plan" => Ok(..), .. }] *)
Definition ArtifactRole_parse (value : string) : result IdentityError ArtifactRole :=
  if String.eqb value "execution-plan" then Ok ExecutionPlan
  else if String.eqb value "normalized-plan" then Ok NormalizedPlan
  else if String.eqb value "compiled-policy" then Ok CompiledPolicy
  else if String.eqb value "runtime-binary" then Ok RuntimeBinary
  else if String.eqb value "launcher-binary" then Ok LauncherBinary
  else if String.eqb value "verifier-binary" then Ok VerifierBinary
  else if String.eqb value "runtime-executable" then Ok RuntimeExecutable
  else if String.eqb value "runtime-loader-executable" then Ok RuntimeLoaderExecutable
  else if String.eqb value "runtime-library" then Ok RuntimeLibrary
  else if String.eqb value "working-directory" then Ok WorkingDirectory
  else if String.eqb value "project-input" then Ok ProjectInput
  else if String.eqb value "output-root" then Ok OutputRoot
  else if String.eqb value "standard-output" then Ok StandardOutput
  else if String.eqb value "standard-error" then Ok StandardError
  else if String.eqb value "output-artifact" then Ok OutputArtifact
  else Err UnsupportedRole.

(** [[u8; 32]] *)
Record Sha256Digest := mkSha256Digest { digest_bytes : list byte }.
#[global] Instance Sha256Digest_eq_dec : EqDecision Sha256Digest.
Proof. solve_decision. Defined.
Definition Sha256Digest_ok (d : Sha256Digest) : Prop := length (digest_bytes d) = 32.
Definition Sha256Digest_from_bytes (bytes : list byte) : Sha256Digest := mkSha256Digest bytes.

Definition hex_nibble : byte -> result IdentityError Z := hex_nibble_or DigestCharacter.
Definition Sha256Digest_parse_hex (value : string) : result IdentityError Sha256Digest :=
  let input := String.list_ascii_of_string value in
  if negb (length input =? 64) then Err DigestLength
  else bytes ← unhex DigestCharacter 32 input; Ok (mkSha256Digest bytes).
Definition Sha256Digest_to_hex (d : Sha256Digest) : string :=
  String.string_of_list_ascii (hex_bytes (digest_bytes d)).

(** The argument is a [u16]; [0o7777] is 4095. *)
Record FileMode := mkFileMode { FileMode_get : Z }.
#[global] Instance FileMode_eq_dec : EqDecision FileMode.
Proof. solve_decision. Defined.
Definition FileMode_new (value : Z) : result IdentityError FileMode :=
  if (4095 <? value)%Z then Err ModeRange else Ok (mkFileMode value).

Record ArtifactIdentity := mkArtifactIdentity {
  role : ArtifactRole;
  digest : Sha256Digest;
  size : Z;
  mode : FileMode
}.
#[global] Instance FileMode_ord : RustOrd FileMode := ord_via FileMode_get.
#[global] Instance FileMode_lawful : LawfulOrd FileMode.
Proof. assert (Inj (=) (=) FileMode_get) by (intros [] []; cbn; congruence). apply (ord_via_lawful FileMode_get). Qed.
#[global] Instance ArtifactIdentity_eq_dec : EqDecision ArtifactIdentity.
Proof. solve_decision. Defined.
(** The derived orders: the discriminants, the bytes, and the fields in order. *)
Definition ArtifactRole_discriminant (r : ArtifactRole) : Z :=
  match r with
  | ExecutionPlan => 0 | NormalizedPlan => 1 | CompiledPolicy => 2 | RuntimeBinary => 3
  | LauncherBinary => 4 | VerifierBinary => 5 | RuntimeExecutable => 6
  | RuntimeLoaderExecutable => 7 | RuntimeLibrary => 8 | WorkingDirectory => 9
  | ProjectInput => 10 | OutputRoot => 11 | StandardOutput => 12 | StandardError => 13
  | OutputArtifact => 14
  end.
#[global] Instance ArtifactRole_ord : RustOrd ArtifactRole := ord_via ArtifactRole_discriminant.
#[global] Instance ArtifactRole_lawful : LawfulOrd ArtifactRole.
Proof.
  assert (Inj (=) (=) ArtifactRole_discriminant) by (intros [] []; done).
  apply (ord_via_lawful ArtifactRole_discriminant).
Qed.
#[global] Instance Sha256Digest_ord : RustOrd Sha256Digest := ord_via digest_bytes.
#[global] Instance Sha256Digest_lawful : LawfulOrd Sha256Digest.
Proof.
  assert (Inj (=) (=) digest_bytes) by (intros [] []; cbn; congruence).
  apply (ord_via_lawful digest_bytes).
Qed.
Definition artifact_key (a : ArtifactIdentity) : ArtifactRole * (Sha256Digest * (Z * FileMode)) :=
  (role a, (digest a, (size a, mode a))).
#[global] Instance ArtifactIdentity_ord : RustOrd ArtifactIdentity := ord_via artifact_key.
#[global] Instance ArtifactIdentity_lawful : LawfulOrd ArtifactIdentity.
Proof.
  assert (Inj (=) (=) artifact_key) by (intros [] []; unfold artifact_key; cbn; congruence).
  apply (ord_via_lawful artifact_key).
Qed.
Definition ArtifactIdentity_new (r : ArtifactRole) (d : Sha256Digest) (s : Z) (m : FileMode) :
    ArtifactIdentity := mkArtifactIdentity r d s m.

(** * [verify/commitment.rs] *)

Inductive CommitmentError := InvalidEncoding | Mismatch.
#[global] Instance CommitmentError_eq_dec : EqDecision CommitmentError.
Proof. solve_decision. Defined.
Definition CommitmentError_code (e : CommitmentError) : string :=
  match e with
  | InvalidEncoding => "receipt.commitment.invalid"
  | Mismatch => "receipt.commitment.mismatch"
  end.

(** [[u8; 32]] *)
Record ReceiptCommitment := mkReceiptCommitment { commitment_bytes : list byte }.
#[global] Instance ReceiptCommitment_eq_dec : EqDecision ReceiptCommitment.
Proof. solve_decision. Defined.
Definition PREFIX : string := "sha256:".

(** [str::strip_prefix] *)
Fixpoint strip_prefix_bytes (p l : list byte) : option (list byte) :=
  match p, l with
  | [], _ => Some l
  | a :: p, b :: l => if bool_decide (a = b) then strip_prefix_bytes p l else None
  | _ :: _, [] => None
  end.
Definition commitment_nibble : byte -> result CommitmentError Z := hex_nibble_or InvalidEncoding.
Definition ReceiptCommitment_parse (value : string) : result CommitmentError ReceiptCommitment :=
  match strip_prefix_bytes (String.list_ascii_of_string PREFIX) (String.list_ascii_of_string value) with
  | None => Err InvalidEncoding
  | Some input =>
    if negb (length input =? 64) then Err InvalidEncoding
    else bytes ← unhex InvalidEncoding 32 input; Ok (mkReceiptCommitment bytes)
  end.
Definition ReceiptCommitment_to_text (c : ReceiptCommitment) : string :=
  String.string_of_list_ascii (String.list_ascii_of_string PREFIX ++ hex_bytes (commitment_bytes c)).

Section sha256.
Context (sha256 : list byte -> list byte).
Definition ReceiptCommitment_for_bytes (input : list byte) : ReceiptCommitment :=
  mkReceiptCommitment (sha256 input).
Definition ReceiptCommitment_verify (self : ReceiptCommitment) (input : list byte) :
    result CommitmentError () :=
  if bool_decide (ReceiptCommitment_for_bytes input = self) then Ok () else Err Mismatch.
End sha256.

(** * Lemmas *)

Lemma strip_prefix_bytes_Some p l k : strip_prefix_bytes p l = Some k <-> l = p ++ k.
Proof.
  revert l. induction p as [|a p IH]; intros [|b l]; cbn; try naive_solver.
  case_bool_decide; [subst; rewrite IH|]; naive_solver.
Qed.
Lemma string_bytes_eq s l :
  String.list_ascii_of_string s = l <-> s = String.string_of_list_ascii l.
Proof.
  split; intros; subst; [by rewrite String.string_of_list_ascii_of_string|
    apply String.list_ascii_of_string_of_list_ascii].
Qed.
Lemma unhex_Ok {E} (e : E) n input l :
  length input = 2 * n -> unhex e n input = Ok l <-> length l = n /\ hex_bytes l = input.
Proof.
  intros Hlen. split; [intros H; by apply unhex_inv in H as [? ?]|].
  intros [<- <-]. apply unhex_hex.
Qed.
Lemma unhex_Err {E} (e e' : E) n input : unhex e n input = Err e' -> e' = e.
Proof.
  intros (i & _ & Hi)%mapM_Err. unfold unhex_at, hex_nibble_or in Hi.
  repeat case_match; cbn in Hi; congruence.
Qed.

Lemma parse_hex_Ok s d :
  Sha256Digest_parse_hex s = Ok d <-> Sha256Digest_ok d /\ Sha256Digest_to_hex d = s.
Proof.
  unfold Sha256Digest_parse_hex, Sha256Digest_ok, Sha256Digest_to_hex.
  destruct (length (String.list_ascii_of_string s) =? 64) eqn:Hlen; cbn [negb].
  - apply Nat.eqb_eq in Hlen. rewrite bind_Ok. setoid_rewrite unhex_Ok; [|lia]. split.
    + intros (l & [Hl Hh] & [= <-]). split; [done|]. symmetry. by apply string_bytes_eq.
    + intros [Hd Hs]. exists (digest_bytes d). destruct d as [l]. split; [|done]. split; [done|].
      symmetry. by apply string_bytes_eq.
  - apply Nat.eqb_neq in Hlen. split; [done|]. intros [Hd <-]. rewrite
      String.list_ascii_of_string_of_list_ascii, length_hex_bytes, Hd in Hlen. done.
Qed.

(** * Properties *)

(** Digests and their hexadecimal text correspond exactly: [parse_hex]
    accepts a text with digest [d] if and only if [d] is a 32-byte digest and
    the text is what [to_hex] prints for it (64 lowercase digits); a wrong length
    is [DigestLength] and any other refusal is [DigestCharacter]. *)
Theorem digest_hex_roundtrip (s : string) (d : Sha256Digest) :
  (Sha256Digest_parse_hex s = Ok d <-> Sha256Digest_ok d /\ Sha256Digest_to_hex d = s)
  /\ (forall e, Sha256Digest_parse_hex s = Err e ->
        e = if length (String.list_ascii_of_string s) =? 64 then DigestCharacter else DigestLength).
Proof.
  split; [apply parse_hex_Ok|]. intros e. unfold Sha256Digest_parse_hex.
  destruct (_ =? 64); cbn [negb]; [|congruence].
  intros [?%unhex_Err|(? & _ & ?)]%bind_Err; done.
Qed.

(** The commitment text is a bijection as well: [parse] accepts exactly the
    texts [to_text] prints (the algorithm prefix and 64 lowercase digits), and a
    parsed commitment verifies exactly the inputs whose hash it names. *)
Theorem commitment_parse_verify (sha256 : list byte -> list byte) (s : string)
    (c : ReceiptCommitment) (Hp : ReceiptCommitment_parse s = Ok c) :
  ReceiptCommitment_to_text c = s
  /\ (forall s', ReceiptCommitment_parse s' = Ok c -> s' = s)
  /\ (forall input, ReceiptCommitment_verify sha256 c input = Ok () <->
        ReceiptCommitment_to_text (ReceiptCommitment_for_bytes sha256 input) = s
        /\ length (sha256 input) = 32).
Proof.
  assert (Htext : forall s, ReceiptCommitment_parse s = Ok c ->
    ReceiptCommitment_to_text c = s /\ length (commitment_bytes c) = 32).
  { intros t. unfold ReceiptCommitment_parse, ReceiptCommitment_to_text.
    destruct (strip_prefix_bytes _ _) as [input|] eqn:Hs; [|done].
    apply strip_prefix_bytes_Some in Hs.
    destruct (length input =? 64) eqn:Hlen; cbn [negb]; [|done]. apply Nat.eqb_eq in Hlen.
    intros (l & [Hl Hh]%unhex_Ok & [= <-])%bind_Ok; [|lia]. cbn [commitment_bytes].
    split; [|done]. symmetry. apply string_bytes_eq. by rewrite Hs, Hh. }
  destruct (Htext s Hp) as [Hs Hlen]. split; [done|]. split.
  { intros s' [Hs' _]%Htext. congruence. }
  intros input. unfold ReceiptCommitment_verify, ReceiptCommitment_for_bytes.
  case_bool_decide as Heq; split; try done.
  - intros _. rewrite Heq. split; [done|]. by rewrite <- Heq in Hlen.
  - intros [Ht Hl]. destruct Heq. rewrite <- Hs in Ht. unfold ReceiptCommitment_to_text in Ht.
    apply (inj String.string_of_list_ascii), app_inv_head in Ht. cbn [commitment_bytes] in Ht.
    assert (unhex () 32 (hex_bytes (sha256 input)) = Ok (sha256 input)) as H1
      by (rewrite <- Hl; apply unhex_hex).
    assert (unhex () 32 (hex_bytes (commitment_bytes c)) = Ok (commitment_bytes c)) as H2
      by (rewrite <- Hlen; apply unhex_hex).
    rewrite Ht, H2 in H1. injection H1 as H1. destruct c as [l]. cbn in H1. by rewrite H1.
Qed.

Definition example_commitment : string :=
  "sha256:000102030405060708090a0b0c0d0e0f101112131415161718191a1b1c1d1e1f".
Lemma commitment_parse_verify_witness :
  ReceiptCommitment_to_text (mkReceiptCommitment (mkb <$> seqZ 0 32)) = example_commitment.
Proof.
  exact (proj1 (commitment_parse_verify (fun _ => []) example_commitment
    (mkReceiptCommitment (mkb <$> seqZ 0 32)) eq_refl)).
Defined.

(** The role names are the closed set [as_str] prints: [parse] accepts a
    name exactly when it is some role's name and returns that role. *)
Theorem artifact_role_parse_exact (s : string) (r : ArtifactRole) :
  ArtifactRole_parse s = Ok r <-> ArtifactRole_as_str r = s.
Proof.
  split; [|intros <-; by destruct r].
  unfold ArtifactRole_parse. repeat (case_match eqn:Hs; [intros [= <-]; symmetry; by apply String.eqb_eq|clear Hs]).
  done.
Qed.
