(* ===== verification/Eligibility.v ===== *)
(** Receipt reuse eligibility, decided twice: by the producer
    ([proofbound-runtime-receipt/src/lib.rs], Module [Producer]) and by the
    independent verifier ([proofbound-runtime-verify/src/derive.rs], Module
    [Verifier]).  Both append reasons to a vector in the order of the checks;
    the theorems give each decision its meaning and show that the two agree on
    corresponding facts. *)
From S2P Require Import Prelude.
From Stdlib Require Import Ascii ZArith Lia Sorted.
From stdpp Require Import prelude strings list numbers.
Export stdpp.list_relations.list.

(** * The producer *)

Module Producer.

Inductive BoundaryInstallation := Boundary_Installed | Boundary_Incomplete.
#[global] Instance BoundaryInstallation_eq_dec : EqDecision BoundaryInstallation.
Proof. solve_decision. Defined.

(** A [u32] that the constructor keeps nonzero. *)
Record SignalNumber := mkSignalNumber { SignalNumber_get : Z }.
#[global] Instance SignalNumber_eq_dec : EqDecision SignalNumber.
Proof. solve_decision. Defined.
Definition SignalNumber_MIN : SignalNumber := mkSignalNumber 1.
Definition SignalNumber_new (value : Z) : option SignalNumber :=
  if (value =? 0)%Z then None else Some (mkSignalNumber value).

Inductive ExecutionOutcome :=
| Exited (code : Z)
| Signaled (signal : SignalNumber)
| TimedOut
| Denied
| LauncherFailed
| Incomplete.
#[global] Instance ExecutionOutcome_eq_dec : EqDecision ExecutionOutcome.
Proof. solve_decision. Defined.

Inductive StreamCapture := Capture_Complete | Capture_Truncated.
Inductive ReceiptStructure := Structure_Valid | Structure_Malformed.
#[global] Instance StreamCapture_eq_dec : EqDecision StreamCapture.
Proof. solve_decision. Defined.
#[global] Instance ReceiptStructure_eq_dec : EqDecision ReceiptStructure.
Proof. solve_decision. Defined.

Inductive LimitEvent :=
| LimitEvent_MemoryHigh | LimitEvent_MemoryMax | LimitEvent_MemoryOom
| LimitEvent_MemoryOomKill | LimitEvent_MemoryOomGroupKill
| LimitEvent_SwapMax | LimitEvent_SwapFail.
#[global] Instance LimitEvent_eq_dec : EqDecision LimitEvent.
Proof. solve_decision. Defined.

Record LimitEvents := mkLimitEvents {
  memory_high : bool;
  memory_max : bool;
  memory_oom : bool;
  memory_oom_kill : bool;
  memory_oom_group_kill : bool;
  swap_max : bool;
  swap_fail : bool
}.
Definition LimitEvents_default : LimitEvents :=
  mkLimitEvents false false false false false false false.

(** [present.<field> = true] *)
Definition set_event (event : LimitEvent) (p : LimitEvents) : LimitEvents :=
  match p with
  | mkLimitEvents h m o k g s f =>
    match event with
    | LimitEvent_MemoryHigh => mkLimitEvents true m o k g s f
    | LimitEvent_MemoryMax => mkLimitEvents h true o k g s f
    | LimitEvent_MemoryOom => mkLimitEvents h m true k g s f
    | LimitEvent_MemoryOomKill => mkLimitEvents h m o true g s f
    | LimitEvent_MemoryOomGroupKill => mkLimitEvents h m o k true s f
    | LimitEvent_SwapMax => mkLimitEvents h m o k g true f
    | LimitEvent_SwapFail => mkLimitEvents h m o k g s true
    end
  end.
Definition LimitEvents_new (events : list LimitEvent) : LimitEvents :=
  foldl (fun present event => set_event event present) LimitEvents_default events.
Definition LimitEvents_contains (self : LimitEvents) (event : LimitEvent) : bool :=
  match event with
  | LimitEvent_MemoryHigh => memory_high self
  | LimitEvent_MemoryMax => memory_max self
  | LimitEvent_MemoryOom => memory_oom self
  | LimitEvent_MemoryOomKill => memory_oom_kill self
  | LimitEvent_MemoryOomGroupKill => memory_oom_group_kill self
  | LimitEvent_SwapMax => swap_max self
  | LimitEvent_SwapFail => swap_fail self
  end.
Definition LimitEvents_is_empty (self : LimitEvents) : bool :=
  negb (memory_high self) && negb (memory_max self) && negb (memory_oom self)
  && negb (memory_oom_kill self) && negb (memory_oom_group_kill self)
  && negb (swap_max self) && negb (swap_fail self).

Record ReceiptFacts := mkReceiptFacts {
  boundary : BoundaryInstallation;
  outcome : ExecutionOutcome;
  facts_stdout : StreamCapture;
  facts_stderr : StreamCapture;
  structure : ReceiptStructure;
  limit_events : LimitEvents
}.
Definition ReceiptFacts_new (b : BoundaryInstallation) (o : ExecutionOutcome)
    (out err : StreamCapture) (s : ReceiptStructure) : ReceiptFacts :=
  mkReceiptFacts b o out err s LimitEvents_default.
Definition ReceiptFacts_new_v2 (b : BoundaryInstallation) (o : ExecutionOutcome)
    (out err : StreamCapture) (s : ReceiptStructure) (events : LimitEvents) : ReceiptFacts :=
  mkReceiptFacts b o out err s events.

Inductive NonReusableReason :=
| BoundaryIncomplete | ExitCodeNonzero | ProcessSignaled | Reason_TimedOut | Reason_Denied
| Reason_LauncherFailed | ExecutionIncomplete | StandardOutputTruncated
| StandardErrorTruncated | ReceiptMalformed
| MemoryHigh | MemoryMax | MemoryOom | MemoryOomKill | MemoryOomGroupKill | SwapMax | SwapFail.
#[global] Instance NonReusableReason_eq_dec : EqDecision NonReusableReason.
Proof. solve_decision. Defined.

Inductive ReceiptEligibility :=
| Reusable
| NonReusable (reasons : list NonReusableReason).
#[global] Instance ReceiptEligibility_eq_dec : EqDecision ReceiptEligibility.
Proof. solve_decision. Defined.

Definition append_reason (reasons : list NonReusableReason) (present : bool)
    (reason : NonReusableReason) : list NonReusableReason :=
  if present then reasons ++ [reason] else reasons.

Definition append_limit_event_reasons (reasons : list NonReusableReason)
    (events : LimitEvents) : list NonReusableReason :=
  let reasons := append_reason reasons (LimitEvents_contains events LimitEvent_MemoryHigh) MemoryHigh in
  let reasons := append_reason reasons (LimitEvents_contains events LimitEvent_MemoryMax) MemoryMax in
  let reasons := append_reason reasons (LimitEvents_contains events LimitEvent_MemoryOom) MemoryOom in
  let reasons := append_reason reasons (LimitEvents_contains events LimitEvent_MemoryOomKill) MemoryOomKill in
  let reasons := append_reason reasons
    (LimitEvents_contains events LimitEvent_MemoryOomGroupKill) MemoryOomGroupKill in
  let reasons := append_reason reasons (LimitEvents_contains events LimitEvent_SwapMax) SwapMax in
  append_reason reasons (LimitEvents_contains events LimitEvent_SwapFail) SwapFail.

Definition append_outcome_reason (reasons : list NonReusableReason) (o : ExecutionOutcome) :
    list NonReusableReason :=
  match o with
  | Exited code => if (code =? 0)%Z then reasons else reasons ++ [ExitCodeNonzero]
  | Signaled _ => reasons ++ [ProcessSignaled]
  | TimedOut => reasons ++ [Reason_TimedOut]
  | Denied => reasons ++ [Reason_Denied]
  | LauncherFailed => reasons ++ [Reason_LauncherFailed]
  | Incomplete => reasons ++ [ExecutionIncomplete]
  end.

Definition derive_receipt_eligibility (facts : ReceiptFacts) : ReceiptEligibility :=
  let reasons := append_reason [] (bool_decide (boundary facts = Boundary_Incomplete)) BoundaryIncomplete in
  let reasons := append_outcome_reason reasons (outcome facts) in
  let reasons := append_reason reasons
    (bool_decide (facts_stdout facts = Capture_Truncated)) StandardOutputTruncated in
  let reasons := append_reason reasons
    (bool_decide (facts_stderr facts = Capture_Truncated)) StandardErrorTruncated in
  let reasons := append_reason reasons
    (bool_decide (structure facts = Structure_Malformed)) ReceiptMalformed in
  let reasons := append_limit_event_reasons reasons (limit_events facts) in
  match reasons with
  | [] => Reusable
  | _ => NonReusable reasons
  end.

(** [proofbound-runtime-core/src/outcome.rs]: the wire kind of an outcome. *)
Inductive ExecutionOutcomeKind :=
| Kind_Exited | Kind_Signaled | Kind_TimedOut | Kind_Denied | Kind_LauncherFailed | Kind_Incomplete.
Definition ExecutionOutcomeKind_as_str (k : ExecutionOutcomeKind) : string :=
  match k with
  | Kind_Exited => "exited"
  | Kind_Signaled => "signaled"
  | Kind_TimedOut => "timed-out"
  | Kind_Denied => "denied"
  | Kind_LauncherFailed => "launcher-failed"
  | Kind_Incomplete => "incomplete"
  end.
Definition execution_outcome_kind (o : ExecutionOutcome) : ExecutionOutcomeKind :=
  match o with
  | Exited _ => Kind_Exited
  | Signaled _ => Kind_Signaled
  | TimedOut => Kind_TimedOut
  | Denied => Kind_Denied
  | LauncherFailed => Kind_LauncherFailed
  | Incomplete => Kind_Incomplete
  end.

End Producer.

(** * The independent verifier *)

Module Verifier.

Inductive BoundaryState := Boundary_Installed | Boundary_Incomplete.
Inductive OutcomeState :=
| Exited (code : Z)
| Signaled (signal : Z)
| TimedOut
| Denied
| LauncherFailed
| Incomplete.
Inductive CaptureState := Capture_Complete | Capture_Truncated.
Inductive StructureState := Structure_Valid | Structure_Malformed.
#[global] Instance BoundaryState_eq_dec : EqDecision BoundaryState.
Proof. solve_decision. Defined.
#[global] Instance OutcomeState_eq_dec : EqDecision OutcomeState.
Proof. solve_decision. Defined.
#[global] Instance CaptureState_eq_dec : EqDecision CaptureState.
Proof. solve_decision. Defined.
#[global] Instance StructureState_eq_dec : EqDecision StructureState.
Proof. solve_decision. Defined.

(** [limit_events] is an array [[bool; 7]]. *)
Record EligibilityInput := mkEligibilityInput {
  boundary : BoundaryState;
  outcome : OutcomeState;
  input_stdout : CaptureState;
  input_stderr : CaptureState;
  structure : StructureState;
  limit_events : list bool
}.
Definition EligibilityInput_new (b : BoundaryState) (o : OutcomeState) (out err : CaptureState)
    (s : StructureState) : EligibilityInput :=
  mkEligibilityInput b o out err s (replicate 7 false).
Definition EligibilityInput_new_v2 (b : BoundaryState) (o : OutcomeState) (out err : CaptureState)
    (s : StructureState) (events : list bool) : EligibilityInput :=
  mkEligibilityInput b o out err s events.

Inductive FailureReason :=
| BoundaryIncomplete | ExitCodeNonzero | ProcessSignaled | Reason_TimedOut | Reason_Denied
| Reason_LauncherFailed | ExecutionIncomplete | StandardOutputTruncated
| StandardErrorTruncated | ReceiptMalformed
| MemoryHigh | MemoryMax | MemoryOom | MemoryOomKill | MemoryOomGroupKill | SwapMax | SwapFail.
#[global] Instance FailureReason_eq_dec : EqDecision FailureReason.
Proof. solve_decision. Defined.

Definition FailureReason_as_str (r : FailureReason) : string :=
  match r with
  | BoundaryIncomplete => "boundary-incomplete"
  | ExitCodeNonzero => "exit-code-nonzero"
  | ProcessSignaled => "process-signaled"
  | Reason_TimedOut => "timed-out"
  | Reason_Denied => "denied"
  | Reason_LauncherFailed => "launcher-failed"
  | ExecutionIncomplete => "execution-incomplete"
  | StandardOutputTruncated => "stdout-truncated"
  | StandardErrorTruncated => "stderr-truncated"
  | ReceiptMalformed => "receipt-malformed"
  | MemoryHigh => "memory-high"
  | MemoryMax => "memory-max"
  | MemoryOom => "memory-oom"
  | MemoryOomKill => "memory-oom-kill"
  | MemoryOomGroupKill => "memory-oom-group-kill"
  | SwapMax => "swap-max"
  | SwapFail => "swap-fail"
  end.

Inductive EligibilityDecision :=
| Reusable
| NonReusable (reasons : list FailureReason).
#[global] Instance EligibilityDecision_eq_dec : EqDecision EligibilityDecision.
Proof. solve_decision. Defined.

Definition push_boundary (s : BoundaryState) (failures : list FailureReason) :
    list FailureReason :=
  match s with
  | Boundary_Installed => failures
  | Boundary_Incomplete => failures ++ [BoundaryIncomplete]
  end.
Definition push_outcome (o : OutcomeState) (failures : list FailureReason) :
    list FailureReason :=
  match o with
  | Exited code => if (code =? 0)%Z then failures else failures ++ [ExitCodeNonzero]
  | Signaled _ => failures ++ [ProcessSignaled]
  | TimedOut => failures ++ [Reason_TimedOut]
  | Denied => failures ++ [Reason_Denied]
  | LauncherFailed => failures ++ [Reason_LauncherFailed]
  | Incomplete => failures ++ [ExecutionIncomplete]
  end.
Definition push_capture (c : CaptureState) (reason : FailureReason) (failures : list FailureReason) :
    list FailureReason :=
  match c with
  | Capture_Complete => failures
  | Capture_Truncated => failures ++ [reason]
  end.
Definition push_structure (s : StructureState) (failures : list FailureReason) :
    list FailureReason :=
  match s with
  | Structure_Valid => failures
  | Structure_Malformed => failures ++ [ReceiptMalformed]
  end.
(** [for (present, reason) in limit_events.into_iter().zip([..])] *)
Definition push_events (events : list bool) (failures : list FailureReason) :
    list FailureReason :=
  foldl (fun failures (pr : bool * FailureReason) => if pr.1 then failures ++ [pr.2] else failures) failures
    (zip events [MemoryHigh; MemoryMax; MemoryOom; MemoryOomKill; MemoryOomGroupKill; SwapMax; SwapFail]).

Definition derive_eligibility (input : EligibilityInput) : EligibilityDecision :=
  let failures := push_boundary (boundary input) [] in
  let failures := push_outcome (outcome input) failures in
  let failures := push_capture (input_stdout input) StandardOutputTruncated failures in
  let failures := push_capture (input_stderr input) StandardErrorTruncated failures in
  let failures := push_structure (structure input) failures in
  let failures := push_events (limit_events input) failures in
  match failures with
  | [] => Reusable
  | _ => NonReusable failures
  end.

End Verifier.

(** * Reference specification *)

Module Spec.
Import Producer.

(** Every reason, in the order of specification 0001. *)
Definition canonical_reasons : list NonReusableReason :=
  [BoundaryIncomplete; ExitCodeNonzero; ProcessSignaled; Reason_TimedOut; Reason_Denied;
   Reason_LauncherFailed; ExecutionIncomplete; StandardOutputTruncated; StandardErrorTruncated;
   ReceiptMalformed; MemoryHigh; MemoryMax; MemoryOom; MemoryOomKill; MemoryOomGroupKill;
   SwapMax; SwapFail].

(** When a reason prevents reuse. *)
Definition reason_applies (f : ReceiptFacts) (r : NonReusableReason) : Prop :=
  match r with
  | BoundaryIncomplete => boundary f = Boundary_Incomplete
  | ExitCodeNonzero => exists code, outcome f = Exited code /\ code <> 0%Z
  | ProcessSignaled => exists signal, outcome f = Signaled signal
  | Reason_TimedOut => outcome f = TimedOut
  | Reason_Denied => outcome f = Denied
  | Reason_LauncherFailed => outcome f = LauncherFailed
  | ExecutionIncomplete => outcome f = Incomplete
  | StandardOutputTruncated => facts_stdout f = Capture_Truncated
  | StandardErrorTruncated => facts_stderr f = Capture_Truncated
  | ReceiptMalformed => structure f = Structure_Malformed
  | MemoryHigh => memory_high (limit_events f) = true
  | MemoryMax => memory_max (limit_events f) = true
  | MemoryOom => memory_oom (limit_events f) = true
  | MemoryOomKill => memory_oom_kill (limit_events f) = true
  | MemoryOomGroupKill => memory_oom_group_kill (limit_events f) = true
  | SwapMax => swap_max (limit_events f) = true
  | SwapFail => swap_fail (limit_events f) = true
  end.
#[global] Instance reason_applies_dec f r : Decision (reason_applies f r).
Proof.
  destruct r; cbn; try solve_decision.
  - destruct (outcome f) as [code| | | | |]; try (right; naive_solver).
    destruct (decide (code = 0%Z)); [right|left]; naive_solver.
  - destruct (outcome f); try (right; naive_solver). left; eauto.
Defined.

(** The verifier's view of the producer's facts and reasons. *)
Definition view_outcome (o : ExecutionOutcome) : Verifier.OutcomeState :=
  match o with
  | Exited code => Verifier.Exited code
  | Signaled signal => Verifier.Signaled (SignalNumber_get signal)
  | TimedOut => Verifier.TimedOut
  | Denied => Verifier.Denied
  | LauncherFailed => Verifier.LauncherFailed
  | Incomplete => Verifier.Incomplete
  end.
Definition view_capture (c : StreamCapture) : Verifier.CaptureState :=
  match c with
  | Capture_Complete => Verifier.Capture_Complete
  | Capture_Truncated => Verifier.Capture_Truncated
  end.
Definition view_events (e : LimitEvents) : list bool :=
  [memory_high e; memory_max e; memory_oom e; memory_oom_kill e; memory_oom_group_kill e;
   swap_max e; swap_fail e].
Definition view (f : ReceiptFacts) : Verifier.EligibilityInput :=
  Verifier.EligibilityInput_new_v2
    (match boundary f with
     | Boundary_Installed => Verifier.Boundary_Installed
     | Boundary_Incomplete => Verifier.Boundary_Incomplete
     end)
    (view_outcome (outcome f)) (view_capture (facts_stdout f)) (view_capture (facts_stderr f))
    (match structure f with
     | Structure_Valid => Verifier.Structure_Valid
     | Structure_Malformed => Verifier.Structure_Malformed
     end)
    (view_events (limit_events f)).

Definition view_reason (r : NonReusableReason) : Verifier.FailureReason :=
  match r with
  | BoundaryIncomplete => Verifier.BoundaryIncomplete
  | ExitCodeNonzero => Verifier.ExitCodeNonzero
  | ProcessSignaled => Verifier.ProcessSignaled
  | Reason_TimedOut => Verifier.Reason_TimedOut
  | Reason_Denied => Verifier.Reason_Denied
  | Reason_LauncherFailed => Verifier.Reason_LauncherFailed
  | ExecutionIncomplete => Verifier.ExecutionIncomplete
  | StandardOutputTruncated => Verifier.StandardOutputTruncated
  | StandardErrorTruncated => Verifier.StandardErrorTruncated
  | ReceiptMalformed => Verifier.ReceiptMalformed
  | MemoryHigh => Verifier.MemoryHigh
  | MemoryMax => Verifier.MemoryMax
  | MemoryOom => Verifier.MemoryOom
  | MemoryOomKill => Verifier.MemoryOomKill
  | MemoryOomGroupKill => Verifier.MemoryOomGroupKill
  | SwapMax => Verifier.SwapMax
  | SwapFail => Verifier.SwapFail
  end.
Definition view_decision (d : ReceiptEligibility) : Verifier.EligibilityDecision :=
  match d with
  | Reusable => Verifier.Reusable
  | NonReusable reasons => Verifier.NonReusable (map view_reason reasons)
  end.

(** The reasons the producer collects, before the final case split. *)
Definition eligibility_of (reasons : list NonReusableReason) : ReceiptEligibility :=
  match reasons with [] => Reusable | _ => NonReusable reasons end.

(** An [append_reason] is one step of filtering. *)
Lemma append_reason_filter f acc r l (b : bool) k :
  (b = true <-> reason_applies f r) ->
  append_reason acc b r ++ filter (reason_applies f) l = k ->
  acc ++ filter (reason_applies f) (r :: l) = k.
Proof.
  intros Hb <-. unfold append_reason. rewrite filter_cons. destruct b, (decide _) as [Hr|Hr].
  - by rewrite <- app_assoc.
  - by destruct Hr; apply Hb.
  - by apply Hb in Hr.
  - done.
Qed.

Lemma append_outcome_filter f acc l k :
  append_outcome_reason acc (outcome f) ++ filter (reason_applies f) l = k ->
  acc ++ filter (reason_applies f)
    (ExitCodeNonzero :: ProcessSignaled :: Reason_TimedOut :: Reason_Denied
     :: Reason_LauncherFailed :: ExecutionIncomplete :: l) = k.
Proof.
  intros <-. unfold append_outcome_reason. rewrite !filter_cons.
  destruct f as [b [code|signal| | | |] out err s ev]; cbn [reason_applies outcome];
    [destruct (code =? 0)%Z eqn:Hc; [apply Z.eqb_eq in Hc|apply Z.eqb_neq in Hc]|..].
  all: repeat match goal with |- context [if decide ?P then _ else _] =>
    destruct (decide P) as [Hd|Hd]; [try (exfalso; naive_solver)|try (exfalso; naive_solver)] end.
  all: try done; by rewrite <- app_assoc.
Qed.

Lemma reasons_filter f :
  derive_receipt_eligibility f = eligibility_of (filter (reason_applies f) canonical_reasons).
Proof.
  unfold derive_receipt_eligibility, append_limit_event_reasons.
  match goal with |- match ?l with _ => _ end = _ => set (reasons := l) end.
  assert ([] ++ filter (reason_applies f) canonical_reasons = reasons) as <-; [|done].
  unfold canonical_reasons.
  eapply append_reason_filter; [apply bool_decide_eq_true|].
  apply append_outcome_filter.
  do 3 (eapply append_reason_filter; [apply bool_decide_eq_true|]).
  do 7 (eapply append_reason_filter; [cbn [reason_applies]; reflexivity|]).
  rewrite app_nil_r. reflexivity.
Qed.

Lemma canonical_reasons_complete r : r ∈ canonical_reasons.
Proof. unfold canonical_reasons. destruct r; set_solver. Qed.

(** The producer's decision is the filter of the canonical reason list by
    the facts: the receipt is reusable exactly when no reason applies, and
    otherwise the reported list contains every reason that applies, only those,
    each once and in the canonical order. *)
Theorem derive_receipt_eligibility_reference (f : ReceiptFacts) :
  let applicable := filter (reason_applies f) canonical_reasons in
  (forall r, r ∈ applicable <-> reason_applies f r) /\ NoDup applicable
  /\ derive_receipt_eligibility f
     = match applicable with [] => Reusable | _ => NonReusable applicable end.
Proof.
  split; [|split].
  - intros r. rewrite list_elem_of_filter. pose proof (canonical_reasons_complete r). tauto.
  - apply NoDup_filter. apply (bool_decide_unpack _). vm_compute. exact I.
  - apply reasons_filter.
Qed.

(** Each verifier step is the producer's step on viewed reasons. *)
Abbreviation viewed := (map view_reason).
Lemma push_boundary_view f l :
  Verifier.push_boundary (Verifier.boundary (view f)) (viewed l)
  = viewed (append_reason l (bool_decide (boundary f = Boundary_Incomplete)) BoundaryIncomplete).
Proof. destruct f as [[] o out err s e]; [reflexivity|]. symmetry. apply map_app. Qed.
Lemma push_outcome_view o l :
  Verifier.push_outcome (view_outcome o) (viewed l) = viewed (append_outcome_reason l o).
Proof.
  destruct o as [code| | | | |]; unfold Verifier.push_outcome, view_outcome, append_outcome_reason;
    [destruct (code =? 0)%Z|..]; by rewrite ?map_app.
Qed.
Lemma push_capture_view c r l :
  Verifier.push_capture (view_capture c) (view_reason r) (viewed l)
  = viewed (append_reason l (bool_decide (c = Capture_Truncated)) r).
Proof. destruct c; [reflexivity|]. symmetry. apply map_app. Qed.
Lemma push_structure_view f l :
  Verifier.push_structure (Verifier.structure (view f)) (viewed l)
  = viewed (append_reason l (bool_decide (structure f = Structure_Malformed)) ReceiptMalformed).
Proof. destruct f as [b o out err [] e]; [reflexivity|]. symmetry. apply map_app. Qed.
Lemma push_events_view e l :
  Verifier.push_events (view_events e) (viewed l) = viewed (append_limit_event_reasons l e).
Proof.
  assert (forall l (b : bool) r, (if b then viewed l ++ [view_reason r] else viewed l)
    = viewed (append_reason l b r)) as Hstep by (intros ? [] ?; cbn; by rewrite ?map_app).
  unfold Verifier.push_events, view_events, append_limit_event_reasons; cbn [zip zip_with foldl fst snd].
  by rewrite <- !Hstep.
Qed.

Lemma derive_eligibility_view (f : ReceiptFacts) :
  Verifier.derive_eligibility (view f) = view_decision (derive_receipt_eligibility f).
Proof.
  unfold Verifier.derive_eligibility. change (@nil Verifier.FailureReason) with (viewed []).
  rewrite push_boundary_view. cbn [view Verifier.EligibilityInput_new_v2 Verifier.outcome
    Verifier.input_stdout Verifier.input_stderr Verifier.limit_events].
  rewrite push_outcome_view.
  rewrite (push_capture_view _ StandardOutputTruncated), (push_capture_view _ StandardErrorTruncated).
  rewrite push_structure_view, push_events_view. unfold derive_receipt_eligibility.
  by destruct (append_limit_event_reasons _ _).
Qed.

(** C30: the independent verifier reaches the producer's decision: on the
    verifier's view of the facts, [derive_eligibility] is reusable exactly when
    the producer's decision is, and lists the same reasons in the same order. *)
Theorem verifier_agrees_with_producer (f : ReceiptFacts) :
  Verifier.derive_eligibility (view f) = view_decision (derive_receipt_eligibility f).
Proof. apply derive_eligibility_view. Qed.

(** C31: a receipt is reusable exactly for a complete boundary, exit code zero,
    complete captures of both streams, a valid structure and no resource
    event. *)
Theorem reusable_iff_clean (f : ReceiptFacts) :
  derive_receipt_eligibility f = Reusable <->
  boundary f = Boundary_Installed /\ outcome f = Exited 0
  /\ facts_stdout f = Capture_Complete /\ facts_stderr f = Capture_Complete
  /\ structure f = Structure_Valid /\ LimitEvents_is_empty (limit_events f) = true.
Proof.
  rewrite reasons_filter. trans (forall r, ~ reason_applies f r).
  - unfold eligibility_of. destruct (filter _ _) as [|r l] eqn:Hl; split; try done.
    + intros _ r Hr. apply (not_elem_of_nil r). rewrite <- Hl.
      apply list_elem_of_filter. split; [done|apply canonical_reasons_complete].
    + intros Hn. exfalso. apply (Hn r).
      assert (r ∈ filter (reason_applies f) canonical_reasons) as Hr by (rewrite Hl; left).
      by apply list_elem_of_filter in Hr as [? _].
  - unfold LimitEvents_is_empty. split.
    + intros Hn. pose proof (fun r => Hn r) as Hn'.
      assert (forall b, b <> true -> b = false) as Hb by (intros []; done).
      rewrite !(Hb _ (Hn MemoryHigh)), !(Hb _ (Hn MemoryMax)), !(Hb _ (Hn MemoryOom)),
        !(Hb _ (Hn MemoryOomKill)), !(Hb _ (Hn MemoryOomGroupKill)), !(Hb _ (Hn SwapMax)),
        !(Hb _ (Hn SwapFail)).
      pose proof (Hn BoundaryIncomplete). pose proof (Hn ExitCodeNonzero).
      pose proof (Hn ProcessSignaled). pose proof (Hn Reason_TimedOut).
      pose proof (Hn Reason_Denied). pose proof (Hn Reason_LauncherFailed).
      pose proof (Hn ExecutionIncomplete). pose proof (Hn StandardOutputTruncated).
      pose proof (Hn StandardErrorTruncated). pose proof (Hn ReceiptMalformed). cbn in *.
      destruct (boundary f), (facts_stdout f), (facts_stderr f), (structure f); try done.
      destruct (outcome f) as [code|signal| | | |]; try congruence; [|exfalso; eauto].
      assert (code = 0%Z) as -> by (destruct (decide (code = 0%Z)); [done|exfalso; eauto]).
      by repeat split.
    + intros (Hb & Ho & Hout & Herr & Hs & He) r. split_andb. rewrite negb_true_iff in *.
      destruct r; cbn [reason_applies];
        first [congruence | intros (? & ? & ?); congruence | intros (? & ?); congruence].
Qed.

Lemma set_event_contains e e' p :
  LimitEvents_contains (set_event e p) e'
  = bool_decide (e' = e) || LimitEvents_contains p e'.
Proof. destruct p, e, e'; reflexivity. Qed.

(** [LimitEvents::new] is a set: it contains exactly the events of the
    collection, so the order and the repetition of events do not matter, and it
    is empty exactly for the empty collection. *)
Theorem LimitEvents_new_is_set (events : list LimitEvent) :
  (forall e, LimitEvents_contains (LimitEvents_new events) e = true <-> e ∈ events)
  /\ (LimitEvents_is_empty (LimitEvents_new events) = true <-> events = []).
Proof.
  assert (forall acc e, LimitEvents_contains
    (foldl (fun present event => set_event event present) acc events) e
    = bool_decide (e ∈ events) || LimitEvents_contains acc e) as Hfold.
  { induction events as [|e' events IH]; intros acc e; cbn [foldl].
    - by rewrite bool_decide_eq_false_2 by apply not_elem_of_nil.
    - rewrite IH, set_event_contains, orb_assoc. f_equal.
      rewrite (bool_decide_ext (e ∈ e' :: events) (e ∈ events \/ e = e'))
        by (rewrite elem_of_cons; tauto). by rewrite bool_decide_or. }
  assert (forall e, LimitEvents_contains (LimitEvents_new events) e = true <-> e ∈ events) as Hc.
  { intros e. unfold LimitEvents_new. rewrite Hfold, orb_true_iff, bool_decide_eq_true.
    assert (LimitEvents_contains LimitEvents_default e = false) as -> by by destruct e.
    naive_solver. }
  split; [done|]. split; [|by intros ->].
  intros He. destruct events as [|e events]; [done|].
  pose proof (proj2 (Hc e) ltac:(left)) as Ht. unfold LimitEvents_is_empty in He.
  split_andb. rewrite negb_true_iff in *. destruct e; cbn [LimitEvents_contains] in Ht; congruence.
Qed.

End Spec.
