(* ===== verification/VerifyDecode.v ===== *)
(** The verifier's strict receipt decoding: the wire types and the version
    dispatch of [proofbound-runtime-verify/src/decode.rs] and the closed version
    2 decoder of [decode_v2.rs] over the verifier's own CBOR codec.

    JSON is the [serde_json] crate, and the version 1 wire structs are parsed by
    code that [serde]'s derive macro generates; both enter as the class
    [SerdeJson], whose operations the definitions take as parameters. *)
From S2P Require Import Prelude Eligibility VerifyCbor.
From Stdlib Require Import Ascii ZArith Lia Sorted.
From stdpp Require Import prelude strings list numbers.
Export stdpp.list_relations.list.

Inductive DecodeError := MalformedJson | MalformedCbor | InvalidSchema | UnsupportedVersion.
#[global] Instance DecodeError_eq_dec : EqDecision DecodeError.
Proof. solve_decision. Defined.
Definition DecodeError_code (e : DecodeError) : string :=
  match e with
  | MalformedJson => "receipt.schema.malformed-json"
  | MalformedCbor => "receipt.schema.malformed-cbor"
  | InvalidSchema => "receipt.schema.invalid"
  | UnsupportedVersion => "receipt.schema.unsupported-version"
  end.

(** * Wire types *)

Inductive WireArtifactRole :=
| ExecutionPlan | NormalizedPlan | CompiledPolicy | RuntimeBinary | LauncherBinary
| VerifierBinary | RuntimeExecutable | RuntimeLoaderExecutable | RuntimeLibrary
| WorkingDirectory | ProjectInput | OutputRoot | StandardOutput | StandardError | OutputArtifact.
#[global] Instance WireArtifactRole_eq_dec : EqDecision WireArtifactRole.
Proof. solve_decision. Defined.

(** [sha256] and [size] are texts; [mode] is a [u16]. *)
Record WireArtifact := mkWireArtifact {
  art_role : WireArtifactRole;
  art_sha256 : string;
  art_size : string;
  art_mode : Z
}.
#[global] Instance WireArtifact_eq_dec : EqDecision WireArtifact.
Proof. solve_decision. Defined.

Record WirePlan := mkWirePlan {
  plan_id : string; plan_source : WireArtifact; plan_normalized : WireArtifact
}.
Record WirePlanLimits := mkWirePlanLimits {
  pl_processes : Z; pl_wall_time_ms : Z; pl_stdout_bytes : Z; pl_stderr_bytes : Z;
  pl_memory : Z; pl_swap : Z
}.
Record WirePolicy := mkWirePolicy { policy_identity : WireArtifact; policy_model_version : string }.
Inductive WireArchitecture := X86_64 | Aarch64.
Record WirePlatform := mkWirePlatform {
  operating_system : string;
  architecture : WireArchitecture;
  kernel_release : string;
  landlock_abi : Z;
  seccomp_features : list string;
  cgroup_controllers : list string
}.
Record WireRuntime := mkWireRuntime { rt_runtime : WireArtifact; rt_launcher : WireArtifact }.
Record WireCommand := mkWireCommand {
  cmd_executable : WireArtifact;
  cmd_loader : option WireArtifact;
  cmd_working_directory : WireArtifact;
  cmd_arguments_sha256 : string
}.
Inductive WireBoundaryState := Wire_Installed | Wire_BoundaryIncomplete.
Record WireCgroup := mkWireCgroup { mount_id : string; inode : string }.
Record WireBoundary := mkWireBoundary {
  bd_state : WireBoundaryState;
  bd_execution_id : string;
  bd_policy_sha256 : string;
  bd_cgroup : WireCgroup
}.
Record WireObservations := mkWireObservations {
  clock : string; started_ns : string; finished_ns : string
}.
Inductive WireCapture := Wire_Complete | Wire_Truncated.
Record WireStream := mkWireStream { stream_artifact : WireArtifact; stream_capture : WireCapture }.
Record WireStreams := mkWireStreams { streams_stdout : WireStream; streams_stderr : WireStream }.
Inductive WireOutcome :=
| Wire_Exited (code : Z)
| Wire_Signaled (signal : Z)
| Wire_TimedOut
| Wire_Denied
| Wire_LauncherFailed
| Wire_Incomplete.
Inductive WireEligibilityStatus := Status_Reusable | Status_NonReusable.
Inductive WireReason :=
| BoundaryIncomplete | ExitCodeNonzero | ProcessSignaled | TimedOut | Denied | LauncherFailed
| ExecutionIncomplete | StdoutTruncated | StderrTruncated | ReceiptMalformed
| MemoryHigh | MemoryMax | MemoryOom | MemoryOomKill | MemoryOomGroupKill | SwapMax | SwapFail.
#[global] Instance WireReason_eq_dec : EqDecision WireReason.
Proof. solve_decision. Defined.
Record WireEligibility := mkWireEligibility {
  elig_status : WireEligibilityStatus; elig_reasons : list WireReason
}.
Record WireTcbEntry := mkWireTcbEntry { tcb_role : string; tcb_identity : string }.
(** [memory_events] is [[u64; 6]] and [swap_events] is [[u64; 2]]. *)
Record WireResources := mkWireResources {
  res_processes : Z; res_memory : Z; res_swap : Z;
  res_memory_peak : Z; res_swap_peak : Z;
  res_memory_events : list Z; res_swap_events : list Z;
  res_limit_events : list WireReason;
  res_observations_complete : bool
}.
Record WireReceipt := mkWireReceipt {
  w_schema : string; w_product_version : string; w_execution_id : string;
  w_plan : WirePlan; w_policy : WirePolicy; w_platform : WirePlatform;
  w_runtime : WireRuntime; w_command : WireCommand;
  w_inputs : list WireArtifact; w_environment : list string; w_output_root : WireArtifact;
  w_boundary : WireBoundary; w_observations : WireObservations; w_streams : WireStreams;
  w_outcome : WireOutcome; w_outputs : list WireArtifact; w_eligibility : WireEligibility;
  w_producer : WireArtifact; w_assumptions : list string;
  w_trusted_computing_base : list WireTcbEntry
}.
Inductive RecordedEligibility :=
| Recorded_Reusable
| Recorded_NonReusable (reasons : list WireReason).

Definition WireReason_as_str (r : WireReason) : string :=
  match r with
  | BoundaryIncomplete => "boundary-incomplete"
  | ExitCodeNonzero => "exit-code-nonzero"
  | ProcessSignaled => "process-signaled"
  | TimedOut => "timed-out"
  | Denied => "denied"
  | LauncherFailed => "launcher-failed"
  | ExecutionIncomplete => "execution-incomplete"
  | StdoutTruncated => "stdout-truncated"
  | StderrTruncated => "stderr-truncated"
  | ReceiptMalformed => "receipt-malformed"
  | MemoryHigh => "memory-high"
  | MemoryMax => "memory-max"
  | MemoryOom => "memory-oom"
  | MemoryOomKill => "memory-oom-kill"
  | MemoryOomGroupKill => "memory-oom-group-kill"
  | SwapMax => "swap-max"
  | SwapFail => "swap-fail"
  end.
Definition wire_artifact_role (r : WireArtifactRole) : string :=
  match r with
  | ExecutionPlan => "execution-plan"
  | NormalizedPlan => "normalized-plan"
  | CompiledPolicy => "compiled-policy"
  | RuntimeBinary => "runtime-binary"
  | LauncherBinary => "launcher-binary"
  | VerifierBinary => "verifier-binary"
  | RuntimeExecutable => "runtime-executable"
  | RuntimeLoaderExecutable => "runtime-loader-executable"
  | RuntimeLibrary => "runtime-library"
  | WorkingDirectory => "working-directory"
  | ProjectInput => "project-input"
  | OutputRoot => "output-root"
  | StandardOutput => "standard-output"
  | StandardError => "standard-error"
  | OutputArtifact => "output-artifact"
  end.

(** * Field access *)

Abbreviation dec := (result DecodeError).
Definition is_name (name : string) (kv : string * Value) : bool := String.eqb kv.1 name.

Definition exact_map (value : Value) (names : list string) : dec (list (string * Value)) :=
  match value with
  | Map map =>
    if negb (length map =? length names)
       || negb (forallb (fun name => existsb (is_name name) map) names)
    then Err InvalidSchema else Ok map
  | _ => Err InvalidSchema
  end.
Definition field (map : list (string * Value)) (name : string) : dec Value :=
  ok_or (snd <$> List.find (is_name name) map) InvalidSchema.
Definition array (value : Value) : dec (list Value) :=
  match value with Array values => Ok values | _ => Err InvalidSchema end.
Definition text (value : Value) : dec string :=
  match value with Text value => Ok value | _ => Err InvalidSchema end.
Definition unsigned (value : Value) : dec Z :=
  match value with Unsigned value => Ok value | _ => Err InvalidSchema end.
Definition bytes_exact (n : nat) (value : Value) : dec (list byte) :=
  match value with
  | Bytes bytes => if length bytes =? n then Ok bytes else Err InvalidSchema
  | _ => Err InvalidSchema
  end.
(** [u32::try_from(..).ok().filter(|value| *value != 0)] *)
Definition nonzero_u32 (value : Z) : dec Z :=
  match u32_try_from value with
  | Some value => if negb (value =? 0)%Z then Ok value else Err InvalidSchema
  | None => Err InvalidSchema
  end.
(** [u16::try_from(..).ok().filter(|value| *value <= 0o7777)] *)
Definition mode_u16 (value : Z) : dec Z :=
  match u16_try_from value with
  | Some value => if (value <=? 4095)%Z then Ok value else Err InvalidSchema
  | None => Err InvalidSchema
  end.
Definition i32_try_from (value : Z) : option Z :=
  if (- 2 ^ 31 <=? value)%Z && (value <? 2 ^ 31)%Z then Some value else None.
Definition signed_i32 (value : Value) : dec Z :=
  value ← match value with
          | Unsigned value => ok_or (i64_try_from value) InvalidSchema
          | Negative argument => ok_or (i64_try_from (-1 - argument)) InvalidSchema
          | _ => Err InvalidSchema
          end;
  ok_or (i32_try_from value) InvalidSchema.

Definition hex (bytes : list byte) : string := String.string_of_list_ascii (hex_bytes bytes).
Definition slice (l : list byte) (a b : nat) : list byte := take (b - a) (drop a l).
Definition uuid_text (bytes : list byte) : string :=
  let encoded := hex_bytes bytes in
  let dash := ["-"%char] in
  String.string_of_list_ascii
    (slice encoded 0 8 ++ dash ++ slice encoded 8 12 ++ dash ++ slice encoded 12 16 ++ dash
     ++ slice encoded 16 20 ++ dash ++ slice encoded 20 32).

(** * Parsers *)

Definition MAX_RESOURCE_BYTES : Z := 1099511627776.
Definition RESOURCE_QUANTUM : Z := 65536.
Definition SCHEMA : string := "proofbound-runtime-execution-receipt/2".
Definition POLICY : string := "proofbound-runtime-linux-policy/2".

(** The range tests that [parse_plan] and [parse_resources] share. *)
Definition memory_invalid (memory : Z) : bool :=
  negb ((RESOURCE_QUANTUM <=? memory)%Z && (memory <=? MAX_RESOURCE_BYTES)%Z)
  || negb (memory mod RESOURCE_QUANTUM =? 0)%Z.
Definition swap_invalid (swap : Z) : bool :=
  (MAX_RESOURCE_BYTES <? swap)%Z || negb (swap mod RESOURCE_QUANTUM =? 0)%Z.

Definition artifact_role (value : string) : dec WireArtifactRole :=
  if String.eqb value "execution-plan" then Ok ExecutionPlan
  else if String.eqb value "normalized-plan" then Ok NormalizedPlan
  else if String.eqb value "compiled-policy" then Ok CompiledPolicy
  else if String.eqb value "runtime-binary" then Ok RuntimeBinary
  else if String.eqb value "launcher-binary" then Ok LauncherBinary
  else if String.eqb value "verifier-binary" then Ok VerifierBinary
  else if String.eqb value "runtime-executable" then Ok RuntimeExecutable
  else if String.eqb value "runtime-loader-executable" then Ok RuntimeLoaderExecutable
  else if String.eqb value "runtime-library" then Ok RuntimeLibrary
  else if String.eqb value "working-directory" then Ok WorkingDirectory
  else if String.eqb value "project-input" then Ok ProjectInput
  else if String.eqb value "output-root" then Ok OutputRoot
  else if String.eqb value "standard-output" then Ok StandardOutput
  else if String.eqb value "standard-error" then Ok StandardError
  else if String.eqb value "output-artifact" then Ok OutputArtifact
  else Err InvalidSchema.

Definition parse_artifact (value : Value) : dec WireArtifact :=
  map ← exact_map value ["mode"; "role"; "size"; "sha256"];
  mode ← (field map "mode" ≫= unsigned) ≫= mode_u16;
  role ← (field map "role" ≫= text) ≫= artifact_role;
  sha256 ← field map "sha256" ≫= bytes_exact 32;
  size ← field map "size" ≫= unsigned;
  Ok (mkWireArtifact role (hex sha256) (u64_to_string size) mode).
Definition parse_artifacts (value : Value) : dec (list WireArtifact) :=
  values ← array value; mapM parse_artifact values.
Definition parse_text_array (value : Value) : dec (list string) :=
  values ← array value; mapM text values.

Definition parse_plan (value : Value) : dec (WirePlan * WirePlanLimits) :=
  map ← exact_map value ["id"; "source"; "normalized"; "limits"];
  limits ← field map "limits";
  limits ← exact_map limits
    ["processes"; "wall_time_ms"; "stdout_bytes"; "stderr_bytes"; "memory_bytes"; "swap_bytes"];
  processes ← (field limits "processes" ≫= unsigned) ≫= nonzero_u32;
  wall_time_ms ← field limits "wall_time_ms" ≫= unsigned;
  memory ← field limits "memory_bytes" ≫= unsigned;
  swap ← field limits "swap_bytes" ≫= unsigned;
  if (wall_time_ms =? 0)%Z || memory_invalid memory || swap_invalid swap then Err InvalidSchema
  else
    id ← field map "id" ≫= text;
    source ← field map "source" ≫= parse_artifact;
    normalized ← field map "normalized" ≫= parse_artifact;
    stdout_bytes ← field limits "stdout_bytes" ≫= unsigned;
    stderr_bytes ← field limits "stderr_bytes" ≫= unsigned;
    Ok (mkWirePlan id source normalized,
        mkWirePlanLimits processes wall_time_ms stdout_bytes stderr_bytes memory swap).

Definition parse_policy (value : Value) : dec WirePolicy :=
  map ← exact_map value ["identity"; "model_version"];
  model_version ← field map "model_version" ≫= text;
  if negb (String.eqb model_version POLICY) then Err InvalidSchema
  else
    identity ← field map "identity" ≫= parse_artifact;
    Ok (mkWirePolicy identity model_version).

Definition parse_architecture (value : string) : dec WireArchitecture :=
  if String.eqb value "x86_64" then Ok X86_64
  else if String.eqb value "aarch64" then Ok Aarch64
  else Err InvalidSchema.
Definition parse_platform (value : Value) : dec WirePlatform :=
  map ← exact_map value
    ["architecture"; "landlock_abi"; "kernel_release"; "operating_system"; "seccomp_features";
     "cgroup_controllers"];
  operating_system ← field map "operating_system" ≫= text;
  if negb (String.eqb operating_system "linux") then Err InvalidSchema
  else
    architecture ← (field map "architecture" ≫= text) ≫= parse_architecture;
    landlock_abi ← (field map "landlock_abi" ≫= unsigned) ≫= nonzero_u32;
    kernel_release ← field map "kernel_release" ≫= text;
    seccomp_features ← field map "seccomp_features" ≫= parse_text_array;
    cgroup_controllers ← field map "cgroup_controllers" ≫= parse_text_array;
    Ok (mkWirePlatform operating_system architecture kernel_release landlock_abi
          seccomp_features cgroup_controllers).

Definition parse_runtime (value : Value) : dec WireRuntime :=
  map ← exact_map value ["runtime"; "launcher"];
  runtime ← field map "runtime" ≫= parse_artifact;
  launcher ← field map "launcher" ≫= parse_artifact;
  Ok (mkWireRuntime runtime launcher).

Definition parse_loader (value : Value) : dec (option WireArtifact) :=
  match value with
  | Null => Ok None
  | value => artifact ← parse_artifact value; Ok (Some artifact)
  end.
Definition parse_command (value : Value) : dec WireCommand :=
  map ← exact_map value ["loader"; "executable"; "arguments_sha256"; "working_directory"];
  loader ← field map "loader" ≫= parse_loader;
  executable ← field map "executable" ≫= parse_artifact;
  working_directory ← field map "working_directory" ≫= parse_artifact;
  arguments_sha256 ← field map "arguments_sha256" ≫= bytes_exact 32;
  Ok (mkWireCommand executable loader working_directory (hex arguments_sha256)).

Definition parse_boundary_state (value : string) : dec WireBoundaryState :=
  if String.eqb value "installed" then Ok Wire_Installed
  else if String.eqb value "incomplete" then Ok Wire_BoundaryIncomplete
  else Err InvalidSchema.
Definition parse_boundary (value : Value) : dec WireBoundary :=
  map ← exact_map value ["state"; "cgroup"; "execution_id"; "policy_sha256"];
  state ← (field map "state" ≫= text) ≫= parse_boundary_state;
  cgroup ← field map "cgroup";
  cgroup ← exact_map cgroup ["inode"; "mount_id"];
  execution_id ← field map "execution_id" ≫= bytes_exact 16;
  policy_sha256 ← field map "policy_sha256" ≫= bytes_exact 32;
  mount_id ← field cgroup "mount_id" ≫= unsigned;
  inode ← field cgroup "inode" ≫= unsigned;
  Ok (mkWireBoundary state (uuid_text execution_id) (hex policy_sha256)
        (mkWireCgroup (u64_to_string mount_id) (u64_to_string inode))).

Definition parse_observations (value : Value) : dec WireObservations :=
  map ← exact_map value ["clock"; "started_ns"; "finished_ns"];
  clock ← field map "clock" ≫= text;
  if negb (String.eqb clock "linux-monotonic") then Err InvalidSchema
  else
    started_ns ← field map "started_ns" ≫= unsigned;
    finished_ns ← field map "finished_ns" ≫= unsigned;
    Ok (mkWireObservations clock (u64_to_string started_ns) (u64_to_string finished_ns)).

Definition parse_capture (value : string) : dec WireCapture :=
  if String.eqb value "complete" then Ok Wire_Complete
  else if String.eqb value "truncated" then Ok Wire_Truncated
  else Err InvalidSchema.
Definition parse_stream (value : Value) : dec WireStream :=
  map ← exact_map value ["capture"; "artifact"];
  capture ← (field map "capture" ≫= text) ≫= parse_capture;
  artifact ← field map "artifact" ≫= parse_artifact;
  Ok (mkWireStream artifact capture).
Definition parse_streams (value : Value) : dec WireStreams :=
  map ← exact_map value ["stderr"; "stdout"];
  stdout ← field map "stdout" ≫= parse_stream;
  stderr ← field map "stderr" ≫= parse_stream;
  Ok (mkWireStreams stdout stderr).

Definition parse_outcome (value : Value) : dec WireOutcome :=
  match value with
  | Map map =>
    kind ← field map "kind" ≫= text;
    if String.eqb kind "exited" then
      _ ← exact_map value ["kind"; "code"];
      code ← field map "code" ≫= signed_i32;
      Ok (Wire_Exited code)
    else if String.eqb kind "signaled" then
      _ ← exact_map value ["kind"; "signal"];
      signal ← (field map "signal" ≫= unsigned) ≫= nonzero_u32;
      Ok (Wire_Signaled signal)
    else if String.eqb kind "timed-out" then _ ← exact_map value ["kind"]; Ok Wire_TimedOut
    else if String.eqb kind "denied" then _ ← exact_map value ["kind"]; Ok Wire_Denied
    else if String.eqb kind "launcher-failed" then
      _ ← exact_map value ["kind"]; Ok Wire_LauncherFailed
    else if String.eqb kind "incomplete" then _ ← exact_map value ["kind"]; Ok Wire_Incomplete
    else Err InvalidSchema
  | _ => Err InvalidSchema
  end.

Definition reason (value : string) : dec WireReason :=
  if String.eqb value "boundary-incomplete" then Ok BoundaryIncomplete
  else if String.eqb value "exit-code-nonzero" then Ok ExitCodeNonzero
  else if String.eqb value "process-signaled" then Ok ProcessSignaled
  else if String.eqb value "timed-out" then Ok TimedOut
  else if String.eqb value "denied" then Ok Denied
  else if String.eqb value "launcher-failed" then Ok LauncherFailed
  else if String.eqb value "execution-incomplete" then Ok ExecutionIncomplete
  else if String.eqb value "stdout-truncated" then Ok StdoutTruncated
  else if String.eqb value "stderr-truncated" then Ok StderrTruncated
  else if String.eqb value "receipt-malformed" then Ok ReceiptMalformed
  else if String.eqb value "memory-high" then Ok MemoryHigh
  else if String.eqb value "memory-max" then Ok MemoryMax
  else if String.eqb value "memory-oom" then Ok MemoryOom
  else if String.eqb value "memory-oom-kill" then Ok MemoryOomKill
  else if String.eqb value "memory-oom-group-kill" then Ok MemoryOomGroupKill
  else if String.eqb value "swap-max" then Ok SwapMax
  else if String.eqb value "swap-fail" then Ok SwapFail
  else Err InvalidSchema.
Definition parse_reason_array (value : Value) : dec (list WireReason) :=
  values ← array value; mapM (fun value => text value ≫= reason) values.

Definition parse_status (value : string) : dec WireEligibilityStatus :=
  if String.eqb value "reusable" then Ok Status_Reusable
  else if String.eqb value "non-reusable" then Ok Status_NonReusable
  else Err InvalidSchema.
Definition parse_eligibility (value : Value) : dec WireEligibility :=
  map ← exact_map value ["status"; "reasons"];
  status ← (field map "status" ≫= text) ≫= parse_status;
  reasons ← field map "reasons" ≫= parse_reason_array;
  Ok (mkWireEligibility status reasons).

Definition parse_tcb_entry (value : Value) : dec WireTcbEntry :=
  map ← exact_map value ["role"; "identity"];
  role ← field map "role" ≫= text;
  identity ← field map "identity" ≫= text;
  Ok (mkWireTcbEntry role identity).
Definition parse_tcb (value : Value) : dec (list WireTcbEntry) :=
  entries ← array value;
  if bool_decide (length entries = 0) then Err InvalidSchema else mapM parse_tcb_entry entries.

(** The [terminal] object of [parse_resources]. *)
Definition parse_terminal (terminal_value : Value) : dec (Z * Z * list Z * list Z) :=
  terminal ← exact_map terminal_value
    ["swap_events"; "memory_events"; "swap_peak_bytes"; "memory_peak_bytes"];
  memory_map ← field terminal "memory_events";
  memory_map ← exact_map memory_map ["low"; "oom"; "high"; "max"; "oom_kill"; "oom_group_kill"];
  swap_map ← field terminal "swap_events";
  swap_map ← exact_map swap_map ["max"; "fail"];
  memory_peak ← field terminal "memory_peak_bytes" ≫= unsigned;
  swap_peak ← field terminal "swap_peak_bytes" ≫= unsigned;
  low ← field memory_map "low" ≫= unsigned;
  high ← field memory_map "high" ≫= unsigned;
  max ← field memory_map "max" ≫= unsigned;
  oom ← field memory_map "oom" ≫= unsigned;
  oom_kill ← field memory_map "oom_kill" ≫= unsigned;
  oom_group_kill ← field memory_map "oom_group_kill" ≫= unsigned;
  swap_max ← field swap_map "max" ≫= unsigned;
  swap_fail ← field swap_map "fail" ≫= unsigned;
  Ok (memory_peak, swap_peak, [low; high; max; oom; oom_kill; oom_group_kill], [swap_max; swap_fail]).

Definition parse_resources (value : Value) : dec WireResources :=
  map ← exact_map value ["terminal"; "configured"; "limit_events"];
  configured ← field map "configured";
  configured ← exact_map configured
    ["pids.max"; "memory.max"; "memory.oom.group"; "memory.swap.max"];
  processes ← (field configured "pids.max" ≫= unsigned) ≫= nonzero_u32;
  memory ← field configured "memory.max" ≫= unsigned;
  swap ← field configured "memory.swap.max" ≫= unsigned;
  if memory_invalid memory || swap_invalid swap then Err InvalidSchema
  else
    oom_group ← field configured "memory.oom.group" ≫= unsigned;
    if negb (oom_group =? 1)%Z then Err InvalidSchema
    else
      terminal_value ← field map "terminal";
      limit_events ← field map "limit_events" ≫= parse_reason_array;
      match terminal_value with
      | Null =>
        Ok (mkWireResources processes memory swap 0 0 (replicate 6 0%Z) (replicate 2 0%Z)
              limit_events false)
      | _ =>
        '(memory_peak, swap_peak, memory_events, swap_events) ← parse_terminal terminal_value;
        Ok (mkWireResources processes memory swap memory_peak swap_peak memory_events swap_events
              limit_events true)
      end.

Definition outcome_state (outcome : WireOutcome) : dec Verifier.OutcomeState :=
  match outcome with
  | Wire_Exited code => Ok (Verifier.Exited code)
  | Wire_Signaled signal =>
    if (signal =? 0)%Z then Err InvalidSchema else Ok (Verifier.Signaled signal)
  | Wire_TimedOut => Ok Verifier.TimedOut
  | Wire_Denied => Ok Verifier.Denied
  | Wire_LauncherFailed => Ok Verifier.LauncherFailed
  | Wire_Incomplete => Ok Verifier.Incomplete
  end.
Definition capture_state (value : WireCapture) : Verifier.CaptureState :=
  match value with
  | Wire_Complete => Verifier.Capture_Complete
  | Wire_Truncated => Verifier.Capture_Truncated
  end.
Definition boundary_state (value : WireBoundaryState) : Verifier.BoundaryState :=
  match value with
  | Wire_Installed => Verifier.Boundary_Installed
  | Wire_BoundaryIncomplete => Verifier.Boundary_Incomplete
  end.
(** The [match] on the recorded status and the emptiness of its reasons. *)
Definition recorded_of (eligibility : WireEligibility) : dec RecordedEligibility :=
  match elig_status eligibility, elig_reasons eligibility with
  | Status_Reusable, [] => Ok Recorded_Reusable
  | Status_NonReusable, (_ :: _) as reasons => Ok (Recorded_NonReusable reasons)
  | _, _ => Err InvalidSchema
  end.
Definition event_at (events : list Z) (index : nat) : bool := negb (nth index events 0 =? 0)%Z.
Definition resource_events (r : WireResources) : list bool :=
  [event_at (res_memory_events r) 1; event_at (res_memory_events r) 2;
   event_at (res_memory_events r) 3; event_at (res_memory_events r) 4;
   event_at (res_memory_events r) 5; event_at (res_swap_events r) 0;
   event_at (res_swap_events r) 1].

(** * JSON *)

(** What the verifier uses of [serde_json]: the constructors of its value type,
    parsing (whose errors [classify_json_error] sorts by category), the derived
    deserializer of the version 1 wire struct, and printing. *)
Inductive JsonErrorCategory := Json_Syntax | Json_Eof | Json_Io | Json_Data.
Class SerdeJson := {
  Json : Type;
  json_string : string -> Json;
  json_u64 : Z -> Json;
  json_i64 : Z -> Json;
  json_bool : bool -> Json;
  json_null : Json;
  json_array : list Json -> Json;
  json_object : list (string * Json) -> Json;
  json_get_str : Json -> string -> option string;
  from_slice : list byte -> result JsonErrorCategory Json;
  from_value : Json -> option WireReceipt;
  to_vec : Json -> option (list byte)
}.

Section decode.
Context {serde : SerdeJson}.

Record DecodedReceipt := mkDecodedReceipt {
  dr_value : Json;
  dr_wire : WireReceipt;
  dr_eligibility_input : Verifier.EligibilityInput;
  dr_recorded_eligibility : RecordedEligibility;
  dr_version_two : bool;
  dr_resources : option WireResources;
  dr_plan_limits : option WirePlanLimits
}.

Definition decimal_fields : list string :=
  ["size"; "inode"; "mount_id"; "started_ns"; "finished_ns"; "memory.max"; "memory.swap.max";
   "memory_peak_bytes"; "swap_peak_bytes"].
Definition mem (name : string) (names : list string) : bool := existsb (String.eqb name) names.
Definition decimal_projection_path (path : list string) : bool :=
  match head (reverse path) with
  | None => false
  | Some field =>
    mem field decimal_fields
    || existsb (fun parent => mem parent ["memory_events"; "swap_events"]) path
  end.

(** [path] is pushed and popped around each entry. *)
Fixpoint project (value : Value) (path : list string) : dec Json :=
  match value with
  | Unsigned value =>
    if decimal_projection_path path then Ok (json_string (u64_to_string value))
    else Ok (json_u64 value)
  | Negative argument =>
    value ← ok_or (i64_try_from (-1 - argument)) InvalidSchema; Ok (json_i64 value)
  | Bytes bytes => Ok (json_string (String.append "hex:" (hex bytes)))
  | Text value => Ok (json_string value)
  | Array values => values ← mapM (fun value => project value path) values; Ok (json_array values)
  | Map values =>
    object ← mapM (fun kv => v ← project kv.2 (path ++ [kv.1]); Ok (kv.1, v)) values;
    Ok (json_object object)
  | Bool value => Ok (json_bool value)
  | Null => Ok json_null
  end.

Definition top_names : list string :=
  ["plan"; "schema"; "inputs"; "policy"; "runtime"; "streams"; "command"; "outcome"; "outputs";
   "boundary"; "producer"; "platform"; "resources"; "eligibility"; "environment"; "execution_id";
   "observations"; "product_version"; "assumptions"; "output_root"; "trusted_computing_base"].

Definition decode_v2_receipt (input : list byte) : dec DecodedReceipt :=
  root ← map_err (fun _ => MalformedCbor) (decode input);
  top ← exact_map root top_names;
  schema ← field top "schema" ≫= text;
  if negb (String.eqb schema SCHEMA) then Err UnsupportedVersion
  else
    '(plan, plan_limits) ← field top "plan" ≫= parse_plan;
    policy ← field top "policy" ≫= parse_policy;
    platform ← field top "platform" ≫= parse_platform;
    runtime ← field top "runtime" ≫= parse_runtime;
    command ← field top "command" ≫= parse_command;
    inputs ← field top "inputs" ≫= parse_artifacts;
    environment ← field top "environment" ≫= parse_text_array;
    output_root ← field top "output_root" ≫= parse_artifact;
    boundary ← field top "boundary" ≫= parse_boundary;
    observations ← field top "observations" ≫= parse_observations;
    streams ← field top "streams" ≫= parse_streams;
    outcome ← field top "outcome" ≫= parse_outcome;
    outputs ← field top "outputs" ≫= parse_artifacts;
    producer ← field top "producer" ≫= parse_artifact;
    assumptions ← field top "assumptions" ≫= parse_text_array;
    tcb ← field top "trusted_computing_base" ≫= parse_tcb;
    resources ← field top "resources" ≫= parse_resources;
    eligibility ← field top "eligibility" ≫= parse_eligibility;
    recorded ← recorded_of eligibility;
    outcome_st ← outcome_state outcome;
    let eligibility_input :=
      Verifier.EligibilityInput_new_v2 (boundary_state (bd_state boundary)) outcome_st
        (capture_state (stream_capture (streams_stdout streams)))
        (capture_state (stream_capture (streams_stderr streams)))
        (if res_observations_complete resources then Verifier.Structure_Valid
         else Verifier.Structure_Malformed)
        (resource_events resources) in
    execution_id ← field top "execution_id" ≫= bytes_exact 16;
    product_version ← field top "product_version" ≫= text;
    let wire :=
      mkWireReceipt SCHEMA product_version (uuid_text execution_id) plan policy platform runtime
        command inputs environment output_root boundary observations streams outcome outputs
        eligibility producer assumptions tcb in
    projection ← project root [];
    Ok (mkDecodedReceipt projection wire eligibility_input recorded true (Some resources)
          (Some plan_limits)).

(** * Version 1 and the dispatch *)

Definition RECEIPT_SCHEMA : string := "proofbound-runtime-receipt/1".
Definition POLICY_MODEL_VERSION : string := "proofbound-runtime-linux-policy/1".
Definition classify_json_error (e : JsonErrorCategory) : DecodeError :=
  match e with
  | Json_Syntax | Json_Eof | Json_Io => MalformedJson
  | Json_Data => InvalidSchema
  end.
Definition decode_v1_receipt (input : list byte) : dec DecodedReceipt :=
  value ← map_err classify_json_error (from_slice input);
  wire ← ok_or (from_value value) InvalidSchema;
  if negb (String.eqb (w_schema wire) RECEIPT_SCHEMA) then Err UnsupportedVersion
  else if negb (String.eqb (policy_model_version (w_policy wire)) POLICY_MODEL_VERSION)
          || negb (String.eqb (operating_system (w_platform wire)) "linux")
          || negb (String.eqb (clock (w_observations wire)) "linux-monotonic")
  then Err InvalidSchema
  else
    outcome ← outcome_state (w_outcome wire);
    recorded ← recorded_of (w_eligibility wire);
    Ok (mkDecodedReceipt value wire
          (Verifier.EligibilityInput_new (boundary_state (bd_state (w_boundary wire))) outcome
             (capture_state (stream_capture (streams_stdout (w_streams wire))))
             (capture_state (stream_capture (streams_stderr (w_streams wire))))
             Verifier.Structure_Valid)
          recorded false None None).

Definition decode_receipt (input : list byte) : dec DecodedReceipt :=
  if negb (bool_decide (head input = Some "{"%char)) then decode_v2_receipt input
  else decode_v1_receipt input.
End decode.
