(* ===== verification/VerifyReceipt.v ===== *)
(** Independent receipt verification: the semantic validation of
    [proofbound-runtime-verify/src/identity.rs], the canonical-byte checks of
    [canonical.rs], and the pipeline of [lib.rs] with the errors of [error.rs].

    [artifact_order] calls [expect], so validation returns a
    [result (fault ValidationError) ()]; the theorems show that the panic is
    never reached.  SHA-256 and JSON are parameters. *)
From S2P Require Import Prelude Vectors Identity Eligibility VerifyCbor VerifyDecode.
From Stdlib Require Import Ascii ZArith Lia Sorted.
From stdpp Require Import prelude strings list numbers.
Export stdpp.list_relations.list.

(** * [identity.rs] *)

Inductive ValidationError :=
| InvalidProductVersion | InvalidExecutionId | InvalidPlanId | InvalidEnvironmentName
| InvalidPlatform | InvalidDigest | InvalidUnsignedDecimal | InvalidMode | RoleMismatch
| SetNotCanonical | ArtifactListNotCanonical | ExecutionIdentityMismatch
| PolicyIdentityMismatch | ProducerIdentityMismatch | ObservationOrder | AssumptionMissing
| UnsupportedTcbRole | TcbNotCanonical | TcbRoleMissing | EligibilityMismatch
| ResourceEventsMismatch | ResourcePlanMismatch.
#[global] Instance ValidationError_eq_dec : EqDecision ValidationError.
Proof. solve_decision. Defined.
Definition ValidationError_code (e : ValidationError) : string :=
  match e with
  | InvalidProductVersion => "receipt.product-version.invalid"
  | InvalidExecutionId => "receipt.execution-id.invalid"
  | InvalidPlanId => "receipt.plan-id.invalid"
  | InvalidEnvironmentName => "receipt.environment-name.invalid"
  | InvalidPlatform => "receipt.platform.invalid"
  | InvalidDigest => "receipt.identity.digest.invalid"
  | InvalidUnsignedDecimal => "receipt.identity.decimal.invalid"
  | InvalidMode => "receipt.identity.mode.invalid"
  | RoleMismatch => "receipt.role.mismatch"
  | SetNotCanonical => "receipt.set.not-canonical"
  | ArtifactListNotCanonical => "receipt.artifact-list.not-canonical"
  | ExecutionIdentityMismatch => "receipt.identity.execution-mismatch"
  | PolicyIdentityMismatch => "receipt.identity.policy-mismatch"
  | ProducerIdentityMismatch => "receipt.identity.producer-mismatch"
  | ObservationOrder => "receipt.observation.order"
  | AssumptionMissing => "receipt.assumption.missing"
  | UnsupportedTcbRole => "receipt.tcb.role.unsupported"
  | TcbNotCanonical => "receipt.tcb.not-canonical"
  | TcbRoleMissing => "receipt.tcb.role.missing"
  | EligibilityMismatch => "receipt.eligibility.mismatch"
  | ResourceEventsMismatch => "receipt.resources.events-mismatch"
  | ResourcePlanMismatch => "receipt.resources.plan-mismatch"
  end.

Inductive TcbRole :=
| Tcb_HostHardwareFirmware | Tcb_LinuxKernel | Tcb_Landlock | Tcb_Seccomp | Tcb_CgroupV2
| Tcb_NoNewPrivileges | Tcb_Filesystem | Tcb_RuntimeBinary | Tcb_LauncherBinary
| Tcb_RustToolchain | Tcb_CryptographicDigest | Tcb_RuntimeExecutable
| Tcb_RuntimeLoaderExecutable | Tcb_RuntimeLibrary.
#[global] Instance TcbRole_eq_dec : EqDecision TcbRole.
Proof. solve_decision. Defined.
(** The discriminants that the derived [Ord] compares. *)
Definition TcbRole_discriminant (r : TcbRole) : Z :=
  match r with
  | Tcb_HostHardwareFirmware => 0 | Tcb_LinuxKernel => 1 | Tcb_Landlock => 2 | Tcb_Seccomp => 3
  | Tcb_CgroupV2 => 4 | Tcb_NoNewPrivileges => 5 | Tcb_Filesystem => 6 | Tcb_RuntimeBinary => 7
  | Tcb_LauncherBinary => 8 | Tcb_RustToolchain => 9 | Tcb_CryptographicDigest => 10
  | Tcb_RuntimeExecutable => 11 | Tcb_RuntimeLoaderExecutable => 12 | Tcb_RuntimeLibrary => 13
  end.
#[global] Instance TcbRole_discriminant_inj : Inj (=) (=) TcbRole_discriminant.
Proof. intros [] []; done. Qed.
#[global] Instance TcbRole_ord : RustOrd TcbRole := ord_via TcbRole_discriminant.
#[global] Instance TcbRole_lawful : LawfulOrd TcbRole.
Proof. apply (ord_via_lawful TcbRole_discriminant). Qed.

Definition WireArtifactRole_discriminant (r : WireArtifactRole) : Z :=
  match r with
  | ExecutionPlan => 0 | NormalizedPlan => 1 | CompiledPolicy => 2 | RuntimeBinary => 3
  | LauncherBinary => 4 | VerifierBinary => 5 | RuntimeExecutable => 6
  | RuntimeLoaderExecutable => 7 | RuntimeLibrary => 8 | WorkingDirectory => 9
  | ProjectInput => 10 | OutputRoot => 11 | StandardOutput => 12 | StandardError => 13
  | OutputArtifact => 14
  end.
#[global] Instance WireArtifactRole_ord : RustOrd WireArtifactRole :=
  ord_via WireArtifactRole_discriminant.

Definition REQUIRED_ASSUMPTIONS : list string :=
  ["PBR-HOST-AX-002"; "PBR-LINUX-AX-001"; "PBR-TOOLCHAIN-AX-003"].
Definition ALWAYS_REQUIRED_TCB_ROLES : list TcbRole :=
  [Tcb_HostHardwareFirmware; Tcb_LinuxKernel; Tcb_Landlock; Tcb_Seccomp; Tcb_CgroupV2;
   Tcb_NoNewPrivileges; Tcb_Filesystem; Tcb_RuntimeBinary; Tcb_LauncherBinary;
   Tcb_RustToolchain; Tcb_CryptographicDigest; Tcb_RuntimeExecutable].

(** ** Grammars *)

(** The [for _ in 0..3] loop over the iterator of components. *)
Fixpoint version_components (n : nat) (components : list (list byte)) :
    result ValidationError (list (list byte)) :=
  match n with
  | O => Ok components
  | S n =>
    match components with
    | [] => Err InvalidProductVersion
    | component :: components =>
      if bool_decide (component = []) || negb (forallb is_digit component)
      then Err InvalidProductVersion
      else version_components n components
    end
  end.
Definition require_product_version (value : string) : result ValidationError () :=
  rest ← version_components 3 (split_on "."%char (String.list_ascii_of_string value));
  match rest with [] => Ok () | _ => Err InvalidProductVersion end.

Definition is_lowercase_or_digit (b : byte) : bool := is_lower b || is_digit b.
Definition require_plan_id (value : string) : result ValidationError () :=
  let bytes := String.list_ascii_of_string value in
  if bool_decide (bytes = [])
     || bool_decide (128 < length bytes)
     || negb (option_test is_lowercase_or_digit (head bytes))
     || negb (option_test is_lowercase_or_digit (last_byte bytes))
     || negb (forallb (fun b => is_lowercase_or_digit b
          || bool_decide (b = "."%char \/ b = "_"%char \/ b = "-"%char)) bytes)
  then Err InvalidPlanId else Ok ().

Definition require_execution_id (value : string) : result ValidationError () :=
  let bytes := String.list_ascii_of_string value in
  if negb (length bytes =? 36)
     || negb (forallb (fun p =>
          if bool_decide (p.1 = 8 \/ p.1 = 13 \/ p.1 = 18 \/ p.1 = 23)
          then bool_decide (p.2 = "-"%char) else is_hex p.2) (imap pair bytes))
     || negb (bool_decide (nth 14 bytes "0"%char = "4"%char))
     || negb (let b := nth 19 bytes "0"%char in
              bool_decide (b = "8"%char \/ b = "9"%char \/ b = "a"%char \/ b = "b"%char))
  then Err InvalidExecutionId else Ok ().

Definition require_digest (value : string) : result ValidationError () :=
  let bytes := String.list_ascii_of_string value in
  if negb (length bytes =? 64) || negb (forallb is_hex bytes) then Err InvalidDigest else Ok ().

Definition parse_decimal (value : string) : result ValidationError Z :=
  let bytes := String.list_ascii_of_string value in
  if bool_decide (bytes = [])
     || (bool_decide (1 < length bytes) && bool_decide (head bytes = Some "0"%char))
     || negb (forallb is_digit bytes)
  then Err InvalidUnsignedDecimal
  else ok_or (u64_parse bytes) InvalidUnsignedDecimal.

Definition validate_string_set (values : list string) : result ValidationError () :=
  if existsb (fun value => bool_decide (value = "")) values
     || windows_any (fun a b => rle b a) values
  then Err SetNotCanonical else Ok ().

(** ** Artifacts *)

Definition validate_artifact (artifact : WireArtifact) : result ValidationError () :=
  _ ← require_digest (art_sha256 artifact);
  _ ← parse_decimal (art_size artifact);
  if (4095 <? art_mode artifact)%Z then Err InvalidMode else Ok ().
Definition require_artifact (artifact : WireArtifact) (role : WireArtifactRole) :
    result ValidationError () :=
  _ ← validate_artifact artifact;
  if bool_decide (art_role artifact = role) then Ok () else Err RoleMismatch.

(** [None] is the panic of [expect]; [then_with] is lazy. *)
Definition artifact_order (left right : WireArtifact) : option comparison :=
  match rcmp (art_role left) (art_role right) with
  | Eq =>
    match rcmp (art_sha256 left) (art_sha256 right) with
    | Eq =>
      l ← result_ok (parse_decimal (art_size left));
      r ← result_ok (parse_decimal (art_size right));
      Some (cmp_then (l ?= r)%Z (art_mode left ?= art_mode right)%Z)
    | c => Some c
    end
  | c => Some c
  end.
(** [windows(2).any(|pair| artifact_order(..) != Ordering::Less)] *)
Fixpoint windows_not_less (artifacts : list WireArtifact) : option bool :=
  match artifacts with
  | a :: ((b :: _) as rest) =>
    c ← artifact_order a b;
    match c with Lt => windows_not_less rest | _ => Some true end
  | _ => Some false
  end.
Definition check_artifact (role_allowed : WireArtifactRole -> bool) (artifact : WireArtifact) :
    result ValidationError () :=
  _ ← validate_artifact artifact;
  if role_allowed (art_role artifact) then Ok () else Err RoleMismatch.
Definition validate_artifact_list (artifacts : list WireArtifact)
    (role_allowed : WireArtifactRole -> bool) : result (fault ValidationError) () :=
  _ ← lift_fault (mapM (check_artifact role_allowed) artifacts);
  match windows_not_less artifacts with
  | None => Err Panicked
  | Some true => Err (Failure ArtifactListNotCanonical)
  | Some false => Ok ()
  end.

(** ** Trusted computing base *)

Definition parse_tcb_role (entry : WireTcbEntry) : result ValidationError TcbRole :=
  let role := tcb_role entry in
  if String.eqb role "host-hardware-firmware" then Ok Tcb_HostHardwareFirmware
  else if String.eqb role "linux-kernel" then Ok Tcb_LinuxKernel
  else if String.eqb role "landlock" then Ok Tcb_Landlock
  else if String.eqb role "seccomp" then Ok Tcb_Seccomp
  else if String.eqb role "cgroup-v2" then Ok Tcb_CgroupV2
  else if String.eqb role "no-new-privileges" then Ok Tcb_NoNewPrivileges
  else if String.eqb role "filesystem" then Ok Tcb_Filesystem
  else if String.eqb role "runtime-binary" then Ok Tcb_RuntimeBinary
  else if String.eqb role "launcher-binary" then Ok Tcb_LauncherBinary
  else if String.eqb role "rust-toolchain" then Ok Tcb_RustToolchain
  else if String.eqb role "cryptographic-digest" then Ok Tcb_CryptographicDigest
  else if String.eqb role "runtime-executable" then Ok Tcb_RuntimeExecutable
  else if String.eqb role "runtime-loader-executable" then Ok Tcb_RuntimeLoaderExecutable
  else if String.eqb role "runtime-library" then Ok Tcb_RuntimeLibrary
  else Err UnsupportedTcbRole.
Definition require_tcb_role (entries : list (TcbRole * string)) (required : TcbRole) :
    result ValidationError () :=
  if existsb (fun entry => bool_decide (entry.1 = required)) entries then Ok ()
  else Err TcbRoleMissing.
Definition parse_tcb_pair (entry : WireTcbEntry) : result ValidationError (TcbRole * string) :=
  if bool_decide (tcb_identity entry = "") then Err TcbNotCanonical
  else role ← parse_tcb_role entry; Ok (role, tcb_identity entry).

Section receipt.
Context {serde : SerdeJson}.

Definition validate_tcb (receipt : DecodedReceipt) : result ValidationError () :=
  let wire := dr_wire receipt in
  if bool_decide (length (w_trusted_computing_base wire) = 0) then Err TcbNotCanonical
  else
    parsed ← mapM parse_tcb_pair (w_trusted_computing_base wire);
    if windows_any (fun a b => rle b a) parsed then Err TcbNotCanonical
    else
      _ ← mapM (require_tcb_role parsed) ALWAYS_REQUIRED_TCB_ROLES;
      _ ← (if bool_decide (is_Some (cmd_loader (w_command wire)))
           then require_tcb_role parsed Tcb_RuntimeLoaderExecutable else Ok ());
      if existsb (fun artifact => bool_decide (art_role artifact = RuntimeLibrary)) (w_inputs wire)
      then require_tcb_role parsed Tcb_RuntimeLibrary else Ok ().

(** ** Eligibility *)

Definition reason_from_failure (r : Verifier.FailureReason) : WireReason :=
  match r with
  | Verifier.BoundaryIncomplete => BoundaryIncomplete
  | Verifier.ExitCodeNonzero => ExitCodeNonzero
  | Verifier.ProcessSignaled => ProcessSignaled
  | Verifier.Reason_TimedOut => TimedOut
  | Verifier.Reason_Denied => Denied
  | Verifier.Reason_LauncherFailed => LauncherFailed
  | Verifier.ExecutionIncomplete => ExecutionIncomplete
  | Verifier.StandardOutputTruncated => StdoutTruncated
  | Verifier.StandardErrorTruncated => StderrTruncated
  | Verifier.ReceiptMalformed => ReceiptMalformed
  | Verifier.MemoryHigh => MemoryHigh
  | Verifier.MemoryMax => MemoryMax
  | Verifier.MemoryOom => MemoryOom
  | Verifier.MemoryOomKill => MemoryOomKill
  | Verifier.MemoryOomGroupKill => MemoryOomGroupKill
  | Verifier.SwapMax => SwapMax
  | Verifier.SwapFail => SwapFail
  end.
Definition validate_eligibility (receipt : DecodedReceipt) : result ValidationError () :=
  match dr_recorded_eligibility receipt, Verifier.derive_eligibility (dr_eligibility_input receipt) with
  | Recorded_Reusable, Verifier.Reusable => Ok ()
  | Recorded_NonReusable recorded, Verifier.NonReusable derived =>
    if bool_decide (recorded = map reason_from_failure derived) then Ok ()
    else Err EligibilityMismatch
  | _, _ => Err EligibilityMismatch
  end.

(** ** Resources *)

Definition expected_events (r : WireResources) : list WireReason :=
  omap (fun pr : bool * WireReason => if pr.1 then Some pr.2 else None)
    [(event_at (res_memory_events r) 1, MemoryHigh);
     (event_at (res_memory_events r) 2, MemoryMax);
     (event_at (res_memory_events r) 3, MemoryOom);
     (event_at (res_memory_events r) 4, MemoryOomKill);
     (event_at (res_memory_events r) 5, MemoryOomGroupKill);
     (event_at (res_swap_events r) 0, SwapMax);
     (event_at (res_swap_events r) 1, SwapFail)].
Definition validate_resources (receipt : DecodedReceipt) : result ValidationError () :=
  match dr_resources receipt with
  | None => if dr_version_two receipt then Err ResourceEventsMismatch else Ok ()
  | Some r =>
    if negb (dr_version_two receipt) then Err ResourceEventsMismatch
    else
      plan ← ok_or (dr_plan_limits receipt) ResourcePlanMismatch;
      if negb (bool_decide ((res_processes r, res_memory r, res_swap r)
                            = (pl_processes plan, pl_memory plan, pl_swap plan)))
      then Err ResourcePlanMismatch
      else if negb (res_observations_complete r) then
        if bool_decide (res_limit_events r = []) then Ok () else Err ResourceEventsMismatch
      else if ((pl_memory plan <? res_memory_peak r)%Z && negb (event_at (res_memory_events r) 2))
              || ((pl_swap plan <? res_swap_peak r)%Z && negb (event_at (res_swap_events r) 0)
                  && negb (event_at (res_swap_events r) 1))
      then Err ResourcePlanMismatch
      else if negb (bool_decide (res_limit_events r = expected_events r))
      then Err ResourceEventsMismatch
      else Ok ()
  end.

(** ** The whole validation *)

Definition require_assumption (assumptions : list string) (required : string) :
    result ValidationError () :=
  if binary_search_found assumptions required then Ok () else Err AssumptionMissing.

Definition input_role_allowed (r : WireArtifactRole) : bool :=
  bool_decide (r = ProjectInput \/ r = RuntimeLibrary).
Definition output_role_allowed (r : WireArtifactRole) : bool := bool_decide (r = OutputArtifact).

(** The single-artifact requirements, in the order of the code. *)
Definition required_artifacts (wire : WireReceipt) : list (WireArtifact * WireArtifactRole) :=
  [(plan_source (w_plan wire), ExecutionPlan);
   (plan_normalized (w_plan wire), NormalizedPlan);
   (policy_identity (w_policy wire), CompiledPolicy);
   (rt_runtime (w_runtime wire), RuntimeBinary);
   (rt_launcher (w_runtime wire), LauncherBinary);
   (cmd_executable (w_command wire), RuntimeExecutable)]
  ++ match cmd_loader (w_command wire) with
     | Some loader => [(loader, RuntimeLoaderExecutable)] | None => []
     end
  ++ [(cmd_working_directory (w_command wire), WorkingDirectory)].
Definition required_stream_artifacts (wire : WireReceipt) : list (WireArtifact * WireArtifactRole) :=
  [(w_output_root wire, OutputRoot);
   (stream_artifact (streams_stdout (w_streams wire)), StandardOutput);
   (stream_artifact (streams_stderr (w_streams wire)), StandardError);
   (w_producer wire, RuntimeBinary)].

Definition require_all (l : list (WireArtifact * WireArtifactRole)) : result ValidationError () :=
  _ ← mapM (fun p => require_artifact p.1 p.2) l; Ok ().

Definition validate_grammars (wire : WireReceipt) : result ValidationError () :=
  _ ← require_product_version (w_product_version wire);
  _ ← require_execution_id (w_execution_id wire);
  _ ← require_plan_id (plan_id (w_plan wire));
  if bool_decide (kernel_release (w_platform wire) = "")
     || (landlock_abi (w_platform wire) =? 0)%Z
  then Err InvalidPlatform
  else
    _ ← require_all (required_artifacts wire);
    _ ← require_digest (cmd_arguments_sha256 (w_command wire));
    require_all (required_stream_artifacts wire).

Definition contains_nul_or_equals (name : string) : bool :=
  let bytes := String.list_ascii_of_string name in
  bool_decide (mkb 0 ∈ bytes) || bool_decide ("="%char ∈ bytes).

Definition validate_sets (wire : WireReceipt) : result ValidationError () :=
  _ ← validate_string_set (w_environment wire);
  if existsb contains_nul_or_equals (w_environment wire) then Err InvalidEnvironmentName
  else
    _ ← validate_string_set (seccomp_features (w_platform wire));
    _ ← validate_string_set (cgroup_controllers (w_platform wire));
    validate_string_set (w_assumptions wire).

Definition validate_relations (wire : WireReceipt) : result ValidationError () :=
  _ ← require_digest (bd_policy_sha256 (w_boundary wire));
  _ ← require_execution_id (bd_execution_id (w_boundary wire));
  _ ← parse_decimal (mount_id (bd_cgroup (w_boundary wire)));
  _ ← parse_decimal (inode (bd_cgroup (w_boundary wire)));
  started ← parse_decimal (started_ns (w_observations wire));
  finished ← parse_decimal (finished_ns (w_observations wire));
  if (finished <? started)%Z then Err ObservationOrder
  else if negb (bool_decide (bd_execution_id (w_boundary wire) = w_execution_id wire))
  then Err ExecutionIdentityMismatch
  else if negb (bool_decide (bd_policy_sha256 (w_boundary wire)
                             = art_sha256 (policy_identity (w_policy wire))))
  then Err PolicyIdentityMismatch
  else if negb (bool_decide (w_producer wire = rt_runtime (w_runtime wire)))
  then Err ProducerIdentityMismatch
  else _ ← mapM (require_assumption (w_assumptions wire)) REQUIRED_ASSUMPTIONS; Ok ().

Definition validate_receipt (receipt : DecodedReceipt) : result (fault ValidationError) () :=
  let wire := dr_wire receipt in
  _ ← lift_fault (validate_grammars wire);
  _ ← validate_artifact_list (w_inputs wire) input_role_allowed;
  _ ← validate_artifact_list (w_outputs wire) output_role_allowed;
  _ ← lift_fault (validate_sets wire);
  _ ← lift_fault (validate_relations wire);
  _ ← lift_fault (validate_tcb receipt);
  _ ← lift_fault (validate_resources receipt);
  lift_fault (validate_eligibility receipt).

(** * [canonical.rs] *)

Inductive CanonicalError :=
| DuplicateKey | BytesMismatch | Decode (error : DecodeError).

(** What [serde_json]'s deserializer presents to a visitor, which is the
    parameter [scan] below: scalars, sequences, and maps with their keys in
    order, repeated ones included. *)
Inductive JsonSyntax :=
| Syntax_scalar
| Syntax_seq (elements : list JsonSyntax)
| Syntax_map (members : list (string * JsonSyntax)).

(** [DuplicateDetector]: visits in order and sets the shared [Cell] flag. *)
Fixpoint detect (syntax : JsonSyntax) (duplicate : bool) : bool :=
  match syntax with
  | Syntax_scalar => duplicate
  | Syntax_seq elements => fold_left (fun duplicate element => detect element duplicate) elements duplicate
  | Syntax_map members =>
    (fix visit (keys : list string) (members : list (string * JsonSyntax)) (duplicate : bool) : bool :=
       match members with
       | [] => duplicate
       | (key, value) :: members =>
         let duplicate := if bool_decide (key ∈ keys) then true else duplicate in
         visit (key :: keys) members (detect value duplicate)
       end) [] members duplicate
  end.

Context (scan : list byte -> option JsonSyntax).

Definition reject_duplicate_keys (input : list byte) : result CanonicalError () :=
  syntax ← ok_or (scan input) (Decode MalformedJson);
  if detect syntax false then Err DuplicateKey else Ok ().

Definition starts_with_brace (input : list byte) : bool := bool_decide (head input = Some "{"%char).

Definition validate_canonical_receipt (input : list byte) : result CanonicalError DecodedReceipt :=
  if negb (starts_with_brace input) then
    decoded ← map_err Decode (decode_receipt input);
    if negb (dr_version_two decoded) then Err BytesMismatch else Ok decoded
  else
    _ ← reject_duplicate_keys input;
    decoded ← map_err Decode (decode_receipt input);
    encoded ← ok_or (to_vec (dr_value decoded)) BytesMismatch;
    if negb (bool_decide (encoded = input)) then Err BytesMismatch else Ok decoded.

(** * [lib.rs] and [error.rs] *)

Inductive VerifyError :=
| DiagnosticProfileNotReusable
| Canonical (error : CanonicalError)
| Commitment (error : CommitmentError)
| Validation (error : ValidationError).

Record VerificationReport := mkVerificationReport {
  report_commitment : ReceiptCommitment;
  report_eligibility : Verifier.EligibilityDecision
}.

Definition DIAGNOSTIC_SCHEMA : string := "proofbound-runtime-diagnostic-receipt/1".
Definition reject_diagnostic_profile (input : list byte) : result VerifyError () :=
  if negb (starts_with_brace input) then Ok ()
  else
    value ← map_err (fun _ => Canonical (Decode MalformedJson)) (from_slice input);
    if negb (bool_decide (json_get_str value "schema" = Some DIAGNOSTIC_SCHEMA)) then Ok ()
    else
      _ ← map_err Canonical (reject_duplicate_keys input);
      encoded ← ok_or (to_vec value) (Canonical BytesMismatch);
      if negb (bool_decide (encoded = input)) then Err (Canonical BytesMismatch)
      else Err DiagnosticProfileNotReusable.

Context (sha256 : list byte -> list byte).

Definition lift_validation {A} (m : result (fault ValidationError) A) : result (fault VerifyError) A :=
  map_err (fun e => match e with Failure e => Failure (Validation e) | Panicked => Panicked end) m.
Definition verify_receipt (input : list byte) (expected : ReceiptCommitment) :
    result (fault VerifyError) VerificationReport :=
  _ ← lift_fault (reject_diagnostic_profile input);
  decoded ← lift_fault (map_err Canonical (validate_canonical_receipt input));
  _ ← lift_fault (map_err Commitment (ReceiptCommitment_verify sha256 expected input));
  _ ← lift_validation (validate_receipt decoded);
  Ok (mkVerificationReport expected (Verifier.derive_eligibility (dr_eligibility_input decoded))).
End receipt.

Definition CanonicalError_code (e : CanonicalError) : string :=
  match e with
  | DuplicateKey => "receipt.canonical.duplicate-key"
  | BytesMismatch => "receipt.canonical.bytes-mismatch"
  | Decode e => DecodeError_code e
  end.
Definition VerifyError_code (e : VerifyError) : string :=
  match e with
  | DiagnosticProfileNotReusable => "profile.diagnostic.not-reusable"
  | Canonical e => CanonicalError_code e
  | Commitment e => CommitmentError_code e
  | Validation e => ValidationError_code e
  end.

(** * Lemmas: no panic *)


Lemma validate_artifact_size a u :
  validate_artifact a = Ok u -> exists n, parse_decimal (art_size a) = Ok n.
Proof. unfold validate_artifact. intros H. simp_ok. eauto. Qed.

Lemma artifact_order_total a b n m :
  parse_decimal (art_size a) = Ok n -> parse_decimal (art_size b) = Ok m ->
  exists c, artifact_order a b = Some c.
Proof. unfold artifact_order. intros -> ->. repeat case_match; cbn; eauto. Qed.

Lemma windows_not_less_total l :
  Forall (fun a => exists n, parse_decimal (art_size a) = Ok n) l ->
  exists b, windows_not_less l = Some b.
Proof.
  induction 1 as [|a l [n Ha] Hl IH]; [by exists false|]. destruct Hl as [|b l [m Hb] Hl]; [by exists false|].
  destruct (artifact_order_total a b n m Ha Hb) as [c Hc]. destruct IH as [r Hr].
  change (windows_not_less (a :: b :: l)) with
    (c ← artifact_order a b; match c with Lt => windows_not_less (b :: l) | _ => Some true end).
  rewrite Hc. destruct c; cbn [mbind option_bind]; eauto.
Qed.

Lemma validate_artifact_list_not_panicked l p : validate_artifact_list l p <> Err Panicked.
Proof.
  unfold validate_artifact_list. destruct (mapM (check_artifact p) l) as [us|e] eqn:Hm; [|done].
  cbn [lift_fault map_err mbind result_bind].
  destruct (windows_not_less_total l) as [b ->]; [|by destruct b].
  apply mapM_Ok in Hm. induction Hm as [|a u l us Ha _ IH]; constructor; [|done].
  unfold check_artifact in Ha. apply bind_Ok in Ha as (u' & Ha & _). by eapply validate_artifact_size.
Qed.


Section properties.
Context {serde : SerdeJson} (scan : list byte -> option JsonSyntax) (sha256 : list byte -> list byte).

Lemma validate_receipt_not_panicked receipt : validate_receipt receipt <> Err Panicked.
Proof.
  unfold validate_receipt.
  repeat (apply bind_not_panicked;
    [first [apply lift_fault_not_panicked|apply validate_artifact_list_not_panicked]|intros ? _]).
  apply lift_fault_not_panicked.
Qed.

(** * Lemmas: what an accepted receipt satisfies *)

Lemma lift_fault_inv {E A} (m : result E A) a : lift_fault m = Ok a -> m = Ok a.
Proof. apply map_err_Ok. Qed.
Lemma map_err_inv {E F A} (f : E -> F) (m : result E A) a : map_err f m = Ok a -> m = Ok a.
Proof. apply map_err_Ok. Qed.

(** The relations [validate_receipt] enforces. *)
Record accepted (receipt : DecodedReceipt) : Prop := {
  acc_execution : bd_execution_id (w_boundary (dr_wire receipt)) = w_execution_id (dr_wire receipt);
  acc_policy : bd_policy_sha256 (w_boundary (dr_wire receipt))
    = art_sha256 (policy_identity (w_policy (dr_wire receipt)));
  acc_producer : w_producer (dr_wire receipt) = rt_runtime (w_runtime (dr_wire receipt));
  acc_assumptions : REQUIRED_ASSUMPTIONS ⊆ w_assumptions (dr_wire receipt);
  acc_tcb : forall role, role ∈ ALWAYS_REQUIRED_TCB_ROLES ->
    exists entry, entry ∈ w_trusted_computing_base (dr_wire receipt) /\ parse_tcb_role entry = Ok role;
  acc_resources : validate_resources receipt = Ok ();
  acc_eligibility : validate_eligibility receipt = Ok ()
}.

Lemma validate_string_set_sorted l :
  validate_string_set l = Ok () -> StronglySorted (fun a b => rlt a b = true) l.
Proof.
  unfold validate_string_set. destruct (existsb _ _); cbn; [done|].
  destruct (windows_any _ _) eqn:Hw; [done|]. intros _. by apply windows_any_ge.
Qed.

Lemma validate_receipt_accepted receipt : validate_receipt receipt = Ok () -> accepted receipt.
Proof.
  unfold validate_receipt. intros H.
  apply bind_Ok in H as (_ & _ & H). apply bind_Ok in H as (_ & _ & H). apply bind_Ok in H as (_ & _ & H).
  apply bind_Ok in H as ([] & Hsets%lift_fault_inv & H).
  apply bind_Ok in H as ([] & Hrel%lift_fault_inv & H).
  apply bind_Ok in H as ([] & Htcb%lift_fault_inv & H).
  apply bind_Ok in H as ([] & Hres%lift_fault_inv & Hel%lift_fault_inv).
  unfold validate_sets in Hsets. apply bind_Ok in Hsets as (_ & _ & Hsets).
  destruct (existsb _ _); [done|].
  apply bind_Ok in Hsets as (_ & _ & Hsets). apply bind_Ok in Hsets as (_ & _ & Hsets).
  apply validate_string_set_sorted in Hsets.
  unfold validate_relations in Hrel. do 4 apply bind_Ok in Hrel as (_ & _ & Hrel).
  apply bind_Ok in Hrel as (st & _ & Hrel). apply bind_Ok in Hrel as (fi & _ & Hrel).
  destruct (fi <? st)%Z; [done|].
  destruct (bool_decide (bd_execution_id _ = _)) eqn:H1; cbn [negb] in Hrel; [|done].
  destruct (bool_decide (bd_policy_sha256 _ = _)) eqn:H2; cbn [negb] in Hrel; [|done].
  destruct (bool_decide (w_producer _ = _)) eqn:H3; cbn [negb] in Hrel; [|done].
  apply bool_decide_eq_true in H1, H2, H3.
  apply bind_Ok in Hrel as (us & Hass%mapM_Ok & _). split; try done.
  - intros a Ha. destruct (Forall2_elem_left _ _ _ _ Hass Ha) as (u & _ & Hfound).
    unfold require_assumption in Hfound. apply binary_search_found_spec; [done|].
    by destruct (binary_search_found _ _).
  - intros role Hrole. unfold validate_tcb in Htcb. destruct (bool_decide _); [done|].
    apply bind_Ok in Htcb as (parsed & Hparsed%mapM_Ok & Htcb). destruct (windows_any _ _); [done|].
    apply bind_Ok in Htcb as (vs & Hroles%mapM_Ok & _).
    destruct (Forall2_elem_left _ _ _ _ Hroles Hrole) as (u & _ & Hfound).
    unfold require_tcb_role in Hfound. destruct (existsb _ parsed) eqn:Hex; [|done].
    apply existsb_exists in Hex as (p & Hp%list_elem_of_In & <-%bool_decide_eq_true).
    destruct (Forall2_elem_right _ _ _ _ Hparsed Hp) as (entry & Hentry & Hpair).
    exists entry. split; [done|]. unfold parse_tcb_pair in Hpair. destruct (bool_decide _); [done|].
    apply bind_Ok in Hpair as (r & Hr & [= <-]). done.
Qed.

Lemma push_events_nil events failures :
  length events = 7 -> Verifier.push_events events failures = [] ->
  failures = [] /\ events = replicate 7 false.
Proof.
  intros Hlen. do 7 (destruct events as [|? events]; [done|]). destruct events; [|done].
  unfold Verifier.push_events; cbn [zip zip_with foldl fst snd].
  repeat match goal with |- context [if ?b then _ else _] => destruct b end;
    intros Heq; try (by destruct failures); try (apply app_nil in Heq as [_ ?]; done).
Qed.

Lemma derive_eligibility_reusable i :
  length (Verifier.limit_events i) = 7 -> Verifier.derive_eligibility i = Verifier.Reusable ->
  Verifier.boundary i = Verifier.Boundary_Installed /\ Verifier.outcome i = Verifier.Exited 0
  /\ Verifier.input_stdout i = Verifier.Capture_Complete
  /\ Verifier.input_stderr i = Verifier.Capture_Complete
  /\ Verifier.structure i = Verifier.Structure_Valid
  /\ Verifier.limit_events i = replicate 7 false.
Proof.
  intros Hlen. unfold Verifier.derive_eligibility.
  destruct (Verifier.push_events _ _) eqn:He; [|done]. intros _.
  apply push_events_nil in He as [He Hev]; [|done].
  destruct i as [b o out err s ev]; cbn in *.
  destruct s; cbn in He; [|by destruct (Verifier.push_capture _ _ _)].
  destruct err; cbn in He; [|by destruct (Verifier.push_capture _ _ _)].
  destruct out; cbn in He; [|by destruct (Verifier.push_outcome _ _)].
  destruct o as [code| | | | |]; cbn in He; try (by destruct (Verifier.push_boundary _ _)).
  destruct (code =? 0)%Z eqn:Hc; [|by destruct (Verifier.push_boundary _ _)].
  apply Z.eqb_eq in Hc as ->. by destruct b.
Qed.

(** How the version 2 decoder builds the eligibility input. *)
Lemma decode_v2_input input receipt :
  decode_v2_receipt input = Ok receipt ->
  dr_version_two receipt = true
  /\ exists r plan, dr_resources receipt = Some r /\ dr_plan_limits receipt = Some plan
    /\ Verifier.limit_events (dr_eligibility_input receipt) = resource_events r
    /\ Verifier.structure (dr_eligibility_input receipt)
       = (if res_observations_complete r then Verifier.Structure_Valid else Verifier.Structure_Malformed).
Proof.
  unfold decode_v2_receipt. intros H.
  apply bind_Ok in H as (root & _ & H). apply bind_Ok in H as (top & _ & H).
  apply bind_Ok in H as (sch & _ & H). destruct (negb _); [done|].
  apply bind_Ok in H as ([plan limits] & _ & H).
  do 15 (apply bind_Ok in H as (? & _ & H)).
  apply bind_Ok in H as (resources & _ & H). do 3 (apply bind_Ok in H as (? & _ & H)).
  cbv zeta in H. do 3 (apply bind_Ok in H as (? & _ & H)). injection H as <-.
  split; [done|]. exists resources, limits. done.
Qed.
Lemma decode_v1_input input receipt :
  decode_v1_receipt input = Ok receipt ->
  dr_version_two receipt = false /\ dr_resources receipt = None
  /\ Verifier.limit_events (dr_eligibility_input receipt) = replicate 7 false.
Proof.
  unfold decode_v1_receipt. intros H. apply bind_Ok in H as (value & _ & H).
  apply bind_Ok in H as (wire & _ & H). repeat (destruct (negb _); cbn [orb] in H; [done|]).
  apply bind_Ok in H as (? & _ & H). apply bind_Ok in H as (? & _ & H). by injection H as <-.
Qed.
Lemma decode_receipt_events input receipt :
  decode_receipt input = Ok receipt ->
  length (Verifier.limit_events (dr_eligibility_input receipt)) = 7.
Proof.
  unfold decode_receipt. destruct (negb _).
  - intros (_ & r & p & _ & _ & -> & _)%decode_v2_input. done.
  - intros (_ & _ & ->)%decode_v1_input. done.
Qed.

Lemma verify_receipt_Ok input expected report :
  verify_receipt scan sha256 input expected = Ok report ->
  exists receipt, decode_receipt input = Ok receipt /\ accepted receipt
    /\ ReceiptCommitment_for_bytes sha256 input = expected
    /\ report = mkVerificationReport expected
         (Verifier.derive_eligibility (dr_eligibility_input receipt)).
Proof.
  unfold verify_receipt. intros H. apply bind_Ok in H as (_ & _ & H).
  apply bind_Ok in H as (receipt & Hcan%lift_fault_inv%map_err_inv & H).
  apply bind_Ok in H as ([] & Hcom%lift_fault_inv%map_err_inv & H).
  apply bind_Ok in H as ([] & Hval%map_err_inv & [= <-]).
  exists receipt. split.
  - unfold validate_canonical_receipt in Hcan. destruct (negb (starts_with_brace input)).
    + apply bind_Ok in Hcan as (d & Hd%map_err_inv & Hv). by destruct (negb _); [|injection Hv as <-].
    + apply bind_Ok in Hcan as (_ & _ & Hcan). apply bind_Ok in Hcan as (d & Hd%map_err_inv & Hv).
      apply bind_Ok in Hv as (e & _ & Hv). by destruct (negb _); [|injection Hv as <-].
  - split; [by apply validate_receipt_accepted|]. split; [|done].
    unfold ReceiptCommitment_verify in Hcom. by case_bool_decide.
Qed.

End properties.

(** * Properties *)

(** C2: what a reusable verification report means.  If [verify_receipt] accepts
    an input against a commitment and reports [Reusable], the input hashes to
    the commitment and decodes to a receipt whose boundary was installed, whose
    command exited with code zero, whose two captures are complete and whose
    structure is valid; the boundary names this execution and the compiled
    policy, the producer is the runtime, the required assumptions and trusted
    roles are recorded, and the recorded decision is [Reusable].  For a version 2
    receipt the terminal resource observations are present, no limit event
    occurred, the configured limits are the plan's, and the peaks respect them. *)
Theorem verified_reusable_receipt {serde : SerdeJson} (scan : list byte -> option JsonSyntax)
    (sha256 : list byte -> list byte) (input : list byte) (expected : ReceiptCommitment)
    (report : VerificationReport)
    (Hv : verify_receipt scan sha256 input expected = Ok report)
    (Hr : report_eligibility report = Verifier.Reusable) :
  exists receipt, decode_receipt input = Ok receipt
    /\ ReceiptCommitment_for_bytes sha256 input = expected /\ report_commitment report = expected
    /\ accepted receipt /\ dr_recorded_eligibility receipt = Recorded_Reusable
    /\ (let i := dr_eligibility_input receipt in
        Verifier.boundary i = Verifier.Boundary_Installed /\ Verifier.outcome i = Verifier.Exited 0
        /\ Verifier.input_stdout i = Verifier.Capture_Complete
        /\ Verifier.input_stderr i = Verifier.Capture_Complete
        /\ Verifier.structure i = Verifier.Structure_Valid)
    /\ (dr_version_two receipt = true ->
        exists r plan, dr_resources receipt = Some r /\ dr_plan_limits receipt = Some plan
          /\ res_observations_complete r = true /\ resource_events r = replicate 7 false
          /\ res_limit_events r = []
          /\ res_processes r = pl_processes plan /\ res_memory r = pl_memory plan
          /\ res_swap r = pl_swap plan
          /\ (res_memory_peak r <= pl_memory plan)%Z /\ (res_swap_peak r <= pl_swap plan)%Z).
Proof.
  destruct (verify_receipt_Ok scan sha256 input expected report Hv)
    as (receipt & Hd & Hacc & Hc & ->). cbn in Hr.
  pose proof (decode_receipt_events _ _ Hd) as Hlen.
  pose proof (derive_eligibility_reusable _ Hlen Hr) as (Hb & Ho & Hout & Herr & Hs & Hev).
  exists receipt. split; [done|]. split; [done|]. split; [done|]. split; [done|].
  destruct Hacc as [_ _ _ _ _ Hres Hel]. unfold validate_eligibility in Hel. rewrite Hr in Hel.
  split; [by destruct (dr_recorded_eligibility receipt)|]. split; [done|]. intros Hv2.
  unfold decode_receipt in Hd. destruct (negb _).
  2:{ apply decode_v1_input in Hd as (Hf & _). congruence. }
  apply decode_v2_input in Hd as (_ & r & plan & Hrs & Hpl & Hevr & Hst). exists r, plan.
  rewrite Hev in Hevr. rewrite Hs in Hst.
  destruct (res_observations_complete r) eqn:Hoc; [|done].
  split; [done|]. split; [done|]. split; [done|]. split; [done|].
  unfold validate_resources in Hres. rewrite Hrs, Hv2, Hpl, Hoc in Hres. cbn [negb ok_or mbind result_bind] in Hres.
  injection Hevr as E1 E2 E3 E4 E5 E6 E7.
  case_bool_decide as Heq; cbn [negb] in Hres; [|done]. injection Heq as Hp Hm Hsw.
  unfold expected_events in Hres. rewrite <- E1, <- E2, <- E3, <- E4, <- E5, <- E6, <- E7 in Hres.
  cbn [omap list_omap fst snd negb] in Hres. rewrite !andb_true_r in Hres.
  destruct (pl_memory plan <? res_memory_peak r)%Z eqn:Hmp; cbn [orb] in Hres; [done|].
  destruct (pl_swap plan <? res_swap_peak r)%Z eqn:Hsp; [done|].
  case_bool_decide as Hle; cbn [negb] in Hres; [|done].
  split; [exact Hle|]. split; [done|]. split; [done|]. split; [done|]. lia.
Qed.

Lemma verify_receipt_not_panicked {serde : SerdeJson} (scan : list byte -> option JsonSyntax)
    (sha256 : list byte -> list byte) input expected : verify_receipt scan sha256 input expected <> Err Panicked.
Proof.
  unfold verify_receipt. do 3 (apply bind_not_panicked; [apply lift_fault_not_panicked|intros ? _]).
  apply bind_not_panicked; [|done]. intros Hp. unfold lift_validation in Hp.
  apply map_err_Err in Hp as (e & He & Heq).
  destruct e; [done|]. by apply validate_receipt_not_panicked in He.
Qed.

(** Verification never panics: on no input, commitment or hash function
    does [validate_receipt] or [verify_receipt] reach the [expect] of
    [artifact_order]; every refusal is a typed error. *)
Theorem verification_never_panics {serde : SerdeJson} (scan : list byte -> option JsonSyntax)
    (sha256 : list byte -> list byte) :
  (forall receipt, validate_receipt receipt <> Err Panicked)
  /\ (forall input expected, verify_receipt scan sha256 input expected <> Err Panicked).
Proof.
  split; [apply validate_receipt_not_panicked|]. intros. apply verify_receipt_not_panicked.
Qed.

(** Diagnostic receipts are never evidence: an input whose JSON carries the
    diagnostic schema is refused whatever the commitment is, and it is refused as
    [DiagnosticProfileNotReusable] as soon as its bytes are canonical. *)
Theorem diagnostic_profile_refused {serde : SerdeJson} (scan : list byte -> option JsonSyntax)
    (sha256 : list byte -> list byte) (input : list byte) (value : Json)
    (expected : ReceiptCommitment) (Hbrace : starts_with_brace input = true)
    (Hparse : from_slice input = Ok value)
    (Hschema : json_get_str value "schema" = Some DIAGNOSTIC_SCHEMA) :
  (forall report, verify_receipt scan sha256 input expected <> Ok report)
  /\ (reject_duplicate_keys scan input = Ok () -> to_vec value = Some input ->
      verify_receipt scan sha256 input expected = Err (Failure DiagnosticProfileNotReusable)).
Proof.
  unfold verify_receipt, reject_diagnostic_profile. rewrite Hbrace, Hparse. cbn [negb map_err mbind result_bind].
  rewrite bool_decide_eq_true_2 by done. cbn [negb]. split.
  - intros report. destruct (reject_duplicate_keys scan input); [|done]. cbn [map_err mbind result_bind].
    destruct (ok_or _ _); [|done]. cbn [mbind result_bind]. by destruct (negb _).
  - intros -> ->. cbn [map_err mbind result_bind ok_or]. by rewrite bool_decide_eq_true_2.
Qed.

(** A concrete instance of the parameters for the witnesses: no JSON value
    prints or parses except as the two fields the witness needs. *)
Definition example_serde (schema : option string) (bytes : option (list byte)) : SerdeJson := {|
  Json := unit;
  json_string := fun _ => tt; json_u64 := fun _ => tt; json_i64 := fun _ => tt;
  json_bool := fun _ => tt; json_null := tt; json_array := fun _ => tt; json_object := fun _ => tt;
  json_get_str := fun _ key => if String.eqb key "schema" then schema else None;
  from_slice := fun _ => Ok tt; from_value := fun _ => None; to_vec := fun _ => bytes
|}.
Definition example_sha256 (input : list byte) : list byte := replicate 32 (mkb (Z.of_nat (length input))).

Lemma verified_reusable_receipt_witness :
  let serde := example_serde None None in
  exists receipt, decode_receipt execution_receipt = Ok receipt
    /\ dr_recorded_eligibility receipt = Recorded_Reusable.
Proof.
  cbv zeta.
  set (c := ReceiptCommitment_for_bytes example_sha256 execution_receipt).
  destruct (@verified_reusable_receipt (example_serde None None) (fun _ => None) example_sha256
    execution_receipt c (mkVerificationReport c Verifier.Reusable)) as (receipt & Hd & _ & _ & _ & Hr & _).
  - vm_compute. reflexivity.
  - reflexivity.
  - exists receipt. split; [exact Hd|exact Hr].
Defined.

Definition diagnostic_input : list byte := String.list_ascii_of_string "{}".
Lemma diagnostic_profile_refused_witness :
  let serde := example_serde (Some DIAGNOSTIC_SCHEMA) (Some diagnostic_input) in
  verify_receipt (fun _ => Some (Syntax_map [])) example_sha256 diagnostic_input
    (mkReceiptCommitment []) = Err (Failure DiagnosticProfileNotReusable).
Proof.
  cbv zeta.
  apply (@diagnostic_profile_refused (example_serde (Some DIAGNOSTIC_SCHEMA) (Some diagnostic_input))
    (fun _ => Some (Syntax_map [])) example_sha256 diagnostic_input tt (mkReceiptCommitment [])).
  - reflexivity.
  - reflexivity.
  - reflexivity.
  - reflexivity.
  - reflexivity.
Defined.

Lemma parse_decimal_iff (s : string) (n : Z) :
  parse_decimal s = Ok n <-> (0 <= n < u64_bound)%Z /\ s = u64_to_string n.
Proof.
  unfold parse_decimal, u64_to_string. split.
  - case_bool_decide as Hne; cbn [orb]; [done|].
    destruct (bool_decide (1 < _) && _) eqn:Hz; cbn [orb]; [done|].
    destruct (forallb is_digit _) eqn:Hd; cbn [negb]; [|done].
    intros Hp%ok_or_Ok. set (l := String.list_ascii_of_string s) in *.
    assert (parse_digits 0 l = Some n) as Hpd.
    { destruct l as [|b l]; [done|]. unfold u64_parse in Hp. cbn in Hd.
      apply andb_true_iff in Hd as [Hb _]. rewrite bool_decide_eq_false_2 in Hp; [done|].
      intros ->. by vm_compute in Hb. }
    apply decimal_of_parse in Hpd as [Hl Hn]; [|done|].
    + split; [done|]. rewrite Hl. symmetry. apply String.string_of_list_ascii_of_string.
    + apply andb_false_iff in Hz as [Hz%bool_decide_eq_false|Hz%bool_decide_eq_false]; [left|by right].
      destruct l as [|? [|]]; cbn in *; [done|done|lia].
  - intros [Hn ->]. rewrite String.list_ascii_of_string_of_list_ascii.
    pose proof (u64_fuel n Hn) as Hf.
    destruct (decimal_head 20 n []) as (b & rest & Heq & Hb & Hzero); [lia|done|done|].
    pose proof (all_digits_decimal 20 n [] ltac:(lia) eq_refl) as Hall.
    change (decimal_digits 20 n []) with (u64_decimal n) in *.
    rewrite Hall, (u64_parse_decimal n Hn). cbn [negb ok_or]. rewrite orb_false_r.
    rewrite bool_decide_eq_false_2 by (rewrite Heq; done). cbn [orb].
    rewrite (proj2 (andb_false_iff _ _)); [done|]. rewrite Heq.
    destruct (decide (b = "0"%char)) as [->|Hb0].
    + left. destruct Hzero as [_ ->]; [done|]. done.
    + right. apply bool_decide_eq_false. cbn. congruence.
Qed.

(** Artifact sizes and observation times have one spelling: [parse_decimal]
    accepts a text with value [n] exactly when [n] is a [u64] and the text is its
    decimal form, without a sign, a leading zero or an overflow. *)
Theorem parse_decimal_canonical (s : string) (n : Z) :
  parse_decimal s = Ok n <-> (0 <= n < u64_bound)%Z /\ s = u64_to_string n.
Proof. apply parse_decimal_iff. Qed.
