(* ===== verification/Network.v ===== *)
(** The network authority of [proofbound-runtime-core/src/network.rs]: the
    validated identifiers of an authenticated service session (support paths,
    service names, ports, descriptors, credential sources), its resolver, TLS
    and session limits, and the attenuation test of sessions.

    [ServiceName::new] asks the standard library whether its text is an address:
    module [IpAddr] models [str::parse::<IpAddr>] as far as acceptance goes. *)
From S2P Require Import Prelude Authority.
From Stdlib Require Import Ascii ZArith Lia Sorted.
From stdpp Require Import prelude strings list numbers.
Export stdpp.list_relations.list.

(** * [str::parse::<IpAddr>]

    The standard library's parser: every reader gives the input it leaves, and
    the numeric value only where a range check needs it. *)
Module IpAddr.

(** [char::to_digit] *)
Definition to_digit (radix : Z) (b : byte) : option Z :=
  let d := if byte_in 48 57 b then Some (bval b - 48)%Z
           else if byte_in 97 122 b then Some (bval b - 87)%Z
           else if byte_in 65 90 b then Some (bval b - 55)%Z
           else None in
  match d with
  | Some d => if (d <? radix)%Z then Some d else None
  | None => None
  end.

Fixpoint read_digits (radix : Z) (max_digits count : nat) (result : Z) (l : list byte) :
    option (Z * nat * list byte) :=
  match l with
  | [] => Some (result, count, [])
  | b :: rest =>
    match to_digit radix b with
    | None => Some (result, count, l)
    | Some digit =>
      if max_digits <? S count then None
      else read_digits radix max_digits (S count) (result * radix + digit) rest
    end
  end.
Definition read_number (radix : Z) (max_digits : nat) (allow_zero_prefix : bool) (bound : Z)
    (l : list byte) : option (list byte) :=
  '(result, count, rest) ← read_digits radix max_digits 0 0 l;
  if count =? 0 then None
  else if negb allow_zero_prefix && bool_decide (head l = Some "0"%char) && (1 <? count) then None
  else _ ← try_from bound result; Some rest.

Definition read_given_char (c : byte) (l : list byte) : option (list byte) :=
  match l with b :: rest => if bool_decide (b = c) then Some rest else None | [] => None end.
Definition read_separator (sep : byte) (index : nat) (inner : list byte -> option (list byte))
    (l : list byte) : option (list byte) :=
  l ← (if 0 <? index then read_given_char sep l else Some l); inner l.

Fixpoint read_octets (remaining index : nat) (l : list byte) : option (list byte) :=
  match remaining with
  | O => Some l
  | S remaining =>
    l ← read_separator "."%char index (read_number 10 3 false u8_bound) l;
    read_octets remaining (S index) l
  end.
Definition read_ipv4_addr : list byte -> option (list byte) := read_octets 4 0.

(** The groups read before index [limit], whether they end in an IPv4 address. *)
Fixpoint read_groups (remaining index limit : nat) (l : list byte) : nat * bool * list byte :=
  match remaining with
  | O => (limit, false, l)
  | S remaining =>
    match (if index <? limit - 1 then read_separator ":"%char index read_ipv4_addr l else None) with
    | Some rest => (index + 2, true, rest)
    | None =>
      match read_separator ":"%char index (read_number 16 4 true u16_bound) l with
      | Some rest => read_groups remaining (S index) limit rest
      | None => (index, false, l)
      end
    end
  end.
Definition read_ipv6_addr (l : list byte) : option (list byte) :=
  let '(head_size, head_ipv4, l) := read_groups 8 0 8 l in
  if head_size =? 8 then Some l
  else if head_ipv4 then None
  else
    l ← read_given_char ":"%char l;
    l ← read_given_char ":"%char l;
    let limit := 8 - (head_size + 1) in
    let '(_, _, l) := read_groups limit 0 limit l in
    Some l.

Definition parses (l : list byte) : bool :=
  match (match read_ipv4_addr l with Some rest => Some rest | None => read_ipv6_addr l end) with
  | Some [] => true
  | _ => false
  end.

(** ** What an address looks like *)

Definition digit_or_dot (b : byte) : bool := is_digit b || bool_decide (b = "."%char).

Lemma read_digits_prefix radix m count r l r' c rest :
  read_digits radix m count r l = Some (r', c, rest) ->
  exists p, l = p ++ rest /\ Forall (fun b => is_Some (to_digit radix b)) p.
Proof.
  revert count r. induction l as [|b l IH]; intros count r; cbn [read_digits].
  - intros [= _ _ <-]. by exists [].
  - destruct (to_digit radix b) as [d|] eqn:Hd.
    + destruct (m <? S count); [done|]. intros (p & -> & Hp)%IH. exists (b :: p).
      split; [done|]. constructor; [by rewrite Hd|done].
    + intros [= _ _ <-]. by exists [].
Qed.
Lemma read_number_prefix radix m z bound l rest :
  read_number radix m z bound l = Some rest ->
  exists p, l = p ++ rest /\ Forall (fun b => is_Some (to_digit radix b)) p.
Proof.
  unfold read_number. intros H. apply bind_Some in H as ([[r c] rest'] & Hd & H).
  destruct (c =? 0); [done|]. destruct (_ && _ && _); [done|].
  apply bind_Some in H as (_ & _ & [= <-]). by eapply read_digits_prefix.
Qed.
Lemma read_given_Some c l rest : read_given_char c l = Some rest -> l = c :: rest.
Proof. destruct l as [|b l]; cbn; [done|]. case_bool_decide; [|done]. congruence. Qed.
Lemma decimal_digit b : is_Some (to_digit 10 b) -> is_digit b = true.
Proof.
  unfold to_digit, is_digit. destruct (byte_in 48 57 b) eqn:Hd; [done|].
  destruct (byte_in 97 122 b) eqn:Hl; [|destruct (byte_in 65 90 b) eqn:Hu].
  - unfold byte_in in Hl. rewrite (proj2 (Z.ltb_ge _ _)) by lia. intros [? ?]; done.
  - unfold byte_in in Hu. rewrite (proj2 (Z.ltb_ge _ _)) by lia. intros [? ?]; done.
  - intros [? ?]; done.
Qed.

Lemma read_octets_prefix n i l rest :
  read_octets n i l = Some rest -> exists p, l = p ++ rest /\ forallb digit_or_dot p = true.
Proof.
  revert i l. induction n as [|n IH]; intros i l; cbn [read_octets].
  - intros [= <-]. by exists [].
  - intros H. apply bind_Some in H as (l1 & H1 & (p & -> & Hp)%IH).
    unfold read_separator in H1. apply bind_Some in H1 as (l2 & H2 & (q & -> & Hq)%read_number_prefix).
    assert (Hq' : forallb digit_or_dot q = true).
    { apply forallb_forall. intros b Hb%list_elem_of_In. rewrite Forall_forall in Hq.
      unfold digit_or_dot. by rewrite (decimal_digit b (Hq b Hb)). }
    destruct (0 <? i).
    + apply read_given_Some in H2 as ->. exists ("."%char :: q ++ p). split; [cbn [app]; by rewrite <- app_assoc|].
      cbn [forallb]. by rewrite forallb_app, Hq', Hp.
    + injection H2 as ->. exists (q ++ p). split; [cbn [app]; by rewrite <- app_assoc|]. by rewrite forallb_app, Hq', Hp.
Qed.

Lemma read_groups_suffix n i limit l k v rest :
  read_groups n i limit l = (k, v, rest) -> rest `suffix_of` l.
Proof.
  revert i l. induction n as [|n IH]; intros i l; cbn [read_groups].
  - by intros [= _ _ <-].
  - assert (Hsep : forall f l r, (forall l r, f l = Some r -> r `suffix_of` l) ->
      read_separator ":"%char i f l = Some r -> r `suffix_of` l).
    { intros f l0 r Hf H. apply bind_Some in H as (l1 & H1 & H%Hf). etrans; [exact H|].
      destruct (0 <? i); [apply read_given_Some in H1 as ->; by apply suffix_cons_r|by injection H1 as ->]. }
    destruct (if i <? limit - 1 then _ else None) as [r|] eqn:H4.
    + intros [= _ _ <-]. destruct (i <? limit - 1); [|done]. revert H4. apply Hsep.
      intros l0 r0 (p & -> & _)%read_octets_prefix. by exists p.
    + destruct (read_separator _ i (read_number _ _ _ _) l) as [r|] eqn:H6; [|by intros [= _ _ <-]].
      intros Hr%IH. etrans; [exact Hr|]. revert H6. apply Hsep.
      intros l0 r0 (p & -> & _)%read_number_prefix. by exists p.
Qed.
(** A reader past the first group starts with the separator. *)
Lemma read_groups_progress n i limit l k v rest :
  0 < i -> read_groups n i limit l = (k, v, rest) -> n <> 0 -> k <> i -> ":"%char ∈ l.
Proof.
  intros Hi H Hn Hk. destruct n as [|n]; [done|]. revert H. cbn [read_groups].
  assert (Hsep : forall f r, read_separator ":"%char i f l = Some r -> ":"%char ∈ l).
  { intros f r Hs. unfold read_separator in Hs. rewrite (proj2 (Nat.ltb_lt 0 i) Hi) in Hs.
    apply bind_Some in Hs as (l1 & ->%read_given_Some & _). by left. }
  destruct (if i <? limit - 1 then _ else None) as [r|] eqn:H4.
  - intros _. destruct (i <? limit - 1); [by eapply Hsep|done].
  - destruct (read_separator _ i (read_number _ _ _ _) l) as [r|] eqn:H6; [intros _; by eapply Hsep|].
    intros [= <- _ _]. done.
Qed.

Lemma read_ipv6_colon l rest : read_ipv6_addr l = Some rest -> ":"%char ∈ l.
Proof.
  unfold read_ipv6_addr. destruct (read_groups 8 0 8 l) as [[k v] l1] eqn:Hg.
  destruct (k =? 8) eqn:Hk.
  - apply Nat.eqb_eq in Hk as ->. intros _. change (read_groups 8 0 8 l) with
      (match read_separator ":"%char 0 read_ipv4_addr l with
       | Some rest => (2, true, rest)
       | None => match read_separator ":"%char 0 (read_number 16 4 true u16_bound) l with
                 | Some rest => read_groups 7 1 8 rest
                 | None => (0, false, l)
                 end
       end) in Hg.
    destruct (read_separator ":"%char 0 read_ipv4_addr l) as [r|]; [done|].
    destruct (read_separator ":"%char 0 (read_number _ _ _ _) l) as [r|] eqn:H6; [|done].
    apply bind_Some in H6 as (l2 & [= ->] & (p & -> & _)%read_number_prefix).
    apply elem_of_app. right. eapply (read_groups_progress 7 1 8 r 8 v l1); [lia|exact Hg|done|done].
  - destruct v; [done|]. intros H. apply bind_Some in H as (l2 & ->%read_given_Some & _).
    apply read_groups_suffix in Hg as [p ->]. apply elem_of_app. right. by left.
Qed.

(** An accepted address is made of digits and dots, or contains a colon. *)
Lemma parses_shape l : parses l = true -> forallb digit_or_dot l = true \/ ":"%char ∈ l.
Proof.
  unfold parses. destruct (read_ipv4_addr l) as [rest|] eqn:H4.
  - destruct rest; [|done]. intros _. apply read_octets_prefix in H4 as (p & -> & Hp).
    left. by rewrite app_nil_r.
  - destruct (read_ipv6_addr l) as [rest|] eqn:H6; [|done]. intros _. right. by eapply read_ipv6_colon.
Qed.
Example parses_examples :
  map (fun s => parses (String.list_ascii_of_string s))
    ["127.0.0.1"; "001.002.003.004"; "::1"; "1::2:3"; "::ffff:1.2.3.4"; "1:2:3:4:5:6:7:8"; "256.0.0.1";
     "a.b"; "1:2"; ""; "1.2.3.4.5"; ":::"; "::"]
  = [true; false; true; true; true; true; false; false; false; false; false; false; true].
Proof. vm_compute. reflexivity. Qed.
End IpAddr.

(** * Errors *)

Inductive NetworkAuthorityError :=
| InvalidSupportPath | InvalidServiceName | ServiceNameIsAddress | ZeroTcpPort | ZeroResolverBound
| AttemptDeadlineExceedsResolution | ResolutionDeadlineExceedsSetup | ZeroSessionBound
| DnsMessageCountInsufficient | AttemptCountExceedsAnswers | ReservedChildDescriptor
| InvalidCredentialSourceId | CredentialServiceMismatch.
#[global] Instance NetworkAuthorityError_eq_dec : EqDecision NetworkAuthorityError.
Proof. solve_decision. Defined.
Definition NetworkAuthorityError_code (e : NetworkAuthorityError) : string :=
  match e with
  | InvalidSupportPath => "plan.authority.network.path.external-invalid"
  | InvalidServiceName => "plan.authority.network.service-name.invalid"
  | ServiceNameIsAddress => "plan.authority.network.service-name.address"
  | ZeroTcpPort => "plan.authority.network.service-port.zero"
  | ZeroResolverBound => "plan.authority.network.resolver.bound.zero"
  | AttemptDeadlineExceedsResolution =>
      "plan.authority.network.resolver.attempt-deadline.exceeds-resolution"
  | ResolutionDeadlineExceedsSetup => "plan.authority.network.resolver.deadline.exceeds-setup"
  | ZeroSessionBound => "plan.authority.network.session.bound.zero"
  | DnsMessageCountInsufficient => "plan.authority.network.session.dns-messages.insufficient"
  | AttemptCountExceedsAnswers => "plan.authority.network.session.attempts.exceed-answers"
  | ReservedChildDescriptor => "plan.authority.network.channel.descriptor.reserved"
  | InvalidCredentialSourceId => "plan.authority.network.credential-source.id.invalid"
  | CredentialServiceMismatch => "plan.authority.network.credential-source.service-mismatch"
  end.

(** * Validated identifiers *)

Record NetworkSupportPath := mkNetworkSupportPath { support_path : AuthorityPath }.
#[global] Instance NetworkSupportPath_eq_dec : EqDecision NetworkSupportPath.
Proof. solve_decision. Defined.
#[global] Instance NetworkSupportPath_ord : RustOrd NetworkSupportPath := ord_via support_path.
#[global] Instance NetworkSupportPath_lawful : LawfulOrd NetworkSupportPath.
Proof.
  assert (Inj (=) (=) support_path) by (intros [] []; cbn; congruence).
  apply (ord_via_lawful support_path).
Qed.

(** A component [split('/')] must not give: empty, [.] or [..]. *)
Definition bad_component (c : list byte) : bool :=
  bool_decide (c = []) || bool_decide (c = ["."%char]) || bool_decide (c = ["."%char; "."%char]).
Definition NetworkSupportPath_new (value : string) : result NetworkAuthorityError NetworkSupportPath :=
  let bytes := String.list_ascii_of_string value in
  if negb (bool_decide (head bytes = Some "/"%char))
     || (negb (bool_decide (value = "/"))
         && match IpAddr.read_given_char "/"%char bytes with
            | None => true
            | Some suffix => existsb bad_component (split_on "/"%char suffix)
            end)
  then Err InvalidSupportPath
  else map_err (fun _ => InvalidSupportPath) (mkNetworkSupportPath <$> AuthorityPath_new value).
Definition NetworkSupportPath_as_str (p : NetworkSupportPath) : string :=
  AuthorityPath_as_str (support_path p).

Record ServiceName := mkServiceName { ServiceName_as_str : string }.
#[global] Instance ServiceName_eq_dec : EqDecision ServiceName.
Proof. solve_decision. Defined.
Definition label_byte (b : byte) : bool := is_lower b || is_digit b || bool_decide (b = "-"%char).
Definition bad_label (bytes : list byte) : bool :=
  bool_decide (bytes = []) || bool_decide (63 < length bytes)
  || bool_decide (head bytes = Some "-"%char) || bool_decide (last_byte bytes = Some "-"%char)
  || negb (forallb label_byte bytes).
Definition ServiceName_new (value : string) : result NetworkAuthorityError ServiceName :=
  let bytes := String.list_ascii_of_string value in
  if bool_decide (bytes = []) || bool_decide (253 < length bytes)
     || bool_decide (last_byte bytes = Some "."%char)
  then Err InvalidServiceName
  else if IpAddr.parses bytes || forallb IpAddr.digit_or_dot bytes then Err ServiceNameIsAddress
  else if existsb bad_label (split_on "."%char bytes) then Err InvalidServiceName
  else Ok (mkServiceName value).

Record TcpPort := mkTcpPort { TcpPort_get : Z }.
#[global] Instance TcpPort_eq_dec : EqDecision TcpPort.
Proof. solve_decision. Defined.
Definition TcpPort_new (value : Z) : result NetworkAuthorityError TcpPort :=
  if (value =? 0)%Z then Err ZeroTcpPort else Ok (mkTcpPort value).

Record ChildChannelDescriptor := mkChildChannelDescriptor { ChildChannelDescriptor_get : Z }.
#[global] Instance ChildChannelDescriptor_eq_dec : EqDecision ChildChannelDescriptor.
Proof. solve_decision. Defined.
Definition ChildChannelDescriptor_new (value : Z) :
    result NetworkAuthorityError ChildChannelDescriptor :=
  if (value <? 3)%Z then Err ReservedChildDescriptor else Ok (mkChildChannelDescriptor value).

Record CredentialSourceId := mkCredentialSourceId { CredentialSourceId_as_str : string }.
#[global] Instance CredentialSourceId_eq_dec : EqDecision CredentialSourceId.
Proof. solve_decision. Defined.
Definition CredentialSourceId_new (value : string) : result NetworkAuthorityError CredentialSourceId :=
  let bytes := String.list_ascii_of_string value in
  if bool_decide (bytes = []) || bool_decide (128 < length bytes)
     || negb (option_test is_lower (head bytes))
     || negb (option_test (fun b => is_lower b || is_digit b) (last_byte bytes))
     || negb (forallb (fun b => is_lower b || is_digit b
                         || bool_decide (b = "."%char \/ b = "-"%char)) bytes)
  then Err InvalidCredentialSourceId else Ok (mkCredentialSourceId value).

Record CredentialSource := mkCredentialSource {
  cs_id : CredentialSourceId; cs_service : ServiceName; cs_environment : EnvironmentName
}.
#[global] Instance CredentialSource_eq_dec : EqDecision CredentialSource.
Proof. solve_decision. Defined.
Definition CredentialSource_new (id : CredentialSourceId) (service : ServiceName)
    (environment : EnvironmentName) (declared_service : ServiceName) :
    result NetworkAuthorityError CredentialSource :=
  if negb (bool_decide (service = declared_service)) then Err CredentialServiceMismatch
  else Ok (mkCredentialSource id service environment).

(** * Resolver, TLS and session limits *)

Inductive ResolverAddress := Ipv4 (bytes : list byte) | Ipv6 (bytes : list byte).
#[global] Instance ResolverAddress_eq_dec : EqDecision ResolverAddress.
Proof. solve_decision. Defined.
Record ResolverEndpoint := mkResolverEndpoint { ep_address : ResolverAddress; ep_port : TcpPort }.
#[global] Instance ResolverEndpoint_eq_dec : EqDecision ResolverEndpoint.
Proof. solve_decision. Defined.
Inductive AddressOrder := Ipv4ThenIpv6Lexicographic.
#[global] Instance AddressOrder_eq_dec : EqDecision AddressOrder.
Proof. solve_decision. Defined.

Record ResolutionPolicy := mkResolutionPolicy {
  rp_endpoint : ResolverEndpoint;
  rp_configuration : NetworkSupportPath;
  maximum_cname_depth : Z;
  maximum_answer_count : Z;
  maximum_response_bytes : Z;
  resolution_deadline_ms : Z;
  attempt_deadline_ms : Z;
  address_order : AddressOrder
}.
#[global] Instance ResolutionPolicy_eq_dec : EqDecision ResolutionPolicy.
Proof. solve_decision. Defined.
Definition ResolutionPolicy_new (endpoint : ResolverEndpoint) (configuration : NetworkSupportPath)
    (maximum_cname_depth maximum_answer_count maximum_response_bytes resolution_deadline_ms
     attempt_deadline_ms : Z) (address_order : AddressOrder) :
    result NetworkAuthorityError ResolutionPolicy :=
  if (maximum_cname_depth =? 0)%Z || (maximum_answer_count =? 0)%Z || (maximum_response_bytes =? 0)%Z
     || (resolution_deadline_ms =? 0)%Z || (attempt_deadline_ms =? 0)%Z
  then Err ZeroResolverBound
  else if (resolution_deadline_ms <? attempt_deadline_ms)%Z then Err AttemptDeadlineExceedsResolution
  else Ok (mkResolutionPolicy endpoint configuration maximum_cname_depth maximum_answer_count
    maximum_response_bytes resolution_deadline_ms attempt_deadline_ms address_order).
Definition ResolutionPolicy_is_no_more_permissive_than (self other : ResolutionPolicy) : bool :=
  bool_decide (rp_endpoint self = rp_endpoint other)
  && bool_decide (rp_configuration self = rp_configuration other)
  && bool_decide (address_order self = address_order other)
  && (maximum_cname_depth self <=? maximum_cname_depth other)%Z
  && (maximum_answer_count self <=? maximum_answer_count other)%Z
  && (maximum_response_bytes self <=? maximum_response_bytes other)%Z
  && (resolution_deadline_ms self <=? resolution_deadline_ms other)%Z
  && (attempt_deadline_ms self <=? attempt_deadline_ms other)%Z.

Inductive MinimumTlsVersion := Tls12 | Tls13.
Inductive ServiceNameVerification := DnsSanExact.
Inductive RevocationPolicy := NotCheckedRecordedAssumption.
#[global] Instance MinimumTlsVersion_eq_dec : EqDecision MinimumTlsVersion.
Proof. solve_decision. Defined.
#[global] Instance ServiceNameVerification_eq_dec : EqDecision ServiceNameVerification.
Proof. solve_decision. Defined.
#[global] Instance RevocationPolicy_eq_dec : EqDecision RevocationPolicy.
Proof. solve_decision. Defined.
Record TlsPolicy := mkTlsPolicy {
  trust_root_set : NetworkSupportPath;
  minimum_version : MinimumTlsVersion;
  service_name_verification : ServiceNameVerification;
  revocation : RevocationPolicy
}.
#[global] Instance TlsPolicy_eq_dec : EqDecision TlsPolicy.
Proof. solve_decision. Defined.

Record ServiceSessionLimits := mkServiceSessionLimits {
  setup_time_ms : Z; session_time_ms : Z; child_to_service_bytes : Z; service_to_child_bytes : Z;
  dns_messages : Z; endpoint_attempts : Z; tls_handshake_bytes : Z
}.
#[global] Instance ServiceSessionLimits_eq_dec : EqDecision ServiceSessionLimits.
Proof. solve_decision. Defined.
Definition ServiceSessionLimits_new (setup_time_ms session_time_ms child_to_service_bytes
    service_to_child_bytes dns_messages endpoint_attempts tls_handshake_bytes
    maximum_answer_count : Z) : result NetworkAuthorityError ServiceSessionLimits :=
  if (setup_time_ms =? 0)%Z || (session_time_ms =? 0)%Z || (child_to_service_bytes =? 0)%Z
     || (service_to_child_bytes =? 0)%Z || (dns_messages =? 0)%Z || (endpoint_attempts =? 0)%Z
     || (tls_handshake_bytes =? 0)%Z
  then Err ZeroSessionBound
  else if (dns_messages <? 2)%Z then Err DnsMessageCountInsufficient
  else if (maximum_answer_count <? endpoint_attempts)%Z then Err AttemptCountExceedsAnswers
  else Ok (mkServiceSessionLimits setup_time_ms session_time_ms child_to_service_bytes
    service_to_child_bytes dns_messages endpoint_attempts tls_handshake_bytes).
Definition ServiceSessionLimits_is_no_more_permissive_than (self other : ServiceSessionLimits) : bool :=
  (setup_time_ms self <=? setup_time_ms other)%Z
  && (session_time_ms self <=? session_time_ms other)%Z
  && (child_to_service_bytes self <=? child_to_service_bytes other)%Z
  && (service_to_child_bytes self <=? service_to_child_bytes other)%Z
  && (dns_messages self <=? dns_messages other)%Z
  && (endpoint_attempts self <=? endpoint_attempts other)%Z
  && (tls_handshake_bytes self <=? tls_handshake_bytes other)%Z.

(** * The authenticated service session *)

Inductive LocalChannelProtocol := UnixStreamV1.
#[global] Instance LocalChannelProtocol_eq_dec : EqDecision LocalChannelProtocol.
Proof. solve_decision. Defined.
Record AuthenticatedServiceSession := mkSession {
  ss_service : ServiceName;
  ss_port : TcpPort;
  ss_resolution : ResolutionPolicy;
  ss_tls : TlsPolicy;
  ss_limits : ServiceSessionLimits;
  connector_executable : NetworkSupportPath;
  connector_runtime_read : list NetworkSupportPath;
  local_channel : LocalChannelProtocol;
  child_descriptor : ChildChannelDescriptor;
  credential_source : option CredentialSource
}.
#[global] Instance AuthenticatedServiceSession_eq_dec : EqDecision AuthenticatedServiceSession.
Proof. solve_decision. Defined.
(** [sort(); dedup()] *)
Definition sort_dedup (paths : list NetworkSupportPath) : list NetworkSupportPath :=
  dedup_by (fun a b => bool_decide (a = b)) (Prelude.sort paths).
Definition AuthenticatedServiceSession_new (service : ServiceName) (port : TcpPort)
    (resolution : ResolutionPolicy) (tls : TlsPolicy) (limits : ServiceSessionLimits)
    (connector_executable : NetworkSupportPath) (connector_runtime_read : list NetworkSupportPath)
    (local_channel : LocalChannelProtocol) (child_descriptor : ChildChannelDescriptor)
    (credential_source : option CredentialSource) :
    result NetworkAuthorityError AuthenticatedServiceSession :=
  if (setup_time_ms limits <? resolution_deadline_ms resolution)%Z
  then Err ResolutionDeadlineExceedsSetup
  else if (maximum_answer_count resolution <? endpoint_attempts limits)%Z
  then Err AttemptCountExceedsAnswers
  else if match credential_source with
          | Some source => negb (bool_decide (cs_service source = service))
          | None => false
          end
  then Err CredentialServiceMismatch
  else Ok (mkSession service port resolution tls limits connector_executable
    (sort_dedup connector_runtime_read) local_channel child_descriptor credential_source).
Definition AuthenticatedServiceSession_is_no_more_permissive_than
    (self other : AuthenticatedServiceSession) : bool :=
  bool_decide (ss_service self = ss_service other)
  && bool_decide (ss_port self = ss_port other)
  && ResolutionPolicy_is_no_more_permissive_than (ss_resolution self) (ss_resolution other)
  && bool_decide (ss_tls self = ss_tls other)
  && ServiceSessionLimits_is_no_more_permissive_than (ss_limits self) (ss_limits other)
  && bool_decide (connector_executable self = connector_executable other)
  && all_contained (connector_runtime_read self) (connector_runtime_read other)
  && bool_decide (local_channel self = local_channel other)
  && bool_decide (child_descriptor self = child_descriptor other)
  && bool_decide (credential_source self = credential_source other).

(** * Grammars *)

(** A DNS label of the profile. *)
Definition dns_label (l : list byte) : Prop :=
  1 <= length l <= 63 /\ Forall (fun b => label_byte b = true) l
  /\ head l <> Some "-"%char /\ last_byte l <> Some "-"%char.
(** A component of a canonical path. *)
Definition path_component (c : list byte) : Prop :=
  c <> [] /\ c <> ["."%char] /\ c <> ["."%char; "."%char] /\ ~ ("/"%char ∈ c) /\ ~ (nul ∈ c).

(** * Lemmas *)

Lemma bad_label_spec l : bad_label l = false <-> dns_label l.
Proof.
  unfold bad_label, dns_label. rewrite !orb_false_iff, negb_false_iff, !bool_decide_eq_false.
  rewrite forallb_forall, Forall_forall.
  assert (l <> [] <-> 1 <= length l) as -> by (destruct l; cbn; split; [done|lia|lia|done]).
  assert ((forall x, In x l -> label_byte x = true) <-> (forall x, x ∈ l -> label_byte x = true)) as ->.
  { split; intros H x Hx; apply H; by apply list_elem_of_In. }
  split; [intros ((((? & ?) & ?) & ?) & ?); repeat split; try done; lia|].
  intros ((? & ?) & ? & ? & ?). repeat split; try done; lia.
Qed.
Lemma bad_component_spec c :
  bad_component c = false <-> c <> [] /\ c <> ["."%char] /\ c <> ["."%char; "."%char].
Proof. unfold bad_component. rewrite !orb_false_iff, !bool_decide_eq_false. tauto. Qed.
Lemma string_bytes_inj (s t : string) :
  String.list_ascii_of_string s = String.list_ascii_of_string t -> s = t.
Proof.
  intros H. by rewrite <- (String.string_of_list_ascii_of_string s), H, String.string_of_list_ascii_of_string.
Qed.

Lemma label_separator l : dns_label l -> ~ ("."%char ∈ l) /\ ~ (":"%char ∈ l).
Proof.
  intros (_ & Hl & _). rewrite Forall_forall in Hl. split; intros H%Hl; vm_compute in H; done.
Qed.
Lemma last_byte_snoc l b : last_byte (l ++ [b]) = Some b.
Proof. unfold last_byte. by rewrite reverse_snoc. Qed.
(** A text ending in the separator has an empty last part. *)
Lemma ends_with_separator sep l :
  last_byte l = Some sep -> exists ps, split_on sep l = ps ++ [[]].
Proof.
  destruct (decide (l = [])) as [->|Hne]; [done|].
  destruct (exists_last Hne) as (k & b & ->). rewrite last_byte_snoc. intros [= ->].
  exists (split_on sep k). apply split_on_iff. split; [by destruct (split_on sep k)|]. split.
  - apply Forall_app. split; [apply split_on_parts|]. constructor; [by apply not_elem_of_nil|done].
  - rewrite <- (split_on_join sep k) at 2. destruct (split_on_cons sep k) as (c & cs & ->).
    clear. revert c. induction cs as [|d cs IH]; intros c; [done|].
    change (c ++ sep :: join_with sep ((d :: cs) ++ [[]]) = (c ++ sep :: join_with sep (d :: cs)) ++ [sep]).
    rewrite (IH d), <- app_assoc. done.
Qed.

(** ** Support paths *)

Lemma nul_ne_slash : nul <> "/"%char.
Proof. by vm_compute. Qed.
Lemma NetworkSupportPath_new_Ok s p :
  NetworkSupportPath_new s = Ok p <->
  p = mkNetworkSupportPath (mkAuthorityPath (AuthorityText_new s))
  /\ exists l, String.list_ascii_of_string s = "/"%char :: l /\ ~ (nul ∈ l)
     /\ (l = [] \/ Forall (fun c => bad_component c = false) (split_on "/"%char l)).
Proof.
  unfold NetworkSupportPath_new.
  destruct (String.list_ascii_of_string s) as [|b l] eqn:Hl; [naive_solver|]. cbn [head].
  destruct (decide (b = "/"%char)) as [->|Hb].
  2:{ rewrite bool_decide_eq_false_2 by congruence. split; [done|]. intros (_ & k & [= ?] & _). done. }
  rewrite bool_decide_eq_true_2 by done. cbn [negb orb IpAddr.read_given_char].
  rewrite (bool_decide_eq_true_2 ("/"%char = "/"%char)) by done.
  assert (Hs : s = "/" <-> l = []).
  { split; [intros Hs; rewrite Hs in Hl; by injection Hl|]. intros ->. by apply string_bytes_inj. }
  assert (Hap : forall q, map_err (fun _ => InvalidSupportPath) (mkNetworkSupportPath <$> AuthorityPath_new s) = Ok q
    <-> q = mkNetworkSupportPath (mkAuthorityPath (AuthorityText_new s)) /\ ~ (nul ∈ l)).
  { intros q. rewrite map_err_Ok, fmap_Ok. split.
    - intros (ap & (_ & Hn & ->)%AuthorityPath_new_Ok & <-). split; [done|]. rewrite Hl in Hn.
      intros Hin. apply Hn. by right.
    - intros [-> Hn]. eexists. split; [|done]. apply AuthorityPath_new_Ok. split; [by intros ->|].
      split; [|done]. rewrite Hl, elem_of_cons. intros [Hc|?]; [by destruct (nul_ne_slash Hc)|done]. }
  destruct (negb _ && _) eqn:Hbad.
  - split; [done|]. intros (_ & k & [= <-] & _ & Hk). apply andb_true_iff in Hbad as [Hne Hex].
    apply negb_true_iff, bool_decide_eq_false in Hne. rewrite Hs in Hne.
    destruct Hk as [?|Hk]; [done|]. apply existsb_false in Hk. congruence.
  - rewrite Hap. apply andb_false_iff in Hbad. rewrite negb_false_iff, bool_decide_eq_true, Hs, existsb_false in Hbad.
    naive_solver.
Qed.

Lemma split_components cs :
  Forall path_component cs -> cs <> [] -> split_on "/"%char (join_with "/"%char cs) = cs.
Proof.
  intros Hcs Hne. apply split_on_iff. split; [done|]. split; [|done].
  eapply Forall_impl; [exact Hcs|]. by intros x (_ & _ & _ & ? & _).
Qed.
Lemma join_components_nil cs : Forall path_component cs -> join_with "/"%char cs = [] -> cs = [].
Proof.
  intros [|c ds (Hc & _) _] Hj; [done|]. destruct ds; cbn in Hj; [done|]. by apply app_nil in Hj as [_ ?].
Qed.
Lemma join_components_inj cs ds :
  Forall path_component cs -> Forall path_component ds ->
  join_with "/"%char cs = join_with "/"%char ds -> cs = ds.
Proof.
  intros Hcs Hds Heq. destruct (decide (cs = [])) as [->|Hc].
  - symmetry. by apply join_components_nil.
  - destruct (decide (ds = [])) as [->|Hd]; [by apply join_components_nil|].
    by rewrite <- (split_components cs Hcs Hc), Heq, split_components.
Qed.
Lemma elem_of_join sep b ps : b <> sep -> b ∈ join_with sep ps <-> exists p, p ∈ ps /\ b ∈ p.
Proof.
  intros Hb. induction ps as [|p [|q ps] IH].
  - split; [by intros ?%not_elem_of_nil|]. by intros (p & ?%not_elem_of_nil & _).
  - cbn [join_with]. split; [intros Hp; exists p; split; [by left|done]|].
    intros (r & [->|?%not_elem_of_nil]%elem_of_cons & Hr); done.
  - change (join_with sep (p :: q :: ps)) with (p ++ sep :: join_with sep (q :: ps)).
    rewrite elem_of_app, elem_of_cons, IH. split.
    + intros [Hp|[?|(r & Hr & Hbr)]]; [exists p; split; [by left|done]|done|].
      exists r. split; [by right|done].
    + intros (r & [->|Hr]%elem_of_cons & Hbr); [by left|]. right. right. by exists r.
Qed.
Lemma components_exist l :
  ~ (nul ∈ l) -> l = [] \/ Forall (fun c => bad_component c = false) (split_on "/"%char l) ->
  exists cs, Forall path_component cs /\ l = join_with "/"%char cs.
Proof.
  intros Hnul [->|Hbad]; [by exists []|]. exists (split_on "/"%char l).
  split; [|by rewrite split_on_join]. pose proof (split_on_parts "/"%char l) as Hparts.
  rewrite Forall_forall in Hbad, Hparts. apply Forall_forall. intros c Hc.
  destruct (proj1 (bad_component_spec c) (Hbad c Hc)) as (? & ? & ?).
  repeat split; [done..|by apply Hparts|]. intros Hn. apply Hnul.
  rewrite <- (split_on_join "/"%char l). apply elem_of_join; [apply nul_ne_slash|]. by exists c.
Qed.
Lemma components_accepted cs :
  Forall path_component cs ->
  ~ (nul ∈ join_with "/"%char cs)
  /\ (join_with "/"%char cs = []
      \/ Forall (fun c => bad_component c = false) (split_on "/"%char (join_with "/"%char cs))).
Proof.
  intros Hcs. split.
  - rewrite elem_of_join by apply nul_ne_slash. intros (c & Hc & Hn). rewrite Forall_forall in Hcs.
    by destruct (Hcs c Hc) as (_ & _ & _ & _ & ?).
  - destruct (decide (cs = [])) as [->|Hne]; [by left|]. right. rewrite split_components by done.
    eapply Forall_impl; [exact Hcs|]. intros c (? & ? & ? & _). by apply bad_component_spec.
Qed.

Lemma ServiceName_new_Ok (s : string) (n : ServiceName) :
  ServiceName_new s = Ok n <->
  n = mkServiceName s /\ exists labels,
    String.list_ascii_of_string s = join_with "."%char labels /\ labels <> []
    /\ Forall dns_label labels
    /\ length (String.list_ascii_of_string s) <= 253
    /\ forallb IpAddr.digit_or_dot (String.list_ascii_of_string s) = false.
Proof.
  unfold ServiceName_new. set (l := String.list_ascii_of_string s). split.
  - destruct (_ || _ || _) eqn:H1; [done|]. rewrite !orb_false_iff, !bool_decide_eq_false in H1.
    destruct (IpAddr.parses l || _) eqn:H2; [done|]. apply orb_false_iff in H2 as [_ H2].
    destruct (existsb bad_label _) eqn:H3; [done|]. intros [= <-]. split; [done|].
    exists (split_on "."%char l). split; [by rewrite split_on_join|]. split.
    { by destruct (split_on_cons "."%char l) as (c & cs & ->). }
    split; [|split; [lia|done]]. apply existsb_false in H3. eapply Forall_impl; [exact H3|].
    intros x. apply bad_label_spec.
  - intros (-> & labels & Hl & Hne & Hlab & Hlen & Hdig).
    assert (Hs : split_on "."%char l = labels).
    { apply split_on_iff. split; [done|]. split; [|done].
      eapply Forall_impl; [exact Hlab|]. intros x Hx. by apply label_separator. }
    rewrite (proj2 (existsb_false _ _)).
    2:{ rewrite Hs. eapply Forall_impl; [exact Hlab|]. intros x. apply bad_label_spec. }
    rewrite Hdig, orb_false_r.
    assert (IpAddr.parses l = false) as ->.
    { destruct (IpAddr.parses l) eqn:Hp; [|done]. apply IpAddr.parses_shape in Hp as [Hp|Hp]; [congruence|].
      apply (split_on_elem "."%char) in Hp as [?|(p & Hp & Hc)]; [done|]. rewrite Hs in Hp.
      rewrite Forall_forall in Hlab. by destruct (label_separator p (Hlab p Hp)). }
    rewrite bool_decide_eq_false_2, bool_decide_eq_false_2, bool_decide_eq_false_2; [done|..].
    + intros (ps & Hps)%ends_with_separator. rewrite Hs in Hps. rewrite Hps in Hlab.
      apply Forall_app in Hlab as [_ Hlab]. inversion Hlab as [|? ? [[? ?] _]]. cbn in *; lia.
    + lia.
    + intros Hnil. by rewrite Hnil in Hdig.
Qed.

(** * Properties *)

(** [ServiceName::new] accepts exactly the lower-case DNS names: at most
    253 bytes, dot-separated labels of 1 to 63 letters, digits and inner hyphens,
    that are not all digits.  The address test of the code refuses nothing else:
    whatever the standard library parses as an IP address is all digits and dots
    or contains a colon. *)
Theorem service_name_grammar (s : string) (n : ServiceName) :
  ServiceName_new s = Ok n <->
  n = mkServiceName s /\ exists labels,
    String.list_ascii_of_string s = join_with "."%char labels /\ labels <> []
    /\ Forall dns_label labels
    /\ length (String.list_ascii_of_string s) <= 253
    /\ forallb IpAddr.digit_or_dot (String.list_ascii_of_string s) = false.
Proof. apply ServiceName_new_Ok. Qed.

(** A support path has one spelling.  [NetworkSupportPath::new] accepts
    exactly the absolute paths [/c1/.../cn] whose components are non-empty, are
    not [.] or [..] and contain neither a slash nor a NUL, and the accepted text
    determines the components. *)
Theorem support_path_canonical (s : string) (p : NetworkSupportPath) :
  NetworkSupportPath_new s = Ok p <->
  support_path p = mkAuthorityPath (AuthorityText_new s)
  /\ exists! cs, Forall path_component cs
       /\ String.list_ascii_of_string s = "/"%char :: join_with "/"%char cs.
Proof.
  rewrite NetworkSupportPath_new_Ok. split.
  - intros (-> & l & Hl & Hnul & Hbad). split; [done|].
    destruct (components_exist l Hnul Hbad) as (cs & Hcs & ->). exists cs. split; [done|].
    intros ds [Hds Hj]. rewrite Hl in Hj. injection Hj as Hj. by apply join_components_inj.
  - intros (Hp & cs & (Hcs & Hl) & _). split; [by destruct p; cbn in Hp; subst|].
    exists (join_with "/"%char cs). split; [done|]. by apply components_accepted.
Qed.

(** * Attenuation of sessions *)

#[global] Instance ResolutionPolicy_attenuates : Attenuates ResolutionPolicy :=
  ResolutionPolicy_is_no_more_permissive_than.
#[global] Instance ServiceSessionLimits_attenuates : Attenuates ServiceSessionLimits :=
  ServiceSessionLimits_is_no_more_permissive_than.
#[global] Instance AuthenticatedServiceSession_attenuates : Attenuates AuthenticatedServiceSession :=
  AuthenticatedServiceSession_is_no_more_permissive_than.

(** The tests as propositions. *)
Ltac split_no_more :=
  unfold no_more, AuthenticatedServiceSession_attenuates, ResolutionPolicy_attenuates,
    ServiceSessionLimits_attenuates, AuthenticatedServiceSession_is_no_more_permissive_than,
    ResolutionPolicy_is_no_more_permissive_than, ServiceSessionLimits_is_no_more_permissive_than in *;
  repeat match goal with
  | H : _ && _ = true |- _ => apply andb_true_iff in H as [? ?]
  | H : bool_decide _ = true |- _ => apply bool_decide_eq_true in H
  | H : (_ <=? _)%Z = true |- _ => apply Z.leb_le in H
  | H : all_contained _ _ = true |- _ => apply all_contained_subseteq in H
  | |- _ && _ = true => apply andb_true_iff; split
  | |- bool_decide _ = true => apply bool_decide_eq_true
  | |- (_ <=? _)%Z = true => apply Z.leb_le
  | |- all_contained _ _ = true => apply all_contained_subseteq
  end.

#[global] Instance ResolutionPolicy_preorder : AttenuationPreorder ResolutionPolicy.
Proof. split; intros; split_no_more; try congruence; lia. Qed.
#[global] Instance ServiceSessionLimits_preorder : AttenuationPreorder ServiceSessionLimits.
Proof. split; intros; split_no_more; lia. Qed.
#[global] Instance AuthenticatedServiceSession_preorder : AttenuationPreorder AuthenticatedServiceSession.
Proof. split; intros; split_no_more; try congruence; try lia; set_solver. Qed.

Lemma ResolutionPolicy_antisymm (a b : ResolutionPolicy) :
  no_more a b = true -> no_more b a = true -> a = b.
Proof. intros; split_no_more. destruct a, b; cbn in *; f_equal; try congruence; lia. Qed.
Lemma ServiceSessionLimits_antisymm (a b : ServiceSessionLimits) :
  no_more a b = true -> no_more b a = true -> a = b.
Proof. intros; split_no_more. destruct a, b; cbn in *; f_equal; lia. Qed.

Lemma sort_dedup_spec l :
  StronglySorted (fun a b => rlt a b = true) (sort_dedup l) /\ forall p, p ∈ sort_dedup l <-> p ∈ l.
Proof.
  assert (Hs : forall a b : NetworkSupportPath, bool_decide (a = b) = true <-> a = b)
    by (intros; apply bool_decide_eq_true).
  split; [apply (dedup_by_strict _ Hs), sort_weak|].
  intros p. unfold sort_dedup. by rewrite (elem_of_dedup_by _ Hs), elem_of_sort.
Qed.

Definition session_built (s : AuthenticatedServiceSession) : Prop :=
  exists service port resolution tls limits executable runtime_read channel descriptor credential,
    AuthenticatedServiceSession_new service port resolution tls limits executable runtime_read
      channel descriptor credential = Ok s.
Lemma session_built_sorted s :
  session_built s -> StronglySorted (fun a b => rlt a b = true) (connector_runtime_read s).
Proof.
  intros (?&?&?&?&?&?&rr&?&?&?&H). unfold AuthenticatedServiceSession_new in H.
  destruct (_ <? _)%Z; [done|]. destruct (_ <? _)%Z; [done|].
  destruct (match _ with Some _ => _ | None => _ end); [done|]. injection H as <-. apply sort_dedup_spec.
Qed.

Definition path_at (s : string) : NetworkSupportPath :=
  mkNetworkSupportPath (mkAuthorityPath (AuthorityText_new s)).
Definition example_limits (bytes : Z) : ServiceSessionLimits :=
  mkServiceSessionLimits 100 1000 bytes bytes 2 1 4096.
Definition example_session_args (runtime_read : list NetworkSupportPath) (limits : ServiceSessionLimits) :=
  AuthenticatedServiceSession_new (mkServiceName "api.example.com") (mkTcpPort 443)
    (mkResolutionPolicy (mkResolverEndpoint (Ipv4 (repeat (mkb 1) 4)) (mkTcpPort 53))
       (path_at "/etc/resolver.conf") 1 1 512 50 10 Ipv4ThenIpv6Lexicographic)
    (mkTlsPolicy (path_at "/etc/ca.pem") Tls13 DnsSanExact NotCheckedRecordedAssumption)
    limits (path_at "/usr/libexec/connector") runtime_read UnixStreamV1 (mkChildChannelDescriptor 9) None.

(** The attenuation test of sessions is a partial order on the sessions the
    constructor builds: reflexive and transitive on every session, and two built
    sessions that attenuate each other are the same session (the runtime-read
    closure is kept sorted without repetition, so its order is not authority). *)
Theorem session_attenuation_order :
  (forall s, AuthenticatedServiceSession_is_no_more_permissive_than s s = true)
  /\ (forall s t u, AuthenticatedServiceSession_is_no_more_permissive_than s t = true ->
       AuthenticatedServiceSession_is_no_more_permissive_than t u = true ->
       AuthenticatedServiceSession_is_no_more_permissive_than s u = true)
  /\ (forall s t, session_built s -> session_built t ->
       AuthenticatedServiceSession_is_no_more_permissive_than s t = true ->
       AuthenticatedServiceSession_is_no_more_permissive_than t s = true -> s = t).
Proof.
  split; [apply no_more_refl|]. split; [apply no_more_trans|].
  intros s t Hs%session_built_sorted Ht%session_built_sorted Hst Hts.
  unfold AuthenticatedServiceSession_is_no_more_permissive_than in Hst, Hts. split_andb.
  assert (ss_resolution s = ss_resolution t) by by apply ResolutionPolicy_antisymm.
  assert (ss_limits s = ss_limits t) by by apply ServiceSessionLimits_antisymm.
  split_no_more.
  assert (connector_runtime_read s = connector_runtime_read t).
  { apply strict_unique; [done..|]. intros x. split; auto. }
  destruct s, t; cbn in *; congruence.
Qed.
Lemma session_attenuation_order_witness :
  exists s t, example_session_args [path_at "/usr/lib"; path_at "/lib"; path_at "/lib"] (example_limits 10) = Ok s
    /\ example_session_args [path_at "/lib"; path_at "/usr/lib"] (example_limits 10) = Ok t
    /\ s = t
    /\ exists u, example_session_args [path_at "/lib"] (example_limits 5) = Ok u
         /\ AuthenticatedServiceSession_is_no_more_permissive_than u t = true
         /\ AuthenticatedServiceSession_is_no_more_permissive_than t u = false.
Proof.
  set (s := example_session_args [path_at "/usr/lib"; path_at "/lib"; path_at "/lib"] (example_limits 10)).
  set (t := example_session_args [path_at "/lib"; path_at "/usr/lib"] (example_limits 10)).
  destruct s as [a|] eqn:Hs; [|vm_compute in Hs; done].
  destruct t as [b|] eqn:Ht; [|vm_compute in Ht; done].
  exists a, b. split; [done|]. split; [done|].
  assert (Ha : session_built a) by (do 10 eexists; exact Hs).
  assert (Hb : session_built b) by (do 10 eexists; exact Ht).
  vm_compute in Hs, Ht. injection Hs as Hs. injection Ht as Ht.
  split.
  - apply session_attenuation_order; [exact Ha|exact Hb|..]; subst a b; vm_compute; reflexivity.
  - eexists. split; [vm_compute; reflexivity|]. subst b. split; vm_compute; reflexivity.
Defined.
