(* ===== verification/Plan.v ===== *)
(** The execution plans of [proofbound-runtime-core/src/plan.rs] and the shared
    error contract of [error.rs]: the version 1 TOML parser, the version 2
    deterministic-CBOR parser with its authenticated-service-session profile,
    and the entry points that decide which profile may run.

    TOML is a third-party crate: class [Toml] gives its parse function, the view
    of a value as a table and the derived deserialization of the wire structs.
    The CBOR maps are consumed field by field, as the code does: [map_take]
    removes a key and [require_empty] refuses what is left. *)
From S2P Require Import Prelude Vectors Authority Network WireV2.
From Stdlib Require Import Ascii ZArith Lia Sorted.
From stdpp Require Import prelude strings list numbers sorting.
Export stdpp.list_relations.list.

Definition PLAN_SCHEMA : string := "proofbound-runtime-plan/1".
Definition PLAN_SCHEMA_V2 : string := "proofbound-runtime-plan/2".

(** * Errors *)

Inductive PlanError :=
| MalformedToml | UnknownField | InvalidSchema | UnsupportedVersion | ExecutionObsolete
| MalformedCbor | InvalidPlanId | ArgumentContainsNull | UnsupportedNetwork
| NetworkAuthority (error : NetworkAuthorityError)
| NetworkSupportPathInvalid | CredentialEnvironmentMissing | ExecutableAuthorityMissing
| ExecutableAuthorityCount | OutputRootAuthorityCount | RuntimeLibraryPathInvalid
| Authority (error : AuthorityError).
#[global] Instance PlanError_eq_dec : EqDecision PlanError.
Proof. solve_decision. Defined.
Definition PlanError_code (e : PlanError) : string :=
  match e with
  | MalformedToml => "plan.schema.malformed-toml"
  | UnknownField => "plan.schema.unknown-field"
  | InvalidSchema => "plan.schema.invalid"
  | UnsupportedVersion => "plan.schema.unsupported-version"
  | ExecutionObsolete => "plan.schema.execution-obsolete"
  | MalformedCbor => "plan.schema.malformed-cbor"
  | InvalidPlanId => "plan.id.invalid"
  | ArgumentContainsNull => "plan.command.argument.null"
  | UnsupportedNetwork => "plan.authority.network.unsupported"
  | NetworkAuthority error => NetworkAuthorityError_code error
  | NetworkSupportPathInvalid => "plan.authority.network.path.external-invalid"
  | CredentialEnvironmentMissing => "plan.authority.network.credential-source.environment-missing"
  | ExecutableAuthorityMissing => "plan.authority.executable.missing"
  | ExecutableAuthorityCount => "plan.authority.executable.count"
  | OutputRootAuthorityCount => "plan.authority.output-root.count"
  | RuntimeLibraryPathInvalid => "plan.authority.runtime-library.external-invalid"
  | Authority ZeroProcessLimit => "plan.limits.processes.zero"
  | Authority ZeroWallTimeLimit => "plan.limits.wall_time.zero"
  | Authority error => AuthorityError_code error
  end.

(** The [From] conversions behind the question mark. *)
Definition from_authority {A} : result AuthorityError A -> result PlanError A := map_err Authority.
Definition PlanError_from_network (error : NetworkAuthorityError) : PlanError :=
  if bool_decide (error = InvalidSupportPath) then NetworkSupportPathInvalid
  else NetworkAuthority error.
Definition from_network {A} : result NetworkAuthorityError A -> result PlanError A :=
  map_err PlanError_from_network.

(** * Plans *)

Record PlanId := mkPlanId { PlanId_as_str : string }.
#[global] Instance PlanId_eq_dec : EqDecision PlanId.
Proof. solve_decision. Defined.
Definition is_ascii_lowercase_or_digit (b : byte) : bool := is_lower b || is_digit b.
Definition PlanId_new (value : string) : result PlanError PlanId :=
  let bytes := String.list_ascii_of_string value in
  if bool_decide (bytes = []) || bool_decide (128 < length bytes)
     || negb (option_test is_ascii_lowercase_or_digit (head bytes))
     || negb (option_test is_ascii_lowercase_or_digit (last_byte bytes))
     || negb (forallb (fun b => is_ascii_lowercase_or_digit b
          || bool_decide (b = "."%char \/ b = "_"%char \/ b = "-"%char)) bytes)
  then Err InvalidPlanId else Ok (mkPlanId value).

Record CommandArgument := mkCommandArgument { CommandArgument_as_str : string }.
#[global] Instance CommandArgument_eq_dec : EqDecision CommandArgument.
Proof. solve_decision. Defined.
Definition CommandArgument_new (value : string) : result PlanError CommandArgument :=
  if contains_byte nul value then Err ArgumentContainsNull else Ok (mkCommandArgument value).

Record ExecutionCommand := mkExecutionCommand {
  ec_executable : AuthorityPath; ec_arguments : list CommandArgument; ec_working_directory : AuthorityPath
}.
Record ExecutionPlan := mkExecutionPlan {
  plan_id : PlanId; plan_command : ExecutionCommand; plan_authority : AuthorityPlan
}.
Record ServiceExecutionPlan := mkServiceExecutionPlan {
  sp_base : ExecutionPlan; service_session : AuthenticatedServiceSession
}.
Inductive ParsedExecutionPlan :=
| Parsed_Deny (plan : ExecutionPlan)
| Parsed_Service (plan : ServiceExecutionPlan).

(** * Path lists *)

Definition append_paths (output : list PathAuthority) (paths : list string) (access : FileAccess)
    (role : PathRole) : result PlanError (list PathAuthority) :=
  entries ← mapM (fun path =>
    p ← from_authority (AuthorityPath_new path); Ok (PathAuthority_new p access role)) paths;
  Ok (output ++ entries).

(** [std::path::Component] and [Path::components] on Unix: repeated separators,
    a trailing separator and every [.] but a leading one are normalized away. *)
Inductive Component :=
| RootDir | CurDir | ParentDir | Normal (name : list byte).
#[global] Instance Component_eq_dec : EqDecision Component.
Proof. solve_decision. Defined.
Definition component (part : list byte) : option Component :=
  if bool_decide (part = []) || bool_decide (part = ["."%char]) then None
  else if bool_decide (part = ["."%char; "."%char]) then Some ParentDir
  else Some (Normal part).
Definition is_absolute (path : list byte) : bool := bool_decide (head path = Some "/"%char).
Definition components (path : list byte) : list Component :=
  let parts := split_on "/"%char path in
  (if is_absolute path then [RootDir]
   else if bool_decide (head parts = Some ["."%char]) then [CurDir] else [])
  ++ omap component parts.

Definition runtime_library_entry (path : string) : result PlanError PathAuthority :=
  p ← from_authority (AuthorityPath_new path);
  let filesystem_path := String.list_ascii_of_string (AuthorityPath_as_str p) in
  if negb (is_absolute filesystem_path)
     || existsb (fun c => bool_decide (c = CurDir \/ c = ParentDir)) (components filesystem_path)
  then Err RuntimeLibraryPathInvalid
  else Ok (PathAuthority_new p Read RuntimeLibrary).
Definition append_runtime_library_paths (output : list PathAuthority) (paths : list string) :
    result PlanError (list PathAuthority) :=
  entries ← mapM runtime_library_entry paths; Ok (output ++ entries).

(** The check that the executable is among the execute entries. *)
Definition grants_execute (paths : list PathAuthority) (executable : AuthorityPath) : bool :=
  existsb (fun e => bool_decide (pa_access e = Execute) && bool_decide (pa_path e = executable)) paths.

(** * Version 1: TOML *)

Record WireCommand := mkWireCommand {
  wc_executable : string; wc_arguments : list string; wc_working_directory : string
}.
Record WireAuthority := mkWireAuthority {
  wa_network : string; wa_environment : list string; wa_read : list string;
  wa_runtime_read : list string; wa_write : list string; wa_execute : list string
}.
Record WireLimits := mkWireLimits {
  wl_wall_time_ms : Z; wl_stdout_bytes : Z; wl_stderr_bytes : Z; wl_processes : Z
}.
Record WirePlan := mkWirePlan {
  wp_schema : string; wp_id : string; wp_command : WireCommand; wp_authority : WireAuthority;
  wp_limits : WireLimits
}.

(** [toml::from_str], [Value::as_table] (its entries) and the derived
    [Deserialize] behind [try_into]. *)
Class Toml := {
  toml_value : Type;
  toml_from_str : string -> option toml_value;
  as_table : toml_value -> option (list (string * toml_value));
  try_into_plan : toml_value -> option WirePlan
}.

Section toml.
Context {T : Toml}.

Definition toml_get (t : list (string * toml_value)) (key : string) : option toml_value :=
  kv ← list_find (fun kv => kv.1 = key) t; Some (kv.2).2.
Definition table (parent : list (string * toml_value)) (key : string) :
    result PlanError (list (string * toml_value)) :=
  ok_or (v ← toml_get parent key; as_table v) InvalidSchema.
Definition reject_unknown (t : list (string * toml_value)) (allowed : list string) :
    result PlanError () :=
  if existsb (fun kv => negb (bool_decide (kv.1 ∈ allowed))) t then Err UnknownField else Ok ().
Definition validate_closed_tables (value : toml_value) : result PlanError () :=
  root ← ok_or (as_table value) InvalidSchema;
  _ ← reject_unknown root ["schema"; "id"; "command"; "authority"; "limits"];
  command ← table root "command";
  _ ← reject_unknown command ["executable"; "arguments"; "working_directory"];
  authority ← table root "authority";
  _ ← reject_unknown authority
        ["network"; "environment"; "read"; "runtime_read"; "write"; "execute"];
  limits ← table root "limits";
  reject_unknown limits ["wall_time_ms"; "stdout_bytes"; "stderr_bytes"; "processes"].

Definition parse_execution_plan (input : string) : result PlanError ExecutionPlan :=
  value ← ok_or (toml_from_str input) MalformedToml;
  _ ← validate_closed_tables value;
  wire ← ok_or (try_into_plan value) InvalidSchema;
  if negb (bool_decide (wp_schema wire = PLAN_SCHEMA)) then Err UnsupportedVersion
  else if negb (bool_decide (wa_network (wp_authority wire) = "deny")) then Err UnsupportedNetwork
  else if negb (length (wa_execute (wp_authority wire)) =? 1) then Err ExecutableAuthorityCount
  else if negb (length (wa_write (wp_authority wire)) =? 1) then Err OutputRootAuthorityCount
  else
    id ← PlanId_new (wp_id wire);
    executable ← from_authority (AuthorityPath_new (wc_executable (wp_command wire)));
    working_directory ← from_authority (AuthorityPath_new (wc_working_directory (wp_command wire)));
    arguments ← mapM CommandArgument_new (wc_arguments (wp_command wire));
    paths ← append_paths [] (wa_read (wp_authority wire)) Read ProjectInput;
    paths ← append_runtime_library_paths paths (wa_runtime_read (wp_authority wire));
    paths ← append_paths paths (wa_write (wp_authority wire)) Write OutputRoot;
    paths ← append_paths paths (wa_execute (wp_authority wire)) Execute RuntimeExecutable;
    if negb (grants_execute paths executable) then Err ExecutableAuthorityMissing
    else
      environment ← mapM (fun n => from_authority (EnvironmentName_new n)) (wa_environment (wp_authority wire));
      processes ← from_authority (ProcessLimit_new (wl_processes (wp_limits wire)));
      wall_time ← from_authority (WallTimeLimit_from_milliseconds (wl_wall_time_ms (wp_limits wire)));
      Ok (mkExecutionPlan id (mkExecutionCommand executable arguments working_directory)
        (AuthorityPlan_new paths environment
          (ResourceLimits_new processes wall_time
            (OutputByteLimit_new (wl_stdout_bytes (wp_limits wire)))
            (OutputByteLimit_new (wl_stderr_bytes (wp_limits wire)))))).
End toml.

(** * Version 2: deterministic CBOR *)

Abbreviation CborMap := (list (string * Value)).
Definition cbor_map (value : Value) : result PlanError CborMap :=
  match value with Map m => Ok m | _ => Err InvalidSchema end.
(** [position] and [remove]. *)
Fixpoint take_optional (map : CborMap) (key : string) : option (Value * CborMap) :=
  match map with
  | [] => None
  | (k, v) :: rest =>
    if bool_decide (k = key) then Some (v, rest)
    else '(w, rest) ← take_optional rest key; Some (w, (k, v) :: rest)
  end.
Definition map_take (map : CborMap) (key : string) : result PlanError (Value * CborMap) :=
  ok_or (take_optional map key) InvalidSchema.
Definition require_empty (map : CborMap) : result PlanError () :=
  match map with [] => Ok () | _ => Err UnknownField end.
Definition cbor_text (value : Value) : result PlanError string :=
  match value with Text s => Ok s | _ => Err InvalidSchema end.
Definition cbor_text_array (value : Value) : result PlanError (list string) :=
  match value with Array vs => mapM cbor_text vs | _ => Err InvalidSchema end.
Definition cbor_u64 (value : Value) : result PlanError Z :=
  match value with Unsigned z => Ok z | _ => Err InvalidSchema end.
Definition cbor_u32 (value : Value) : result PlanError Z :=
  z ← cbor_u64 value; ok_or (u32_try_from z) InvalidSchema.
Definition cbor_u16 (value : Value) : result PlanError Z :=
  z ← cbor_u64 value; ok_or (u16_try_from z) InvalidSchema.
Definition cbor_bytes (value : Value) : result PlanError (list byte) :=
  match value with Bytes b => Ok b | _ => Err InvalidSchema end.
(** [Vec::try_into] an array of [n] bytes. *)
Definition bytes_try_into (n : nat) (bytes : list byte) : result PlanError (list byte) :=
  if length bytes =? n then Ok bytes else Err InvalidSchema.

(** Takes a key and reads its value, [read(take(&mut map, key)?)?]. *)
Definition take_as {A} (read : Value -> result PlanError A) (map : CborMap) (key : string) :
    result PlanError (A * CborMap) :=
  '(v, map) ← map_take map key; a ← read v; Ok (a, map).

(** ** The network authority, one table at a time *)

Inductive ParsedNetworkAuthority := Net_Deny | Net_Service (session : AuthenticatedServiceSession).

Definition parse_service (value : Value) : result PlanError (ServiceName * TcpPort) :=
  service ← cbor_map value;
  '(name, service) ← take_as cbor_text service "name";
  name ← from_network (ServiceName_new name);
  '(port, service) ← take_as cbor_u16 service "port";
  port ← from_network (TcpPort_new port);
  _ ← require_empty service;
  Ok (name, port).

Definition resolver_address (family : string) (bytes : list byte) : result PlanError ResolverAddress :=
  if bool_decide (family = "ipv4") then Ipv4 <$> bytes_try_into 4 bytes
  else if bool_decide (family = "ipv6") then Ipv6 <$> bytes_try_into 16 bytes
  else Err InvalidSchema.
Definition parse_address_order (name : string) : result PlanError AddressOrder :=
  if bool_decide (name = "ipv4-then-ipv6-lexicographic") then Ok Ipv4ThenIpv6Lexicographic
  else Err InvalidSchema.
Definition parse_resolver (value : Value) : result PlanError ResolutionPolicy :=
  resolver ← cbor_map value;
  '(address, resolver) ← take_as cbor_map resolver "address";
  '(family, address) ← take_as cbor_text address "family";
  '(address_bytes, address) ← take_as cbor_bytes address "bytes";
  _ ← require_empty address;
  address ← resolver_address family address_bytes;
  '(port, resolver) ← take_as cbor_u16 resolver "port";
  port ← from_network (TcpPort_new port);
  '(configuration, resolver) ← take_as cbor_text resolver "configuration";
  configuration ← from_network (NetworkSupportPath_new configuration);
  '(cname_depth, resolver) ← take_as cbor_u16 resolver "maximum_cname_depth";
  '(answer_count, resolver) ← take_as cbor_u16 resolver "maximum_answer_count";
  '(response_bytes, resolver) ← take_as cbor_u64 resolver "maximum_response_bytes";
  '(resolution_deadline, resolver) ← take_as cbor_u64 resolver "resolution_deadline_ms";
  '(attempt_deadline, resolver) ← take_as cbor_u64 resolver "attempt_deadline_ms";
  '(order, resolver) ← take_as cbor_text resolver "address_order";
  order ← parse_address_order order;
  _ ← require_empty resolver;
  from_network (ResolutionPolicy_new (mkResolverEndpoint address port) configuration cname_depth
    answer_count response_bytes resolution_deadline attempt_deadline order).

Definition parse_minimum_version (name : string) : result PlanError MinimumTlsVersion :=
  if bool_decide (name = "tls-1.2") then Ok Tls12
  else if bool_decide (name = "tls-1.3") then Ok Tls13 else Err InvalidSchema.
Definition parse_verification (name : string) : result PlanError ServiceNameVerification :=
  if bool_decide (name = "dns-san-exact") then Ok DnsSanExact else Err InvalidSchema.
Definition parse_revocation (name : string) : result PlanError RevocationPolicy :=
  if bool_decide (name = "not-checked-recorded-assumption") then Ok NotCheckedRecordedAssumption
  else Err InvalidSchema.
(** The disjunction of the code: [early_data] is read only when the first test passes. *)
Definition parse_tls (value : Value) : result PlanError TlsPolicy :=
  tls ← cbor_map value;
  '(roots, tls) ← take_as cbor_text tls "trust_root_set";
  roots ← from_network (NetworkSupportPath_new roots);
  '(version, tls) ← take_as cbor_text tls "minimum_version";
  version ← parse_minimum_version version;
  '(verification, tls) ← take_as cbor_text tls "service_name_verification";
  verification ← parse_verification verification;
  '(revocation, tls) ← take_as cbor_text tls "revocation";
  revocation ← parse_revocation revocation;
  '(resumption, tls) ← take_as cbor_text tls "session_resumption";
  if negb (bool_decide (resumption = "deny")) then Err InvalidSchema
  else
    '(early_data, tls) ← take_as cbor_text tls "early_data";
    if negb (bool_decide (early_data = "deny")) then Err InvalidSchema
    else _ ← require_empty tls; Ok (mkTlsPolicy roots version verification revocation).

Definition parse_session_limits (value : Value) (maximum_answer_count : Z) :
    result PlanError ServiceSessionLimits :=
  l ← cbor_map value;
  '(setup, l) ← take_as cbor_u64 l "setup_time_ms";
  '(session, l) ← take_as cbor_u64 l "session_time_ms";
  '(child, l) ← take_as cbor_u64 l "child_to_service_bytes";
  '(service, l) ← take_as cbor_u64 l "service_to_child_bytes";
  '(dns, l) ← take_as cbor_u16 l "dns_messages";
  '(attempts, l) ← take_as cbor_u16 l "endpoint_attempts";
  '(handshake, l) ← take_as cbor_u64 l "tls_handshake_bytes";
  limits ← from_network (ServiceSessionLimits_new setup session child service dns attempts handshake
    maximum_answer_count);
  _ ← require_empty l;
  Ok limits.

Definition parse_protocol (name : string) : result PlanError LocalChannelProtocol :=
  if bool_decide (name = "unix-stream-v1") then Ok UnixStreamV1 else Err InvalidSchema.
Definition parse_local_channel (value : Value) :
    result PlanError (LocalChannelProtocol * ChildChannelDescriptor) :=
  channel ← cbor_map value;
  '(protocol, channel) ← take_as cbor_text channel "protocol";
  protocol ← parse_protocol protocol;
  '(descriptor, channel) ← take_as cbor_u16 channel "child_descriptor";
  descriptor ← from_network (ChildChannelDescriptor_new descriptor);
  _ ← require_empty channel;
  Ok (protocol, descriptor).

Definition parse_credential_source (service : ServiceName) (environment : list EnvironmentName)
    (value : Value) : result PlanError CredentialSource :=
  source ← cbor_map value;
  '(id, source) ← take_as cbor_text source "id";
  id ← from_network (CredentialSourceId_new id);
  '(bound_service, source) ← take_as cbor_text source "service";
  bound_service ← from_network (ServiceName_new bound_service);
  '(name, source) ← take_as cbor_text source "environment";
  name ← from_authority (EnvironmentName_new name);
  _ ← require_empty source;
  if negb (bool_decide (name ∈ environment)) then Err CredentialEnvironmentMissing
  else from_network (CredentialSource_new id bound_service name service).
Definition parse_credential (service : ServiceName) (environment : list EnvironmentName)
    (network : CborMap) : result PlanError (option CredentialSource * CborMap) :=
  match take_optional network "credential_source" with
  | None => Ok (None, network)
  | Some (v, network) => s ← parse_credential_source service environment v; Ok (Some s, network)
  end.

Definition parse_network_authority (value : Value) (environment : list EnvironmentName) :
    result PlanError ParsedNetworkAuthority :=
  match value with
  | Text mode => if bool_decide (mode = "deny") then Ok Net_Deny else Err UnsupportedNetwork
  | _ =>
    network ← cbor_map value;
    '(mode, network) ← take_as cbor_text network "mode";
    if negb (bool_decide (mode = "authenticated-service-session")) then Err UnsupportedNetwork
    else
      '((name, port), network) ← take_as parse_service network "service";
      '(resolution, network) ← take_as parse_resolver network "resolver";
      '(tls, network) ← take_as parse_tls network "tls";
      '(limits, network) ← take_as
        (fun v => parse_session_limits v (maximum_answer_count resolution)) network "limits";
      '(executable, network) ← take_as cbor_text network "connector_executable";
      executable ← from_network (NetworkSupportPath_new executable);
      '(runtime_read, network) ← take_as cbor_text_array network "connector_runtime_read";
      runtime_read ← mapM (fun p => from_network (NetworkSupportPath_new p)) runtime_read;
      '((protocol, descriptor), network) ← take_as parse_local_channel network "local_channel";
      '(credential, network) ← parse_credential name environment network;
      _ ← require_empty network;
      Net_Service <$> from_network (AuthenticatedServiceSession_new name port resolution tls limits
        executable runtime_read protocol descriptor credential)
  end.

(** ** The plan *)

Definition parse_command (value : Value) : result PlanError ExecutionCommand :=
  command ← cbor_map value;
  '(executable, command) ← take_as cbor_text command "executable";
  executable ← from_authority (AuthorityPath_new executable);
  '(working_directory, command) ← take_as cbor_text command "working_directory";
  working_directory ← from_authority (AuthorityPath_new working_directory);
  '(arguments, command) ← take_as cbor_text_array command "arguments";
  arguments ← mapM CommandArgument_new arguments;
  _ ← require_empty command;
  Ok (mkExecutionCommand executable arguments working_directory).

(** The raw path lists and the parsed network authority. *)
Record AuthorityFields := mkAuthorityFields {
  af_environment : list EnvironmentName; af_read : list string; af_runtime_read : list string;
  af_write : list string; af_execute : list string; af_network : ParsedNetworkAuthority
}.
Definition parse_authority (value : Value) : result PlanError AuthorityFields :=
  authority ← cbor_map value;
  '(network_value, authority) ← map_take authority "network";
  '(environment, authority) ← take_as cbor_text_array authority "environment";
  environment ← mapM (fun n => from_authority (EnvironmentName_new n)) environment;
  '(read, authority) ← take_as cbor_text_array authority "read";
  '(runtime_read, authority) ← take_as cbor_text_array authority "runtime_read";
  '(write, authority) ← take_as cbor_text_array authority "write";
  '(execute, authority) ← take_as cbor_text_array authority "execute";
  _ ← require_empty authority;
  if negb (length execute =? 1) then Err ExecutableAuthorityCount
  else if negb (length write =? 1) then Err OutputRootAuthorityCount
  else
    network ← parse_network_authority network_value environment;
    Ok (mkAuthorityFields environment read runtime_read write execute network).

Definition parse_limits (value : Value) : result PlanError ResourceLimits :=
  limits ← cbor_map value;
  '(processes, limits) ← take_as cbor_u32 limits "processes";
  processes ← from_authority (ProcessLimit_new processes);
  '(wall_time, limits) ← take_as cbor_u64 limits "wall_time_ms";
  wall_time ← from_authority (WallTimeLimit_from_milliseconds wall_time);
  '(stdout, limits) ← take_as cbor_u64 limits "stdout_bytes";
  '(stderr, limits) ← take_as cbor_u64 limits "stderr_bytes";
  '(memory, limits) ← take_as cbor_u64 limits "memory_bytes";
  memory ← from_authority (MemoryByteLimit_new memory);
  '(swap, limits) ← take_as cbor_u64 limits "swap_bytes";
  swap ← from_authority (SwapByteLimit_new swap);
  _ ← require_empty limits;
  Ok (ResourceLimits_new_v2 processes wall_time (OutputByteLimit_new stdout)
    (OutputByteLimit_new stderr) memory swap).

Definition build_paths (a : AuthorityFields) : result PlanError (list PathAuthority) :=
  paths ← append_paths [] (af_read a) Read ProjectInput;
  paths ← append_runtime_library_paths paths (af_runtime_read a);
  paths ← append_paths paths (af_write a) Write OutputRoot;
  append_paths paths (af_execute a) Execute RuntimeExecutable.

(** The root map, [parse_execution_plan_contract_v2] after the decoder. *)
Definition parse_root (root : Value) : result PlanError ParsedExecutionPlan :=
  root ← cbor_map root;
  '(schema, root) ← take_as cbor_text root "schema";
  if negb (bool_decide (schema = PLAN_SCHEMA_V2)) then Err UnsupportedVersion
  else
    '(id, root) ← take_as cbor_text root "id";
    id ← PlanId_new id;
    '(command, root) ← take_as parse_command root "command";
    '(authority, root) ← take_as parse_authority root "authority";
    '(limits, root) ← take_as parse_limits root "limits";
    _ ← require_empty root;
    paths ← build_paths authority;
    if negb (grants_execute paths (ec_executable command)) then Err ExecutableAuthorityMissing
    else
      let base := mkExecutionPlan id command
        (AuthorityPlan_new paths (af_environment authority) limits) in
      Ok (match af_network authority with
          | Net_Deny => Parsed_Deny base
          | Net_Service session => Parsed_Service (mkServiceExecutionPlan base session)
          end).
Definition parse_execution_plan_contract_v2 (input : list byte) :
    result PlanError ParsedExecutionPlan :=
  root ← map_err (fun _ => MalformedCbor) (decode input);
  parse_root root.

Section entry.
Context {T : Toml}.
Definition legacy_plan (input : list byte) : bool :=
  match from_utf8 input with
  | Some text => is_ok (parse_execution_plan text)
  | None => false
  end.
Definition parse_execution_plan_for_execution (input : list byte) : result PlanError ExecutionPlan :=
  if legacy_plan input then Err ExecutionObsolete
  else
    parsed ← parse_execution_plan_contract_v2 input;
    match parsed with
    | Parsed_Deny plan => Ok plan
    | Parsed_Service _ => Err UnsupportedNetwork
    end.
Definition parse_service_execution_plan (input : list byte) : result PlanError ServiceExecutionPlan :=
  parsed ← parse_execution_plan_contract_v2 input;
  match parsed with
  | Parsed_Service plan => Ok plan
  | Parsed_Deny _ => Err UnsupportedNetwork
  end.
End entry.

(** * The wire form of a plan

    What the fields of a plan say the CBOR item was. *)

Definition text_array (texts : list string) : Value := Array (map Text texts).
Definition command_value (c : ExecutionCommand) : Value :=
  Map [("executable", Text (AuthorityPath_as_str (ec_executable c)));
       ("working_directory", Text (AuthorityPath_as_str (ec_working_directory c)));
       ("arguments", text_array (map CommandArgument_as_str (ec_arguments c)))].
Definition path_texts (role : PathRole) (paths : list PathAuthority) : list string :=
  map (fun e => AuthorityPath_as_str (pa_path e)) (filter (fun e => pa_role e = role) paths).
Definition authority_value (network : Value) (a : AuthorityPlan) : Value :=
  Map [("network", network);
       ("environment", text_array (map EnvironmentName_as_str (plan_environment a)));
       ("read", text_array (path_texts ProjectInput (plan_paths a)));
       ("runtime_read", text_array (path_texts RuntimeLibrary (plan_paths a)));
       ("write", text_array (path_texts OutputRoot (plan_paths a)));
       ("execute", text_array (path_texts RuntimeExecutable (plan_paths a)))].
Definition limits_value (l : ResourceLimits) : Value :=
  Map [("processes", Unsigned (ProcessLimit_get (processes l)));
       ("wall_time_ms", Unsigned (WallTimeLimit_milliseconds (wall_time l)));
       ("stdout_bytes", Unsigned (OutputByteLimit_get (stdout l)));
       ("stderr_bytes", Unsigned (OutputByteLimit_get (stderr l)));
       ("memory_bytes", Unsigned (from_option MemoryByteLimit_get 0%Z (memory l)));
       ("swap_bytes", Unsigned (from_option SwapByteLimit_get 0%Z (swap_limit l)))].
Definition plan_value (network : Value) (p : ExecutionPlan) : Value :=
  Map [("schema", Text PLAN_SCHEMA_V2);
       ("id", Text (PlanId_as_str (plan_id p)));
       ("command", command_value (plan_command p));
       ("authority", authority_value network (plan_authority p));
       ("limits", limits_value (plan_limits (plan_authority p)))].

(** * Values up to the order of map entries *)

Definition eqv (v w : Value) : Prop := canon v = canon w.
#[global] Instance eqv_equivalence : Equivalence eqv.
Proof. unfold eqv. split; [by intros ?|by intros ? ? ->|intros x y z Hxy Hyz; by rewrite Hxy]. Qed.
Definition entry_eqv (x y : string * Value) : Prop := x.1 = y.1 /\ eqv x.2 y.2.

Lemma StronglySorted_fmap_iff {A B} (f : A -> B) (R : B -> B -> Prop) l :
  StronglySorted R (f <$> l) <-> StronglySorted (fun a b => R (f a) (f b)) l.
Proof.
  induction l as [|a l IH]; [by split; constructor|].
  cbn [fmap list_fmap]. split; intros [Hs Hx]%StronglySorted_inv; (constructor; [by apply IH|]).
  - exact (proj1 (Forall_fmap f _ l) Hx).
  - exact (proj2 (Forall_fmap f _ l) Hx).
Qed.
Lemma sort_entries_sorted (kvs : list (string * Value)) :
  Forall (fun k => text_ok k = true) kvs.*1 -> NoDup kvs.*1 ->
  StronglySorted (fun l r => key_lt l.1 r.1 = true) (sort_by (fun l r => key_lt l.1 r.1) kvs).
Proof.
  intros Hok Hnd. apply (StronglySorted_fmap_iff (text_wire ∘ fst) (fun a b => rlt a b = true)).
  rewrite (sort_by_fmap (text_wire ∘ fst) _ rlt) by done. apply sort_strict.
  rewrite list_fmap_compose. by apply NoDup_text_wire.
Qed.
Lemma canon_Map_perm m k :
  m ≡ₚ k -> Forall (fun k => text_ok k = true) k.*1 -> NoDup k.*1 -> canon (Map m) = canon (Map k).
Proof.
  intros Hp Hok Hnd. cbn [canon]. f_equal. set (f := fun kv : string * Value => (kv.1, canon kv.2)).
  assert (Hkey : forall l : list (string * Value), (map f l).*1 = l.*1)
    by (intros l; induction l; cbn; congruence).
  apply (StronglySorted_unique_strong (fun l r : string * Value => key_lt l.1 r.1 = true)).
  - intros x y _ _ Hxy Hyx. unfold key_lt in *. by rewrite rlt_asym in Hyx.
  - apply sort_entries_sorted; rewrite Hkey, Hp; done.
  - apply sort_entries_sorted; rewrite Hkey; done.
  - rewrite !sort_by_Permutation. by apply fmap_Permutation.
Qed.
(** A map is determined, up to the order of its entries, by its fields. *)
Lemma fields_eqv m ms fs :
  m ≡ₚ ms -> Forall2 entry_eqv ms fs ->
  forallb text_ok fs.*1 = true -> bool_decide (NoDup fs.*1) = true -> eqv (Map m) (Map fs).
Proof.
  intros Hp Hfs Hok%forallb_Forall' Hnd%bool_decide_eq_true.
  assert (Hk : ms.*1 = fs.*1).
  { clear -Hfs. induction Hfs as [|? ? ? ? [? _] _ IH]; cbn; [done|]. by f_equal. }
  unfold eqv. rewrite (canon_Map_perm m ms); [|done|by rewrite Hk..].
  cbn [canon]. do 2 f_equal. clear -Hfs.
  induction Hfs as [|[k v] [q w] ? ? [Hx Hy] _ IH]; cbn in *; [done|]. unfold eqv in Hy. by rewrite Hx, Hy, IH.
Qed.
Lemma value_ok_eqv v w : value_ok v = true -> eqv v w -> v = canon w.
Proof. intros (_ & _ & Hc)%value_ok_canon Heq. by rewrite <- Hc. Qed.
Lemma text_array_eqv l k : l = k -> eqv (text_array l) (text_array k).
Proof. by intros ->. Qed.

(** * Reading fields *)

Lemma take_optional_perm m k v m' : take_optional m k = Some (v, m') -> m ≡ₚ (k, v) :: m'.
Proof.
  revert m'. induction m as [|[k' w] m IH]; intros m'; cbn; [done|]. case_bool_decide as Hk.
  - intros [= <- <-]. by subst.
  - intros H. apply bind_Some in H as ([u rest] & Hu & [= -> <-]). rewrite (IH rest Hu). apply perm_swap.
Qed.
Lemma take_optional_None m k : take_optional m k = None -> ~ (k ∈ m.*1).
Proof.
  induction m as [|[k' w] m IH]; cbn; [by intros _ ?%not_elem_of_nil|]. case_bool_decide as Hk; [done|].
  destruct (take_optional m k) as [[u rest]|]; [done|]. intros _. rewrite elem_of_cons.
  intros [?|?]; [by subst|by apply IH].
Qed.
Lemma map_take_perm m k v m' : map_take m k = Ok (v, m') -> m ≡ₚ (k, v) :: m'.
Proof. intros H%ok_or_Ok. by apply take_optional_perm. Qed.
Lemma take_as_inv {A} (read : Value -> result PlanError A) m k a m' :
  take_as read m k = Ok (a, m') -> exists v, read v = Ok a /\ m ≡ₚ (k, v) :: m'.
Proof.
  intros H. apply bind_Ok in H as ([v rest] & Hv%map_take_perm & H). apply bind_Ok in H as (b & Hb & [= -> ->]).
  by exists v.
Qed.
Lemma require_empty_inv m u : require_empty m = Ok u -> m = [].
Proof. by destruct m. Qed.
Lemma cbor_map_inv v m : cbor_map v = Ok m -> v = Map m.
Proof. destruct v; cbn; congruence. Qed.
Lemma cbor_text_inv v s : cbor_text v = Ok s -> v = Text s.
Proof. destruct v; cbn; congruence. Qed.
Lemma cbor_u64_inv v z : cbor_u64 v = Ok z -> v = Unsigned z.
Proof. destruct v; cbn; congruence. Qed.
Lemma cbor_u32_inv v z : cbor_u32 v = Ok z -> v = Unsigned z /\ (0 <= z < u32_bound)%Z.
Proof. intros H. apply bind_Ok in H as (y & ->%cbor_u64_inv & [-> ?]%ok_or_Ok%try_from_Some). done. Qed.
Lemma cbor_u16_inv v z : cbor_u16 v = Ok z -> v = Unsigned z /\ (0 <= z < u16_bound)%Z.
Proof. intros H. apply bind_Ok in H as (y & ->%cbor_u64_inv & [-> ?]%ok_or_Ok%try_from_Some). done. Qed.
Lemma cbor_text_array_inv v l : cbor_text_array v = Ok l -> v = text_array l.
Proof.
  destruct v; cbn; try done. intros H%mapM_Ok. unfold text_array. f_equal.
  induction H as [|? ? ? ? H _ IH]; cbn; [done|]. apply cbor_text_inv in H. congruence.
Qed.

Lemma Ok_eq {E A} (a b : A) : @Ok E A a = Ok b -> a = b.
Proof. by intros [= ->]. Qed.

(** Runs through a parser's body: every [?] becomes a hypothesis, every field
    read a permutation. *)
Ltac run_step H :=
  match type of H with
  | mbind _ _ = Ok _ =>
    let x := fresh "x" in let Hx := fresh "Hx" in
    apply bind_Ok in H as (x & Hx & H);
    match type of Hx with
    | cbor_map _ = Ok _ => apply cbor_map_inv in Hx; subst
    | require_empty _ = Ok _ => apply require_empty_inv in Hx; subst
    | take_as _ _ _ = Ok _ => destruct x as [? ?];
        let v := fresh "v" in let Hr := fresh "Hr" in apply take_as_inv in Hx as (v & Hr & Hx);
        match type of Hr with
        | cbor_text _ = Ok _ => apply cbor_text_inv in Hr; subst v
        | cbor_text_array _ = Ok _ => apply cbor_text_array_inv in Hr; subst v
        | cbor_u64 _ = Ok _ => apply cbor_u64_inv in Hr; subst v
        | cbor_u32 _ = Ok _ => apply cbor_u32_inv in Hr as [-> Hr]
        | cbor_u16 _ = Ok _ => apply cbor_u16_inv in Hr as [-> Hr]
        | cbor_map _ = Ok _ => apply cbor_map_inv in Hr; subst v
        | cbor_bytes _ = Ok _ => idtac
        | _ => idtac
        end
    | map_take _ _ = Ok _ => destruct x as [? ?]; apply map_take_perm in Hx
    | _ => idtac
    end
  | (if negb ?b then Err _ else _) = Ok _ =>
    let Hb := fresh "Hb" in destruct b eqn:Hb; cbn [negb] in H; [|discriminate H]
  | Ok _ = Ok _ => apply Ok_eq in H
  end.
Ltac run_parser H := repeat run_step H.
(** Composes the permutations of a fully consumed map. *)
Ltac perm_fields :=
  repeat match goal with H : ?m ≡ₚ _ |- ?m ≡ₚ _ => etrans; [exact H|] | |- _ :: _ ≡ₚ _ => apply Permutation_skip | |- [] ≡ₚ _ => reflexivity end.

(** * What an accepted field says *)

Lemma path_inv s p :
  from_authority (AuthorityPath_new s) = Ok p -> AuthorityPath_new s = Ok p /\ AuthorityPath_as_str p = s.
Proof. intros H%map_err_Ok. split; [done|]. by apply AuthorityPath_new_Ok in H as (_ & _ & ->). Qed.
Lemma name_inv s n :
  from_authority (EnvironmentName_new s) = Ok n -> EnvironmentName_new s = Ok n /\ EnvironmentName_as_str n = s.
Proof. intros H%map_err_Ok. split; [done|]. by apply EnvironmentName_new_Ok in H as (_ & _ & _ & ->). Qed.
Lemma mapM_texts {A} (f : string -> result PlanError A) (g : A -> string) l k :
  (forall s a, f s = Ok a -> g a = s) -> mapM f l = Ok k -> map g k = l.
Proof. intros Hf H%mapM_Ok. induction H as [|s a l k Ha _ IH]; cbn; [done|]. by rewrite (Hf _ _ Ha), IH. Qed.
Lemma arguments_inv l k : mapM CommandArgument_new l = Ok k -> map CommandArgument_as_str k = l.
Proof.
  apply mapM_texts. intros s a. unfold CommandArgument_new. destruct (contains_byte nul s); [done|].
  by intros [= <-].
Qed.

Lemma names_inv l k :
  mapM (fun n => from_authority (EnvironmentName_new n)) l = Ok k -> map EnvironmentName_as_str k = l.
Proof. apply mapM_texts. by intros s n [_ ?]%name_inv. Qed.
Lemma id_inv s i : PlanId_new s = Ok i -> PlanId_as_str i = s.
Proof. unfold PlanId_new. destruct (_ || _); [done|]. by intros [= <-]. Qed.
Lemma process_inv z p : from_authority (ProcessLimit_new z) = Ok p -> ProcessLimit_get p = z /\ z <> 0%Z.
Proof.
  intros H%map_err_Ok. unfold ProcessLimit_new in H. destruct (z =? 0)%Z eqn:Hz; [done|].
  apply Z.eqb_neq in Hz. by injection H as <-.
Qed.
Lemma wall_inv z w :
  from_authority (WallTimeLimit_from_milliseconds z) = Ok w -> WallTimeLimit_milliseconds w = z /\ z <> 0%Z.
Proof.
  intros H%map_err_Ok. unfold WallTimeLimit_from_milliseconds in H. destruct (z =? 0)%Z eqn:Hz; [done|].
  apply Z.eqb_neq in Hz. by injection H as <-.
Qed.
(** The memory and swap domains. *)
Definition memory_ok (z : Z) : Prop := (65536 <= z <= 2 ^ 40)%Z /\ (z mod 65536 = 0)%Z.
Definition swap_ok (z : Z) : Prop := (z <= 2 ^ 40)%Z /\ (z mod 65536 = 0)%Z.
Lemma memory_inv z m :
  from_authority (MemoryByteLimit_new z) = Ok m -> MemoryByteLimit_get m = z /\ memory_ok z.
Proof.
  intros H%map_err_Ok. unfold MemoryByteLimit_new in H. unfold memory_ok.
  unfold MemoryByteLimit_MINIMUM, MemoryByteLimit_MAXIMUM, MemoryByteLimit_QUANTUM in H.
  destruct (_ <? _)%Z eqn:H1; [done|]. destruct (_ <? z)%Z eqn:H2; [done|].
  destruct (_ =? _)%Z eqn:H3; [|done]. injection H as <-. cbn. lia.
Qed.
Lemma swap_inv z m : from_authority (SwapByteLimit_new z) = Ok m -> SwapByteLimit_get m = z /\ swap_ok z.
Proof.
  intros H%map_err_Ok. unfold SwapByteLimit_new in H. unfold swap_ok.
  unfold SwapByteLimit_MAXIMUM, SwapByteLimit_QUANTUM in H.
  destruct (_ <? z)%Z eqn:H2; [done|]. destruct (_ =? _)%Z eqn:H3; [|done]. injection H as <-. cbn. lia.
Qed.

(** Replaces every parsed text by the value it became. *)
Ltac invert_fields :=
  repeat match goal with
  | H : from_authority (AuthorityPath_new _) = Ok _ |- _ => apply path_inv in H as [H <-]
  | H : mapM CommandArgument_new _ = Ok _ |- _ => apply arguments_inv in H as <-
  | H : mapM (fun n => from_authority (EnvironmentName_new n)) _ = Ok _ |- _ =>
      let He := fresh "He" in pose proof H as He; apply names_inv in He as <-
  | H : PlanId_new _ = Ok _ |- _ => let He := fresh "He" in pose proof H as He; apply id_inv in He as <-; clear H
  | H : from_authority (ProcessLimit_new _) = Ok _ |- _ => apply process_inv in H as [<- H]
  | H : from_authority (WallTimeLimit_from_milliseconds _) = Ok _ |- _ => apply wall_inv in H as [<- H]
  | H : from_authority (MemoryByteLimit_new _) = Ok _ |- _ => apply memory_inv in H as [<- H]
  | H : from_authority (SwapByteLimit_new _) = Ok _ |- _ => apply swap_inv in H as [<- H]
  end.

Lemma parse_command_eqv v c : parse_command v = Ok c -> eqv v (command_value c).
Proof.
  intros H. unfold parse_command in H. run_parser H. invert_fields. subst c.
  eapply fields_eqv; [perm_fields|repeat constructor|vm_compute; reflexivity..].
Qed.
Lemma parse_limits_eqv v l :
  parse_limits v = Ok l ->
  eqv v (limits_value l) /\ (0 < ProcessLimit_get (processes l) < u32_bound)%Z
  /\ WallTimeLimit_milliseconds (wall_time l) <> 0%Z
  /\ exists m s, memory l = Some m /\ swap_limit l = Some s
     /\ memory_ok (MemoryByteLimit_get m) /\ swap_ok (SwapByteLimit_get s).
Proof.
  intros H. unfold parse_limits in H. run_parser H. invert_fields. subst l.
  split; [|split; [cbn; lia|split; [done|eauto 10]]].
  eapply fields_eqv; [perm_fields|repeat constructor|vm_compute; reflexivity..].
Qed.

(** ** Path lists *)

Definition valid_path (p : AuthorityPath) : Prop := AuthorityPath_new (AuthorityPath_as_str p) = Ok p.
Definition valid_name (n : EnvironmentName) : Prop :=
  EnvironmentName_new (EnvironmentName_as_str n) = Ok n.
Definition entries (access : FileAccess) (role : PathRole) (paths : list AuthorityPath) :
    list PathAuthority :=
  map (fun p => mkPathAuthority p access role) paths.

Lemma valid_path_iff s p :
  from_authority (AuthorityPath_new s) = Ok p <-> valid_path p /\ AuthorityPath_as_str p = s.
Proof.
  unfold valid_path. split; [|intros [Hp <-]; by apply map_err_Ok].
  intros [Hp Hs]%path_inv. by rewrite Hs.
Qed.
Lemma valid_name_iff s n :
  from_authority (EnvironmentName_new s) = Ok n <-> valid_name n /\ EnvironmentName_as_str n = s.
Proof.
  unfold valid_name. split; [|intros [Hp <-]; by apply map_err_Ok].
  intros [Hp Hs]%name_inv. by rewrite Hs.
Qed.
(** Reading a list of texts, each of which is the text of what it became. *)
Lemma mapM_inverse {A} (f : string -> result PlanError A) (ok : A -> Prop) (g : A -> string) l k :
  (forall s a, f s = Ok a <-> ok a /\ g a = s) -> mapM f l = Ok k <-> Forall ok k /\ l = map g k.
Proof.
  intros Hf. rewrite mapM_Ok. split.
  - induction 1 as [|s a l k [Ha <-]%Hf _ [IH ->]]; [done|]. split; [by constructor|done].
  - intros [Hk ->]. induction Hk as [|a k Ha _ IH]; cbn; constructor; [|done]. by apply Hf.
Qed.
Lemma append_paths_Ok out ps a r res :
  append_paths out ps a r = Ok res <->
  exists qs, res = out ++ entries a r qs /\ Forall valid_path qs /\ ps = map AuthorityPath_as_str qs.
Proof.
  unfold append_paths. rewrite bind_Ok.
  assert (Hm : forall es, mapM (fun path => p ← from_authority (AuthorityPath_new path);
      Ok (PathAuthority_new p a r)) ps = Ok es <->
    exists qs, es = entries a r qs /\ Forall valid_path qs /\ ps = map AuthorityPath_as_str qs).
  { intros es. rewrite (mapM_inverse _ (fun e => valid_path (pa_path e) /\ pa_access e = a /\ pa_role e = r)
      (fun e => AuthorityPath_as_str (pa_path e))).
    - split.
      + intros [Hes ->]. exists (map pa_path es). rewrite map_map. split; [|split; [|done]].
        * unfold entries. rewrite map_map. induction Hes as [|[] es (_ & ? & ?) _ IH]; cbn in *; congruence.
        * apply Forall_fmap. by eapply Forall_impl; [exact Hes|]; intros ? [? _].
      + intros (qs & -> & Hqs & ->). unfold entries. rewrite map_map. split; [|done].
        apply Forall_fmap. by eapply Forall_impl; [exact Hqs|].
    - intros s e. rewrite bind_Ok. setoid_rewrite valid_path_iff. unfold PathAuthority_new. split.
      + by intros (p & [Hp <-] & [= <-]).
      + intros ((Hp & Ha & Hr) & <-). exists (pa_path e). split; [done|]. by destruct e; cbn in *; subst. }
  setoid_rewrite Hm. split; [|intros (qs & -> & H); eauto]. intros (es & (qs & -> & H) & [= <-]). eauto.
Qed.

(** A runtime-library path: absolute, without [..]; interior [.] and empty
    components are accepted. *)
Definition library_path (text : string) : Prop :=
  is_absolute (String.list_ascii_of_string text) = true
  /\ ~ (["."%char; "."%char] ∈ split_on "/"%char (String.list_ascii_of_string text)).
Lemma component_parent part : component part = Some ParentDir <-> part = ["."%char; "."%char].
Proof. unfold component. repeat case_bool_decide; subst; naive_solver. Qed.
Lemma component_not_current part : component part <> Some CurDir.
Proof. unfold component. repeat case_bool_decide; done. Qed.
Lemma components_refused l :
  negb (is_absolute l) || existsb (fun c => bool_decide (c = CurDir \/ c = ParentDir)) (components l) = false
  <-> is_absolute l = true /\ ~ (["."%char; "."%char] ∈ split_on "/"%char l).
Proof.
  rewrite orb_false_iff, negb_false_iff. unfold components. destruct (is_absolute l) eqn:Ha; [|naive_solver].
  cbn [app existsb]. rewrite bool_decide_eq_false_2 by naive_solver. cbn [orb].
  rewrite existsb_false, Forall_forall. split; intros [_ H]; (split; [done|]).
  - intros Hin. assert (Hp : ParentDir ∈ omap component (split_on "/"%char l)).
    { apply list_elem_of_omap. exists ["."%char; "."%char]. split; [done|]. by apply component_parent. }
    specialize (H _ Hp). apply bool_decide_eq_false in H. tauto.
  - intros c (part & Hpart & Hc)%list_elem_of_omap. apply bool_decide_eq_false. intros [->| ->].
    + by apply component_not_current in Hc.
    + apply component_parent in Hc as ->. done.
Qed.
Lemma runtime_library_entry_Ok text e :
  runtime_library_entry text = Ok e <->
  exists p, e = mkPathAuthority p Read RuntimeLibrary /\ valid_path p /\ library_path text
    /\ AuthorityPath_as_str p = text.
Proof.
  unfold runtime_library_entry, library_path. rewrite bind_Ok. setoid_rewrite <- components_refused. split.
  - intros (p & [Hp Ht]%valid_path_iff & H). cbv zeta in H. rewrite Ht in H. destruct (_ || _); [done|].
    injection H as <-. eauto.
  - intros (p & -> & Hp & Hl & Ht). exists p. split; [by apply valid_path_iff|]. by rewrite Ht, Hl.
Qed.
Lemma append_runtime_Ok out ps res :
  append_runtime_library_paths out ps = Ok res <->
  exists qs, res = out ++ entries Read RuntimeLibrary qs /\ Forall valid_path qs
    /\ Forall (fun q => library_path (AuthorityPath_as_str q)) qs /\ ps = map AuthorityPath_as_str qs.
Proof.
  unfold append_runtime_library_paths. rewrite bind_Ok. split.
  - intros (es & Hes%mapM_Ok & [= <-]).
    assert (exists qs, es = entries Read RuntimeLibrary qs /\ Forall valid_path qs
      /\ Forall (fun q => library_path (AuthorityPath_as_str q)) qs /\ ps = map AuthorityPath_as_str qs)
      as (qs & -> & ?); [|by exists qs].
    induction Hes as [|s e ps es (p & -> & Hp & Hl & <-)%runtime_library_entry_Ok _ (qs & -> & ? & ? & ->)].
    + by exists [].
    + exists (p :: qs). split; [done|]. repeat split; by constructor.
  - intros (qs & -> & Hv & Hl & ->). exists (entries Read RuntimeLibrary qs). split; [|done].
    apply mapM_Ok. induction Hv as [|q qs Hq _ IH]; cbn; constructor.
    + apply runtime_library_entry_Ok. inversion Hl. eauto.
    + apply IH. by inversion Hl.
Qed.

(** The path list of a plan: the four segments of the code. *)
Definition plan_segments (r l w x : list AuthorityPath) : list PathAuthority :=
  entries Read ProjectInput r ++ entries Read RuntimeLibrary l ++ entries Write OutputRoot w
  ++ entries Execute RuntimeExecutable x.
Lemma build_paths_Ok a paths :
  build_paths a = Ok paths <->
  exists r l w x, paths = plan_segments r l w x
    /\ Forall valid_path r /\ Forall valid_path l /\ Forall valid_path w /\ Forall valid_path x
    /\ Forall (fun q => library_path (AuthorityPath_as_str q)) l
    /\ af_read a = map AuthorityPath_as_str r /\ af_runtime_read a = map AuthorityPath_as_str l
    /\ af_write a = map AuthorityPath_as_str w /\ af_execute a = map AuthorityPath_as_str x.
Proof.
  unfold build_paths, plan_segments. rewrite bind_Ok. split.
  - intros (p1 & (r & -> & ?Hr & ?Hr)%append_paths_Ok & H).
    apply bind_Ok in H as (p2 & (l & -> & ?Hl & ?Hl & ?Hl)%append_runtime_Ok & H).
    apply bind_Ok in H as (p3 & (w & -> & ?Hw & ?Hw)%append_paths_Ok & H).
    apply append_paths_Ok in H as (x & -> & ?Hx & ?Hx). exists r, l, w, x. cbn [app].
    by rewrite <- !app_assoc.
  - intros (r & l & w & x & -> & ? & ? & ? & ? & ? & ? & ? & ? & ?).
    exists (entries Read ProjectInput r). split; [by apply append_paths_Ok; exists r|].
    apply bind_Ok. exists (entries Read ProjectInput r ++ entries Read RuntimeLibrary l).
    split; [apply append_runtime_Ok; by exists l|].
    apply bind_Ok. exists ((entries Read ProjectInput r ++ entries Read RuntimeLibrary l) ++ entries Write OutputRoot w).
    split; [apply append_paths_Ok; by exists w|]. apply append_paths_Ok. exists x. by rewrite <- !app_assoc.
Qed.

Lemma path_texts_app role l k : path_texts role (l ++ k) = path_texts role l ++ path_texts role k.
Proof. unfold path_texts. by rewrite filter_app, map_app. Qed.
Lemma path_texts_entries a r role qs :
  path_texts role (entries a r qs) = if decide (r = role) then map AuthorityPath_as_str qs else [].
Proof.
  unfold path_texts, entries. case_decide as Hr; induction qs as [|q qs IH]; cbn [map]; try done.
  - rewrite filter_cons_True by done. cbn [map]. by rewrite IH.
  - by rewrite filter_cons_False.
Qed.
Lemma path_texts_segments r l w x :
  path_texts ProjectInput (plan_segments r l w x) = map AuthorityPath_as_str r
  /\ path_texts RuntimeLibrary (plan_segments r l w x) = map AuthorityPath_as_str l
  /\ path_texts OutputRoot (plan_segments r l w x) = map AuthorityPath_as_str w
  /\ path_texts RuntimeExecutable (plan_segments r l w x) = map AuthorityPath_as_str x.
Proof.
  unfold plan_segments. rewrite !path_texts_app, !path_texts_entries. cbn. by rewrite !app_nil_r.
Qed.
Lemma grants_execute_segments r l w x p :
  grants_execute (plan_segments r l w x) p = true <-> p ∈ x.
Proof.
  unfold grants_execute. rewrite existsb_exists. split.
  - intros (e & He%list_elem_of_In & [Ha%bool_decide_eq_true <-%bool_decide_eq_true]%andb_true_iff).
    unfold plan_segments, entries in He. rewrite !elem_of_app in He.
    change (map ?f ?k) with (f <$> k) in He. rewrite !list_elem_of_fmap in He.
    destruct He as [(q & -> & ?)|[(q & -> & ?)|[(q & -> & ?)|(q & -> & ?)]]]; done.
  - intros Hp. exists (mkPathAuthority p Execute RuntimeExecutable). split.
    + apply list_elem_of_In. unfold plan_segments. rewrite !elem_of_app. do 3 right.
      apply list_elem_of_fmap. eauto.
    + by rewrite !bool_decide_eq_true_2.
Qed.

(** ** Writing fields *)

Lemma take_optional_some m k v rest :
  m ≡ₚ (k, v) :: rest -> ~ (k ∈ rest.*1) ->
  exists m', take_optional m k = Some (v, m') /\ m' ≡ₚ rest.
Proof.
  intros Hp Hk. destruct (take_optional m k) as [[w m']|] eqn:Ht.
  - pose proof (take_optional_perm _ _ _ _ Ht) as Hp'. rewrite Hp in Hp'.
    assert ((k, w) ∈ (k, v) :: rest) as Hin by (rewrite Hp'; by left).
    apply elem_of_cons in Hin as [[= ->]|Hin].
    + exists m'. split; [done|]. symmetry. by apply Permutation_cons_inv in Hp'.
    + exfalso. apply Hk. apply list_elem_of_fmap. by exists (k, w).
  - exfalso. apply take_optional_None in Ht. apply Ht. rewrite Hp. by left.
Qed.
Lemma take_as_perm {A} (read : Value -> result PlanError A) m k v rest a :
  m ≡ₚ (k, v) :: rest -> bool_decide (k ∈ rest.*1) = false -> read v = Ok a ->
  exists m', take_as read m k = Ok (a, m') /\ m' ≡ₚ rest.
Proof.
  intros Hp Hk%bool_decide_eq_false Hr. destruct (take_optional_some m k v rest Hp Hk) as (m' & Ht & Hm).
  exists m'. split; [|done]. unfold take_as, map_take. rewrite Ht. cbn. by rewrite Hr.
Qed.
Lemma map_take_some m k v rest :
  m ≡ₚ (k, v) :: rest -> bool_decide (k ∈ rest.*1) = false ->
  exists m', map_take m k = Ok (v, m') /\ m' ≡ₚ rest.
Proof.
  intros Hp Hk%bool_decide_eq_false. destruct (take_optional_some m k v rest Hp Hk) as (m' & Ht & Hm).
  exists m'. split; [|done]. unfold map_take. by rewrite Ht.
Qed.
Lemma require_empty_perm m : m ≡ₚ [] -> require_empty m = Ok ().
Proof. intros ->%Permutation_nil_r. done. Qed.
Lemma canon_fields fs : exists m, canon (Map fs) = Map m /\ m ≡ₚ map (fun kv => (kv.1, canon kv.2)) fs.
Proof. eexists. split; [reflexivity|apply sort_by_Permutation]. Qed.
Lemma canon_text_array l : canon (text_array l) = text_array l.
Proof. unfold text_array. cbn. f_equal. by induction l as [|s l IH]; cbn; [|rewrite IH]. Qed.
Lemma cbor_text_array_Ok l : cbor_text_array (text_array l) = Ok l.
Proof. cbn. apply mapM_Ok. by induction l; constructor. Qed.
(** Opens the canonical form of a literal map, then reads its next field. *)
Ltac open_fields m Hm :=
  match goal with |- context [canon (Map ?fs)] =>
    let Hc := fresh "Hc" in destruct (canon_fields fs) as (m & Hc & Hm); rewrite Hc; clear Hc;
    cbn [map fst snd canon] in Hm
  end.
Ltac write_field tac :=
  match goal with
  | Hm : ?m ≡ₚ (?k, ?v) :: ?rest |- context [take_as ?read ?m ?k] =>
    let m' := fresh "m" in let Ht := fresh "Ht" in let Hm' := fresh "Hm" in let Hr := fresh "Hr" in
    eassert (Hr : read v = Ok _) by tac;
    destruct (take_as_perm read m k v rest _ Hm eq_refl Hr) as (m' & Ht & Hm');
    rewrite Ht; clear Ht Hm Hr; cbn [mbind result_bind]
  | Hm : ?m ≡ₚ (?k, ?v) :: ?rest |- context [map_take ?m ?k] =>
    let m' := fresh "m" in let Ht := fresh "Ht" in let Hm' := fresh "Hm" in
    destruct (map_take_some m k v rest Hm eq_refl) as (m' & Ht & Hm');
    rewrite Ht; clear Ht Hm; cbn [mbind result_bind]
  | Hm : ?m ≡ₚ [] |- context [require_empty ?m] =>
    rewrite (require_empty_perm m Hm); cbn [mbind result_bind]
  end.

(** * Well-formed plans *)

Record command_ok (c : ExecutionCommand) : Prop := {
  command_executable : valid_path (ec_executable c);
  command_directory : valid_path (ec_working_directory c);
  command_arguments : Forall (fun a => CommandArgument_new (CommandArgument_as_str a) = Ok a) (ec_arguments c)
}.
(** The limits of the version 2 domain. *)
Definition limits_ok (l : ResourceLimits) : Prop :=
  (0 < ProcessLimit_get (processes l) < u32_bound)%Z /\ WallTimeLimit_milliseconds (wall_time l) <> 0%Z
  /\ exists m s, memory l = Some m /\ swap_limit l = Some s
     /\ memory_ok (MemoryByteLimit_get m) /\ swap_ok (SwapByteLimit_get s).
(** A plan: an identifier of the grammar, one executable which is the command's,
    one output root, canonical path order by segment, valid names and limits. *)
Record plan_ok (p : ExecutionPlan) : Prop := {
  ok_id : PlanId_new (PlanId_as_str (plan_id p)) = Ok (plan_id p);
  ok_command : command_ok (plan_command p);
  ok_paths : exists r l w, plan_paths (plan_authority p)
      = plan_segments r l [w] [ec_executable (plan_command p)]
    /\ Forall valid_path r /\ Forall valid_path l /\ valid_path w
    /\ Forall (fun q => library_path (AuthorityPath_as_str q)) l;
  ok_environment : Forall valid_name (plan_environment (plan_authority p));
  ok_limits : limits_ok (plan_limits (plan_authority p))
}.

Lemma arguments_Ok l k :
  mapM CommandArgument_new l = Ok k <->
  Forall (fun a => CommandArgument_new (CommandArgument_as_str a) = Ok a) k /\ l = map CommandArgument_as_str k.
Proof.
  apply mapM_inverse. intros s a. split.
  - intros Ha. pose proof Ha as Hs. unfold CommandArgument_new in Ha. destruct (contains_byte nul s); [done|].
    by injection Ha as <-.
  - by intros [Ha <-].
Qed.
Lemma names_Ok l k :
  mapM (fun n => from_authority (EnvironmentName_new n)) l = Ok k <->
  Forall valid_name k /\ l = map EnvironmentName_as_str k.
Proof. apply mapM_inverse, valid_name_iff. Qed.

Lemma parse_command_write c : command_ok c -> parse_command (canon (command_value c)) = Ok c.
Proof.
  intros [He Hw Ha]. unfold parse_command, command_value. open_fields m Hm. rewrite canon_text_array in Hm.
  cbn [cbor_map mbind result_bind]. write_field ltac:(reflexivity).
  rewrite (proj2 (valid_path_iff _ _) (conj He eq_refl)). cbn [mbind result_bind].
  write_field ltac:(reflexivity). rewrite (proj2 (valid_path_iff _ _) (conj Hw eq_refl)). cbn [mbind result_bind].
  write_field ltac:(apply cbor_text_array_Ok). rewrite (proj2 (arguments_Ok _ _) (conj Ha eq_refl)).
  cbn [mbind result_bind]. write_field ltac:(idtac). by destruct c.
Qed.

Lemma parse_command_Ok v c : parse_command v = Ok c -> command_ok c.
Proof.
  intros H. unfold parse_command in H. run_parser H.
  repeat match goal with
  | Hp : from_authority (AuthorityPath_new _) = Ok _ |- _ => apply valid_path_iff in Hp as [Hp _]
  | Hp : mapM CommandArgument_new _ = Ok _ |- _ => apply arguments_Ok in Hp as [Hp _]
  end.
  by subst c.
Qed.

Lemma cbor_u32_Ok z : (0 <= z < u32_bound)%Z -> cbor_u32 (Unsigned z) = Ok z.
Proof. intros Hz. cbn. by apply ok_or_Ok, try_from_Some. Qed.
Lemma parse_limits_write l : limits_ok l -> parse_limits (canon (limits_value l)) = Ok l.
Proof.
  intros (Hp & Hw & m & s & Hm & Hs & Hmd & Hsd). unfold parse_limits, limits_value.
  rewrite Hm, Hs. cbn [from_option]. open_fields fs Hf. cbn [cbor_map mbind result_bind].
  write_field ltac:(apply cbor_u32_Ok; lia).
  assert (from_authority (ProcessLimit_new (ProcessLimit_get (processes l))) = Ok (processes l)) as ->.
  { unfold ProcessLimit_new. rewrite (proj2 (Z.eqb_neq _ _)) by lia. by destruct (processes l). }
  cbn [mbind result_bind]. write_field ltac:(reflexivity).
  assert (from_authority (WallTimeLimit_from_milliseconds (WallTimeLimit_milliseconds (wall_time l)))
    = Ok (wall_time l)) as ->.
  { unfold WallTimeLimit_from_milliseconds. rewrite (proj2 (Z.eqb_neq _ _)) by done. by destruct (wall_time l). }
  cbn [mbind result_bind]. do 3 write_field ltac:(reflexivity).
  assert (from_authority (MemoryByteLimit_new (MemoryByteLimit_get m)) = Ok m) as ->.
  { destruct Hmd as [Hr Hq]. unfold MemoryByteLimit_new, MemoryByteLimit_MINIMUM, MemoryByteLimit_MAXIMUM,
      MemoryByteLimit_QUANTUM. rewrite !(proj2 (Z.ltb_ge _ _)), Hq by lia. by destruct m. }
  cbn [mbind result_bind]. write_field ltac:(reflexivity).
  assert (from_authority (SwapByteLimit_new (SwapByteLimit_get s)) = Ok s) as ->.
  { destruct Hsd as [Hr Hq]. unfold SwapByteLimit_new, SwapByteLimit_MAXIMUM, SwapByteLimit_QUANTUM.
    rewrite !(proj2 (Z.ltb_ge _ _)), Hq by lia. by destruct s. }
  cbn [mbind result_bind]. write_field ltac:(idtac).
  destruct l as [pr wl out err ? ?]; cbn in *; subst. by destruct out, err.
Qed.

(** The fields of the authority table, whatever the network value. *)
Definition fields_value (network : Value) (a : AuthorityFields) : Value :=
  Map [("network", network);
       ("environment", text_array (map EnvironmentName_as_str (af_environment a)));
       ("read", text_array (af_read a)); ("runtime_read", text_array (af_runtime_read a));
       ("write", text_array (af_write a)); ("execute", text_array (af_execute a))].
Record fields_ok (a : AuthorityFields) : Prop := {
  fields_environment : Forall valid_name (af_environment a);
  fields_execute : length (af_execute a) = 1;
  fields_write : length (af_write a) = 1
}.
Lemma parse_authority_inv v a :
  parse_authority v = Ok a ->
  exists network_value, parse_network_authority network_value (af_environment a) = Ok (af_network a)
    /\ fields_ok a /\ eqv v (fields_value network_value a).
Proof.
  intros H. unfold parse_authority in H. run_parser H.
  match goal with Hn : mapM (fun n => from_authority (EnvironmentName_new n)) _ = Ok _ |- _ =>
    apply names_Ok in Hn as [Hn ->] end.
  apply Nat.eqb_eq in Hb, Hb0. subst a. eexists. split; [eassumption|]. split; [by split|].
  eapply fields_eqv; [perm_fields|repeat constructor|vm_compute; reflexivity..].
Qed.
Lemma parse_authority_write network a :
  parse_network_authority (canon network) (af_environment a) = Ok (af_network a) -> fields_ok a ->
  parse_authority (canon (fields_value network a)) = Ok a.
Proof.
  intros Hn [He Hx Hw]. unfold parse_authority, fields_value. open_fields m Hm.
  rewrite !canon_text_array in Hm. cbn [cbor_map mbind result_bind]. write_field idtac.
  write_field ltac:(apply cbor_text_array_Ok). rewrite (proj2 (names_Ok _ _) (conj He eq_refl)).
  cbn [mbind result_bind]. do 4 write_field ltac:(apply cbor_text_array_Ok).
  write_field ltac:(idtac). rewrite Hx, Hw. cbn [Nat.eqb negb]. rewrite Hn. cbn [mbind result_bind].
  by destruct a.
Qed.

(** ** The network authority *)

(** Opens the remaining binds of a parser without keeping what they read. *)
Ltac skip_parser H :=
  repeat first
  [ apply bind_Ok in H as (? & _ & H)
  | match type of H with
    | (let '(_, _) := ?x in _) = Ok _ => destruct x
    | (if negb ?b then Err _ else _) = Ok _ => destruct b; cbn [negb] in H; [|discriminate H]
    | _ <$> _ = Ok _ => apply fmap_Ok in H as (? & _ & H)
    end ].
Lemma network_deny_inv v env : parse_network_authority v env = Ok Net_Deny <-> v = Text "deny".
Proof.
  split; [|by intros ->]. unfold parse_network_authority. destruct v; intros H; try done.
  - case_bool_decide as Hd; [|done]. by rewrite Hd.
  - skip_parser H. done.
Qed.

(** What an accepted service session satisfies. *)
Record session_ok (environment : list EnvironmentName) (s : AuthenticatedServiceSession) : Prop := {
  so_service : ServiceName_new (ServiceName_as_str (ss_service s)) = Ok (ss_service s);
  so_port : (0 < TcpPort_get (ss_port s) < u16_bound)%Z;
  so_descriptor : (3 <= ChildChannelDescriptor_get (child_descriptor s) < u16_bound)%Z;
  so_deadlines : attempt_deadline_ms (ss_resolution s) <> 0%Z
    /\ (attempt_deadline_ms (ss_resolution s) <= resolution_deadline_ms (ss_resolution s)
        <= setup_time_ms (ss_limits s))%Z;
  so_attempts : endpoint_attempts (ss_limits s) <> 0%Z
    /\ (endpoint_attempts (ss_limits s) <= maximum_answer_count (ss_resolution s))%Z;
  so_messages : (2 <= dns_messages (ss_limits s))%Z;
  so_closure : StronglySorted (fun a b => rlt a b = true) (connector_runtime_read s);
  so_credential : forall c, credential_source s = Some c ->
    cs_service c = ss_service s /\ cs_environment c ∈ environment
}.
Lemma from_network_inv {A} (m : result NetworkAuthorityError A) a : from_network m = Ok a -> m = Ok a.
Proof. apply map_err_Ok. Qed.
Lemma parse_service_inv v n p :
  parse_service v = Ok (n, p) -> ServiceName_new (ServiceName_as_str n) = Ok n /\ (0 < TcpPort_get p < u16_bound)%Z.
Proof.
  intros H. unfold parse_service in H. run_parser H. injection H as <- <-.
  match goal with Hn : from_network (ServiceName_new _) = Ok _ |- _ => apply from_network_inv in Hn;
    pose proof Hn as Hs; apply service_name_grammar in Hs as [-> _] end.
  split; [done|]. apply from_network_inv in Hx2. unfold TcpPort_new in Hx2.
  destruct (_ =? 0)%Z eqn:Hz; [done|]. apply Z.eqb_neq in Hz. injection Hx2 as <-. cbn. lia.
Qed.
Lemma ResolutionPolicy_new_inv ep c cn an rb rd ad o r :
  ResolutionPolicy_new ep c cn an rb rd ad o = Ok r ->
  maximum_answer_count r = an /\ resolution_deadline_ms r = rd /\ attempt_deadline_ms r = ad
  /\ rd <> 0%Z /\ ad <> 0%Z /\ an <> 0%Z /\ (ad <= rd)%Z.
Proof.
  unfold ResolutionPolicy_new. destruct (_ || _) eqn:Hz; [done|]. destruct (rd <? ad)%Z eqn:Hd; [done|].
  intros [= <-]. cbn. rewrite !orb_false_iff, !Z.eqb_neq in Hz. lia.
Qed.
Lemma ServiceSessionLimits_new_inv st se cs sc dm ea hb an l :
  ServiceSessionLimits_new st se cs sc dm ea hb an = Ok l ->
  setup_time_ms l = st /\ endpoint_attempts l = ea /\ dns_messages l = dm
  /\ ea <> 0%Z /\ (2 <= dm)%Z /\ (ea <= an)%Z.
Proof.
  unfold ServiceSessionLimits_new. destruct (_ || _) eqn:Hz; [done|]. destruct (dm <? 2)%Z eqn:Hd; [done|].
  destruct (an <? ea)%Z eqn:Ha; [done|].
  intros [= <-]. cbn. rewrite !orb_false_iff, !Z.eqb_neq in Hz. lia.
Qed.
Lemma AuthenticatedServiceSession_new_inv a b c d e f g h i j s :
  AuthenticatedServiceSession_new a b c d e f g h i j = Ok s ->
  s = mkSession a b c d e f (sort_dedup g) h i j
  /\ (resolution_deadline_ms c <= setup_time_ms e)%Z /\ (endpoint_attempts e <= maximum_answer_count c)%Z
  /\ (forall x, j = Some x -> cs_service x = a).
Proof.
  unfold AuthenticatedServiceSession_new. destruct (_ <? _)%Z eqn:Hd; [done|].
  destruct (maximum_answer_count c <? _)%Z eqn:Ha; [done|].
  destruct (match j with Some _ => _ | None => _ end) eqn:Hj; [done|]. intros [= <-].
  split; [done|]. split; [lia|]. split; [lia|]. intros x ->.
  by apply negb_false_iff, bool_decide_eq_true in Hj.
Qed.
Lemma parse_resolver_inv v r :
  parse_resolver v = Ok r ->
  attempt_deadline_ms r <> 0%Z /\ (attempt_deadline_ms r <= resolution_deadline_ms r)%Z.
Proof.
  intros H. unfold parse_resolver in H. skip_parser H.
  by apply from_network_inv, ResolutionPolicy_new_inv in H as (_ & -> & -> & ? & ? & ? & ?).
Qed.
Lemma parse_session_limits_inv v an l :
  parse_session_limits v an = Ok l -> endpoint_attempts l <> 0%Z /\ (2 <= dns_messages l)%Z.
Proof.
  intros H. unfold parse_session_limits in H. run_parser H. subst.
  match goal with Hl : from_network _ = Ok _ |- _ =>
    apply from_network_inv, ServiceSessionLimits_new_inv in Hl end. lia.
Qed.
Lemma parse_local_channel_inv v c d :
  parse_local_channel v = Ok (c, d) -> (3 <= ChildChannelDescriptor_get d < u16_bound)%Z.
Proof.
  intros H. unfold parse_local_channel in H. run_parser H. apply (f_equal snd) in H; cbn in H; subst d.
  match goal with Hd : from_network (ChildChannelDescriptor_new _) = Ok _ |- _ =>
    apply from_network_inv in Hd; unfold ChildChannelDescriptor_new in Hd;
    destruct (_ <? 3)%Z eqn:Hlt; [done|]; injection Hd as <- end.
  cbn. lia.
Qed.
Lemma parse_credential_inv service environment m c m' :
  parse_credential service environment m = Ok (Some c, m') -> cs_environment c ∈ environment.
Proof.
  unfold parse_credential. destruct (take_optional _ _) as [[v rest]|]; [|done]. intros H.
  apply bind_Ok in H as (src & Hs & H). injection H as -> _.
  unfold parse_credential_source in Hs. run_parser Hs. apply bool_decide_eq_true in Hb.
  apply from_network_inv in Hs. unfold CredentialSource_new in Hs. destruct (negb _); [done|].
  by injection Hs as <-.
Qed.

Lemma parse_network_service v env s : parse_network_authority v env = Ok (Net_Service s) -> session_ok env s.
Proof.
  unfold parse_network_authority. destruct v; intros H; try done.
  { case_bool_decide; done. }
  apply bind_Ok in H as (network & _ & H). apply bind_Ok in H as ([mode m0] & _ & H).
  destruct (bool_decide _); cbn [negb] in H; [|done].
  apply bind_Ok in H as ([[name port] m1] & (v1 & Hsvc%parse_service_inv & _)%take_as_inv & H).
  apply bind_Ok in H as ([rp m2] & (v2 & Hrp%parse_resolver_inv & _)%take_as_inv & H).
  apply bind_Ok in H as ([tls m3] & _ & H).
  apply bind_Ok in H as ([lim m4] & (v4 & Hlim%parse_session_limits_inv & _)%take_as_inv & H).
  apply bind_Ok in H as ([ex m5] & _ & H). apply bind_Ok in H as (ex' & _ & H).
  apply bind_Ok in H as ([rr m6] & _ & H). apply bind_Ok in H as (rr' & _ & H).
  apply bind_Ok in H as ([[proto desc] m7] & (v7 & Hch%parse_local_channel_inv & _)%take_as_inv & H).
  apply bind_Ok in H as ([cred m8] & Hcred & H). apply bind_Ok in H as (_ & _ & H).
  apply fmap_Ok in H as (s' & Hs & [= <-]). apply from_network_inv in Hs.
  apply AuthenticatedServiceSession_new_inv in Hs as (-> & Hd & Ha & Hc).
  destruct Hsvc as [? ?], Hrp as [? ?], Hlim as [? ?].
  split; cbn; try done.
  - apply sort_dedup_spec.
  - intros c ->. split; [by apply Hc|]. by eapply parse_credential_inv.
Qed.

(** ** The root *)

Lemma id_Ok s i : PlanId_new s = Ok i <-> PlanId_new (PlanId_as_str i) = Ok i /\ PlanId_as_str i = s.
Proof.
  split; [|by intros [? <-]]. intros H. pose proof H as Hi. unfold PlanId_new in H. destruct (_ || _); [done|].
  by injection H as <-.
Qed.

(** What [parse_root] accepts. *)
Lemma parse_root_inv v parsed :
  parse_root v = Ok parsed ->
  exists network p n, parse_network_authority network (plan_environment (plan_authority p)) = Ok n
    /\ plan_ok p /\ eqv v (plan_value network p)
    /\ parsed = match n with
                | Net_Deny => Parsed_Deny p
                | Net_Service s => Parsed_Service (mkServiceExecutionPlan p s)
                end.
Proof.
  unfold parse_root. intros H. apply bind_Ok in H as (root & ->%cbor_map_inv & H).
  apply bind_Ok in H as ([schema m1] & (? & ->%cbor_text_inv & P1)%take_as_inv & H).
  destruct (bool_decide _) eqn:Hschema; cbn [negb] in H; [|done]. apply bool_decide_eq_true in Hschema as ->.
  apply bind_Ok in H as ([i m2] & (? & ->%cbor_text_inv & P2)%take_as_inv & H).
  apply bind_Ok in H as (id & [Hid <-]%id_Ok & H).
  apply bind_Ok in H as ([c m3] & (vc & Hc & P3)%take_as_inv & H).
  apply bind_Ok in H as ([a m4] & (va & (nv & Hn & [Henv Hx1 Hw1] & Ha)%parse_authority_inv & P4)%take_as_inv & H).
  apply bind_Ok in H as ([l m5] & (vl & [Hl Hlok]%parse_limits_eqv & P5)%take_as_inv & H).
  apply bind_Ok in H as (_ & ->%require_empty_inv & H).
  apply bind_Ok in H as (paths & (rd & lib & w & ex & -> & Hvr & Hvl & Hvw & Hvx & Hlib & Er & El & Ew & Ex)%build_paths_Ok & H).
  destruct (grants_execute _ _) eqn:Hg; cbn [negb] in H; [|done]. apply Ok_eq in H as <-.
  apply grants_execute_segments in Hg as Hin.
  rewrite Ex, length_map in Hx1. rewrite Ew, length_map in Hw1.
  destruct ex as [|e [|]]; [done| |done]. destruct w as [|w0 [|]]; [done| |done].
  apply list_elem_of_singleton in Hin as <-.
  eexists nv, (mkExecutionPlan id c (AuthorityPlan_new (plan_segments rd lib [w0] [ec_executable c]) (af_environment a) l)),
    (af_network a).
  split; [exact Hn|]. split; [|split; [|by destruct (af_network a)]].
  { split; cbn; try done; [by eapply parse_command_Ok|]. exists rd, lib, w0. split; [done|].
    repeat split; try done. by inversion Hvw. }
  unfold plan_value, authority_value, AuthorityPlan_new; cbn [plan_authority plan_paths plan_environment
    plan_limits plan_id plan_command].
  destruct (path_texts_segments rd lib [w0] [ec_executable c]) as (-> & -> & -> & ->).
  unfold fields_value in Ha. rewrite Er, El, Ew, Ex in Ha. apply parse_command_eqv in Hc.
  eapply fields_eqv; [perm_fields|repeat constructor; done|vm_compute; reflexivity..].
Qed.

Lemma parse_root_write network p n :
  plan_ok p -> parse_network_authority (canon network) (plan_environment (plan_authority p)) = Ok n ->
  parse_root (canon (plan_value network p))
  = Ok (match n with Net_Deny => Parsed_Deny p | Net_Service s => Parsed_Service (mkServiceExecutionPlan p s) end).
Proof.
  intros [Hid Hc (rd & lib & w & Hpaths & Hvr & Hvl & Hvw & Hlib) Henv Hl] Hn.
  destruct p as [id c [paths env lim []]].
  cbn [plan_id plan_command plan_authority plan_limits plan_paths plan_environment] in *. subst paths.
  set (a := mkAuthorityFields env (map AuthorityPath_as_str rd) (map AuthorityPath_as_str lib)
    [AuthorityPath_as_str w] [AuthorityPath_as_str (ec_executable c)] n).
  assert (Ha : authority_value network (mkAuthorityPlan (plan_segments rd lib [w] [ec_executable c]) env lim Deny)
    = fields_value network a).
  { unfold authority_value; cbn [plan_paths plan_environment].
    destruct (path_texts_segments rd lib [w] [ec_executable c]) as (-> & -> & -> & ->). done. }
  unfold parse_root, plan_value. cbn [plan_id plan_command plan_authority plan_limits]. rewrite Ha.
  open_fields m Hm. cbn [cbor_map mbind result_bind]. write_field ltac:(reflexivity).
  rewrite bool_decide_eq_true_2 by done. cbn [negb]. write_field ltac:(reflexivity). rewrite Hid. cbn [mbind result_bind].
  write_field ltac:(by apply parse_command_write).
  write_field ltac:(by apply parse_authority_write).
  write_field ltac:(by apply parse_limits_write). write_field ltac:(idtac).
  assert (build_paths a = Ok (plan_segments rd lib [w] [ec_executable c])) as ->.
  { apply build_paths_Ok. exists rd, lib, [w], [ec_executable c]. destruct Hc. repeat split; auto. }
  cbn [mbind result_bind].
  rewrite (proj2 (grants_execute_segments _ _ _ _ _) ltac:(by left)). cbn [negb]. by destruct n.
Qed.

(** * Properties *)

Lemma contract_inv input parsed :
  parse_execution_plan_contract_v2 input = Ok parsed <->
  exists v, decode input = Ok v /\ parse_root v = Ok parsed.
Proof.
  unfold parse_execution_plan_contract_v2. rewrite bind_Ok. by setoid_rewrite map_err_Ok.
Qed.

(** C3: the version 2 plan parser is exact.  Bytes are accepted for execution as
    the plan [p] exactly when they are not a valid legacy plan, [p] is well
    formed, its canonical CBOR value is within the codec's limits, and the bytes
    are the deterministic encoding of that value.  So a plan has one spelling:
    a digest of the bytes commits to every field of the parsed plan. *)
Theorem plan_parser_exact {T : Toml} (input : list byte) (p : ExecutionPlan) :
  let value := canon (plan_value (Text "deny") p) in
  parse_execution_plan_for_execution input = Ok p <->
  legacy_plan input = false /\ plan_ok p /\ value_ok value = true /\ within_limits value = true
  /\ input = wire value.
Proof.
  intros value. unfold parse_execution_plan_for_execution. destruct (legacy_plan input).
  { split; [done|]. by intros [? _]. }
  rewrite bind_Ok. split.
  - intros (parsed & (v & Hv & (nv & q & n & Hn & Hq & Heq & ->)%parse_root_inv)%contract_inv & H).
    split; [done|]. destruct n; [|done]. injection H as <-. apply network_deny_inv in Hn as ->.
    apply decode_iff in Hv as (Hok & Hl & <-). apply value_ok_eqv in Heq; [|done]. by subst v.
  - intros (_ & Hp & Hok & Hl & ->). exists (Parsed_Deny p). split; [|done]. apply contract_inv.
    exists value. split; [by apply decode_iff|]. unfold value.
    rewrite (parse_root_write (Text "deny") p Net_Deny); [done..|]. by apply network_deny_inv.
Qed.
(** A TOML library that parses nothing: CBOR plans are never legacy plans. *)
Definition no_toml : Toml :=
  {| toml_value := (); toml_from_str := fun _ => None; as_table := fun _ => None;
     try_into_plan := fun _ => None |}.
Example golden_plan_accepted :
  is_ok (@parse_execution_plan_for_execution no_toml Vectors.execution_plan) = true.
Proof. vm_compute. reflexivity. Qed.

(** An accepted service-session plan.  Its child plan is well formed, its
    session is internally consistent (service name, nonzero ports and bounds,
    attempt within resolution within setup deadline, attempts within answers, a
    descriptor above the standard streams, a sorted runtime closure) and its
    credential source, if any, is bound to the declared service and to a declared
    environment name; and the execution entry point refuses the same bytes. *)
Theorem service_plan_sound {T : Toml} (input : list byte) (sp : ServiceExecutionPlan)
    (H : parse_service_execution_plan input = Ok sp) :
  plan_ok (sp_base sp)
  /\ session_ok (plan_environment (plan_authority (sp_base sp))) (service_session sp)
  /\ (parse_execution_plan_for_execution input = Err ExecutionObsolete
      \/ parse_execution_plan_for_execution input = Err UnsupportedNetwork).
Proof.
  unfold parse_service_execution_plan in H. apply bind_Ok in H as (parsed & Hp & H).
  pose proof Hp as (v & Hv & (nv & q & n & Hn & Hq & _ & Hparsed)%parse_root_inv)%contract_inv.
  destruct parsed as [|sp']; [done|]. injection H as ->. destruct n as [|s]; [done|].
  injection Hparsed as ->. split; [done|]. split; [by eapply parse_network_service|].
  unfold parse_execution_plan_for_execution. destruct (legacy_plan input); [by left|right].
  by rewrite Hp.
Qed.
Lemma golden_service_parses :
  is_ok (parse_service_execution_plan Vectors.execution_plan_service_session) = true.
Proof. vm_compute. reflexivity. Qed.
Lemma golden_service_refused :
  @parse_execution_plan_for_execution no_toml Vectors.execution_plan_service_session = Err UnsupportedNetwork.
Proof. vm_compute. reflexivity. Qed.
Lemma service_plan_sound_witness :
  exists sp, @parse_service_execution_plan Vectors.execution_plan_service_session = Ok sp
    /\ plan_ok (sp_base sp)
    /\ @parse_execution_plan_for_execution no_toml Vectors.execution_plan_service_session
       = Err UnsupportedNetwork.
Proof.
  pose proof golden_service_parses as Hok.
  destruct (parse_service_execution_plan Vectors.execution_plan_service_session) as [sp|e] eqn:H;
    [|discriminate Hok].
  exists sp. split; [reflexivity|].
  destruct (@service_plan_sound no_toml _ sp H) as (Hb & _ & _). split; [exact Hb|].
  exact golden_service_refused.
Defined.

(** The version 1 parser.  A TOML plan is accepted only with a valid
    identifier and command, exactly one output root, exactly one executable,
    which is the command's, runtime libraries that are absolute and without
    [..], valid environment names and nonzero limits; it never carries the
    memory and swap limits of version 2, and the same text offered for
    execution is refused as obsolete. *)
Theorem toml_plan_sound {T : Toml} (text : string) (p : ExecutionPlan)
    (H : parse_execution_plan text = Ok p) (Hutf8 : str_ok text = true) :
  PlanId_new (PlanId_as_str (plan_id p)) = Ok (plan_id p)
  /\ command_ok (plan_command p)
  /\ (exists r l w, plan_paths (plan_authority p) = plan_segments r l [w] [ec_executable (plan_command p)]
      /\ Forall valid_path r /\ Forall valid_path l /\ valid_path w
      /\ Forall (fun q => library_path (AuthorityPath_as_str q)) l)
  /\ Forall valid_name (plan_environment (plan_authority p))
  /\ is_version_two (plan_limits (plan_authority p)) = false
  /\ parse_execution_plan_for_execution (String.list_ascii_of_string text) = Err ExecutionObsolete.
Proof.
  pose proof H as Hparsed.
  unfold parse_execution_plan in H. apply bind_Ok in H as (value & _ & H). apply bind_Ok in H as (_ & _ & H).
  apply bind_Ok in H as (wire & _ & H). repeat (match type of H with (if negb ?b then _ else _) = _ =>
    let Hb := fresh "Hb" in destruct b eqn:Hb; cbn [negb] in H; [|discriminate H] end).
  apply Nat.eqb_eq in Hb1, Hb2.
  apply bind_Ok in H as (id & [Hid _]%id_Ok & H).
  apply bind_Ok in H as (e & [He Hes]%valid_path_iff & H). apply bind_Ok in H as (wd & [Hw _]%valid_path_iff & H).
  apply bind_Ok in H as (args & [Ha _]%arguments_Ok & H).
  set (a := mkAuthorityFields [] (wa_read (wp_authority wire)) (wa_runtime_read (wp_authority wire))
    (wa_write (wp_authority wire)) (wa_execute (wp_authority wire)) Net_Deny).
  assert (Hbuilt : exists paths, build_paths a = Ok paths /\ grants_execute paths e = true /\ exists environment pr wl,
    Forall valid_name environment /\ p = mkExecutionPlan id (mkExecutionCommand e args wd)
      (AuthorityPlan_new paths environment (ResourceLimits_new pr wl
        (OutputByteLimit_new (wl_stdout_bytes (wp_limits wire)))
        (OutputByteLimit_new (wl_stderr_bytes (wp_limits wire)))))).
  { unfold build_paths. cbn [a af_read af_runtime_read af_write af_execute].
    apply bind_Ok in H as (p1 & -> & H). apply bind_Ok in H as (p2 & Hp2 & H).
    apply bind_Ok in H as (p3 & Hp3 & H). apply bind_Ok in H as (p4 & Hp4 & H).
    cbn [mbind result_bind]. rewrite Hp2. cbn [mbind result_bind]. rewrite Hp3. cbn [mbind result_bind].
    exists p4. split; [done|]. destruct (grants_execute p4 e); cbn [negb] in H; [|done]. split; [done|].
    apply bind_Ok in H as (env & [Henv _]%names_Ok & H). apply bind_Ok in H as (pr & _ & H).
    apply bind_Ok in H as (wl & _ & H). apply Ok_eq in H as <-. by exists env, pr, wl. }
  destruct Hbuilt as (paths & (rd & lib & w & ex & -> & Hvr & Hvl & Hvw & Hvx & Hlib & _ & _ & Ew & Ex)%build_paths_Ok
    & Hg%grants_execute_segments & env & pr & wl & Henv & ->).
  cbn [a af_write af_execute] in Ew, Ex. rewrite Ew, length_map in Hb2. rewrite Ex, length_map in Hb1.
  destruct ex as [|e' [|]]; [done| |done]. destruct w as [|w0 [|]]; [done| |done].
  apply list_elem_of_singleton in Hg as <-.
  split; [done|]. split; [by split|]. split; [|split; [done|split; [done|]]].
  - exists rd, lib, w0. split; [done|]. repeat split; try done. by inversion Hvw.
  - unfold parse_execution_plan_for_execution, legacy_plan.
    assert (from_utf8 (String.list_ascii_of_string text) = Some text) as ->.
    { by apply from_utf8_Some. }
    by rewrite Hparsed.
Qed.
(** A TOML library that knows one text. *)
Inductive example_toml_value := Toml_Leaf | Toml_Table (entries : list (string * example_toml_value)).
Definition example_wire_plan : WirePlan :=
  mkWirePlan PLAN_SCHEMA "demo.1" (mkWireCommand "/usr/bin/env" ["-i"] "/work")
    (mkWireAuthority "deny" ["LANG"] ["/work/src"] ["/usr//lib/./x"] ["/work/out"] ["/usr/bin/env"])
    (mkWireLimits 1000 4096 4096 4).
Definition example_toml_tree : example_toml_value :=
  Toml_Table
    [("schema", Toml_Leaf); ("id", Toml_Leaf);
     ("command", Toml_Table [("executable", Toml_Leaf); ("arguments", Toml_Leaf); ("working_directory", Toml_Leaf)]);
     ("authority", Toml_Table [("network", Toml_Leaf); ("environment", Toml_Leaf); ("read", Toml_Leaf);
        ("runtime_read", Toml_Leaf); ("write", Toml_Leaf); ("execute", Toml_Leaf)]);
     ("limits", Toml_Table [("wall_time_ms", Toml_Leaf); ("stdout_bytes", Toml_Leaf); ("stderr_bytes", Toml_Leaf);
        ("processes", Toml_Leaf)])].
Definition example_toml : Toml :=
  {| toml_value := example_toml_value;
     toml_from_str := fun text => if bool_decide (text = "plan") then Some example_toml_tree else None;
     as_table := fun v => match v with Toml_Table entries => Some entries | Toml_Leaf => None end;
     try_into_plan := fun _ => Some example_wire_plan |}.
Lemma toml_plan_sound_witness :
  exists p, @parse_execution_plan example_toml "plan" = Ok p /\ command_ok (plan_command p)
    /\ @parse_execution_plan_for_execution example_toml (String.list_ascii_of_string "plan")
       = Err ExecutionObsolete.
Proof.
  destruct (@parse_execution_plan example_toml "plan") as [p|e] eqn:H; [|vm_compute in H; discriminate H].
  exists p. split; [reflexivity|].
  destruct (@toml_plan_sound example_toml "plan" p H eq_refl) as (_ & Hc & _ & _ & _ & He).
  split; [exact Hc|exact He].
Defined.

(** The rule for runtime-library paths.  A list is appended exactly when every
    path is valid, absolute and without a [..] component, in order and as read
    authority of that role.  A path with an empty or [.] component in its middle
    is not canonical and is still accepted, as it was written. *)
Theorem runtime_library_rule (output : list PathAuthority) (texts : list string)
    (result : list PathAuthority) :
  (append_runtime_library_paths output texts = Ok result <->
   exists paths, result = output ++ entries Read RuntimeLibrary paths
     /\ texts = map AuthorityPath_as_str paths
     /\ Forall (fun q => valid_path q /\ library_path (AuthorityPath_as_str q)) paths)
  /\ runtime_library_entry "/usr//lib/./x"
     = Ok (mkPathAuthority (mkAuthorityPath (AuthorityText_new "/usr//lib/./x")) Read RuntimeLibrary)
  /\ runtime_library_entry "/usr/../lib" = Err RuntimeLibraryPathInvalid.
Proof.
  split; [|split; vm_compute; reflexivity]. rewrite append_runtime_Ok.
  split.
  - intros (qs & -> & Hv & Hl & ->). exists qs. split; [done|]. split; [done|]. by apply Forall_and.
  - intros (qs & -> & -> & [Hv Hl]%Forall_and). by exists qs.
Qed.
