(* ===== verification/Seccomp.v ===== *)
(** The seccomp deny-network profile of [proofbound-runtime-linux/src/seccomp.rs]
    and the two system-call wrappers of [sys.rs] it uses: the classic-BPF filter
    the launcher installs, its byte encoding and its installation.

    [evaluate] is the classic-BPF interpreter of the file (a program counter, an
    accumulator, loads from the two words of [seccomp_data]); the specification
    is [decision].  The syscall numbers come from the libc crate and the kernel
    is outside the repository: both are parameters ([Libc], [SeccompKernel]). *)
From S2P Require Import Prelude.
From Stdlib Require Import Ascii ZArith Lia Sorted.
From stdpp Require Import prelude strings list numbers.
Export stdpp.list_relations.list.

(** * Data *)

Inductive Architecture := X86_64 | Aarch64.
#[global] Instance Architecture_eq_dec : EqDecision Architecture.
Proof. solve_decision. Defined.

Definition BPF_LOAD_WORD_ABSOLUTE : Z := 0x20.
Definition BPF_JUMP_EQUAL_CONSTANT : Z := 0x15.
Definition BPF_JUMP_GREATER_OR_EQUAL_CONSTANT : Z := 0x35.
Definition BPF_RETURN_CONSTANT : Z := 0x06.
Definition SECCOMP_DATA_NUMBER_OFFSET : Z := 0.
Definition SECCOMP_DATA_ARCH_OFFSET : Z := 4.
Definition SECCOMP_RETURN_KILL_PROCESS : Z := 0x80000000.
Definition SECCOMP_RETURN_ERRNO : Z := 0x00050000.
Definition SECCOMP_RETURN_ALLOW : Z := 0x7fff0000.
Definition ERRNO_PERMISSION : Z := 1.
Definition AUDIT_ARCH_X86_64 : Z := 0xc000003e.
Definition AUDIT_ARCH_AARCH64 : Z := 0xc00000b7.
Definition X32_SYSCALL_BIT : Z := 0x40000000.

(** [code] is a [u16], the two jumps are [u8]s and [value] is a [u32]. *)
Record BpfInstruction := mkBpf { code : Z; jump_true : Z; jump_false : Z; value : Z }.
#[global] Instance BpfInstruction_eq_dec : EqDecision BpfInstruction.
Proof. solve_decision. Defined.

Inductive SeccompError :=
| UnsupportedOperatingSystem | FilterInvalid | InstallationFailed | VerificationFailed.
#[global] Instance SeccompError_eq_dec : EqDecision SeccompError.
Proof. solve_decision. Defined.
Definition SeccompError_code (e : SeccompError) : string :=
  match e with
  | UnsupportedOperatingSystem => "seccomp.os.unsupported"
  | FilterInvalid => "seccomp.filter.invalid"
  | InstallationFailed => "seccomp.installation.failed"
  | VerificationFailed => "seccomp.verification.failed"
  end.

Record SeccompBoundary := mkSeccompBoundary {
  sb_architecture : Architecture;
  denied_syscall_count : nat;
  instruction_count : nat;
  program : list byte
}.

(** The libc constants the profile denies; [SYS] gives their numbers. *)
Inductive Syscall :=
| SYS_accept | SYS_accept4 | SYS_bind | SYS_connect | SYS_getpeername | SYS_getsockname
| SYS_getsockopt | SYS_io_uring_enter | SYS_io_uring_register | SYS_io_uring_setup | SYS_listen
| SYS_recvfrom | SYS_recvmmsg | SYS_recvmsg | SYS_sendmmsg | SYS_sendmsg | SYS_sendto
| SYS_setsockopt | SYS_shutdown | SYS_socket | SYS_socketpair.
Class Libc := SYS : Syscall -> Z.

(** * The filter *)

Definition denied_catalog : list Syscall :=
  [SYS_accept; SYS_accept4; SYS_bind; SYS_connect; SYS_getpeername; SYS_getsockname;
   SYS_getsockopt; SYS_io_uring_enter; SYS_io_uring_register; SYS_io_uring_setup; SYS_listen;
   SYS_recvfrom; SYS_recvmmsg; SYS_recvmsg; SYS_sendmmsg; SYS_sendmsg; SYS_sendto;
   SYS_setsockopt; SYS_shutdown; SYS_socket; SYS_socketpair].
(** The [expect] on [u32::try_from] is a panic. *)
Definition denied_syscalls {E} `{Libc} : result (fault E) (list Z) :=
  syscalls ← mapM (fun s => ok_or (u32_try_from (SYS s)) Panicked) denied_catalog;
  Ok (dedup_by Z.eqb (Prelude.sort syscalls)).

Definition audit_architecture (architecture : Architecture) : Z :=
  match architecture with X86_64 => AUDIT_ARCH_X86_64 | Aarch64 => AUDIT_ARCH_AARCH64 end.
Definition preamble (architecture : Architecture) : list BpfInstruction :=
  [mkBpf BPF_LOAD_WORD_ABSOLUTE 0 0 SECCOMP_DATA_ARCH_OFFSET;
   mkBpf BPF_JUMP_EQUAL_CONSTANT 1 0 (audit_architecture architecture);
   mkBpf BPF_RETURN_CONSTANT 0 0 SECCOMP_RETURN_KILL_PROCESS;
   mkBpf BPF_LOAD_WORD_ABSOLUTE 0 0 SECCOMP_DATA_NUMBER_OFFSET].
Definition x32_guard (architecture : Architecture) : list BpfInstruction :=
  if bool_decide (architecture = X86_64) then
    [mkBpf BPF_JUMP_GREATER_OR_EQUAL_CONSTANT 0 1 X32_SYSCALL_BIT;
     mkBpf BPF_RETURN_CONSTANT 0 0 SECCOMP_RETURN_KILL_PROCESS]
  else [].
Definition deny (syscall : Z) : list BpfInstruction :=
  [mkBpf BPF_JUMP_EQUAL_CONSTANT 0 1 syscall;
   mkBpf BPF_RETURN_CONSTANT 0 0 (Z.lor SECCOMP_RETURN_ERRNO ERRNO_PERMISSION)].
Definition build_filter (architecture : Architecture) (denied_syscalls : list Z) :
    result SeccompError (list BpfInstruction) :=
  if bool_decide (denied_syscalls = []) || windows_any (fun a b => rle b a) denied_syscalls
  then Err FilterInvalid
  else
    let filter := preamble architecture ++ x32_guard architecture
      ++ concat (map deny denied_syscalls) ++ [mkBpf BPF_RETURN_CONSTANT 0 0 SECCOMP_RETURN_ALLOW] in
    if (u16_bound - 1 <? Z.of_nat (length filter))%Z then Err FilterInvalid else Ok filter.

Definition encode_instruction (i : BpfInstruction) : list byte :=
  le_bytes 2 (code i) ++ [mkb (jump_true i); mkb (jump_false i)] ++ le_bytes 4 (value i).
Definition encode_filter (filter : list BpfInstruction) : list byte :=
  concat (map encode_instruction filter).

Definition compile_deny_network_program `{Libc} (architecture : Architecture) :
    result (fault SeccompError) (list byte) :=
  denied ← denied_syscalls;
  filter ← lift_fault (build_filter architecture denied);
  Ok (encode_filter filter).

(** The classic-BPF interpreter: [None] is the panic on an instruction outside
    the filter, an unknown offset or an unknown code; [fuel] bounds the steps. *)
Fixpoint evaluate_from (fuel : nat) (filter : list BpfInstruction) (architecture syscall : Z)
    (accumulator : Z) (program_counter : nat) : option Z :=
  match fuel with
  | O => None
  | S fuel =>
    match filter !! program_counter with
    | None => None
    | Some i =>
      if (code i =? BPF_LOAD_WORD_ABSOLUTE)%Z then
        if (value i =? SECCOMP_DATA_NUMBER_OFFSET)%Z
        then evaluate_from fuel filter architecture syscall syscall (S program_counter)
        else if (value i =? SECCOMP_DATA_ARCH_OFFSET)%Z
        then evaluate_from fuel filter architecture syscall architecture (S program_counter)
        else None
      else if (code i =? BPF_JUMP_EQUAL_CONSTANT)%Z then
        let jump := if (accumulator =? value i)%Z then jump_true i else jump_false i in
        evaluate_from fuel filter architecture syscall accumulator
          (program_counter + Z.to_nat jump + 1)
      else if (code i =? BPF_JUMP_GREATER_OR_EQUAL_CONSTANT)%Z then
        let jump := if (value i <=? accumulator)%Z then jump_true i else jump_false i in
        evaluate_from fuel filter architecture syscall accumulator
          (program_counter + Z.to_nat jump + 1)
      else if (code i =? BPF_RETURN_CONSTANT)%Z then Some (value i)
      else None
    end
  end.
Definition evaluate (filter : list BpfInstruction) (architecture syscall : Z) : option Z :=
  evaluate_from (length filter) filter architecture syscall 0 0.

(** * Installation *)

(** The kernel's [seccomp] system call (operation, flags, program) and the
    [PR_GET_SECCOMP] read-back, as functions of an abstract kernel state. *)
Class SeccompKernel (kernel : Type) := {
  sys_seccomp : Z -> Z -> list BpfInstruction -> kernel -> Z * kernel;
  prctl_get_seccomp : kernel -> Z
}.

Section install.
Context {kernel : Type} `{SeccompKernel kernel} `{Libc}.

Definition SECCOMP_SET_MODE_FILTER : Z := 1.
Definition SECCOMP_FILTER_FLAG_TSYNC : Z := 1.
(** The [io::Error] payload is dropped by every caller. *)
Definition install_seccomp_filter (instructions : list BpfInstruction) (k : kernel) :
    result () () * kernel :=
  match u16_try_from (Z.of_nat (length instructions)) with
  | None => (Err (), k)
  | Some _ =>
    let '(result, k) := sys_seccomp SECCOMP_SET_MODE_FILTER SECCOMP_FILTER_FLAG_TSYNC instructions k in
    if (result =? 0)%Z then (Ok (), k) else if (result <? 0)%Z then (Err (), k) else (Err (), k)
  end.
Definition seccomp_mode (k : kernel) : result () Z :=
  let result := prctl_get_seccomp k in
  if (result <? 0)%Z then Err () else ok_or (u32_try_from result) ().

Definition install_deny_network (architecture : Architecture) (k : kernel) :
    result (fault SeccompError) SeccompBoundary * kernel :=
  match denied_syscalls with
  | Err e => (Err e, k)
  | Ok denied_syscalls =>
    match build_filter architecture denied_syscalls with
    | Err e => (Err (Failure e), k)
    | Ok filter =>
      let program := encode_filter filter in
      let '(installed, k) := install_seccomp_filter filter k in
      match installed with
      | Err _ => (Err (Failure InstallationFailed), k)
      | Ok _ =>
        match seccomp_mode k with
        | Err _ => (Err (Failure VerificationFailed), k)
        | Ok mode =>
          if negb (mode =? 2)%Z then (Err (Failure VerificationFailed), k)
          else (Ok (mkSeccompBoundary architecture (length denied_syscalls) (length filter) program), k)
        end
      end
    end
  end.
End install.

(** * Specification *)

(** What the profile promises for a system call of a thread. *)
Definition decision (architecture : Architecture) (denied : list Z) (audit syscall : Z) : Z :=
  if negb (audit =? audit_architecture architecture)%Z then SECCOMP_RETURN_KILL_PROCESS
  else if bool_decide (architecture = X86_64) && (X32_SYSCALL_BIT <=? syscall)%Z
  then SECCOMP_RETURN_KILL_PROCESS
  else if bool_decide (syscall ∈ denied) then Z.lor SECCOMP_RETURN_ERRNO ERRNO_PERMISSION
  else SECCOMP_RETURN_ALLOW.

(** The kernel's reading of a program: eight bytes an instruction. *)
Fixpoint read_program (bytes : list byte) : option (list BpfInstruction) :=
  match bytes with
  | [] => Some []
  | c0 :: c1 :: jt :: jf :: v0 :: v1 :: v2 :: v3 :: bytes =>
    i ← read_program bytes;
    Some (mkBpf (be_value [c1; c0]) (bval jt) (bval jf) (be_value [v3; v2; v1; v0]) :: i)
  | _ => None
  end.
Definition instruction_ok (i : BpfInstruction) : bool :=
  (0 <=? code i)%Z && (code i <? u16_bound)%Z && (0 <=? jump_true i)%Z && (jump_true i <? u8_bound)%Z
  && (0 <=? jump_false i)%Z && (jump_false i <? u8_bound)%Z && (0 <=? value i)%Z
  && (value i <? u32_bound)%Z.

(** * Lemmas *)

(** One interpreter step, for a filter read as a suffix from the counter. *)
Section steps.
Variables (filter : list BpfInstruction) (a nr : Z).
Abbreviation eval := (fun fuel => evaluate_from fuel filter a nr).

Lemma drop_head (pc : nat) i (rest : list BpfInstruction) : drop pc filter = i :: rest -> filter !! pc = Some i.
Proof. intros H. rewrite <- (Nat.add_0_r pc), <- lookup_drop, H. done. Qed.
Lemma drop_tail (pc k : nat) (l rest : list BpfInstruction) :
  drop pc filter = l ++ rest -> k = length l -> drop (pc + k) filter = rest.
Proof. intros H ->. by rewrite <- drop_drop, H, drop_app_length. Qed.

Lemma step_return fuel acc pc v rest :
  drop pc filter = mkBpf BPF_RETURN_CONSTANT 0 0 v :: rest -> eval (S fuel) acc pc = Some v.
Proof. intros H%drop_head. cbn [evaluate_from]. by rewrite H. Qed.
Lemma step_load fuel acc pc v rest :
  drop pc filter = mkBpf BPF_LOAD_WORD_ABSOLUTE 0 0 v :: rest ->
  v = SECCOMP_DATA_NUMBER_OFFSET \/ v = SECCOMP_DATA_ARCH_OFFSET ->
  eval (S fuel) acc pc = eval fuel (if (v =? SECCOMP_DATA_NUMBER_OFFSET)%Z then nr else a) (S pc).
Proof. intros H%drop_head [-> | ->]; cbn [evaluate_from]; by rewrite H. Qed.
Lemma step_equal fuel acc pc t e v rest :
  drop pc filter = mkBpf BPF_JUMP_EQUAL_CONSTANT t e v :: rest ->
  eval (S fuel) acc pc = eval fuel acc (pc + Z.to_nat (if (acc =? v)%Z then t else e) + 1).
Proof. intros H%drop_head. cbn [evaluate_from]. by rewrite H. Qed.
Lemma step_greater fuel acc pc t e v rest :
  drop pc filter = mkBpf BPF_JUMP_GREATER_OR_EQUAL_CONSTANT t e v :: rest ->
  eval (S fuel) acc pc = eval fuel acc (pc + Z.to_nat (if (v <=? acc)%Z then t else e) + 1).
Proof. intros H%drop_head. cbn [evaluate_from]. by rewrite H. Qed.

(** The deny rules followed by the final allow. *)
Lemma evaluate_rules ds pc fuel :
  drop pc filter = concat (map deny ds) ++ [mkBpf BPF_RETURN_CONSTANT 0 0 SECCOMP_RETURN_ALLOW] ->
  2 * length ds < fuel ->
  eval fuel nr pc = Some (if bool_decide (nr ∈ ds) then Z.lor SECCOMP_RETURN_ERRNO ERRNO_PERMISSION
                          else SECCOMP_RETURN_ALLOW).
Proof.
  revert pc fuel. induction ds as [|d ds IH]; intros pc fuel Hd Hf.
  - destruct fuel as [|fuel]; [lia|]. by erewrite step_return by exact Hd.
  - cbn [length] in Hf. destruct fuel as [|[|fuel]]; [lia..|].
    cbn [map concat] in Hd. rewrite <- app_assoc in Hd. erewrite step_equal by exact Hd.
    destruct (nr =? d)%Z eqn:Heq.
    + apply Z.eqb_eq in Heq as <-. rewrite bool_decide_eq_true_2 by (by left).
      replace (pc + Z.to_nat 0 + 1) with (pc + 1) by lia.
      eapply step_return. apply (drop_tail _ 1 [_] _ Hd eq_refl).
    + apply Z.eqb_neq in Heq. replace (pc + Z.to_nat 1 + 1) with (pc + 2) by lia.
      rewrite IH; [|apply (drop_tail pc 2 (deny d) _ Hd eq_refl)|lia].
      rewrite (bool_decide_ext (nr ∈ d :: ds) (nr ∈ ds)); [done|]. rewrite elem_of_cons. naive_solver.
Qed.

(** The whole filter. *)
Lemma evaluate_filter arch ds fuel :
  filter = preamble arch ++ x32_guard arch ++ concat (map deny ds)
    ++ [mkBpf BPF_RETURN_CONSTANT 0 0 SECCOMP_RETURN_ALLOW] ->
  4 + length (x32_guard arch) + 2 * length ds < fuel -> eval fuel 0%Z 0 = Some (decision arch ds a nr).
Proof.
  intros Hfilter Hf. unfold decision.
  assert (H0 : drop 0 filter = preamble arch ++ x32_guard arch ++ concat (map deny ds)
    ++ [mkBpf BPF_RETURN_CONSTANT 0 0 SECCOMP_RETURN_ALLOW]) by done.
  assert (H1 := drop_tail 0 1 [_] _ H0 eq_refl). assert (H2 := drop_tail 1 1 [_] _ H1 eq_refl).
  assert (H3 := drop_tail 2 1 [_] _ H2 eq_refl). assert (H4 := drop_tail 3 1 [_] _ H3 eq_refl).
  do 4 (destruct fuel as [|fuel]; [lia|]).
  erewrite step_load by (first [exact H0|by right]).
  erewrite step_equal by exact H1. cbn [Z.eqb SECCOMP_DATA_ARCH_OFFSET SECCOMP_DATA_NUMBER_OFFSET].
  destruct (a =? audit_architecture arch)%Z; cbn [negb].
  2:{ eapply step_return. exact H2. }
  change (1 + Z.to_nat 1 + 1) with (2 + 1). erewrite step_load by (first [exact H3|by left]).
  cbn [Z.eqb SECCOMP_DATA_NUMBER_OFFSET].
  destruct arch.
  - change (length (x32_guard X86_64)) with 2 in Hf. destruct fuel as [|fuel]; [lia|].
    rewrite bool_decide_eq_true_2 by done. change (S (2 + 1)) with (3 + 1).
    erewrite step_greater by exact H4. cbn [andb].
    destruct (X32_SYSCALL_BIT <=? nr)%Z.
    + eapply step_return. change (3 + 1 + Z.to_nat 0 + 1) with (4 + 1).
      apply (drop_tail _ 1 [_] _ H4 eq_refl).
    + change (3 + 1 + Z.to_nat 1 + 1) with (4 + 2).
      apply evaluate_rules; [apply (drop_tail _ 2 [_; _] _ H4 eq_refl)|lia].
  - rewrite bool_decide_eq_false_2 by done. cbn [andb]. apply evaluate_rules; [exact H4|cbn in Hf; lia].
Qed.
End steps.

Lemma build_filter_Ok arch ds f :
  build_filter arch ds = Ok f <->
  (ds <> [] /\ StronglySorted (fun x y => rlt x y = true) ds
   /\ (Z.of_nat (length f) < u16_bound)%Z
   /\ f = preamble arch ++ x32_guard arch ++ concat (map deny ds)
        ++ [mkBpf BPF_RETURN_CONSTANT 0 0 SECCOMP_RETURN_ALLOW]).
Proof.
  unfold build_filter. set (flt := preamble arch ++ _).
  destruct (bool_decide (ds = [])) eqn:Hn; cbn [orb].
  { apply bool_decide_eq_true in Hn. naive_solver. }
  apply bool_decide_eq_false in Hn. rewrite <- windows_any_ge.
  destruct (windows_any _ ds); [naive_solver|].
  destruct (_ <? _)%Z eqn:Hl.
  - apply Z.ltb_lt in Hl. split; [done|]. intros (_ & _ & Hlt & ->). lia.
  - apply Z.ltb_ge in Hl. split; [intros [= <-]|intros (_ & _ & _ & ->); done].
    repeat split; [done|]. lia.
Qed.

Lemma le_bytes_value n z :
  (0 <= z < 256 ^ Z.of_nat n)%Z -> be_value (reverse (le_bytes n z)) = z.
Proof. intros Hz. unfold le_bytes. rewrite reverse_involutive. by apply be_value_be_bytes_small. Qed.

Lemma read_encode filter :
  forallb instruction_ok filter = true -> read_program (encode_filter filter) = Some filter.
Proof.
  induction filter as [|[c t e v] filter IH]; [done|]. cbn [forallb]. intros [Hi Hf]%andb_true_iff.
  unfold instruction_ok in Hi; cbn [code jump_true jump_false value] in Hi. split_andb.
  unfold encode_filter; cbn [map concat]. unfold encode_instruction; cbn [code jump_true jump_false value].
  assert (Hc := le_bytes_value 2 c ltac:(unfold u16_bound in *; lia)).
  assert (Hv := le_bytes_value 4 v ltac:(unfold u32_bound in *; lia)).
  change (read_program (le_bytes 2 c ++ [mkb t; mkb e] ++ le_bytes 4 v ++ encode_filter filter) = Some (mkBpf c t e v :: filter))
    || rewrite <- !app_assoc.
  assert (Hlc : length (le_bytes 2 c) = 2) by (unfold le_bytes; by rewrite length_reverse, length_be_bytes).
  assert (Hlv : length (le_bytes 4 v) = 4) by (unfold le_bytes; by rewrite length_reverse, length_be_bytes).
  destruct (le_bytes 2 c) as [|c0 [|c1 [|]]]; [done..| |done].
  destruct (le_bytes 4 v) as [|v0 [|v1 [|v2 [|v3 [|]]]]]; [done..| |done].
  cbn [app read_program]. fold (encode_filter filter). rewrite (IH Hf). cbn [mbind option_bind].
  change (be_value [c1; c0] = c) in Hc. change (be_value [v3; v2; v1; v0] = v) in Hv.
  rewrite Hc, Hv, !bval_mkb_small by (unfold u8_bound in *; lia). done.
Qed.

Lemma length_encode filter : length (encode_filter filter) = 8 * length filter.
Proof.
  induction filter as [|i filter IH]; [done|]. unfold encode_filter in *; cbn [map concat length].
  rewrite length_app, IH. unfold encode_instruction, le_bytes.
  rewrite !length_app, !length_reverse, !length_be_bytes. cbn [length]. lia.
Qed.

Lemma deny_rules_ok ds :
  Forall (fun d => 0 <= d < u32_bound)%Z ds -> forallb instruction_ok (concat (map deny ds)) = true.
Proof.
  induction 1 as [|d ds Hd _ IH]; [done|]. cbn [map concat deny app forallb]. rewrite IH.
  unfold instruction_ok at 1; cbn [code jump_true jump_false value].
  rewrite (proj2 (Z.leb_le 0 d)), (proj2 (Z.ltb_lt d u32_bound)) by lia. done.
Qed.
Lemma build_filter_instructions_ok arch ds f :
  Forall (fun d => 0 <= d < u32_bound)%Z ds -> build_filter arch ds = Ok f ->
  forallb instruction_ok f = true.
Proof.
  intros Hds (_ & _ & _ & ->)%build_filter_Ok. rewrite !forallb_app, deny_rules_ok by done.
  by destruct arch.
Qed.


(** The number of instructions. *)
Lemma length_rules ds : length (concat (map deny ds)) = 2 * length ds.
Proof. induction ds as [|d ds IH]; [done|]. cbn [map concat]. rewrite length_app, IH. cbn [length deny]. lia. Qed.

Lemma build_filter_evaluate arch ds f audit nr :
  build_filter arch ds = Ok f -> evaluate f audit nr = Some (decision arch ds audit nr).
Proof.
  intros (_ & _ & _ & Hf)%build_filter_Ok. unfold evaluate. apply evaluate_filter; [done|].
  rewrite Hf, !length_app, length_rules. cbn [length preamble]. lia.
Qed.

Lemma denied_syscalls_spec {E} `{Libc} (HSYS : forall s, (0 <= SYS s < u32_bound)%Z) :
  exists ds, @denied_syscalls E _ = Ok ds /\ ds <> [] /\ length ds <= 21
    /\ StronglySorted (fun x y => rlt x y = true) ds
    /\ Forall (fun d => 0 <= d < u32_bound)%Z ds
    /\ (forall nr, nr ∈ ds <-> exists s, nr = SYS s).
Proof.
  set (raw := map SYS denied_catalog).
  assert (Hm : mapM (fun s => ok_or (u32_try_from (SYS s)) (@Panicked E)) denied_catalog = Ok raw).
  { apply mapM_Ok. unfold raw. clear raw. induction denied_catalog as [|s l IH]; cbn; constructor; [|done].
    apply ok_or_Ok, try_from_Some. by split. }
  set (ds := dedup_by Z.eqb (Prelude.sort raw)).
  assert (Hin : forall nr, nr ∈ ds <-> exists s, nr = SYS s).
  { intros nr. unfold ds. rewrite (elem_of_dedup_by Z.eqb Z.eqb_eq), elem_of_sort. unfold raw.
    rewrite list_elem_of_fmap. split; [intros (s & -> & _); by exists s|]. intros [s ->]. exists s. split; [done|].
    unfold denied_catalog. rewrite !elem_of_cons. destruct s; tauto. }
  assert (Hs : StronglySorted (fun x y => rlt x y = true) ds).
  { unfold ds. apply (dedup_by_strict Z.eqb Z.eqb_eq), sort_weak. }
  exists ds. split; [unfold denied_syscalls; by rewrite Hm|]. split.
  { intros Hnil. assert (SYS SYS_accept ∈ ds) as He by (apply Hin; eauto). rewrite Hnil in He. by apply elem_of_nil in He. }
  split.
  { change 21 with (length raw). apply submseteq_length, NoDup_submseteq; [by apply strict_NoDup|].
    intros nr Hnr. unfold ds in Hnr. by rewrite (elem_of_dedup_by Z.eqb Z.eqb_eq), elem_of_sort in Hnr. }
  split; [done|]. split; [|done]. apply Forall_forall. intros nr Hnr. apply Hin in Hnr as [s ->]. apply HSYS.
Qed.

Lemma decision_ext arch ds ds' audit nr :
  (nr ∈ ds <-> nr ∈ ds') -> decision arch ds audit nr = decision arch ds' audit nr.
Proof. intros H. unfold decision. by rewrite (bool_decide_ext _ _ H). Qed.

Lemma denied_filter `{Libc} arch (HSYS : forall s, (0 <= SYS s < u32_bound)%Z) :
  exists ds filter, (forall E, @denied_syscalls E _ = Ok ds) /\ build_filter arch ds = Ok filter
    /\ forallb instruction_ok filter = true
    /\ (forall audit nr, evaluate filter audit nr
         = Some (decision arch (map SYS denied_catalog) audit nr)).
Proof.
  destruct (denied_syscalls_spec (E := ()) HSYS) as (ds & Hds & Hne & Hlen & Hsorted & Hty & Hin).
  destruct (build_filter arch ds) as [f|e] eqn:Hf.
  - exists ds, f. split; [|split; [done|split]].
    + intros E. destruct (denied_syscalls_spec (E := E) HSYS) as (ds' & -> & _ & _ & Hs' & _ & Hin').
      f_equal. apply strict_unique; [done..|]. intros x. by rewrite Hin, Hin'.
    + by eapply build_filter_instructions_ok.
    + intros audit nr. rewrite (build_filter_evaluate _ _ _ audit nr Hf). f_equal. apply decision_ext.
      rewrite Hin. rewrite list_elem_of_fmap. split; [|intros (s & -> & _); by exists s]. intros [s ->]. exists s. split; [done|].
      unfold denied_catalog. rewrite !elem_of_cons. destruct s; tauto.
  - exfalso. set (g := preamble arch ++ x32_guard arch ++ concat (map deny ds)
      ++ [mkBpf BPF_RETURN_CONSTANT 0 0 SECCOMP_RETURN_ALLOW]).
    assert (build_filter arch ds = Ok g) as Hg; [|congruence].
    apply build_filter_Ok. repeat split; [done..|]. unfold g. rewrite !length_app, length_rules.
    assert (length (x32_guard arch) <= 2) by (apply Nat.leb_le; by destruct arch).
    unfold u16_bound. cbn [length preamble]. lia.
Qed.

(** * Properties *)

(** C26: the compiled deny-network program.  With the syscall numbers of libc in
    [u32], compilation succeeds; the emitted bytes are eight an instruction and
    the kernel's reading of them is the filter; and that filter stops on every
    system call: a foreign audit architecture and, on x86-64, an x32 number kill
    the process, a number of the catalog returns [EPERM], anything else is
    allowed. *)
Theorem compiled_program_decides `{Libc} (arch : Architecture)
    (HSYS : forall s, (0 <= SYS s < u32_bound)%Z) :
  exists filter bytes, compile_deny_network_program arch = Ok bytes
    /\ read_program bytes = Some filter /\ length bytes = 8 * length filter
    /\ forall audit nr,
         evaluate filter audit nr = Some (decision arch (map SYS denied_catalog) audit nr).
Proof.
  destruct (denied_filter arch HSYS) as (ds & filter & Hds & Hf & Hok & He).
  exists filter, (encode_filter filter). unfold compile_deny_network_program. rewrite Hds.
  cbn [mbind result_bind]. rewrite Hf. split; [done|]. split; [by apply read_encode|].
  split; [apply length_encode|exact He].
Qed.
(** The x86-64 numbers. *)
Definition x86_64_numbers : Libc := fun s =>
  match s with
  | SYS_accept => 43 | SYS_accept4 => 288 | SYS_bind => 49 | SYS_connect => 42
  | SYS_getpeername => 52 | SYS_getsockname => 51 | SYS_getsockopt => 55
  | SYS_io_uring_enter => 426 | SYS_io_uring_register => 427 | SYS_io_uring_setup => 425
  | SYS_listen => 50 | SYS_recvfrom => 45 | SYS_recvmmsg => 299 | SYS_recvmsg => 47
  | SYS_sendmmsg => 307 | SYS_sendmsg => 46 | SYS_sendto => 44 | SYS_setsockopt => 54
  | SYS_shutdown => 48 | SYS_socket => 41 | SYS_socketpair => 53
  end%Z.
Lemma compiled_program_decides_witness :
  (forall s, (0 <= @SYS x86_64_numbers s < u32_bound)%Z)
  /\ exists filter bytes, @compile_deny_network_program x86_64_numbers X86_64 = Ok bytes
    /\ read_program bytes = Some filter /\ length bytes = 8 * length filter
    /\ forall audit nr, evaluate filter audit nr
         = Some (decision X86_64 (map (@SYS x86_64_numbers) denied_catalog) audit nr).
Proof.
  assert (H : forall s, (0 <= @SYS x86_64_numbers s < u32_bound)%Z) by (intros []; done).
  split; [exact H|]. exact (@compiled_program_decides x86_64_numbers X86_64 H).
Defined.

(** [build_filter] on every input: it refuses exactly the empty, the
    unordered or repeated, and the oversized deny lists, and a filter it builds
    computes [decision] for every audit architecture and number. *)
Theorem build_filter_correct (arch : Architecture) (ds : list Z) :
  (build_filter arch ds = Err FilterInvalid
     <-> ds = [] \/ ~ StronglySorted Z.lt ds
         \/ (u16_bound <= 5 + (if decide (arch = X86_64) then 2 else 0) + 2 * Z.of_nat (length ds))%Z)
  /\ (forall f, build_filter arch ds = Ok f ->
        forall audit nr, evaluate f audit nr = Some (decision arch ds audit nr)).
Proof.
  split; [|intros; by apply build_filter_evaluate].
  set (g := preamble arch ++ x32_guard arch ++ concat (map deny ds)
      ++ [mkBpf BPF_RETURN_CONSTANT 0 0 SECCOMP_RETURN_ALLOW]).
  assert (Hlen : Z.of_nat (length g)
    = (5 + (if decide (arch = X86_64) then 2 else 0) + 2 * Z.of_nat (length ds))%Z).
  { unfold g. rewrite !length_app, length_rules. destruct arch; cbn [length preamble];
      [change (length (x32_guard X86_64)) with 2|change (length (x32_guard Aarch64)) with 0]; case_decide;
      try done; lia. }
  assert (Hlt : StronglySorted Z.lt ds <-> StronglySorted (fun x y => rlt x y = true) ds).
  { apply StronglySorted_iff. intros x y. by rewrite rlt_Lt. }
  rewrite Hlt, <- Hlen. pose proof (build_filter_Ok arch ds g) as Hg.
  destruct (build_filter arch ds) as [f|[]] eqn:Hf.
  - apply build_filter_Ok in Hf as (Hne & Hs & Hl & ->). split; [done|].
    intros [?|[?|?]]; [done..|]. fold g in Hl. lia.
  - exfalso. unfold build_filter in Hf. by repeat case_match.
  - split; [|done]. intros _. destruct (decide (ds = [])); [by left|right].
    destruct (decide (u16_bound <= Z.of_nat (length g))%Z) as [?|Hl]; [by right|left].
    intros Hs. assert (@Err SeccompError _ FilterInvalid = Ok g); [|done]. apply Hg. repeat split; [done..|]. lia.
  - exfalso. unfold build_filter in Hf. by repeat case_match.
  - exfalso. unfold build_filter in Hf. by repeat case_match.
Qed.

(** C34: installation.  For a kernel whose [seccomp] call, when it reports
    success, puts the given program first among the filters in force
    ([seccomp(2)]), a successful [install_deny_network] leaves in force a filter
    that decides every system call as the profile promises; the boundary reports
    its exact bytes, its instruction count and the architecture, and the mode
    read back is 2 (filter).  Every other result is a typed error, never a panic. *)
Theorem install_enforces {kernel} `{SeccompKernel kernel} `{Libc} (arch : Architecture)
    (filters : kernel -> list (list BpfInstruction)) (k k' : kernel)
    (r : result (fault SeccompError) SeccompBoundary)
    (HSYS : forall s, (0 <= SYS s < u32_bound)%Z)
    (Hinstall : forall flags p k k', sys_seccomp SECCOMP_SET_MODE_FILTER flags p k = (0%Z, k') ->
       filters k' = p :: filters k)
    (Hr : install_deny_network arch k = (r, k')) :
  r <> Err Panicked
  /\ forall b, r = Ok b -> exists p,
       filters k' = p :: filters k
       /\ (forall audit nr, evaluate p audit nr
           = Some (decision arch (map SYS denied_catalog) audit nr))
       /\ read_program (program b) = Some p /\ instruction_count b = length p
       /\ compile_deny_network_program arch = Ok (program b)
       /\ sb_architecture b = arch /\ prctl_get_seccomp k' = 2%Z.
Proof.
  destruct (denied_filter arch HSYS) as (ds & filter & Hds & Hf & Hok & He).
  unfold install_deny_network in Hr. rewrite Hds, Hf in Hr. cbv zeta in Hr.
  destruct (install_seccomp_filter filter k) as [installed k1] eqn:Hin.
  destruct installed as [[]|[]]; [|by injection Hr as <- <-].
  unfold install_seccomp_filter in Hin. destruct (u16_try_from _); [|done].
  destruct (sys_seccomp _ _ filter k) as [res k2] eqn:Hsys.
  destruct (res =? 0)%Z eqn:Hz; [|by destruct (res <? 0)%Z]. apply Z.eqb_eq in Hz as ->.
  injection Hin as ->. apply Hinstall in Hsys.
  destruct (seccomp_mode k1) as [mode|[]] eqn:Hmode; [|by injection Hr as <- <-].
  destruct (mode =? 2)%Z eqn:Hm; cbn [negb] in Hr; [|by injection Hr as <- <-].
  apply Z.eqb_eq in Hm as ->. injection Hr as <- <-. split; [done|]. intros b [= <-].
  exists filter. split; [done|]. split; [done|]. split; [by apply read_encode|].
  split; [done|]. split; [|split; [done|]].
  - unfold compile_deny_network_program. rewrite Hds. cbn [mbind result_bind]. by rewrite Hf.
  - unfold seccomp_mode in Hmode. destruct (_ <? 0)%Z; [done|].
    apply ok_or_Ok, try_from_Some in Hmode as [-> _]. done.
Qed.
(** A kernel that records the installed programs. *)
Definition recording_kernel : SeccompKernel (list (list BpfInstruction)) := {|
  sys_seccomp := fun op _ p k => if (op =? 1)%Z then (0%Z, p :: k) else ((-1)%Z, k);
  prctl_get_seccomp := fun k => if k is [] then 0%Z else 2%Z
|}.
Lemma install_enforces_witness :
  let H := recording_kernel in let L := x86_64_numbers in
  exists b k', install_deny_network X86_64 [] = (Ok b, k')
    /\ instruction_count b = 49 /\ denied_syscall_count b = 21
    /\ exists p, k' = [p] /\ evaluate p AUDIT_ARCH_X86_64 41 = Some 0x50001%Z
         /\ evaluate p AUDIT_ARCH_X86_64 1 = Some SECCOMP_RETURN_ALLOW
         /\ prctl_get_seccomp k' = 2%Z.
Proof.
  intros H L. destruct (install_deny_network X86_64 []) as [r k'] eqn:Hr.
  assert (HSYS : forall s, (0 <= SYS s < u32_bound)%Z) by (intros []; done).
  assert (Hin : forall flags p k k', sys_seccomp SECCOMP_SET_MODE_FILTER flags p k = (0%Z, k') ->
       id k' = p :: id k) by (intros flags p k k2 [= <-]; done).
  destruct (install_enforces X86_64 id [] k' r HSYS Hin Hr) as [_ Hb].
  destruct r as [b|e]; [|vm_compute in Hr; done].
  destruct (Hb b eq_refl) as (p & Hk & He & _ & _ & _ & _ & Hmode).
  exists b, k'. split; [done|].
  assert (Hc : (instruction_count b, denied_syscall_count b) = (49, 21)).
  { assert (fmap (fun b => (instruction_count b, denied_syscall_count b)) (install_deny_network X86_64 []).1
      = Ok (49, 21)) as Hn by (vm_compute; reflexivity). rewrite Hr in Hn. cbn in Hn. by injection Hn as -> ->. }
  injection Hc as -> ->. split; [done|]. split; [done|]. exists p. split; [done|].
  rewrite !He. split; [vm_compute; reflexivity|]. split; [vm_compute; reflexivity|done].
Defined.
