(* ===== verification/ServicePolicy.v ===== *)
(** The compiled service policy of [proofbound-runtime-core/src/service_policy.rs]
    and the pipeline from plan bytes to policy bytes: parsing, normalization,
    compilation and canonical encoding, composed as the runtime composes them. *)
From S2P Require Import Prelude Vectors Authority Normalize WireV2 WireMaps Policy Network Plan.
From Stdlib Require Import Ascii ZArith Lia Sorted.
From stdpp Require Import prelude strings list numbers.
Export stdpp.list_relations.list.

Inductive ServiceSeccompPolicy := ChannelOnlyV1.
#[global] Instance ServiceSeccompPolicy_eq_dec : EqDecision ServiceSeccompPolicy.
Proof. solve_decision. Defined.
Record CompiledServicePolicy := mkCompiledServicePolicy {
  csp_child : CompiledPolicy;
  csp_session : AuthenticatedServiceSession;
  csp_child_network : ServiceSeccompPolicy
}.

Definition address_value (address : ResolverAddress) : string * list byte :=
  match address with Ipv4 bytes => ("ipv4", bytes) | Ipv6 bytes => ("ipv6", bytes) end.
Definition credential_value (credential : option CredentialSource) : Value :=
  match credential with
  | None => Null
  | Some source => wire_map
      [("id", wire_text (CredentialSourceId_as_str (cs_id source)));
       ("service", wire_text (ServiceName_as_str (cs_service source)));
       ("environment", wire_text (EnvironmentName_as_str (cs_environment source)))]
  end.
Definition service_value (s : AuthenticatedServiceSession) : Value :=
  wire_map [("name", wire_text (ServiceName_as_str (ss_service s)));
            ("port", Unsigned (TcpPort_get (ss_port s)))].
Definition resolver_value (r : ResolutionPolicy) : Value :=
  let '(family, address) := address_value (ep_address (rp_endpoint r)) in
  wire_map
    [("address", wire_map [("family", wire_text family); ("bytes", Bytes address)]);
     ("port", Unsigned (TcpPort_get (ep_port (rp_endpoint r))));
     ("configuration", wire_text (NetworkSupportPath_as_str (rp_configuration r)));
     ("maximum_cname_depth", Unsigned (maximum_cname_depth r));
     ("maximum_answer_count", Unsigned (maximum_answer_count r));
     ("maximum_response_bytes", Unsigned (maximum_response_bytes r));
     ("resolution_deadline_ms", Unsigned (resolution_deadline_ms r));
     ("attempt_deadline_ms", Unsigned (attempt_deadline_ms r));
     ("address_order", wire_text "ipv4-then-ipv6-lexicographic")].
Definition tls_value (t : TlsPolicy) : Value :=
  wire_map
    [("trust_root_set", wire_text (NetworkSupportPath_as_str (trust_root_set t)));
     ("minimum_version", wire_text (match minimum_version t with Tls12 => "tls-1.2" | Tls13 => "tls-1.3" end));
     ("service_name_verification", wire_text "dns-san-exact");
     ("revocation", wire_text "not-checked-recorded-assumption");
     ("session_resumption", wire_text "deny");
     ("early_data", wire_text "deny")].
Definition session_limits_value (l : ServiceSessionLimits) : Value :=
  wire_map
    [("setup_time_ms", Unsigned (setup_time_ms l));
     ("session_time_ms", Unsigned (session_time_ms l));
     ("child_to_service_bytes", Unsigned (child_to_service_bytes l));
     ("service_to_child_bytes", Unsigned (service_to_child_bytes l));
     ("dns_messages", Unsigned (dns_messages l));
     ("endpoint_attempts", Unsigned (endpoint_attempts l));
     ("tls_handshake_bytes", Unsigned (tls_handshake_bytes l))].
Definition channel_value (s : AuthenticatedServiceSession) : Value :=
  wire_map
    [("protocol", wire_text "unix-stream-v1");
     ("child_descriptor", Unsigned (ChildChannelDescriptor_get (child_descriptor s)))].
Definition support_value (p : NetworkSupportPath) : Value := wire_text (NetworkSupportPath_as_str p).
Definition service_session_value (s : AuthenticatedServiceSession) : Value :=
  wire_map
    [("mode", wire_text "authenticated-service-session-v1");
     ("service", service_value s);
     ("resolver", resolver_value (ss_resolution s));
     ("tls", tls_value (ss_tls s));
     ("limits", session_limits_value (ss_limits s));
     ("connector_executable", support_value (connector_executable s));
     ("connector_runtime_read", Array (map support_value (connector_runtime_read s)));
     ("local_channel", channel_value s);
     ("credential_source", credential_value (credential_source s))].

Definition CompiledServicePolicy_wire_value (p : CompiledServicePolicy) :
    result PolicyEncodingError Value :=
  let limits := cgroup_limits (cgroup (csp_child p)) in
  m ← ok_or (memory limits) Policy.UnsupportedVersion;
  s ← ok_or (swap_limit limits) Policy.UnsupportedVersion;
  Ok (wire_map
    [("schema", wire_text POLICY_MODEL_VERSION_V2);
     ("cgroup", cgroup_value limits m s);
     ("network", wire_text "deny-network-v1");
     ("child_network", wire_text "channel-only-v1");
     ("service_session", service_session_value (csp_session p));
     ("filesystem", Array (map rule_value (rules (filesystem (csp_child p)))));
     ("environment", Array (map name_value (cp_environment (csp_child p))));
     ("no_new_privileges", Bool true)]).
Definition CompiledServicePolicy_canonical_bytes (p : CompiledServicePolicy) :
    result PolicyEncodingError (list byte) :=
  v ← CompiledServicePolicy_wire_value p; map_err (fun _ => CanonicalEncoding) (encode v).

(** [None] is a panic of [normalize_authority]. *)
Definition CompiledServicePolicy_is_no_more_permissive_than (p : CompiledServicePolicy)
    (plan : ServiceExecutionPlan) : option bool :=
  normalized ← normalize_authority (plan_authority (sp_base plan));
  match normalized with
  | Err _ => Some false
  | Ok na => Some (
      CompiledPolicy_is_no_more_permissive_than (csp_child p) na
      && AuthenticatedServiceSession_is_no_more_permissive_than (csp_session p) (service_session plan)
      && bool_decide (csp_child_network p = ChannelOnlyV1))
  end.
Definition compile_service_policy (plan : ServiceExecutionPlan) :
    option (result AuthorityError CompiledServicePolicy) :=
  normalized ← normalize_authority (plan_authority (sp_base plan));
  Some (na ← normalized;
        Ok (mkCompiledServicePolicy (compile_policy na) (service_session plan) ChannelOnlyV1)).

(** * Ranges of a session *)

Definition u16_ok (z : Z) : bool := (0 <=? z)%Z && (z <? u16_bound)%Z.
Definition support_typed (p : NetworkSupportPath) : bool := text_mirrored (path_text (support_path p)).
Definition credential_typed (c : CredentialSource) : bool :=
  text_ok (CredentialSourceId_as_str (cs_id c)) && text_ok (ServiceName_as_str (cs_service c))
  && text_mirrored (name_text (cs_environment c)).
Definition session_typed (s : AuthenticatedServiceSession) : bool :=
  text_ok (ServiceName_as_str (ss_service s)) && in_u64 (TcpPort_get (ss_port s))
  && (match ep_address (rp_endpoint (ss_resolution s)) with
      | Ipv4 b => length b =? 4 | Ipv6 b => length b =? 16 end)
  && in_u64 (TcpPort_get (ep_port (rp_endpoint (ss_resolution s))))
  && support_typed (rp_configuration (ss_resolution s))
  && in_u64 (maximum_cname_depth (ss_resolution s)) && in_u64 (maximum_answer_count (ss_resolution s))
  && in_u64 (maximum_response_bytes (ss_resolution s))
  && in_u64 (resolution_deadline_ms (ss_resolution s)) && in_u64 (attempt_deadline_ms (ss_resolution s))
  && support_typed (trust_root_set (ss_tls s))
  && in_u64 (setup_time_ms (ss_limits s)) && in_u64 (session_time_ms (ss_limits s))
  && in_u64 (child_to_service_bytes (ss_limits s)) && in_u64 (service_to_child_bytes (ss_limits s))
  && in_u64 (dns_messages (ss_limits s)) && in_u64 (endpoint_attempts (ss_limits s))
  && in_u64 (tls_handshake_bytes (ss_limits s))
  && support_typed (connector_executable s)
  && forallb support_typed (connector_runtime_read s)
  && in_u64 (Z.of_nat (length (connector_runtime_read s)))
  && in_u64 (ChildChannelDescriptor_get (child_descriptor s))
  && match credential_source s with Some c => credential_typed c | None => true end.
Definition CompiledServicePolicy_typed (p : CompiledServicePolicy) : bool :=
  CompiledPolicy_typed (csp_child p) && session_typed (csp_session p).

(** * Encodability *)

Lemma support_text p : support_typed p = true -> text_ok (NetworkSupportPath_as_str p) = true.
Proof. by intros [_ ?]%text_mirrored_spec. Qed.
Lemma support_value_encodable p : support_typed p = true -> encodable (support_value p) = true.
Proof. intros ?%support_text. by apply encodable_text. Qed.
Lemma encodable_bytes b : in_u64 (Z.of_nat (length b)) = true -> encodable (Bytes b) = true.
Proof. intros Hb. unfold encodable. cbn. by rewrite Hb. Qed.
Lemma credential_value_encodable c :
  match c with Some c => credential_typed c | None => true end = true -> encodable (credential_value c) = true.
Proof.
  destruct c as [c|]; [|done]. unfold credential_typed. intros H. split_andb.
  match goal with Hm : text_mirrored _ = true |- _ => apply text_mirrored_spec in Hm as [_ ?] end.
  unfold credential_value. solve_encodable.
Qed.
Lemma resolver_value_encodable s : session_typed s = true -> encodable (resolver_value (ss_resolution s)) = true.
Proof.
  unfold session_typed. intros H. split_andb. unfold resolver_value.
  repeat match goal with Hs : support_typed _ = true |- _ => apply support_text in Hs end.
  destruct (ep_address _) as [b|b]; cbn [address_value]; solve_encodable;
    apply encodable_bytes; match goal with Hb : (length b =? _) = true |- _ => apply Nat.eqb_eq in Hb; by rewrite Hb end.
Qed.
Lemma tls_value_encodable s : session_typed s = true -> encodable (tls_value (ss_tls s)) = true.
Proof.
  unfold session_typed. intros H. split_andb. unfold tls_value.
  repeat match goal with Hs : support_typed _ = true |- _ => apply support_text in Hs end.
  solve_encodable. by destruct (minimum_version _).
Qed.
Lemma session_value_encodable s : session_typed s = true -> encodable (service_session_value s) = true.
Proof.
  intros H. pose proof (resolver_value_encodable s H). pose proof (tls_value_encodable s H).
  unfold session_typed in H. split_andb. unfold service_session_value.
  solve_encodable; try done.
  - unfold service_value. solve_encodable.
  - unfold session_limits_value. solve_encodable.
  - by apply support_value_encodable.
  - apply encodable_Array; [by rewrite length_map|].
    by eapply forallb_map_encodable; [apply support_value_encodable|].
  - unfold channel_value. solve_encodable.
  - by apply credential_value_encodable.
Qed.
Lemma service_wire_value_encodable p v :
  CompiledServicePolicy_typed p = true -> CompiledServicePolicy_wire_value p = Ok v -> encodable v = true.
Proof.
  unfold CompiledServicePolicy_typed, CompiledServicePolicy_wire_value. intros [Hp Hs]%andb_true_iff Hv.
  apply bind_Ok in Hv as (m & Hm%ok_or_Ok & Hv). apply bind_Ok in Hv as (s & Hsw%ok_or_Ok & [= <-]).
  pose proof (session_value_encodable _ Hs). unfold CompiledPolicy_typed in Hp. split_andb.
  solve_encodable; try done.
  - by apply cgroup_value_encodable.
  - apply encodable_Array; [by rewrite length_map|].
    by eapply forallb_map_encodable; [apply rule_value_encodable|].
  - apply encodable_Array; [by rewrite length_map|].
    by eapply forallb_map_encodable; [apply name_value_encodable|].
Qed.

(** * The encoding identifies the policy *)

Lemma support_inj p q :
  support_typed p = true -> support_typed q = true ->
  NetworkSupportPath_as_str p = NetworkSupportPath_as_str q -> p = q.
Proof.
  intros [Hp _]%text_mirrored_spec [Hq _]%text_mirrored_spec Heq.
  destruct p as [[t]], q as [[u]]. do 2 f_equal. by apply AuthorityText_text_inj.
Qed.
Lemma support_value_inj p q :
  support_typed p = true -> support_typed q = true -> canon (support_value p) = canon (support_value q) -> p = q.
Proof. intros Hp Hq [= Heq]. by apply support_inj. Qed.
Lemma credential_value_inj a b :
  match a with Some c => credential_typed c | None => true end = true ->
  match b with Some c => credential_typed c | None => true end = true ->
  canon (credential_value a) = canon (credential_value b) -> a = b.
Proof.
  destruct a as [a|], b as [b|]; cbn [credential_value]; intros Ha Hb Heq; try done.
  unfold credential_typed in Ha, Hb. split_andb. canon_map_eq Heq.
  repeat match goal with Hm : text_mirrored _ = true |- _ => apply text_mirrored_spec in Hm as [Hm _] end.
  destruct a as [[] [] [t]], b as [[] [] [u]]; cbn in *. do 2 f_equal; try congruence.
  f_equal. by apply AuthorityText_text_inj.
Qed.
Lemma resolver_value_inj s t :
  session_typed s = true -> session_typed t = true ->
  canon (resolver_value (ss_resolution s)) = canon (resolver_value (ss_resolution t)) ->
  ss_resolution s = ss_resolution t.
Proof.
  intros Hs Ht Heq. unfold session_typed in Hs, Ht. split_andb. unfold resolver_value in Heq.
  destruct (ss_resolution s) as [[a [p]] c cd an rb rd ad []], (ss_resolution t) as [[a' [p']] c' cd' an' rb' rd' ad' []].
  cbn [ep_address rp_endpoint rp_configuration ep_port TcpPort_get maximum_cname_depth maximum_answer_count
    maximum_response_bytes resolution_deadline_ms attempt_deadline_ms] in *.
  destruct (address_value a) as [f b] eqn:Ha, (address_value a') as [f' b'] eqn:Ha'.
  canon_map_eq Heq. 
  match goal with H : canon (wire_map _) = canon (wire_map _) |- _ => canon_map_eq H end.
  assert (c = c') as -> by by apply support_inj.
  destruct a, a'; cbn in Ha, Ha'; simplify_eq; done.
Qed.
Lemma tls_value_inj s t :
  session_typed s = true -> session_typed t = true ->
  canon (tls_value (ss_tls s)) = canon (tls_value (ss_tls t)) -> ss_tls s = ss_tls t.
Proof.
  intros Hs Ht Heq. unfold session_typed in Hs, Ht. split_andb. unfold tls_value in Heq. canon_map_eq Heq.
  destruct (ss_tls s) as [r v [] []], (ss_tls t) as [r' v' [] []]; cbn [trust_root_set minimum_version] in *.
  assert (r = r') as -> by by apply support_inj. by destruct v, v'.
Qed.
Lemma session_value_inj s t :
  session_typed s = true -> session_typed t = true ->
  canon (service_session_value s) = canon (service_session_value t) -> s = t.
Proof.
  intros Hs Ht Heq. unfold service_session_value in Heq. canon_map_eq Heq.
  match goal with H : canon (resolver_value _) = _ |- _ => apply resolver_value_inj in H; [|done..] end.
  match goal with H : canon (tls_value _) = _ |- _ => apply tls_value_inj in H; [|done..] end.
  unfold session_typed in Hs, Ht. split_andb.
  match goal with H : canon (credential_value _) = _ |- _ => apply credential_value_inj in H; [|done..] end.
  match goal with H : canon (support_value _) = _ |- _ => apply support_value_inj in H; [|done..] end.
  match goal with H : _ = map canon (map support_value _) |- _ =>
    apply (canon_array_map_inj support_value support_typed) in H; [|apply support_value_inj|done..] end.
  match goal with H : canon (service_value _) = _ |- _ => unfold service_value in H; canon_map_eq H end.
  match goal with H : canon (session_limits_value _) = _ |- _ => unfold session_limits_value in H; canon_map_eq H end.
  match goal with H : canon (channel_value _) = _ |- _ => unfold channel_value in H; canon_map_eq H end.
  destruct s as [[] [] ? ? [] ? ? [] [] ?], t as [[] [] ? ? [] ? ? [] [] ?]; cbn in *; congruence.
Qed.

(** * From plan bytes to policy bytes *)

Lemma segments_valid r l w x e :
  Forall valid_path r -> Forall valid_path l -> Forall valid_path w -> Forall valid_path x ->
  e ∈ plan_segments r l w x -> valid_path (pa_path e).
Proof.
  rewrite !Forall_forall. intros Hr Hl Hw Hx He. unfold plan_segments, entries in He.
  rewrite !elem_of_app in He. change (map ?f ?k) with (f <$> k) in He. rewrite !list_elem_of_fmap in He.
  destruct He as [(q & -> & ?)|[(q & -> & ?)|[(q & -> & ?)|(q & -> & ?)]]]; cbn; auto.
Qed.
Lemma plan_path_valid p e : plan_ok p -> e ∈ plan_paths (plan_authority p) -> valid_path (pa_path e).
Proof.
  intros [_ [Hx _ _] (r & l & w & -> & Hr & Hl & Hw & _) _ _]. apply segments_valid; auto.
Qed.
Lemma plan_authority_ok p : plan_ok p -> AuthorityPlan_ok (plan_authority p).
Proof.
  intros Hp. split; apply Forall_forall.
  - intros e He. eapply AuthorityPath_new_ok, plan_path_valid; eauto.
  - intros n Hn. pose proof (ok_environment p Hp) as Hall. rewrite Forall_forall in Hall.
    eapply EnvironmentName_new_ok, Hall, Hn.
Qed.

Lemma typed_canon v : typed (canon v) = typed v.
Proof.
  induction v as [z|z|b|s|vs IH|kvs IH|b|] using Value_rec_full; cbn; try done.
  - rewrite length_map. f_equal. clear -IH. induction IH as [|v vs Hv _ IHvs]; cbn; [done|]. by rewrite Hv, IHvs.
  - assert (Hp := sort_by_Permutation (fun l r : string * Value => key_lt l.1 r.1)
      (map (fun kv : string * Value => (kv.1, canon kv.2)) kvs)).
    rewrite (Permutation_length Hp), length_map, (forallb_Permutation _ _ _ Hp). f_equal.
    clear -IH. induction IH as [|v vs Hv _ IHvs]; cbn; [done|]. by rewrite Hv, IHvs.
Qed.
Lemma item_count_text_array l : item_count (text_array l) = (1 + Z.of_nat (length l))%Z.
Proof.
  unfold text_array. cbn [item_count]. f_equal. rewrite map_map. cbn.
  unfold WireV2.sum_list. induction l as [|s l IH]; cbn [map foldr length]; lia.
Qed.

Lemma text_array_typed l : typed (text_array l) = true -> Forall (fun s => text_ok s = true) l.
Proof.
  unfold text_array. cbn. intros [_ H]%andb_true_iff. apply forallb_Forall' in H.
  by apply (Forall_fmap Text) in H.
Qed.
(** A field of a typed map is typed. *)
Lemma typed_field k v fs : (k, v) ∈ fs -> typed (Map fs) = true -> typed v = true.
Proof.
  intros Hin. cbn. intros [_ H]%andb_true_iff. apply forallb_Forall' in H. rewrite Forall_forall in H.
  specialize (H _ Hin). by apply andb_true_iff in H as [_ ?].
Qed.
Ltac field_typed H := eapply typed_field; [|exact H]; rewrite !elem_of_cons; tauto.

Record accepted_ranges (p : ExecutionPlan) : Prop := {
  ar_paths : forall e, e ∈ plan_paths (plan_authority p) -> text_ok (AuthorityPath_as_str (pa_path e)) = true;
  ar_names : forall n, n ∈ plan_environment (plan_authority p) -> text_ok (EnvironmentName_as_str n) = true;
  ar_count : (Z.of_nat (length (plan_paths (plan_authority p)))
    + Z.of_nat (length (plan_environment (plan_authority p))) <= MAX_ITEMS)%Z;
  ar_limits : ResourceLimits_typed (plan_limits (plan_authority p)) = true
}.
Lemma limits_typed l : limits_ok l -> typed (limits_value l) = true -> ResourceLimits_typed l = true.
Proof.
  intros (_ & _ & m & s & Hm & Hs & _) Hl. unfold limits_value in Hl. rewrite Hm, Hs in Hl.
  cbn in Hl. split_andb. unfold ResourceLimits_typed. rewrite Hm, Hs. by split_andb.
Qed.
Lemma accepted_plan_ranges network p :
  plan_ok p -> value_ok (canon (plan_value network p)) = true ->
  (item_count (canon (plan_value network p)) <= MAX_ITEMS)%Z -> accepted_ranges p.
Proof.
  intros Hp (Hty & _ & _)%value_ok_canon Hcount. rewrite typed_canon in Hty. rewrite item_count_canon in Hcount.
  destruct (ok_paths p Hp) as (r & l & w & Hpaths & _).
  assert (Ha : typed (authority_value network (plan_authority p)) = true) by (unfold plan_value in Hty; field_typed Hty).
  assert (Hl : typed (limits_value (plan_limits (plan_authority p))) = true) by (unfold plan_value in Hty; field_typed Hty).
  unfold authority_value in Ha. rewrite Hpaths in Ha.
  destruct (path_texts_segments r l [w] [ec_executable (plan_command p)]) as (E1 & E2 & E3 & E4).
  rewrite E1, E2, E3, E4 in Ha.
  assert (Hr : Forall (fun s => text_ok s = true) (map AuthorityPath_as_str r)) by (apply text_array_typed; field_typed Ha).
  assert (Hlib : Forall (fun s => text_ok s = true) (map AuthorityPath_as_str l)) by (apply text_array_typed; field_typed Ha).
  assert (Hw : Forall (fun s => text_ok s = true) (map AuthorityPath_as_str [w])) by (apply text_array_typed; field_typed Ha).
  assert (Hx : Forall (fun s => text_ok s = true) (map AuthorityPath_as_str [ec_executable (plan_command p)]))
    by (apply text_array_typed; field_typed Ha).
  assert (He : Forall (fun s => text_ok s = true) (map EnvironmentName_as_str (plan_environment (plan_authority p))))
    by (apply text_array_typed; field_typed Ha).
  split.
  - rewrite Hpaths. intros e Hin. unfold plan_segments, entries in Hin.
    apply (Forall_fmap AuthorityPath_as_str) in Hr, Hlib, Hw, Hx. rewrite Forall_forall in Hr, Hlib, Hw, Hx.
    rewrite !elem_of_app in Hin. change (map ?f ?k) with (f <$> k) in Hin. rewrite !list_elem_of_fmap in Hin.
    destruct Hin as [(q & -> & ?)|[(q & -> & ?)|[(q & -> & ?)|(q & -> & ?)]]]; cbn [pa_path]; [apply Hr|apply Hlib|apply Hw|apply Hx]; done.
  - intros n Hn. apply (Forall_fmap EnvironmentName_as_str) in He. rewrite Forall_forall in He. by apply He.
  - unfold plan_value, authority_value in Hcount. rewrite Hpaths, E1, E2, E3, E4 in Hcount.
    rewrite Hpaths. unfold plan_segments, entries. rewrite !length_app, !length_map. cbn [length].
    remember (command_value (plan_command p)) as cv. remember (limits_value (plan_limits (plan_authority p))) as lv.
    pose proof (item_count_pos [] cv). pose proof (item_count_pos [] lv). pose proof (item_count_pos [] network).
    cbn [item_count map snd] in Hcount. rewrite !item_count_text_array, !length_map in Hcount.
    unfold WireV2.sum_list in Hcount. cbn [foldr length item_count] in Hcount. lia.
  - apply limits_typed; [apply (ok_limits p Hp)|done].
Qed.

(** The compiled policy of an accepted plan is in the ranges of its types. *)
Lemma compiled_typed p ps env :
  plan_ok p -> accepted_ranges p ->
  StronglySorted (fun a b => rlt a b = true) ps -> (forall x, x ∈ ps <-> x ∈ plan_paths (plan_authority p)) ->
  StronglySorted (fun a b => rlt a b = true) env ->
  (forall x, x ∈ env <-> x ∈ plan_environment (plan_authority p)) ->
  CompiledPolicy_typed (compile_policy (mkNormalizedAuthority ps env
    (plan_limits (plan_authority p)) (plan_network (plan_authority p)))) = true.
Proof.
  intros Hp [Hpaths Hnames Hcount Hlimits] Hsp Hps Hse Henv.
  destruct (plan_authority_ok p Hp) as [Hap Hae]. rewrite Forall_forall in Hap. rewrite Forall_forall in Hae.
  assert (Hlp : length ps <= length (plan_paths (plan_authority p))).
  { apply submseteq_length, NoDup_submseteq; [by apply strict_NoDup|]. intros x. apply Hps. }
  assert (Hle : length env <= length (plan_environment (plan_authority p))).
  { apply submseteq_length, NoDup_submseteq; [by apply strict_NoDup|]. intros x. apply Henv. }
  unfold CompiledPolicy_typed, compile_policy. cbn [NormalizedAuthority_into_parts filesystem rules cp_environment cgroup cgroup_limits paths environment limits network].
  split_andb; cbn; try done.
  - apply forallb_Forall', Forall_forall. intros e He%Hps. unfold text_mirrored. split_andb; [|by apply Hpaths].
    apply bool_decide_eq_true, (Hap e He).
  - apply forallb_Forall', Forall_forall. intros n Hn%Henv. unfold text_mirrored. split_andb; [|by apply Hnames].
    apply bool_decide_eq_true, (Hae n Hn).
  - apply in_u64_spec. unfold u64_bound, MAX_ITEMS in *. lia.
  - apply in_u64_spec. unfold u64_bound, MAX_ITEMS in *. lia.
Qed.

(** * Properties *)

(** C25: from accepted plan bytes to policy bytes nothing can fail and nothing is
    gained.  For every plan the execution entry point accepts, normalization and
    compilation do not panic, the canonical encoding succeeds, the policy grants
    exactly the plan's path authorities, names and limits, and its own test
    against the normalized authority passes; and plans with the same policy bytes
    grant the same authority. *)
Theorem plan_to_policy {T : Toml} (input : list byte) (p : ExecutionPlan)
    (H : parse_execution_plan_for_execution input = Ok p) :
  exists na bytes,
    normalize_authority (plan_authority p) = Some (Ok na)
    /\ CompiledPolicy_canonical_bytes (compile_policy na) = Some (Ok bytes)
    /\ CompiledPolicy_is_no_more_permissive_than (compile_policy na) na = true
    /\ (forall r, r ∈ rules (filesystem (compile_policy na)) <-> r ∈ plan_paths (plan_authority p))
    /\ (forall n, n ∈ cp_environment (compile_policy na) <-> n ∈ plan_environment (plan_authority p))
    /\ cgroup_limits (cgroup (compile_policy na)) = plan_limits (plan_authority p)
    /\ (forall input' p' na', parse_execution_plan_for_execution input' = Ok p' ->
          normalize_authority (plan_authority p') = Some (Ok na') ->
          CompiledPolicy_canonical_bytes (compile_policy na') = Some (Ok bytes) -> na' = na).
Proof.
  assert (Hgen : forall input p, parse_execution_plan_for_execution input = Ok p ->
    exists ps env, let na := mkNormalizedAuthority ps env (plan_limits (plan_authority p)) (plan_network (plan_authority p)) in
      normalize_authority (plan_authority p) = Some (Ok na)
      /\ (forall x, x ∈ ps <-> x ∈ plan_paths (plan_authority p))
      /\ (forall x, x ∈ env <-> x ∈ plan_environment (plan_authority p))
      /\ CompiledPolicy_typed (compile_policy na) = true
      /\ is_version_two (plan_limits (plan_authority p)) = true).
  { clear. intros input p H. unfold parse_execution_plan_for_execution in H.
    destruct (legacy_plan input); [done|]. apply bind_Ok in H as (parsed & Hp & H).
    apply contract_inv in Hp as (v & Hv & (nv & q & n & _ & Hq & Heq & ->)%parse_root_inv).
    destruct n; [|done]. injection H as <-. apply decode_iff in Hv as (Hok & Hl & _).
    apply value_ok_eqv in Heq; [|done]. subst v. apply within_limits_spec in Hl as (_ & Hcount & _).
    pose proof (accepted_plan_ranges nv q Hq Hok Hcount) as Hr.
    destruct (normalize_authority_spec _ (plan_authority_ok q Hq)) as (ps & env & Hn & Hsp & Hps & Hse & Henv).
    exists ps, env. split; [done|]. split; [done|]. split; [done|]. split; [by apply compiled_typed|].
    apply is_version_two_spec. destruct (ok_limits q Hq) as (_ & _ & m & s & ? & ? & _). eauto. }
  destruct (Hgen input p H) as (ps & env & Hn & Hps & Henv & Hty & Hv2).
  destruct (canonical_bytes_typed _ Hty Hv2) as (v & Hv & _ & Hb).
  eexists _, _. split; [exact Hn|]. split; [exact Hb|]. split.
  { apply CompiledPolicy_no_more_spec. split; [done|]. split; [done|]. apply no_more_refl. }
  split; [exact Hps|]. split; [exact Henv|]. split; [done|].
  intros input' p' na' H' Hn' Hb'. destruct (Hgen input' p' H') as (ps' & env' & Hn2 & _ & _ & Hty' & _).
  rewrite Hn2 in Hn'. injection Hn' as <-.
  pose proof (compiled_bytes_inj _ _ _ Hty' Hty Hb' Hb) as Heq.
  unfold compile_policy in Heq. cbn in Heq. injection Heq as -> -> Hlim. by rewrite Hlim; destruct (plan_network _), (plan_network _).
Qed.
Lemma plan_to_policy_witness :
  exists p na, @parse_execution_plan_for_execution no_toml Vectors.execution_plan = Ok p
    /\ normalize_authority (plan_authority p) = Some (Ok na)
    /\ CompiledPolicy_canonical_bytes (compile_policy na) = Some (Ok Vectors.compiled_policy).
Proof.
  destruct (@parse_execution_plan_for_execution no_toml Vectors.execution_plan) as [p|e] eqn:H;
    [|vm_compute in H; discriminate H].
  destruct (@plan_to_policy no_toml Vectors.execution_plan p H) as (na & bytes & Hn & Hb & _).
  exists p, na. split; [reflexivity|]. split; [exact Hn|].
  vm_compute in H. injection H as <-. vm_compute in Hn. injection Hn as <-. vm_compute. reflexivity.
Defined.

(** Compilation of a service plan never amplifies.  For a well-formed base
    plan it succeeds; the policy keeps the declared session unchanged, denies the
    child every network but the registered channel, and passes its test against
    the plan; and whatever policy passes that test grants only path authorities
    and names of the plan, limits within the plan's and a session that attenuates
    the plan's. *)
Theorem service_policy_no_amplification (plan : ServiceExecutionPlan)
    (Hp : plan_ok (sp_base plan)) :
  (exists p, compile_service_policy plan = Some (Ok p)
     /\ CompiledServicePolicy_is_no_more_permissive_than p plan = Some true
     /\ csp_session p = service_session plan /\ csp_child_network p = ChannelOnlyV1
     /\ cp_network (csp_child p) = DenyNetworkV1
     /\ (forall r, r ∈ rules (filesystem (csp_child p)) <-> r ∈ plan_paths (plan_authority (sp_base plan))))
  /\ (forall q, CompiledServicePolicy_is_no_more_permissive_than q plan = Some true ->
       rules (filesystem (csp_child q)) ⊆ plan_paths (plan_authority (sp_base plan))
       /\ cp_environment (csp_child q) ⊆ plan_environment (plan_authority (sp_base plan))
       /\ ResourceLimits_is_no_more_permissive_than (cgroup_limits (cgroup (csp_child q)))
            (plan_limits (plan_authority (sp_base plan))) = true
       /\ AuthenticatedServiceSession_is_no_more_permissive_than (csp_session q) (service_session plan) = true).
Proof.
  destruct (normalize_authority_spec _ (plan_authority_ok _ Hp)) as (ps & env & Hn & _ & Hps & _ & Henv).
  unfold compile_service_policy, CompiledServicePolicy_is_no_more_permissive_than. rewrite Hn.
  cbn [mbind option_bind result_bind]. split.
  - eexists. split; [reflexivity|]. cbn [csp_child csp_session csp_child_network]. split.
    + f_equal. split_andb; [|apply no_more_refl|done]. apply CompiledPolicy_no_more_spec.
      split; [done|]. split; [done|]. apply no_more_refl.
    + split; [done|]. split; [done|]. split; [done|]. exact Hps.
  - intros q [= H]. split_andb.
    match goal with Hc : CompiledPolicy_is_no_more_permissive_than _ _ = true |- _ =>
      apply CompiledPolicy_no_more_spec in Hc as (Hr & He & Hl) end. cbn in Hr, He, Hl.
    split; [intros x Hx; by apply Hps, Hr|]. split; [intros x Hx; by apply Henv, He|]. done.
Qed.
Definition golden_service_plan : option ServiceExecutionPlan :=
  result_ok (parse_service_execution_plan Vectors.execution_plan_service_session).
(** The golden plan compiles to the golden policy bytes, within the ranges. *)
Definition golden_service_check (plan : ServiceExecutionPlan) : bool :=
  match compile_service_policy plan with
  | Some (Ok p) => CompiledServicePolicy_typed p
      && bool_decide (CompiledServicePolicy_canonical_bytes p = Ok Vectors.compiled_policy_service_session)
  | _ => false
  end.
Lemma golden_service_checks :
  match golden_service_plan with Some plan => golden_service_check plan | None => false end = true.
Proof. vm_compute. reflexivity. Qed.
Lemma service_base_ok input sp : parse_service_execution_plan input = Ok sp -> plan_ok (sp_base sp).
Proof.
  intros H. unfold parse_service_execution_plan in H. apply bind_Ok in H as (parsed & Hp & H).
  apply contract_inv in Hp as (v & _ & (nv & q & n & _ & Hq & _ & ->)%parse_root_inv).
  destruct n; [done|]. injection H as <-. exact Hq.
Qed.
Lemma golden_service_plan_ok plan : golden_service_plan = Some plan -> plan_ok (sp_base plan).
Proof. unfold golden_service_plan. intros H%result_ok_Some. exact (service_base_ok _ _ H). Qed.
Lemma service_policy_no_amplification_witness :
  exists plan p, golden_service_plan = Some plan
    /\ compile_service_policy plan = Some (Ok p)
    /\ CompiledServicePolicy_is_no_more_permissive_than p plan = Some true
    /\ CompiledServicePolicy_canonical_bytes p = Ok Vectors.compiled_policy_service_session.
Proof.
  pose proof golden_service_checks as Hcheck.
  destruct golden_service_plan as [plan|] eqn:H; [|discriminate Hcheck].
  destruct (service_policy_no_amplification plan (golden_service_plan_ok plan H)) as [(p & Hc & Hm & _) _].
  exists plan, p. split; [reflexivity|]. split; [exact Hc|]. split; [exact Hm|].
  unfold golden_service_check in Hcheck. rewrite Hc in Hcheck.
  apply andb_true_iff in Hcheck as [_ Hbytes]. exact (bool_decide_eq_true_1 _ Hbytes).
Defined.

(** The canonical bytes of a service policy.  For every policy in the ranges
    of its types the encoding either refuses a version 1 limit set or succeeds,
    never failing as [CanonicalEncoding], and two policies with the same bytes
    agree on the child rules, names, limits and on the whole session. *)
Theorem service_policy_bytes_identify (p q : CompiledServicePolicy)
    (Hp : CompiledServicePolicy_typed p = true) (Hq : CompiledServicePolicy_typed q = true) :
  (CompiledServicePolicy_canonical_bytes p = Err Policy.UnsupportedVersion
     <-> is_version_two (cgroup_limits (cgroup (csp_child p))) = false)
  /\ CompiledServicePolicy_canonical_bytes p <> Err CanonicalEncoding
  /\ (forall bytes, CompiledServicePolicy_canonical_bytes p = Ok bytes ->
        CompiledServicePolicy_canonical_bytes q = Ok bytes -> p = q).
Proof.
  assert (Hen : forall r v, CompiledServicePolicy_typed r = true -> CompiledServicePolicy_wire_value r = Ok v ->
    encode v = Ok (wire (canon v))).
  { intros r v Hr Hv. by apply encodable_encode, (service_wire_value_encodable r). }
  assert (Hv2 : is_version_two (cgroup_limits (cgroup (csp_child p))) = false <->
    CompiledServicePolicy_wire_value p = Err Policy.UnsupportedVersion).
  { rewrite <- not_true_iff_false, is_version_two_spec. unfold CompiledServicePolicy_wire_value.
    destruct (memory _) as [m|], (swap_limit _) as [s|]; cbn; split; try done; intros Hn.
    - exfalso. apply Hn. eauto.
    - by intros (? & ? & ? & ?).
    - by intros (? & ? & ? & ?).
    - by intros (? & ? & ? & ?). }
  unfold CompiledServicePolicy_canonical_bytes. split; [|split].
  - rewrite Hv2. destruct (CompiledServicePolicy_wire_value p) as [v|e] eqn:Hv; cbn.
    + rewrite (Hen p v Hp Hv). by split.
    + split; by intros [= ->].
  - destruct (CompiledServicePolicy_wire_value p) as [v|e] eqn:Hv; cbn; [by rewrite (Hen p v Hp Hv)|].
    unfold CompiledServicePolicy_wire_value in Hv. intros [= ->].
    destruct (memory _), (swap_limit _); cbn in Hv; done.
  - intros bytes Hpb Hqb. apply bind_Ok in Hpb as (v & Hv & Hpb%map_err_Ok).
    apply bind_Ok in Hqb as (w & Hw & Hqb%map_err_Ok).
    pose proof (service_wire_value_encodable p v Hp Hv) as [Htv _]%andb_true_iff.
    pose proof (service_wire_value_encodable q w Hq Hw) as [Htw _]%andb_true_iff.
    pose proof (encode_canon_inj v w bytes Htv Htw Hpb Hqb) as Heq.
    unfold CompiledServicePolicy_wire_value in Hv, Hw.
    apply bind_Ok in Hv as (m & Hm%ok_or_Ok & Hv). apply bind_Ok in Hv as (s & Hs%ok_or_Ok & [= <-]).
    apply bind_Ok in Hw as (m' & Hm'%ok_or_Ok & Hw). apply bind_Ok in Hw as (s' & Hs'%ok_or_Ok & [= <-]).
    canon_map_eq Heq. unfold CompiledServicePolicy_typed, CompiledPolicy_typed in Hp, Hq. split_andb.
    match goal with H : canon (service_session_value _) = _ |- _ => apply session_value_inj in H; [|assumption..] end.
    match goal with H : canon (cgroup_value _ _ _) = _ |- _ => eapply cgroup_value_inj in H; [|eassumption..] end.
    match goal with H : _ = map canon (map rule_value _) |- _ =>
      eapply (canon_array_map_inj rule_value) in H; [|apply rule_value_inj|assumption..] end.
    match goal with H : _ = map canon (map name_value _) |- _ =>
      eapply (canon_array_map_inj name_value) in H; [|apply name_value_inj|assumption..] end.
    destruct p as [[[?] ? [] [?] []] ? []], q as [[[?] ? [] [?] []] ? []]; cbn in *; congruence.
Qed.
Lemma service_policy_bytes_identify_witness :
  exists plan p, golden_service_plan = Some plan /\ compile_service_policy plan = Some (Ok p)
    /\ CompiledServicePolicy_typed p = true
    /\ forall bytes, CompiledServicePolicy_canonical_bytes p = Ok bytes ->
         CompiledServicePolicy_canonical_bytes p = Ok bytes -> p = p.
Proof.
  pose proof golden_service_checks as Hcheck.
  destruct golden_service_plan as [plan|] eqn:H; [|discriminate Hcheck].
  unfold golden_service_check in Hcheck.
  destruct (compile_service_policy plan) as [[p|]|] eqn:Hc; try discriminate Hcheck.
  apply andb_true_iff in Hcheck as [Hp _].
  exists plan, p. split; [reflexivity|]. split; [exact Hc|]. split; [exact Hp|].
  exact (proj2 (proj2 (service_policy_bytes_identify p p Hp Hp))).
Defined.
