(* ===== verification/Receipt.v ===== *)
(** Execution receipts: their construction, eligibility and canonical bytes in
    [proofbound-runtime-core/src/receipt.rs], and the field binding of
    [proofbound-runtime-binding/src/lib.rs] that the bytes pass through.

    Version 2 receipts are deterministic CBOR; version 1 receipts are JSON, whose
    value type and printer are the class [SerdeJson].  A derived [Serialize] is
    the object of the fields in their order. *)
From S2P Require Import Prelude Authority Identity WireV2 WireMaps Eligibility.
From S2P Require Policy Plan VerifyDecode.
From Stdlib Require Import Ascii ZArith Lia Sorted.
From stdpp Require Import prelude strings list numbers.
Export stdpp.list_relations.list.
Import Eligibility.Producer.


(** * Errors *)

Inductive ReceiptArtifactField :=
| Field_PlanSource | Field_NormalizedPlan | Field_Policy | Field_Runtime | Field_Launcher
| Field_Executable | Field_Loader | Field_WorkingDirectory | Field_Input | Field_OutputRoot
| Field_StandardOutput | Field_StandardError | Field_Output | Field_Producer.
Inductive ReceiptIdentityField := Identity_Execution | Identity_Policy | Identity_Producer.
#[global] Instance ReceiptArtifactField_eq_dec : EqDecision ReceiptArtifactField.
Proof. solve_decision. Defined.
#[global] Instance ReceiptIdentityField_eq_dec : EqDecision ReceiptIdentityField.
Proof. solve_decision. Defined.

Inductive ReceiptError :=
| InvalidExecutionId | InvalidPlatform | EmptyText | DuplicateSetValue | DuplicateArtifact
| RoleMismatch (field : ReceiptArtifactField)
| IdentityMismatch (field : ReceiptIdentityField)
| ObservationOrder | TrustedComputingBaseEmpty | AssumptionMissing | ResourceProfileIncomplete
| ConfiguredResourcesInvalid | TrustedComputingBaseRoleMissing | CanonicalEncoding.
#[global] Instance ReceiptError_eq_dec : EqDecision ReceiptError.
Proof. solve_decision. Defined.
Definition ReceiptError_code (e : ReceiptError) : string :=
  match e with
  | InvalidExecutionId => "receipt.execution-id.invalid"
  | InvalidPlatform => "receipt.platform.invalid"
  | EmptyText => "receipt.text.empty"
  | DuplicateSetValue => "receipt.set.duplicate"
  | DuplicateArtifact => "receipt.artifact.duplicate"
  | RoleMismatch _ => "receipt.role.mismatch"
  | IdentityMismatch Identity_Execution => "receipt.identity.execution-mismatch"
  | IdentityMismatch Identity_Policy => "receipt.identity.policy-mismatch"
  | IdentityMismatch Identity_Producer => "receipt.identity.producer-mismatch"
  | ObservationOrder => "receipt.observation.order"
  | TrustedComputingBaseEmpty => "receipt.tcb.empty"
  | AssumptionMissing => "receipt.assumption.missing"
  | ResourceProfileIncomplete => "receipt.resources.incomplete"
  | ConfiguredResourcesInvalid => "receipt.resources.configured-invalid"
  | TrustedComputingBaseRoleMissing => "receipt.tcb.role.missing"
  | CanonicalEncoding => "receipt.canonical.encoding-failed"
  end.

Definition EXECUTION_RECEIPT_SCHEMA : string := "proofbound-runtime-receipt/1".
Definition EXECUTION_RECEIPT_V2_SCHEMA : string := "proofbound-runtime-execution-receipt/2".
Definition POLICY_MODEL_VERSION : string := "proofbound-runtime-linux-policy/1".
Definition POLICY_MODEL_VERSION_V2 : string := "proofbound-runtime-linux-policy/2".
Definition REQUIRED_RUNTIME_ASSUMPTIONS : list string :=
  ["PBR-HOST-AX-002"; "PBR-LINUX-AX-001"; "PBR-TOOLCHAIN-AX-003"].
(** [env!("CARGO_PKG_VERSION")]: the workspace version. *)
Definition CARGO_PKG_VERSION : string := "0.2.0".

(** * Shared checks *)

Definition require_role (artifact : ArtifactIdentity) (expected : ArtifactRole)
    (field : ReceiptArtifactField) : result ReceiptError () :=
  if bool_decide (role artifact = expected) then Ok () else Err (RoleMismatch field).
(** [for artifact in artifacts { require_role(..)?; }] *)
Fixpoint require_roles (artifacts : list ArtifactIdentity) (expected : ArtifactRole)
    (field : ReceiptArtifactField) : result ReceiptError () :=
  match artifacts with
  | [] => Ok ()
  | artifact :: artifacts =>
    _ ← require_role artifact expected field; require_roles artifacts expected field
  end.
Fixpoint require_input_roles (artifacts : list ArtifactIdentity) : result ReceiptError () :=
  match artifacts with
  | [] => Ok ()
  | artifact :: artifacts =>
    if negb (bool_decide (role artifact = ProjectInput \/ role artifact = RuntimeLibrary))
    then Err (RoleMismatch Field_Input) else require_input_roles artifacts
  end.
Definition adjacent_equal {A} `{EqDecision A} (values : list A) : bool :=
  windows_any (fun a b => bool_decide (a = b)) values.
Definition reject_duplicate_artifacts (values : list ArtifactIdentity) : result ReceiptError () :=
  if adjacent_equal values then Err DuplicateArtifact else Ok ().
Definition reject_duplicates {A} `{EqDecision A} (values : list A) : result ReceiptError () :=
  if adjacent_equal values then Err DuplicateSetValue else Ok ().
Definition canonical_string_set (values : list string) : result ReceiptError (list string) :=
  if existsb (fun value => bool_decide (value = "")) values then Err EmptyText
  else
    let values := Prelude.sort values in
    _ ← reject_duplicates values; Ok values.

(** * Data *)

(** [[u8; 16]] *)
Record ExecutionId := mkExecutionId { ExecutionId_as_bytes : list byte }.
#[global] Instance ExecutionId_eq_dec : EqDecision ExecutionId.
Proof. solve_decision. Defined.
Definition ExecutionId_from_bytes (bytes : list byte) : result ReceiptError ExecutionId :=
  let at_index (i : nat) := bval (nth i bytes "000"%char) in
  if negb (Z.land (at_index 6%nat) 0xf0 =? 0x40)%Z || negb (Z.land (at_index 8%nat) 0xc0 =? 0x80)%Z
  then Err InvalidExecutionId else Ok (mkExecutionId bytes).
Definition ExecutionId_to_text (id : ExecutionId) : string :=
  String.string_of_list_ascii (concat (imap (fun index byte =>
    (if bool_decide (index = 4 \/ index = 6 \/ index = 8 \/ index = 10) then ["-"%char] else [])
    ++ hex_pair byte) (ExecutionId_as_bytes id))).

Inductive Architecture := X86_64 | Aarch64.
Definition Architecture_as_str (a : Architecture) : string :=
  match a with X86_64 => "x86_64" | Aarch64 => "aarch64" end.

Record ReceiptPlan := mkReceiptPlan {
  rp_id : Plan.PlanId;
  rp_source : ArtifactIdentity;
  rp_normalized : ArtifactIdentity;
  rp_normalized_limits : option ResourceLimits
}.
Definition ReceiptPlan_new (id : Plan.PlanId) (source normalized : ArtifactIdentity) :
    result ReceiptError ReceiptPlan :=
  _ ← require_role source ExecutionPlan Field_PlanSource;
  _ ← require_role normalized NormalizedPlan Field_NormalizedPlan;
  Ok (mkReceiptPlan id source normalized None).
Definition ReceiptPlan_new_v2 (id : Plan.PlanId) (source normalized : ArtifactIdentity)
    (normalized_limits : ResourceLimits) : result ReceiptError ReceiptPlan :=
  if negb (is_version_two normalized_limits) then Err ResourceProfileIncomplete
  else
    plan ← ReceiptPlan_new id source normalized;
    Ok (mkReceiptPlan (rp_id plan) (rp_source plan) (rp_normalized plan) (Some normalized_limits)).

Record ReceiptPolicy := mkReceiptPolicy { rpol_identity : ArtifactIdentity }.
Definition ReceiptPolicy_new (identity : ArtifactIdentity) : result ReceiptError ReceiptPolicy :=
  _ ← require_role identity CompiledPolicy Field_Policy; Ok (mkReceiptPolicy identity).

Record PlatformIdentity := mkPlatformIdentity {
  pf_architecture : Architecture;
  pf_kernel_release : string;
  pf_landlock_abi : Z;
  pf_seccomp_features : list string;
  pf_cgroup_controllers : list string
}.
Definition PlatformIdentity_new (architecture : Architecture) (kernel_release : string)
    (landlock_abi : Z) (seccomp_features cgroup_controllers : list string) :
    result ReceiptError PlatformIdentity :=
  if bool_decide (kernel_release = "") || (landlock_abi =? 0)%Z then Err InvalidPlatform
  else
    seccomp_features ← canonical_string_set seccomp_features;
    cgroup_controllers ← canonical_string_set cgroup_controllers;
    Ok (mkPlatformIdentity architecture kernel_release landlock_abi seccomp_features
          cgroup_controllers).

Record RuntimeIdentity := mkRuntimeIdentity { ri_runtime : ArtifactIdentity; ri_launcher : ArtifactIdentity }.
Definition RuntimeIdentity_new (runtime launcher : ArtifactIdentity) :
    result ReceiptError RuntimeIdentity :=
  _ ← require_role runtime RuntimeBinary Field_Runtime;
  _ ← require_role launcher LauncherBinary Field_Launcher;
  Ok (mkRuntimeIdentity runtime launcher).

Record ReceiptCommand := mkReceiptCommand {
  rc_executable : ArtifactIdentity;
  rc_loader : option ArtifactIdentity;
  rc_working_directory : ArtifactIdentity;
  rc_arguments_sha256 : Sha256Digest
}.
Definition ReceiptCommand_new (executable : ArtifactIdentity) (loader : option ArtifactIdentity)
    (working_directory : ArtifactIdentity) (arguments_sha256 : Sha256Digest) :
    result ReceiptError ReceiptCommand :=
  _ ← require_role executable RuntimeExecutable Field_Executable;
  _ ← match loader with
      | Some loader => require_role loader RuntimeLoaderExecutable Field_Loader
      | None => Ok ()
      end;
  _ ← require_role working_directory WorkingDirectory Field_WorkingDirectory;
  Ok (mkReceiptCommand executable loader working_directory arguments_sha256).

Record CgroupIdentity := mkCgroupIdentity { cg_mount_id : Z; cg_inode : Z }.
Record BoundaryRecord := mkBoundaryRecord {
  br_state : BoundaryInstallation;
  br_execution_id : ExecutionId;
  br_policy_sha256 : Sha256Digest;
  br_cgroup : CgroupIdentity
}.

Record ExecutionObservations := mkExecutionObservations { eo_started_ns : Z; eo_finished_ns : Z }.
Definition ExecutionObservations_new (started_ns finished_ns : Z) :
    result ReceiptError ExecutionObservations :=
  if (finished_ns <? started_ns)%Z then Err ObservationOrder
  else Ok (mkExecutionObservations started_ns finished_ns).

Record ReceiptMemoryEvents := mkReceiptMemoryEvents {
  me_low : Z; me_high : Z; me_max : Z; me_oom : Z; me_oom_kill : Z; me_oom_group_kill : Z
}.
Record ReceiptSwapEvents := mkReceiptSwapEvents { se_max : Z; se_fail : Z }.
Record ReceiptConfiguredResources := mkReceiptConfiguredResources {
  cr_processes : ProcessLimit;
  cr_memory : MemoryByteLimit;
  cr_swap : SwapByteLimit;
  cr_memory_oom_group : Z
}.
Definition ReceiptConfiguredResources_new (p : ProcessLimit) (m : MemoryByteLimit)
    (s : SwapByteLimit) (memory_oom_group : Z) : result ReceiptError ReceiptConfiguredResources :=
  if negb (memory_oom_group =? 1)%Z then Err ConfiguredResourcesInvalid
  else Ok (mkReceiptConfiguredResources p m s memory_oom_group).

Record ReceiptResources := mkReceiptResources {
  rr_processes : ProcessLimit;
  rr_memory : MemoryByteLimit;
  rr_swap : SwapByteLimit;
  rr_memory_oom_group : Z;
  rr_memory_peak_bytes : Z;
  rr_swap_peak_bytes : Z;
  rr_memory_events : ReceiptMemoryEvents;
  rr_swap_events : ReceiptSwapEvents;
  rr_limit_events : LimitEvents;
  rr_observations_complete : bool
}.
(** The loop over the seven counters. *)
Definition observed_limit_events (m : ReceiptMemoryEvents) (s : ReceiptSwapEvents) : list LimitEvent :=
  foldl (fun events (pe : bool * LimitEvent) => if pe.1 then events ++ [pe.2] else events) []
    [(negb (me_high m =? 0)%Z, LimitEvent_MemoryHigh);
     (negb (me_max m =? 0)%Z, LimitEvent_MemoryMax);
     (negb (me_oom m =? 0)%Z, LimitEvent_MemoryOom);
     (negb (me_oom_kill m =? 0)%Z, LimitEvent_MemoryOomKill);
     (negb (me_oom_group_kill m =? 0)%Z, LimitEvent_MemoryOomGroupKill);
     (negb (se_max s =? 0)%Z, LimitEvent_SwapMax);
     (negb (se_fail s =? 0)%Z, LimitEvent_SwapFail)].
Definition ReceiptResources_from_configured (configured : ReceiptConfiguredResources)
    (memory_peak_bytes swap_peak_bytes : Z) (m : ReceiptMemoryEvents) (s : ReceiptSwapEvents) :
    result ReceiptError ReceiptResources :=
  Ok (mkReceiptResources (cr_processes configured) (cr_memory configured) (cr_swap configured)
        (cr_memory_oom_group configured) memory_peak_bytes swap_peak_bytes m s
        (LimitEvents_new (observed_limit_events m s)) true).
Definition ReceiptResources_new (limits : ResourceLimits) (memory_peak_bytes swap_peak_bytes : Z)
    (m : ReceiptMemoryEvents) (s : ReceiptSwapEvents) : result ReceiptError ReceiptResources :=
  memory ← ok_or (memory limits) ResourceProfileIncomplete;
  swap ← ok_or (swap_limit limits) ResourceProfileIncomplete;
  configured ← ReceiptConfiguredResources_new (processes limits) memory swap 1;
  ReceiptResources_from_configured configured memory_peak_bytes swap_peak_bytes m s.
Definition ReceiptResources_incomplete (p : ProcessLimit) (m : MemoryByteLimit) (s : SwapByteLimit)
    (memory_oom_group : Z) : result ReceiptError ReceiptResources :=
  if negb (memory_oom_group =? 1)%Z then Err ConfiguredResourcesInvalid
  else Ok (mkReceiptResources p m s memory_oom_group 0 0 (mkReceiptMemoryEvents 0 0 0 0 0 0)
             (mkReceiptSwapEvents 0 0) (LimitEvents_new []) false).

Record StreamRecord := mkStreamRecord { sr_artifact : ArtifactIdentity; sr_capture : StreamCapture }.
Definition StreamRecord_new (artifact : ArtifactIdentity) (capture : StreamCapture)
    (r : ArtifactRole) (field : ReceiptArtifactField) : result ReceiptError StreamRecord :=
  _ ← require_role artifact r field; Ok (mkStreamRecord artifact capture).
Record ReceiptStreams := mkReceiptStreams { rs_stdout : StreamRecord; rs_stderr : StreamRecord }.
Definition ReceiptStreams_new (out : ArtifactIdentity) (stdout_capture : StreamCapture)
    (err : ArtifactIdentity) (stderr_capture : StreamCapture) : result ReceiptError ReceiptStreams :=
  out ← StreamRecord_new out stdout_capture StandardOutput Field_StandardOutput;
  err ← StreamRecord_new err stderr_capture StandardError Field_StandardError;
  Ok (mkReceiptStreams out err).

(** ** The trusted computing base *)

Inductive TrustedComputingBaseRole :=
| HostHardwareFirmware | LinuxKernel | Landlock | Seccomp | CgroupV2 | NoNewPrivileges
| Filesystem | Tcb_RuntimeBinary | Tcb_LauncherBinary | RustToolchain | CryptographicDigest
| Tcb_RuntimeExecutable | Tcb_RuntimeLoaderExecutable | Tcb_RuntimeLibrary.
#[global] Instance TrustedComputingBaseRole_eq_dec : EqDecision TrustedComputingBaseRole.
Proof. solve_decision. Defined.
Definition TrustedComputingBaseRole_as_str (r : TrustedComputingBaseRole) : string :=
  match r with
  | HostHardwareFirmware => "host-hardware-firmware"
  | LinuxKernel => "linux-kernel"
  | Landlock => "landlock"
  | Seccomp => "seccomp"
  | CgroupV2 => "cgroup-v2"
  | NoNewPrivileges => "no-new-privileges"
  | Filesystem => "filesystem"
  | Tcb_RuntimeBinary => "runtime-binary"
  | Tcb_LauncherBinary => "launcher-binary"
  | RustToolchain => "rust-toolchain"
  | CryptographicDigest => "cryptographic-digest"
  | Tcb_RuntimeExecutable => "runtime-executable"
  | Tcb_RuntimeLoaderExecutable => "runtime-loader-executable"
  | Tcb_RuntimeLibrary => "runtime-library"
  end.
(** The discriminants that the derived [Ord] compares. *)
Definition TrustedComputingBaseRole_discriminant (r : TrustedComputingBaseRole) : Z :=
  match r with
  | HostHardwareFirmware => 0 | LinuxKernel => 1 | Landlock => 2 | Seccomp => 3 | CgroupV2 => 4
  | NoNewPrivileges => 5 | Filesystem => 6 | Tcb_RuntimeBinary => 7 | Tcb_LauncherBinary => 8
  | RustToolchain => 9 | CryptographicDigest => 10 | Tcb_RuntimeExecutable => 11
  | Tcb_RuntimeLoaderExecutable => 12 | Tcb_RuntimeLibrary => 13
  end.
#[global] Instance TrustedComputingBaseRole_ord : RustOrd TrustedComputingBaseRole :=
  ord_via TrustedComputingBaseRole_discriminant.
#[global] Instance TrustedComputingBaseRole_lawful : LawfulOrd TrustedComputingBaseRole.
Proof.
  assert (Inj (=) (=) TrustedComputingBaseRole_discriminant) by (intros [] []; done).
  apply (ord_via_lawful TrustedComputingBaseRole_discriminant).
Qed.

Record TrustedComputingBaseEntry := mkTrustedComputingBaseEntry {
  tcb_role : TrustedComputingBaseRole;
  tcb_identity : string
}.
#[global] Instance TrustedComputingBaseEntry_eq_dec : EqDecision TrustedComputingBaseEntry.
Proof. solve_decision. Defined.
Definition tcb_key (e : TrustedComputingBaseEntry) : TrustedComputingBaseRole * string :=
  (tcb_role e, tcb_identity e).
#[global] Instance TrustedComputingBaseEntry_ord : RustOrd TrustedComputingBaseEntry := ord_via tcb_key.
#[global] Instance TrustedComputingBaseEntry_lawful : LawfulOrd TrustedComputingBaseEntry.
Proof.
  assert (Inj (=) (=) tcb_key) by (intros [] []; unfold tcb_key; cbn; congruence).
  apply (ord_via_lawful tcb_key).
Qed.
Definition TrustedComputingBaseEntry_new (r : TrustedComputingBaseRole) (identity : string) :
    result ReceiptError TrustedComputingBaseEntry :=
  if bool_decide (identity = "") then Err EmptyText else Ok (mkTrustedComputingBaseEntry r identity).

(** * The receipt *)

Record ExecutionReceiptParts := mkExecutionReceiptParts {
  execution_id : ExecutionId;
  plan : ReceiptPlan;
  policy : ReceiptPolicy;
  platform : PlatformIdentity;
  runtime : RuntimeIdentity;
  command : ReceiptCommand;
  inputs : list ArtifactIdentity;
  environment : list EnvironmentName;
  output_root : ArtifactIdentity;
  boundary : BoundaryRecord;
  observations : ExecutionObservations;
  streams : ReceiptStreams;
  outcome : ExecutionOutcome;
  resources : option ReceiptResources;
  outputs : list ArtifactIdentity;
  producer : ArtifactIdentity;
  assumptions : list string;
  trusted_computing_base : list TrustedComputingBaseEntry
}.
Record ExecutionReceipt := mkExecutionReceipt {
  parts : ExecutionReceiptParts;
  receipt_environment : list string;
  receipt_assumptions : list string;
  eligibility : ReceiptEligibility
}.

Definition ALWAYS_REQUIRED : list TrustedComputingBaseRole :=
  [HostHardwareFirmware; LinuxKernel; Landlock; Seccomp; CgroupV2; NoNewPrivileges; Filesystem;
   Tcb_RuntimeBinary; Tcb_LauncherBinary; RustToolchain; CryptographicDigest; Tcb_RuntimeExecutable].
Definition require_tcb_role (entries : list TrustedComputingBaseEntry)
    (required : TrustedComputingBaseRole) : result ReceiptError () :=
  if existsb (fun entry => bool_decide (tcb_role entry = required)) entries then Ok ()
  else Err TrustedComputingBaseRoleMissing.
Definition require_tcb_roles (p : ExecutionReceiptParts) : result ReceiptError () :=
  _ ← mapM (require_tcb_role (trusted_computing_base p)) ALWAYS_REQUIRED;
  _ ← (if bool_decide (is_Some (rc_loader (command p)))
       then require_tcb_role (trusted_computing_base p) Tcb_RuntimeLoaderExecutable else Ok ());
  if existsb (fun identity => bool_decide (role identity = RuntimeLibrary)) (inputs p)
  then require_tcb_role (trusted_computing_base p) Tcb_RuntimeLibrary else Ok ().

(** The facts of the final [match] on the resources and the normalized limits. *)
Definition receipt_facts (p : ExecutionReceiptParts) : result ReceiptError ReceiptFacts :=
  match resources p, rp_normalized_limits (plan p) with
  | Some r, Some _ =>
    Ok (ReceiptFacts_new_v2 (br_state (boundary p)) (outcome p) (sr_capture (rs_stdout (streams p)))
          (sr_capture (rs_stderr (streams p)))
          (if rr_observations_complete r then Structure_Valid else Structure_Malformed)
          (rr_limit_events r))
  | None, None =>
    Ok (ReceiptFacts_new (br_state (boundary p)) (outcome p) (sr_capture (rs_stdout (streams p)))
          (sr_capture (rs_stderr (streams p))) Structure_Valid)
  | _, _ => Err ResourceProfileIncomplete
  end.

(** The parts after [sort] and [mem::take]. *)
Definition sorted_parts (p : ExecutionReceiptParts) : ExecutionReceiptParts :=
  mkExecutionReceiptParts (execution_id p) (plan p) (policy p) (platform p) (runtime p) (command p)
    (Prelude.sort (inputs p)) (environment p) (output_root p) (boundary p) (observations p)
    (streams p) (outcome p) (resources p) (Prelude.sort (outputs p)) (producer p) []
    (Prelude.sort (trusted_computing_base p)).

Definition check_identities (p : ExecutionReceiptParts) : result ReceiptError () :=
  if negb (bool_decide (br_execution_id (boundary p) = execution_id p))
  then Err (IdentityMismatch Identity_Execution)
  else if negb (bool_decide (br_policy_sha256 (boundary p) = digest (rpol_identity (policy p))))
  then Err (IdentityMismatch Identity_Policy)
  else if negb (bool_decide (producer p = ri_runtime (runtime p)))
  then Err (IdentityMismatch Identity_Producer)
  else Ok ().
Definition require_assumption (assumptions : list string) (required : string) :
    result ReceiptError () :=
  if binary_search_found assumptions required then Ok () else Err AssumptionMissing.

Definition ExecutionReceipt_new (given : ExecutionReceiptParts) : result ReceiptError ExecutionReceipt :=
  _ ← require_input_roles (inputs given);
  _ ← require_roles (outputs given) OutputArtifact Field_Output;
  _ ← require_role (output_root given) OutputRoot Field_OutputRoot;
  _ ← require_role (producer given) RuntimeBinary Field_Producer;
  _ ← check_identities given;
  let p := sorted_parts given in
  _ ← reject_duplicate_artifacts (inputs p);
  _ ← reject_duplicate_artifacts (outputs p);
  _ ← reject_duplicates (trusted_computing_base p);
  if bool_decide (trusted_computing_base p = []) then Err TrustedComputingBaseEmpty
  else
    environment ← canonical_string_set (map EnvironmentName_as_str (environment given));
    assumptions ← canonical_string_set (assumptions given);
    _ ← mapM (require_assumption assumptions) REQUIRED_RUNTIME_ASSUMPTIONS;
    _ ← require_tcb_roles p;
    facts ← receipt_facts p;
    Ok (mkExecutionReceipt p environment assumptions (derive_receipt_eligibility facts)).
Definition construct_execution_receipt : ExecutionReceiptParts -> result ReceiptError ExecutionReceipt :=
  ExecutionReceipt_new.

(** * The field binding of [proofbound-runtime-binding] *)

(** One canonical value per top-level field. *)
Record ReceiptBindingParts := mkReceiptBindingParts {
  b_assumptions : list byte; b_boundary : list byte; b_command : list byte;
  b_eligibility : list byte; b_environment : list byte; b_execution_id : list byte;
  b_inputs : list byte; b_observations : list byte; b_outcome : list byte;
  b_output_root : list byte; b_outputs : list byte; b_plan : list byte;
  b_platform : list byte; b_policy : list byte; b_producer : list byte;
  b_product_version : list byte; b_resources : option (list byte); b_runtime : list byte;
  b_schema : list byte; b_streams : list byte; b_trusted_computing_base : list byte
}.
Record ReceiptBinding := mkReceiptBinding { binding_parts : ReceiptBindingParts }.
Definition construct_receipt_binding (p : ReceiptBindingParts) : ReceiptBinding := mkReceiptBinding p.
Definition project_receipt_binding (b : ReceiptBinding) : ReceiptBindingParts := binding_parts b.
Definition construct_and_project_receipt_binding (p : ReceiptBindingParts) : ReceiptBindingParts :=
  project_receipt_binding (construct_receipt_binding p).

(** * Wire names *)

Definition non_reusable_reason_wire_name (r : NonReusableReason) : string :=
  match r with
  | BoundaryIncomplete => "boundary-incomplete"
  | ExitCodeNonzero => "exit-code-nonzero"
  | ProcessSignaled => "process-signaled"
  | Reason_TimedOut => "timed-out"
  | Reason_Denied => "denied"
  | Reason_LauncherFailed => "launcher-failed"
  | ExecutionIncomplete => "execution-incomplete"
  | StandardOutputTruncated => "stdout-truncated"
  | StandardErrorTruncated => "stderr-truncated"
  | ReceiptMalformed => "receipt-malformed"
  | MemoryHigh => "memory-high"
  | MemoryMax => "memory-max"
  | MemoryOom => "memory-oom"
  | MemoryOomKill => "memory-oom-kill"
  | MemoryOomGroupKill => "memory-oom-group-kill"
  | SwapMax => "swap-max"
  | SwapFail => "swap-fail"
  end.
Definition boundary_wire_name (state : BoundaryInstallation) : string :=
  match state with Boundary_Installed => "installed" | Boundary_Incomplete => "incomplete" end.
Definition stream_capture_wire_name (capture : StreamCapture) : string :=
  match capture with Capture_Complete => "complete" | Capture_Truncated => "truncated" end.
Definition canonical_limit_events (events : LimitEvents) : list string :=
  omap (fun en : LimitEvent * string =>
      if LimitEvents_contains events en.1 then Some en.2 else None)
    [(LimitEvent_MemoryHigh, "memory-high"); (LimitEvent_MemoryMax, "memory-max");
     (LimitEvent_MemoryOom, "memory-oom"); (LimitEvent_MemoryOomKill, "memory-oom-kill");
     (LimitEvent_MemoryOomGroupKill, "memory-oom-group-kill"); (LimitEvent_SwapMax, "swap-max");
     (LimitEvent_SwapFail, "swap-fail")].
(** The status and the reasons that both wire forms record. *)
Definition eligibility_names (e : ReceiptEligibility) : string * list string :=
  match e with
  | Reusable => ("reusable", [])
  | NonReusable reasons => ("non-reusable", map non_reusable_reason_wire_name reasons)
  end.

(** * Version 2: deterministic CBOR *)

Definition cbor_text_array (values : list string) : Value := Array (map Text values).
Definition cbor_artifact (identity : ArtifactIdentity) : Value :=
  Map [("mode", Unsigned (FileMode_get (mode identity)));
       ("role", Text (ArtifactRole_as_str (role identity)));
       ("size", Unsigned (Identity.size identity));
       ("sha256", Bytes (digest_bytes (digest identity)))].
Definition cbor_plan (p : ReceiptPlan) : result ReceiptError Value :=
  limits ← ok_or (rp_normalized_limits p) ResourceProfileIncomplete;
  memory ← ok_or (memory limits) ResourceProfileIncomplete;
  swap ← ok_or (swap_limit limits) ResourceProfileIncomplete;
  Ok (Map [("id", Text (Plan.PlanId_as_str (rp_id p)));
           ("source", cbor_artifact (rp_source p));
           ("normalized", cbor_artifact (rp_normalized p));
           ("limits", Map
              [("processes", Unsigned (ProcessLimit_get (processes limits)));
               ("wall_time_ms", Unsigned (WallTimeLimit_milliseconds (wall_time limits)));
               ("stdout_bytes", Unsigned (OutputByteLimit_get (stdout limits)));
               ("stderr_bytes", Unsigned (OutputByteLimit_get (stderr limits)));
               ("memory_bytes", Unsigned (MemoryByteLimit_get memory));
               ("swap_bytes", Unsigned (SwapByteLimit_get swap))])]).
Definition cbor_policy (p : ReceiptPolicy) : Value :=
  Map [("identity", cbor_artifact (rpol_identity p)); ("model_version", Text POLICY_MODEL_VERSION_V2)].
Definition cbor_runtime (r : RuntimeIdentity) : Value :=
  Map [("runtime", cbor_artifact (ri_runtime r)); ("launcher", cbor_artifact (ri_launcher r))].
Definition cbor_command (c : ReceiptCommand) : Value :=
  Map [("loader", from_option cbor_artifact Null (rc_loader c));
       ("executable", cbor_artifact (rc_executable c));
       ("arguments_sha256", Bytes (digest_bytes (rc_arguments_sha256 c)));
       ("working_directory", cbor_artifact (rc_working_directory c))].
Definition cbor_boundary (b : BoundaryRecord) : Value :=
  Map [("state", Text (boundary_wire_name (br_state b)));
       ("cgroup", Map [("inode", Unsigned (cg_inode (br_cgroup b)));
                       ("mount_id", Unsigned (cg_mount_id (br_cgroup b)))]);
       ("execution_id", Bytes (ExecutionId_as_bytes (br_execution_id b)));
       ("policy_sha256", Bytes (digest_bytes (br_policy_sha256 b)))].
Definition cbor_platform (p : PlatformIdentity) : Value :=
  Map [("architecture", Text (Architecture_as_str (pf_architecture p)));
       ("landlock_abi", Unsigned (pf_landlock_abi p));
       ("kernel_release", Text (pf_kernel_release p));
       ("operating_system", Text "linux");
       ("seccomp_features", cbor_text_array (pf_seccomp_features p));
       ("cgroup_controllers", cbor_text_array (pf_cgroup_controllers p))].
Definition cbor_observations (o : ExecutionObservations) : Value :=
  Map [("clock", Text "linux-monotonic"); ("started_ns", Unsigned (eo_started_ns o));
       ("finished_ns", Unsigned (eo_finished_ns o))].
Definition cbor_stream (r : StreamRecord) : Value :=
  Map [("capture", Text (stream_capture_wire_name (sr_capture r)));
       ("artifact", cbor_artifact (sr_artifact r))].
Definition cbor_streams (s : ReceiptStreams) : Value :=
  Map [("stderr", cbor_stream (rs_stderr s)); ("stdout", cbor_stream (rs_stdout s))].
(** The [i32] exit code: [-1 - code] of a negative one; both conversions to
    [u64] succeed on every [i32]. *)
Definition cbor_outcome (o : ExecutionOutcome) : Value :=
  Map match o with
      | Exited code =>
        [("kind", Text "exited");
         ("code", if (0 <=? code)%Z then Unsigned code else Negative (-1 - code))]
      | Signaled signal => [("kind", Text "signaled"); ("signal", Unsigned (SignalNumber_get signal))]
      | TimedOut => [("kind", Text "timed-out")]
      | Denied => [("kind", Text "denied")]
      | LauncherFailed => [("kind", Text "launcher-failed")]
      | Incomplete => [("kind", Text "incomplete")]
      end.
Definition cbor_terminal (r : ReceiptResources) : Value :=
  let m := rr_memory_events r in
  let s := rr_swap_events r in
  if rr_observations_complete r then
    Map [("swap_events", Map [("max", Unsigned (se_max s)); ("fail", Unsigned (se_fail s))]);
         ("memory_events", Map
            [("low", Unsigned (me_low m)); ("oom", Unsigned (me_oom m));
             ("high", Unsigned (me_high m)); ("max", Unsigned (me_max m));
             ("oom_kill", Unsigned (me_oom_kill m));
             ("oom_group_kill", Unsigned (me_oom_group_kill m))]);
         ("swap_peak_bytes", Unsigned (rr_swap_peak_bytes r));
         ("memory_peak_bytes", Unsigned (rr_memory_peak_bytes r))]
  else Null.
Definition cbor_resources (r : ReceiptResources) : Value :=
  Map [("terminal", cbor_terminal r);
       ("configured", Map
          [("pids.max", Unsigned (ProcessLimit_get (rr_processes r)));
           ("memory.max", Unsigned (MemoryByteLimit_get (rr_memory r)));
           ("memory.oom.group", Unsigned (rr_memory_oom_group r));
           ("memory.swap.max", Unsigned (SwapByteLimit_get (rr_swap r)))]);
       ("limit_events", cbor_text_array (canonical_limit_events (rr_limit_events r)))].
Definition cbor_eligibility (e : ReceiptEligibility) : Value :=
  let '(status, reasons) := eligibility_names e in
  Map [("status", Text status); ("reasons", cbor_text_array reasons)].
Definition cbor_tcb_entry (e : TrustedComputingBaseEntry) : Value :=
  Map [("role", Text (TrustedComputingBaseRole_as_str (tcb_role e))); ("identity", Text (tcb_identity e))].

(** The map that [canonical_v2_binding_parts] builds. *)
Definition receipt_fields (receipt : ExecutionReceipt) : result ReceiptError (list (string * Value)) :=
  let p := parts receipt in
  resources ← ok_or (resources p) ResourceProfileIncomplete;
  plan ← cbor_plan (plan p);
  Ok [("plan", plan);
      ("schema", Text EXECUTION_RECEIPT_V2_SCHEMA);
      ("inputs", Array (map cbor_artifact (inputs p)));
      ("policy", cbor_policy (policy p));
      ("runtime", cbor_runtime (runtime p));
      ("streams", cbor_streams (streams p));
      ("command", cbor_command (command p));
      ("outcome", cbor_outcome (outcome p));
      ("outputs", Array (map cbor_artifact (outputs p)));
      ("boundary", cbor_boundary (boundary p));
      ("producer", cbor_artifact (producer p));
      ("platform", cbor_platform (platform p));
      ("resources", cbor_resources resources);
      ("eligibility", cbor_eligibility (eligibility receipt));
      ("environment", cbor_text_array (receipt_environment receipt));
      ("execution_id", Bytes (ExecutionId_as_bytes (execution_id p)));
      ("observations", cbor_observations (observations p));
      ("product_version", Text CARGO_PKG_VERSION);
      ("assumptions", cbor_text_array (receipt_assumptions receipt));
      ("output_root", cbor_artifact (output_root p));
      ("trusted_computing_base", Array (map cbor_tcb_entry (trusted_computing_base p)))].

(** [Vec::remove] at the position of the field; the state is the vector. *)
Definition take_cbor_field (fields : list (string * Value)) (name : string) :
    result ReceiptError (list byte * list (string * Value)) :=
  '(index, kv) ← ok_or (list_find (fun kv => kv.1 = name) fields) CanonicalEncoding;
  bytes ← map_err (fun _ => CanonicalEncoding) (encode kv.2);
  Ok (bytes, delete index fields).
Definition take_binding_parts (fields : list (string * Value)) :
    result ReceiptError ReceiptBindingParts :=
  '(assumptions, fields) ← take_cbor_field fields "assumptions";
  '(boundary, fields) ← take_cbor_field fields "boundary";
  '(command, fields) ← take_cbor_field fields "command";
  '(eligibility, fields) ← take_cbor_field fields "eligibility";
  '(environment, fields) ← take_cbor_field fields "environment";
  '(execution_id, fields) ← take_cbor_field fields "execution_id";
  '(inputs, fields) ← take_cbor_field fields "inputs";
  '(observations, fields) ← take_cbor_field fields "observations";
  '(outcome, fields) ← take_cbor_field fields "outcome";
  '(output_root, fields) ← take_cbor_field fields "output_root";
  '(outputs, fields) ← take_cbor_field fields "outputs";
  '(plan, fields) ← take_cbor_field fields "plan";
  '(platform, fields) ← take_cbor_field fields "platform";
  '(policy, fields) ← take_cbor_field fields "policy";
  '(producer, fields) ← take_cbor_field fields "producer";
  '(product_version, fields) ← take_cbor_field fields "product_version";
  '(resources, fields) ← take_cbor_field fields "resources";
  '(runtime, fields) ← take_cbor_field fields "runtime";
  '(schema, fields) ← take_cbor_field fields "schema";
  '(streams, fields) ← take_cbor_field fields "streams";
  '(tcb, fields) ← take_cbor_field fields "trusted_computing_base";
  if bool_decide (fields = []) then
    Ok (mkReceiptBindingParts assumptions boundary command eligibility environment execution_id
          inputs observations outcome output_root outputs plan platform policy producer
          product_version (Some resources) runtime schema streams tcb)
  else Err CanonicalEncoding.
Definition canonical_v2_binding_parts (receipt : ExecutionReceipt) :
    result ReceiptError ReceiptBindingParts :=
  fields ← receipt_fields receipt; take_binding_parts fields.

Definition encode_v2_binding (p : ReceiptBindingParts) : result ReceiptError (list byte) :=
  resources ← ok_or (b_resources p) ResourceProfileIncomplete;
  map_err (fun _ => CanonicalEncoding) (encode_bound_map
    [("assumptions", b_assumptions p); ("boundary", b_boundary p); ("command", b_command p);
     ("eligibility", b_eligibility p); ("environment", b_environment p);
     ("execution_id", b_execution_id p); ("inputs", b_inputs p);
     ("observations", b_observations p); ("outcome", b_outcome p);
     ("output_root", b_output_root p); ("outputs", b_outputs p); ("plan", b_plan p);
     ("platform", b_platform p); ("policy", b_policy p); ("producer", b_producer p);
     ("product_version", b_product_version p); ("resources", resources);
     ("runtime", b_runtime p); ("schema", b_schema p); ("streams", b_streams p);
     ("trusted_computing_base", b_trusted_computing_base p)]).
Definition canonical_v2_bytes (receipt : ExecutionReceipt) : result ReceiptError (list byte) :=
  p ← canonical_v2_binding_parts receipt;
  encode_v2_binding (construct_and_project_receipt_binding p).

(** * Version 1: canonical JSON *)

Section json.
Context {serde : VerifyDecode.SerdeJson}.
#[local] Abbreviation Json := VerifyDecode.Json.
#[local] Abbreviation json_string := VerifyDecode.json_string.
#[local] Abbreviation json_u64 := VerifyDecode.json_u64.
#[local] Abbreviation json_i64 := VerifyDecode.json_i64.
#[local] Abbreviation json_null := VerifyDecode.json_null.
#[local] Abbreviation json_array := VerifyDecode.json_array.
#[local] Abbreviation json_object := VerifyDecode.json_object.
#[local] Abbreviation from_slice := VerifyDecode.from_slice.
#[local] Abbreviation to_vec := VerifyDecode.to_vec.

Definition json_text_array (values : list string) : Json := json_array (map json_string values).
(** [WireArtifact] *)
Definition json_artifact (identity : ArtifactIdentity) : Json :=
  json_object [("mode", json_u64 (FileMode_get (mode identity)));
               ("role", json_string (ArtifactRole_as_str (role identity)));
               ("sha256", json_string (Sha256Digest_to_hex (digest identity)));
               ("size", json_string (u64_to_string (Identity.size identity)))].
(** [WireOutcome], internally tagged by [kind]. *)
Definition json_outcome (o : ExecutionOutcome) : Json :=
  json_object match o with
              | Exited code => [("kind", json_string "exited"); ("code", json_i64 code)]
              | Signaled signal =>
                [("kind", json_string "signaled"); ("signal", json_u64 (SignalNumber_get signal))]
              | TimedOut => [("kind", json_string "timed-out")]
              | Denied => [("kind", json_string "denied")]
              | LauncherFailed => [("kind", json_string "launcher-failed")]
              | Incomplete => [("kind", json_string "incomplete")]
              end.
Definition json_eligibility (e : ReceiptEligibility) : Json :=
  let '(status, reasons) := eligibility_names e in
  json_object [("reasons", json_text_array reasons); ("status", json_string status)].
Definition json_stream (r : StreamRecord) : Json :=
  json_object [("artifact", json_artifact (sr_artifact r));
               ("capture", json_string (stream_capture_wire_name (sr_capture r)))].
Definition json_boundary (b : BoundaryRecord) : Json :=
  json_object
    [("cgroup", json_object [("inode", json_string (u64_to_string (cg_inode (br_cgroup b))));
                             ("mount_id", json_string (u64_to_string (cg_mount_id (br_cgroup b))))]);
     ("execution_id", json_string (ExecutionId_to_text (br_execution_id b)));
     ("policy_sha256", json_string (Sha256Digest_to_hex (br_policy_sha256 b)));
     ("state", json_string (boundary_wire_name (br_state b)))].
Definition json_command (c : ReceiptCommand) : Json :=
  json_object [("arguments_sha256", json_string (Sha256Digest_to_hex (rc_arguments_sha256 c)));
               ("executable", json_artifact (rc_executable c));
               ("loader", from_option json_artifact json_null (rc_loader c));
               ("working_directory", json_artifact (rc_working_directory c))].
Definition json_observations (o : ExecutionObservations) : Json :=
  json_object [("clock", json_string "linux-monotonic");
               ("finished_ns", json_string (u64_to_string (eo_finished_ns o)));
               ("started_ns", json_string (u64_to_string (eo_started_ns o)))].
Definition json_plan (p : ReceiptPlan) : Json :=
  json_object [("id", json_string (Plan.PlanId_as_str (rp_id p)));
               ("normalized", json_artifact (rp_normalized p)); ("source", json_artifact (rp_source p))].
Definition json_platform (p : PlatformIdentity) : Json :=
  json_object [("architecture", json_string (Architecture_as_str (pf_architecture p)));
               ("cgroup_controllers", json_text_array (pf_cgroup_controllers p));
               ("kernel_release", json_string (pf_kernel_release p));
               ("landlock_abi", json_u64 (pf_landlock_abi p));
               ("operating_system", json_string "linux");
               ("seccomp_features", json_text_array (pf_seccomp_features p))].
Definition json_policy (p : ReceiptPolicy) : Json :=
  json_object [("identity", json_artifact (rpol_identity p));
               ("model_version", json_string POLICY_MODEL_VERSION)].
Definition json_runtime (r : RuntimeIdentity) : Json :=
  json_object [("launcher", json_artifact (ri_launcher r)); ("runtime", json_artifact (ri_runtime r))].
Definition json_streams (s : ReceiptStreams) : Json :=
  json_object [("stderr", json_stream (rs_stderr s)); ("stdout", json_stream (rs_stdout s))].
Definition json_tcb_entry (e : TrustedComputingBaseEntry) : Json :=
  json_object [("identity", json_string (tcb_identity e));
               ("role", json_string (TrustedComputingBaseRole_as_str (tcb_role e)))].

(** The fields of [WireExecutionReceipt], in its order. *)
Definition wire_fields (receipt : ExecutionReceipt) : list (string * Json) :=
  let p := parts receipt in
  [("assumptions", json_text_array (receipt_assumptions receipt));
   ("boundary", json_boundary (boundary p));
   ("command", json_command (command p));
   ("eligibility", json_eligibility (eligibility receipt));
   ("environment", json_text_array (receipt_environment receipt));
   ("execution_id", json_string (ExecutionId_to_text (execution_id p)));
   ("inputs", json_array (map json_artifact (inputs p)));
   ("observations", json_observations (observations p));
   ("outcome", json_outcome (outcome p));
   ("output_root", json_artifact (output_root p));
   ("outputs", json_array (map json_artifact (outputs p)));
   ("plan", json_plan (plan p));
   ("platform", json_platform (platform p));
   ("policy", json_policy (policy p));
   ("producer", json_artifact (producer p));
   ("product_version", json_string CARGO_PKG_VERSION);
   ("runtime", json_runtime (runtime p));
   ("schema", json_string EXECUTION_RECEIPT_SCHEMA);
   ("streams", json_streams (streams p));
   ("trusted_computing_base", json_array (map json_tcb_entry (trusted_computing_base p)))].

Definition canonical_field_bytes (value : Json) : result ReceiptError (list byte) :=
  ok_or (to_vec value) CanonicalEncoding.
(** The twenty calls, in the order of the fields. *)
Definition v1_binding_parts (receipt : ExecutionReceipt) : result ReceiptError ReceiptBindingParts :=
  values ← mapM (fun kv => canonical_field_bytes kv.2) (wire_fields receipt);
  let at_index i := nth i values [] in
  Ok (mkReceiptBindingParts (at_index 0) (at_index 1) (at_index 2) (at_index 3) (at_index 4)
        (at_index 5) (at_index 6) (at_index 7) (at_index 8) (at_index 9) (at_index 10)
        (at_index 11) (at_index 12) (at_index 13) (at_index 14) (at_index 15) None
        (at_index 16) (at_index 17) (at_index 18) (at_index 19)).

(** The literal quotes a field name: [b"\"name\":"]. *)
Definition quoted_name (name : string) : list byte :=
  [ascii_of_nat 34] ++ String.list_ascii_of_string name ++ [ascii_of_nat 34; ":"%char].
Definition append_bound_field (output : list byte) (name : string) (value : list byte) (comma : bool) :
    list byte :=
  let output := if comma then output ++ [","%char] else output in
  (output ++ quoted_name name) ++ value.
Definition bound_fields (p : ReceiptBindingParts) : list (string * list byte) :=
  [("boundary", b_boundary p); ("command", b_command p); ("eligibility", b_eligibility p);
   ("environment", b_environment p); ("execution_id", b_execution_id p); ("inputs", b_inputs p);
   ("observations", b_observations p); ("outcome", b_outcome p); ("output_root", b_output_root p);
   ("outputs", b_outputs p); ("plan", b_plan p); ("platform", b_platform p); ("policy", b_policy p);
   ("producer", b_producer p); ("product_version", b_product_version p); ("runtime", b_runtime p);
   ("schema", b_schema p); ("streams", b_streams p);
   ("trusted_computing_base", b_trusted_computing_base p)].
Definition encode_binding (p : ReceiptBindingParts) : result ReceiptError (list byte) :=
  let output := ["{"%char] in
  let output := append_bound_field output "assumptions" (b_assumptions p) false in
  let output := foldl (fun output kv => append_bound_field output kv.1 kv.2 true) output (bound_fields p) in
  let output := output ++ ["}"%char] in
  _ ← map_err (fun _ => CanonicalEncoding) (from_slice output);
  Ok output.

Definition canonical_bytes (receipt : ExecutionReceipt) : result ReceiptError (list byte) :=
  if bool_decide (is_Some (resources (parts receipt))) then canonical_v2_bytes receipt
  else
    p ← v1_binding_parts receipt;
    encode_binding (construct_and_project_receipt_binding p).
End json.

(** * What Rust's types and the constructors enforce *)

Definition u64_ok (z : Z) : Prop := in_u64 z = true.
Definition ArtifactIdentity_ok (a : ArtifactIdentity) : Prop :=
  Sha256Digest_ok (digest a) /\ u64_ok (Identity.size a) /\ (0 <= FileMode_get (mode a) <= 4095)%Z.
Definition ExecutionId_ok (id : ExecutionId) : Prop :=
  length (ExecutionId_as_bytes id) = 16 /\ ExecutionId_from_bytes (ExecutionId_as_bytes id) = Ok id.
Definition ProcessLimit_ok (p : ProcessLimit) : Prop := (0 < ProcessLimit_get p < u32_bound)%Z.
Definition MemoryByteLimit_ok (m : MemoryByteLimit) : Prop :=
  MemoryByteLimit_new (MemoryByteLimit_get m) = Ok m.
Definition SwapByteLimit_ok (s : SwapByteLimit) : Prop :=
  (0 <= SwapByteLimit_get s)%Z /\ SwapByteLimit_new (SwapByteLimit_get s) = Ok s.
Record ResourceLimits_ok (l : ResourceLimits) : Prop := {
  lim_processes : ProcessLimit_ok (processes l);
  lim_wall_time : u64_ok (WallTimeLimit_milliseconds (wall_time l))
    /\ WallTimeLimit_milliseconds (wall_time l) <> 0%Z;
  lim_stdout : u64_ok (OutputByteLimit_get (stdout l));
  lim_stderr : u64_ok (OutputByteLimit_get (stderr l));
  lim_memory : forall m, memory l = Some m -> MemoryByteLimit_ok m;
  lim_swap : forall s, swap_limit l = Some s -> SwapByteLimit_ok s
}.

(** Each component comes from its constructor, on texts a Rust [String] can hold. *)
Record ReceiptPlan_ok (p : ReceiptPlan) : Prop := {
  rp_id_ok : Plan.PlanId_new (Plan.PlanId_as_str (rp_id p)) = Ok (rp_id p)
    /\ text_ok (Plan.PlanId_as_str (rp_id p)) = true;
  rp_source_ok : ArtifactIdentity_ok (rp_source p);
  rp_normalized_ok : ArtifactIdentity_ok (rp_normalized p);
  rp_roles : role (rp_source p) = ExecutionPlan /\ role (rp_normalized p) = NormalizedPlan;
  rp_limits_ok : forall l, rp_normalized_limits p = Some l ->
    ResourceLimits_ok l /\ is_version_two l = true
}.
Definition text_set_ok (l : list string) : Prop :=
  Forall (fun s => text_ok s = true) l /\ u64_ok (Z.of_nat (length l)).
Record PlatformIdentity_ok (p : PlatformIdentity) : Prop := {
  pf_new : exists features controllers,
    PlatformIdentity_new (pf_architecture p) (pf_kernel_release p) (pf_landlock_abi p) features
      controllers = Ok p;
  pf_release_ok : text_ok (pf_kernel_release p) = true;
  pf_abi_ok : (0 <= pf_landlock_abi p < u32_bound)%Z;
  pf_features_ok : text_set_ok (pf_seccomp_features p);
  pf_controllers_ok : text_set_ok (pf_cgroup_controllers p)
}.
Record ReceiptCommand_ok (c : ReceiptCommand) : Prop := {
  rc_new : ReceiptCommand_new (rc_executable c) (rc_loader c) (rc_working_directory c)
    (rc_arguments_sha256 c) = Ok c;
  rc_executable_ok : ArtifactIdentity_ok (rc_executable c);
  rc_loader_ok : forall a, rc_loader c = Some a -> ArtifactIdentity_ok a;
  rc_working_directory_ok : ArtifactIdentity_ok (rc_working_directory c);
  rc_arguments_ok : Sha256Digest_ok (rc_arguments_sha256 c)
}.
Record BoundaryRecord_ok (b : BoundaryRecord) : Prop := {
  br_id_ok : ExecutionId_ok (br_execution_id b);
  br_policy_ok : Sha256Digest_ok (br_policy_sha256 b);
  br_cgroup_ok : u64_ok (cg_mount_id (br_cgroup b)) /\ u64_ok (cg_inode (br_cgroup b))
}.
Definition ExecutionObservations_ok (o : ExecutionObservations) : Prop :=
  u64_ok (eo_started_ns o) /\ u64_ok (eo_finished_ns o)
  /\ ExecutionObservations_new (eo_started_ns o) (eo_finished_ns o) = Ok o.
Definition ReceiptStreams_ok (s : ReceiptStreams) : Prop :=
  ReceiptStreams_new (sr_artifact (rs_stdout s)) (sr_capture (rs_stdout s))
    (sr_artifact (rs_stderr s)) (sr_capture (rs_stderr s)) = Ok s
  /\ ArtifactIdentity_ok (sr_artifact (rs_stdout s)) /\ ArtifactIdentity_ok (sr_artifact (rs_stderr s)).
Definition ExecutionOutcome_ok (o : ExecutionOutcome) : Prop :=
  match o with
  | Exited code => (- 2 ^ 31 <= code < 2 ^ 31)%Z
  | Signaled signal => (0 < SignalNumber_get signal < u32_bound)%Z
  | _ => True
  end.
(** The counters of the two event records, and the two ways to build a record. *)
Definition event_counters (m : ReceiptMemoryEvents) (s : ReceiptSwapEvents) : list Z :=
  [me_low m; me_high m; me_max m; me_oom m; me_oom_kill m; me_oom_group_kill m; se_max s; se_fail s].
Record ReceiptResources_ok (r : ReceiptResources) : Prop := {
  rr_processes_ok : ProcessLimit_ok (rr_processes r);
  rr_memory_ok : MemoryByteLimit_ok (rr_memory r);
  rr_swap_ok : SwapByteLimit_ok (rr_swap r);
  rr_counters_ok : Forall u64_ok (event_counters (rr_memory_events r) (rr_swap_events r));
  rr_peaks_ok : u64_ok (rr_memory_peak_bytes r) /\ u64_ok (rr_swap_peak_bytes r);
  rr_built :
    (exists c, ReceiptConfiguredResources_new (rr_processes r) (rr_memory r) (rr_swap r) 1 = Ok c
      /\ ReceiptResources_from_configured c (rr_memory_peak_bytes r) (rr_swap_peak_bytes r)
           (rr_memory_events r) (rr_swap_events r) = Ok r)
    \/ ReceiptResources_incomplete (rr_processes r) (rr_memory r) (rr_swap r) 1 = Ok r
}.
Record ExecutionReceiptParts_ok (p : ExecutionReceiptParts) : Prop := {
  ok_execution_id : ExecutionId_ok (execution_id p);
  ok_plan : ReceiptPlan_ok (plan p);
  ok_policy : ReceiptPolicy_new (rpol_identity (policy p)) = Ok (policy p)
    /\ ArtifactIdentity_ok (rpol_identity (policy p));
  ok_platform : PlatformIdentity_ok (platform p);
  ok_runtime : RuntimeIdentity_new (ri_runtime (runtime p)) (ri_launcher (runtime p)) = Ok (runtime p)
    /\ ArtifactIdentity_ok (ri_runtime (runtime p)) /\ ArtifactIdentity_ok (ri_launcher (runtime p));
  ok_command : ReceiptCommand_ok (command p);
  ok_inputs : Forall ArtifactIdentity_ok (inputs p) /\ u64_ok (Z.of_nat (length (inputs p)));
  ok_environment : Forall EnvironmentName_ok (environment p)
    /\ text_set_ok (map EnvironmentName_as_str (environment p));
  ok_output_root : ArtifactIdentity_ok (output_root p);
  ok_boundary : BoundaryRecord_ok (boundary p);
  ok_observations : ExecutionObservations_ok (observations p);
  ok_streams : ReceiptStreams_ok (streams p);
  ok_outcome : ExecutionOutcome_ok (outcome p);
  ok_resources : forall r, resources p = Some r -> ReceiptResources_ok r;
  ok_outputs : Forall ArtifactIdentity_ok (outputs p) /\ u64_ok (Z.of_nat (length (outputs p)));
  ok_producer : ArtifactIdentity_ok (producer p);
  ok_assumptions : text_set_ok (assumptions p);
  ok_tcb : Forall (fun e => tcb_identity e <> "" /\ text_ok (tcb_identity e) = true)
      (trusted_computing_base p)
    /\ u64_ok (Z.of_nat (length (trusted_computing_base p)))
}.

(** * Lemmas: construction *)

Lemma require_role_Ok a r f u : require_role a r f = Ok u <-> role a = r.
Proof. unfold require_role. destruct u. case_bool_decide; naive_solver. Qed.
Lemma require_roles_Ok l r f u : require_roles l r f = Ok u <-> Forall (fun a => role a = r) l.
Proof.
  destruct u. induction l as [|a l IH]; cbn; [by split; constructor|].
  rewrite bind_Ok, Forall_cons. setoid_rewrite require_role_Ok. setoid_rewrite IH. split; [by intros (_ & ?)|].
  intros ?. by exists ().
Qed.
Definition input_role (a : ArtifactIdentity) : Prop := role a = ProjectInput \/ role a = RuntimeLibrary.
Lemma require_input_roles_Ok l u : require_input_roles l = Ok u <-> Forall input_role l.
Proof.
  destruct u. induction l as [|a l IH]; cbn; [by split; constructor|].
  rewrite Forall_cons, <- IH. unfold input_role. case_bool_decide; cbn; naive_solver.
Qed.
Lemma adjacent_equal_sort {A} `{EqDecision A, LawfulOrd A} (l : list A) :
  adjacent_equal (Prelude.sort l) = false <-> NoDup l.
Proof.
  assert (NoDup l <-> NoDup (Prelude.sort l)) as -> by (unfold Prelude.sort; by rewrite sort_by_Permutation).
  unfold adjacent_equal, windows_any. rewrite negb_false_iff. split.
  - intros Hw. apply strict_NoDup. apply windows_all_rlt.
    pose proof (sort_weak l) as Hs. revert Hs Hw. generalize (Prelude.sort l). clear l.
    induction 1 as [|a l Hs IH Hx]; [done|]. destruct l as [|b l]; [done|].
    rewrite !windows_all_cons, !andb_true_iff, negb_true_iff, bool_decide_eq_false.
    intros [Hne Hw]. split; [|auto]. inversion Hx as [|? ? Hab]; subst.
    by apply rle_rlt_eq in Hab as [?| ->].
  - generalize (Prelude.sort l). clear l. induction l as [|a l IH]; [done|].
    destruct l as [|b l]; [done|]. intros [Hni Hnd]%NoDup_cons.
    rewrite windows_all_cons, IH, andb_true_r, negb_true_iff, bool_decide_eq_false by done.
    intros ->. apply Hni. by left.
Qed.
Lemma reject_duplicates_Ok {A} `{EqDecision A, LawfulOrd A} (l : list A) u :
  reject_duplicates (Prelude.sort l) = Ok u <-> NoDup l.
Proof. rewrite <- adjacent_equal_sort. unfold reject_duplicates. destruct u, (adjacent_equal _); naive_solver. Qed.
Lemma reject_duplicate_artifacts_Ok l u :
  reject_duplicate_artifacts (Prelude.sort l) = Ok u <-> NoDup l.
Proof.
  rewrite <- adjacent_equal_sort. unfold reject_duplicate_artifacts.
  destruct u, (adjacent_equal _); naive_solver.
Qed.
Lemma canonical_string_set_Ok l k :
  canonical_string_set l = Ok k <-> "" ∉ l /\ NoDup l /\ k = Prelude.sort l.
Proof.
  unfold canonical_string_set. destruct (existsb _ l) eqn:He.
  - apply existsb_exists in He as (x & Hx%list_elem_of_In & ->%bool_decide_eq_true). naive_solver.
  - rewrite bind_Ok. setoid_rewrite reject_duplicates_Ok. split.
    + intros (_ & Hnd & [= <-]). split; [|done]. intros Hin.
      assert (existsb (fun value => bool_decide (value = "")) l = true); [|congruence].
      apply existsb_exists. exists "". rewrite <- list_elem_of_In. split; [done|].
      by apply bool_decide_eq_true.
    + intros (_ & ? & ->). by exists ().
Qed.
Lemma require_tcb_role_Ok entries r u :
  require_tcb_role entries r = Ok u <-> exists e, e ∈ entries /\ tcb_role e = r.
Proof.
  destruct u. unfold require_tcb_role. destruct (existsb _ entries) eqn:He.
  - apply existsb_exists in He as (x & Hx%list_elem_of_In & ?%bool_decide_eq_true). naive_solver.
  - split; [done|]. intros (e & Hin & Hr). exfalso.
    assert (existsb (fun e => bool_decide (tcb_role e = r)) entries = true); [|congruence].
    apply existsb_exists. exists e. rewrite <- list_elem_of_In. split; [done|].
    by apply bool_decide_eq_true.
Qed.
(** A loop that checks every element. *)
Lemma mapM_unit_Ok {E A} (f : A -> result E ()) (l : list A) :
  (exists us, mapM f l = Ok us) <-> Forall (fun a => f a = Ok ()) l.
Proof.
  split.
  - intros (us & H%mapM_Ok). induction H as [|a [] l us Ha _ IH]; by constructor.
  - induction 1 as [|a l Ha _ (us & IH)]; [by eexists|]. exists (() :: us). cbn. by rewrite Ha, IH.
Qed.

(** The roles that the trusted computing base of a receipt has to name. *)
Definition required_tcb_role (p : ExecutionReceiptParts) (r : TrustedComputingBaseRole) : Prop :=
  r ∈ ALWAYS_REQUIRED
  \/ (r = Tcb_RuntimeLoaderExecutable /\ is_Some (rc_loader (command p)))
  \/ (r = Tcb_RuntimeLibrary /\ exists a, a ∈ inputs p /\ role a = RuntimeLibrary).
Definition tcb_names (p : ExecutionReceiptParts) (r : TrustedComputingBaseRole) : Prop :=
  exists e, e ∈ trusted_computing_base p /\ tcb_role e = r.

Lemma require_tcb_roles_Ok p u :
  require_tcb_roles p = Ok u <-> forall r, required_tcb_role p r -> tcb_names p r.
Proof.
  destruct u. unfold require_tcb_roles, tcb_names. rewrite bind_Ok.
  assert (Hlib : (if existsb (fun identity => bool_decide (role identity = RuntimeLibrary)) (inputs p)
      then require_tcb_role (trusted_computing_base p) Tcb_RuntimeLibrary else Ok ()) = Ok ()
    <-> ((exists a, a ∈ inputs p /\ role a = RuntimeLibrary) ->
         exists e, e ∈ trusted_computing_base p /\ tcb_role e = Tcb_RuntimeLibrary)).
  { destruct (existsb _ (inputs p)) eqn:He.
    - rewrite require_tcb_role_Ok. apply existsb_exists in He as (x & Hx%list_elem_of_In & Hrx%bool_decide_eq_true).
      split; [done|]. intros Hall. apply Hall. eauto.
    - split; [|done]. intros _ (a & Ha & Hr). exfalso.
      assert (existsb (fun i => bool_decide (role i = RuntimeLibrary)) (inputs p) = true); [|congruence].
      apply existsb_exists. exists a. rewrite <- list_elem_of_In. split; [done|]. by apply bool_decide_eq_true. }
  split.
  - intros (us & Hm & H). apply bind_Ok in H as ([] & Hl & H). pose proof (proj1 Hlib H) as Hlib'.
    assert (exists us, mapM (require_tcb_role (trusted_computing_base p)) ALWAYS_REQUIRED = Ok us)
      as Hall%mapM_unit_Ok by eauto.
    intros r [Hr|[[-> Hs]|[-> Ha]]].
    + rewrite Forall_forall in Hall. by apply (require_tcb_role_Ok _ _ ()), Hall.
    + rewrite bool_decide_eq_true_2 in Hl by done. by apply (require_tcb_role_Ok _ _ ()) in Hl.
    + exact (Hlib' Ha).
  - intros H.
    assert (Forall (fun r => require_tcb_role (trusted_computing_base p) r = Ok ()) ALWAYS_REQUIRED)
      as (us & Hm)%mapM_unit_Ok.
    { apply Forall_forall. intros r Hr. apply require_tcb_role_Ok, H. by left. }
    exists us. split; [done|]. apply bind_Ok. exists (). split.
    + case_bool_decide; [|done]. apply require_tcb_role_Ok, H. right; left; done.
    + apply Hlib. intros Ha. apply H. right; right; done.
Qed.

(** When [ExecutionReceipt::new] accepts its parts. *)
Record receipt_accepts (p : ExecutionReceiptParts) : Prop := {
  ra_inputs : Forall input_role (inputs p);
  ra_outputs : Forall (fun a => role a = OutputArtifact) (outputs p);
  ra_output_root : role (output_root p) = OutputRoot;
  ra_producer_role : role (producer p) = RuntimeBinary;
  ra_execution : br_execution_id (boundary p) = execution_id p;
  ra_policy : br_policy_sha256 (boundary p) = digest (rpol_identity (policy p));
  ra_producer : producer p = ri_runtime (runtime p);
  ra_distinct : NoDup (inputs p) /\ NoDup (outputs p) /\ NoDup (trusted_computing_base p);
  ra_environment : "" ∉ map EnvironmentName_as_str (environment p)
    /\ NoDup (map EnvironmentName_as_str (environment p));
  ra_assumptions : "" ∉ assumptions p /\ NoDup (assumptions p)
    /\ REQUIRED_RUNTIME_ASSUMPTIONS ⊆ assumptions p;
  ra_tcb : forall r, required_tcb_role p r -> tcb_names p r
}.

Lemma exists_sort {A} `{EqDecision A, LawfulOrd A} (P : A -> Prop) l :
  (exists a, a ∈ Prelude.sort l /\ P a) <-> (exists a, a ∈ l /\ P a).
Proof.
  split; intros (a & Ha & HP); exists a; (split; [|done]); [exact (proj1 (elem_of_sort _ _) Ha)|exact (proj2 (elem_of_sort _ _) Ha)].
Qed.
Lemma sorted_tcb_roles p :
  (forall r, required_tcb_role (sorted_parts p) r -> tcb_names (sorted_parts p) r)
  <-> (forall r, required_tcb_role p r -> tcb_names p r).
Proof.
  unfold required_tcb_role, tcb_names; cbn.
  setoid_rewrite (exists_sort (fun a => role a = RuntimeLibrary)).
  assert (forall r, (exists e, e ∈ Prelude.sort (trusted_computing_base p) /\ tcb_role e = r)
    <-> (exists e, e ∈ trusted_computing_base p /\ tcb_role e = r)) as He
    by (intros r; apply (exists_sort (fun e => tcb_role e = r))).
  by setoid_rewrite He.
Qed.
Lemma check_identities_Ok p u :
  check_identities p = Ok u <->
  br_execution_id (boundary p) = execution_id p
  /\ br_policy_sha256 (boundary p) = digest (rpol_identity (policy p))
  /\ producer p = ri_runtime (runtime p).
Proof. destruct u. unfold check_identities. repeat case_bool_decide; cbn; naive_solver. Qed.

Lemma require_assumptions_Ok l :
  NoDup l ->
  (exists us, mapM (require_assumption (Prelude.sort l)) REQUIRED_RUNTIME_ASSUMPTIONS = Ok us)
  <-> REQUIRED_RUNTIME_ASSUMPTIONS ⊆ l.
Proof.
  intros Hnd. rewrite mapM_unit_Ok, Forall_forall. unfold subseteq, list_subseteq.
  assert (forall a, require_assumption (Prelude.sort l) a = Ok () <-> a ∈ l) as Ha; [|by setoid_rewrite Ha].
  intros a. unfold require_assumption.
  pose proof (binary_search_found_spec (Prelude.sort l) a (sort_strict l Hnd)) as Hb.
  rewrite elem_of_sort in Hb. destruct (binary_search_found _ _); naive_solver.
Qed.

Lemma ExecutionReceipt_new_Ok given r :
  ExecutionReceipt_new given = Ok r <->
  receipt_accepts given
  /\ exists facts, receipt_facts given = Ok facts
    /\ r = mkExecutionReceipt (sorted_parts given)
             (Prelude.sort (map EnvironmentName_as_str (environment given)))
             (Prelude.sort (assumptions given)) (derive_receipt_eligibility facts).
Proof.
  unfold ExecutionReceipt_new. rewrite bind_Ok. setoid_rewrite bind_Ok. setoid_rewrite bind_Ok.
  setoid_rewrite bind_Ok. setoid_rewrite bind_Ok. cbv zeta.
  setoid_rewrite bind_Ok. setoid_rewrite bind_Ok. setoid_rewrite bind_Ok.
  setoid_rewrite require_input_roles_Ok. setoid_rewrite require_roles_Ok. setoid_rewrite require_role_Ok.
  setoid_rewrite check_identities_Ok. cbn [inputs outputs trusted_computing_base sorted_parts].
  setoid_rewrite reject_duplicate_artifacts_Ok. setoid_rewrite reject_duplicates_Ok.
  split.
  - intros (_ & H1 & _ & H2 & _ & H3 & _ & H4 & _ & (H5 & H6 & H7) & _ & H8 & _ & H9 & _ & H10 & H).
    case_bool_decide; [done|].
    apply bind_Ok in H as (env & (He1 & He2 & ->)%canonical_string_set_Ok & H).
    apply bind_Ok in H as (ass & (Ha1 & Ha2 & ->)%canonical_string_set_Ok & H).
    apply bind_Ok in H as (us & Hus & H). apply bind_Ok in H as ([] & Htcb & H).
    pose proof (proj1 (sorted_tcb_roles _) (proj1 (require_tcb_roles_Ok _ _) Htcb)) as Hroles.
    apply bind_Ok in H as (facts & Hf & [= <-]).
    split; [|by exists facts]. split; try done. split; [done|]. split; [done|].
    by apply require_assumptions_Ok; [|eauto].
  - intros (Hacc & facts & Hf & ->). destruct Hacc as [H1 H2 H3 H4 H5 H6 H7 (H8 & H9 & H10) [He1 He2] (Ha1 & Ha2 & Ha3) Ht].
    do 8 (exists (); split; [done|]).
    rewrite bool_decide_eq_false_2.
    2:{ destruct (Ht HostHardwareFirmware) as (e & He & _); [left; unfold ALWAYS_REQUIRED; set_solver|].
        apply elem_of_sort in He. intros Hnil. rewrite Hnil in He. by apply elem_of_nil in He. }
    rewrite (proj2 (canonical_string_set_Ok _ _) (conj He1 (conj He2 eq_refl))). cbn [mbind result_bind].
    rewrite (proj2 (canonical_string_set_Ok _ _) (conj Ha1 (conj Ha2 eq_refl))). cbn [mbind result_bind].
    apply require_assumptions_Ok in Ha3 as (us & ->); [|done]. cbn [mbind result_bind].
    rewrite (proj2 (require_tcb_roles_Ok _ ())) by (by apply sorted_tcb_roles). cbn [mbind result_bind].
    change (receipt_facts (sorted_parts given)) with (receipt_facts given). by rewrite Hf.
Qed.

(** * Lemmas: the wire values encode *)


Lemma text_array_encodable l : text_set_ok l -> encodable (cbor_text_array l) = true.
Proof.
  intros [Ht Hl]. apply encodable_map_Array; [done|]. eapply Forall_impl; [exact Ht|].
  apply encodable_Text.
Qed.
(** Solves [encodable] for a literal map: the keys by computation, the values by
    the hypotheses. *)
Ltac solve_map_encodable :=
  repeat match goal with
  | |- encodable (Map _) = true =>
    apply encodable_Map; [reflexivity|vm_compute; reflexivity|vm_compute; reflexivity|cbn [forallb fst snd]]
  | |- encodable (Text _) = true => apply encodable_Text
  | |- encodable (Unsigned _) = true => apply encodable_Unsigned
  | |- encodable Null = true => reflexivity
  | |- _ && _ = true => apply andb_true_iff; split
  | |- true = true => reflexivity
  | |- _ = true => assumption
  end.
Ltac in_u64_by tac := apply in_u64_spec; unfold u32_bound, u64_bound in *; tac.

Lemma artifact_encodable a : ArtifactIdentity_ok a -> encodable (cbor_artifact a) = true.
Proof.
  intros (Hd & Hs & Hm). unfold cbor_artifact. solve_map_encodable.
  - in_u64_by lia.
  - by destruct (role a).
  - apply encodable_Bytes. by rewrite Hd.
Qed.
Lemma artifacts_encodable l :
  Forall ArtifactIdentity_ok l -> u64_ok (Z.of_nat (length l)) ->
  encodable (Array (map cbor_artifact l)) = true.
Proof.
  intros Ha Hl. apply encodable_map_Array; [done|]. eapply Forall_impl; [exact Ha|].
  apply artifact_encodable.
Qed.

Lemma ProcessLimit_u64 p : ProcessLimit_ok p -> in_u64 (ProcessLimit_get p) = true.
Proof. unfold ProcessLimit_ok. intros H. in_u64_by lia. Qed.
Lemma memory_range m :
  MemoryByteLimit_ok m <->
  (65536 <= MemoryByteLimit_get m <= 1099511627776 /\ MemoryByteLimit_get m mod 65536 = 0)%Z.
Proof.
  unfold MemoryByteLimit_ok, MemoryByteLimit_new, MemoryByteLimit_MINIMUM, MemoryByteLimit_MAXIMUM,
    MemoryByteLimit_QUANTUM. destruct m as [m]; cbn [MemoryByteLimit_get].
  destruct (m <? 65536)%Z eqn:H1; [split; [done|lia]|].
  destruct (1099511627776 <? m)%Z eqn:H2; [split; [done|lia]|].
  destruct (m mod 65536 =? 0)%Z eqn:H3; cbn [negb]; (split; [|try done; lia]); [|done]. lia.
Qed.
Lemma swap_range s :
  SwapByteLimit_ok s <->
  (0 <= SwapByteLimit_get s <= 1099511627776 /\ SwapByteLimit_get s mod 65536 = 0)%Z.
Proof.
  unfold SwapByteLimit_ok, SwapByteLimit_new, SwapByteLimit_MAXIMUM, SwapByteLimit_QUANTUM.
  destruct s as [s]; cbn [SwapByteLimit_get].
  destruct (1099511627776 <? s)%Z eqn:H2; [split; [by intros []|lia]|].
  destruct (s mod 65536 =? 0)%Z eqn:H3; cbn [negb]; (split; [|intros; split; try done; lia]); [lia|by intros []].
Qed.
Lemma memory_u64 m : MemoryByteLimit_ok m -> in_u64 (MemoryByteLimit_get m) = true.
Proof. intros [H _]%memory_range. in_u64_by lia. Qed.
Lemma swap_u64 s : SwapByteLimit_ok s -> in_u64 (SwapByteLimit_get s) = true.
Proof. intros [H _]%swap_range. in_u64_by lia. Qed.

(** A version 2 plan has a wire value, whose limits are the plan's. *)
Lemma cbor_plan_Ok p l :
  ReceiptPlan_ok p -> rp_normalized_limits p = Some l ->
  exists m s v, memory l = Some m /\ swap_limit l = Some s /\ cbor_plan p = Ok v
    /\ encodable v = true.
Proof.
  intros [Hid Hsrc Hnorm _ Hlim] Hl. destruct (Hlim l Hl) as [Hok Hv2].
  apply Policy.is_version_two_spec in Hv2 as (m & s & Hm & Hs).
  exists m, s. eexists. split; [done|]. split; [done|].
  unfold cbor_plan. rewrite Hl; cbn [ok_or mbind result_bind]. rewrite Hm; cbn [ok_or mbind result_bind].
  rewrite Hs; cbn [ok_or mbind result_bind]. split; [done|].
  destruct Hok as [Hp [Hw _] Ho He Hmem Hsw]. destruct Hid as [_ Hid]. solve_map_encodable.
  - by apply artifact_encodable.
  - by apply artifact_encodable.
  - by apply ProcessLimit_u64.
  - by apply memory_u64, Hmem.
  - by apply swap_u64, Hsw.
Qed.
Lemma policy_encodable p :
  ArtifactIdentity_ok (rpol_identity p) -> encodable (cbor_policy p) = true.
Proof. intros H. unfold cbor_policy. solve_map_encodable; [by apply artifact_encodable|reflexivity]. Qed.
Lemma runtime_encodable r :
  ArtifactIdentity_ok (ri_runtime r) -> ArtifactIdentity_ok (ri_launcher r) ->
  encodable (cbor_runtime r) = true.
Proof. intros H1 H2. unfold cbor_runtime. solve_map_encodable; by apply artifact_encodable. Qed.
Lemma command_encodable c : ReceiptCommand_ok c -> encodable (cbor_command c) = true.
Proof.
  intros [_ He Hl Hw Ha]. unfold cbor_command. solve_map_encodable.
  - destruct (rc_loader c); [by apply artifact_encodable, Hl|reflexivity].
  - by apply artifact_encodable.
  - apply encodable_Bytes. by rewrite Ha.
  - by apply artifact_encodable.
Qed.
Lemma boundary_encodable b : BoundaryRecord_ok b -> encodable (cbor_boundary b) = true.
Proof.
  intros [[Hi _] Hp [Hm Hn]]. unfold cbor_boundary. solve_map_encodable.
  - by destruct (br_state b).
  - apply encodable_Bytes. by rewrite Hi.
  - apply encodable_Bytes. by rewrite Hp.
Qed.
Lemma platform_encodable p : PlatformIdentity_ok p -> encodable (cbor_platform p) = true.
Proof.
  intros [_ Hr Ha Hf Hc]. unfold cbor_platform. solve_map_encodable.
  - by destruct (pf_architecture p).
  - in_u64_by lia.
  - reflexivity.
  - by apply text_array_encodable.
  - by apply text_array_encodable.
Qed.
Lemma observations_encodable o : ExecutionObservations_ok o -> encodable (cbor_observations o) = true.
Proof. intros (Hs & Hf & _). unfold cbor_observations. solve_map_encodable. reflexivity. Qed.
Lemma stream_encodable r : ArtifactIdentity_ok (sr_artifact r) -> encodable (cbor_stream r) = true.
Proof.
  intros H. unfold cbor_stream. solve_map_encodable; [by destruct (sr_capture r)|by apply artifact_encodable].
Qed.
Lemma streams_encodable s : ReceiptStreams_ok s -> encodable (cbor_streams s) = true.
Proof. intros (_ & H1 & H2). unfold cbor_streams. solve_map_encodable; by apply stream_encodable. Qed.
Lemma outcome_encodable o : ExecutionOutcome_ok o -> encodable (cbor_outcome o) = true.
Proof.
  destruct o as [code|signal| | | |]; cbn [ExecutionOutcome_ok]; intros H; unfold cbor_outcome;
    solve_map_encodable; try reflexivity.
  - destruct (0 <=? code)%Z eqn:Hc.
    + apply encodable_Unsigned. in_u64_by lia.
    + unfold encodable; cbn. rewrite andb_true_r. in_u64_by lia.
  - in_u64_by lia.
Qed.
Lemma limit_events_text e : text_set_ok (canonical_limit_events e).
Proof. destruct e as [[] [] [] [] [] [] []]; by repeat constructor. Qed.
Lemma resources_encodable r : ReceiptResources_ok r -> encodable (cbor_resources r) = true.
Proof.
  intros [Hp Hm Hs Hc [Hmp Hsp] Hb]. unfold event_counters in Hc.
  repeat match goal with H : Forall _ (_ :: _) |- _ => apply Forall_cons in H as [? H] end.
  assert (rr_memory_oom_group r = 1%Z) as Hg.
  { destruct Hb as [(c & Hc1 & Hc2)|Hi].
    - cbn in Hc1, Hc2. injection Hc1 as <-. injection Hc2 as Hc2. by rewrite <- Hc2.
    - cbn in Hi. injection Hi as Hi. by rewrite <- Hi. }
  unfold cbor_resources, cbor_terminal. rewrite Hg.
  assert (encodable (cbor_text_array (canonical_limit_events (rr_limit_events r))) = true)
    by apply text_array_encodable, limit_events_text.
  apply ProcessLimit_u64 in Hp. apply memory_u64 in Hm. apply swap_u64 in Hs. unfold u64_ok in *.
  solve_map_encodable; [|reflexivity]. destruct (rr_observations_complete r); [|reflexivity].
  solve_map_encodable.
Qed.
Lemma eligibility_encodable f :
  encodable (cbor_eligibility (derive_receipt_eligibility f)) = true.
Proof.
  rewrite Spec.reasons_filter. unfold Spec.eligibility_of.
  set (l := filter _ _). assert (length l <= 17) as Hl.
  { unfold l. etrans; [apply length_filter|]. done. }
  assert (Forall (fun s => text_ok s = true) (map non_reusable_reason_wire_name l)) as Ht
    by (apply Forall_fmap, Forall_forall; intros []; reflexivity).
  assert (encodable (cbor_text_array (map non_reusable_reason_wire_name l)) = true) as He.
  { apply text_array_encodable. split; [done|]. rewrite length_map. unfold u64_ok. in_u64_by lia. }
  clearbody l. unfold cbor_eligibility, eligibility_names.
  destruct l as [|r l]; solve_map_encodable; try reflexivity; done.
Qed.

(** * Lemmas: the canonical bytes of a version 2 receipt *)

Lemma take_cbor_field_at fields name i v :
  list_find (fun kv => kv.1 = name) fields = Some (i, (name, v)) -> encodable v = true ->
  take_cbor_field fields name = Ok (wire (canon v), delete i fields).
Proof.
  intros Hf Hv. unfold take_cbor_field. rewrite Hf. cbn [ok_or mbind result_bind].
  rewrite encodable_encode by done. done.
Qed.
Ltac take_field :=
  match goal with
  | |- context [take_cbor_field ?f ?n] =>
    let r := eval vm_compute in (list_find (fun kv : string * Value => kv.1 = n) f) in
    match r with Some (?i, (_, ?v)) => rewrite (take_cbor_field_at f n i v) by first [assumption | vm_compute; reflexivity] end;
    cbn [mbind result_bind delete list_delete]
  end.

(** The names of the fields in the order of the receipt's map, and their order
    in the binding. *)
Definition receipt_names : list string :=
  ["plan"; "schema"; "inputs"; "policy"; "runtime"; "streams"; "command"; "outcome"; "outputs";
   "boundary"; "producer"; "platform"; "resources"; "eligibility"; "environment"; "execution_id";
   "observations"; "product_version"; "assumptions"; "output_root"; "trusted_computing_base"].

Lemma field_bytes_cons k v kvs rest :
  rest = field_bytes kvs -> (k, wire (canon v)) :: rest = field_bytes ((k, v) :: kvs).
Proof. by intros ->. Qed.
Lemma canon_Map kvs : canon (Map kvs) = Map (sort_by (fun l r => key_lt l.1 r.1) (canon_values kvs)).
Proof. reflexivity. Qed.

(** Taking the fields and assembling them again is [encode_bound_map] on the
    encodings of a permutation of the fields. *)
Lemma take_binding_parts_bytes fields :
  fields.*1 = receipt_names -> encodable (Map fields) = true ->
  exists p kvs, take_binding_parts fields = Ok p
    /\ encode_v2_binding p = map_err (fun _ => CanonicalEncoding) (encode_bound_map (field_bytes kvs))
    /\ encodable (Map kvs) = true /\ canon (Map kvs) = canon (Map fields).
Proof.
  intros Hn He. apply encodable_Map_inv in He as (_ & _ & _ & Hv).
  do 21 (destruct fields as [|[? ?] fields]; [done|]). destruct fields; [|done].
  unfold receipt_names in Hn. cbn in Hn. simplify_eq.
  repeat match goal with H : Forall _ (_ :: _) |- _ => apply Forall_cons in H as [? H]; cbn [snd] in * end.
  unfold take_binding_parts. do 21 take_field. rewrite bool_decide_eq_true_2 by done.
  do 2 eexists. split; [reflexivity|]. split; [|split].
  - unfold encode_v2_binding. cbn [ok_or mbind result_bind b_resources b_assumptions b_boundary b_command
      b_eligibility b_environment b_execution_id b_inputs b_observations b_outcome b_output_root
      b_outputs b_plan b_platform b_policy b_producer b_product_version b_runtime b_schema b_streams
      b_trusted_computing_base].
    f_equal. f_equal. do 21 apply field_bytes_cons. exact (eq_refl (field_bytes [])).
  - solve_map_encodable.
  - rewrite !canon_Map. unfold canon_values. cbn [map fst snd].
    repeat match goal with |- context [canon ?v] => generalize (canon v); intro end.
    vm_compute. reflexivity.
Qed.

(** The whole receipt as one value. *)
Definition receipt_value (receipt : ExecutionReceipt) : result ReceiptError Value :=
  fields ← receipt_fields receipt; Ok (Map fields).
(** Whether the receipt is within the limits of the decoders. *)
Definition receipt_fits (receipt : ExecutionReceipt) : bool :=
  match receipt_value receipt with Ok v => within_limits (canon v) | Err _ => false end.

Lemma sort_text_set_ok l : text_set_ok l -> text_set_ok (Prelude.sort l).
Proof.
  intros [Ht Hl]. unfold text_set_ok, Prelude.sort. rewrite sort_by_Permutation. done.
Qed.
Lemma tcb_encodable l :
  Forall (fun e => tcb_identity e <> "" /\ text_ok (tcb_identity e) = true) l ->
  u64_ok (Z.of_nat (length l)) -> encodable (Array (map cbor_tcb_entry l)) = true.
Proof.
  intros Ht Hl. apply encodable_map_Array; [done|]. eapply Forall_impl; [exact Ht|].
  intros e [_ He]. unfold cbor_tcb_entry. solve_map_encodable. by destruct (tcb_role e).
Qed.
Lemma sort_artifacts_encodable l :
  Forall ArtifactIdentity_ok l /\ u64_ok (Z.of_nat (length l)) ->
  encodable (Array (map cbor_artifact (Prelude.sort l))) = true.
Proof.
  intros [Ha Hl]. apply artifacts_encodable; unfold Prelude.sort; by rewrite sort_by_Permutation.
Qed.

(** A version 2 receipt built from well-formed parts has an encodable value. *)
Lemma receipt_fields_Ok given r receipt :
  ExecutionReceiptParts_ok given -> resources given = Some r ->
  ExecutionReceipt_new given = Ok receipt ->
  exists fields, receipt_fields receipt = Ok fields /\ fields.*1 = receipt_names
    /\ encodable (Map fields) = true.
Proof.
  intros Hok Hr (Hacc & facts & Hf & ->)%ExecutionReceipt_new_Ok.
  destruct (rp_normalized_limits (plan given)) as [l|] eqn:Hl.
  2:{ unfold receipt_facts in Hf. by rewrite Hr, Hl in Hf. }
  destruct Hok as [[Hid _] Hpl [_ Hpo] Hpf (_ & Hr1 & Hr2) Hc Hin [_ Henv] Hor Hb Ho Hs Hout Hres
    Houts Hpr Has [Ht1 Ht2]].
  destruct (cbor_plan_Ok _ _ Hpl Hl) as (m & s & v & _ & _ & Hv & He).
  unfold receipt_fields. cbn [parts sorted_parts resources plan]. rewrite Hr. cbn [ok_or mbind result_bind].
  rewrite Hv. cbn [mbind result_bind]. eexists. split; [reflexivity|]. split; [reflexivity|].
  cbn [sorted_parts inputs outputs policy runtime streams command outcome boundary producer platform eligibility
    receipt_environment execution_id observations receipt_assumptions output_root trusted_computing_base].
  solve_map_encodable.
  - reflexivity.
  - by apply sort_artifacts_encodable.
  - by apply policy_encodable.
  - by apply runtime_encodable.
  - by apply streams_encodable.
  - by apply command_encodable.
  - by apply outcome_encodable.
  - by apply sort_artifacts_encodable.
  - by apply boundary_encodable.
  - by apply artifact_encodable.
  - by apply platform_encodable.
  - by apply resources_encodable, Hres.
  - apply eligibility_encodable.
  - by apply text_array_encodable, sort_text_set_ok.
  - apply encodable_Bytes. by rewrite Hid.
  - by apply observations_encodable.
  - reflexivity.
  - by apply text_array_encodable, sort_text_set_ok.
  - by apply artifact_encodable.
  - apply tcb_encodable; unfold Prelude.sort; by rewrite sort_by_Permutation.
Qed.

Lemma canonical_v2_bytes_spec given r receipt :
  ExecutionReceiptParts_ok given -> resources given = Some r ->
  ExecutionReceipt_new given = Ok receipt ->
  exists v, receipt_value receipt = Ok v /\ encodable v = true
    /\ (forall bytes, canonical_v2_bytes receipt = Ok bytes -> bytes = wire (canon v))
    /\ (receipt_fits receipt = true -> canonical_v2_bytes receipt = Ok (wire (canon v))).
Proof.
  intros Hok Hr Hnew. destruct (receipt_fields_Ok _ _ _ Hok Hr Hnew) as (fields & Hf & Hn & He).
  destruct (take_binding_parts_bytes fields Hn He) as (p & kvs & Hp & Hb & Hk & Hc).
  destruct (encode_bound_map_fields kvs Hk) as [Hall Hinv].
  exists (Map fields). unfold receipt_fits, receipt_value, canonical_v2_bytes, canonical_v2_binding_parts.
  rewrite Hf; cbn [mbind result_bind]. rewrite Hp; cbn [mbind result_bind].
  change (construct_and_project_receipt_binding p) with p. rewrite Hb, <- Hc.
  split; [done|]. split; [done|]. split.
  - intros bytes Hbytes%map_err_Ok. by apply Hinv.
  - intros Hfit. rewrite Hall; [done|]. by apply within_limits_fields.
Qed.
Lemma canonical_bytes_v2 {serde : VerifyDecode.SerdeJson} given r receipt :
  resources given = Some r -> ExecutionReceipt_new given = Ok receipt ->
  canonical_bytes receipt = canonical_v2_bytes receipt.
Proof.
  intros Hr (_ & facts & _ & ->)%ExecutionReceipt_new_Ok. unfold canonical_bytes.
  cbn [parts resources sorted_parts]. by rewrite Hr.
Qed.

(** * Lemmas: the order of the collections *)

(** The parts with their five collections replaced. *)
Definition with_collections (p : ExecutionReceiptParts) (inputs' : list ArtifactIdentity)
    (environment' : list EnvironmentName) (outputs' : list ArtifactIdentity) (assumptions' : list string)
    (tcb' : list TrustedComputingBaseEntry) : ExecutionReceiptParts :=
  mkExecutionReceiptParts (execution_id p) (plan p) (policy p) (platform p) (runtime p) (command p)
    inputs' environment' (output_root p) (boundary p) (observations p) (streams p) (outcome p)
    (resources p) outputs' (producer p) assumptions' tcb'.

#[export] Instance existsb_Permutation {A} (f : A -> bool) : Proper ((≡ₚ) ==> (=)) (existsb f).
Proof.
  intros l k Hp. apply eq_true_iff_eq. rewrite !existsb_exists.
  by setoid_rewrite <- list_elem_of_In; setoid_rewrite Hp.
Qed.
#[export] Instance require_roles_Permutation :
  Proper ((≡ₚ) ==> (=) ==> (=) ==> (=)) require_roles.
Proof.
  intros l k Hp r ? <- f ? <-. induction Hp as [|x l k _ IH|x y l|]; cbn; [done|by rewrite IH| |congruence].
  unfold require_role. by do 2 case_bool_decide.
Qed.
#[export] Instance require_input_roles_Permutation : Proper ((≡ₚ) ==> (=)) require_input_roles.
Proof.
  intros l k Hp. induction Hp as [|x l k _ IH|x y l|]; cbn; [done|by rewrite IH| |congruence].
  by repeat case_bool_decide.
Qed.
#[export] Instance canonical_string_set_Permutation : Proper ((≡ₚ) ==> (=)) canonical_string_set.
Proof.
  intros l k Hp. unfold canonical_string_set. by rewrite (existsb_Permutation _ _ _ Hp), (sort_Permutation _ _ Hp).
Qed.

(** The sequence the code was given is kept in [parts.environment] only. *)
Definition with_environment (environment' : list EnvironmentName) (receipt : ExecutionReceipt) : ExecutionReceipt :=
  let p := parts receipt in
  mkExecutionReceipt
    (with_collections p (inputs p) environment' (outputs p) (assumptions p) (trusted_computing_base p))
    (receipt_environment receipt) (receipt_assumptions receipt) (eligibility receipt).

Lemma canonical_bytes_with_environment {serde : VerifyDecode.SerdeJson} environment' receipt :
  canonical_bytes (with_environment environment' receipt) = canonical_bytes receipt.
Proof. destruct receipt as [[] env ass el]. reflexivity. Qed.
Lemma new_with_collections p inputs' environment' outputs' assumptions' tcb' :
  inputs p ≡ₚ inputs' -> environment p ≡ₚ environment' -> outputs p ≡ₚ outputs' ->
  assumptions p ≡ₚ assumptions' -> trusted_computing_base p ≡ₚ tcb' ->
  ExecutionReceipt_new (with_collections p inputs' environment' outputs' assumptions' tcb')
  = (receipt ← ExecutionReceipt_new p; Ok (with_environment environment' receipt)).
Proof.
  intros Hi He Ho Ha Ht. unfold ExecutionReceipt_new, with_collections, sorted_parts. cbv zeta.
  unfold check_identities, require_tcb_roles, receipt_facts.
  cbn [inputs outputs output_root producer trusted_computing_base environment assumptions
    boundary execution_id policy runtime resources plan outcome streams command platform observations].
  rewrite <- (require_input_roles_Permutation _ _ Hi).
  rewrite <- (require_roles_Permutation _ _ Ho _ _ eq_refl _ _ eq_refl).
  rewrite <- (sort_Permutation _ _ Hi), <- (sort_Permutation _ _ Ho), <- (sort_Permutation _ _ Ht).
  rewrite <- (canonical_string_set_Permutation _ _ Ha).
  rewrite <- (canonical_string_set_Permutation _ _ (Permutation_map EnvironmentName_as_str He)).
  repeat match goal with
  | |- (x ← ?m; _) = _ => destruct m; cbn [mbind result_bind]; [|done]
  | |- (if ?b then Err _ else _) = _ => destruct b; cbn [mbind result_bind]; [done|]
  end.
  reflexivity.
Qed.
