(* ===== verification/ReceiptWire.v ===== *)
(** The producer's receipts as the verifier decodes them: every value
    [ExecutionReceipt::canonical_v2_bytes]
    ([proofbound-runtime-core/src/receipt.rs]) encodes, read back by the closed
    accessors of the verifier ([proofbound-runtime-verify/src/cbor.rs] and
    [decode.rs]).  The two sides share no code, so every record is carried
    across field by field: [decode_receipt_lift] is the whole decoder. *)
From S2P Require Import Prelude Vectors Authority Identity Eligibility.
From S2P Require WireV2 Policy Plan VerifyCbor VerifyDecode.
Import Eligibility.Producer.
From S2P Require Import Receipt.
From S2P Require VerifyReceipt.
From Stdlib Require Import Ascii ZArith Lia Sorted.
From stdpp Require Import prelude strings list numbers.
Export stdpp.list_relations.list.

(** * The golden receipt of the repository *)

Definition golden_artifact (r : ArtifactRole) (sha256 : string) (bytes mode : Z) : ArtifactIdentity :=
  mkArtifactIdentity r (mkSha256Digest (bytes_of_hex sha256)) bytes (mkFileMode mode).
Definition golden_runtime : ArtifactIdentity :=
  golden_artifact RuntimeBinary "3022d33ed00ece081b990d06bb14aadf610488530808546c8d9c0f7641e4d06e" 9 493.
Definition golden_launcher : ArtifactIdentity :=
  golden_artifact LauncherBinary "bdda2976529c5f62debdab8891c2371309082181be4fdf7aa416626f184b2f76" 14 493.
Definition golden_policy : ArtifactIdentity :=
  golden_artifact CompiledPolicy "5e73121cc9850ccc90a41e7f4ff951c5c499e8847292f94597230061d25d8480" 13 493.
Definition golden_executable : ArtifactIdentity :=
  golden_artifact RuntimeExecutable "5c18c8bd473f526f3bda0097dc1ee8f1773d28dcdc2fbb015a1e698049f35684" 17 493.
Definition golden_limits : ResourceLimits :=
  ResourceLimits_new_v2 (mkProcessLimit 2) (mkWallTimeLimit 1000) (mkOutputByteLimit 1024)
    (mkOutputByteLimit 2048) (mkMemoryByteLimit 65536) (mkSwapByteLimit 0).
Definition golden_execution_id : ExecutionId :=
  mkExecutionId (bytes_of_hex "00112233445546778899aabbccddeeff").
Definition golden_tcb : list TrustedComputingBaseEntry :=
  map (fun ri => mkTrustedComputingBaseEntry ri.1 ri.2)
    [(HostHardwareFirmware, "golden-host"); (LinuxKernel, "golden-linux");
     (Landlock, "golden-landlock"); (Seccomp, "golden-seccomp"); (CgroupV2, "golden-cgroup");
     (NoNewPrivileges, "golden-nnp"); (Filesystem, "golden-filesystem");
     (Tcb_RuntimeBinary, Sha256Digest_to_hex (digest golden_runtime));
     (Tcb_LauncherBinary, Sha256Digest_to_hex (digest golden_launcher));
     (RustToolchain, "golden-rust"); (CryptographicDigest, "sha256");
     (Tcb_RuntimeExecutable, Sha256Digest_to_hex (digest golden_executable))].
Definition golden_resources : ReceiptResources :=
  mkReceiptResources (mkProcessLimit 2) (mkMemoryByteLimit 65536) (mkSwapByteLimit 0)
    1 32768 0 (mkReceiptMemoryEvents 0 0 0 0 0 0) (mkReceiptSwapEvents 0 0) (LimitEvents_new []) true.
(** [golden_v2_parts] of the unit tests, with a given outcome. *)
Definition golden_parts (o : ExecutionOutcome) : ExecutionReceiptParts := {|
  execution_id := golden_execution_id;
  plan := mkReceiptPlan (Plan.mkPlanId "golden-v2")
    (golden_artifact ExecutionPlan "281cbffd267de3baa7ee90198a2888a00796621b477565a50be74aa597f294a1" 18 493)
    (golden_artifact NormalizedPlan "899c84ba720673653f8df702fb10e11cb62f813c13ecffe5717d11432c061d97" 22 493)
    (Some golden_limits);
  policy := mkReceiptPolicy golden_policy;
  platform := mkPlatformIdentity X86_64 "6.8.0" 4 ["deny-network-v1"] ["memory"; "pids"];
  runtime := mkRuntimeIdentity golden_runtime golden_launcher;
  command := mkReceiptCommand golden_executable None
    (golden_artifact WorkingDirectory "d3e6b2848d8ab0de976f0673252fb15547e205e839057cb77a534178a9cdc262" 10 493)
    (mkSha256Digest (bytes_of_hex "b3f109398794e6323bfb9f0689b1c126a0a7cb7694c38b981f9ff775932ff67a"));
  inputs := [];
  environment := [];
  output_root := golden_artifact OutputRoot "8c6db6f8c394c1f6348af72cff2c4671c6c44939a86a75d96112f6670cc8c654" 13 448;
  boundary := mkBoundaryRecord Boundary_Installed golden_execution_id (digest golden_policy)
    (mkCgroupIdentity 34 12);
  observations := mkExecutionObservations 100 200;
  streams := mkReceiptStreams
    (mkStreamRecord (golden_artifact StandardOutput
       "70475a4ae63801e91671615b41d7303a28e53e8d7f4e78bfdcb0560d70238444" 13 384) Capture_Complete)
    (mkStreamRecord (golden_artifact StandardError
       "06f9921f8e67ce3fe3a96ff36f9ec7c29327d53bd94789acf075bf1c4704fb33" 13 384) Capture_Complete);
  outcome := o;
  resources := Some golden_resources;
  outputs := [];
  producer := golden_runtime;
  assumptions := REQUIRED_RUNTIME_ASSUMPTIONS;
  trusted_computing_base := golden_tcb
|}.

(** [version_two_receipt_producer_matches_the_frozen_golden_bytes] *)
Example producer_matches_golden :
  (receipt ← ExecutionReceipt_new (golden_parts (Exited 0)); canonical_v2_bytes receipt)
  = Ok execution_receipt.
Proof. vm_compute. reflexivity. Qed.

(** * Reading the producer's values with the verifier's accessors *)

Module Core := WireV2.
Module Seen := VerifyCbor.

#[export] Notation seen := VerifyCbor.seen.
#[export] Notation lift := VerifyCbor.lift.
#[export] Notation core_value_seen := VerifyCbor.core_value_seen.
#[export] Notation core_value_inj := VerifyCbor.core_value_inj.
#[export] Notation decode_lift := VerifyCbor.decode_lift.
#[export] Notation decode_too_large := VerifyCbor.decode_too_large.

(** The entries of a decoded map. *)
Definition entries (kvs : list (string * Core.Value)) : list (string * Seen.Value) :=
  map (fun kv => (kv.1, seen kv.2))
    (sort_by (fun l r => Core.key_lt l.1 r.1) (WireMaps.canon_values kvs)).
Lemma entries_Permutation kvs : entries kvs ≡ₚ map (fun kv => (kv.1, lift kv.2)) kvs.
Proof.
  unfold entries. rewrite sort_by_Permutation. unfold WireMaps.canon_values. by rewrite map_map.
Qed.
Lemma lift_Map kvs : lift (Core.Map kvs) = Seen.Map (entries kvs).
Proof. reflexivity. Qed.
Lemma lift_Array {A} (f : A -> Core.Value) l :
  lift (Core.Array (map f l)) = Seen.Array (map (fun a => lift (f a)) l).
Proof. unfold lift; cbn. by rewrite !map_map. Qed.
Lemma lift_Text s : lift (Core.Text s) = Seen.Text s.
Proof. reflexivity. Qed.
Lemma lift_Unsigned z : lift (Core.Unsigned z) = Seen.Unsigned z.
Proof. reflexivity. Qed.
Lemma lift_Bytes b : lift (Core.Bytes b) = Seen.Bytes b.
Proof. reflexivity. Qed.

Definition has_names (kvs : list (string * Core.Value)) (names : list string) : bool :=
  (length kvs =? length names)
  && forallb (fun name => existsb (fun kv => String.eqb kv.1 name) kvs) names.
Lemma exact_map_lift kvs names :
  has_names kvs names = true ->
  VerifyDecode.exact_map (lift (Core.Map kvs)) names = Ok (entries kvs).
Proof.
  unfold has_names. rewrite lift_Map. intros [Hl Hn]%andb_true_iff. unfold VerifyDecode.exact_map.
  assert (length (entries kvs) = length kvs) as -> by (by rewrite entries_Permutation, length_map).
  rewrite Hl. cbn [negb orb].
  assert (forallb (fun name => existsb (VerifyDecode.is_name name) (entries kvs)) names = true) as ->; [|done].
  rewrite forallb_forall in Hn |- *. intros name Hin. rewrite <- (Hn name Hin).
  rewrite (existsb_Permutation _ _ _ (entries_Permutation kvs)). unfold VerifyDecode.is_name.
  clear. induction kvs as [|kv kvs IH]; cbn; congruence.
Qed.
Lemma find_Some_iff (kvs : list (string * Seen.Value)) k v :
  NoDup kvs.*1 -> (k, v) ∈ kvs -> List.find (VerifyDecode.is_name k) kvs = Some (k, v).
Proof.
  induction kvs as [|[k' v'] kvs IH]; cbn; [by intros _ ?%elem_of_nil|].
  intros [Hni Hnd]%NoDup_cons [Heq|Hin]%elem_of_cons.
  - injection Heq as <- <-. unfold VerifyDecode.is_name; cbn. by rewrite String.eqb_refl.
  - unfold VerifyDecode.is_name at 1; cbn. destruct (String.eqb_spec k' k) as [->|_]; [|auto].
    exfalso. apply Hni, list_elem_of_fmap. by exists (k, v).
Qed.
Lemma field_lift kvs k v :
  bool_decide (NoDup kvs.*1) = true ->
  List.find (fun kv => String.eqb kv.1 k) kvs = Some (k, v) ->
  VerifyDecode.field (entries kvs) k = Ok (lift v).
Proof.
  intros Hnd%bool_decide_eq_true Hf%List.find_some. destruct Hf as [Hin%list_elem_of_In _].
  unfold VerifyDecode.field. rewrite (find_Some_iff _ k (lift v)); [done| |].
  - rewrite entries_Permutation. change (map ?f kvs) with (f <$> kvs).
    by rewrite <- list_fmap_compose.
  - rewrite entries_Permutation. apply list_elem_of_fmap. by exists (k, v).
Qed.

(** Reads the fields of a literal map one after the other. *)
Ltac read_exact :=
  match goal with |- context [VerifyDecode.exact_map (lift (Core.Map ?kvs)) ?names] =>
    rewrite (exact_map_lift kvs names) by (vm_compute; reflexivity) end;
  cbn [mbind result_bind].
Ltac assoc kvs k :=
  lazymatch kvs with
  | cons (k, ?v) _ => v
  | cons _ ?rest => assoc rest k
  end.
Ltac read_field :=
  match goal with |- context [VerifyDecode.field (entries ?kvs) ?k] =>
    let v := assoc kvs k in
    rewrite (field_lift kvs k v ltac:(first [assumption | vm_compute; reflexivity]) eq_refl)
  end; rewrite ?lift_Text, ?lift_Unsigned, ?lift_Bytes;
  cbn [mbind result_bind VerifyDecode.text VerifyDecode.unsigned].
Ltac read_map := read_exact; repeat read_field.

(** * What the verifier sees of each component *)

Definition wire_role (r : ArtifactRole) : VerifyDecode.WireArtifactRole :=
  match r with
  | ExecutionPlan => VerifyDecode.ExecutionPlan
  | NormalizedPlan => VerifyDecode.NormalizedPlan
  | CompiledPolicy => VerifyDecode.CompiledPolicy
  | RuntimeBinary => VerifyDecode.RuntimeBinary
  | LauncherBinary => VerifyDecode.LauncherBinary
  | VerifierBinary => VerifyDecode.VerifierBinary
  | RuntimeExecutable => VerifyDecode.RuntimeExecutable
  | RuntimeLoaderExecutable => VerifyDecode.RuntimeLoaderExecutable
  | RuntimeLibrary => VerifyDecode.RuntimeLibrary
  | WorkingDirectory => VerifyDecode.WorkingDirectory
  | ProjectInput => VerifyDecode.ProjectInput
  | OutputRoot => VerifyDecode.OutputRoot
  | StandardOutput => VerifyDecode.StandardOutput
  | StandardError => VerifyDecode.StandardError
  | OutputArtifact => VerifyDecode.OutputArtifact
  end.
Definition wire_artifact (a : ArtifactIdentity) : VerifyDecode.WireArtifact :=
  VerifyDecode.mkWireArtifact (wire_role (role a)) (Sha256Digest_to_hex (digest a))
    (u64_to_string (Identity.size a)) (FileMode_get (mode a)).

(** The range tests of the decoder on values in range. *)
Lemma mode_u16_Ok z : (0 <= z <= 4095)%Z -> VerifyDecode.mode_u16 z = Ok z.
Proof.
  intros H. unfold VerifyDecode.mode_u16, u16_try_from.
  rewrite (proj2 (try_from_Some u16_bound z z)) by (unfold u16_bound; lia).
  by rewrite (proj2 (Z.leb_le _ _)) by lia.
Qed.
Lemma nonzero_u32_Ok z : (0 < z < u32_bound)%Z -> VerifyDecode.nonzero_u32 z = Ok z.
Proof.
  intros H. unfold VerifyDecode.nonzero_u32, u32_try_from.
  rewrite (proj2 (try_from_Some u32_bound z z)) by lia.
  by rewrite (proj2 (Z.eqb_neq _ _)) by lia.
Qed.
Lemma bytes_exact_Ok n l : length l = n -> VerifyDecode.bytes_exact n (Seen.Bytes l) = Ok l.
Proof. intros <-. unfold VerifyDecode.bytes_exact. by rewrite Nat.eqb_refl. Qed.
Lemma parse_artifact_lift a :
  ArtifactIdentity_ok a -> VerifyDecode.parse_artifact (lift (cbor_artifact a)) = Ok (wire_artifact a).
Proof.
  intros (Hd & Hs & Hm). unfold VerifyDecode.parse_artifact, cbor_artifact. read_map.
  rewrite mode_u16_Ok by done. rewrite bytes_exact_Ok by done. cbn [mbind result_bind].
  by destruct a as [[] ? ? ?].
Qed.
Lemma mapM_Ok_Forall {E A B} (f : A -> result E B) (g : A -> B) l :
  Forall (fun a => f a = Ok (g a)) l -> mapM f l = Ok (map g l).
Proof. induction 1 as [|a l Ha _ IH]; [done|]. cbn. by rewrite Ha, IH. Qed.
Lemma mapM_map {E A B C} (f : B -> result E C) (g : A -> B) l :
  mapM f (map g l) = mapM (fun a => f (g a)) l.
Proof. induction l as [|a l IH]; [done|]. cbn. by rewrite IH. Qed.
Lemma parse_artifacts_lift l :
  Forall ArtifactIdentity_ok l ->
  VerifyDecode.parse_artifacts (lift (Core.Array (map cbor_artifact l))) = Ok (map wire_artifact l).
Proof.
  intros Hl. rewrite lift_Array. unfold VerifyDecode.parse_artifacts. cbn [VerifyDecode.array mbind result_bind].
  rewrite mapM_map. apply mapM_Ok_Forall. eapply Forall_impl; [exact Hl|]. apply parse_artifact_lift.
Qed.
Lemma parse_text_array_lift l : VerifyDecode.parse_text_array (lift (cbor_text_array l)) = Ok l.
Proof.
  unfold cbor_text_array. rewrite lift_Array. unfold VerifyDecode.parse_text_array.
  cbn [VerifyDecode.array mbind result_bind]. rewrite mapM_map.
  rewrite (mapM_Ok_Forall _ id); [by rewrite map_id|]. apply Forall_forall. done.
Qed.
Lemma hex_digest d : VerifyDecode.hex (digest_bytes d) = Sha256Digest_to_hex d.
Proof. reflexivity. Qed.

Definition wire_plan (p : ReceiptPlan) : VerifyDecode.WirePlan :=
  VerifyDecode.mkWirePlan (Plan.PlanId_as_str (rp_id p)) (wire_artifact (rp_source p))
    (wire_artifact (rp_normalized p)).
Definition wire_limits (l : ResourceLimits) (m : MemoryByteLimit) (s : SwapByteLimit) :
    VerifyDecode.WirePlanLimits :=
  VerifyDecode.mkWirePlanLimits (ProcessLimit_get (processes l))
    (WallTimeLimit_milliseconds (wall_time l)) (OutputByteLimit_get (stdout l))
    (OutputByteLimit_get (stderr l)) (MemoryByteLimit_get m) (SwapByteLimit_get s).
Lemma memory_valid m :
  MemoryByteLimit_ok m -> VerifyDecode.memory_invalid (MemoryByteLimit_get m) = false.
Proof.
  intros [Hm Hq]%memory_range. unfold VerifyDecode.memory_invalid, VerifyDecode.RESOURCE_QUANTUM,
    VerifyDecode.MAX_RESOURCE_BYTES.
  rewrite Hq, !(proj2 (Z.leb_le _ _)) by lia. reflexivity.
Qed.
Lemma swap_valid s : SwapByteLimit_ok s -> VerifyDecode.swap_invalid (SwapByteLimit_get s) = false.
Proof.
  intros [Hm Hq]%swap_range. unfold VerifyDecode.swap_invalid, VerifyDecode.RESOURCE_QUANTUM,
    VerifyDecode.MAX_RESOURCE_BYTES.
  rewrite Hq, (proj2 (Z.ltb_ge _ _)) by lia. reflexivity.
Qed.
Lemma parse_plan_lift p l v :
  ReceiptPlan_ok p -> rp_normalized_limits p = Some l -> cbor_plan p = Ok v ->
  exists m s, memory l = Some m /\ swap_limit l = Some s
    /\ VerifyDecode.parse_plan (lift v) = Ok (wire_plan p, wire_limits l m s).
Proof.
  intros Hok Hl Hv. destruct (cbor_plan_Ok p l Hok Hl) as (m & s & v' & Hm & Hs & Hv' & _).
  exists m, s. split; [done|]. split; [done|]. unfold cbor_plan in Hv.
  rewrite Hl in Hv; cbn [ok_or mbind result_bind] in Hv. rewrite Hm in Hv; cbn [ok_or mbind result_bind] in Hv.
  rewrite Hs in Hv; cbn [ok_or mbind result_bind] in Hv. injection Hv as <-.
  destruct Hok as [_ Hsrc Hnorm _ Hlim]. destruct (Hlim l Hl) as [[Hp [_ Hw] _ _ Hmem Hsw] _].
  unfold VerifyDecode.parse_plan. read_map. read_map.
  rewrite nonzero_u32_Ok by apply Hp. cbn [mbind result_bind].
  rewrite (proj2 (Z.eqb_neq _ _)) by done. rewrite memory_valid by (by apply Hmem).
  rewrite swap_valid by (by apply Hsw). cbn [orb].
  rewrite !parse_artifact_lift by done. reflexivity.
Qed.

Definition wire_policy (p : ReceiptPolicy) : VerifyDecode.WirePolicy :=
  VerifyDecode.mkWirePolicy (wire_artifact (rpol_identity p)) POLICY_MODEL_VERSION_V2.
Lemma parse_policy_lift p :
  ArtifactIdentity_ok (rpol_identity p) ->
  VerifyDecode.parse_policy (lift (cbor_policy p)) = Ok (wire_policy p).
Proof.
  intros H. unfold VerifyDecode.parse_policy, cbor_policy. read_map.
  change (String.eqb POLICY_MODEL_VERSION_V2 VerifyDecode.POLICY) with true. cbn [negb].
  by rewrite parse_artifact_lift.
Qed.

Definition wire_architecture (a : Architecture) : VerifyDecode.WireArchitecture :=
  match a with X86_64 => VerifyDecode.X86_64 | Aarch64 => VerifyDecode.Aarch64 end.
Definition wire_platform (p : PlatformIdentity) : VerifyDecode.WirePlatform :=
  VerifyDecode.mkWirePlatform "linux" (wire_architecture (pf_architecture p)) (pf_kernel_release p)
    (pf_landlock_abi p) (pf_seccomp_features p) (pf_cgroup_controllers p).
Lemma parse_platform_lift p :
  (0 < pf_landlock_abi p < u32_bound)%Z ->
  VerifyDecode.parse_platform (lift (cbor_platform p)) = Ok (wire_platform p).
Proof.
  intros H. unfold VerifyDecode.parse_platform, cbor_platform. read_map.
  change (String.eqb "linux" "linux") with true. cbn [negb].
  rewrite nonzero_u32_Ok by done. rewrite !parse_text_array_lift. cbn [mbind result_bind].
  by destruct p as [[]].
Qed.

Definition wire_runtime (r : RuntimeIdentity) : VerifyDecode.WireRuntime :=
  VerifyDecode.mkWireRuntime (wire_artifact (ri_runtime r)) (wire_artifact (ri_launcher r)).
Lemma parse_runtime_lift r :
  ArtifactIdentity_ok (ri_runtime r) -> ArtifactIdentity_ok (ri_launcher r) ->
  VerifyDecode.parse_runtime (lift (cbor_runtime r)) = Ok (wire_runtime r).
Proof.
  intros H1 H2. unfold VerifyDecode.parse_runtime, cbor_runtime. read_map.
  by rewrite !parse_artifact_lift.
Qed.

Definition wire_command (c : ReceiptCommand) : VerifyDecode.WireCommand :=
  VerifyDecode.mkWireCommand (wire_artifact (rc_executable c)) (wire_artifact <$> rc_loader c)
    (wire_artifact (rc_working_directory c)) (Sha256Digest_to_hex (rc_arguments_sha256 c)).
Lemma parse_loader_lift o :
  (forall a, o = Some a -> ArtifactIdentity_ok a) ->
  VerifyDecode.parse_loader (lift (from_option cbor_artifact Core.Null o)) = Ok (wire_artifact <$> o).
Proof.
  intros H. destruct o as [a|]; [|done]. cbn [from_option].
  pose proof (parse_artifact_lift a (H a eq_refl)) as Hp. unfold VerifyDecode.parse_loader.
  destruct (lift (cbor_artifact a)) eqn:Hl; try done; rewrite <- Hl in *; by rewrite Hp.
Qed.
Lemma parse_command_lift c :
  ReceiptCommand_ok c -> VerifyDecode.parse_command (lift (cbor_command c)) = Ok (wire_command c).
Proof.
  intros [_ He Hl Hw Ha]. unfold VerifyDecode.parse_command, cbor_command. read_map.
  rewrite parse_loader_lift by done. rewrite !parse_artifact_lift by done.
  rewrite bytes_exact_Ok by done. reflexivity.
Qed.

Definition wire_boundary_state (b : BoundaryInstallation) : VerifyDecode.WireBoundaryState :=
  match b with
  | Boundary_Installed => VerifyDecode.Wire_Installed
  | Boundary_Incomplete => VerifyDecode.Wire_BoundaryIncomplete
  end.
Definition wire_boundary (b : BoundaryRecord) : VerifyDecode.WireBoundary :=
  VerifyDecode.mkWireBoundary (wire_boundary_state (br_state b))
    (VerifyDecode.uuid_text (ExecutionId_as_bytes (br_execution_id b)))
    (Sha256Digest_to_hex (br_policy_sha256 b))
    (VerifyDecode.mkWireCgroup (u64_to_string (cg_mount_id (br_cgroup b)))
       (u64_to_string (cg_inode (br_cgroup b)))).
Lemma parse_boundary_lift b :
  BoundaryRecord_ok b -> VerifyDecode.parse_boundary (lift (cbor_boundary b)) = Ok (wire_boundary b).
Proof.
  intros [[Hi _] Hp _]. unfold VerifyDecode.parse_boundary, cbor_boundary. read_map. read_map.
  rewrite !bytes_exact_Ok by done. by destruct b as [[] ? ? ?].
Qed.

Definition wire_observations (o : ExecutionObservations) : VerifyDecode.WireObservations :=
  VerifyDecode.mkWireObservations "linux-monotonic" (u64_to_string (eo_started_ns o))
    (u64_to_string (eo_finished_ns o)).
Lemma parse_observations_lift o :
  VerifyDecode.parse_observations (lift (cbor_observations o)) = Ok (wire_observations o).
Proof. unfold VerifyDecode.parse_observations, cbor_observations. by read_map. Qed.

Definition wire_capture (c : StreamCapture) : VerifyDecode.WireCapture :=
  match c with
  | Capture_Complete => VerifyDecode.Wire_Complete
  | Capture_Truncated => VerifyDecode.Wire_Truncated
  end.
Definition wire_stream (r : StreamRecord) : VerifyDecode.WireStream :=
  VerifyDecode.mkWireStream (wire_artifact (sr_artifact r)) (wire_capture (sr_capture r)).
Definition wire_streams (s : ReceiptStreams) : VerifyDecode.WireStreams :=
  VerifyDecode.mkWireStreams (wire_stream (rs_stdout s)) (wire_stream (rs_stderr s)).
Lemma parse_stream_lift r :
  ArtifactIdentity_ok (sr_artifact r) ->
  VerifyDecode.parse_stream (lift (cbor_stream r)) = Ok (wire_stream r).
Proof.
  intros H. unfold VerifyDecode.parse_stream, cbor_stream. read_map.
  rewrite parse_artifact_lift by done. by destruct r as [? []].
Qed.
Lemma parse_streams_lift s :
  ReceiptStreams_ok s -> VerifyDecode.parse_streams (lift (cbor_streams s)) = Ok (wire_streams s).
Proof.
  intros (_ & H1 & H2). unfold VerifyDecode.parse_streams, cbor_streams. read_map.
  by rewrite !parse_stream_lift.
Qed.

Definition wire_outcome (o : ExecutionOutcome) : VerifyDecode.WireOutcome :=
  match o with
  | Exited code => VerifyDecode.Wire_Exited code
  | Signaled signal => VerifyDecode.Wire_Signaled (SignalNumber_get signal)
  | TimedOut => VerifyDecode.Wire_TimedOut
  | Denied => VerifyDecode.Wire_Denied
  | LauncherFailed => VerifyDecode.Wire_LauncherFailed
  | Incomplete => VerifyDecode.Wire_Incomplete
  end.
Lemma i32_range z :
  (- 2 ^ 31 <= z < 2 ^ 31)%Z ->
  i64_try_from z = Some z /\ VerifyDecode.i32_try_from z = Some z.
Proof.
  intros H. unfold i64_try_from, VerifyDecode.i32_try_from.
  by rewrite !(proj2 (Z.leb_le _ z)), !(proj2 (Z.ltb_lt z _)) by lia.
Qed.
Lemma signed_i32_lift code :
  (- 2 ^ 31 <= code < 2 ^ 31)%Z ->
  VerifyDecode.signed_i32
    (lift (if (0 <=? code)%Z then Core.Unsigned code else Core.Negative (-1 - code))) = Ok code.
Proof.
  intros [H64 H32]%i32_range. unfold VerifyDecode.signed_i32.
  destruct (0 <=? code)%Z; unfold lift; cbn [ Core.canon seen]; [|replace (-1 - (-1 - code))%Z with code by lia];
    rewrite H64; cbn [ok_or mbind result_bind]; by rewrite H32.
Qed.
Lemma parse_outcome_lift o :
  ExecutionOutcome_ok o -> VerifyDecode.parse_outcome (lift (cbor_outcome o)) = Ok (wire_outcome o).
Proof.
  intros H. unfold cbor_outcome, VerifyDecode.parse_outcome.
  destruct o as [code|signal| | | |]; cbn [ExecutionOutcome_ok] in H; rewrite lift_Map; cbv beta iota;
    rewrite <- lift_Map; read_field;
    repeat match goal with |- context [String.eqb ?a ?b] =>
      let r := eval vm_compute in (String.eqb a b) in change (String.eqb a b) with r end;
    cbv beta iota; read_exact; try reflexivity; read_field.
  - by rewrite signed_i32_lift.
  - by rewrite nonzero_u32_Ok.
Qed.

(** ** Reasons and eligibility *)

Definition wire_reason (r : NonReusableReason) : VerifyDecode.WireReason :=
  VerifyReceipt.reason_from_failure (Spec.view_reason r).
Lemma reason_lift r : VerifyDecode.reason (non_reusable_reason_wire_name r) = Ok (wire_reason r).
Proof. by destruct r. Qed.
Lemma parse_reason_array_lift {A} (name : A -> string) (reason : A -> VerifyDecode.WireReason) l :
  (forall a, VerifyDecode.reason (name a) = Ok (reason a)) ->
  VerifyDecode.parse_reason_array (lift (cbor_text_array (map name l))) = Ok (map reason l).
Proof.
  intros H. unfold cbor_text_array. rewrite map_map, lift_Array. unfold VerifyDecode.parse_reason_array.
  cbn [VerifyDecode.array mbind result_bind]. rewrite mapM_map. apply mapM_Ok_Forall, Forall_forall.
  intros a _. apply H.
Qed.
Definition wire_eligibility (e : ReceiptEligibility) : VerifyDecode.WireEligibility :=
  match e with
  | Reusable => VerifyDecode.mkWireEligibility VerifyDecode.Status_Reusable []
  | NonReusable reasons =>
    VerifyDecode.mkWireEligibility VerifyDecode.Status_NonReusable (map wire_reason reasons)
  end.
Definition recorded (e : ReceiptEligibility) : VerifyDecode.RecordedEligibility :=
  match e with
  | Reusable => VerifyDecode.Recorded_Reusable
  | NonReusable reasons => VerifyDecode.Recorded_NonReusable (map wire_reason reasons)
  end.
Lemma parse_eligibility_lift e :
  VerifyDecode.parse_eligibility (lift (cbor_eligibility e)) = Ok (wire_eligibility e).
Proof.
  unfold VerifyDecode.parse_eligibility, cbor_eligibility, eligibility_names. destruct e as [|reasons].
  - read_map. change (@nil string) with (map non_reusable_reason_wire_name []).
    by rewrite (parse_reason_array_lift _ wire_reason) by apply reason_lift.
  - read_map. by rewrite (parse_reason_array_lift _ wire_reason) by apply reason_lift.
Qed.
Lemma recorded_lift f :
  VerifyDecode.recorded_of (wire_eligibility (derive_receipt_eligibility f))
  = Ok (recorded (derive_receipt_eligibility f)).
Proof. rewrite Spec.reasons_filter. unfold Spec.eligibility_of. by destruct (filter _ _). Qed.

(** ** Resources *)

Definition event_reasons : list (LimitEvent * VerifyDecode.WireReason) :=
  [(LimitEvent_MemoryHigh, VerifyDecode.MemoryHigh); (LimitEvent_MemoryMax, VerifyDecode.MemoryMax);
   (LimitEvent_MemoryOom, VerifyDecode.MemoryOom); (LimitEvent_MemoryOomKill, VerifyDecode.MemoryOomKill);
   (LimitEvent_MemoryOomGroupKill, VerifyDecode.MemoryOomGroupKill);
   (LimitEvent_SwapMax, VerifyDecode.SwapMax); (LimitEvent_SwapFail, VerifyDecode.SwapFail)].
Definition wire_limit_events (e : LimitEvents) : list VerifyDecode.WireReason :=
  omap (fun er => if LimitEvents_contains e er.1 then Some er.2 else None) event_reasons.
Lemma limit_events_lift e :
  VerifyDecode.parse_reason_array (lift (cbor_text_array (canonical_limit_events e)))
  = Ok (wire_limit_events e).
Proof. destruct e as [[] [] [] [] [] [] []]; reflexivity. Qed.

Definition wire_resources (r : ReceiptResources) : VerifyDecode.WireResources :=
  let m := rr_memory_events r in
  let s := rr_swap_events r in
  VerifyDecode.mkWireResources (ProcessLimit_get (rr_processes r)) (MemoryByteLimit_get (rr_memory r))
    (SwapByteLimit_get (rr_swap r)) (rr_memory_peak_bytes r) (rr_swap_peak_bytes r)
    [me_low m; me_high m; me_max m; me_oom m; me_oom_kill m; me_oom_group_kill m]
    [se_max s; se_fail s] (wire_limit_events (rr_limit_events r)) (rr_observations_complete r).
(** The two forms of a record. *)
Lemma resources_forms r :
  ReceiptResources_ok r ->
  rr_memory_oom_group r = 1%Z
  /\ (if rr_observations_complete r
      then rr_limit_events r = LimitEvents_new (observed_limit_events (rr_memory_events r) (rr_swap_events r))
      else rr_memory_peak_bytes r = 0%Z /\ rr_swap_peak_bytes r = 0%Z
        /\ rr_memory_events r = mkReceiptMemoryEvents 0 0 0 0 0 0
        /\ rr_swap_events r = mkReceiptSwapEvents 0 0 /\ rr_limit_events r = LimitEvents_default).
Proof.
  intros [_ _ _ _ _ [(c & Hc1 & Hc2)|Hi]]; destruct r; cbn in *.
  - injection Hc1 as <-. injection Hc2 as H1 H2 H3. cbn in *. by subst.
  - injection Hi as <- <- <- <- <- <- <-. by repeat split.
Qed.
Lemma parse_terminal_lift r :
  rr_observations_complete r = true ->
  VerifyDecode.parse_terminal (lift (cbor_terminal r))
  = Ok (rr_memory_peak_bytes r, rr_swap_peak_bytes r,
        VerifyDecode.res_memory_events (wire_resources r), VerifyDecode.res_swap_events (wire_resources r)).
Proof.
  intros Hc. unfold VerifyDecode.parse_terminal, cbor_terminal. rewrite Hc.
  read_map. read_map. read_map. reflexivity.
Qed.
Lemma parse_resources_lift r :
  ReceiptResources_ok r -> VerifyDecode.parse_resources (lift (cbor_resources r)) = Ok (wire_resources r).
Proof.
  intros Hok. destruct (resources_forms r Hok) as [Hg Hform]. destruct Hok as [Hp Hm Hs _ _ _].
  unfold VerifyDecode.parse_resources, cbor_resources. read_map. read_map.
  rewrite nonzero_u32_Ok by done. cbn [mbind result_bind].
  rewrite memory_valid, swap_valid by done. cbn [orb]. rewrite Hg. cbn [Z.eqb Pos.eqb negb].
  rewrite limit_events_lift. cbn [mbind result_bind].
  destruct (rr_observations_complete r) eqn:Hc.
  - pose proof (parse_terminal_lift r Hc) as Ht.
    destruct (lift (cbor_terminal r)) eqn:Hl;
      try (rewrite Ht; cbn [mbind result_bind]; unfold wire_resources; by rewrite Hc).
    exfalso. unfold cbor_terminal in Hl. rewrite Hc in Hl. discriminate Hl.
  - unfold cbor_terminal. rewrite Hc. destruct Hform as (H1 & H2 & H3 & H4 & H5).
    cbn [lift Core.canon seen]. unfold wire_resources. by rewrite H1, H2, H3, H4, Hc.
Qed.

(** ** The trusted computing base *)

Definition wire_tcb_entry (e : TrustedComputingBaseEntry) : VerifyDecode.WireTcbEntry :=
  VerifyDecode.mkWireTcbEntry (TrustedComputingBaseRole_as_str (tcb_role e)) (tcb_identity e).
Lemma parse_tcb_entry_lift e :
  VerifyDecode.parse_tcb_entry (lift (cbor_tcb_entry e)) = Ok (wire_tcb_entry e).
Proof. unfold VerifyDecode.parse_tcb_entry, cbor_tcb_entry. by read_map. Qed.
Lemma parse_tcb_lift l :
  l <> [] -> VerifyDecode.parse_tcb (lift (Core.Array (map cbor_tcb_entry l))) = Ok (map wire_tcb_entry l).
Proof.
  intros Hl. rewrite lift_Array. unfold VerifyDecode.parse_tcb. cbn [VerifyDecode.array mbind result_bind].
  rewrite length_map, bool_decide_eq_false_2 by (by destruct l). rewrite mapM_map.
  apply mapM_Ok_Forall, Forall_forall. intros e _. apply parse_tcb_entry_lift.
Qed.

(** * The JSON projection never fails on a receipt *)

Fixpoint projectable (v : Core.Value) : bool :=
  match v with
  | Core.Negative z => (0 <=? z)%Z && (z <? 2 ^ 63)%Z
  | Core.Array vs => forallb projectable vs
  | Core.Map kvs => forallb (fun kv => projectable kv.2) kvs
  | _ => true
  end.
Lemma projectable_canon v : projectable v = true -> projectable (Core.canon v) = true.
Proof.
  induction v as [| | | |vs IH|kvs IH| |] using Core.Value_rec_full; cbn; try done.
  - rewrite !forallb_forall. intros H v (w & <- & Hw)%in_map_iff. rewrite Forall_forall in IH.
    apply IH; [by apply list_elem_of_In|auto].
  - rewrite (Core.forallb_Permutation _ _ _ (sort_by_Permutation _ _)), !forallb_forall.
    intros H v (w & <- & Hw)%in_map_iff. rewrite Forall_forall in IH. cbn.
    apply IH; [by apply list_elem_of_In|]. by apply H.
Qed.
Lemma mapM_total {E A B} (f : A -> result E B) l :
  Forall (fun a => exists b, f a = Ok b) l -> exists bs, mapM f l = Ok bs.
Proof.
  induction 1 as [|a l [b Hb] _ [bs IH]]; [by eexists|]. exists (b :: bs). cbn. by rewrite Hb, IH.
Qed.

Section accepted.
Context {serde : VerifyDecode.SerdeJson}.

Lemma project_total v path :
  projectable v = true -> exists json, VerifyDecode.project (seen v) path = Ok json.
Proof.
  revert path. induction v as [z|z|b|s|vs IH|kvs IH|b|] using Core.Value_rec_full; cbn; intros path Hp; eauto.
  - destruct (VerifyDecode.decimal_projection_path path); eauto.
  - apply andb_true_iff in Hp as [H1%Z.leb_le H2%Z.ltb_lt]. unfold i64_try_from.
    rewrite (proj2 (Z.leb_le _ _)), (proj2 (Z.ltb_lt _ _)) by lia. cbn. eauto.
  - rewrite mapM_map. rewrite forallb_forall in Hp. rewrite Forall_forall in IH.
    destruct (mapM_total (fun v => VerifyDecode.project (seen v) path) vs) as [js ->]; [|cbn; eauto].
    apply Forall_forall. intros v Hv. apply IH; [done|]. by apply Hp, list_elem_of_In.
  - rewrite mapM_map. rewrite forallb_forall in Hp. rewrite Forall_forall in IH.
    match goal with |- context [mapM ?f kvs] => destruct (mapM_total f kvs) as [js ->]; [|cbn; eauto] end.
    apply Forall_forall. intros kv Hkv. cbn.
    destruct (IH kv Hkv (path ++ [kv.1])) as [j ->]; [by apply Hp, list_elem_of_In|]. cbn. eauto.
Qed.

Lemma projectable_map {A} (f : A -> Core.Value) l :
  (forall a, projectable (f a) = true) -> forallb projectable (map f l) = true.
Proof. intros H. apply forallb_forall. intros v (a & <- & _)%in_map_iff. apply H. Qed.
Lemma text_array_projectable l : projectable (cbor_text_array l) = true.
Proof. by apply projectable_map. Qed.
Lemma outcome_projectable o : ExecutionOutcome_ok o -> projectable (cbor_outcome o) = true.
Proof.
  destruct o as [code|signal| | | |]; cbn; try done. intros H.
  destruct (0 <=? code)%Z eqn:Hc; cbn; [done|]. rewrite andb_true_r.
  apply andb_true_iff. split; [apply Z.leb_le|apply Z.ltb_lt]; lia.
Qed.
Lemma plan_projectable p v : cbor_plan p = Ok v -> projectable v = true.
Proof.
  unfold cbor_plan. intros H. apply bind_Ok in H as (? & _ & H). apply bind_Ok in H as (? & _ & H).
  apply bind_Ok in H as (? & _ & H). by injection H as <-.
Qed.
Lemma receipt_projectable receipt v :
  ExecutionOutcome_ok (outcome (parts receipt)) -> receipt_value receipt = Ok v -> projectable v = true.
Proof.
  intros Ho H. unfold receipt_value, receipt_fields in H. apply bind_Ok in H as (fields & Hf & [= <-]).
  apply bind_Ok in Hf as (r & _ & Hf). apply bind_Ok in Hf as (pv & Hp%plan_projectable & [= <-]).
  cbn [projectable forallb snd]. rewrite Hp, outcome_projectable by done. unfold cbor_eligibility.
  destruct (eligibility_names (eligibility receipt)). unfold cbor_platform, cbor_resources, cbor_terminal, cbor_command.
  cbn [projectable forallb snd]. rewrite !text_array_projectable, !projectable_map by done.
  destruct (rr_observations_complete r), (rc_loader (command (parts receipt))); reflexivity.
Qed.

(** * The decoded receipt *)

Definition wire_receipt (receipt : ExecutionReceipt) : VerifyDecode.WireReceipt :=
  let p := parts receipt in
  VerifyDecode.mkWireReceipt VerifyDecode.SCHEMA CARGO_PKG_VERSION
    (VerifyDecode.uuid_text (ExecutionId_as_bytes (execution_id p))) (wire_plan (plan p))
    (wire_policy (policy p)) (wire_platform (platform p)) (wire_runtime (runtime p))
    (wire_command (command p)) (map wire_artifact (inputs p)) (receipt_environment receipt)
    (wire_artifact (output_root p)) (wire_boundary (boundary p)) (wire_observations (observations p))
    (wire_streams (streams p)) (wire_outcome (outcome p)) (map wire_artifact (outputs p))
    (wire_eligibility (eligibility receipt)) (wire_artifact (producer p)) (receipt_assumptions receipt)
    (map wire_tcb_entry (trusted_computing_base p)).

Lemma pushed_events (h m o k g s f : bool) e :
  LimitEvents_contains (LimitEvents_new
    (foldl (fun events (pe : bool * LimitEvent) => if pe.1 then events ++ [pe.2] else events) []
      [(h, LimitEvent_MemoryHigh); (m, LimitEvent_MemoryMax); (o, LimitEvent_MemoryOom);
       (k, LimitEvent_MemoryOomKill); (g, LimitEvent_MemoryOomGroupKill); (s, LimitEvent_SwapMax);
       (f, LimitEvent_SwapFail)])) e
  = match e with
    | LimitEvent_MemoryHigh => h | LimitEvent_MemoryMax => m | LimitEvent_MemoryOom => o
    | LimitEvent_MemoryOomKill => k | LimitEvent_MemoryOomGroupKill => g
    | LimitEvent_SwapMax => s | LimitEvent_SwapFail => f
    end.
Proof. destruct h, m, o, k, g, s, f, e; reflexivity. Qed.
Lemma observed_events m s e :
  LimitEvents_contains (LimitEvents_new (observed_limit_events m s)) e
  = negb (match e with
          | LimitEvent_MemoryHigh => me_high m | LimitEvent_MemoryMax => me_max m
          | LimitEvent_MemoryOom => me_oom m | LimitEvent_MemoryOomKill => me_oom_kill m
          | LimitEvent_MemoryOomGroupKill => me_oom_group_kill m
          | LimitEvent_SwapMax => se_max s | LimitEvent_SwapFail => se_fail s
          end =? 0)%Z.
Proof. unfold observed_limit_events. rewrite pushed_events. by destruct e. Qed.
Lemma view_resource_events r :
  ReceiptResources_ok r ->
  VerifyDecode.resource_events (wire_resources r) = Spec.view_events (rr_limit_events r)
  /\ VerifyReceipt.expected_events (wire_resources r) = wire_limit_events (rr_limit_events r).
Proof.
  intros [_ Hf]%resources_forms.
  assert (forall e, LimitEvents_contains (rr_limit_events r) e
    = negb (match e with
        | LimitEvent_MemoryHigh => me_high (rr_memory_events r)
        | LimitEvent_MemoryMax => me_max (rr_memory_events r)
        | LimitEvent_MemoryOom => me_oom (rr_memory_events r)
        | LimitEvent_MemoryOomKill => me_oom_kill (rr_memory_events r)
        | LimitEvent_MemoryOomGroupKill => me_oom_group_kill (rr_memory_events r)
        | LimitEvent_SwapMax => se_max (rr_swap_events r)
        | LimitEvent_SwapFail => se_fail (rr_swap_events r)
        end =? 0)%Z) as He.
  { intros e. destruct (rr_observations_complete r).
    - rewrite Hf. apply observed_events.
    - destruct Hf as (_ & _ & -> & -> & ->). by destruct e. }
  split.
  - unfold VerifyDecode.resource_events, Spec.view_events, VerifyDecode.event_at, wire_resources.
    cbn [VerifyDecode.res_memory_events VerifyDecode.res_swap_events nth].
    rewrite <- (He LimitEvent_MemoryHigh), <- (He LimitEvent_MemoryMax), <- (He LimitEvent_MemoryOom),
      <- (He LimitEvent_MemoryOomKill), <- (He LimitEvent_MemoryOomGroupKill),
      <- (He LimitEvent_SwapMax), <- (He LimitEvent_SwapFail). reflexivity.
  - unfold VerifyReceipt.expected_events, VerifyDecode.event_at, wire_resources, wire_limit_events, event_reasons.
    cbn [VerifyDecode.res_memory_events VerifyDecode.res_swap_events nth omap list_omap fst snd].
    rewrite <- (He LimitEvent_MemoryHigh), <- (He LimitEvent_MemoryMax), <- (He LimitEvent_MemoryOom),
      <- (He LimitEvent_MemoryOomKill), <- (He LimitEvent_MemoryOomGroupKill),
      <- (He LimitEvent_SwapMax), <- (He LimitEvent_SwapFail). reflexivity.
Qed.
Lemma outcome_state_lift o :
  ExecutionOutcome_ok o -> VerifyDecode.outcome_state (wire_outcome o) = Ok (Spec.view_outcome o).
Proof.
  destruct o as [code|signal| | | |]; cbn; intros H; try done.
  by rewrite (proj2 (Z.eqb_neq _ _)) by lia.
Qed.

(** A version 2 receipt, decoded: everything but the JSON projection. *)
Definition decoded_receipt (json : VerifyDecode.Json) (receipt : ExecutionReceipt) (facts : ReceiptFacts)
    (r : ReceiptResources) (limits : VerifyDecode.WirePlanLimits) : VerifyDecode.DecodedReceipt :=
  VerifyDecode.mkDecodedReceipt json (wire_receipt receipt) (Spec.view facts)
    (recorded (eligibility receipt)) true (Some (wire_resources r)) (Some limits).

Lemma sort_Forall {A} `{RustOrd A} (P : A -> Prop) l : Forall P l -> Forall P (Prelude.sort l).
Proof. unfold Prelude.sort. by rewrite sort_by_Permutation. Qed.
Lemma sort_not_nil {A} `{RustOrd A} (l : list A) : l <> [] -> Prelude.sort l <> [].
Proof.
  intros Hl Hs. apply Hl. pose proof (sort_by_Permutation rlt l) as Hp. unfold Prelude.sort in Hs.
  rewrite Hs in Hp. by apply Permutation_nil_l in Hp.
Qed.
Lemma tcb_not_nil p : receipt_accepts p -> trusted_computing_base p <> [].
Proof.
  intros Ha Hn. destruct (ra_tcb p Ha HostHardwareFirmware) as (e & He & _).
  - left. unfold ALWAYS_REQUIRED. by left.
  - rewrite Hn in He. by apply elem_of_nil in He.
Qed.
Lemma facts_v2 given r l facts :
  resources given = Some r -> rp_normalized_limits (plan given) = Some l ->
  receipt_facts given = Ok facts ->
  facts = ReceiptFacts_new_v2 (br_state (boundary given)) (outcome given)
    (sr_capture (rs_stdout (streams given))) (sr_capture (rs_stderr (streams given)))
    (if rr_observations_complete r then Structure_Valid else Structure_Malformed) (rr_limit_events r).
Proof. unfold receipt_facts. intros -> ->. congruence. Qed.

Lemma platform_abi p : PlatformIdentity_ok p -> (0 < pf_landlock_abi p < u32_bound)%Z.
Proof.
  intros [(f & c & Hn) _ Ha _ _]. unfold PlatformIdentity_new in Hn.
  destruct (pf_landlock_abi p =? 0)%Z eqn:H0; [by rewrite orb_true_r in Hn|]. lia.
Qed.
Lemma decode_receipt_lift given r receipt v facts :
  ExecutionReceiptParts_ok given -> resources given = Some r ->
  ExecutionReceipt_new given = Ok receipt -> receipt_value receipt = Ok v ->
  receipt_facts given = Ok facts ->
  Seen.decode (Core.wire (Core.canon v)) = Ok (lift v) ->
  exists json l m s, rp_normalized_limits (plan given) = Some l
    /\ memory l = Some m /\ swap_limit l = Some s
    /\ VerifyDecode.decode_v2_receipt (Core.wire (Core.canon v))
       = Ok (decoded_receipt json receipt facts r (wire_limits l m s)).
Proof.
  intros Hok Hr Hnew Hv Hfacts Hdec. pose proof Hnew as Hnew'.
  apply ExecutionReceipt_new_Ok in Hnew' as (Hacc & facts' & Hf & Hrec).
  assert (facts' = facts) as -> by congruence.
  destruct (rp_normalized_limits (plan given)) as [l|] eqn:Hl.
  2:{ unfold receipt_facts in Hf. by rewrite Hr, Hl in Hf. }
  pose proof (facts_v2 _ _ _ _ Hr Hl Hf) as Hfx.
  destruct Hok as [[Hid _] Hpl [_ Hpo] Hpf (_ & Hr1 & Hr2) Hc [Hin _] _ Hor Hb Ho Hs Hout Hres
    [Houts _] Hpr Has _].
  assert (ExecutionOutcome_ok (outcome (parts receipt))) as Hout' by (by rewrite Hrec).
  destruct (project_total (Core.canon v) []) as [json Hj].
  { apply projectable_canon. by eapply receipt_projectable. }
  change (seen (Core.canon v)) with (lift v) in Hj.
  unfold receipt_value, receipt_fields in Hv. apply bind_Ok in Hv as (fields & Hfl & [= <-]).
  apply bind_Ok in Hfl as (r' & Hr'%ok_or_Ok & Hfl). apply bind_Ok in Hfl as (pv & Hp & [= <-]).
  subst receipt. cbn [parts sorted_parts resources plan] in Hr', Hp.
  assert (r' = r) as -> by congruence.
  destruct (parse_plan_lift _ _ _ Hpl Hl Hp) as (m & s & Hm & Hsw & Hpp).
  exists json, l, m, s. split; [done|]. split; [done|]. split; [done|].
  unfold VerifyDecode.decode_v2_receipt. rewrite Hdec. cbn [map_err mbind result_bind].
  rewrite Hj.
  match goal with |- context [lift (Core.Map ?kvs)] =>
    assert (bool_decide (NoDup kvs.*1) = true) as Hnd by reflexivity end.
  read_exact. repeat read_field. clear Hj Hdec Hnd.
  change (String.eqb EXECUTION_RECEIPT_V2_SCHEMA VerifyDecode.SCHEMA) with true. cbn [negb].
  rewrite Hpp. cbn [mbind result_bind].
  cbn [sorted_parts inputs outputs policy runtime streams command outcome boundary producer platform
    eligibility receipt_environment execution_id observations receipt_assumptions output_root
    trusted_computing_base parts].
  rewrite parse_policy_lift by done. cbn [mbind result_bind].
  rewrite parse_platform_lift by (by apply platform_abi). cbn [mbind result_bind].
  rewrite parse_runtime_lift by done. cbn [mbind result_bind].
  rewrite parse_command_lift by done. cbn [mbind result_bind].
  rewrite !parse_artifacts_lift by (by apply sort_Forall). cbn [mbind result_bind].
  rewrite !parse_text_array_lift. cbn [mbind result_bind].
  rewrite !parse_artifact_lift by done. cbn [mbind result_bind].
  rewrite parse_boundary_lift by done. rewrite parse_observations_lift. cbn [mbind result_bind].
  rewrite parse_streams_lift by done. cbn [mbind result_bind].
  rewrite parse_outcome_lift by done. cbn [mbind result_bind].
  rewrite parse_tcb_lift by (by apply sort_not_nil, tcb_not_nil). cbn [mbind result_bind].
  rewrite parse_resources_lift by (by apply Hres). cbn [mbind result_bind].
  rewrite parse_eligibility_lift. cbn [mbind result_bind]. rewrite recorded_lift. cbn [mbind result_bind].
  rewrite outcome_state_lift by done. rewrite bytes_exact_Ok by done. cbn [mbind result_bind].
  unfold decoded_receipt, wire_receipt. f_equal. f_equal.
  rewrite (proj1 (view_resource_events r ltac:(by apply Hres))), Hfx.
  unfold Verifier.EligibilityInput_new_v2, Spec.view, ReceiptFacts_new_v2. cbn. f_equal.
  all: first [by destruct (br_state (boundary given))
    | by destruct (sr_capture (rs_stdout (streams given)))
    | by destruct (sr_capture (rs_stderr (streams given)))
    | by destruct (rr_observations_complete r)].
Qed.

End accepted.
