(* ===== verification/ReceiptAccepted.v ===== *)
(** The producer's receipts at the verifier: what [ExecutionReceipt::canonical_bytes]
    ([proofbound-runtime-core/src/receipt.rs]) prints is what [verify_receipt]
    ([proofbound-runtime-verify/src/lib.rs]) accepts, with the decision the
    producer derived.  Each section of [validate_receipt] is met by what
    [ExecutionReceipt::new] checked. *)
From S2P Require Import Prelude Vectors Authority Identity Eligibility.
From S2P Require WireV2 Policy Plan VerifyCbor VerifyDecode.
Import Eligibility.Producer.
From S2P Require Import Receipt ReceiptWire.
From S2P Require VerifyReceipt.
From Stdlib Require Import Ascii ZArith Lia Sorted.
From stdpp Require Import prelude strings list numbers.
Export stdpp.list_relations.list.

Section accepted.
Context {serde : VerifyDecode.SerdeJson}.

(** * Validation *)

Lemma require_digest_Ok d :
  Sha256Digest_ok d -> VerifyReceipt.require_digest (Sha256Digest_to_hex d) = Ok ().
Proof.
  intros Hd. unfold VerifyReceipt.require_digest, Sha256Digest_to_hex.
  rewrite String.list_ascii_of_string_of_list_ascii, length_hex_bytes, Hd, hex_is_hex. reflexivity.
Qed.
Lemma parse_decimal_Ok z : u64_ok z -> VerifyReceipt.parse_decimal (u64_to_string z) = Ok z.
Proof. intros Hz. apply VerifyReceipt.parse_decimal_iff. split; [by apply Core.in_u64_spec|done]. Qed.

(** The version and variant nibbles are where the text test looks for them. *)
Definition hex_hi (b : byte) : byte := hex_char (Z.shiftr (bval b) 4).
Definition hex_lo (b : byte) : byte := hex_char (Z.land (bval b) 0x0f).
Lemma hex_hi_hex b : is_hex (hex_hi b) = true.
Proof. apply (all_bytes_spec (fun b => is_hex (hex_hi b))). vm_compute. reflexivity. Qed.
Lemma hex_lo_hex b : is_hex (hex_lo b) = true.
Proof. apply (all_bytes_spec (fun b => is_hex (hex_lo b))). vm_compute. reflexivity. Qed.
Definition variant_char (b : byte) : bool :=
  bool_decide (b = "8"%char \/ b = "9"%char \/ b = "a"%char \/ b = "b"%char).
Lemma version_nibble b : (Z.land (bval b) 0xf0 =? 0x40)%Z = true -> hex_hi b = "4"%char.
Proof.
  intros Hb. apply Ascii.eqb_eq.
  assert (implb (Z.land (bval b) 0xf0 =? 0x40)%Z (Ascii.eqb (hex_hi b) "4") = true) as H.
  { apply (all_bytes_spec (fun b => implb (Z.land (bval b) 0xf0 =? 0x40)%Z (Ascii.eqb (hex_hi b) "4"))).
    vm_compute. reflexivity. }
  by rewrite Hb in H.
Qed.
Lemma variant_nibble b : (Z.land (bval b) 0xc0 =? 0x80)%Z = true -> variant_char (hex_hi b) = true.
Proof.
  intros Hb.
  assert (implb (Z.land (bval b) 0xc0 =? 0x80)%Z (variant_char (hex_hi b)) = true) as H.
  { apply (all_bytes_spec (fun b => implb (Z.land (bval b) 0xc0 =? 0x80)%Z (variant_char (hex_hi b)))).
    vm_compute. reflexivity. }
  by rewrite Hb in H.
Qed.
Lemma execution_id_text id :
  ExecutionId_ok id ->
  VerifyReceipt.require_execution_id (VerifyDecode.uuid_text (ExecutionId_as_bytes id)) = Ok ().
Proof.
  intros [Hl Hf]. destruct id as [l]. cbn [ExecutionId_as_bytes] in *.
  do 16 (destruct l as [|? l]; [done|]). destruct l; [|done]. clear Hl.
  unfold ExecutionId_from_bytes in Hf. cbn [nth] in Hf.
  match type of Hf with (if negb ?x || negb ?y then _ else _) = _ =>
    destruct x eqn:Hv; [|done]; destruct y eqn:Hw; [|done] end.
  apply version_nibble in Hv. apply variant_nibble in Hw. clear Hf.
  unfold VerifyReceipt.require_execution_id, VerifyDecode.uuid_text, VerifyDecode.slice, hex_bytes.
  rewrite String.list_ascii_of_string_of_list_ascii.
  change hex_pair with (fun b => [hex_hi b; hex_lo b]).
  cbn -[hex_hi hex_lo is_hex bool_decide]. rewrite Hv.
  unfold variant_char in Hw. rewrite Hw. cbn -[hex_hi hex_lo is_hex].
  rewrite !hex_hi_hex, !hex_lo_hex. reflexivity.
Qed.

(** ** Artifacts *)

Lemma validate_artifact_Ok a :
  ArtifactIdentity_ok a -> VerifyReceipt.validate_artifact (wire_artifact a) = Ok ().
Proof.
  intros (Hd & Hs & Hm). unfold VerifyReceipt.validate_artifact, wire_artifact.
  cbn [VerifyDecode.art_sha256 VerifyDecode.art_size VerifyDecode.art_mode].
  rewrite require_digest_Ok, parse_decimal_Ok by done. cbn [mbind result_bind].
  by rewrite (proj2 (Z.ltb_ge _ _)) by lia.
Qed.
#[export] Instance wire_role_inj : Inj (=) (=) wire_role.
Proof. intros [] []; done. Qed.
Lemma require_artifact_Ok a r :
  ArtifactIdentity_ok a -> role a = r ->
  VerifyReceipt.require_artifact (wire_artifact a) (wire_role r) = Ok ().
Proof.
  intros Ha Hr. unfold VerifyReceipt.require_artifact. rewrite validate_artifact_Ok by done.
  cbn [mbind result_bind]. by rewrite bool_decide_eq_true_2 by (cbn; congruence).
Qed.
Lemma artifact_order_lift a b :
  ArtifactIdentity_ok a -> ArtifactIdentity_ok b ->
  VerifyReceipt.artifact_order (wire_artifact a) (wire_artifact b) = Some (rcmp a b).
Proof.
  intros (Hda & Hsa & Hma) (Hdb & Hsb & Hmb). unfold VerifyReceipt.artifact_order, wire_artifact.
  cbn [VerifyDecode.art_role VerifyDecode.art_sha256 VerifyDecode.art_size VerifyDecode.art_mode].
  change (rcmp a b) with (cmp_then (rcmp (role a) (role b)) (cmp_then (rcmp (digest a) (digest b))
    (cmp_then (Identity.size a ?= Identity.size b)%Z (FileMode_get (mode a) ?= FileMode_get (mode b))%Z))).
  assert (rcmp (wire_role (role a)) (wire_role (role b)) = rcmp (role a) (role b)) as ->
    by (by destruct (role a), (role b)).
  assert (rcmp (Sha256Digest_to_hex (digest a)) (Sha256Digest_to_hex (digest b))
    = rcmp (digest a) (digest b)) as ->.
  { unfold Sha256Digest_to_hex, rcmp, string_ord, ord_via.
    rewrite !String.list_ascii_of_string_of_list_ascii, rcmp_hex_bytes by congruence. done. }
  rewrite !parse_decimal_Ok by done. cbn [result_ok mbind option_bind].
  destruct (rcmp (role a) (role b)); cbn [cmp_then]; try done.
  by destruct (rcmp (digest a) (digest b)).
Qed.
Lemma windows_not_less_lift l :
  Forall ArtifactIdentity_ok l -> StronglySorted (fun a b => rlt a b = true) l ->
  VerifyReceipt.windows_not_less (map wire_artifact l) = Some false.
Proof.
  intros Hok Hs. induction Hs as [|a l Hs IH Ha]; [done|]. apply Forall_cons in Hok as [Hao Hok].
  specialize (IH Hok). destruct l as [|b l]; [done|].
  change (VerifyReceipt.windows_not_less (map wire_artifact (a :: b :: l))) with
    (c ← VerifyReceipt.artifact_order (wire_artifact a) (wire_artifact b);
     match c with Lt => VerifyReceipt.windows_not_less (map wire_artifact (b :: l)) | _ => Some true end).
  apply Forall_cons in Ha as [Hab _]. apply Forall_cons in Hok as [Hbo _].
  rewrite artifact_order_lift by done. apply rlt_Lt in Hab. cbn [mbind option_bind]. by rewrite Hab.
Qed.
Lemma validate_artifact_list_Ok l allowed :
  Forall ArtifactIdentity_ok l -> NoDup l -> Forall (fun a => allowed (wire_role (role a)) = true) l ->
  VerifyReceipt.validate_artifact_list (map wire_artifact (Prelude.sort l)) allowed = Ok ().
Proof.
  intros Hok Hnd Hr. unfold VerifyReceipt.validate_artifact_list. rewrite mapM_map.
  rewrite (mapM_Ok_Forall _ (fun _ => ())).
  2:{ apply sort_Forall. rewrite Forall_forall in Hok. rewrite Forall_forall in Hr. apply Forall_forall.
      intros a Ha. unfold VerifyReceipt.check_artifact. rewrite validate_artifact_Ok by auto.
      cbn [mbind result_bind wire_artifact VerifyDecode.art_role]. by rewrite (Hr a Ha). }
  cbn [lift_fault map_err mbind result_bind].
  by rewrite windows_not_less_lift by (by apply sort_Forall || by apply sort_strict).
Qed.

(** ** Sets *)

Lemma validate_string_set_Ok l :
  "" ∉ l -> NoDup l -> VerifyReceipt.validate_string_set (Prelude.sort l) = Ok ().
Proof.
  intros He Hnd. unfold VerifyReceipt.validate_string_set.
  destruct (existsb _ (Prelude.sort l)) eqn:Hex.
  - apply existsb_exists in Hex as (x & Hx%list_elem_of_In & ->%bool_decide_eq_true).
    by apply (proj1 (elem_of_sort _ _)) in Hx.
  - by rewrite (proj2 (windows_any_ge _)) by (by apply sort_strict).
Qed.
Lemma environment_names_Ok l :
  Forall EnvironmentName_ok l ->
  existsb VerifyReceipt.contains_nul_or_equals (Prelude.sort (map EnvironmentName_as_str l)) = false.
Proof.
  intros Hok. destruct (existsb _ _) eqn:Hex; [|done].
  apply existsb_exists in Hex as (x & Hx%list_elem_of_In & Hb). apply (proj1 (elem_of_sort _ _)) in Hx.
  change (map EnvironmentName_as_str l) with (EnvironmentName_as_str <$> l) in Hx.
  apply list_elem_of_fmap in Hx as (n & -> & Hn). rewrite Forall_forall in Hok.
  destruct (Hok n Hn) as (_ & _ & Hnul & Heq). unfold VerifyReceipt.contains_nul_or_equals in Hb.
  unfold EnvironmentName_as_str in Hb. by rewrite !bool_decide_eq_false_2 in Hb.
Qed.
Lemma platform_sets p :
  PlatformIdentity_ok p ->
  (exists f, pf_seccomp_features p = Prelude.sort f /\ "" ∉ f /\ NoDup f)
  /\ (exists c, pf_cgroup_controllers p = Prelude.sort c /\ "" ∉ c /\ NoDup c)
  /\ pf_kernel_release p <> "".
Proof.
  intros [(f & c & Hn) _ _ _ _]. unfold PlatformIdentity_new in Hn.
  case_bool_decide as Hk; cbn [orb] in Hn; [done|]. destruct (_ =? 0)%Z; [done|].
  apply bind_Ok in Hn as (f' & (Hf1 & Hf2 & ->)%canonical_string_set_Ok & Hn).
  apply bind_Ok in Hn as (c' & (Hc1 & Hc2 & ->)%canonical_string_set_Ok & Hn).
  injection Hn as Hn. pose proof (f_equal pf_seccomp_features Hn) as Hpf.
  pose proof (f_equal pf_cgroup_controllers Hn) as Hpc. cbn in Hpf, Hpc.
  split; [by exists f|]. split; [by exists c|done].
Qed.
Lemma validate_sets_Ok given r receipt :
  ExecutionReceiptParts_ok given -> ExecutionReceipt_new given = Ok receipt -> resources given = Some r ->
  VerifyReceipt.validate_sets (wire_receipt receipt) = Ok ().
Proof.
  intros Hok (Hacc & facts & _ & ->)%ExecutionReceipt_new_Ok _.
  destruct (ra_environment _ Hacc) as [He1 He2]. destruct (ra_assumptions _ Hacc) as (Ha1 & Ha2 & _).
  destruct (ok_environment _ Hok) as [Hn _].
  destruct (platform_sets _ (ok_platform _ Hok)) as ((f & Hf & Hf1 & Hf2) & (c & Hc & Hc1 & Hc2) & _).
  unfold VerifyReceipt.validate_sets, wire_receipt, wire_platform. cbn.
  rewrite validate_string_set_Ok by done. cbn [mbind result_bind].
  rewrite environment_names_Ok by done.
  rewrite Hf, Hc, !validate_string_set_Ok by done. reflexivity.
Qed.

(** ** Grammars and required artifacts *)

Lemma require_all_Ok l :
  Forall (fun p => VerifyReceipt.require_artifact p.1 p.2 = Ok ()) l -> VerifyReceipt.require_all l = Ok ().
Proof.
  intros H. unfold VerifyReceipt.require_all.
  by rewrite (mapM_Ok_Forall (fun p : VerifyDecode.WireArtifact * VerifyDecode.WireArtifactRole =>
    VerifyReceipt.require_artifact p.1 p.2) (fun _ => ())) by done.
Qed.
Lemma plan_id_Ok id : Plan.PlanId_new (Plan.PlanId_as_str id) = Ok id ->
  VerifyReceipt.require_plan_id (Plan.PlanId_as_str id) = Ok ().
Proof.
  unfold Plan.PlanId_new, VerifyReceipt.require_plan_id.
  change VerifyReceipt.is_lowercase_or_digit with Plan.is_ascii_lowercase_or_digit.
  by destruct (_ || _).
Qed.
Lemma command_roles c :
  ReceiptCommand_ok c -> role (rc_executable c) = RuntimeExecutable
  /\ (forall a, rc_loader c = Some a -> role a = RuntimeLoaderExecutable)
  /\ role (rc_working_directory c) = WorkingDirectory.
Proof.
  intros [Hn _ _ _ _]. unfold ReceiptCommand_new in Hn.
  apply bind_Ok in Hn as ([] & He%require_role_Ok & Hn).
  apply bind_Ok in Hn as ([] & Hl & Hn). apply bind_Ok in Hn as ([] & Hw%require_role_Ok & _).
  split; [done|]. split; [|done]. intros a Ha. rewrite Ha in Hl. by apply require_role_Ok in Hl.
Qed.
Lemma streams_roles s :
  ReceiptStreams_ok s -> role (sr_artifact (rs_stdout s)) = StandardOutput
  /\ role (sr_artifact (rs_stderr s)) = StandardError.
Proof.
  intros (Hn & _ & _). unfold ReceiptStreams_new, StreamRecord_new in Hn.
  apply bind_Ok in Hn as (o & Ho & Hn). apply bind_Ok in Ho as ([] & Ho%require_role_Ok & _).
  apply bind_Ok in Hn as (e & He & _). by apply bind_Ok in He as ([] & He%require_role_Ok & _).
Qed.
Lemma validate_grammars_Ok given receipt :
  ExecutionReceiptParts_ok given -> ExecutionReceipt_new given = Ok receipt ->
  VerifyReceipt.validate_grammars (wire_receipt receipt) = Ok ().
Proof.
  intros Hok (Hacc & facts & _ & ->)%ExecutionReceipt_new_Ok.
  destruct Hok as [Hid Hpl [Hpn Hpo] Hpf (Hrn & Hr1 & Hr2) Hc _ _ Hor _ _ Hs _ _ _ Hpr _ _].
  unfold VerifyReceipt.validate_grammars, wire_receipt.
  change (VerifyReceipt.require_product_version _) with (VerifyReceipt.require_product_version CARGO_PKG_VERSION).
  assert (VerifyReceipt.require_product_version CARGO_PKG_VERSION = Ok ()) as -> by reflexivity.
  cbn [mbind result_bind VerifyDecode.w_execution_id parts sorted_parts execution_id].
  rewrite execution_id_text by done. cbn [mbind result_bind VerifyDecode.w_plan wire_plan VerifyDecode.plan_id plan].
  rewrite plan_id_Ok by apply Hpl. cbn [mbind result_bind VerifyDecode.w_platform wire_platform
    VerifyDecode.kernel_release VerifyDecode.landlock_abi platform parts sorted_parts].
  pose proof (platform_abi _ Hpf) as Habi. destruct (platform_sets _ Hpf) as (_ & _ & Hk).
  rewrite bool_decide_eq_false_2 by done.
  rewrite (proj2 (Z.eqb_neq (pf_landlock_abi (platform given)) 0)) by lia. cbn [orb].
  destruct (rp_roles _ Hpl) as [Hrs Hrn']. destruct (command_roles _ Hc) as (Hce & Hcl & Hcw).
  destruct (streams_roles _ Hs) as [Hso Hse]. destruct Hs as (_ & Hs1 & Hs2).
  apply bind_Ok in Hpn as ([] & Hpr'%require_role_Ok & _).
  apply bind_Ok in Hrn as ([] & Hrr%require_role_Ok & Hrn). apply bind_Ok in Hrn as ([] & Hrl%require_role_Ok & _).
  assert (Hra : forall a r, ArtifactIdentity_ok a -> role a = r ->
    VerifyReceipt.require_artifact (wire_artifact a) (wire_role r) = Ok ()) by apply require_artifact_Ok.
  match goal with |- context [VerifyReceipt.required_artifacts ?wire] =>
    rewrite (require_all_Ok (VerifyReceipt.required_artifacts wire)) end.
  2:{ unfold VerifyReceipt.required_artifacts. cbn.
      repeat (apply Forall_cons; split; [cbn|]).
      - by apply (Hra _ ExecutionPlan), Hrs; apply Hpl.
      - by apply (Hra _ NormalizedPlan), Hrn'; apply Hpl.
      - by apply (Hra _ CompiledPolicy).
      - by apply (Hra _ RuntimeBinary).
      - by apply (Hra _ LauncherBinary).
      - apply (Hra _ RuntimeExecutable); [by apply rc_executable_ok|done].
      - apply Forall_app. split.
        + pose proof (rc_loader_ok _ Hc) as Hlo. destruct (rc_loader (command given)) as [a|]; cbn; [|constructor].
          apply Forall_singleton. by apply (Hra _ RuntimeLoaderExecutable); [apply Hlo|apply Hcl].
        + apply Forall_singleton. by apply (Hra _ WorkingDirectory); [apply rc_working_directory_ok|]. }
  cbn [mbind result_bind VerifyDecode.w_command wire_command VerifyDecode.cmd_arguments_sha256 command].
  rewrite require_digest_Ok by apply Hc. cbn [mbind result_bind].
  apply require_all_Ok. unfold VerifyReceipt.required_stream_artifacts. cbn.
  repeat (apply Forall_cons; split; [cbn|]); [..|constructor].
  - apply (Hra _ OutputRoot); [done|apply Hacc].
  - by apply (Hra _ StandardOutput).
  - by apply (Hra _ StandardError).
  - apply (Hra _ RuntimeBinary); [done|apply Hacc].
Qed.

(** ** Relations *)

Lemma validate_relations_Ok given receipt :
  ExecutionReceiptParts_ok given -> ExecutionReceipt_new given = Ok receipt ->
  VerifyReceipt.validate_relations (wire_receipt receipt) = Ok ().
Proof.
  intros Hok (Hacc & facts & _ & ->)%ExecutionReceipt_new_Ok.
  destruct (ok_boundary _ Hok) as [Hbi Hbp [Hcm Hci]]. destruct (ok_observations _ Hok) as (Hs & Hf & Ho).
  unfold VerifyReceipt.validate_relations, wire_receipt, wire_boundary, wire_observations.
  cbn [VerifyDecode.w_boundary VerifyDecode.bd_policy_sha256 VerifyDecode.bd_execution_id VerifyDecode.bd_cgroup
    VerifyDecode.mount_id VerifyDecode.inode VerifyDecode.w_observations VerifyDecode.started_ns
    VerifyDecode.finished_ns VerifyDecode.w_execution_id VerifyDecode.w_policy VerifyDecode.w_producer
    VerifyDecode.w_runtime VerifyDecode.w_assumptions wire_policy wire_runtime VerifyDecode.policy_identity
    VerifyDecode.rt_runtime parts sorted_parts boundary observations execution_id policy producer runtime
    receipt_assumptions].
  rewrite require_digest_Ok by done. rewrite execution_id_text by done. cbn [mbind result_bind].
  rewrite !parse_decimal_Ok by done. cbn [mbind result_bind].
  unfold ExecutionObservations_new in Ho. destruct (_ <? _)%Z; [done|].
  rewrite bool_decide_eq_true_2 by (by rewrite (ra_execution _ Hacc)). cbn [negb].
  rewrite bool_decide_eq_true_2 by (cbn; by rewrite (ra_policy _ Hacc)). cbn [negb].
  rewrite bool_decide_eq_true_2 by (by rewrite (ra_producer _ Hacc)). cbn [negb].
  destruct (ra_assumptions _ Hacc) as (_ & Hnd & Hsub).
  rewrite (mapM_Ok_Forall _ (fun _ => ())); [done|]. apply Forall_forall. intros a Ha.
  unfold VerifyReceipt.require_assumption.
  rewrite (proj2 (binary_search_found_spec _ a (sort_strict _ Hnd))); [done|].
  apply (proj2 (elem_of_sort _ _)), Hsub. exact Ha.
Qed.


(** ** Trusted computing base *)

Definition view_tcb_role (r : TrustedComputingBaseRole) : VerifyReceipt.TcbRole :=
  match r with
  | HostHardwareFirmware => VerifyReceipt.Tcb_HostHardwareFirmware
  | LinuxKernel => VerifyReceipt.Tcb_LinuxKernel
  | Landlock => VerifyReceipt.Tcb_Landlock
  | Seccomp => VerifyReceipt.Tcb_Seccomp
  | CgroupV2 => VerifyReceipt.Tcb_CgroupV2
  | NoNewPrivileges => VerifyReceipt.Tcb_NoNewPrivileges
  | Filesystem => VerifyReceipt.Tcb_Filesystem
  | Tcb_RuntimeBinary => VerifyReceipt.Tcb_RuntimeBinary
  | Tcb_LauncherBinary => VerifyReceipt.Tcb_LauncherBinary
  | RustToolchain => VerifyReceipt.Tcb_RustToolchain
  | CryptographicDigest => VerifyReceipt.Tcb_CryptographicDigest
  | Tcb_RuntimeExecutable => VerifyReceipt.Tcb_RuntimeExecutable
  | Tcb_RuntimeLoaderExecutable => VerifyReceipt.Tcb_RuntimeLoaderExecutable
  | Tcb_RuntimeLibrary => VerifyReceipt.Tcb_RuntimeLibrary
  end.
Definition view_tcb_pair (e : TrustedComputingBaseEntry) : VerifyReceipt.TcbRole * string :=
  (view_tcb_role (tcb_role e), tcb_identity e).
Lemma parse_tcb_pair_lift e :
  tcb_identity e <> "" -> VerifyReceipt.parse_tcb_pair (wire_tcb_entry e) = Ok (view_tcb_pair e).
Proof.
  intros He. unfold VerifyReceipt.parse_tcb_pair, wire_tcb_entry. cbn [VerifyDecode.tcb_identity].
  rewrite bool_decide_eq_false_2 by done. unfold view_tcb_pair. by destruct (tcb_role e).
Qed.
Lemma view_tcb_order a b : rcmp (view_tcb_pair a) (view_tcb_pair b) = rcmp a b.
Proof.
  change (rcmp a b) with (cmp_then (rcmp (tcb_role a) (tcb_role b)) (rcmp (tcb_identity a) (tcb_identity b))).
  change (rcmp (view_tcb_pair a) (view_tcb_pair b)) with
    (cmp_then (rcmp (view_tcb_role (tcb_role a)) (view_tcb_role (tcb_role b)))
       (rcmp (tcb_identity a) (tcb_identity b))).
  by destruct (tcb_role a), (tcb_role b).
Qed.
Lemma view_tcb_sorted l :
  StronglySorted (fun a b => rlt a b = true) l ->
  StronglySorted (fun a b => rlt a b = true) (map view_tcb_pair l).
Proof.
  intros H. induction H as [|a l H IH Ha]; cbn; constructor; [done|]. apply Forall_map.
  eapply Forall_impl; [exact Ha|]. intros b Hab. apply rlt_Lt. cbn. rewrite view_tcb_order. by apply rlt_Lt.
Qed.
Lemma require_tcb_role_view l r :
  (exists e, e ∈ l /\ tcb_role e = r) ->
  VerifyReceipt.require_tcb_role (map view_tcb_pair (Prelude.sort l)) (view_tcb_role r) = Ok ().
Proof.
  intros (e & He & Hr). unfold VerifyReceipt.require_tcb_role.
  assert (existsb (fun entry => bool_decide (entry.1 = view_tcb_role r))
    (map view_tcb_pair (Prelude.sort l)) = true) as ->; [|done].
  apply existsb_exists. exists (view_tcb_pair e). split.
  - apply in_map, list_elem_of_In. exact (proj2 (elem_of_sort _ _) He).
  - apply bool_decide_eq_true. cbn. by rewrite Hr.
Qed.
Lemma validate_tcb_Ok given receipt json facts r limits :
  ExecutionReceiptParts_ok given -> ExecutionReceipt_new given = Ok receipt ->
  VerifyReceipt.validate_tcb (decoded_receipt json receipt facts r limits) = Ok ().
Proof.
  intros Hok (Hacc & facts' & _ & ->)%ExecutionReceipt_new_Ok.
  pose proof (ra_tcb _ Hacc) as Hreq. destruct (ra_distinct _ Hacc) as (_ & _ & Hnd).
  unfold VerifyReceipt.validate_tcb, decoded_receipt, wire_receipt, wire_command.
  cbn [VerifyDecode.dr_wire VerifyDecode.w_trusted_computing_base VerifyDecode.w_command
    VerifyDecode.cmd_loader VerifyDecode.w_inputs parts sorted_parts command inputs trusted_computing_base].
  rewrite bool_decide_eq_false_2.
  2:{ rewrite length_map. intros Hl%length_zero_iff_nil. by apply sort_not_nil in Hl; [|apply tcb_not_nil]. }
  rewrite mapM_map, (mapM_Ok_Forall _ view_tcb_pair).
  2:{ apply sort_Forall. eapply Forall_impl; [apply (ok_tcb _ Hok)|]. intros e [He _]. by apply parse_tcb_pair_lift. }
  cbn [mbind result_bind].
  rewrite (proj2 (windows_any_ge _)) by (by apply view_tcb_sorted, sort_strict).
  change VerifyReceipt.ALWAYS_REQUIRED_TCB_ROLES with (map view_tcb_role ALWAYS_REQUIRED).
  rewrite mapM_map, (mapM_Ok_Forall _ (fun _ => ())).
  2:{ apply Forall_forall. intros x Hx. apply require_tcb_role_view, Hreq. by left. }
  cbn [mbind result_bind].
  assert ((if bool_decide (is_Some (wire_artifact <$> rc_loader (command given)))
    then VerifyReceipt.require_tcb_role (map view_tcb_pair (Prelude.sort (trusted_computing_base given)))
           VerifyReceipt.Tcb_RuntimeLoaderExecutable else Ok ()) = Ok ()) as ->.
  { case_bool_decide as Hl; [|done]. apply (require_tcb_role_view _ Tcb_RuntimeLoaderExecutable), Hreq.
    right; left. split; [done|]. by apply fmap_is_Some in Hl. }
  cbn [mbind result_bind]. destruct (existsb _ _) eqn:He; [|done].
  apply (require_tcb_role_view _ Tcb_RuntimeLibrary), Hreq. right; right. split; [done|].
  apply existsb_exists in He as (x & (a & <- & Ha%list_elem_of_In)%in_map_iff & Hx%bool_decide_eq_true).
  exists a. split; [exact (proj1 (elem_of_sort _ _) Ha)|]. cbn in Hx. by destruct (role a).
Qed.

(** ** Eligibility and resources *)

Lemma validate_eligibility_Ok json receipt facts r limits :
  eligibility receipt = derive_receipt_eligibility facts ->
  VerifyReceipt.validate_eligibility (decoded_receipt json receipt facts r limits) = Ok ().
Proof.
  intros He. unfold VerifyReceipt.validate_eligibility, decoded_receipt.
  cbn [VerifyDecode.dr_recorded_eligibility VerifyDecode.dr_eligibility_input].
  rewrite He, Spec.derive_eligibility_view. destruct (derive_receipt_eligibility facts) as [|reasons]; [done|].
  cbn [recorded Spec.view_decision]. rewrite bool_decide_eq_true_2; [done|]. by rewrite map_map.
Qed.

(** What the verifier asks of the measured resources beyond the checks of
    [ExecutionReceipt::new]: the configured values are the plan's, and a peak
    above its limit is explained by an event. *)
Definition resources_consistent (l : ResourceLimits) (m : MemoryByteLimit) (s : SwapByteLimit)
    (r : ReceiptResources) : bool :=
  bool_decide (rr_processes r = processes l) && bool_decide (rr_memory r = m) && bool_decide (rr_swap r = s)
  && (negb (rr_observations_complete r)
      || ((rr_memory_peak_bytes r <=? MemoryByteLimit_get m)%Z
          || LimitEvents_contains (rr_limit_events r) LimitEvent_MemoryMax)
         && ((rr_swap_peak_bytes r <=? SwapByteLimit_get s)%Z
             || LimitEvents_contains (rr_limit_events r) LimitEvent_SwapMax
             || LimitEvents_contains (rr_limit_events r) LimitEvent_SwapFail)).
Lemma limits_equal r l m s :
  bool_decide ((ProcessLimit_get (rr_processes r), MemoryByteLimit_get (rr_memory r), SwapByteLimit_get (rr_swap r))
    = (ProcessLimit_get (processes l), MemoryByteLimit_get m, SwapByteLimit_get s))
  = bool_decide (rr_processes r = processes l) && bool_decide (rr_memory r = m) && bool_decide (rr_swap r = s).
Proof.
  apply eq_true_iff_eq. rewrite !andb_true_iff, !bool_decide_eq_true.
  destruct (rr_processes r), (processes l), (rr_memory r), m, (rr_swap r), s; cbn. naive_solver congruence.
Qed.
Lemma validate_resources_spec json receipt facts r l m s :
  ReceiptResources_ok r ->
  VerifyReceipt.validate_resources (decoded_receipt json receipt facts r (wire_limits l m s))
  = if resources_consistent l m s r then Ok () else Err VerifyReceipt.ResourcePlanMismatch.
Proof.
  intros Hok. pose proof (view_resource_events r Hok) as [Hev Hexp].
  unfold VerifyReceipt.validate_resources, decoded_receipt, resources_consistent.
  cbn [VerifyDecode.dr_resources VerifyDecode.dr_version_two VerifyDecode.dr_plan_limits negb ok_or mbind result_bind].
  rewrite Hexp. unfold wire_resources, wire_limits.
  cbn [VerifyDecode.res_processes VerifyDecode.res_memory VerifyDecode.res_swap VerifyDecode.pl_processes
    VerifyDecode.pl_memory VerifyDecode.pl_swap VerifyDecode.res_observations_complete
    VerifyDecode.res_limit_events VerifyDecode.res_memory_peak VerifyDecode.res_swap_peak
    VerifyDecode.res_memory_events VerifyDecode.res_swap_events].
  rewrite limits_equal. destruct (_ && bool_decide (rr_swap r = s)); cbn [negb andb]; [|done].
  injection Hev as _ H2 _ _ _ H6 H7.
  unfold wire_resources in H2, H6, H7. cbn [VerifyDecode.res_memory_events VerifyDecode.res_swap_events] in H2, H6, H7.
  rewrite H2, H6, H7. rewrite !Z.ltb_antisym.
  destruct (rr_observations_complete r) eqn:Hc; cbn [negb orb].
  - rewrite bool_decide_eq_true_2 by done. cbn [negb].
    cbn [LimitEvents_contains].
    destruct (_ <=? _)%Z, (_ <=? _)%Z, (memory_max _), (swap_max _), (swap_fail _); reflexivity.
  - apply resources_forms in Hok as [_ Hf]. rewrite Hc in Hf. destruct Hf as (_ & _ & _ & _ & ->). reflexivity.
Qed.

(** ** The whole validation *)

Lemma artifact_list_Ok given receipt :
  ExecutionReceiptParts_ok given -> ExecutionReceipt_new given = Ok receipt ->
  VerifyReceipt.validate_artifact_list (VerifyDecode.w_inputs (wire_receipt receipt)) VerifyReceipt.input_role_allowed = Ok ()
  /\ VerifyReceipt.validate_artifact_list (VerifyDecode.w_outputs (wire_receipt receipt)) VerifyReceipt.output_role_allowed = Ok ().
Proof.
  intros Hok (Hacc & facts & _ & ->)%ExecutionReceipt_new_Ok.
  destruct (ra_distinct _ Hacc) as (Hi & Ho & _).
  destruct (ok_inputs _ Hok) as [Hio _]. destruct (ok_outputs _ Hok) as [Hoo _]. cbn. split.
  - apply validate_artifact_list_Ok; [done..|]. eapply Forall_impl; [apply (ra_inputs _ Hacc)|].
    unfold input_role. intros a [-> | ->]; reflexivity.
  - apply validate_artifact_list_Ok; [done..|]. eapply Forall_impl; [apply (ra_outputs _ Hacc)|].
    by intros a ->.
Qed.
Lemma validate_receipt_spec given receipt json facts r l m s :
  ExecutionReceiptParts_ok given -> ExecutionReceipt_new given = Ok receipt ->
  resources given = Some r -> receipt_facts given = Ok facts ->
  VerifyReceipt.validate_receipt (decoded_receipt json receipt facts r (wire_limits l m s))
  = if resources_consistent l m s r then Ok () else Err (Failure VerifyReceipt.ResourcePlanMismatch).
Proof.
  intros Hok Hnew Hr Hf. unfold VerifyReceipt.validate_receipt.
  change (VerifyDecode.dr_wire (decoded_receipt _ receipt _ _ _)) with (wire_receipt receipt).
  rewrite (validate_grammars_Ok given) by done. cbn [lift_fault map_err mbind result_bind].
  destruct (artifact_list_Ok given receipt) as [-> ->]; [done..|]. cbn [mbind result_bind].
  rewrite (validate_sets_Ok given r), (validate_relations_Ok given) by done.
  cbn [lift_fault map_err mbind result_bind].
  rewrite (validate_tcb_Ok given) by done. cbn [lift_fault map_err mbind result_bind].
  rewrite validate_resources_spec by (by apply (ok_resources _ Hok)).
  destruct (resources_consistent l m s r); [|done]. cbn [lift_fault map_err mbind result_bind].
  rewrite validate_eligibility_Ok; [done|].
  apply ExecutionReceipt_new_Ok in Hnew as (_ & facts' & Hf' & ->). cbn. congruence.
Qed.


(** ** The verifier on the producer's bytes *)

Definition resources_respect_plan (p : ExecutionReceiptParts) : bool :=
  match resources p, rp_normalized_limits (plan p) with
  | Some r, Some l =>
    match memory l, swap_limit l with Some m, Some s => resources_consistent l m s r | _, _ => false end
  | _, _ => false
  end.

Lemma map_not_brace kvs :
  WireMaps.encodable (Core.Map kvs) = true ->
  VerifyReceipt.starts_with_brace (Core.wire (Core.canon (Core.Map kvs))) = false.
Proof. intros He. apply bool_decide_eq_false. by apply WireMaps.map_head. Qed.

Section verify.
Context (scan : list byte -> option VerifyReceipt.JsonSyntax) (sha256 : list byte -> list byte).

Lemma verify_v2 input expected :
  VerifyReceipt.starts_with_brace input = false ->
  VerifyReceipt.verify_receipt scan sha256 input expected
  = decoded ← lift_fault (map_err VerifyReceipt.Canonical (map_err VerifyReceipt.Decode
      (VerifyDecode.decode_v2_receipt input)));
    _ ← lift_fault (map_err VerifyReceipt.Commitment (ReceiptCommitment_verify sha256 expected input));
    _ ← VerifyReceipt.lift_validation (VerifyReceipt.validate_receipt decoded);
    Ok (VerifyReceipt.mkVerificationReport expected
      (Verifier.derive_eligibility (VerifyDecode.dr_eligibility_input decoded))).
Proof.
  intros Hb. unfold VerifyReceipt.verify_receipt, VerifyReceipt.reject_diagnostic_profile,
    VerifyReceipt.validate_canonical_receipt, VerifyDecode.decode_receipt.
  change (bool_decide (head input = Some "{"%char)) with (VerifyReceipt.starts_with_brace input).
  rewrite Hb. cbn [negb lift_fault map_err mbind result_bind].
  destruct (VerifyDecode.decode_v2_receipt input) as [d|e] eqn:Hd; [|done].
  cbn [lift_fault map_err mbind result_bind]. apply VerifyReceipt.decode_v2_input in Hd as [-> _]. done.
Qed.

Lemma verify_produced given r receipt v expected :
  ExecutionReceiptParts_ok given -> resources given = Some r ->
  ExecutionReceipt_new given = Ok receipt -> receipt_value receipt = Ok v ->
  WireMaps.encodable v = true -> Core.within_limits (Core.canon v) = true ->
  VerifyReceipt.verify_receipt scan sha256 (Core.wire (Core.canon v)) expected
  = (_ ← lift_fault (map_err VerifyReceipt.Commitment
       (ReceiptCommitment_verify sha256 expected (Core.wire (Core.canon v))));
     if resources_respect_plan given
     then Ok (VerifyReceipt.mkVerificationReport expected (Spec.view_decision (eligibility receipt)))
     else Err (Failure (VerifyReceipt.Validation VerifyReceipt.ResourcePlanMismatch))).
Proof.
  intros Hok Hr Hnew Hv He Hfit. pose proof Hnew as Hnew'.
  apply ExecutionReceipt_new_Ok in Hnew' as (_ & facts & Hf & Hrec).
  pose proof (decode_lift v He) as Hdec. rewrite Hfit in Hdec.
  destruct (decode_receipt_lift given r receipt v facts) as (json & l & m & s & Hl & Hm & Hs & Hd); [done..|].
  assert (exists kvs, v = Core.Map kvs) as [kvs ->].
  { unfold receipt_value in Hv. apply bind_Ok in Hv as (kvs & _ & [= <-]). by exists kvs. }
  rewrite verify_v2 by (by apply map_not_brace). rewrite Hd. cbn [lift_fault map_err mbind result_bind].
  unfold resources_respect_plan. rewrite Hr, Hl, Hm, Hs, (validate_receipt_spec given) by done.
  destruct (ReceiptCommitment_verify _ _ _) as [[]|]; [|done]. cbn [lift_fault map_err mbind result_bind].
  destruct (resources_consistent l m s r); [|done].
  cbn [VerifyReceipt.lift_validation map_err mbind result_bind decoded_receipt VerifyDecode.dr_eligibility_input].
  by rewrite Spec.derive_eligibility_view, Hrec.
Qed.

(** C1: what the producer commits, the independent verifier judges, and the two
    agree.  For parts within Rust's types that [ExecutionReceipt::new] accepts in
    the version 2 profile, and for any expected commitment, [verify_receipt] of
    the canonical bytes is: a malformed-CBOR refusal when the receipt exceeds the
    decoder's limits; else a commitment mismatch when the bytes do not hash to
    the commitment; else acceptance with exactly the decision the producer
    derived, unless the recorded resources contradict the plan.  Within the
    limits, the producer does print its bytes. *)
Theorem produced_receipt_verified (given : ExecutionReceiptParts) (r : ReceiptResources)
    (receipt : ExecutionReceipt) (expected : ReceiptCommitment)
    (Hok : ExecutionReceiptParts_ok given) (Hr : resources given = Some r)
    (Hnew : ExecutionReceipt_new given = Ok receipt) :
  (receipt_fits receipt = true -> exists bytes, canonical_bytes receipt = Ok bytes)
  /\ forall bytes, canonical_bytes receipt = Ok bytes ->
     VerifyReceipt.verify_receipt scan sha256 bytes expected
     = if negb (receipt_fits receipt)
       then Err (Failure (VerifyReceipt.Canonical (VerifyReceipt.Decode VerifyDecode.MalformedCbor)))
       else if negb (bool_decide (ReceiptCommitment_for_bytes sha256 bytes = expected))
       then Err (Failure (VerifyReceipt.Commitment Mismatch))
       else if resources_respect_plan given
       then Ok (VerifyReceipt.mkVerificationReport expected (Spec.view_decision (eligibility receipt)))
       else Err (Failure (VerifyReceipt.Validation VerifyReceipt.ResourcePlanMismatch)).
Proof.
  destruct (canonical_v2_bytes_spec given r receipt) as (v & Hv & He & Hbytes & Hfits); [done..|].
  rewrite (canonical_bytes_v2 given r) by done.
  split; [intros Hf; eexists; by apply Hfits|]. intros bytes ->%Hbytes.
  unfold receipt_fits. rewrite Hv. destruct (Core.within_limits (Core.canon v)) eqn:Hw; cbn [negb].
  - rewrite (verify_produced given r receipt) by done. unfold ReceiptCommitment_verify. by case_bool_decide.
  - destruct (decode_too_large v He Hw) as [e Hd].
    assert (exists kvs, v = Core.Map kvs) as [kvs ->].
    { unfold receipt_value in Hv. apply bind_Ok in Hv as (kvs & _ & [= <-]). by exists kvs. }
    rewrite verify_v2 by (by apply map_not_brace). unfold VerifyDecode.decode_v2_receipt. by rewrite Hd.
Qed.
End verify.

End accepted.

(** * The golden receipt *)

Ltac evaluate := by vm_compute.
Lemma golden_artifact_ok r sha256 bytes mode :
  length (bytes_of_hex sha256) = 32 -> u64_ok bytes -> (0 <= mode <= 4095)%Z ->
  ArtifactIdentity_ok (golden_artifact r sha256 bytes mode).
Proof. intros Hd Hs Hm. split; [exact Hd|]. split; [exact Hs|exact Hm]. Qed.
Ltac golden_identity := apply golden_artifact_ok; [evaluate|evaluate|lia].
Lemma golden_limits_ok : ResourceLimits_ok golden_limits /\ is_version_two golden_limits = true.
Proof.
  split; [|done]. constructor.
  - by split.
  - by split.
  - done.
  - done.
  - by intros m [= <-].
  - intros s [= <-]. by split.
Qed.
Lemma golden_tcb_ok :
  Forall (fun e => tcb_identity e <> "" /\ Core.text_ok (tcb_identity e) = true) golden_tcb.
Proof. repeat (apply Forall_cons; split; [split; evaluate|]). constructor. Qed.
Lemma golden_ok o : ExecutionOutcome_ok o -> ExecutionReceiptParts_ok (golden_parts o).
Proof.
  intros Ho. constructor; cbn.
  - split; evaluate.
  - constructor; cbn; [split; evaluate|golden_identity|golden_identity|done|].
    intros l [= <-]. apply golden_limits_ok.
  - split; [evaluate|golden_identity].
  - constructor; [exists ["deny-network-v1"], ["memory"; "pids"]; evaluate|evaluate|done| |];
      (split; [|evaluate]); repeat constructor.
  - split; [evaluate|]. split; golden_identity.
  - constructor; [evaluate|golden_identity|done|golden_identity|evaluate].
  - by split.
  - split; [constructor|]. split; [constructor|evaluate].
  - golden_identity.
  - constructor; [split; evaluate|evaluate|split; evaluate].
  - split; [evaluate|split; evaluate].
  - split; [evaluate|]. split; golden_identity.
  - done.
  - intros r [= <-]. constructor; [done|evaluate|split; evaluate|repeat constructor|split; evaluate|].
    left. eexists. split; vm_compute; reflexivity.
  - by split.
  - golden_identity.
  - split; [|evaluate]. repeat constructor.
  - split; [apply golden_tcb_ok|evaluate].
Qed.
Lemma golden_exited_ok : ExecutionReceiptParts_ok (golden_parts (Exited 0)).
Proof. by apply golden_ok. Qed.
Definition golden_commitment : ReceiptCommitment :=
  ReceiptCommitment_for_bytes VerifyReceipt.example_sha256 execution_receipt.
Lemma golden_decision :
  (receipt ← ExecutionReceipt_new (golden_parts (Exited 0));
   Ok (receipt_fits receipt, Spec.view_decision (eligibility receipt),
       bool_decide (is_Some (resources (parts receipt)))))
  = Ok (true, Verifier.Reusable, true).
Proof. vm_compute. reflexivity. Qed.
Lemma golden_receipt :
  exists receipt, ExecutionReceipt_new (golden_parts (Exited 0)) = Ok receipt
    /\ canonical_v2_bytes receipt = Ok execution_receipt /\ receipt_fits receipt = true
    /\ Spec.view_decision (eligibility receipt) = Verifier.Reusable
    /\ bool_decide (is_Some (resources (parts receipt))) = true.
Proof.
  pose proof producer_matches_golden as Hb. pose proof golden_decision as Hd.
  destruct (ExecutionReceipt_new (golden_parts (Exited 0))) as [receipt|e].
  - exists receipt. split; [exact eq_refl|]. split; [exact Hb|]. cbn [mbind result_bind] in Hd.
    injection Hd as -> -> ->. repeat split.
  - discriminate Hd.
Qed.
(** The golden receipt is accepted and reusable. *)
Lemma produced_receipt_verified_witness :
  @VerifyReceipt.verify_receipt (VerifyReceipt.example_serde None None) (fun _ => None)
    VerifyReceipt.example_sha256 execution_receipt golden_commitment
  = Ok (VerifyReceipt.mkVerificationReport golden_commitment Verifier.Reusable).
Proof.
  destruct golden_receipt as (receipt & Hnew & Hb & Hfit & Hel & Hres).
  destruct (@produced_receipt_verified (VerifyReceipt.example_serde None None) (fun _ => None)
    VerifyReceipt.example_sha256 (golden_parts (Exited 0)) golden_resources receipt golden_commitment
    golden_exited_ok eq_refl Hnew) as [_ H].
  rewrite (H execution_receipt).
  - rewrite Hfit, Hel. vm_compute. reflexivity.
  - unfold canonical_bytes. rewrite Hres. exact Hb.
Defined.
