(* ===== verification/ReceiptBinding.v ===== *)
(** What the bytes of a receipt bind, and what they do not depend on: two
    version 2 receipts with the same canonical bytes are the same receipt, and
    the order in which the parts were collected leaves no trace
    ([proofbound-runtime-core/src/receipt.rs]). *)
From S2P Require Import Prelude Vectors Authority Identity Eligibility.
From S2P Require WireV2 Policy Plan VerifyCbor VerifyDecode.
Import Eligibility.Producer.
From S2P Require Import Receipt ReceiptWire.
From S2P Require VerifyReceipt.
From S2P Require Import ReceiptAccepted.
From Stdlib Require Import Ascii ZArith Lia Sorted.
From stdpp Require Import prelude strings list numbers.
Export stdpp.list_relations.list.

(** * The verifier's views are injective *)

#[export] Instance hex_bytes_inj : Inj (=) (=) hex_bytes.
Proof.
  intros k l Heq. assert (length k = length l) as Hl.
  { pose proof (f_equal length Heq) as Hl. rewrite !length_hex_bytes in Hl. lia. }
  pose proof (unhex_hex () k) as Hk. rewrite Heq, Hl, unhex_hex in Hk. congruence.
Qed.
#[export] Instance to_hex_inj : Inj (=) (=) Sha256Digest_to_hex.
Proof.
  intros [k] [l] H%(inj String.string_of_list_ascii)%(inj hex_bytes). cbn in H. congruence.
Qed.
Lemma split_32 (l : list byte) :
  length l = 32 ->
  l = VerifyDecode.slice l 0 8 ++ VerifyDecode.slice l 8 12 ++ VerifyDecode.slice l 12 16
      ++ VerifyDecode.slice l 16 20 ++ VerifyDecode.slice l 20 32.
Proof. intros Hl. do 32 (destruct l as [|? l]; [done|]). by destruct l. Qed.
Lemma uuid_text_inj (k l : list byte) :
  length k = 16 -> length l = 16 -> VerifyDecode.uuid_text k = VerifyDecode.uuid_text l -> k = l.
Proof.
  intros Hk Hl H%(inj String.string_of_list_ascii). apply (inj hex_bytes).
  assert (forall l, length l = 16 -> forall i j, i <= j -> j <= 32 ->
    length (VerifyDecode.slice (hex_bytes l) i j) = j - i) as Hlen.
  { intros x Hx i j ??. unfold VerifyDecode.slice. rewrite length_take, length_drop, length_hex_bytes. lia. }
  rewrite (split_32 (hex_bytes k)), (split_32 (hex_bytes l)) by (rewrite length_hex_bytes; lia).
  do 4 (apply app_inj_1 in H as [?H H]; [|by rewrite !Hlen by lia]; apply app_inj_1 in H as [_ H]; [|done]).
  congruence.
Qed.
Lemma u64_to_string_inj a b : u64_ok a -> u64_ok b -> u64_to_string a = u64_to_string b -> a = b.
Proof. intros Ha%parse_decimal_Ok Hb%parse_decimal_Ok H. congruence. Qed.
#[export] Instance plan_id_inj : Inj (=) (=) Plan.PlanId_as_str.
Proof. intros [] []; cbn; congruence. Qed.
#[export] Instance FileMode_get_inj : Inj (=) (=) FileMode_get.
Proof. intros [] []; cbn; congruence. Qed.

(** Equal views have equal projections. *)
Ltac same_field H f := let E := fresh "E" in pose proof (f_equal f H) as E; cbn in E.
Lemma wire_artifact_inj a b :
  ArtifactIdentity_ok a -> ArtifactIdentity_ok b -> wire_artifact a = wire_artifact b -> a = b.
Proof.
  intros (_ & Ha & _) (_ & Hb & _) H. destruct a as [ra da za ma], b as [rb db zb mb].
  same_field H VerifyDecode.art_role. same_field H VerifyDecode.art_sha256.
  same_field H VerifyDecode.art_size. same_field H VerifyDecode.art_mode.
  apply (inj wire_role) in E. apply (inj Sha256Digest_to_hex) in E0.
  apply u64_to_string_inj in E1; [|done..]. apply (inj FileMode_get) in E2. by subst.
Qed.
Lemma map_inj_Forall {A B} (P : A -> Prop) (f : A -> B) k l :
  (forall a b, P a -> P b -> f a = f b -> a = b) -> Forall P k -> Forall P l -> map f k = map f l -> k = l.
Proof.
  intros Hf Hk. revert l. induction Hk as [|a k Ha _ IH]; intros [|b l] Hl; cbn; try done.
  apply Forall_cons in Hl as [Hb Hl]. intros [= Hab Hkl]. f_equal; [by apply Hf|by apply IH].
Qed.
Lemma wire_artifacts_inj k l :
  Forall ArtifactIdentity_ok k -> Forall ArtifactIdentity_ok l ->
  map wire_artifact k = map wire_artifact l -> k = l.
Proof. apply map_inj_Forall, wire_artifact_inj. Qed.

(** One component each; the hypotheses are the ranges of the two sides. *)
Ltac same_artifact H := apply wire_artifact_inj in H; [|assumption..].
Lemma wire_plan_inj p q l m s m' s' :
  ReceiptPlan_ok p -> ReceiptPlan_ok q ->
  rp_normalized_limits p = Some l -> memory l = Some m -> swap_limit l = Some s ->
  forall l', rp_normalized_limits q = Some l' -> memory l' = Some m' -> swap_limit l' = Some s' ->
  wire_plan p = wire_plan q -> wire_limits l m s = wire_limits l' m' s' -> p = q.
Proof.
  intros [_ Hs Hn _ _] [_ Hs' Hn' _ _] Hl Hm Hsw l' Hl' Hm' Hsw' H Hlim.
  assert (l = l') as ->.
  { destruct l as [[] [] [] [] [[]|] [[]|]], l' as [[] [] [] [] [[]|] [[]|]]; try done.
    cbn in Hm, Hsw, Hm', Hsw'. injection Hm as <-. injection Hsw as <-. injection Hm' as <-.
    injection Hsw' as <-. unfold wire_limits in Hlim. cbn in Hlim. congruence. }
  destruct p, q. cbn in *. same_field H VerifyDecode.plan_id. same_field H VerifyDecode.plan_source.
  same_field H VerifyDecode.plan_normalized. apply (inj Plan.PlanId_as_str) in E.
  same_artifact E0. same_artifact E1. congruence.
Qed.
Lemma wire_policy_inj p q :
  ArtifactIdentity_ok (rpol_identity p) -> ArtifactIdentity_ok (rpol_identity q) ->
  wire_policy p = wire_policy q -> p = q.
Proof.
  intros Hp Hq H. destruct p, q. same_field H VerifyDecode.policy_identity. cbn in *.
  same_artifact E. congruence.
Qed.
Lemma wire_platform_inj p q : wire_platform p = wire_platform q -> p = q.
Proof.
  intros H. destruct p as [a ? ? ? ?], q as [b ? ? ? ?]. same_field H VerifyDecode.architecture.
  same_field H VerifyDecode.kernel_release. same_field H VerifyDecode.landlock_abi.
  same_field H VerifyDecode.seccomp_features. same_field H VerifyDecode.cgroup_controllers.
  assert (a = b) as -> by (by destruct a, b). congruence.
Qed.
Lemma wire_runtime_inj p q :
  ArtifactIdentity_ok (ri_runtime p) -> ArtifactIdentity_ok (ri_runtime q) ->
  ArtifactIdentity_ok (ri_launcher p) -> ArtifactIdentity_ok (ri_launcher q) ->
  wire_runtime p = wire_runtime q -> p = q.
Proof.
  intros Hp Hq Hp' Hq' H. destruct p, q. same_field H VerifyDecode.rt_runtime. same_field H VerifyDecode.rt_launcher.
  cbn in *. same_artifact E. same_artifact E0. congruence.
Qed.
Lemma wire_command_inj p q :
  ReceiptCommand_ok p -> ReceiptCommand_ok q -> wire_command p = wire_command q -> p = q.
Proof.
  intros [_ He Hl Hw _] [_ He' Hl' Hw' _] H. destruct p as [? lp ? ?], q as [? lq ? ?].
  same_field H VerifyDecode.cmd_executable. same_field H VerifyDecode.cmd_loader.
  same_field H VerifyDecode.cmd_working_directory. same_field H VerifyDecode.cmd_arguments_sha256.
  cbn in *. same_artifact E. same_artifact E1. apply (inj Sha256Digest_to_hex) in E2.
  assert (lp = lq) as ->; [|congruence].
  destruct lp as [a|], lq as [b|]; cbn in E0; try done. apply (inj Some) in E0.
  f_equal. apply wire_artifact_inj; [by apply Hl|by apply Hl'|done].
Qed.
Lemma wire_boundary_inj p q :
  BoundaryRecord_ok p -> BoundaryRecord_ok q -> wire_boundary p = wire_boundary q -> p = q.
Proof.
  intros [[Hi _] _ [Hm Hn]] [[Hi' _] _ [Hm' Hn']] H.
  destruct p as [sp [ip] ? [? ?]], q as [sq [iq] ? [? ?]]. cbn in *.
  same_field H VerifyDecode.bd_state. same_field H VerifyDecode.bd_execution_id.
  same_field H VerifyDecode.bd_policy_sha256.
  same_field H (fun b => VerifyDecode.mount_id (VerifyDecode.bd_cgroup b)).
  same_field H (fun b => VerifyDecode.inode (VerifyDecode.bd_cgroup b)).
  apply uuid_text_inj in E0; [|done..]. apply (inj Sha256Digest_to_hex) in E1.
  apply u64_to_string_inj in E2, E3; [|done..]. assert (sp = sq) as -> by (by destruct sp, sq). congruence.
Qed.
Lemma wire_observations_inj p q :
  ExecutionObservations_ok p -> ExecutionObservations_ok q ->
  wire_observations p = wire_observations q -> p = q.
Proof.
  intros (Hs&Hf&_) (Hs'&Hf'&_) H. destruct p, q. same_field H VerifyDecode.started_ns.
  same_field H VerifyDecode.finished_ns. cbn in *. apply u64_to_string_inj in E, E0; [|done..]. congruence.
Qed.
Lemma wire_stream_inj p q :
  ArtifactIdentity_ok (sr_artifact p) -> ArtifactIdentity_ok (sr_artifact q) ->
  wire_stream p = wire_stream q -> p = q.
Proof.
  intros Hp Hq H. destruct p as [? cp], q as [? cq]. same_field H VerifyDecode.stream_artifact.
  same_field H VerifyDecode.stream_capture. cbn in *. same_artifact E.
  assert (cp = cq) as -> by (by destruct cp, cq). congruence.
Qed.
Lemma wire_streams_inj p q :
  ReceiptStreams_ok p -> ReceiptStreams_ok q -> wire_streams p = wire_streams q -> p = q.
Proof.
  intros (_ & Ho & He) (_ & Ho' & He') H. destruct p, q. same_field H VerifyDecode.streams_stdout.
  same_field H VerifyDecode.streams_stderr. cbn in *. apply wire_stream_inj in E, E0; [|done..]. congruence.
Qed.
Lemma wire_outcome_inj o o' : wire_outcome o = wire_outcome o' -> o = o'.
Proof. destruct o as [|[]| | | |], o' as [|[]| | | |]; cbn; congruence. Qed.
#[export] Instance wire_reason_inj : Inj (=) (=) wire_reason.
Proof. intros [] []; done. Qed.
Lemma recorded_inj e e' : recorded e = recorded e' -> e = e'.
Proof. destruct e, e'; cbn; try done. intros [= H%(inj (map wire_reason))]. by rewrite H. Qed.
Lemma wire_tcb_inj k l : map wire_tcb_entry k = map wire_tcb_entry l -> k = l.
Proof.
  assert (Inj (=) (=) wire_tcb_entry).
  { intros [r i] [r' i'] H. same_field H VerifyDecode.tcb_role. same_field H VerifyDecode.tcb_identity.
    assert (r = r') as -> by (by destruct r, r'). congruence. }
  apply (inj (map wire_tcb_entry)).
Qed.
Lemma wire_resources_inj p q :
  ReceiptResources_ok p -> ReceiptResources_ok q -> wire_resources p = wire_resources q -> p = q.
Proof.
  intros [Hg Hf]%resources_forms [Hg' Hf']%resources_forms H.
  destruct p as [[] [] [] ? ? ? [] [] ? c], q as [[] [] [] ? ? ? [] [] ? c']. cbn in Hg, Hg', Hf, Hf'.
  same_field H VerifyDecode.res_observations_complete. same_field H VerifyDecode.res_processes.
  same_field H VerifyDecode.res_memory. same_field H VerifyDecode.res_swap.
  same_field H VerifyDecode.res_memory_peak. same_field H VerifyDecode.res_swap_peak.
  same_field H VerifyDecode.res_memory_events. same_field H VerifyDecode.res_swap_events. subst c'.
  injection E5 as -> -> -> -> -> ->. injection E6 as -> ->. subst.
  destruct c; [by rewrite Hf, Hf'|]. destruct Hf as (_ & _ & _ & _ & ->), Hf' as (_ & _ & _ & _ & ->). done.
Qed.

(** * Properties *)

Section properties.
Context {serde : VerifyDecode.SerdeJson}.

Lemma decoded_receipt_inj given given' receipt receipt' json json' facts facts' r r' l m s l' m' s' :
  ExecutionReceiptParts_ok given -> ExecutionReceiptParts_ok given' ->
  ExecutionReceipt_new given = Ok receipt -> ExecutionReceipt_new given' = Ok receipt' ->
  resources given = Some r -> resources given' = Some r' ->
  rp_normalized_limits (plan given) = Some l -> memory l = Some m -> swap_limit l = Some s ->
  rp_normalized_limits (plan given') = Some l' -> memory l' = Some m' -> swap_limit l' = Some s' ->
  decoded_receipt json receipt facts r (wire_limits l m s)
  = decoded_receipt json' receipt' facts' r' (wire_limits l' m' s') ->
  receipt' = with_environment (environment given') receipt.
Proof.
  intros Hok Hok' (_ & f & _ & ->)%ExecutionReceipt_new_Ok (_ & f' & _ & ->)%ExecutionReceipt_new_Ok
    Hr Hr' Hl Hm Hs Hl' Hm' Hs' Heq.
  destruct Hok as [[Hid _] Hpl [_ Hpo] _ (_ & Hr1 & Hr2) Hc [Hin _] _ Hor Hb Ho Hst _ Hres [Hout _] Hpr _ _].
  destruct Hok' as [[Hid' _] Hpl' [_ Hpo'] _ (_ & Hr1' & Hr2') Hc' [Hin' _] _ Hor' Hb' Ho' Hst' _ Hres'
    [Hout' _] Hpr' _ _].
  pose proof (f_equal VerifyDecode.dr_wire Heq) as Hw.
  pose proof (f_equal VerifyDecode.dr_recorded_eligibility Heq) as Hel%recorded_inj.
  pose proof (f_equal VerifyDecode.dr_resources Heq) as Hrs%(inj Some)%wire_resources_inj; [|by auto..].
  pose proof (f_equal VerifyDecode.dr_plan_limits Heq) as Hlim%(inj Some).
  cbn [decoded_receipt VerifyDecode.dr_wire eligibility] in Hw, Hel. clear Heq.
  pose proof (f_equal VerifyDecode.w_execution_id Hw) as E1%uuid_text_inj; [|done..].
  pose proof (f_equal VerifyDecode.w_plan Hw) as E2.
  apply (wire_plan_inj _ _ l m s m' s' Hpl Hpl' Hl Hm Hs l' Hl' Hm' Hs') in E2; [|done].
  pose proof (f_equal VerifyDecode.w_policy Hw) as E3%wire_policy_inj; [|done..].
  pose proof (f_equal VerifyDecode.w_platform Hw) as E4%wire_platform_inj.
  pose proof (f_equal VerifyDecode.w_runtime Hw) as E5%wire_runtime_inj; [|done..].
  pose proof (f_equal VerifyDecode.w_command Hw) as E6%wire_command_inj; [|done..].
  pose proof (f_equal VerifyDecode.w_inputs Hw) as E7%wire_artifacts_inj; [|by apply sort_Forall..].
  pose proof (f_equal VerifyDecode.w_environment Hw) as E8.
  pose proof (f_equal VerifyDecode.w_output_root Hw) as E9%wire_artifact_inj; [|done..].
  pose proof (f_equal VerifyDecode.w_boundary Hw) as E10%wire_boundary_inj; [|done..].
  pose proof (f_equal VerifyDecode.w_observations Hw) as E11%wire_observations_inj; [|done..].
  pose proof (f_equal VerifyDecode.w_streams Hw) as E12%wire_streams_inj; [|done..].
  pose proof (f_equal VerifyDecode.w_outcome Hw) as E13%wire_outcome_inj.
  pose proof (f_equal VerifyDecode.w_outputs Hw) as E14%wire_artifacts_inj; [|by apply sort_Forall..].
  pose proof (f_equal VerifyDecode.w_producer Hw) as E15%wire_artifact_inj; [|done..].
  pose proof (f_equal VerifyDecode.w_assumptions Hw) as E16.
  pose proof (f_equal VerifyDecode.w_trusted_computing_base Hw) as E17%wire_tcb_inj.
  clear Hw. subst r'. unfold wire_receipt in *.
  cbn [parts receipt_environment receipt_assumptions sorted_parts execution_id plan policy platform runtime
    command inputs output_root boundary observations streams outcome outputs producer
    trusted_computing_base VerifyDecode.w_environment VerifyDecode.w_assumptions] in *.
  destruct (execution_id given) as [i] eqn:Hi, (execution_id given') as [i'] eqn:Hi'.
  cbn [ExecutionId_as_bytes] in E1. unfold with_environment, with_collections, sorted_parts.
  cbn [parts receipt_environment receipt_assumptions eligibility inputs outputs assumptions
    trusted_computing_base execution_id plan policy platform runtime command output_root boundary
    observations streams outcome resources producer].
  rewrite Hi, Hi', E1, E2, E3, E4, E5, E6, E7, E8, E9, E10, E11, E12, E13, E14, E15, E16, E17, Hr, Hr', Hel.
  reflexivity.
Qed.

(** C35: the canonical bytes determine the receipt.  Two version 2 receipts, each
    built by [ExecutionReceipt::new] from parts within Rust's types, that print
    the same bytes and fit the decoder agree in every field: identities, limits,
    measurements, decision.  A commitment to the bytes is a commitment to the
    receipt. *)
Theorem canonical_bytes_bind (given given' : ExecutionReceiptParts) (r r' : ReceiptResources)
    (receipt receipt' : ExecutionReceipt) (bytes : list byte)
    (Hok : ExecutionReceiptParts_ok given) (Hok' : ExecutionReceiptParts_ok given')
    (Hr : resources given = Some r) (Hr' : resources given' = Some r')
    (Hnew : ExecutionReceipt_new given = Ok receipt) (Hnew' : ExecutionReceipt_new given' = Ok receipt')
    (Hfit : receipt_fits receipt = true)
    (Hb : canonical_bytes receipt = Ok bytes) (Hb' : canonical_bytes receipt' = Ok bytes) :
  receipt' = with_environment (environment given') receipt.
Proof.
  rewrite (canonical_bytes_v2 given r) in Hb by done. rewrite (canonical_bytes_v2 given' r') in Hb' by done.
  destruct (canonical_v2_bytes_spec given r receipt) as (v & Hv & He & Hw & _); [done..|].
  destruct (canonical_v2_bytes_spec given' r' receipt') as (v' & Hv' & He' & Hw' & _); [done..|].
  apply Hw in Hb. apply Hw' in Hb'. subst bytes. clear Hw Hw'.
  apply WireMaps.wire_inj in Hb'; [|by apply WireMaps.encodable_canon_ok..].
  unfold receipt_fits in Hfit. rewrite Hv in Hfit.
  pose proof (decode_lift v He) as Hd. rewrite Hfit in Hd.
  pose proof (decode_lift v' He') as Hd'. rewrite <- Hb', Hfit in Hd'.
  pose proof Hnew as Hf. apply ExecutionReceipt_new_Ok in Hf as (_ & facts & Hf & _).
  pose proof Hnew' as Hf'. apply ExecutionReceipt_new_Ok in Hf' as (_ & facts' & Hf' & _).
  destruct (decode_receipt_lift given r receipt v facts) as (json & l & m & s & Hl & Hm & Hs & Hdr); [done..|].
  rewrite Hb' in Hd', Hdr.
  destruct (decode_receipt_lift given' r' receipt' v' facts') as (json' & l' & m' & s' & Hl' & Hm' & Hs' & Hdr');
    [done..|].
  rewrite Hdr in Hdr'. apply (f_equal result_ok), (inj Some) in Hdr'.
  by eapply (decoded_receipt_inj given given').
Qed.

(** A receipt does not depend on the order in which its parts were
    collected.  Permuting the inputs, the environment names, the outputs, the
    assumptions or the trusted computing base changes neither the result of
    [ExecutionReceipt::new], errors included and up to the unread copy of the
    environment, nor a byte of the canonical form. *)
Theorem receipt_order_irrelevant (p : ExecutionReceiptParts)
    (inputs' outputs' : list ArtifactIdentity) (environment' : list EnvironmentName)
    (assumptions' : list string) (tcb' : list TrustedComputingBaseEntry)
    (Hi : inputs p ≡ₚ inputs') (He : environment p ≡ₚ environment') (Ho : outputs p ≡ₚ outputs')
    (Ha : assumptions p ≡ₚ assumptions') (Ht : trusted_computing_base p ≡ₚ tcb') :
  let q := with_collections p inputs' environment' outputs' assumptions' tcb' in
  ExecutionReceipt_new q = (receipt ← ExecutionReceipt_new p; Ok (with_environment environment' receipt))
  /\ (receipt ← ExecutionReceipt_new q; canonical_bytes receipt)
     = (receipt ← ExecutionReceipt_new p; canonical_bytes receipt).
Proof.
  intros q. subst q. rewrite new_with_collections by done. split; [done|].
  destruct (ExecutionReceipt_new p) as [receipt|]; [|done]. cbn [mbind result_bind].
  apply canonical_bytes_with_environment.
Qed.

(** C36: what [ExecutionReceipt::new] accepts, exactly: parts in the roles of
    their positions, with the identities of the boundary, the policy and the
    producer consistent, without repeated artifacts, names or trusted roles, with
    every required assumption and trusted role, and with resources exactly when
    the plan has version 2 limits.  The receipt holds the sorted collections and
    the decision derived from the recorded facts. *)
Theorem receipt_construction_exact (given : ExecutionReceiptParts) (receipt : ExecutionReceipt) :
  ExecutionReceipt_new given = Ok receipt <->
  receipt_accepts given
  /\ (is_Some (resources given) <-> is_Some (rp_normalized_limits (plan given)))
  /\ exists facts, receipt_facts given = Ok facts
    /\ receipt = mkExecutionReceipt (sorted_parts given)
         (Prelude.sort (map EnvironmentName_as_str (environment given)))
         (Prelude.sort (assumptions given)) (derive_receipt_eligibility facts).
Proof.
  rewrite ExecutionReceipt_new_Ok. split; [|by intros (? & _ & ?)]. intros (Hacc & facts & Hf & ->).
  split; [done|]. split; [|by exists facts]. unfold receipt_facts in Hf.
  destruct (resources given), (rp_normalized_limits (plan given)); try done;
    split; intros [? ?]; try done; by eexists.
Qed.
End properties.

(** * Witnesses, on the golden receipt *)

Lemma canonical_bytes_bind_witness :
  exists receipt, ExecutionReceipt_new (golden_parts (Exited 0)) = Ok receipt
    /\ receipt = with_environment [] receipt.
Proof.
  destruct golden_receipt as (receipt & Hnew & Hb & Hfit & _ & Hres). exists receipt. split; [exact Hnew|].
  apply (@canonical_bytes_bind (VerifyReceipt.example_serde None None) (golden_parts (Exited 0))
    (golden_parts (Exited 0)) golden_resources golden_resources receipt receipt execution_receipt
    golden_exited_ok golden_exited_ok eq_refl eq_refl Hnew Hnew Hfit).
  - unfold canonical_bytes. rewrite Hres. exact Hb.
  - unfold canonical_bytes. rewrite Hres. exact Hb.
Defined.
(** The assumptions and the trusted computing base collected backwards. *)
Lemma receipt_order_irrelevant_witness :
  (receipt ← ExecutionReceipt_new (with_collections (golden_parts (Exited 0)) [] [] []
     (rev REQUIRED_RUNTIME_ASSUMPTIONS) (rev golden_tcb));
   @canonical_bytes (VerifyReceipt.example_serde None None) receipt) = Ok execution_receipt.
Proof.
  rewrite (proj2 (@receipt_order_irrelevant (VerifyReceipt.example_serde None None)
    (golden_parts (Exited 0)) [] [] [] (rev REQUIRED_RUNTIME_ASSUMPTIONS) (rev golden_tcb)
    (Permutation_refl _) (Permutation_refl _) (Permutation_refl _)
    (Permutation_rev _) (Permutation_rev _))).
  destruct golden_receipt as (receipt & -> & Hb & _ & _ & Hres). cbn [mbind result_bind].
  unfold canonical_bytes. rewrite Hres. exact Hb.
Defined.
