(* ===== verification/RunResult.v ===== *)
(** The control objects around a run: the committed run result
    ([proofbound-runtime-core/src/run_result.rs]), the machine-readable error
    contract of the pure code ([error.rs]) and the closed vocabulary of the
    diagnostic profile ([diagnostic.rs]). *)
From S2P Require Import Prelude Vectors Authority Identity Eligibility.
From S2P Require Plan VerifyDecode.
Import Eligibility.Producer.
From S2P Require Import WireV2 WireMaps Receipt.
From Stdlib Require Import Ascii ZArith Lia Sorted.
From stdpp Require Import prelude strings list numbers.
Export stdpp.list_relations.list.
Import VerifyDecode(SerdeJson, Json, json_string, json_u64, json_i64, json_object).

(** * Run results *)

Definition RUN_RESULT_SCHEMA : string := "proofbound-runtime-run-result/2".

Inductive RunResultError := ReceiptPathInvalid | OutcomeInvalid.

Record RunResultV2 := mkRunResultV2 {
  rr_receipt : string;
  rr_execution_id : ExecutionId;
  rr_commitment : Sha256Digest;
  rr_outcome : ExecutionOutcome
}.

(** A [Path] is its bytes; [to_str] refuses those that are not UTF-8. *)
Definition RunResultV2_new (receipt : list byte) (execution_id : ExecutionId) (commitment : Sha256Digest)
    (outcome : ExecutionOutcome) : result RunResultError RunResultV2 :=
  receipt ← ok_or (value ← from_utf8 receipt; if bool_decide (value = "") then None else Some value)
    ReceiptPathInvalid;
  if (match outcome with Exited code => negb ((0 <=? code)%Z && (code <=? 255)%Z) | _ => false end)
  then Err OutcomeInvalid
  else Ok (mkRunResultV2 receipt execution_id commitment outcome).

(** [None] is the panic of [expect]. *)
Definition run_outcome_cbor (outcome : ExecutionOutcome) : option Value :=
  '(kind, detail) ← match outcome with
    | Exited code =>
      code ← (if (0 <=? code)%Z then Some code else None);
      Some ("exited", Some ("code", Unsigned code))
    | Signaled signal => Some ("signaled", Some ("signal", Unsigned (SignalNumber_get signal)))
    | TimedOut => Some ("timed-out", None)
    | Denied => Some ("denied", None)
    | LauncherFailed => Some ("launcher-failed", None)
    | Incomplete => Some ("incomplete", None)
    end;
  Some (Map (("kind", Text kind) :: option_list detail)).
Definition cbor_value (r : RunResultV2) : option Value :=
  outcome ← run_outcome_cbor (rr_outcome r);
  Some (Map [("schema", Text RUN_RESULT_SCHEMA);
             ("outcome", outcome);
             ("receipt", Text (rr_receipt r));
             ("commitment", Bytes (digest_bytes (rr_commitment r)));
             ("execution_id", Bytes (ExecutionId_as_bytes (rr_execution_id r)))]).
Definition RunResultV2_canonical_bytes (r : RunResultV2) : option (list byte) :=
  value ← cbor_value r; result_ok (encode value).

Definition hex (bytes : list byte) : string := String.string_of_list_ascii (hex_bytes bytes).

Section json.
Context {serde : SerdeJson}.

Definition outcome_json (outcome : ExecutionOutcome) : Json :=
  match outcome with
  | Exited code => json_object [("code", json_i64 code); ("kind", json_string "exited")]
  | Signaled signal =>
    json_object [("kind", json_string "signaled"); ("signal", json_u64 (SignalNumber_get signal))]
  | TimedOut => json_object [("kind", json_string "timed-out")]
  | Denied => json_object [("kind", json_string "denied")]
  | LauncherFailed => json_object [("kind", json_string "launcher-failed")]
  | Incomplete => json_object [("kind", json_string "incomplete")]
  end.
(** [json!] collects into a [BTreeMap]: the members come out in key order. *)
Definition json_projection (r : RunResultV2) : Json :=
  json_object [("commitment", json_string ("hex:" +:+ Sha256Digest_to_hex (rr_commitment r)));
               ("execution_id", json_string ("hex:" +:+ hex (ExecutionId_as_bytes (rr_execution_id r))));
               ("outcome", outcome_json (rr_outcome r));
               ("receipt", json_string (rr_receipt r));
               ("schema", json_string RUN_RESULT_SCHEMA)].
End json.

(** * Error classes *)

Inductive ErrorClass :=
| InvalidInput | UnsupportedBoundary | IdentityDrift | Launcher | ReceiptConstruction | Verification.
Definition ErrorClass_exit_code (c : ErrorClass) : Z :=
  match c with
  | InvalidInput => 2 | UnsupportedBoundary => 3 | IdentityDrift => 4 | Launcher => 5
  | ReceiptConstruction => 6 | Verification => 7
  end.

Class MachineError (E : Type) := {
  machine_code : E -> string;
  error_class : E -> ErrorClass
}.
#[export] Instance AuthorityError_machine : MachineError AuthorityError :=
  {| machine_code := AuthorityError_code; error_class := fun _ => InvalidInput |}.
#[export] Instance IdentityError_machine : MachineError IdentityError :=
  {| machine_code := IdentityError_code; error_class := fun _ => InvalidInput |}.
#[export] Instance PlanError_machine : MachineError Plan.PlanError :=
  {| machine_code := Plan.PlanError_code; error_class := fun _ => InvalidInput |}.
#[export] Instance ReceiptError_machine : MachineError ReceiptError :=
  {| machine_code := ReceiptError_code; error_class := fun _ => ReceiptConstruction |}.
Inductive CoreError :=
| Core_Authority (error : AuthorityError) | Core_Identity (error : IdentityError)
| Core_Plan (error : Plan.PlanError).
#[export] Instance CoreError_machine : MachineError CoreError := {|
  machine_code e := match e with
    | Core_Authority e => machine_code e | Core_Identity e => machine_code e | Core_Plan e => machine_code e
    end;
  error_class e := match e with
    | Core_Authority e => error_class e | Core_Identity e => error_class e | Core_Plan e => error_class e
    end
|}.

(** * The diagnostic vocabulary *)

Inductive DiagnosticTypeError :=
| ExecutionProfileUnsupported | ObserverMechanismUnsupported | DraftProvenanceUnsupported
| ObservationResolutionUnsupported | CompletionUnsupported.
Definition DiagnosticTypeError_code (e : DiagnosticTypeError) : string :=
  match e with
  | ExecutionProfileUnsupported => "diagnostic.profile.unsupported"
  | ObserverMechanismUnsupported => "diagnostic.observer.unsupported"
  | DraftProvenanceUnsupported => "diagnostic.provenance.unsupported"
  | ObservationResolutionUnsupported => "diagnostic.resolution.unsupported"
  | CompletionUnsupported => "diagnostic.completion.unsupported"
  end.

Inductive ExecutionProfile := Production | Diagnostic.
Definition ExecutionProfile_parse (value : string) : result DiagnosticTypeError ExecutionProfile :=
  if String.eqb value "production" then Ok Production
  else if String.eqb value "diagnostic" then Ok Diagnostic
  else Err ExecutionProfileUnsupported.
Definition ExecutionProfile_as_str (p : ExecutionProfile) : string :=
  match p with Production => "production" | Diagnostic => "diagnostic" end.

Inductive DiagnosticObserverMechanism := LinuxPtraceSyscallV1.
Definition DiagnosticObserverMechanism_parse (value : string) :
    result DiagnosticTypeError DiagnosticObserverMechanism :=
  if String.eqb value "linux-ptrace-syscall-v1" then Ok LinuxPtraceSyscallV1
  else Err ObserverMechanismUnsupported.
Definition DiagnosticObserverMechanism_as_str (m : DiagnosticObserverMechanism) : string :=
  match m with LinuxPtraceSyscallV1 => "linux-ptrace-syscall-v1" end.

Inductive DraftProvenance :=
| HumanAuthored | StaticExecutableClosure | DiagnosticRuntimeObservation | CapsecSourceObservation
| PlatformRequiredClosure.
Definition DraftProvenance_parse (value : string) : result DiagnosticTypeError DraftProvenance :=
  if String.eqb value "human-authored" then Ok HumanAuthored
  else if String.eqb value "static-executable-closure" then Ok StaticExecutableClosure
  else if String.eqb value "diagnostic-runtime-observation" then Ok DiagnosticRuntimeObservation
  else if String.eqb value "capsec-source-observation" then Ok CapsecSourceObservation
  else if String.eqb value "platform-required-closure" then Ok PlatformRequiredClosure
  else Err DraftProvenanceUnsupported.
Definition DraftProvenance_as_str (p : DraftProvenance) : string :=
  match p with
  | HumanAuthored => "human-authored"
  | StaticExecutableClosure => "static-executable-closure"
  | DiagnosticRuntimeObservation => "diagnostic-runtime-observation"
  | CapsecSourceObservation => "capsec-source-observation"
  | PlatformRequiredClosure => "platform-required-closure"
  end.

Inductive ObservationResolution := KernelSelected | StableCandidate | Unresolved | Redacted.
Definition ObservationResolution_parse (value : string) : result DiagnosticTypeError ObservationResolution :=
  if String.eqb value "kernel-selected" then Ok KernelSelected
  else if String.eqb value "stable-candidate" then Ok StableCandidate
  else if String.eqb value "unresolved" then Ok Unresolved
  else if String.eqb value "redacted" then Ok Redacted
  else Err ObservationResolutionUnsupported.
Definition ObservationResolution_as_str (r : ObservationResolution) : string :=
  match r with
  | KernelSelected => "kernel-selected" | StableCandidate => "stable-candidate"
  | Unresolved => "unresolved" | Redacted => "redacted"
  end.

Inductive DiagnosticCompletion := Complete | Completion_Incomplete.
Definition DiagnosticCompletion_parse (value : string) : result DiagnosticTypeError DiagnosticCompletion :=
  if String.eqb value "complete" then Ok Complete
  else if String.eqb value "incomplete" then Ok Completion_Incomplete
  else Err CompletionUnsupported.
Definition DiagnosticCompletion_as_str (c : DiagnosticCompletion) : string :=
  match c with Complete => "complete" | Completion_Incomplete => "incomplete" end.

(** * Lemmas *)

(** Both diagnostic and production vocabularies: a name parses to a value exactly
    when it is the value's name, and every other name has the one error. *)
Definition vocabulary_exact {A} (parse : string -> result DiagnosticTypeError A) (as_str : A -> string)
    (unsupported : DiagnosticTypeError) : Prop :=
  (forall value a, parse value = Ok a <-> value = as_str a)
  /\ (forall value e, parse value = Err e -> e = unsupported /\ forall a, value <> as_str a).
Ltac name_cases parse :=
  unfold parse; repeat match goal with
  | |- context [String.eqb ?x ?y] => destruct (String.eqb_spec x y); subst
  end.
Ltac solve_vocabulary parse :=
  split;
  [intros value a; split; [name_cases parse; intros H; first [discriminate H|destruct a; first [discriminate H|reflexivity]]|intros ->; by destruct a]
  |intros value e; name_cases parse; intros H; try discriminate H; injection H as <-;
   split; [done|intros []; done]].

Lemma run_outcome_value o v :
  run_outcome_cbor o = Some v -> v = cbor_outcome o.
Proof.
  unfold run_outcome_cbor, cbor_outcome.
  destruct o as [code|signal| | | |]; cbn; [destruct (0 <=? code)%Z; [|done]|..]; by intros [= <-].
Qed.
Lemma cbor_outcome_inj o o' :
  ExecutionOutcome_ok o -> ExecutionOutcome_ok o' -> canon (cbor_outcome o) = canon (cbor_outcome o') -> o = o'.
Proof.
  destruct o as [c|[s]| | | |], o' as [c'|[s']| | | |]; cbn; intros Ho Ho' H; try done.
  - destruct (0 <=? c)%Z, (0 <=? c')%Z; cbn in H; try done; injection H as H; f_equal; lia.
  - by injection H as ->.
Qed.

(** What Rust's types enforce on the parts of a run result. *)
Record RunResultV2_ok (r : RunResultV2) : Prop := {
  run_receipt_ok : text_ok (rr_receipt r) = true /\ rr_receipt r <> "";
  run_execution_ok : length (ExecutionId_as_bytes (rr_execution_id r)) = 16;
  run_commitment_ok : Sha256Digest_ok (rr_commitment r);
  run_outcome_ok : ExecutionOutcome_ok (rr_outcome r)
    /\ forall code, rr_outcome r = Exited code -> (0 <= code <= 255)%Z
}.
Lemma RunResultV2_new_Ok path id commitment outcome r :
  RunResultV2_new path id commitment outcome = Ok r <->
  utf8_valid path = true /\ path <> []
  /\ (forall code, outcome = Exited code -> (0 <= code <= 255)%Z)
  /\ r = mkRunResultV2 (String.string_of_list_ascii path) id commitment outcome.
Proof.
  unfold RunResultV2_new, from_utf8. destruct (utf8_valid path); cbn; [|naive_solver].
  assert (bool_decide (String.string_of_list_ascii path = "") = bool_decide (path = [])) as ->.
  { apply bool_decide_ext. split; [|by intros ->]. intros H.
    apply (f_equal String.list_ascii_of_string) in H. by rewrite String.list_ascii_of_string_of_list_ascii in H. }
  case_bool_decide as Hp; cbn; [naive_solver|].
  destruct outcome as [code|s| | | |]; cbn.
  2-6: (split; [intros [= <-]; done|by intros (_ & _ & _ & ->)]).
  destruct ((0 <=? code) && (code <=? 255))%Z eqn:Hc; cbn.
  - split; [|by intros (_ & _ & _ & ->)]. intros [= <-]. split; [done|]. split; [done|]. split; [|done].
    intros ? [= <-]. lia.
  - split; [done|]. intros (_ & _ & H & _). specialize (H code eq_refl). lia.
Qed.
Lemma cbor_value_Some r :
  RunResultV2_ok r ->
  exists v, cbor_value r = Some v /\ encodable v = true
    /\ v = Map [("schema", Text RUN_RESULT_SCHEMA); ("outcome", cbor_outcome (rr_outcome r));
                ("receipt", Text (rr_receipt r)); ("commitment", Bytes (digest_bytes (rr_commitment r)));
                ("execution_id", Bytes (ExecutionId_as_bytes (rr_execution_id r)))].
Proof.
  intros [[Ht _] Hi Hd [Ho Hc]]. unfold cbor_value.
  destruct (run_outcome_cbor (rr_outcome r)) as [v|] eqn:Hv.
  - apply run_outcome_value in Hv as ->. cbn [mbind option_bind]. eexists. split; [done|]. split; [|done].
    pose proof (outcome_encodable _ Ho). solve_map_encodable.
    + reflexivity.
    + apply encodable_Bytes. by rewrite Hd.
    + apply encodable_Bytes. by rewrite Hi.
  - exfalso. unfold run_outcome_cbor in Hv. destruct (rr_outcome r) as [code| | | | |]; try done.
    specialize (Hc code eq_refl). rewrite (proj2 (Z.leb_le _ _)) in Hv by lia. done.
Qed.

(** * Properties *)

(** A run result always has its bytes, and they are its commitment.  What
    [RunResultV2::new] accepts is exactly a nonempty UTF-8 path with an exit code
    of at most 255; neither [expect] of [canonical_bytes] is then reached; the
    bytes decode to the object within the decoder's limits, and two results with
    the same bytes are the same result. *)
Theorem run_result_committed (path : list byte) (id : ExecutionId) (commitment : Sha256Digest)
    (outcome : ExecutionOutcome) (Hid : ExecutionId_ok id) (Hcommitment : Sha256Digest_ok commitment)
    (Houtcome : ExecutionOutcome_ok outcome) (Hpath : (Z.of_nat (length path) < u64_bound)%Z) :
  ((exists r, RunResultV2_new path id commitment outcome = Ok r) <->
   utf8_valid path = true /\ path <> [] /\ (forall code, outcome = Exited code -> (0 <= code <= 255)%Z))
  /\ forall r, RunResultV2_new path id commitment outcome = Ok r ->
     exists value bytes, cbor_value r = Some value /\ RunResultV2_canonical_bytes r = Some bytes
       /\ (within_limits (canon value) = true -> decode bytes = Ok (canon value))
       /\ forall r', RunResultV2_ok r' -> RunResultV2_canonical_bytes r' = Some bytes -> r' = r.
Proof.
  split.
  { setoid_rewrite RunResultV2_new_Ok. naive_solver. }
  intros r (Hu & Hne & Hc & ->)%RunResultV2_new_Ok. set (r := mkRunResultV2 _ id commitment outcome).
  assert (RunResultV2_ok r) as Hr.
  { constructor; cbn; [|apply Hid|done|done]. split.
    - unfold text_ok, str_ok. rewrite String.list_ascii_of_string_of_list_ascii, Hu.
      apply andb_true_iff. split; [done|]. apply in_u64_spec. lia.
    - intros H. apply (f_equal String.list_ascii_of_string) in H.
      by rewrite String.list_ascii_of_string_of_list_ascii in H. }
  destruct (cbor_value_Some r Hr) as (v & Hv & He & Heq).
  exists v, (wire (canon v)). split; [done|]. unfold RunResultV2_canonical_bytes.
  rewrite Hv; cbn [mbind option_bind]. rewrite encodable_encode by done. split; [done|].
  split; [intros Hl; apply decode_wire; [by apply encodable_canon_ok|done]|].
  intros r' Hr'. destruct (cbor_value_Some r' Hr') as (v' & -> & He' & Heq'). cbn [mbind option_bind].
  rewrite encodable_encode by done. cbn [result_ok]. intros [= Hw].
  apply wire_inj in Hw; [|by apply encodable_canon_ok..]. subst v v'.
  destruct r as [p i d o], r' as [p' i' d' o']; cbn in *. injection Hw as Ho Hp Hd Hi.
  apply (f_equal Map) in Ho. change (canon (cbor_outcome o') = canon (cbor_outcome o)) in Ho.
  apply cbor_outcome_inj in Ho; [|apply Hr'|apply Hr]. subst. f_equal; [by destruct i, i'; cbn in *; congruence|].
  by destruct d, d'; cbn in *; congruence.
Qed.

(** The diagnostic vocabulary is closed.  Each of the five types parses
    exactly its own wire names, every name to the value it prints for, and every
    other text to the one error of the type. *)
Theorem diagnostic_vocabulary_closed :
  vocabulary_exact ExecutionProfile_parse ExecutionProfile_as_str ExecutionProfileUnsupported
  /\ vocabulary_exact DiagnosticObserverMechanism_parse DiagnosticObserverMechanism_as_str
       ObserverMechanismUnsupported
  /\ vocabulary_exact DraftProvenance_parse DraftProvenance_as_str DraftProvenanceUnsupported
  /\ vocabulary_exact ObservationResolution_parse ObservationResolution_as_str
       ObservationResolutionUnsupported
  /\ vocabulary_exact DiagnosticCompletion_parse DiagnosticCompletion_as_str CompletionUnsupported.
Proof.
  split_and!; [solve_vocabulary ExecutionProfile_parse|solve_vocabulary DiagnosticObserverMechanism_parse
    |solve_vocabulary DraftProvenance_parse|solve_vocabulary ObservationResolution_parse
    |solve_vocabulary DiagnosticCompletion_parse].
Qed.

(** * The golden run result *)

Definition golden_run_id : ExecutionId := mkExecutionId (bytes_of_hex "00000000000040008000000000000000").
Definition golden_run_commitment : Sha256Digest := mkSha256Digest (replicate 32 (mkb 9)).
(** [version_two_run_result_matches_the_frozen_cbor_golden] *)
Example run_result_matches_golden :
  (result_ok (RunResultV2_new (String.list_ascii_of_string "receipt.cbor") golden_run_id
     golden_run_commitment (Exited 0)) ≫= RunResultV2_canonical_bytes) = Some run_result.
Proof. vm_compute. reflexivity. Qed.
Lemma run_result_committed_witness :
  exists r, RunResultV2_new (String.list_ascii_of_string "receipt.cbor") golden_run_id
    golden_run_commitment (Exited 0) = Ok r.
Proof.
  apply (run_result_committed (String.list_ascii_of_string "receipt.cbor") golden_run_id
    golden_run_commitment (Exited 0)).
  - split; vm_compute; reflexivity.
  - vm_compute. reflexivity.
  - cbn. lia.
  - vm_compute. reflexivity.
  - split; [vm_compute; reflexivity|]. split; [done|]. intros ? [= <-]. lia.
Defined.
