(* ===== verification/DnsMessage.v ===== *)
(** The DNS message codec of the connector
    ([proofbound-runtime-connector/src/dns.rs]): the query it sends, the names
    with their compression pointers, and the response parser with its record
    lifetimes.  Slices of the received bytes that could be out of range are
    panics here, which the lemmas exclude. *)
From S2P Require Import Prelude Identity Network.
From Stdlib Require Import Ascii ZArith Lia Sorted.
From stdpp Require Import prelude strings list numbers gmap.
Export stdpp.list_relations.list.

Definition DNS_HEADER_BYTES : nat := 12.
Definition DNS_CLASS_IN : Z := 1.
Definition DNS_TYPE_A : Z := 1.
Definition DNS_TYPE_CNAME : Z := 5.
Definition DNS_TYPE_AAAA : Z := 28.
Definition MAX_DNS_NAME_POINTERS : nat := 128.

Inductive DnsError :=
| RandomUnavailable | ResolverUnavailable | RequestFailed | ResponseFailed | ResponseTooLarge
| MessageLimit | Deadline | MalformedResponse | ResolverFailure | InvalidCnameChain
| InvalidAnswerSet | ExpiredAnswer.
#[global] Instance DnsError_eq_dec : EqDecision DnsError.
Proof. solve_decision. Defined.
Definition DnsError_code (e : DnsError) : string :=
  match e with
  | RandomUnavailable => "network.resolver.random-unavailable"
  | ResolverUnavailable => "network.resolver.endpoint-unavailable"
  | RequestFailed => "network.resolver.request-failed"
  | ResponseFailed => "network.resolver.response-failed"
  | ResponseTooLarge => "network.resolver.response-too-large"
  | MessageLimit => "network.limit.dns-messages"
  | Deadline => "network.resolver.deadline"
  | MalformedResponse => "network.resolver.response-malformed"
  | ResolverFailure => "network.resolver.response-failure"
  | InvalidCnameChain => "network.resolver.cname-invalid"
  | InvalidAnswerSet => "network.resolver.answer-set-invalid"
  | ExpiredAnswer => "network.resolver.answer-expired"
  end.

(** [std::net::IpAddr], by its octets. *)
Inductive Address := V4 (octets : list byte) | V6 (octets : list byte).
#[global] Instance Address_eq_dec : EqDecision Address.
Proof. solve_decision. Defined.

Record DnsAnswer := mkDnsAnswer {
  an_name : ServiceName;
  an_address : Address;
  an_message : Sha256Digest;
  an_ttl_seconds : Z;
  an_record_expires_ns : Z;
  an_effective_expires_ns : Z
}.
Record DnsCnameObservation := mkDnsCnameObservation {
  cn_owner : ServiceName;
  cn_target : ServiceName;
  cn_message : Sha256Digest;
  cn_ttl_seconds : Z;
  cn_expires_ns : Z
}.
#[global] Instance DnsCnameObservation_eq_dec : EqDecision DnsCnameObservation.
Proof. solve_decision. Defined.
(** The map is keyed by the text of the owner's name. *)
Record ParsedResponse := mkParsedResponse {
  cnames : gmap string (list DnsCnameObservation);
  addresses : list DnsAnswer
}.

Abbreviation Parse := (result (fault DnsError)).
Definition fails {A} (e : DnsError) : Parse A := Err (Failure e).
Definition some_or {A} (o : option A) (e : DnsError) : Parse A := ok_or o (Failure e).

(** [bytes.get(a..b)], and [&bytes[a..b]], which panics out of range. *)
Definition get_range (bytes : list byte) (a b : nat) : option (list byte) :=
  if (a <=? b) && (b <=? length bytes) then Some (take (b - a) (drop a bytes)) else None.
Definition index_range (bytes : list byte) (a b : nat) : Parse (list byte) :=
  ok_or (get_range bytes a b) Panicked.

Definition read_u16 (bytes : list byte) (offset : nat) : Parse Z :=
  value ← some_or (get_range bytes offset (offset + 2)) MalformedResponse; Ok (be_value value).
Definition read_u32 (bytes : list byte) (offset : nat) : Parse Z :=
  value ← some_or (get_range bytes offset (offset + 4)) MalformedResponse; Ok (be_value value).

(** [str::to_ascii_lowercase] *)
Definition is_upper : byte -> bool := byte_in 65 90.
Definition to_ascii_lowercase (b : byte) : byte := if is_upper b then mkb (bval b + 32) else b.

(** One label: [from_utf8], lower-casing and the alphabet test. *)
Definition read_label (bytes : list byte) (cursor stop : nat) : Parse (list byte) :=
  raw ← index_range bytes cursor stop;
  if negb (utf8_valid raw) then fails MalformedResponse
  else
    let label := map to_ascii_lowercase raw in
    if bool_decide (label = []) || bool_decide (head label = Some "-"%char)
       || bool_decide (last_byte label = Some "-"%char) || negb (forallb label_byte label)
    then fails MalformedResponse else Ok label.

(** The loop of [read_name]; the fuel is the iteration bound of the code. *)
Fixpoint read_name_loop (fuel : nat) (bytes : list byte) (cursor : nat) (next : option nat)
    (visited : list nat) (labels : list (list byte)) : Parse (list byte * nat) :=
  match fuel with
  | O => fails MalformedResponse
  | S fuel =>
    length_byte ← some_or (bytes !! cursor) MalformedResponse;
    if (Z.land (bval length_byte) 0xc0 =? 0xc0)%Z then
      low ← some_or (bytes !! (cursor + 1)) MalformedResponse;
      let pointer := Z.to_nat (Z.lor (Z.shiftl (Z.land (bval length_byte) 0x3f) 8) (bval low)) in
      if (length bytes <=? pointer) || bool_decide (pointer ∈ visited) then fails MalformedResponse
      else
        let next := match next with Some n => Some n | None => Some (cursor + 2) end in
        read_name_loop fuel bytes pointer next (pointer :: visited) labels
    else if negb (Z.land (bval length_byte) 0xc0 =? 0)%Z || (63 <? bval length_byte)%Z
    then fails MalformedResponse
    else
      let cursor := cursor + 1 in
      if (bval length_byte =? 0)%Z then
        let stop := match next with Some n => n | None => cursor end in
        let name := join_with "."%char labels in
        if 253 <? length name then fails MalformedResponse else Ok (name, stop)
      else
        let stop := cursor + Z.to_nat (bval length_byte) in
        _ ← (if stop <=? length bytes then Ok () else fails MalformedResponse);
        label ← read_label bytes cursor stop;
        read_name_loop fuel bytes stop next visited (labels ++ [label])
  end.
Definition read_name (bytes : list byte) (start : nat) : Parse (string * nat) :=
  '(name, stop) ← read_name_loop MAX_DNS_NAME_POINTERS bytes start None [] [];
  Ok (String.string_of_list_ascii name, stop).

(** * Record lifetimes *)

Definition expiry (ttl_seconds observed_ns : Z) : Parse Z :=
  if (ttl_seconds =? 0)%Z then fails ExpiredAnswer
  else
    some_or (ttl ← u64_checked_mul ttl_seconds 1000000000; u64_checked_add observed_ns ttl) ExpiredAnswer.
Definition cname_observation (owner target : ServiceName) (message_identity : Sha256Digest)
    (ttl_seconds observed_ns : Z) : Parse DnsCnameObservation :=
  expires_ns ← expiry ttl_seconds observed_ns;
  Ok (mkDnsCnameObservation owner target message_identity ttl_seconds expires_ns).
Definition answer (name : ServiceName) (address : Address) (message_identity : Sha256Digest)
    (ttl_seconds observed_ns : Z) : Parse DnsAnswer :=
  record_expires_ns ← expiry ttl_seconds observed_ns;
  Ok (mkDnsAnswer name address message_identity ttl_seconds record_expires_ns record_expires_ns).

(** * The query *)

(** [query.push(u8::try_from(label.len())?); query.extend(label)] for each label. *)
Fixpoint push_labels (labels : list (list byte)) (query : list byte) : Parse (list byte) :=
  match labels with
  | [] => Ok query
  | label :: labels =>
    length_byte ← some_or (u8_try_from (Z.of_nat (length label))) MalformedResponse;
    push_labels labels (query ++ [mkb length_byte] ++ label)
  end.
Definition encode_query (transaction : Z) (name : ServiceName) (record_type : Z) : Parse (list byte) :=
  let query := be_bytes 2 transaction ++ be_bytes 2 0x0100 ++ be_bytes 2 1 ++ be_bytes 2 0
    ++ be_bytes 2 0 ++ be_bytes 2 0 in
  query ← push_labels (split_on "."%char (String.list_ascii_of_string (ServiceName_as_str name))) query;
  Ok (query ++ [mkb 0] ++ be_bytes 2 record_type ++ be_bytes 2 DNS_CLASS_IN).

(** * The response *)

Record Records := mkRecords {
  rec_cursor : nat;
  rec_cnames : gmap string (list DnsCnameObservation);
  rec_addresses : list DnsAnswer
}.

Section response.
Context (bytes : list byte) (expected_type : Z) (message_identity : Sha256Digest) (observed_ns : Z).

Definition service_name (text : string) : Parse ServiceName :=
  map_err (fun _ => Failure MalformedResponse) (ServiceName_new text).

(** The data of one answer of class IN. *)
Definition parse_answer (record_type ttl : Z) (owner : ServiceName) (cursor data_end : nat) (s : Records) :
    Parse Records :=
  let data_length := data_end - cursor in
  if (record_type =? DNS_TYPE_CNAME)%Z then
    '(target, consumed) ← read_name bytes cursor;
    if negb (consumed =? data_end) then fails MalformedResponse
    else
      target ← service_name target;
      record ← cname_observation owner target message_identity ttl observed_ns;
      let key := ServiceName_as_str owner in
      Ok (mkRecords (rec_cursor s)
            (<[key := default [] (rec_cnames s !! key) ++ [record]]> (rec_cnames s)) (rec_addresses s))
  else if (record_type =? DNS_TYPE_A)%Z && (expected_type =? DNS_TYPE_A)%Z && (data_length =? 4) then
    raw ← index_range bytes cursor data_end;
    record ← answer owner (V4 raw) message_identity ttl observed_ns;
    Ok (mkRecords (rec_cursor s) (rec_cnames s) (rec_addresses s ++ [record]))
  else if (record_type =? DNS_TYPE_AAAA)%Z && (expected_type =? DNS_TYPE_AAAA)%Z && (data_length =? 16) then
    raw ← index_range bytes cursor data_end;
    record ← answer owner (V6 raw) message_identity ttl observed_ns;
    Ok (mkRecords (rec_cursor s) (rec_cnames s) (rec_addresses s ++ [record]))
  else if ((record_type =? DNS_TYPE_A)%Z || (record_type =? DNS_TYPE_AAAA)%Z)
          && (record_type =? expected_type)%Z then fails MalformedResponse
  else Ok s.

(** One iteration over the records. *)
Definition parse_record (is_answer : bool) (s : Records) : Parse Records :=
  '(owner_text, cursor) ← read_name bytes (rec_cursor s);
  record_type ← read_u16 bytes cursor;
  class ← read_u16 bytes (cursor + 2);
  ttl ← read_u32 bytes (cursor + 4);
  data_length ← read_u16 bytes (cursor + 8);
  let cursor := cursor + 10 in
  let data_end := cursor + Z.to_nat data_length in
  _ ← (if data_end <=? length bytes then Ok () else fails MalformedResponse);
  s ← (if is_answer && (class =? DNS_CLASS_IN)%Z then
         owner ← service_name owner_text;
         parse_answer record_type ttl owner cursor data_end s
       else Ok s);
  Ok (mkRecords data_end (rec_cnames s) (rec_addresses s)).
Fixpoint parse_records (count index answers : nat) (s : Records) : Parse Records :=
  match count with
  | O => Ok s
  | S count => s ← parse_record (index <? answers) s; parse_records count (S index) answers s
  end.
End response.

(** The order of [targets.sort_unstable_by] and the equality of its [dedup_by]. *)
Definition target_order (left right : DnsCnameObservation) : comparison :=
  cmp_then (rcmp (ServiceName_as_str (cn_target left)) (ServiceName_as_str (cn_target right)))
    (cmp_then (cn_expires_ns left ?= cn_expires_ns right)%Z
       (cmp_then (rcmp (cn_message left) (cn_message right))
          (cn_ttl_seconds left ?= cn_ttl_seconds right)%Z)).
Definition is_less (c : comparison) : bool := match c with Lt => true | _ => false end.
Definition canonical_targets (targets : list DnsCnameObservation) : list DnsCnameObservation :=
  dedup_by (fun left right => bool_decide (cn_target left = cn_target right))
    (sort_by (fun left right => is_less (target_order left right)) targets).

Definition parse_response (bytes : list byte) (expected_transaction : Z) (expected_name : ServiceName)
    (expected_type : Z) (message_identity : Sha256Digest) (observed_ns : Z) : Parse ParsedResponse :=
  if length bytes <? DNS_HEADER_BYTES then fails MalformedResponse
  else
    transaction ← read_u16 bytes 0;
    if negb (transaction =? expected_transaction)%Z then fails MalformedResponse
    else
      flags ← read_u16 bytes 2;
      if (Z.land flags 0x8000 =? 0)%Z || negb (Z.land flags 0x7800 =? 0)%Z || negb (Z.land flags 0x0200 =? 0)%Z
      then fails MalformedResponse
      else if negb (Z.land flags 0x000f =? 0)%Z then fails ResolverFailure
      else
        questions ← read_u16 bytes 4;
        answers ← read_u16 bytes 6;
        authority ← read_u16 bytes 8;
        additional ← read_u16 bytes 10;
        if negb (questions =? 1)%Z then fails MalformedResponse
        else
          '(question, cursor) ← read_name bytes DNS_HEADER_BYTES;
          if negb (String.eqb question (ServiceName_as_str expected_name)) then fails MalformedResponse
          else
            question_type ← read_u16 bytes cursor;
            if negb (question_type =? expected_type)%Z then fails MalformedResponse
            else
              question_class ← read_u16 bytes (cursor + 2);
              if negb (question_class =? DNS_CLASS_IN)%Z then fails MalformedResponse
              else
                s ← parse_records bytes expected_type message_identity observed_ns
                  (Z.to_nat (answers + authority + additional)) 0 (Z.to_nat answers)
                  (mkRecords (cursor + 4) ∅ []);
                if negb (rec_cursor s =? length bytes) then fails MalformedResponse
                else Ok (mkParsedResponse (canonical_targets <$> rec_cnames s) (rec_addresses s)).

(** * Lemmas: names stay in bounds *)

Lemma range_bytes_Some bytes a b l :
  get_range bytes a b = Some l <-> a <= b /\ b <= length bytes /\ l = take (b - a) (drop a bytes).
Proof.
  unfold get_range. destruct (a <=? b) eqn:Ha, (b <=? length bytes) eqn:Hb; cbn;
    rewrite ?Nat.leb_le, ?Nat.leb_gt in *; (split; [intros [= <-] || intros ?; try done|]); intuition (try lia; congruence).
Qed.
Lemma range_bytes_middle pre mid post :
  get_range (pre ++ mid ++ post) (length pre) (length pre + length mid) = Some mid.
Proof.
  apply range_bytes_Some. rewrite !length_app. split; [lia|]. split; [lia|].
  replace (length pre + length mid - length pre) with (length mid) by lia.
  by rewrite drop_app_length, take_app_length.
Qed.
Lemma index_range_yields bytes a b :
  a <= b -> b <= length bytes -> yields (E := DnsError) (index_range bytes a b) (fun l => length l = b - a).
Proof.
  intros Ha Hb. unfold index_range. rewrite (proj2 (range_bytes_Some _ _ _ _) (conj Ha (conj Hb eq_refl))). cbn.
  rewrite length_take, length_drop. lia.
Qed.
Lemma read_u16_yields bytes offset :
  yields (read_u16 bytes offset) (fun z => offset + 2 <= length bytes /\ (0 <= z < 65536)%Z).
Proof.
  unfold read_u16. eapply yields_bind; [apply yields_ok_or; intros l Hl; exact (proj1 (range_bytes_Some _ _ _ _) Hl)|].
  intros l (_ & H2 & ->). cbn. split; [done|]. pose proof (be_value_bound (take (offset + 2 - offset) (drop offset bytes))) as Hb.
  rewrite length_take, length_drop in Hb. replace (Nat.min _ _) with 2 in Hb by lia. exact Hb.
Qed.
Lemma read_u32_yields bytes offset :
  yields (read_u32 bytes offset) (fun z => offset + 4 <= length bytes /\ (0 <= z < u32_bound)%Z).
Proof.
  unfold read_u32. eapply yields_bind; [apply yields_ok_or; intros l Hl; exact (proj1 (range_bytes_Some _ _ _ _) Hl)|].
  intros l (_ & H2 & ->). cbn. split; [done|]. pose proof (be_value_bound (take (offset + 4 - offset) (drop offset bytes))) as Hb.
  rewrite length_take, length_drop in Hb. replace (Nat.min _ _) with 4 in Hb by lia. exact Hb.
Qed.

Lemma read_label_yields bytes cursor stop :
  1 <= stop - cursor <= 63 -> stop <= length bytes ->
  yields (read_label bytes cursor stop) (fun label => dns_label label).
Proof.
  intros H1 H2. unfold read_label. eapply yields_bind; [apply index_range_yields; lia|].
  intros raw Hraw. cbn beta in Hraw. destruct (negb (utf8_valid raw)); [done|].
  destruct (bool_decide (map to_ascii_lowercase raw = [])) eqn:E1; cbn [orb]; [done|].
  destruct (bool_decide (head _ = _)) eqn:E2; cbn [orb]; [done|].
  destruct (bool_decide (last_byte _ = _)) eqn:E3; cbn [orb]; [done|].
  destruct (forallb _ _) eqn:E4; cbn [negb]; [|done]. apply bool_decide_eq_false in E2, E3.
  cbn. split; [rewrite length_map; lia|]. split; [by apply forallb_Forall'|done].
Qed.

Lemma read_name_loop_yields bytes fuel cursor next visited labels :
  (forall n, next = Some n -> n <= length bytes) -> Forall dns_label labels ->
  yields (read_name_loop fuel bytes cursor next visited labels) (fun r =>
    (exists ls, r.1 = join_with "."%char ls /\ Forall dns_label ls) /\ length r.1 <= 253
    /\ r.2 <= length bytes
    /\ match next with Some n => r.2 = n | None => cursor < r.2 end).
Proof.
  revert cursor next visited labels. induction fuel as [|fuel IH]; intros cursor next visited labels Hn Hl; [done|].
  cbn [read_name_loop]. eapply yields_bind; [apply yields_ok_or; intros b Hb; exact Hb|].
  intros b Hb%lookup_lt_Some. destruct (_ =? 0xc0)%Z.
  { eapply yields_bind; [apply yields_ok_or; intros low Hlow; exact Hlow|].
    intros low Hlow%lookup_lt_Some. cbv zeta. destruct (_ || _); [done|].
    eapply yields_mono; [apply IH; [|done]|].
    - intros n. destruct next as [m|]; intros [= <-]; [by apply Hn|lia].
    - intros [name stop] (Hls & Hlen & Hstop & Hx). split; [done|]. split; [done|]. split; [done|].
      cbn in *. destruct next; lia. }
  destruct (negb _ || _) eqn:Hsz; [done|]. apply orb_false_iff in Hsz as [_ Hsz%Z.ltb_ge].
  cbv zeta. destruct (bval b =? 0)%Z eqn:H0.
  { destruct (253 <? _) eqn:Hlen; [done|]. apply Nat.ltb_ge in Hlen. cbn. split; [by exists labels|]. split; [done|].
    destruct next as [n|]; [by auto|lia]. }
  destruct (_ <=? length bytes) eqn:Hend; [|done]. apply Nat.leb_le in Hend. cbn [mbind result_bind].
  pose proof (bval_bound b). apply Z.eqb_neq in H0.
  eapply yields_bind; [apply read_label_yields; lia|]. intros label Hlabel.
  eapply yields_mono; [apply IH; [done|apply Forall_app; split; [done|by constructor]]|].
  intros [name stop] (Hls & Hlen & Hstop & Hx). split; [done|]. split; [done|]. split; [done|].
  destruct next; cbn in *; lia.
Qed.
Lemma read_name_yields bytes start :
  yields (read_name bytes start) (fun r =>
    (exists ls, String.list_ascii_of_string r.1 = join_with "."%char ls /\ Forall dns_label ls)
    /\ length (String.list_ascii_of_string r.1) <= 253 /\ start < r.2 <= length bytes).
Proof.
  unfold read_name. eapply yields_bind; [apply (read_name_loop_yields _ _ _ None); [done|constructor]|].
  intros [name stop] (Hls & Hlen & Hstop & Hx). cbn in *.
  rewrite String.list_ascii_of_string_of_list_ascii. done.
Qed.

(** * Lemmas: responses *)

Lemma expiry_Ok ttl observed e :
  expiry ttl observed = Ok e <->
  ttl <> 0%Z /\ e = (observed + ttl * 1000000000)%Z /\ (0 <= ttl * 1000000000 < u64_bound)%Z
  /\ (0 <= observed + ttl * 1000000000 < u64_bound)%Z.
Proof.
  unfold expiry, some_or, u64_checked_mul, u64_checked_add. destruct (ttl =? 0)%Z eqn:H0.
  { split; [done|]. intros (? & _). lia. }
  rewrite ok_or_Ok. split.
  - intros (p & Hp & He)%bind_Some. apply try_from_Some in Hp as [-> Hp].
    apply try_from_Some in He as [-> He]. lia.
  - intros (_ & -> & Hp & He). rewrite (proj2 (try_from_Some _ _ _) (conj eq_refl Hp)). cbn.
    by apply try_from_Some.
Qed.
Lemma expiry_yields ttl observed :
  (0 <= ttl < u32_bound)%Z ->
  yields (expiry ttl observed) (fun e => (0 < ttl)%Z /\ e = (observed + ttl * 1000000000)%Z /\ (e < u64_bound)%Z).
Proof.
  intros Ht. apply yields_value; [|unfold expiry; destruct (_ =? 0)%Z; [done|by destruct (_ ← _; _)]].
  intros e (H0 & -> & _ & He)%expiry_Ok. lia.
Qed.

(** * Lemmas: sorting and removing repeated keys *)

Section dedup.
Context {A K1 K2 : Type} `{!EqDecision K1} `{LawfulOrd K1} `{LawfulOrd K2} (k : A -> K1 * K2).
Implicit Types (l : list A) (x y : A).

(** [sort_unstable_by] on the whole key, then [dedup_by] on its first part. *)
Definition first_of_key (l : list A) : list A :=
  dedup_by (fun a b => bool_decide ((k a).1 = (k b).1)) (sort_by (fun a b => rlt (k a) (k b)) l).

Lemma rle_first x y : rle (k x) (k y) = true -> rle (k x).1 (k y).1 = true.
Proof.
  unfold rle. destruct (k x) as [a b], (k y) as [c d]. rewrite rcmp_pair. cbn.
  by destruct (rcmp a c).
Qed.
Lemma sort_by_key_weak l :
  StronglySorted (fun a b => rle (k a) (k b) = true) (sort_by (fun a b => rlt (k a) (k b)) l).
Proof.
  pose proof (sort_by_fmap k _ rlt l (fun a b => eq_refl)) as Hf.
  assert (StronglySorted (fun a b => rle a b = true) (k <$> sort_by (fun a b => rlt (k a) (k b)) l)) as Hs.
  { rewrite Hf. apply sort_weak. }
  clear Hf. induction (sort_by _ l) as [|x s IH]; [constructor|].
  apply StronglySorted_inv in Hs as [Hs Hx]. constructor; [by apply IH|]. by apply Forall_fmap in Hx.
Qed.
Lemma dedup_after_key x l :
  StronglySorted (fun a b => rle (k a) (k b) = true) (x :: l) ->
  let d := x :: dedup_after (fun a b => bool_decide ((k a).1 = (k b).1)) x l in
  StronglySorted (fun a b => rlt (k a).1 (k b).1 = true) d /\ d ⊆ x :: l
  /\ forall a, a ∈ x :: l -> exists b, b ∈ d /\ (k b).1 = (k a).1 /\ rle (k b) (k a) = true.
Proof.
  revert x. induction l as [|y l IH]; intros x Hs; cbv zeta in *; cbn [dedup_after].
  { split; [by repeat constructor|]. split; [done|]. intros a ->%list_elem_of_singleton. exists x.
    split; [by left|]. split; [done|]. apply rle_rlt_eq. by right. }
  apply StronglySorted_inv in Hs as [Hyl Hx]. pose proof Hyl as Hyl'.
  apply StronglySorted_inv in Hyl as [Hl Hy]. apply Forall_cons in Hx as [Hxy Hxl].
  case_bool_decide as Heq.
  - destruct (IH x) as (IH1 & IH2 & IH3); [by constructor|]. split; [done|]. split; [set_solver|].
    intros a [->|[->|Ha]%elem_of_cons]%elem_of_cons; [apply IH3; by left| |apply IH3; by right].
    exists x. split; [by left|]. split; [by symmetry|done].
  - destruct (IH y) as (IH1 & IH2 & IH3); [done|]. split; [|split; [set_solver|]].
    + constructor; [done|]. assert (rlt (k x).1 (k y).1 = true) as Hlt.
      { pose proof (rle_first _ _ Hxy) as Hle. apply rle_rlt_eq in Hle as [?|?]; [done|congruence]. }
      apply Forall_cons. split; [done|]. apply StronglySorted_inv in IH1 as [_ Hd].
      eapply Forall_impl; [exact Hd|]. cbn. intros z Hz. by eapply rlt_trans.
    + intros a [->|Ha]%elem_of_cons.
      * exists x. split; [by left|]. split; [done|]. apply rle_rlt_eq. by right.
      * destruct (IH3 a Ha) as (b & Hb & ? & ?). exists b. split; [by right|done].
Qed.
Lemma first_of_key_spec l :
  StronglySorted (fun a b => rlt (k a).1 (k b).1 = true) (first_of_key l) /\ first_of_key l ⊆ l
  /\ forall a, a ∈ l -> exists b, b ∈ first_of_key l /\ (k b).1 = (k a).1 /\ rle (k b) (k a) = true.
Proof.
  unfold first_of_key. pose proof (sort_by_key_weak l) as Hw.
  pose proof (sort_by_Permutation (fun a b => rlt (k a) (k b)) l) as Hp.
  assert (forall a, a ∈ sort_by (fun a b => rlt (k a) (k b)) l <-> a ∈ l) as Hin by (intros a; by rewrite Hp).
  destruct (sort_by _ l) as [|x s]; cbn [dedup_by].
  - split; [constructor|]. split; [by intros ? ?%elem_of_nil|]. by intros a ?%Hin%elem_of_nil.
  - destruct (dedup_after_key x s Hw) as (H1' & H2' & H3'). split; [done|]. split.
    + intros a Ha. by apply Hin, H2'.
    + intros a Ha%Hin. by apply H3'.
Qed.
Lemma first_of_key_nil l : first_of_key l = [] -> l = [].
Proof.
  intros Hn. destruct l as [|a l]; [done|]. destruct (proj2 (proj2 (first_of_key_spec (a :: l))) a) as (b & Hb & _);
    [by left|]. rewrite Hn in Hb. by apply elem_of_nil in Hb.
Qed.
End dedup.

(** ** The canonical alias lists *)

Lemma dedup_after_ext {A} (same same' : A -> A -> bool) x l :
  (forall a b, same a b = same' a b) -> dedup_after same x l = dedup_after same' x l.
Proof.
  intros Hs. revert x. induction l as [|y l IH]; intros x; cbn; [done|]. rewrite Hs. by destruct (same' y x); rewrite IH.
Qed.
Lemma dedup_by_ext {A} (same same' : A -> A -> bool) l :
  (forall a b, same a b = same' a b) -> dedup_by same l = dedup_by same' l.
Proof. intros Hs. destruct l; cbn; [done|]. f_equal. by apply dedup_after_ext. Qed.
#[export] Instance ServiceName_as_str_inj : Inj (=) (=) ServiceName_as_str.
Proof. intros [] []; cbn; congruence. Qed.

Definition target_key (r : DnsCnameObservation) : string * (Z * (Sha256Digest * Z)) :=
  (ServiceName_as_str (cn_target r), (cn_expires_ns r, (cn_message r, cn_ttl_seconds r))).
Lemma canonical_targets_key l : canonical_targets l = first_of_key target_key l.
Proof.
  unfold canonical_targets, first_of_key.
  change (fun left right => is_less (target_order left right)) with
    (fun a b : DnsCnameObservation => rlt (target_key a) (target_key b)).
  apply dedup_by_ext. intros a b. apply bool_decide_ext. cbn. by rewrite (inj_iff ServiceName_as_str).
Qed.

(** ** What the parser promises of every record *)

Definition valid_name (n : ServiceName) : Prop := ServiceName_new (ServiceName_as_str n) = Ok n.
Lemma service_name_yields text :
  yields (service_name text) (fun n => valid_name n /\ ServiceName_as_str n = text).
Proof.
  unfold service_name. destruct (ServiceName_new text) as [n|e] eqn:Hn; cbn; [|done].
  pose proof Hn as Hn'. apply ServiceName_new_Ok in Hn' as [-> _]. done.
Qed.

(** The record was observed now and expires in the future, within [u64]. *)
Definition lifetime_ok (observed ttl expires : Z) : Prop :=
  (0 < ttl < u32_bound)%Z /\ expires = (observed + ttl * 1000000000)%Z /\ (expires < u64_bound)%Z.
Record cname_ok (message : Sha256Digest) (observed : Z) (owner : string) (r : DnsCnameObservation) : Prop := {
  cn_owner_ok : valid_name (cn_owner r) /\ ServiceName_as_str (cn_owner r) = owner;
  cn_target_ok : valid_name (cn_target r);
  cn_message_ok : cn_message r = message;
  cn_life_ok : lifetime_ok observed (cn_ttl_seconds r) (cn_expires_ns r)
}.
Record answer_ok (type : Z) (message : Sha256Digest) (observed : Z) (a : DnsAnswer) : Prop := {
  an_name_ok : valid_name (an_name a);
  an_address_ok : match an_address a with
    | V4 octets => type = DNS_TYPE_A /\ length octets = 4
    | V6 octets => type = DNS_TYPE_AAAA /\ length octets = 16
    end;
  an_message_ok : an_message a = message;
  an_life_ok : lifetime_ok observed (an_ttl_seconds a) (an_record_expires_ns a);
  an_effective_ok : an_effective_expires_ns a = an_record_expires_ns a
}.

Section response_lemmas.
Context (bytes : list byte) (type : Z) (message : Sha256Digest) (observed : Z).

Record records_ok (s : Records) : Prop := {
  rec_cnames_ok : forall owner l, rec_cnames s !! owner = Some l ->
    l <> [] /\ Forall (cname_ok message observed owner) l;
  rec_addresses_ok : Forall (answer_ok type message observed) (rec_addresses s)
}.

Lemma answer_yields name address ttl :
  (0 <= ttl < u32_bound)%Z -> valid_name name ->
  (match address with
   | V4 octets => type = DNS_TYPE_A /\ length octets = 4
   | V6 octets => type = DNS_TYPE_AAAA /\ length octets = 16
   end) ->
  yields (answer name address message ttl observed) (answer_ok type message observed).
Proof.
  intros Ht Hn Ha. unfold answer. eapply yields_bind; [by apply expiry_yields|].
  intros e (H1 & H2 & H3). cbn. split; cbn; try done. split; [lia|done].
Qed.
Lemma cname_observation_yields owner target ttl :
  (0 <= ttl < u32_bound)%Z -> valid_name owner -> valid_name target ->
  yields (cname_observation owner target message ttl observed)
    (cname_ok message observed (ServiceName_as_str owner)).
Proof.
  intros Ht Ho Htg. unfold cname_observation. eapply yields_bind; [by apply expiry_yields|].
  intros e (H1 & H2 & H3). cbn. split; cbn; try done. split; [lia|done].
Qed.
Lemma parse_answer_yields record_type ttl owner cursor data_end s :
  (0 <= ttl < u32_bound)%Z -> cursor <= data_end -> data_end <= length bytes -> valid_name owner ->
  records_ok s ->
  yields (parse_answer bytes type message observed record_type ttl owner cursor data_end s) records_ok.
Proof.
  intros Ht Hc Hd Hn [Hcn Had]. unfold parse_answer. destruct (_ =? DNS_TYPE_CNAME)%Z.
  { eapply yields_bind; [apply read_name_yields|]. intros [target consumed] _. cbn beta iota.
    destruct (negb _); [done|]. eapply yields_bind; [apply service_name_yields|].
    intros t [Hvt _]. eapply yields_bind; [by apply cname_observation_yields|].
    intros r Hr. cbn. split; cbn; [|done]. intros o l Hol.
    destruct (decide (o = ServiceName_as_str owner)) as [->|Hne].
    - rewrite lookup_insert in Hol. rewrite decide_True in Hol by done. injection Hol as <-. split; [by intros [_ ?]%app_nil|].
      apply Forall_app. split.
      + destruct (rec_cnames s !! _) as [l'|] eqn:Hl'; cbn; [|constructor]. by apply (Hcn _ _ Hl').
      + by constructor.
    - rewrite lookup_insert_ne in Hol by done. by apply Hcn. }
  destruct (_ && _ && (_ =? 4)) eqn:HA.
  { split_andb. repeat match goal with H : (_ =? _)%Z = true |- _ => apply Z.eqb_eq in H
      | H : (_ =? _) = true |- _ => apply Nat.eqb_eq in H end.
    eapply yields_bind; [by apply index_range_yields|]. intros raw Hraw. cbn beta in Hraw.
    eapply yields_bind; [apply answer_yields; [done|done|]; cbn; split; [done|lia]|].
    intros a Ha. cbn. split; [done|]. cbn. apply Forall_app. split; [done|by constructor]. }
  destruct (_ && _ && (_ =? 16)) eqn:HB.
  { split_andb. repeat match goal with H : (_ =? _)%Z = true |- _ => apply Z.eqb_eq in H
      | H : (_ =? _) = true |- _ => apply Nat.eqb_eq in H end.
    eapply yields_bind; [by apply index_range_yields|]. intros raw Hraw. cbn beta in Hraw.
    eapply yields_bind; [apply answer_yields; [done|done|]; cbn; split; [done|lia]|].
    intros a Ha. cbn. split; [done|]. cbn. apply Forall_app. split; [done|by constructor]. }
  destruct ((_ || _) && _); [done|]. cbn. by split.
Qed.
Lemma parse_record_yields is_answer s :
  records_ok s ->
  yields (parse_record bytes type message observed is_answer s)
    (fun s' => records_ok s' /\ rec_cursor s < rec_cursor s' <= length bytes).
Proof.
  intros Hs. unfold parse_record. eapply yields_bind; [apply read_name_yields|].
  intros [owner cursor] (_ & _ & Hc). cbn beta iota in *. cbn [snd] in Hc.
  eapply yields_bind; [apply read_u16_yields|]. intros rt _.
  eapply yields_bind; [apply read_u16_yields|]. intros class _.
  eapply yields_bind; [apply read_u32_yields|]. intros ttl [_ Ht].
  eapply yields_bind; [apply read_u16_yields|]. intros dl [_ Hdl]. cbv zeta.
  destruct (_ <=? length bytes) eqn:He; [|done]. apply Nat.leb_le in He. cbn [mbind result_bind].
  eapply (yields_bind _ _ records_ok).
  - destruct (is_answer && _); [|done]. eapply yields_bind; [apply service_name_yields|].
    intros n [Hn _]. apply parse_answer_yields; [done|lia|done|done|done].
  - intros s' [H1 H2]. cbn. split; [by split|]. lia.
Qed.
Lemma parse_records_yields count index answers s :
  records_ok s -> rec_cursor s <= length bytes ->
  yields (parse_records bytes type message observed count index answers s)
    (fun s' => records_ok s' /\ rec_cursor s' <= length bytes).
Proof.
  revert index s. induction count as [|count IH]; intros index s Hs Hc; cbn [parse_records]; [done|].
  eapply yields_bind; [by apply parse_record_yields|]. intros s' [Hs' Hc']. apply IH; [done|lia].
Qed.
End response_lemmas.

(** Every alias list is sorted by its target, without repeated targets, and every
    record of the response is sound. *)
Record response_ok (type : Z) (message : Sha256Digest) (observed : Z) (r : ParsedResponse) : Prop := {
  resp_cnames : forall owner l, cnames r !! owner = Some l ->
    l <> [] /\ Forall (cname_ok message observed owner) l
    /\ StronglySorted (fun a b => rlt (ServiceName_as_str (cn_target a)) (ServiceName_as_str (cn_target b)) = true) l;
  resp_addresses : Forall (answer_ok type message observed) (addresses r)
}.
Lemma parse_response_yields bytes transaction name type message observed :
  yields (parse_response bytes transaction name type message observed) (response_ok type message observed).
Proof.
  unfold parse_response. destruct (_ <? DNS_HEADER_BYTES); [done|].
  eapply yields_bind; [apply read_u16_yields|]. intros t _. destruct (negb _); [done|].
  eapply yields_bind; [apply read_u16_yields|]. intros flags _. destruct (_ || _); [done|].
  destruct (negb _); [done|].
  do 4 (eapply yields_bind; [apply read_u16_yields|]; intros ? _). destruct (negb _); [done|].
  eapply yields_bind; [apply read_name_yields|]. intros [question cursor] _. cbn beta iota.
  destruct (negb _); [done|]. eapply yields_bind; [apply read_u16_yields|]. intros qt _. destruct (negb _); [done|].
  eapply yields_bind; [apply read_u16_yields|]. intros qc [Hqc _]. destruct (negb _); [done|].
  eapply yields_bind.
  { apply parse_records_yields; [|cbn; lia]. split; [|constructor]. intros owner l. cbn. by rewrite lookup_empty. }
  intros s [[Hcn Had] _]. destruct (negb _); [done|]. cbn. split; cbn; [|done].
  intros owner l Hl. rewrite lookup_fmap in Hl. apply fmap_Some in Hl as (l' & Hl' & ->).
  destruct (Hcn _ _ Hl') as [Hne Hall]. rewrite canonical_targets_key.
  destruct (first_of_key_spec target_key l') as (Hsort & Hsub & _). split; [|split; [|done]].
  - intros Hnil. apply Hne. by apply (first_of_key_nil target_key).
  - rewrite Forall_forall in Hall. apply Forall_forall. intros r Hr. apply Hall, Hsub, Hr.
Qed.

(** * Lemmas: what the connector sends *)

(** An uncompressed name on the wire. *)
Definition name_wire (labels : list (list byte)) : list byte :=
  concat (map (fun label => mkb (Z.of_nat (length label)) :: label) labels) ++ [mkb 0].
Definition name_labels (n : ServiceName) : list (list byte) :=
  split_on "."%char (String.list_ascii_of_string (ServiceName_as_str n)).

Lemma label_byte_plain b : label_byte b = true -> to_ascii_lowercase b = b /\ byte_in 0x00 0x7f b = true.
Proof.
  intros Hb.
  assert (implb (label_byte b) (Ascii.eqb (to_ascii_lowercase b) b && byte_in 0x00 0x7f b) = true) as H.
  { apply (all_bytes_spec (fun b => implb (label_byte b) (Ascii.eqb (to_ascii_lowercase b) b && byte_in 0x00 0x7f b))).
    vm_compute. reflexivity. }
  rewrite Hb in H. apply andb_true_iff in H as [H1%Ascii.eqb_eq H2]. done.
Qed.
Lemma read_label_middle pre label post :
  dns_label label ->
  read_label (pre ++ label ++ post) (length pre) (length pre + length label) = Ok label.
Proof.
  intros (Hl & Hb & Hh & Ht). unfold read_label, index_range. rewrite range_bytes_middle. cbn [ok_or mbind result_bind].
  assert (Forall (fun b => to_ascii_lowercase b = b /\ byte_in 0x00 0x7f b = true) label) as Hp.
  { eapply Forall_impl; [exact Hb|]. intros b. apply label_byte_plain. }
  rewrite utf8_valid_ascii by (eapply Forall_impl; [exact Hp|]; by intros b [_ ?]). cbn [negb].
  assert (map to_ascii_lowercase label = label) as ->.
  { clear -Hp. induction Hp as [|b l [Hb _] _ IH]; cbn; congruence. }
  rewrite (bool_decide_eq_false_2 (label = [])) by (intros ->; cbn in Hl; lia).
  rewrite !bool_decide_eq_false_2 by done. by rewrite (proj2 (forallb_Forall' _ _) Hb).
Qed.
Lemma length_byte_tests (z : Z) :
  (0 <= z <= 63)%Z ->
  bval (mkb z) = z /\ (Z.land (bval (mkb z)) 0xc0 =? 0xc0)%Z = false
  /\ (Z.land (bval (mkb z)) 0xc0 =? 0)%Z = true /\ (63 <? bval (mkb z))%Z = false.
Proof.
  intros Hz. rewrite bval_mkb_small by lia. split; [done|].
  assert (forallb (fun z => negb (Z.land z 0xc0 =? 0xc0)%Z && (Z.land z 0xc0 =? 0)%Z && negb (63 <? z)%Z)
    (seqZ 0 64) = true) as H by (vm_compute; reflexivity).
  rewrite forallb_forall in H. specialize (H z).
  rewrite !andb_true_iff, !negb_true_iff in H. destruct H as [[? ?] ?]; [|done].
  apply list_elem_of_In, elem_of_seqZ. lia.
Qed.

(** Reading a name that was written without compression. *)
Lemma read_name_loop_wire fuel pre labels post next visited before :
  Forall dns_label labels -> length labels < fuel ->
  length (join_with "."%char (before ++ labels)) <= 253 ->
  read_name_loop fuel (pre ++ name_wire labels ++ post) (length pre) next visited before
  = Ok (join_with "."%char (before ++ labels), default (length pre + length (name_wire labels)) next).
Proof.
  intros Hl. revert fuel pre before. induction Hl as [|label labels Hlabel _ IH]; intros fuel pre before Hf Hlen;
    (destruct fuel as [|fuel]; [cbn in Hf; lia|]); cbn [read_name_loop].
  - unfold name_wire. cbn [map concat app]. rewrite (list_lookup_middle pre post (mkb 0) _ eq_refl). cbn [some_or ok_or mbind result_bind].
    destruct (length_byte_tests 0) as (Hv & -> & -> & ->); [lia|]. cbn [negb orb]. rewrite Hv, Z.eqb_refl.
    cbv zeta. rewrite app_nil_r in *. rewrite (proj2 (Nat.ltb_ge _ _)) by done. by destruct next.
  - assert (Hn : name_wire (label :: labels) = mkb (Z.of_nat (length label)) :: label ++ name_wire labels).
    { unfold name_wire. cbn [map concat app]. by rewrite <- app_assoc. }
    pose proof Hlabel as (Hll & _). rewrite Hn. cbn [app].
    rewrite (list_lookup_middle pre _ (mkb (Z.of_nat (length label))) _ eq_refl). cbn [some_or ok_or mbind result_bind].
    destruct (length_byte_tests (Z.of_nat (length label))) as (Hv & -> & -> & ->); [lia|]. cbn [negb orb].
    rewrite Hv. cbv zeta. rewrite (proj2 (Z.eqb_neq _ _)) by lia. rewrite Nat2Z.id.
    set (pre' := pre ++ [mkb (Z.of_nat (length label))]).
    assert (pre ++ mkb (Z.of_nat (length label)) :: (label ++ name_wire labels) ++ post
      = pre' ++ label ++ (name_wire labels ++ post)) as ->.
    { unfold pre'. rewrite <- !app_assoc. done. }
    assert (length pre + 1 = length pre') as -> by (unfold pre'; rewrite length_app; cbn; lia).
    rewrite (proj2 (Nat.leb_le _ _)) by (rewrite !length_app; lia). cbn [mbind result_bind].
    rewrite read_label_middle by done. cbn [mbind result_bind].
    assert (length pre' + length label = length (pre' ++ label)) as -> by (by rewrite length_app).
    rewrite app_assoc. rewrite IH; [|cbn in Hf; lia|by rewrite <- app_assoc].
    rewrite <- app_assoc. cbn [app]. f_equal. f_equal. destruct next; [done|]. cbn [default from_option].
    unfold pre'. rewrite !length_app. cbn [length]. rewrite length_app. lia.
Qed.
(** A name of at most 253 bytes has at most 127 labels: the 128 iterations of the
    code are enough for every one of them and the final zero byte. *)
Lemma join_labels_count labels :
  Forall dns_label labels -> 2 * length labels <= S (length (join_with "."%char labels)).
Proof.
  induction 1 as [|label labels [Hl _] _ IH]; [cbn; lia|]. destruct labels as [|l labels]; cbn [join_with length] in *.
  - lia.
  - rewrite length_app. cbn [length] in *. lia.
Qed.
Lemma read_name_wire pre labels post :
  Forall dns_label labels -> length (join_with "."%char labels) <= 253 ->
  read_name (pre ++ name_wire labels ++ post) (length pre)
  = Ok (String.string_of_list_ascii (join_with "."%char labels), length pre + length (name_wire labels)).
Proof.
  intros Hl Hlen. unfold read_name. pose proof (join_labels_count labels Hl).
  rewrite (read_name_loop_wire _ pre labels post None [] []); [done|done| |done].
  unfold MAX_DNS_NAME_POINTERS. lia.
Qed.
(** The compression pointer to the name that follows the header.  The pointer takes
    one of the 128 iterations, so a name of 127 labels is out of reach. *)
Definition question_pointer : list byte := [mkb 0xc0; mkb 0x0c].
Lemma read_pointer_loop fuel bytes header labels rest pre post :
  bytes = header ++ name_wire labels ++ rest -> length header = DNS_HEADER_BYTES ->
  bytes = pre ++ question_pointer ++ post ->
  Forall dns_label labels -> length labels < fuel -> length (join_with "."%char labels) <= 253 ->
  read_name_loop (S fuel) bytes (length pre) None [] [] = Ok (join_with "."%char labels, length pre + 2).
Proof.
  intros Hb Hh Hp Hl Hn Hlen. cbn [read_name_loop].
  assert (bytes !! length pre = Some (mkb 0xc0)) as -> by (rewrite Hp; by apply list_lookup_middle).
  assert (bytes !! (length pre + 1) = Some (mkb 0x0c)) as ->.
  { rewrite Hp. change (question_pointer ++ post) with ([mkb 0xc0] ++ mkb 0x0c :: post). rewrite app_assoc.
    apply list_lookup_middle. by rewrite length_app. }
  cbn [some_or ok_or mbind result_bind].
  assert ((Z.land (bval (mkb 0xc0)) 0xc0 =? 0xc0)%Z = true) as -> by (vm_compute; reflexivity). cbv zeta.
  assert (Z.to_nat (Z.lor (Z.shiftl (Z.land (bval (mkb 0xc0)) 0x3f) 8) (bval (mkb 0x0c))) = DNS_HEADER_BYTES) as ->
    by (vm_compute; reflexivity).
  rewrite (proj2 (Nat.leb_gt _ _)) by (rewrite Hb, !length_app, Hh; unfold name_wire; rewrite length_app; cbn [length]; lia).
  rewrite bool_decide_eq_false_2 by (by intros ?%elem_of_nil). cbn [orb].
  rewrite Hb, <- Hh. by apply (read_name_loop_wire fuel header labels rest (Some (length pre + 2)) _ []).
Qed.
Lemma read_pointer_wire bytes header labels rest pre post :
  bytes = header ++ name_wire labels ++ rest -> length header = DNS_HEADER_BYTES ->
  bytes = pre ++ question_pointer ++ post ->
  Forall dns_label labels -> length labels < 127 -> length (join_with "."%char labels) <= 253 ->
  read_name bytes (length pre) = Ok (String.string_of_list_ascii (join_with "."%char labels), length pre + 2).
Proof.
  intros Hb Hh Hp Hl Hn Hlen. unfold read_name, MAX_DNS_NAME_POINTERS.
  by rewrite (read_pointer_loop 127 bytes header labels rest pre post Hb Hh Hp Hl Hn Hlen).
Qed.
Lemma valid_name_labels n :
  valid_name n ->
  Forall dns_label (name_labels n) /\ length (join_with "."%char (name_labels n)) <= 253
  /\ String.string_of_list_ascii (join_with "."%char (name_labels n)) = ServiceName_as_str n.
Proof.
  intros Hn. apply ServiceName_new_Ok in Hn as (_ & labels & Hl & Hne & Hall & Hlen & _).
  unfold name_labels. assert (split_on "."%char (String.list_ascii_of_string (ServiceName_as_str n)) = labels) as ->.
  { apply split_on_iff. split; [done|]. split; [|done].
    eapply Forall_impl; [exact Hall|]. intros x Hx. by apply label_separator. }
  rewrite <- Hl. split; [done|]. split; [done|]. apply String.string_of_list_ascii_of_string.
Qed.
Lemma read_service_name pre n post :
  valid_name n ->
  read_name (pre ++ name_wire (name_labels n) ++ post) (length pre)
  = Ok (ServiceName_as_str n, length pre + length (name_wire (name_labels n))).
Proof.
  intros (Hl & Hlen & Ht)%valid_name_labels. rewrite read_name_wire by done. by rewrite Ht.
Qed.
Lemma push_labels_wire labels query :
  Forall dns_label labels ->
  push_labels labels query = Ok (query ++ concat (map (fun label => mkb (Z.of_nat (length label)) :: label) labels)).
Proof.
  intros Hl. revert query. induction Hl as [|label labels [Hlen _] _ IH]; intros query; cbn [push_labels].
  - by rewrite app_nil_r.
  - unfold some_or, u8_try_from. rewrite (proj2 (try_from_Some u8_bound _ _)) by (split; [done|]; unfold u8_bound; lia).
    cbn [ok_or mbind result_bind map concat]. rewrite IH. by rewrite <- !app_assoc.
Qed.
Definition query_header (transaction : Z) : list byte :=
  be_bytes 2 transaction ++ be_bytes 2 0x0100 ++ be_bytes 2 1 ++ be_bytes 2 0 ++ be_bytes 2 0 ++ be_bytes 2 0.
Lemma encode_query_wire transaction n type :
  valid_name n ->
  encode_query transaction n type
  = Ok (query_header transaction ++ name_wire (name_labels n) ++ be_bytes 2 type ++ be_bytes 2 DNS_CLASS_IN).
Proof.
  intros (Hl & _ & _)%valid_name_labels. unfold encode_query.
  change (split_on "."%char (String.list_ascii_of_string (ServiceName_as_str n))) with (name_labels n).
  rewrite push_labels_wire by done. cbn [mbind result_bind]. unfold name_wire, query_header. by rewrite <- !app_assoc.
Qed.

(** * A reference for responses *)

Inductive AnswerData := Data_A (octets : list byte) | Data_AAAA (octets : list byte) | Data_CNAME (target : ServiceName).
Record AnswerRecord := mkAnswerRecord { ar_owner : ServiceName; ar_data : AnswerData; ar_ttl : Z }.
Definition data_type (d : AnswerData) : Z :=
  match d with Data_A _ => DNS_TYPE_A | Data_AAAA _ => DNS_TYPE_AAAA | Data_CNAME _ => DNS_TYPE_CNAME end.
Definition data_wire (d : AnswerData) : list byte :=
  match d with Data_A octets | Data_AAAA octets => octets | Data_CNAME target => name_wire (name_labels target) end.
Definition record_wire (r : AnswerRecord) : list byte :=
  name_wire (name_labels (ar_owner r)) ++ be_bytes 2 (data_type (ar_data r)) ++ be_bytes 2 DNS_CLASS_IN
  ++ be_bytes 4 (ar_ttl r) ++ be_bytes 2 (Z.of_nat (length (data_wire (ar_data r)))) ++ data_wire (ar_data r).
(** A recursive answer without an error, and nothing but the records. *)
Definition response_wire (transaction : Z) (n : ServiceName) (type : Z) (rs : list AnswerRecord) : list byte :=
  be_bytes 2 transaction ++ be_bytes 2 0x8180 ++ be_bytes 2 1 ++ be_bytes 2 (Z.of_nat (length rs))
  ++ be_bytes 2 0 ++ be_bytes 2 0 ++ name_wire (name_labels n) ++ be_bytes 2 type ++ be_bytes 2 DNS_CLASS_IN
  ++ concat (map record_wire rs).
(** An answer with the form of its owner: the name itself, or the compression pointer
    to the question, which servers write for the name that was asked for. *)
Record AnswerForm := mkAnswerForm { af_compressed : bool; af_record : AnswerRecord }.
Definition owner_wire (f : AnswerForm) : list byte :=
  if af_compressed f then question_pointer else name_wire (name_labels (ar_owner (af_record f))).
Definition form_wire (f : AnswerForm) : list byte :=
  let r := af_record f in
  owner_wire f ++ be_bytes 2 (data_type (ar_data r)) ++ be_bytes 2 DNS_CLASS_IN
  ++ be_bytes 4 (ar_ttl r) ++ be_bytes 2 (Z.of_nat (length (data_wire (ar_data r)))) ++ data_wire (ar_data r).
Definition response_forms (transaction : Z) (n : ServiceName) (type : Z) (forms : list AnswerForm) : list byte :=
  be_bytes 2 transaction ++ be_bytes 2 0x8180 ++ be_bytes 2 1 ++ be_bytes 2 (Z.of_nat (length forms))
  ++ be_bytes 2 0 ++ be_bytes 2 0 ++ name_wire (name_labels n) ++ be_bytes 2 type ++ be_bytes 2 DNS_CLASS_IN
  ++ concat (map form_wire forms).
Definition form_ok (n : ServiceName) (f : AnswerForm) : Prop :=
  af_compressed f = true -> ar_owner (af_record f) = n /\ length (name_labels n) < 127.
(** Uncompressed responses are those whose owners are all names. *)
Lemma response_wire_forms transaction n type rs :
  response_wire transaction n type rs = response_forms transaction n type (map (mkAnswerForm false) rs).
Proof. unfold response_wire, response_forms. by rewrite length_map, map_map. Qed.
Definition record_expires (observed : Z) (r : AnswerRecord) : Z := (observed + ar_ttl r * 1000000000)%Z.
Record record_ok (observed : Z) (r : AnswerRecord) : Prop := {
  ar_owner_ok : valid_name (ar_owner r);
  ar_data_ok : match ar_data r with
    | Data_A octets => length octets = 4 | Data_AAAA octets => length octets = 16
    | Data_CNAME target => valid_name target
    end;
  ar_life_ok : lifetime_ok observed (ar_ttl r) (record_expires observed r)
}.

(** What the records mean to a query of the type. *)
Definition expected_answer (type : Z) (message : Sha256Digest) (observed : Z) (r : AnswerRecord) : option DnsAnswer :=
  let record address := mkDnsAnswer (ar_owner r) address message (ar_ttl r) (record_expires observed r)
    (record_expires observed r) in
  match ar_data r with
  | Data_A octets => if (type =? DNS_TYPE_A)%Z then Some (record (V4 octets)) else None
  | Data_AAAA octets => if (type =? DNS_TYPE_AAAA)%Z then Some (record (V6 octets)) else None
  | Data_CNAME _ => None
  end.
Definition expected_alias (message : Sha256Digest) (observed : Z) (owner : string) (r : AnswerRecord) :
    option DnsCnameObservation :=
  match ar_data r with
  | Data_CNAME target =>
    if String.eqb (ServiceName_as_str (ar_owner r)) owner
    then Some (mkDnsCnameObservation (ar_owner r) target message (ar_ttl r) (record_expires observed r))
    else None
  | _ => None
  end.

(** ** Reading it back *)

Lemma read_u16_middle pre z post :
  (0 <= z < 65536)%Z -> read_u16 (pre ++ be_bytes 2 z ++ post) (length pre) = Ok z.
Proof.
  intros Hz. unfold read_u16. pose proof (range_bytes_middle pre (be_bytes 2 z) post) as H.
  rewrite length_be_bytes in H. rewrite H. cbn [some_or ok_or mbind result_bind].
  by rewrite be_value_be_bytes_small.
Qed.
Lemma read_u32_middle pre z post :
  (0 <= z < u32_bound)%Z -> read_u32 (pre ++ be_bytes 4 z ++ post) (length pre) = Ok z.
Proof.
  intros Hz. unfold read_u32. pose proof (range_bytes_middle pre (be_bytes 4 z) post) as H.
  rewrite length_be_bytes in H. rewrite H. cbn [some_or ok_or mbind result_bind].
  by rewrite be_value_be_bytes_small.
Qed.
(** The same reads, at an offset that is known to be the length of what precedes. *)
Lemma read_u16_at bytes offset pre z post :
  bytes = pre ++ be_bytes 2 z ++ post -> offset = length pre -> (0 <= z < 65536)%Z ->
  read_u16 bytes offset = Ok z.
Proof. intros -> -> H. by apply read_u16_middle. Qed.
Lemma read_u32_at bytes offset pre z post :
  bytes = pre ++ be_bytes 4 z ++ post -> offset = length pre -> (0 <= z < u32_bound)%Z ->
  read_u32 bytes offset = Ok z.
Proof. intros -> -> H. by apply read_u32_middle. Qed.
Lemma read_service_name_at bytes offset pre n post :
  bytes = pre ++ name_wire (name_labels n) ++ post -> offset = length pre -> valid_name n ->
  read_name bytes offset = Ok (ServiceName_as_str n, offset + length (name_wire (name_labels n))).
Proof. intros -> -> H. by apply read_service_name. Qed.
Lemma index_range_at bytes offset stop pre mid post :
  bytes = pre ++ mid ++ post -> offset = length pre -> stop = offset + length mid ->
  index_range bytes offset stop = Ok mid.
Proof. intros -> -> ->. unfold index_range. by rewrite range_bytes_middle. Qed.
Lemma length_labels_wire labels :
  length (concat (map (fun label => mkb (Z.of_nat (length label)) :: label) labels))
  <= S (length (join_with "."%char labels)).
Proof.
  induction labels as [|label [|l labels] IH].
  - cbn. lia.
  - cbn. rewrite app_nil_r. lia.
  - cbn [map concat] in *.
    change (join_with "."%char (label :: l :: labels)) with (label ++ "."%char :: join_with "."%char (l :: labels)).
    rewrite !length_app in *. cbn [length] in *. lia.
Qed.
Lemma length_name_wire n : valid_name n -> length (name_wire (name_labels n)) <= 255.
Proof.
  intros (_ & Hlen & _)%valid_name_labels. unfold name_wire. rewrite length_app. cbn [length].
  pose proof (length_labels_wire (name_labels n)). lia.
Qed.
Lemma expiry_ok observed r :
  record_ok observed r -> (0 <= observed)%Z -> expiry (ar_ttl r) observed = Ok (record_expires observed r).
Proof.
  intros [_ _ (Ht & _ & He)] Ho. apply expiry_Ok. unfold record_expires in *. unfold u64_bound, u32_bound in *. lia.
Qed.
Lemma service_name_valid n : valid_name n -> service_name (ServiceName_as_str n) = Ok n.
Proof. intros Hn. unfold service_name. by rewrite Hn. Qed.

Definition add_alias (message : Sha256Digest) (observed : Z) (r : AnswerRecord)
    (m : gmap string (list DnsCnameObservation)) : gmap string (list DnsCnameObservation) :=
  let key := ServiceName_as_str (ar_owner r) in
  match expected_alias message observed key r with
  | Some alias => <[key := default [] (m !! key) ++ [alias]]> m
  | None => m
  end.

Ltac layout := unfold form_wire; rewrite <- ?app_assoc; reflexivity.
Ltac offset := rewrite ?length_app, ?length_be_bytes; lia.

Section wire.
Context (type : Z) (message : Sha256Digest) (observed : Z).
Context (Htype : type = DNS_TYPE_A \/ type = DNS_TYPE_AAAA) (Hobserved : (0 <= observed)%Z).

Lemma parse_answer_wire bytes pre r post s :
  bytes = pre ++ data_wire (ar_data r) ++ post -> record_ok observed r ->
  parse_answer bytes type message observed (data_type (ar_data r)) (ar_ttl r) (ar_owner r)
    (length pre) (length pre + length (data_wire (ar_data r))) s
  = Ok (mkRecords (rec_cursor s) (add_alias message observed r (rec_cnames s))
          (rec_addresses s ++ option_list (expected_answer type message observed r))).
Proof.
  intros Hb Hok. pose proof (expiry_ok _ _ Hok Hobserved) as He. destruct Hok as [Ho Hd Hl].
  unfold parse_answer, add_alias, expected_alias, expected_answer.
  replace (length pre + length (data_wire (ar_data r)) - length pre) with (length (data_wire (ar_data r))) by lia.
  destruct s as [cur cn ad]. cbn [rec_cursor rec_cnames rec_addresses].
  destruct (ar_data r) as [octets|octets|target]; cbn [data_wire data_type] in *.
  - rewrite Hd. destruct Htype as [-> | ->]; cbn -[get_range].
    + rewrite (index_range_at bytes _ _ pre octets post) by (done || lia). cbn [mbind result_bind].
      unfold answer. rewrite He. done.
    + by rewrite app_nil_r.
  - rewrite Hd. destruct Htype as [-> | ->]; cbn -[get_range].
    + by rewrite app_nil_r.
    + rewrite (index_range_at bytes _ _ pre octets post) by (done || lia). cbn [mbind result_bind].
      unfold answer. rewrite He. done.
  - change (DNS_TYPE_CNAME =? DNS_TYPE_CNAME)%Z with true. cbn iota.
    rewrite (read_service_name_at bytes _ pre target post) by done. cbn [mbind result_bind].
    rewrite Nat.eqb_refl. cbn [negb]. rewrite service_name_valid by done. cbn [mbind result_bind].
    unfold cname_observation. rewrite He. cbn [mbind result_bind]. rewrite String.eqb_refl. by rewrite app_nil_r.
Qed.
(** The owner of the answer is read at its place. *)
Definition owner_read (bytes : list byte) (f : AnswerForm) : Prop :=
  forall pre post, bytes = pre ++ form_wire f ++ post ->
    read_name bytes (length pre) = Ok (ServiceName_as_str (ar_owner (af_record f)), length pre + length (owner_wire f)).
Lemma parse_record_wire bytes pre f post s :
  let r := af_record f in
  bytes = pre ++ form_wire f ++ post -> rec_cursor s = length pre -> record_ok observed r -> owner_read bytes f ->
  parse_record bytes type message observed true s
  = Ok (mkRecords (length pre + length (form_wire f)) (add_alias message observed r (rec_cnames s))
          (rec_addresses s ++ option_list (expected_answer type message observed r))).
Proof.
  intros r Hb Hc Hok Hread. specialize (Hread pre post Hb). fold r in Hread. pose proof Hok as [Ho Hd (Ht & _ & _)]. unfold parse_record. rewrite Hc.
  set (N := owner_wire f) in *. set (D := data_wire (ar_data r)).
  set (T := be_bytes 2 (data_type (ar_data r))). set (C := be_bytes 2 DNS_CLASS_IN).
  set (L := be_bytes 4 (ar_ttl r)). set (S := be_bytes 2 (Z.of_nat (length D))).
  assert (length T = 2 /\ length C = 2 /\ length L = 4 /\ length S = 2) as (HT & HC & HL & HS)
    by (unfold T, C, L, S; by rewrite !length_be_bytes).
  assert (Z.of_nat (length D) < 65536)%Z as HD.
  { clear Hread. unfold D. destruct (ar_data r) as [o|o|t]; cbn in *; [lia|lia|]. pose proof (length_name_wire t Hd). lia. }
  assert (form_wire f = N ++ T ++ C ++ L ++ S ++ D) as Hw by reflexivity. rewrite Hw in *.
  rewrite Hread. cbn [mbind result_bind].
  rewrite (read_u16_at bytes (length pre + length N) (pre ++ N) (data_type (ar_data r)) (C ++ L ++ S ++ D ++ post));
    [|subst bytes; layout|offset|by destruct (ar_data r)]. cbn [mbind result_bind].
  rewrite (read_u16_at bytes (length pre + length N + 2) (pre ++ N ++ T) DNS_CLASS_IN (L ++ S ++ D ++ post));
    [|subst bytes; layout|offset|done]. cbn [mbind result_bind].
  rewrite (read_u32_at bytes (length pre + length N + 4) (pre ++ N ++ T ++ C) (ar_ttl r) (S ++ D ++ post));
    [|subst bytes; layout|offset|lia]. cbn [mbind result_bind].
  rewrite (read_u16_at bytes (length pre + length N + 8) (pre ++ N ++ T ++ C ++ L) (Z.of_nat (length D)) (D ++ post));
    [|subst bytes; layout|offset|lia]. cbn [mbind result_bind]. cbv zeta. rewrite Nat2Z.id.
  assert (length pre + length N + 10 = length (pre ++ N ++ T ++ C ++ L ++ S)) as -> by offset.
  rewrite (proj2 (Nat.leb_le _ _)) by (subst bytes; rewrite !length_app; lia). cbn [mbind result_bind].
  change (DNS_CLASS_IN =? DNS_CLASS_IN)%Z with true. cbn [andb].
  rewrite service_name_valid by done. cbn [mbind result_bind].
  rewrite (parse_answer_wire bytes _ r post); [|subst bytes; layout|done].
  cbn [mbind result_bind rec_cnames rec_addresses]. f_equal. f_equal. offset.
Qed.
Lemma parse_records_wire bytes forms pre post index answers s :
  bytes = pre ++ concat (map form_wire forms) ++ post -> rec_cursor s = length pre ->
  Forall (fun f => record_ok observed (af_record f)) forms -> Forall (owner_read bytes) forms ->
  index + length forms <= answers ->
  parse_records bytes type message observed (length forms) index answers s
  = Ok (mkRecords (length pre + length (concat (map form_wire forms)))
          (foldl (fun m r => add_alias message observed r m) (rec_cnames s) (map af_record forms))
          (rec_addresses s ++ omap (expected_answer type message observed) (map af_record forms))).
Proof.
  revert pre index s. induction forms as [|f forms IH]; intros pre index s Hb Hc Hok Hread Hi; cbn [length parse_records].
  { destruct s; cbn in *. by rewrite Hc, Nat.add_0_r, app_nil_r. }
  apply Forall_cons in Hok as [Hr Hok]. apply Forall_cons in Hread as [Hf Hread]. cbn [length] in Hi. cbn [map concat] in Hb.
  rewrite (proj2 (Nat.ltb_lt _ _)) by lia.
  rewrite (parse_record_wire bytes pre f (concat (map form_wire forms) ++ post));
    [|rewrite Hb, <- !app_assoc; reflexivity|done|done|done].
  cbn [mbind result_bind]. rewrite (IH (pre ++ form_wire f)).
  - cbn [rec_cnames rec_addresses foldl map concat]. f_equal. f_equal.
    + rewrite !length_app. lia.
    + rewrite <- app_assoc. cbn. by destruct (expected_answer _ _ _ (af_record f)).
  - by rewrite Hb, <- !app_assoc.
  - cbn. by rewrite length_app.
  - done.
  - done.
  - lia.
Qed.
(** The aliases of one owner, in the order of the records. *)
Lemma lookup_aliases rs m owner :
  foldl (fun m r => add_alias message observed r m) m rs !! owner
  = match omap (expected_alias message observed owner) rs with
    | [] => m !! owner
    | l => Some (default [] (m !! owner) ++ l)
    end.
Proof.
  revert m. induction rs as [|r rs IH]; intros m; [done|]. cbn [foldl]. rewrite IH.
  assert (add_alias message observed r m !! owner
    = match expected_alias message observed owner r with
      | Some a => Some (default [] (m !! owner) ++ [a]) | None => m !! owner end) as ->.
  { unfold add_alias, expected_alias. destruct (ar_data r) as [| |target]; [done..|].
    rewrite String.eqb_refl. destruct (String.eqb_spec (ServiceName_as_str (ar_owner r)) owner) as [<-|Hne].
    - by rewrite lookup_insert_eq.
    - by rewrite lookup_insert_ne. }
  cbn. destruct (expected_alias message observed owner r) as [a|]; cbn.
  - destruct (omap _ rs) as [|b l]; [done|]. f_equal. by rewrite <- app_assoc.
  - done.
Qed.
End wire.

(** Owners are read in both forms. *)
Lemma owner_read_wire bytes header n rest f :
  bytes = header ++ name_wire (name_labels n) ++ rest -> length header = DNS_HEADER_BYTES ->
  valid_name n -> valid_name (ar_owner (af_record f)) -> form_ok n f -> owner_read bytes f.
Proof.
  intros Hb Hh Hn Ho Hf pre post Hp. unfold form_ok in Hf. unfold form_wire, owner_wire in *.
  destruct (af_compressed f).
  - destruct (Hf eq_refl) as [-> Hl]. destruct (valid_name_labels n Hn) as (H1 & H2 & <-).
    rewrite <- app_assoc in Hp. exact (read_pointer_wire bytes header _ rest pre _ Hb Hh Hp H1 Hl H2).
  - rewrite <- app_assoc in Hp. by eapply read_service_name_at.
Qed.
Lemma parse_response_forms transaction n type forms message observed :
  type = DNS_TYPE_A \/ type = DNS_TYPE_AAAA -> (0 <= observed)%Z -> (0 <= transaction < 65536)%Z ->
  valid_name n -> Forall (fun f => record_ok observed (af_record f)) forms -> Forall (form_ok n) forms ->
  (Z.of_nat (length forms) < 65536)%Z ->
  parse_response (response_forms transaction n type forms) transaction n type message observed
  = Ok (mkParsedResponse
      (canonical_targets <$> foldl (fun m r => add_alias message observed r m) ∅ (map af_record forms))
      (omap (expected_answer type message observed) (map af_record forms))).
Proof.
  intros Htype Hobs Ht Hn Hrs Hforms Hlen. unfold parse_response.
  set (X := be_bytes 2 transaction). set (F := be_bytes 2 0x8180). set (Q := be_bytes 2 1).
  set (K := be_bytes 2 (Z.of_nat (length forms))). set (O := be_bytes 2 0).
  set (N := name_wire (name_labels n)). set (T := be_bytes 2 type). set (C := be_bytes 2 DNS_CLASS_IN).
  set (R := concat (map form_wire forms)).
  assert (response_forms transaction n type forms = X ++ F ++ Q ++ K ++ O ++ O ++ N ++ T ++ C ++ R) as ->
    by reflexivity.
  assert (length X = 2 /\ length F = 2 /\ length Q = 2 /\ length K = 2 /\ length O = 2 /\ length T = 2
    /\ length C = 2) as (HX & HF & HQ & HK & HO & HT & HC)
    by (unfold X, F, Q, K, O, T, C; by rewrite !length_be_bytes).
  set (bytes := X ++ F ++ Q ++ K ++ O ++ O ++ N ++ T ++ C ++ R).
  assert (length bytes = 12 + length N + 4 + length R) as Hb by (unfold bytes; rewrite !length_app; lia).
  rewrite (proj2 (Nat.ltb_ge _ _)) by (unfold DNS_HEADER_BYTES; lia).
  rewrite (read_u16_at bytes 0 [] transaction (F ++ Q ++ K ++ O ++ O ++ N ++ T ++ C ++ R)) by done.
  cbn [mbind result_bind]. rewrite Z.eqb_refl. cbn [negb].
  rewrite (read_u16_at bytes 2 X 0x8180 (Q ++ K ++ O ++ O ++ N ++ T ++ C ++ R)) by done.
  cbn [mbind result_bind].
  change (Z.land 33152 32768 =? 0)%Z with false. change (Z.land 33152 30720 =? 0)%Z with true.
  change (Z.land 33152 512 =? 0)%Z with true. change (Z.land 33152 15 =? 0)%Z with true. cbn [negb orb].
  rewrite (read_u16_at bytes 4 (X ++ F) 1 (K ++ O ++ O ++ N ++ T ++ C ++ R)) by (done || by rewrite length_app; lia).
  cbn [mbind result_bind].
  rewrite (read_u16_at bytes 6 (X ++ F ++ Q) (Z.of_nat (length forms)) (O ++ O ++ N ++ T ++ C ++ R));
    [|unfold bytes; by rewrite <- !app_assoc|rewrite !length_app; lia|lia].
  cbn [mbind result_bind].
  rewrite (read_u16_at bytes 8 (X ++ F ++ Q ++ K) 0 (O ++ N ++ T ++ C ++ R));
    [|unfold bytes; by rewrite <- !app_assoc|rewrite !length_app; lia|lia].
  cbn [mbind result_bind].
  rewrite (read_u16_at bytes 10 (X ++ F ++ Q ++ K ++ O) 0 (N ++ T ++ C ++ R));
    [|unfold bytes; by rewrite <- !app_assoc|rewrite !length_app; lia|lia].
  cbn [mbind result_bind]. change (1 =? 1)%Z with true. cbn [negb].
  rewrite (read_service_name_at bytes DNS_HEADER_BYTES (X ++ F ++ Q ++ K ++ O ++ O) n (T ++ C ++ R));
    [|unfold bytes; by rewrite <- !app_assoc|rewrite !length_app; unfold DNS_HEADER_BYTES; lia|done].
  fold N. cbn [mbind result_bind]. rewrite String.eqb_refl. cbn [negb].
  rewrite (read_u16_at bytes (DNS_HEADER_BYTES + length N) (X ++ F ++ Q ++ K ++ O ++ O ++ N) type (C ++ R));
    [|unfold bytes; by rewrite <- !app_assoc|rewrite !length_app; unfold DNS_HEADER_BYTES; lia
     |by destruct Htype as [-> | ->]].
  cbn [mbind result_bind]. rewrite Z.eqb_refl. cbn [negb].
  rewrite (read_u16_at bytes (DNS_HEADER_BYTES + length N + 2) (X ++ F ++ Q ++ K ++ O ++ O ++ N ++ T) DNS_CLASS_IN R);
    [|unfold bytes; by rewrite <- !app_assoc|rewrite !length_app; unfold DNS_HEADER_BYTES; lia|done].
  cbn [mbind result_bind]. rewrite Z.eqb_refl. cbn [negb].
  rewrite !Z.add_0_r, !Nat2Z.id.
  rewrite (parse_records_wire type message observed Htype Hobs bytes forms (X ++ F ++ Q ++ K ++ O ++ O ++ N ++ T ++ C) []).
  - cbn [mbind result_bind rec_cursor rec_cnames rec_addresses app].
    rewrite (proj2 (Nat.eqb_eq _ _)); [done|]. fold R. rewrite Hb, !length_app. lia.
  - unfold bytes. by rewrite app_nil_r, <- !app_assoc.
  - cbn [rec_cursor]. rewrite !length_app. unfold DNS_HEADER_BYTES. lia.
  - done.
  - rewrite Forall_forall in Hrs, Hforms. apply Forall_forall. intros f Hf.
    apply (owner_read_wire bytes (X ++ F ++ Q ++ K ++ O ++ O) n (T ++ C ++ R));
      [unfold bytes; by rewrite <- !app_assoc|rewrite !length_app; unfold DNS_HEADER_BYTES; lia|done|by destruct (Hrs f Hf)|by apply Hforms].
  - lia.
Qed.
Lemma parse_response_wire transaction n type rs message observed :
  type = DNS_TYPE_A \/ type = DNS_TYPE_AAAA -> (0 <= observed)%Z -> (0 <= transaction < 65536)%Z ->
  valid_name n -> Forall (record_ok observed) rs -> (Z.of_nat (length rs) < 65536)%Z ->
  parse_response (response_wire transaction n type rs) transaction n type message observed
  = Ok (mkParsedResponse
      (canonical_targets <$> foldl (fun m r => add_alias message observed r m) ∅ rs)
      (omap (expected_answer type message observed) rs)).
Proof.
  intros Htype Hobs Ht Hn Hrs Hlen. rewrite response_wire_forms, parse_response_forms; rewrite ?length_map, ?map_map, ?map_id; try done.
  - by apply Forall_fmap.
  - apply Forall_fmap, Forall_forall. by intros r _ H.
Qed.

(** * Properties *)

(** C40: parsing a DNS response never reads out of bounds.  On any bytes
    whatever, neither [read_name] nor [parse_response] panics; a name that is read
    ends strictly after its start and within the bytes, has at most 253 bytes and
    consists of valid labels, whatever compression pointers it follows. *)
Theorem response_parse_in_bounds (bytes : list byte) :
  (forall start, read_name bytes start <> Err Panicked
    /\ forall name stop, read_name bytes start = Ok (name, stop) ->
       start < stop <= length bytes /\ length (String.list_ascii_of_string name) <= 253
       /\ exists labels, String.list_ascii_of_string name = join_with "."%char labels
          /\ Forall dns_label labels)
  /\ forall transaction name type message observed,
     parse_response bytes transaction name type message observed <> Err Panicked.
Proof.
  split.
  - intros start. pose proof (read_name_yields bytes start) as H.
    split; [by apply (yields_not_panicked _ _ H)|]. intros name stop Hr.
    apply (yields_Ok _ _ _ H) in Hr as ((ls & Hj & Hls) & Hlen & Hs).
    cbn [fst snd] in Hj, Hlen, Hs. split; [done|].
    split; [done|]. by exists ls.
  - intros. eapply yields_not_panicked, parse_response_yields.
Qed.

(** What a parsed response holds is sound: every alias and address comes from
    this message, names a valid service name, has an address of the queried
    family and a lifetime that starts now, is positive and does not overflow; the
    aliases of an owner are sorted by target without repetition. *)
Theorem response_records_sound (bytes : list byte) (transaction : Z) (name : ServiceName) (type : Z)
    (message : Sha256Digest) (observed : Z) (r : ParsedResponse)
    (Hr : parse_response bytes transaction name type message observed = Ok r) :
  response_ok type message observed r.
Proof. eapply yields_Ok; [apply parse_response_yields|exact Hr]. Qed.

(** C39: the parser reads back every uncompressed answer.  A response to the query
    (same transaction, name and type) that lists well-formed A, AAAA and CNAME
    records parses to exactly the addresses of the queried family, in order, and to
    the canonical alias list of every owner; the question of [encode_query] is read
    back as the name that was asked for. *)
Theorem response_roundtrip (transaction : Z) (n : ServiceName) (type : Z) (rs : list AnswerRecord)
    (message : Sha256Digest) (observed : Z)
    (Htype : type = DNS_TYPE_A \/ type = DNS_TYPE_AAAA) (Hobserved : (0 <= observed)%Z)
    (Htransaction : (0 <= transaction < 65536)%Z) (Hn : valid_name n)
    (Hrs : Forall (record_ok observed) rs) (Hlen : (Z.of_nat (length rs) < 65536)%Z) :
  (exists r, parse_response (response_wire transaction n type rs) transaction n type message observed = Ok r
    /\ addresses r = omap (expected_answer type message observed) rs
    /\ forall owner, cnames r !! owner
         = match omap (expected_alias message observed owner) rs with
           | [] => None | l => Some (canonical_targets l)
           end)
  /\ exists query, encode_query transaction n type = Ok query
       /\ exists stop, read_name query DNS_HEADER_BYTES = Ok (ServiceName_as_str n, stop)
          /\ length query = stop + 4.
Proof.
  split.
  - eexists. split; [by apply parse_response_wire|]. split; [done|]. intros owner. cbn [cnames].
    rewrite lookup_fmap, lookup_aliases, lookup_empty.
    by destruct (omap (expected_alias message observed owner) rs).
  - eexists. split; [by apply encode_query_wire|]. eexists. split.
    + by eapply read_service_name_at.
    + unfold query_header, DNS_HEADER_BYTES. rewrite !length_app, !length_be_bytes. lia.
Qed.

(** * Witnesses *)

Definition example_name (s : string) : ServiceName := mkServiceName s.
Definition example_message : Sha256Digest := mkSha256Digest (replicate 32 (mkb 7)).
(** [api.example.com] is an alias of [edge.example.net], which has two addresses. *)
Definition example_alias : AnswerRecord :=
  mkAnswerRecord (example_name "api.example.com") (Data_CNAME (example_name "edge.example.net")) 30.
Definition example_address (last ttl : Z) : AnswerRecord :=
  mkAnswerRecord (example_name "edge.example.net") (Data_A [mkb 192; mkb 0; mkb 2; mkb last]) ttl.
Definition example_records : list AnswerRecord := [example_alias; example_address 9 60; example_address 4 20].
Lemma example_records_ok : Forall (record_ok 1000) example_records.
Proof.
  repeat (apply Forall_cons; split); [..|constructor];
    (split; [vm_compute; reflexivity|vm_compute; reflexivity|split; [done|split; [reflexivity|done]]]).
Qed.
Lemma response_roundtrip_witness :
  exists r, parse_response (response_wire 513 (example_name "api.example.com") DNS_TYPE_A example_records)
    513 (example_name "api.example.com") DNS_TYPE_A example_message 1000 = Ok r
    /\ length (addresses r) = 2.
Proof.
  destruct (response_roundtrip 513 (example_name "api.example.com") DNS_TYPE_A example_records
    example_message 1000) as [(r & Hr & Ha & _) _].
  - by left.
  - lia.
  - lia.
  - vm_compute. reflexivity.
  - apply example_records_ok.
  - done.
  - exists r. split; [exact Hr|]. by rewrite Ha.
Defined.
Lemma response_records_sound_witness :
  exists r, parse_response (response_wire 513 (example_name "api.example.com") DNS_TYPE_A example_records)
    513 (example_name "api.example.com") DNS_TYPE_A example_message 1000 = Ok r
    /\ response_ok DNS_TYPE_A example_message 1000 r.
Proof.
  eexists. split; [vm_compute; reflexivity|].
  eapply (response_records_sound
    (response_wire 513 (example_name "api.example.com") DNS_TYPE_A example_records) 513
    (example_name "api.example.com")).
  vm_compute. reflexivity.
Defined.
