(* ===== verification/DnsResolve.v ===== *)
(** Name resolution of the connector
    ([proofbound-runtime-connector/src/dns.rs], from [resolve_service] to
    [exchange_query]): one query per message to the declared resolver, alias
    chains, deadlines and the canonical answer set.  The operating system (clock,
    random source, TCP stream) and SHA-256 are the fields of [Network], and the
    messages observed so far are the state of the [Net] monad. *)
From S2P Require Import Prelude Identity Network DnsMessage.
From Stdlib Require Import Ascii ZArith Lia Sorted.
From stdpp Require Import prelude strings list numbers gmap.
Export stdpp.list_relations.list.

(** * The environment *)

(** An [io::Result]: the code distinguishes [TimedOut] and [WouldBlock] from the
    other error kinds. *)
Inductive IoResult (A : Type) := Io_Ok (a : A) | Io_TimedOut | Io_Failed.
Arguments Io_Ok {A} a.
Arguments Io_TimedOut {A}.
Arguments Io_Failed {A}.

Class Network := {
  World : Type;
  Stream : Type;
  (** the greatest [Instant], in nanoseconds *)
  instant_limit : Z;
  (** [Instant::now], in nanoseconds *)
  now : World -> Z * World;
  (** [File::open("/dev/urandom")] and [read_exact] of two bytes *)
  urandom : World -> option (list byte) * World;
  (** [TcpStream::connect_timeout] *)
  connect_timeout : ResolverEndpoint -> Z -> World -> option Stream * World;
  set_write_timeout : Stream -> Z -> World -> bool * World;
  set_read_timeout : Stream -> Z -> World -> bool * World;
  (** [Write::write]: how many bytes were written *)
  write : Stream -> list byte -> World -> IoResult nat * World;
  (** [Read::read] into a buffer of the given length: the bytes read *)
  read : Stream -> nat -> World -> IoResult (list byte) * World;
  sha256 : list byte -> list byte
}.

Record DnsMessageObservation := mkDnsMessageObservation {
  dm_identity : Sha256Digest;
  dm_size : Z;
  dm_observed_ns : Z
}.
Record RecordResolution := mkRecordResolution {
  rr_chain : list DnsCnameObservation;
  rr_answers : list DnsAnswer
}.
Record DnsResolution := mkDnsResolution {
  dr_started : Z;
  dr_authority : AuthenticatedServiceSession;
  dr_messages : list DnsMessageObservation;
  dr_cname_chain : list DnsCnameObservation;
  dr_answers : list DnsAnswer
}.

(** * Pure parts *)

Definition zeros (n : nat) : list byte := replicate n (mkb 0).
Definition address_key (address : Address) : Z * list byte :=
  match address with V4 octets => (0%Z, octets ++ zeros 12) | V6 octets => (1%Z, octets) end.
Definition answer_order (left right : DnsAnswer) : comparison :=
  cmp_then (rcmp (address_key (an_address left)) (address_key (an_address right)))
    (cmp_then (an_record_expires_ns left ?= an_record_expires_ns right)%Z
       (cmp_then (rcmp (an_message left) (an_message right))
          (an_ttl_seconds left ?= an_ttl_seconds right)%Z)).
Definition canonicalize_answers (answers : list DnsAnswer) : list DnsAnswer :=
  dedup_by (fun left right => bool_decide (an_address left = an_address right))
    (sort_by (fun left right => is_less (answer_order left right)) answers).

Definition same_cname_path (left right : list DnsCnameObservation) : bool :=
  (length left =? length right)
  && forallb (fun lr : DnsCnameObservation * DnsCnameObservation =>
       bool_decide (cn_owner lr.1 = cn_owner lr.2) && bool_decide (cn_target lr.1 = cn_target lr.2))
       (zip left right).
Definition merge_cname_observations (ipv4 ipv6 : list DnsCnameObservation) :
    result DnsError (list DnsCnameObservation) :=
  if bool_decide (ipv4 = []) then Ok ipv6
  else if bool_decide (ipv6 = []) then Ok ipv4
  else if negb (same_cname_path ipv4 ipv6) then Err InvalidCnameChain
  else Ok (zip_with (fun a b => if (cn_expires_ns a <=? cn_expires_ns b)%Z then a else b) ipv4 ipv6).
Definition reconcile_chains (service : ServiceName) (ipv4 ipv6 : RecordResolution) (maximum_depth : Z) :
    result DnsError (list DnsCnameObservation) :=
  chain ← (if bool_decide (rr_answers ipv4 = []) then Ok (rr_chain ipv6)
           else if bool_decide (rr_answers ipv6 = []) || same_cname_path (rr_chain ipv4) (rr_chain ipv6)
           then Ok (rr_chain ipv4) else Err InvalidCnameChain);
  if (maximum_depth <? Z.of_nat (length chain))%Z
     || from_option (fun record => negb (bool_decide (cn_owner record = service))) false (head chain)
  then Err InvalidCnameChain
  else if existsb (fun candidate => negb (bool_decide (candidate = [])) && negb (same_cname_path candidate chain))
            [rr_chain ipv4; rr_chain ipv6]
  then Err InvalidCnameChain
  else merge_cname_observations (rr_chain ipv4) (rr_chain ipv6).

Definition validated_owner_records (response : ParsedResponse) (current : ServiceName) :
    result DnsError (list DnsAnswer * option DnsCnameObservation) :=
  let answers := filter (fun answer => an_name answer = current) (addresses response) in
  let aliases := cnames response !! ServiceName_as_str current in
  if negb (bool_decide (answers = [])) && from_option (fun records => negb (bool_decide (records = []))) false aliases
  then Err InvalidCnameChain
  else
    alias ← match aliases with
      | None => Ok None
      | Some [] => Ok None
      | Some [record] => Ok (Some record)
      | Some _ => Err InvalidCnameChain
      end;
    Ok (answers, alias).

(** [Iterator::min] *)
Definition minimum (l : list Z) : option Z :=
  match l with [] => None | z :: l => Some (foldl Z.min z l) end.
Definition apply_chain_expiry (answers : list DnsAnswer) (chain : list DnsCnameObservation) : list DnsAnswer :=
  let alias_expiry := minimum (map cn_expires_ns chain) in
  map (fun a =>
    mkDnsAnswer (an_name a) (an_address a) (an_message a) (an_ttl_seconds a) (an_record_expires_ns a)
      (match alias_expiry with
       | Some expiry => Z.min (an_record_expires_ns a) expiry
       | None => an_record_expires_ns a
       end)) answers.

(** * The monad *)

Section resolve.
Context {network : Network}.

Definition NetState : Type := World * list DnsMessageObservation.
Definition Net (A : Type) : Type := NetState -> result (fault DnsError) A * NetState.
#[export] Instance net_ret : MRet Net := fun A a s => (Ok a, s).
#[export] Instance net_bind : MBind Net := fun A B f m s =>
  match m s with (Ok a, s) => f a s | (Err e, s) => (Err e, s) end.
Definition throw {A} (e : fault DnsError) : Net A := fun s => (Err e, s).
Definition lift_parse {A} (m : result (fault DnsError) A) : Net A := fun s => (m, s).
Definition lift_dns {A} (m : result DnsError A) : Net A := lift_parse (lift_fault m).
Definition perform {A} (f : World -> A * World) : Net A := fun s =>
  let '(a, w) := f s.1 in (Ok a, (w, s.2)).
Definition observed_messages : Net (list DnsMessageObservation) := fun s => (Ok s.2, s).
Definition push_message (m : DnsMessageObservation) : Net () := fun s => (Ok (), (s.1, s.2 ++ [m])).

(** * Time *)

(** [Instant::checked_add] of milliseconds. *)
Definition checked_add_ms (instant ms : Z) : option Z :=
  let sum := (instant + ms * 1000000)%Z in if (sum <=? instant_limit)%Z then Some sum else None.
Definition elapsed_ns (started : Z) : Net Z :=
  instant ← perform now; mret (Z.min (Z.max 0 (instant - started)) (u64_bound - 1)).
Definition remaining_until (deadline : Z) : Net Z :=
  instant ← perform now;
  if (deadline <? instant)%Z then throw (Failure Deadline)
  else if (deadline - instant =? 0)%Z then throw (Failure Deadline) else mret (deadline - instant)%Z.
(** [Instant::now() >= deadline] is [Err(Deadline)]. *)
Definition before_deadline (deadline : Z) : Net () :=
  instant ← perform now; if (deadline <=? instant)%Z then throw (Failure Deadline) else mret ().

(** * The stream *)

Definition io_error {A} (e : DnsError) (r : IoResult A) : result (fault DnsError) A :=
  match r with
  | Io_Ok a => Ok a | Io_TimedOut => Err (Failure Deadline) | Io_Failed => Err (Failure e)
  end.
(** The fuel is the number of bytes left: every turn consumes one. *)
Fixpoint write_loop (fuel : nat) (stream : Stream) (input : list byte) (deadline : Z) : Net () :=
  match input, fuel with
  | [], _ => before_deadline deadline
  | _, O => throw Panicked
  | _, S fuel =>
    remaining ← remaining_until deadline;
    set ← perform (set_write_timeout stream remaining);
    if negb set then throw (Failure RequestFailed)
    else
      outcome ← perform (write stream input);
      written ← lift_parse (io_error RequestFailed outcome);
      if written =? 0 then throw (Failure RequestFailed)
      else if length input <? written then throw Panicked
      else write_loop fuel stream (drop written input) deadline
  end.
Definition write_all_until (stream : Stream) (input : list byte) (deadline : Z) : Net () :=
  write_loop (length input) stream input deadline.
Fixpoint read_loop (fuel : nat) (stream : Stream) (wanted : nat) (output : list byte) (deadline : Z) :
    Net (list byte) :=
  match wanted, fuel with
  | O, _ => _ ← before_deadline deadline; mret output
  | _, O => throw Panicked
  | _, S fuel =>
    remaining ← remaining_until deadline;
    set ← perform (set_read_timeout stream remaining);
    if negb set then throw (Failure ResponseFailed)
    else
      outcome ← perform (read stream wanted);
      bytes ← lift_parse (io_error ResponseFailed outcome);
      if length bytes =? 0 then throw (Failure ResponseFailed)
      else if wanted <? length bytes then throw Panicked
      else read_loop fuel stream (wanted - length bytes) (output ++ bytes) deadline
  end.
Definition read_exact_until (stream : Stream) (count : nat) (deadline : Z) : Net (list byte) :=
  read_loop count stream count [] deadline.

Definition digest (bytes : list byte) : Sha256Digest := mkSha256Digest (sha256 bytes).
Definition random_transaction_id : Net Z :=
  bytes ← perform urandom;
  lift_dns (be_value <$> ok_or bytes RandomUnavailable).

(** * Queries *)

Record ResolverContext := mkResolverContext {
  rc_started : Z;
  rc_deadline : Z;
  rc_policy : ResolutionPolicy;
  rc_maximum_messages : Z
}.

Definition exchange_query (c : ResolverContext) (name : ServiceName) (record_type : Z) : Net ParsedResponse :=
  messages ← observed_messages;
  if (rc_maximum_messages c <=? Z.of_nat (length messages))%Z then throw (Failure MessageLimit)
  else
    transaction ← random_transaction_id;
    query ← lift_parse (encode_query transaction name record_type);
    instant ← perform now;
    deadline ← lift_dns (ok_or (checked_add_ms instant (attempt_deadline_ms (rc_policy c))) Deadline);
    let attempt_deadline := Z.min deadline (rc_deadline c) in
    timeout ← remaining_until attempt_deadline;
    stream ← perform (connect_timeout (rp_endpoint (rc_policy c)) timeout);
    stream ← lift_dns (ok_or stream ResolverUnavailable);
    query_length ← lift_dns (ok_or (u16_try_from (Z.of_nat (length query))) RequestFailed);
    _ ← write_all_until stream (be_bytes 2 query_length) attempt_deadline;
    _ ← write_all_until stream query attempt_deadline;
    length_bytes ← read_exact_until stream 2 attempt_deadline;
    let response_length := be_value length_bytes in
    if (response_length =? 0)%Z || (maximum_response_bytes (rc_policy c) <? response_length)%Z
    then throw (Failure ResponseTooLarge)
    else
      response ← read_exact_until stream (Z.to_nat response_length) attempt_deadline;
      _ ← before_deadline attempt_deadline;
      observed_ns ← elapsed_ns (rc_started c);
      let identity := digest response in
      parsed ← lift_parse (parse_response response transaction name record_type identity observed_ns);
      _ ← push_message (mkDnsMessageObservation identity (Z.of_nat (length response)) observed_ns);
      mret parsed.

(** The loop over the aliases.  [seen] holds the service and the targets so far.
    Two more turns than the permitted depth are enough: a chain of that length
    is refused. *)
Fixpoint resolve_loop (fuel : nat) (c : ResolverContext) (record_type : Z) (current : ServiceName)
    (chain : list DnsCnameObservation) (seen : list string) : Net RecordResolution :=
  match fuel with
  | O => throw Panicked
  | S fuel =>
    let depth := maximum_cname_depth (rc_policy c) in
    if (depth <? Z.of_nat (length chain))%Z then throw (Failure InvalidCnameChain)
    else
      response ← exchange_query c current record_type;
      '(answers, alias) ← lift_dns (validated_owner_records response current);
      if negb (bool_decide (answers = [])) then
        if (maximum_answer_count (rc_policy c) <? Z.of_nat (length answers))%Z
        then throw (Failure InvalidAnswerSet)
        else mret (mkRecordResolution chain (canonicalize_answers answers))
      else
        match alias with
        | None => mret (mkRecordResolution chain [])
        | Some record =>
          if (depth <=? Z.of_nat (length chain))%Z then throw (Failure InvalidCnameChain)
          else
            let next := cn_target record in
            if bool_decide (ServiceName_as_str next ∈ seen) then throw (Failure InvalidCnameChain)
            else resolve_loop fuel c record_type next (chain ++ [record]) (ServiceName_as_str next :: seen)
        end
  end.
Definition resolve_record_type (c : ResolverContext) (service : ServiceName) (record_type : Z) :
    Net RecordResolution :=
  resolve_loop (S (S (Z.to_nat (maximum_cname_depth (rc_policy c))))) c record_type service []
    [ServiceName_as_str service].

(** [answers.iter().any(|answer| effective_expires_ns <= elapsed_ns())] *)
Fixpoint any_expired (started : Z) (answers : list DnsAnswer) : Net bool :=
  match answers with
  | [] => mret false
  | a :: answers =>
    elapsed ← elapsed_ns started;
    if (an_effective_expires_ns a <=? elapsed)%Z then mret true else any_expired started answers
  end.

Definition terminal_name (service : ServiceName) (chain : list DnsCnameObservation) : ServiceName :=
  match last chain with Some record => cn_target record | None => service end.
Definition resolve_service (authority : AuthenticatedServiceSession) : Net DnsResolution :=
  let service := ss_service authority in
  let policy := ss_resolution authority in
  started ← perform now;
  deadline ← lift_dns (ok_or (checked_add_ms started (resolution_deadline_ms policy)) Deadline);
  let c := mkResolverContext started deadline policy (dns_messages (ss_limits authority)) in
  ipv4 ← resolve_record_type c service DNS_TYPE_A;
  ipv6 ← resolve_record_type c service DNS_TYPE_AAAA;
  chain ← lift_dns (reconcile_chains service ipv4 ipv6 (maximum_cname_depth policy));
  let terminal := terminal_name service chain in
  let answers := apply_chain_expiry
    (canonicalize_answers (filter (fun answer => an_name answer = terminal) (rr_answers ipv4 ++ rr_answers ipv6)))
    chain in
  if bool_decide (answers = []) || (maximum_answer_count policy <? Z.of_nat (length answers))%Z
  then throw (Failure InvalidAnswerSet)
  else
    messages ← observed_messages;
    expired ← any_expired started answers;
    if (expired : bool) then throw (Failure ExpiredAnswer)
    else
      _ ← before_deadline deadline;
      mret (mkDnsResolution started authority messages chain answers).
End resolve.

(** * Lemmas: alias paths *)

(** Each alias starts where the previous one ends. *)
Fixpoint alias_path (from : ServiceName) (chain : list DnsCnameObservation) : Prop :=
  match chain with
  | [] => True
  | record :: chain => cn_owner record = from /\ alias_path (cn_target record) chain
  end.
(** The names the path goes through. *)
Definition path_names (from : ServiceName) (chain : list DnsCnameObservation) : list ServiceName :=
  from :: map cn_target chain.

Lemma terminal_name_snoc from chain record : terminal_name from (chain ++ [record]) = cn_target record.
Proof. unfold terminal_name. by rewrite last_snoc. Qed.
Lemma terminal_name_cons from record chain :
  terminal_name from (record :: chain) = terminal_name (cn_target record) chain.
Proof. unfold terminal_name. rewrite last_cons. by destruct (last chain). Qed.
Lemma alias_path_snoc from chain record :
  alias_path from (chain ++ [record]) <-> alias_path from chain /\ cn_owner record = terminal_name from chain.
Proof.
  revert from. induction chain as [|r chain IH]; intros from; cbn [alias_path app].
  - unfold terminal_name. cbn. naive_solver.
  - rewrite IH, terminal_name_cons. tauto.
Qed.
Lemma path_names_snoc from chain record :
  path_names from (chain ++ [record]) = path_names from chain ++ [cn_target record].
Proof. unfold path_names. by rewrite map_app. Qed.

Lemma same_cname_path_Forall2 l k :
  same_cname_path l k = true <-> Forall2 (fun a b => cn_owner a = cn_owner b /\ cn_target a = cn_target b) l k.
Proof.
  unfold same_cname_path. rewrite andb_true_iff, Nat.eqb_eq. split.
  - intros [Hl Hf]. revert k Hl Hf. induction l as [|a l IH]; intros [|b k] Hl Hf; try done.
    cbn in Hf. apply andb_true_iff in Hf as [[H1%bool_decide_eq_true H2%bool_decide_eq_true]%andb_true_iff Hf].
    constructor; [done|]. apply IH; [by injection Hl|done].
  - induction 1 as [|a b l k [H1 H2] _ [IH1 IH2]]; [done|]. cbn. rewrite IH2, !bool_decide_eq_true_2 by done.
    split; [by f_equal|done].
Qed.
Lemma same_path_views from l k :
  same_cname_path l k = true ->
  (alias_path from l <-> alias_path from k) /\ path_names from l = path_names from k
  /\ terminal_name from l = terminal_name from k /\ length l = length k.
Proof.
  intros H%same_cname_path_Forall2. revert from.
  induction H as [|a b l k [Ho Ht] _ IH]; intros from; [done|].
  destruct (IH (cn_target a)) as (IH1 & IH2 & IH3 & IH4). cbn [alias_path length]. rewrite !terminal_name_cons.
  rewrite <- Ho, <- Ht, IH1, IH4, IH3. split; [done|]. split; [|done].
  unfold path_names in *. cbn. rewrite <- Ht. by injection IH2 as ->.
Qed.
Lemma merge_same_path l k :
  same_cname_path l k = true ->
  same_cname_path l (zip_with (fun a b => if (cn_expires_ns a <=? cn_expires_ns b)%Z then a else b) l k) = true
  /\ forall r, r ∈ zip_with (fun a b => if (cn_expires_ns a <=? cn_expires_ns b)%Z then a else b) l k -> r ∈ l \/ r ∈ k.
Proof.
  rewrite !same_cname_path_Forall2. induction 1 as [|a b l k [H1 H2] _ [IH1 IH2]]; cbn.
  - split; [constructor|by intros ? ?%elem_of_nil].
  - split.
    + constructor; [by destruct (_ <=? _)%Z|done].
    + intros r [->|Hr]%elem_of_cons; [destruct (_ <=? _)%Z; [left|right]; by left|].
      destruct (IH2 r Hr); [left|right]; by right.
Qed.

(** What a query for one type returns. *)
Record path_ok (service : ServiceName) (depth : Z) (chain : list DnsCnameObservation) : Prop := {
  path_aliases : alias_path service chain;
  path_simple : NoDup (path_names service chain);
  path_depth : (Z.of_nat (length chain) <= Z.max 0 depth)%Z
}.
Lemma path_ok_same service depth l k :
  same_cname_path l k = true -> path_ok service depth l -> path_ok service depth k.
Proof.
  intros H%(same_path_views service) [H1 H2 H3]. destruct H as (Hp & Hn & _ & Hl).
  split; [by apply Hp|by rewrite <- Hn|by rewrite <- Hl].
Qed.
Lemma same_cname_path_sym l k : same_cname_path l k = true -> same_cname_path k l = true.
Proof.
  rewrite !same_cname_path_Forall2. intros H. apply Forall2_flip. eapply Forall2_impl; [exact H|].
  cbn. intros ?? [??]; done.
Qed.

(** The two chains agree on where they end, whichever has answers. *)
Lemma reconcile_chains_Ok service v4 v6 depth chain :
  path_ok service depth (rr_chain v4) -> path_ok service depth (rr_chain v6) ->
  reconcile_chains service v4 v6 depth = Ok chain ->
  path_ok service depth chain
  /\ (rr_answers v4 <> [] -> terminal_name service (rr_chain v4) = terminal_name service chain)
  /\ (rr_answers v6 <> [] -> terminal_name service (rr_chain v6) = terminal_name service chain)
  /\ forall r, r ∈ chain -> r ∈ rr_chain v4 \/ r ∈ rr_chain v6.
Proof.
  intros H4 H6. unfold reconcile_chains.
  intros (common & Hcommon & H)%bind_Ok. destruct (_ || from_option _ _ _); [done|].
  destruct (existsb _ _) eqn:Hex; [done|].
  assert (forall candidate, candidate = rr_chain v4 \/ candidate = rr_chain v6 ->
    candidate = [] \/ same_cname_path candidate common = true) as Hsame.
  { intros k Hk. destruct (decide (k = [])) as [|Hne]; [by left|]. right.
    destruct (same_cname_path k common) eqn:Hs; [done|]. exfalso.
    assert (existsb (fun candidate => negb (bool_decide (candidate = [])) && negb (same_cname_path candidate common))
      [rr_chain v4; rr_chain v6] = true); [|congruence].
    apply existsb_exists. exists k. split; [destruct Hk as [-> | ->]; cbn; auto|].
    by rewrite bool_decide_eq_false_2, Hs. }
  pose proof (Hsame _ (or_introl eq_refl)) as S4. pose proof (Hsame _ (or_intror eq_refl)) as S6. clear Hex Hsame.
  assert ((rr_answers v4 <> [] -> common = rr_chain v4)
    /\ (rr_answers v6 <> [] -> common = rr_chain v6 \/ same_cname_path (rr_chain v4) (rr_chain v6) = true)) as [C4 C6].
  { case_bool_decide as Ha4; [injection Hcommon as <-; split; [done|by left]|].
    case_bool_decide as Ha6; cbn [orb] in Hcommon; [injection Hcommon as <-; done|].
    destruct (same_cname_path (rr_chain v4) (rr_chain v6)) eqn:Hs; [|done]. injection Hcommon as <-.
    split; [done|by right]. }
  unfold merge_cname_observations in H. case_bool_decide as N4.
  { injection H as <-. split; [done|]. split; [|by split; [|naive_solver]]. intros Ha.
    rewrite (C4 Ha) in S6. destruct S6 as [->|S6]; [by rewrite N4|]. by apply (same_path_views service) in S6 as (_ & _ & -> & _). }
  case_bool_decide as N6.
  { injection H as <-. split; [done|]. split; [done|]. split; [|naive_solver]. intros Ha.
    destruct S4 as [S4|S4]; [done|]. destruct (C6 Ha) as [C|C].
    - rewrite C in S4. by apply (same_path_views service) in S4 as (_ & _ & -> & _).
    - by apply (same_path_views service) in C as (_ & _ & -> & _). }
  destruct (same_cname_path (rr_chain v4) (rr_chain v6)) eqn:Hs; cbn [negb] in H; [|done]. injection H as <-.
  destruct (merge_same_path _ _ Hs) as [Hm Hin]. split; [by eapply path_ok_same|].
  pose proof (same_path_views service _ _ Hm) as (_ & _ & Ht & _).
  pose proof (same_path_views service _ _ Hs) as (_ & _ & Ht' & _). split; [done|]. split; [congruence|done].
Qed.

(** * Lemmas: canonical answers *)

Definition answer_key (a : DnsAnswer) : (Z * list byte) * (Z * (Sha256Digest * Z)) :=
  (address_key (an_address a), (an_record_expires_ns a, (an_message a, an_ttl_seconds a))).
Definition address_ok (address : Address) : Prop :=
  match address with V4 octets => length octets = 4 | V6 octets => length octets = 16 end.
Lemma address_key_inj a b : address_ok a -> address_ok b -> address_key a = address_key b -> a = b.
Proof.
  destruct a as [o|o], b as [o'|o']; cbn; intros Ha Hb [= H]; [|by subst].
  apply app_inj_2 in H as [-> _]; [done|]. done.
Qed.
Lemma dedup_after_ext_in {A} (same same' : A -> A -> bool) x l :
  (forall a b, a ∈ x :: l -> b ∈ x :: l -> same a b = same' a b) -> dedup_after same x l = dedup_after same' x l.
Proof.
  revert x. induction l as [|y l IH]; intros x Hs; cbn; [done|]. rewrite Hs by set_solver.
  destruct (same' y x).
  - apply IH. intros a b Ha Hb. apply Hs; set_solver.
  - f_equal. apply IH. intros a b Ha Hb. apply Hs; set_solver.
Qed.
Lemma canonicalize_answers_key l :
  Forall (fun a => address_ok (an_address a)) l -> canonicalize_answers l = first_of_key answer_key l.
Proof.
  intros Hl. unfold canonicalize_answers, first_of_key.
  change (fun left right => is_less (answer_order left right)) with
    (fun a b : DnsAnswer => rlt (answer_key a) (answer_key b)).
  pose proof (sort_by_Permutation (fun a b => rlt (answer_key a) (answer_key b)) l) as Hp.
  rewrite <- Hp in Hl. destruct (sort_by _ l) as [|x s]; [done|]. cbn [dedup_by]. f_equal.
  rewrite Forall_forall in Hl. apply dedup_after_ext_in. intros a b Ha Hb. apply bool_decide_ext. cbn.
  split; [congruence|]. apply address_key_inj; by apply Hl.
Qed.
Lemma length_dedup_after {A} (same : A -> A -> bool) x l : length (dedup_after same x l) <= length l.
Proof. revert x. induction l as [|y l IH]; intros x; cbn; [done|]. destruct (same y x); cbn; [specialize (IH x)|specialize (IH y)]; lia. Qed.
Lemma length_canonicalize l : length (canonicalize_answers l) <= length l.
Proof.
  unfold canonicalize_answers. rewrite <- (sort_by_Permutation (fun left right => is_less (answer_order left right)) l) at 2.
  destruct (sort_by _ l) as [|x s]; cbn; [done|]. pose proof (length_dedup_after (fun left right =>
    bool_decide (an_address left = an_address right)) x s). lia.
Qed.
(** Sorted as IPv4 then IPv6 in ascending network-byte order, without repetition. *)
Definition answers_sorted (l : list DnsAnswer) : Prop :=
  StronglySorted (fun a b => rlt (address_key (an_address a)) (address_key (an_address b)) = true) l.
Lemma canonicalize_answers_spec l :
  Forall (fun a => address_ok (an_address a)) l ->
  answers_sorted (canonicalize_answers l) /\ canonicalize_answers l ⊆ l
  /\ (l <> [] -> canonicalize_answers l <> [])
  /\ forall a, a ∈ l -> exists b, b ∈ canonicalize_answers l /\ an_address b = an_address a
       /\ (an_record_expires_ns b <= an_record_expires_ns a)%Z.
Proof.
  intros Hl. rewrite canonicalize_answers_key by done.
  destruct (first_of_key_spec answer_key l) as (H1 & H2 & H3). split; [exact H1|]. split; [done|].
  split; [intros Hne Hn; by apply Hne, (first_of_key_nil answer_key)|].
  intros a Ha. destruct (H3 a Ha) as (b & Hb & Hk & Hle). exists b. split; [done|].
  rewrite Forall_forall in Hl. cbn in Hk. split; [apply address_key_inj; [by apply Hl, H2|by apply Hl|done]|].
  unfold rle in Hle. unfold answer_key in Hle. rewrite !rcmp_pair, Hk, rcmp_refl in Hle. cbn in Hle.
  change (rcmp (an_record_expires_ns b) (an_record_expires_ns a)) with
    (an_record_expires_ns b ?= an_record_expires_ns a)%Z in Hle.
  destruct (Z.compare_spec (an_record_expires_ns b) (an_record_expires_ns a)); [lia|lia|done].
Qed.
Lemma minimum_spec l : minimum l = None /\ l = [] \/ exists m, minimum l = Some m /\ m ∈ l /\ Forall (fun z => (m <= z)%Z) l.
Proof.
  destruct l as [|z l]; [by left|]. right. exists (foldl Z.min z l). split; [reflexivity|].
  revert z. induction l as [|y l IH]; intros z; cbn [foldl].
  - split; [by left|]. by repeat constructor.
  - destruct (IH (Z.min z y)) as [H1 H2]. apply Forall_cons in H2 as [H2 H3]. split.
    + apply elem_of_cons in H1 as [->|H1]; [|by do 2 right]. destruct (Z.min_dec z y) as [->| ->]; set_solver.
    + repeat constructor; [lia|lia|done].
Qed.

(** * Lemmas: the monad *)

Section net.
Context {network : Network}.

(** [m] does not panic from a state in [P], and what it returns satisfies [Q]. *)
Definition net_yields {A} (P : list DnsMessageObservation -> Prop) (m : Net A)
    (Q : A -> list DnsMessageObservation -> Prop) : Prop :=
  forall w messages, P messages ->
  match m (w, messages) with
  | (Ok a, (_, messages')) => Q a messages'
  | (Err (Failure _), _) => True
  | (Err Panicked, _) => False
  end.
Lemma net_yields_bind {A B} P (m : Net A) (f : A -> Net B) R Q :
  net_yields P m R -> (forall a, net_yields (R a) (f a) Q) -> net_yields P (m ≫= f) Q.
Proof.
  intros Hm Hf w ms HP. specialize (Hm w ms HP). unfold mbind, net_bind.
  destruct (m (w, ms)) as [[a|[e|]] [w' ms']]; [by apply Hf|done|done].
Qed.
Lemma net_yields_ret {A} P (a : A) (Q : A -> list DnsMessageObservation -> Prop) :
  (forall ms, P ms -> Q a ms) -> net_yields P (mret a) Q.
Proof. intros H w ms HP. by apply H. Qed.
Lemma net_yields_throw {A} P e Q : net_yields (A := A) P (throw (Failure e)) Q.
Proof. by intros w ms HP. Qed.
Lemma net_yields_parse {A} (P : list DnsMessageObservation -> Prop) (m : result (fault DnsError) A) R :
  yields m R -> net_yields P (lift_parse m) (fun a ms => R a /\ P ms).
Proof. intros Hm w ms HP. unfold lift_parse. by destruct m as [a|[e|]]. Qed.
Lemma net_yields_dns {A} (P : list DnsMessageObservation -> Prop) (m : result DnsError A) :
  net_yields P (lift_dns m) (fun a ms => m = Ok a /\ P ms).
Proof. intros w ms HP. unfold lift_dns, lift_parse. by destruct m. Qed.
Lemma net_yields_perform {A} (P : list DnsMessageObservation -> Prop) (f : World -> A * World) :
  net_yields P (perform f) (fun _ => P).
Proof. intros w ms HP. unfold perform. cbn. by destruct (f w). Qed.
(** A result of the environment, with a law about it. *)
Lemma net_yields_perform_law {A} (P : list DnsMessageObservation -> Prop) (f : World -> A * World) (R : A -> Prop) :
  (forall w, R (f w).1) -> net_yields P (perform f) (fun a ms => R a /\ P ms).
Proof. intros Hf w ms HP. unfold perform. cbn. specialize (Hf w). by destruct (f w). Qed.
Lemma net_yields_mono {A} P (m : Net A) Q Q' :
  net_yields P m Q -> (forall a ms, Q a ms -> Q' a ms) -> net_yields P m Q'.
Proof.
  intros Hm HQ w ms HP. specialize (Hm w ms HP). destruct (m (w, ms)) as [[a|[e|]] [w' ms']]; auto.
Qed.
Lemma net_yields_pre {A} (P P' : list DnsMessageObservation -> Prop) (m : Net A) Q :
  net_yields P m Q -> (forall ms, P' ms -> P ms) -> net_yields P' m Q.
Proof. intros Hm HP w ms H. by apply Hm, HP. Qed.
(** A pure fact of the precondition becomes a hypothesis. *)
Lemma net_yields_fact {A} (F : Prop) (P : list DnsMessageObservation -> Prop) (m : Net A) Q :
  (F -> net_yields P m Q) -> net_yields (fun ms => F /\ P ms) m Q.
Proof. intros Hm w ms [HF HP]. by apply Hm. Qed.

Lemma remaining_until_yields P deadline :
  net_yields P (remaining_until deadline) (fun _ => P).
Proof.
  unfold remaining_until. eapply net_yields_bind; [apply net_yields_perform|]. intros i.
  destruct (_ <? _)%Z; [apply net_yields_throw|]. destruct (_ =? _)%Z; [apply net_yields_throw|].
  by apply net_yields_ret.
Qed.
Lemma before_deadline_yields P deadline : net_yields P (before_deadline deadline) (fun _ => P).
Proof.
  unfold before_deadline. eapply net_yields_bind; [apply net_yields_perform|]. intros i.
  destruct (_ <=? _)%Z; [apply net_yields_throw|by apply net_yields_ret].
Qed.
Lemma elapsed_ns_yields P started :
  net_yields P (elapsed_ns started) (fun z ms => (0 <= z < u64_bound)%Z /\ P ms).
Proof.
  unfold elapsed_ns. eapply net_yields_bind; [apply net_yields_perform|]. intros i.
  apply net_yields_ret. intros ms HP. split; [|done]. unfold u64_bound. lia.
Qed.

(** The documented contracts of [Write::write] and [Read::read]. *)
Class NetworkLaws : Prop := {
  write_bounded (s : Stream) (l : list byte) (w : World) (n : nat) :
    (write s l w).1 = Io_Ok n -> n <= length l;
  read_bounded (s : Stream) (n : nat) (w : World) (l : list byte) :
    (read s n w).1 = Io_Ok l -> length l <= n
}.
Context {laws : NetworkLaws}.

Lemma io_error_yields {A} e (r : IoResult A) : yields (io_error e r) (fun a => r = Io_Ok a).
Proof. by destruct r. Qed.
Lemma write_loop_yields P fuel stream input deadline :
  length input <= fuel -> net_yields P (write_loop fuel stream input deadline) (fun _ => P).
Proof.
  revert input. induction fuel as [|fuel IH]; intros input Hf; destruct input as [|b input]; cbn [write_loop];
    try apply before_deadline_yields; [cbn in Hf; lia|].
  eapply net_yields_bind; [apply remaining_until_yields|]. intros remaining.
  eapply net_yields_bind; [apply net_yields_perform|]. intros set. destruct (negb set); [apply net_yields_throw|].
  eapply net_yields_bind.
  { apply (net_yields_perform_law P _ (fun r => forall n, r = Io_Ok n -> n <= length (b :: input))).
    intros w n. apply write_bounded. }
  intros outcome. apply net_yields_fact. intros Ho.
  eapply net_yields_bind; [apply net_yields_parse, io_error_yields|]. intros written.
  apply net_yields_fact. intros Hw. specialize (Ho _ Hw).
  destruct (written =? 0) eqn:H0; [apply net_yields_throw|]. apply Nat.eqb_neq in H0.
  rewrite (proj2 (Nat.ltb_ge _ _)) by done. apply IH. rewrite length_drop. cbn [length] in *. lia.
Qed.
Lemma read_loop_yields P fuel stream wanted output deadline :
  wanted <= fuel ->
  net_yields P (read_loop fuel stream wanted output deadline)
    (fun bytes ms => length bytes = length output + wanted /\ P ms).
Proof.
  revert wanted output. induction fuel as [|fuel IH]; intros wanted output Hf; destruct wanted as [|wanted]; cbn [read_loop];
    try (eapply net_yields_bind; [apply before_deadline_yields|]; intros ?; apply net_yields_ret;
         intros ms HP; split; [lia|done]); [lia|].
  eapply net_yields_bind; [apply remaining_until_yields|]. intros remaining.
  eapply net_yields_bind; [apply net_yields_perform|]. intros set. destruct (negb set); [apply net_yields_throw|].
  eapply net_yields_bind.
  { apply (net_yields_perform_law P _ (fun r => forall l, r = Io_Ok l -> length l <= S wanted)).
    intros w l. apply read_bounded. }
  intros outcome. apply net_yields_fact. intros Ho.
  eapply net_yields_bind; [apply net_yields_parse, io_error_yields|]. intros bytes.
  apply net_yields_fact. intros Hw. specialize (Ho _ Hw).
  destruct (length bytes =? 0) eqn:H0; [apply net_yields_throw|]. apply Nat.eqb_neq in H0.
  rewrite (proj2 (Nat.ltb_ge _ _)) by done. eapply net_yields_mono; [apply IH; lia|].
  intros l ms [Hl HP]. split; [|done]. rewrite length_app in Hl. lia.
Qed.

(** ** Queries *)

(** At most [limit] messages, each within the declared size. *)
Record messages_ok (c : ResolverContext) (ms : list DnsMessageObservation) : Prop := {
  messages_count : (Z.of_nat (length ms) <= Z.max 0 (rc_maximum_messages c))%Z;
  messages_sizes : Forall (fun m =>
    (0 < dm_size m <= maximum_response_bytes (rc_policy c))%Z /\ (0 <= dm_observed_ns m < u64_bound)%Z) ms
}.
(** A record was observed in one of the messages. *)
Definition from_message (ms : list DnsMessageObservation) (message : Sha256Digest) (ttl expires : Z) : Prop :=
  exists m, m ∈ ms /\ dm_identity m = message /\ lifetime_ok (dm_observed_ns m) ttl expires.
Record chain_sound (ms : list DnsMessageObservation) (chain : list DnsCnameObservation) : Prop := {
  chain_names : Forall (fun r => valid_name (cn_owner r) /\ valid_name (cn_target r)) chain;
  chain_messages : Forall (fun r => from_message ms (cn_message r) (cn_ttl_seconds r) (cn_expires_ns r)) chain
}.
Record answer_sound (ms : list DnsMessageObservation) (a : DnsAnswer) : Prop := {
  as_name : valid_name (an_name a);
  as_address : address_ok (an_address a);
  as_message : from_message ms (an_message a) (an_ttl_seconds a) (an_record_expires_ns a)
}.

Lemma encode_query_yields transaction n type :
  valid_name n -> yields (encode_query transaction n type) (fun query => (Z.of_nat (length query) < 65536)%Z).
Proof.
  intros Hn. rewrite encode_query_wire by done. unfold yields. pose proof (length_name_wire n Hn).
  unfold query_header. rewrite !length_app, !length_be_bytes. lia.
Qed.

Lemma random_transaction_id_yields P : net_yields P random_transaction_id (fun _ => P).
Proof.
  unfold random_transaction_id. eapply net_yields_bind; [apply net_yields_perform|]. intros a.
  eapply net_yields_mono; [apply net_yields_dns|]. by intros z ms [_ H].
Qed.

(** A query adds at most one message, the one its records come from. *)
Lemma exchange_query_yields c name type before :
  valid_name name ->
  net_yields (fun ms => messages_ok c ms /\ ms = before) (exchange_query c name type)
    (fun r ms => messages_ok c ms /\ exists m, ms = before ++ [m]
       /\ response_ok type (dm_identity m) (dm_observed_ns m) r).
Proof.
  intros Hn. unfold exchange_query. eapply (net_yields_bind _ _ _ (fun ms0 ms => (messages_ok c ms /\ ms = before) /\ ms0 = ms)).
  { intros w ms HP. cbn. done. }
  intros ms0.
  destruct (rc_maximum_messages c <=? _)%Z eqn:Hmax; [apply net_yields_throw|]. apply Z.leb_gt in Hmax.
  set (P := fun ms : list DnsMessageObservation => (messages_ok c ms /\ ms = before) /\ ms0 = ms).
  eapply net_yields_bind; [apply (random_transaction_id_yields P)|]. intros transaction.
  eapply net_yields_bind; [by apply net_yields_parse, encode_query_yields|]. intros query. apply net_yields_fact. intros Hq.
  eapply net_yields_bind; [apply net_yields_perform|]. intros instant.
  eapply net_yields_bind; [apply net_yields_dns|]. intros deadline. apply net_yields_fact. intros _. cbv zeta.
  eapply net_yields_bind; [apply remaining_until_yields|]. intros timeout.
  eapply net_yields_bind; [apply net_yields_perform|]. intros stream0.
  eapply net_yields_bind; [apply net_yields_dns|]. intros stream. apply net_yields_fact. intros _.
  eapply net_yields_bind; [apply net_yields_dns|]. intros query_length. apply net_yields_fact. intros _.
  eapply net_yields_bind; [by apply write_loop_yields|]. intros ?.
  eapply net_yields_bind; [by apply write_loop_yields|]. intros ?.
  eapply net_yields_bind; [by apply read_loop_yields|]. intros length_bytes. apply net_yields_fact. intros _.
  destruct (_ || _) eqn:Hlen; [apply net_yields_throw|]. apply orb_false_iff in Hlen as [H0%Z.eqb_neq H1%Z.ltb_ge].
  pose proof (be_value_bound length_bytes) as Hb.
  eapply net_yields_bind; [by apply read_loop_yields|]. intros response. apply net_yields_fact. intros Hr.
  eapply net_yields_bind; [apply before_deadline_yields|]. intros ?.
  eapply net_yields_bind; [apply elapsed_ns_yields|]. intros observed. apply net_yields_fact. intros Ho.
  eapply net_yields_bind; [apply net_yields_parse, parse_response_yields|]. intros parsed. apply net_yields_fact. intros Hp.
  eapply (net_yields_bind _ _ _ (fun _ ms => messages_ok c ms
    /\ ms = before ++ [mkDnsMessageObservation (digest response) (Z.of_nat (length response)) observed])).
  - intros w ms [[[Hc Hs] ->] ->]. cbn. split; [|done]. split.
    + rewrite length_app. cbn. lia.
    + apply Forall_app. split; [done|]. constructor; [|done]. cbn. cbn in Hr. lia.
  - intros ?. apply net_yields_ret. intros ms [Hm ->]. split; [done|]. eexists. split; [done|]. done.
Qed.

(** ** Alias chains *)

Lemma from_message_mono ms ms' message ttl expires :
  ms ⊆ ms' -> from_message ms message ttl expires -> from_message ms' message ttl expires.
Proof. intros H (m & Hm & Hrest). exists m. split; [by apply H|done]. Qed.
Lemma chain_sound_mono ms ms' chain : ms ⊆ ms' -> chain_sound ms chain -> chain_sound ms' chain.
Proof.
  intros H [H1 H2]. split; [done|]. eapply Forall_impl; [exact H2|]. cbn. intros r. by apply from_message_mono.
Qed.
Lemma answer_sound_mono ms ms' a : ms ⊆ ms' -> answer_sound ms a -> answer_sound ms' a.
Proof. intros H [H1 H2 H3]. split; [done|done|by eapply from_message_mono]. Qed.
Lemma answer_ok_sound type ms m a :
  m ∈ ms -> answer_ok type (dm_identity m) (dm_observed_ns m) a -> answer_sound ms a.
Proof.
  intros Hm [H1 H2 H3 H4 H5]. split; [done|by destruct (an_address a) as [o|o]; destruct H2|].
  exists m. by rewrite H3.
Qed.

(** What [resolve_record_type] returns. *)
Record resolution_ok (c : ResolverContext) (service : ServiceName) (ms : list DnsMessageObservation)
    (r : RecordResolution) : Prop := {
  res_messages : messages_ok c ms;
  res_path : path_ok service (maximum_cname_depth (rc_policy c)) (rr_chain r);
  res_chain : chain_sound ms (rr_chain r);
  res_answers : Forall (fun a => answer_sound ms a /\ an_name a = terminal_name service (rr_chain r)) (rr_answers r);
  res_count : (Z.of_nat (length (rr_answers r)) <= Z.max 0 (maximum_answer_count (rc_policy c)))%Z
}.

Lemma validated_owner_records_Ok response current type message observed answers alias :
  response_ok type message observed response ->
  validated_owner_records response current = Ok (answers, alias) ->
  Forall (fun a => answer_ok type message observed a /\ an_name a = current) answers
  /\ (answers = [] -> forall record, alias = Some record ->
       cname_ok message observed (ServiceName_as_str current) record).
Proof.
  intros [Hcn Had]. unfold validated_owner_records. destruct (_ && _); [done|].
  intros (al & Hal & [= <- <-])%bind_Ok. split.
  - apply Forall_forall. intros a [Ha1 Ha2]%list_elem_of_filter. split; [|done]. by eapply Forall_forall in Had.
  - intros _ record ->. destruct (cnames response !! _) as [[|r [|]]|] eqn:Hl; try done. injection Hal as ->.
    destruct (Hcn _ _ Hl) as (_ & Hf & _). by apply Forall_inv in Hf.
Qed.

(** The state of the loop: [chain] is a simple alias path from the service to
    [current], whose names are all in [seen]. *)
Record loop_state (c : ResolverContext) (service current : ServiceName) (chain : list DnsCnameObservation)
    (seen : list string) : Prop := {
  loop_path : path_ok service (maximum_cname_depth (rc_policy c)) chain;
  loop_current : current = terminal_name service chain;
  loop_valid : valid_name current;
  loop_seen : forall n, n ∈ path_names service chain -> ServiceName_as_str n ∈ seen
}.
Lemma loop_state_step c service current chain seen record message observed :
  loop_state c service current chain seen ->
  cname_ok message observed (ServiceName_as_str current) record ->
  (Z.of_nat (length chain) < maximum_cname_depth (rc_policy c))%Z ->
  ServiceName_as_str (cn_target record) ∉ seen ->
  loop_state c service (cn_target record) (chain ++ [record]) (ServiceName_as_str (cn_target record) :: seen).
Proof.
  intros [[P1 P2 P3] L2 L3 L4] [[_ Ho] Ht _ _] Hd Hs. apply (inj ServiceName_as_str) in Ho.
  split; [split| | |].
  - apply alias_path_snoc. split; [done|congruence].
  - rewrite path_names_snoc. apply NoDup_app. split; [done|]. split; [|apply NoDup_singleton].
    intros n Hn ->%list_elem_of_singleton. by apply Hs, L4.
  - rewrite length_app. cbn. lia.
  - by rewrite terminal_name_snoc.
  - done.
  - intros n. rewrite path_names_snoc, elem_of_app, list_elem_of_singleton, elem_of_cons.
    intros [Hn| ->]; [right; by apply L4|by left].
Qed.

(** Name the messages observed so far. *)
Lemma net_yields_at {A} (P : list DnsMessageObservation -> Prop) (m : Net A) Q :
  (forall ms, P ms -> net_yields (fun ms' => ms' = ms) m Q) -> net_yields P m Q.
Proof. intros H w ms HP. by apply (H ms HP). Qed.

Lemma resolve_loop_yields fuel c type service current chain seen before :
  loop_state c service current chain seen ->
  Z.to_nat (maximum_cname_depth (rc_policy c)) + 2 <= fuel + length chain ->
  net_yields (fun ms => messages_ok c ms /\ chain_sound ms chain /\ before ⊆ ms)
    (resolve_loop fuel c type current chain seen)
    (fun r ms => resolution_ok c service ms r /\ before ⊆ ms).
Proof.
  revert current chain seen. induction fuel as [|fuel IH]; intros current chain seen Hst Hf; cbn [resolve_loop].
  { pose proof (path_depth _ _ _ (loop_path _ _ _ _ _ Hst)). lia. }
  destruct (_ <? _)%Z; [apply net_yields_throw|].
  apply net_yields_at. intros ms0 (Hm0 & Hc0 & Hb0).
  eapply net_yields_bind; [eapply net_yields_pre|];
    [apply (exchange_query_yields c _ _ ms0), (loop_valid _ _ _ _ _ Hst)|by intros ? ->|].
  intros response. apply net_yields_at. intros ms (Hm & m & -> & Hr).
  assert (ms0 ⊆ ms0 ++ [m]) as Hsub by set_solver.
  assert (before ⊆ ms0 ++ [m]) as Hb by (by etransitivity).
  apply (chain_sound_mono _ _ _ Hsub) in Hc0.
  assert (m ∈ ms0 ++ [m]) as Hin by set_solver. set (ms := ms0 ++ [m]) in *. clearbody ms.
  eapply net_yields_bind; [apply net_yields_dns|]. intros [answers alias]. apply net_yields_fact. intros Hv.
  destruct (validated_owner_records_Ok _ _ _ _ _ _ _ Hr Hv) as [Hans Hal].
  pose proof Hst as [P1 P2 P3 P4]. case_bool_decide as Hne; cbn [negb].
  2: { destruct (_ <? _)%Z eqn:Hcount; [apply net_yields_throw|]. apply Z.ltb_ge in Hcount.
    apply net_yields_ret. intros ? ->. split; [|done].
    assert (Forall (fun a => address_ok (an_address a)) answers) as Hok.
    { eapply Forall_impl; [exact Hans|]. intros a [Ha _]. by apply (as_address ms), (answer_ok_sound type _ m). }
    destruct (canonicalize_answers_spec _ Hok) as (_ & Hsubl & _ & _).
    split; cbn; [done|done|done| |].
    - apply Forall_forall. intros a Ha%Hsubl. eapply Forall_forall in Hans; [|exact Ha].
      destruct Hans as [H1 H2]. split; [by eapply answer_ok_sound|congruence].
    - pose proof (length_canonicalize answers). lia. }
  destruct alias as [record|]; [|apply net_yields_ret; intros ? ->; split; [split; cbn; [done|done|done|constructor|lia]|done]].
  destruct (_ <=? _)%Z eqn:Hd; [apply net_yields_throw|]. apply Z.leb_gt in Hd. cbv zeta.
  case_bool_decide as Hs; [apply net_yields_throw|]. specialize (Hal Hne record eq_refl).
  eapply net_yields_pre; [apply IH|].
  - by eapply loop_state_step.
  - rewrite length_app. cbn. lia.
  - intros ? ->. split; [done|]. split; [|done]. destruct Hc0 as [C1 C2]. destruct Hal as [[A1 _] A2 A3 A4].
    split; (apply Forall_app; split; [done|]; constructor; [|done]); [done|]. exists m. by rewrite A3.
Qed.

Lemma resolve_record_type_yields c type service before :
  valid_name service ->
  net_yields (fun ms => messages_ok c ms /\ before ⊆ ms) (resolve_record_type c service type)
    (fun r ms => resolution_ok c service ms r /\ before ⊆ ms).
Proof.
  intros Hn. eapply net_yields_pre; [apply resolve_loop_yields|].
  - split; [split|done|done|]; [done|apply NoDup_singleton|cbn; lia|].
    intros n ->%list_elem_of_singleton. by left.
  - cbn [length]. lia.
  - intros ms [Hm Hb]. split; [done|]. split; [by split|done].
Qed.
Lemma any_expired_yields P started answers : net_yields P (any_expired started answers) (fun _ => P).
Proof.
  induction answers as [|a answers IH]; cbn [any_expired]; [by apply net_yields_ret|].
  eapply net_yields_bind; [eapply net_yields_mono; [apply (elapsed_ns_yields P)|by intros ? ? [_ H]; exact H]|].
  intros e. destruct (_ <=? _)%Z; [by apply net_yields_ret|apply IH].
Qed.

(** ** The expiry of an answer *)

(** An answer never outlives its own record nor an alias of the chain. *)
Definition effective_ok (chain : list DnsCnameObservation) (a : DnsAnswer) : Prop :=
  let limits := an_record_expires_ns a :: map cn_expires_ns chain in
  an_effective_expires_ns a ∈ limits /\ Forall (fun limit => (an_effective_expires_ns a <= limit)%Z) limits.
Lemma apply_chain_expiry_spec answers chain :
  Forall (effective_ok chain) (apply_chain_expiry answers chain)
  /\ map answer_key (apply_chain_expiry answers chain) = map answer_key answers
  /\ map an_name (apply_chain_expiry answers chain) = map an_name answers.
Proof.
  unfold apply_chain_expiry. rewrite !map_map. split; [|split; reflexivity].
  apply Forall_forall. intros b (a & -> & _)%list_elem_of_fmap. unfold effective_ok. cbn.
  destruct (minimum_spec (map cn_expires_ns chain)) as [[-> Hnil]|(m & -> & Hm & Hall)].
  - rewrite Hnil. split; [by left|]. by repeat constructor.
  - split; [|constructor; [lia|]].
    + destruct (Z.min_dec (an_record_expires_ns a) m) as [-> | ->]; [by left|by right].
    + eapply Forall_impl; [exact Hall|]. cbn. lia.
Qed.

Record resolution_sound (authority : AuthenticatedServiceSession) (r : DnsResolution) : Prop := {
  rs_authority : dr_authority r = authority;
  rs_messages : (Z.of_nat (length (dr_messages r)) <= Z.max 0 (dns_messages (ss_limits authority)))%Z
    /\ Forall (fun m => (0 < dm_size m <= maximum_response_bytes (ss_resolution authority))%Z) (dr_messages r);
  rs_path : path_ok (ss_service authority) (maximum_cname_depth (ss_resolution authority)) (dr_cname_chain r);
  rs_chain : chain_sound (dr_messages r) (dr_cname_chain r);
  rs_some : dr_answers r <> [];
  rs_count : (Z.of_nat (length (dr_answers r)) <= maximum_answer_count (ss_resolution authority))%Z;
  rs_sorted : answers_sorted (dr_answers r);
  rs_answers : Forall (fun a => answer_sound (dr_messages r) a
    /\ an_name a = terminal_name (ss_service authority) (dr_cname_chain r)
    /\ effective_ok (dr_cname_chain r) a) (dr_answers r)
}.

Lemma answers_sorted_keys l k : map answer_key l = map answer_key k -> answers_sorted l -> answers_sorted k.
Proof.
  unfold answers_sorted. revert k. induction l as [|a l IH]; intros [|b k] H Hs; try done.
  cbn [map] in H. pose proof (f_equal head H) as Hab. cbn in Hab. injection Hab as Hab _ _ _.
  apply (f_equal tail) in H. cbn [tail] in H. inversion Hs as [|? ? Hs' Hf]; subst. constructor; [by apply IH|].
  apply Forall_forall. intros x Hx. rewrite <- Hab. apply (list_elem_of_fmap_2 answer_key) in Hx.
  change (answer_key <$> k) with (map answer_key k) in Hx. rewrite <- H in Hx.
  apply list_elem_of_fmap in Hx as (y & Hy & Hin). eapply Forall_forall in Hf; [|exact Hin]. cbn beta in Hf.
  injection Hy as Hy _ _ _. by rewrite Hy.
Qed.

(** The last steps of [resolve_service]: what is selected from the two answer sets. *)
Lemma selected_answers_sound c authority ms v4 v6 chain :
  c = mkResolverContext (rc_started c) (rc_deadline c) (ss_resolution authority) (dns_messages (ss_limits authority)) ->
  let terminal := terminal_name (ss_service authority) chain in
  let answers := apply_chain_expiry
    (canonicalize_answers (filter (fun answer => an_name answer = terminal) (rr_answers v4 ++ rr_answers v6))) chain in
  resolution_ok c (ss_service authority) ms v4 -> resolution_ok c (ss_service authority) ms v6 ->
  reconcile_chains (ss_service authority) v4 v6 (maximum_cname_depth (ss_resolution authority)) = Ok chain ->
  bool_decide (answers = []) = false ->
  (maximum_answer_count (ss_resolution authority) <? Z.of_nat (length answers))%Z = false ->
  resolution_sound authority (mkDnsResolution (rc_started c) authority ms chain answers).
Proof.
  intros Hc terminal answers [M4 P4 C4 A4 N4] [_ P6 C6 A6 N6] Hr Hne%bool_decide_eq_false Hcount%Z.ltb_ge.
  rewrite Hc in P4, P6, M4. destruct M4 as [M1 M2]. cbn in *.
  destruct (reconcile_chains_Ok _ _ _ _ _ P4 P6 Hr) as (HP & _ & _ & Hin).
  assert (Forall (answer_sound ms) (rr_answers v4 ++ rr_answers v6)) as Hall.
  { apply Forall_app. split; (eapply Forall_impl; [eassumption|]; by intros a [H _]). }
  set (pool := filter _ _) in answers.
  assert (Forall (fun a => answer_sound ms a /\ an_name a = terminal) pool) as Hpool.
  { apply Forall_forall. intros a [Ht Ha]%list_elem_of_filter. split; [|done]. by eapply Forall_forall in Hall. }
  destruct (canonicalize_answers_spec pool) as (Hsort & Hsub & _ & _).
  { eapply Forall_impl; [exact Hpool|]. by intros a [[_ H _] _]. }
  destruct (apply_chain_expiry_spec (canonicalize_answers pool) chain) as (Heff & Hkeys & Hnames).
  fold answers in Heff, Hkeys, Hnames.
  split; cbn; try done.
  - split; [done|]. eapply Forall_impl; [exact M2|]. by intros m [H _].
  - destruct C4 as [CN4 CM4], C6 as [CN6 CM6]. rewrite Forall_forall in CN4, CM4, CN6, CM6.
    split; apply Forall_forall; intros r [H|H]%Hin; auto.
  - by eapply answers_sorted_keys.
  - unfold answers, apply_chain_expiry in Heff |- *. rewrite Forall_forall in Heff.
    apply Forall_forall. intros b Hb. pose proof (Heff b Hb) as He.
    apply list_elem_of_fmap in Hb as (a & -> & Ha%Hsub). eapply Forall_forall in Hpool; [|exact Ha].
    destruct Hpool as [[S1 S2 S3] S4]. split; [by split|]. by split.
Qed.

Lemma resolve_service_yields authority :
  valid_name (ss_service authority) ->
  net_yields (fun ms => ms = []) (resolve_service authority) (fun r ms => resolution_sound authority r /\ dr_messages r = ms).
Proof.
  intros Hn. unfold resolve_service. cbv zeta.
  eapply net_yields_bind; [apply net_yields_perform|]. intros started.
  eapply net_yields_bind; [apply net_yields_dns|]. intros deadline. apply net_yields_fact. intros _.
  set (c := mkResolverContext _ _ _ _).
  eapply net_yields_bind.
  { eapply net_yields_pre; [apply (resolve_record_type_yields c _ _ [] Hn)|].
    intros ms ->. split; [split; cbn; [lia|constructor]|done]. }
  intros v4. apply net_yields_at. intros ms4 [H4 _].
  eapply net_yields_bind.
  { eapply net_yields_pre; [apply (resolve_record_type_yields c _ _ ms4 Hn)|].
    intros ms ->. split; [apply H4|done]. }
  intros v6. apply net_yields_at. intros ms6 [H6 Hsub].
  assert (resolution_ok c (ss_service authority) ms6 v4) as H4'.
  { destruct H4 as [_ ? ? ? ?]. destruct H6 as [? _ _ _ _]. split; [done|done|by eapply chain_sound_mono| |done].
    eapply Forall_impl; [eassumption|]. intros a [? ?]. split; [by eapply answer_sound_mono|done]. }
  eapply net_yields_bind; [apply net_yields_dns|]. intros chain. apply net_yields_fact. intros Hr.
  destruct (_ || _) eqn:Hbad; [apply net_yields_throw|]. apply orb_false_iff in Hbad as [Hne Hcount].
  pose proof (selected_answers_sound c authority ms6 v4 v6 chain eq_refl H4' H6 Hr Hne Hcount) as Hsound.
  eapply (net_yields_bind _ _ _ (fun messages ms => messages = ms6 /\ ms = ms6)); [by intros w ms ->|].
  intros messages. apply net_yields_fact. intros ->.
  eapply net_yields_bind; [apply any_expired_yields|]. intros [|]; [apply net_yields_throw|].
  eapply net_yields_bind; [apply before_deadline_yields|]. intros ?. apply net_yields_ret.
  intros ms ->. split; [exact Hsound|done].
Qed.
End net.

(** * Properties *)

(** C37: against any resolver, with a write and a read that respect the length of
    their buffers, name resolution of a declared service terminates without a
    panic, and a resolution it returns is exactly for the declared authority: at
    most the declared number of messages, each non-empty and within the declared
    size; an alias chain of at most the declared depth that starts at the service,
    links owner to target, and never visits a name twice; and one to the declared
    number of answers, all of the chain's last name, every one taken from a record
    of an observed message, sorted by address without duplicates, each expiring at
    the minimum of its own record's and its aliases' expiries. *)
Theorem resolve_service_sound `{NetworkLaws} (authority : AuthenticatedServiceSession) (w : World) :
  valid_name (ss_service authority) ->
  match resolve_service authority (w, []) with
  | (Ok r, (_, messages)) => resolution_sound authority r /\ dr_messages r = messages
  | (Err (Failure _), _) => True
  | (Err Panicked, _) => False
  end.
Proof. intros Hn. by apply resolve_service_yields. Qed.

(** * A resolver that answers *)

(** A network whose resolver sends the scripted responses, one per connection.  The
    stream moves any number of bytes in a call, at least one, and the clock reads
    anything: [chunk] and [clock] give the size and the time of every turn, [random]
    the random bytes of the query that so many responses of the script are left for. *)
Record ScriptedWorld := mkScriptedWorld { sw_script : list (list byte); sw_pending : list byte; sw_turn : nat }.

Section scripted.
Context (chunk : nat -> nat) (clock : nat -> Z) (random : nat -> byte * byte) (hash : list byte -> list byte).

Definition scripted : Network := {|
  World := ScriptedWorld;
  Stream := ();
  instant_limit := 2 ^ 64;
  now w := (clock (sw_turn w), mkScriptedWorld (sw_script w) (sw_pending w) (S (sw_turn w)));
  urandom w := (let bytes := random (length (sw_script w)) in Some [bytes.1; bytes.2], w);
  connect_timeout _ _ w :=
    match sw_script w with
    | [] => (None, w)
    | response :: script =>
      (Some (), mkScriptedWorld script (be_bytes 2 (Z.of_nat (length response)) ++ response) (sw_turn w))
    end;
  set_write_timeout _ _ w := (true, w);
  set_read_timeout _ _ w := (true, w);
  write _ input w :=
    (Io_Ok (Nat.min (S (chunk (sw_turn w))) (length input)), mkScriptedWorld (sw_script w) (sw_pending w) (S (sw_turn w)));
  read _ wanted w :=
    let size := Nat.min (S (chunk (sw_turn w))) wanted in
    (Io_Ok (take size (sw_pending w)), mkScriptedWorld (sw_script w) (drop size (sw_pending w)) (S (sw_turn w)));
  sha256 := hash
|}.
#[local] Existing Instance scripted.
#[global] Instance scripted_laws : NetworkLaws (network := scripted).
Proof.
  split; cbn.
  - intros _ l w n [= <-]. apply (Nat.le_min_r (S (chunk (sw_turn w)))).

  - intros _ n w l [= <-]. rewrite length_take. pose proof (Nat.le_min_r (S (chunk (sw_turn w))) n). cbn in *. lia.
Qed.

(** Every reading of the clock falls into a window of [span] nanoseconds. *)
Context (base span : Z).
Definition within_window : Prop := (0 <= base)%Z /\ forall turn, (base <= clock turn < base + span)%Z.
Definition state (script : list (list byte)) (pending : list byte) (turn : nat) (ms : list DnsMessageObservation) : NetState :=
  (mkScriptedWorld script pending turn, ms).

Lemma run_bind {A B} (m : Net A) (f : A -> Net B) s a s' : m s = (Ok a, s') -> (m ≫= f) s = f a s'.
Proof. intros H. unfold mbind, net_bind. by rewrite H. Qed.
Lemma run_now script pending turn ms :
  perform now (state script pending turn ms) = (Ok (clock turn), state script pending (S turn) ms).
Proof. done. Qed.
Section window.
Context (Hwindow : within_window).
Lemma run_remaining_until deadline script pending turn ms : (base + span <= deadline)%Z ->
  exists t, remaining_until deadline (state script pending turn ms) = (Ok t, state script pending (S turn) ms).
Proof.
  intros H. destruct Hwindow as [_ Hc]. specialize (Hc turn). unfold remaining_until.
  rewrite (run_bind _ _ _ _ _ (run_now script pending turn ms)).
  rewrite (proj2 (Z.ltb_ge _ _)), (proj2 (Z.eqb_neq _ _)) by lia. by eexists.
Qed.
Lemma run_before_deadline deadline script pending turn ms : (base + span <= deadline)%Z ->
  before_deadline deadline (state script pending turn ms) = (Ok (), state script pending (S turn) ms).
Proof.
  intros H. destruct Hwindow as [_ Hc]. specialize (Hc turn). unfold before_deadline.
  rewrite (run_bind _ _ _ _ _ (run_now script pending turn ms)). by rewrite (proj2 (Z.leb_gt _ _)) by lia.
Qed.
Lemma run_elapsed_ns started script pending turn ms : (base <= started)%Z -> (span < u64_bound)%Z ->
  exists t, (0 <= t < span)%Z /\ elapsed_ns started (state script pending turn ms) = (Ok t, state script pending (S turn) ms).
Proof.
  intros H Hs. destruct Hwindow as [_ Hc]. specialize (Hc turn). unfold elapsed_ns.
  rewrite (run_bind _ _ _ _ _ (run_now script pending turn ms)). eexists. split; [|reflexivity]. unfold u64_bound in *. lia.
Qed.
Lemma run_write_loop fuel stream input deadline script pending turn ms :
  (base + span <= deadline)%Z -> length input <= fuel ->
  exists turn', write_loop fuel stream input deadline (state script pending turn ms) = (Ok (), state script pending turn' ms).
Proof.
  intros Hd. revert input turn. induction fuel as [|fuel IH]; intros [|b input] turn Hf; cbn [write_loop];
    try (by rewrite run_before_deadline by done; eexists); [cbn in Hf; lia|].
  destruct (run_remaining_until deadline script pending turn ms Hd) as [t Ht]. rewrite (run_bind _ _ _ _ _ Ht).
  erewrite run_bind by reflexivity. cbn [negb]. erewrite run_bind by reflexivity. cbn beta.
  erewrite run_bind by reflexivity. cbn beta. cbn [length sw_turn] in *. rewrite (proj2 (Nat.eqb_neq _ _)) by lia.
  rewrite (proj2 (Nat.ltb_ge _ _)) by lia. apply IH. rewrite length_drop. cbn [length]. lia.
Qed.
Lemma run_read_loop fuel stream wanted output deadline script pending rest turn ms :
  (base + span <= deadline)%Z -> wanted <= fuel -> length pending = wanted ->
  exists turn', read_loop fuel stream wanted output deadline (state script (pending ++ rest) turn ms)
  = (Ok (output ++ pending), state script rest turn' ms).
Proof.
  intros Hd. revert wanted output pending turn. induction fuel as [|fuel IH]; intros [|wanted] output pending turn Hf Hl; cbn [read_loop];
    try (destruct pending; [|done]; rewrite (run_bind _ _ _ _ _ (run_before_deadline deadline _ _ _ _ Hd)), (app_nil_r output);
         by eexists); [lia|].
  destruct (run_remaining_until deadline script (pending ++ rest) turn ms Hd) as [t Ht]. rewrite (run_bind _ _ _ _ _ Ht).
  erewrite run_bind by reflexivity. cbn [negb]. erewrite run_bind by reflexivity. cbn beta.
  erewrite run_bind by reflexivity. cbv beta. unfold state. cbn [fst snd sw_pending sw_turn sw_script].
  set (size := Nat.min (S (chunk (S turn))) (S wanted)). assert (1 <= size <= S wanted) as Hs by lia.
  assert (length (take size (pending ++ rest)) = size) as Hlen by (rewrite length_take, length_app; lia).
  rewrite !Hlen. rewrite (proj2 (Nat.eqb_neq _ _)) by lia. rewrite (proj2 (Nat.ltb_ge _ _)) by lia.
  rewrite take_app_le, drop_app_le by lia.
  clearbody size. destruct (IH (S wanted - size) (output ++ take size pending) (drop size pending) (S (S turn))) as [turn' Hr];
    [lia|rewrite length_drop; lia|].
  exists turn'. etransitivity; [exact Hr|]. by rewrite <- app_assoc, take_drop.
Qed.

Definition transaction (left : nat) : Z := be_value [(random left).1; (random left).2].
Definition reply (c : ResolverContext) (response : list byte) : Prop :=
  0 < length response /\ (Z.of_nat (length response) <= maximum_response_bytes (rc_policy c))%Z
  /\ (Z.of_nat (length response) < 65536)%Z.
Record context_ok (c : ResolverContext) : Prop := {
  ctx_started : (base <= rc_started c)%Z;
  ctx_span : (span < u64_bound)%Z;
  ctx_deadline : (base + span <= rc_deadline c)%Z;
  ctx_attempt : (span <= attempt_deadline_ms (rc_policy c) * 1000000)%Z;
  ctx_limit : (base + span + attempt_deadline_ms (rc_policy c) * 1000000 <= 2 ^ 64)%Z
}.
(** The SHA-256 digest of a reply. *)
Definition identity (response : list byte) : Sha256Digest := mkSha256Digest (hash response).
Definition observation (response : list byte) (observed : Z) : DnsMessageObservation :=
  mkDnsMessageObservation (identity response) (Z.of_nat (length response)) observed.

(** The response, in whatever form, is one that the parser reads as the records, and
    as no alias of the name. *)
Definition answers_with (left : nat) (name : ServiceName) (type : Z) (rs : list AnswerRecord) (response : list byte) : Prop :=
  forall observed, (0 <= observed < span)%Z -> exists p,
    parse_response response (transaction left) name type (identity response) observed = Ok p
    /\ addresses p = omap (expected_answer type (identity response) observed) rs
    /\ cnames p !! ServiceName_as_str name = None.

Lemma run_exchange_query c name type rs response script pending turn ms :
  context_ok c -> valid_name name -> reply c response ->
  (Z.of_nat (length ms) < rc_maximum_messages c)%Z -> answers_with (S (length script)) name type rs response ->
  exists observed p turn', (0 <= observed < span)%Z
    /\ addresses p = omap (expected_answer type (identity response) observed) rs
    /\ cnames p !! ServiceName_as_str name = None
    /\ exchange_query c name type (state (response :: script) pending turn ms)
       = (Ok p, state script [] turn' (ms ++ [observation response observed])).
Proof.
  intros [C1 C2 C3 C4 C5] Hn (R1 & R2 & R3) Hms Hp. unfold exchange_query, write_all_until, read_exact_until.
  erewrite run_bind by reflexivity. rewrite (proj2 (Z.leb_gt _ _)) by exact Hms.
  erewrite run_bind by reflexivity. cbn beta. cbn [fst snd state sw_script length].
  change (be_value [(random (S (length script))).1; (random (S (length script))).2]) with (transaction (S (length script))).
  rewrite encode_query_wire by done.
  pose proof (encode_query_yields (transaction (S (length script))) name type Hn) as Hq. rewrite encode_query_wire in Hq by done.
  cbn [yields] in Hq. set (query := _ ++ _) in *. clearbody query.
  erewrite run_bind by reflexivity. change (mkScriptedWorld (response :: script) pending turn, ms) with (state (response :: script) pending turn ms).
  rewrite (run_bind _ _ _ _ _ (run_now _ _ _ _)). cbn beta.
  pose proof (proj2 Hwindow turn) as Hnow. unfold checked_add_ms.
  rewrite (proj2 (Z.leb_le _ _)) by (cbn [instant_limit scripted]; lia).
  erewrite run_bind by reflexivity. cbv beta zeta.
  set (deadline := Z.min _ _). assert (base + span <= deadline)%Z as Hd by lia. clearbody deadline.
  destruct (run_remaining_until deadline (response :: script) pending (S turn) ms Hd) as [t Ht].
  rewrite (run_bind _ _ _ _ _ Ht). erewrite run_bind by reflexivity. erewrite run_bind by reflexivity. cbn beta.
  assert (u16_try_from (Z.of_nat (length query)) = Some (Z.of_nat (length query))) as ->
    by (apply try_from_Some; unfold u16_bound; lia).
  erewrite run_bind by reflexivity. cbn beta. unfold state at 1. cbn [fst snd sw_script sw_pending sw_turn].
  set (frame := be_bytes 2 _ ++ response). change (mkScriptedWorld script frame (S (S turn)), ms) with (state script frame (S (S turn)) ms).
  edestruct (run_write_loop _ () (be_bytes 2 (Z.of_nat (length query))) deadline script frame (S (S turn)) ms Hd (le_n _)) as [t1 H1].
  rewrite (run_bind _ _ _ _ _ H1).
  edestruct (run_write_loop _ () query deadline script frame t1 ms Hd (le_n _)) as [t2 H2]. rewrite (run_bind _ _ _ _ _ H2).
  destruct (run_read_loop 2 () 2 [] deadline script (be_bytes 2 (Z.of_nat (length response))) response t2 ms Hd (le_n _) (length_be_bytes _ _)) as [t3 H3].
  fold frame in H3. rewrite (run_bind _ _ _ _ _ H3). cbn [app].
  rewrite be_value_be_bytes_small by (cbn; lia). rewrite (proj2 (Z.eqb_neq _ _)) by lia.
  rewrite (proj2 (Z.ltb_ge _ _)) by exact R2. cbn [orb]. rewrite Nat2Z.id.
  destruct (run_read_loop (length response) () (length response) [] deadline script response [] t3 ms Hd (le_n _) eq_refl) as [t4 H4].
  rewrite (app_nil_r response) in H4. rewrite (run_bind _ _ _ _ _ H4). cbn [app].
  rewrite (run_bind _ _ _ _ _ (run_before_deadline deadline _ _ _ _ Hd)).
  destruct (run_elapsed_ns (rc_started c) script [] (S t4) ms C1 C2) as (observed & Hobs & He). rewrite (run_bind _ _ _ _ _ He). cbv zeta.
  destruct (Hp observed Hobs) as (p & Hparse & Ha & Hcn). change (digest response) with (identity response). rewrite Hparse.
  exists observed, p, (S (S t4)). split; [done|]. split; [done|]. split; [done|]. reflexivity.
Qed.

(** The resolver knows the addresses of the name, and answers directly; the records
    outlive the window. *)
Definition record_address (r : AnswerRecord) : option Address :=
  match ar_data r with
  | Data_A octets => Some (V4 octets) | Data_AAAA octets => Some (V6 octets) | Data_CNAME _ => None
  end.
Record direct (service : ServiceName) (type : Z) (r : AnswerRecord) : Prop := {
  direct_ok : record_ok 0 r;
  direct_owner : ar_owner r = service;
  direct_type : data_type (ar_data r) = type;
  direct_life : (span <= ar_ttl r * 1000000000)%Z
}.
(** The answer that tells a record: its address, and no longer than the record lives
    from an observation on. *)
Definition direct_answers (type : Z) (message : Sha256Digest) (observed : Z) (rs : list AnswerRecord) : list DnsAnswer :=
  omap (expected_answer type message observed) rs.
Definition good_answer (service : ServiceName) (a : DnsAnswer) : Prop :=
  an_name a = service /\ address_ok (an_address a) /\ (span <= an_record_expires_ns a)%Z.

Lemma direct_answers_spec service type message observed rs :
  type = DNS_TYPE_A \/ type = DNS_TYPE_AAAA -> (0 <= observed)%Z -> Forall (direct service type) rs ->
  Forall (good_answer service) (direct_answers type message observed rs)
  /\ length (direct_answers type message observed rs) = length rs
  /\ forall r, r ∈ rs -> exists a, a ∈ direct_answers type message observed rs /\ record_address r = Some (an_address a)
       /\ an_record_expires_ns a = record_expires observed r.
Proof.
  intros Ht Hobs. unfold direct_answers.
  induction 1 as [|r rs [[R1 R2 R3] Ho Hty Hlife] _ (IH1 & IH2 & IH3)]; [split; [constructor|split; [done|set_solver]]|].
  assert (exists a, expected_answer type message observed r = Some a /\ an_name a = service /\ address_ok (an_address a)
    /\ record_address r = Some (an_address a) /\ an_record_expires_ns a = record_expires observed r) as (a & Ha & A1 & A2 & A3 & A4).
  { unfold expected_answer, record_address. destruct (ar_data r) as [o|o|t]; cbn in Hty, R2; subst type;
      [eexists; split; [reflexivity|done]..|by destruct Ht]. }
  cbn [omap list_omap]. rewrite Ha. split; [|split].
  - constructor; [|done]. split; [done|]. split; [done|]. rewrite A4. unfold record_expires. lia.
  - cbn. by rewrite IH2.
  - intros r' [->|Hr]%elem_of_cons; [by exists a; split; [left|]|].
    destruct (IH3 _ Hr) as (b & Hb & Hrest). exists b. split; [by right|done].
Qed.
Lemma run_resolve_record_type c service type rs response script pending turn ms :
  context_ok c -> valid_name service -> type = DNS_TYPE_A \/ type = DNS_TYPE_AAAA ->
  Forall (direct service type) rs -> reply c response -> answers_with (S (length script)) service type rs response ->
  (Z.of_nat (length ms) < rc_maximum_messages c)%Z -> (0 <= maximum_cname_depth (rc_policy c))%Z ->
  (Z.of_nat (length rs) <= maximum_answer_count (rc_policy c))%Z ->
  exists observed turn', (0 <= observed < span)%Z
    /\ resolve_record_type c service type (state (response :: script) pending turn ms)
       = (Ok (mkRecordResolution [] (canonicalize_answers (direct_answers type (identity response) observed rs))),
          state script [] turn' (ms ++ [observation response observed])).
Proof.
  intros Hc Hn Ht Hrs Hreply Hans Hms Hdepth Hcount.
  destruct (run_exchange_query c service type rs response script pending turn ms Hc Hn Hreply Hms Hans)
    as (observed & p & turn' & Hobs & Ha & Hcn & Hx).
  exists observed, turn'. split; [done|]. unfold resolve_record_type. cbn [resolve_loop]. rewrite (proj2 (Z.ltb_ge _ _)) by (cbn; lia).
  rewrite (run_bind _ _ _ _ _ Hx). clear Hx.
  destruct (direct_answers_spec service type (identity response) observed rs Ht (proj1 Hobs) Hrs) as (Ha1 & Ha2 & _).
  unfold validated_owner_records. rewrite Ha, Hcn. fold (direct_answers type (identity response) observed rs).
  assert (filter (fun answer => an_name answer = service) (direct_answers type (identity response) observed rs)
    = direct_answers type (identity response) observed rs) as ->.
  { apply filter_all. eapply Forall_impl; [exact Ha1|]. by intros a [H _]. }
  cbn [from_option]. rewrite andb_false_r. erewrite run_bind by reflexivity. cbn beta iota.
  destruct (direct_answers type (identity response) observed rs) as [|a l] eqn:Hd; [reflexivity|].
  rewrite bool_decide_eq_false_2 by done. cbn [negb]. rewrite (proj2 (Z.ltb_ge _ _)) by (rewrite Ha2; exact Hcount).
  reflexivity.
Qed.

(** What the declared session must leave room for: the window lies within both
    deadlines, and the replies and the answers within the declared limits. *)
Record room (authority : AuthenticatedServiceSession) (answers : nat) (replies : list (list byte)) : Prop := {
  room_service : valid_name (ss_service authority);
  room_depth : (0 <= maximum_cname_depth (ss_resolution authority))%Z;
  room_deadlines : (span <= attempt_deadline_ms (ss_resolution authority) * 1000000)%Z
    /\ (span <= resolution_deadline_ms (ss_resolution authority) * 1000000)%Z;
  room_clock : (span < u64_bound)%Z
    /\ (base + span + attempt_deadline_ms (ss_resolution authority) * 1000000 <= 2 ^ 64)%Z
    /\ (base + span + resolution_deadline_ms (ss_resolution authority) * 1000000 <= 2 ^ 64)%Z;
  room_messages : (Z.of_nat (length replies) <= dns_messages (ss_limits authority))%Z;
  room_answers : (Z.of_nat answers <= maximum_answer_count (ss_resolution authority))%Z;
  room_replies : Forall (fun response => 0 < length response
    /\ (Z.of_nat (length response) <= maximum_response_bytes (ss_resolution authority))%Z
    /\ (Z.of_nat (length response) < 65536)%Z) replies
}.
Lemma run_any_expired started answers script pending turn ms :
  (base <= started)%Z -> (span < u64_bound)%Z -> Forall (fun a => (span <= an_effective_expires_ns a)%Z) answers ->
  exists turn', any_expired started answers (state script pending turn ms) = (Ok false, state script pending turn' ms).
Proof.
  intros Hs Hb H. revert turn. induction H as [|a answers Ha _ IH]; intros turn; [by eexists|]. cbn [any_expired].
  destruct (run_elapsed_ns started script pending turn ms Hs Hb) as (t & Ht & He).
  rewrite (run_bind _ _ _ _ _ He), (proj2 (Z.leb_gt _ _)) by lia. apply IH.
Qed.
Lemma apply_no_chain_expiry answers :
  apply_chain_expiry answers [] = map (fun a => mkDnsAnswer (an_name a) (an_address a) (an_message a)
    (an_ttl_seconds a) (an_record_expires_ns a) (an_record_expires_ns a)) answers.
Proof. reflexivity. Qed.

(** The selected answers tell the records of a reply, and nothing else. *)
Lemma canonicalize_good service l :
  Forall (good_answer service) l ->
  Forall (good_answer service) (canonicalize_answers l)
  /\ canonicalize_answers l ⊆ l
  /\ forall a, a ∈ l -> exists b, b ∈ canonicalize_answers l /\ an_address b = an_address a
       /\ (an_record_expires_ns b <= an_record_expires_ns a)%Z.
Proof.
  intros H. destruct (canonicalize_answers_spec l) as (_ & Hsub & _ & Hfound).
  - eapply Forall_impl; [exact H|]. unfold good_answer. tauto.
  - split; [|split; [exact Hsub|exact Hfound]]. apply Forall_forall. intros a Ha%Hsub. by eapply Forall_forall in H.
Qed.
Definition tells (answers : list DnsAnswer) (observed : Z) (rs : list AnswerRecord) : Prop :=
  forall record, record ∈ rs -> exists a, a ∈ answers /\ record_address record = Some (an_address a)
    /\ (an_record_expires_ns a <= record_expires observed record)%Z.
Definition told (answers : list DnsAnswer) (rs : list AnswerRecord) : Prop :=
  forall a, a ∈ answers -> exists record, record ∈ rs /\ record_address record = Some (an_address a).
Lemma tells_canonicalize service l observed rs :
  Forall (good_answer service) l -> tells l observed rs -> tells (canonicalize_answers l) observed rs.
Proof.
  intros Hl Ht record Hr. destruct (Ht record Hr) as (a & Ha & -> & Hle).
  destruct (canonicalize_good service l Hl) as (_ & _ & Hfound). destruct (Hfound a Ha) as (b & Hb & <- & Hle').
  exists b. split; [done|]. split; [done|lia].
Qed.
Lemma direct_answers_told type message observed rs : told (direct_answers type message observed rs) rs.
Proof.
  intros a (r & Hr & Ha)%list_elem_of_omap. exists r. split; [done|].
  unfold expected_answer, record_address in *. destruct (ar_data r); repeat case_match; simplify_eq; done.
Qed.

(** The answers of the two queries together, each reply with its observation. *)
Definition direct_pool (rs4 rs6 : list AnswerRecord) (m4 m6 : Sha256Digest) (o4 o6 : Z) : list DnsAnswer :=
  canonicalize_answers (direct_answers DNS_TYPE_A m4 o4 rs4)
  ++ canonicalize_answers (direct_answers DNS_TYPE_AAAA m6 o6 rs6).
Lemma direct_pool_spec service rs4 rs6 m4 m6 o4 o6 :
  Forall (direct service DNS_TYPE_A) rs4 -> Forall (direct service DNS_TYPE_AAAA) rs6 -> (0 <= o4)%Z -> (0 <= o6)%Z ->
  let pool := direct_pool rs4 rs6 m4 m6 o4 o6 in
  Forall (good_answer service) pool /\ length pool <= length rs4 + length rs6
  /\ tells pool o4 rs4 /\ tells pool o6 rs6 /\ told pool (rs4 ++ rs6).
Proof.
  intros H4 H6 Ho4 Ho6 pool.
  destruct (direct_answers_spec service DNS_TYPE_A m4 o4 rs4 (or_introl eq_refl) Ho4 H4) as (A4 & L4 & T4).
  destruct (direct_answers_spec service DNS_TYPE_AAAA m6 o6 rs6 (or_intror eq_refl) Ho6 H6) as (A6 & L6 & T6).
  destruct (canonicalize_good service _ A4) as (G4 & S4 & _). destruct (canonicalize_good service _ A6) as (G6 & S6 & _).
  pose proof (direct_answers_told DNS_TYPE_A m4 o4 rs4) as D4.
  pose proof (direct_answers_told DNS_TYPE_AAAA m6 o6 rs6) as D6.
  split; [by apply Forall_app|]. split.
  { unfold pool, direct_pool. rewrite length_app.
    pose proof (length_canonicalize (direct_answers DNS_TYPE_A m4 o4 rs4)).
    pose proof (length_canonicalize (direct_answers DNS_TYPE_AAAA m6 o6 rs6)). lia. }
  split; [|split].
  - intros r Hr. destruct (tells_canonicalize service _ o4 rs4 A4) with r as (a & Ha & Hrest); [|done|].
    + intros r' Hr'. destruct (T4 _ Hr') as (a & ? & ? & Hex). exists a. by rewrite Hex.
    + exists a. split; [apply elem_of_app; by left|done].
  - intros r Hr. destruct (tells_canonicalize service _ o6 rs6 A6) with r as (a & Ha & Hrest); [|done|].
    + intros r' Hr'. destruct (T6 _ Hr') as (a & ? & ? & Hex). exists a. by rewrite Hex.
    + exists a. split; [apply elem_of_app; by right|done].
  - intros a [Ha%S4%D4|Ha%S6%D6]%elem_of_app; destruct Ha as (r & Hr & Hrest); exists r; (split; [apply elem_of_app; auto|done]).
Qed.

(** Two direct answers have no aliases to reconcile. *)
Lemma reconcile_direct service a4 a6 depth :
  (0 <= depth)%Z -> reconcile_chains service (mkRecordResolution [] a4) (mkRecordResolution [] a6) depth = Ok [].
Proof.
  intros H. unfold reconcile_chains. cbn [rr_chain rr_answers].
  assert (same_cname_path [] [] = true) as -> by reflexivity. rewrite orb_true_r.
  destruct (bool_decide (a4 = [])); cbn [mbind result_bind length]; rewrite (proj2 (Z.ltb_ge _ _)) by (cbn; lia); reflexivity.
Qed.

(** What a resolution tells. *)
Record resolution_tells (r : DnsResolution) (messages : list DnsMessageObservation) (rs4 rs6 : list AnswerRecord)
    (o4 o6 : Z) : Prop := {
  rt_messages : dr_messages r = messages;
  rt_ipv4 : tells (dr_answers r) o4 rs4;
  rt_ipv6 : tells (dr_answers r) o6 rs6;
  rt_only : told (dr_answers r) (rs4 ++ rs6);
  rt_expiry : Forall (fun a => an_effective_expires_ns a = an_record_expires_ns a) (dr_answers r)
}.
Lemma resolution_tells_pool service started authority messages rs4 rs6 m4 m6 o4 o6 :
  Forall (direct service DNS_TYPE_A) rs4 -> Forall (direct service DNS_TYPE_AAAA) rs6 -> (0 <= o4)%Z -> (0 <= o6)%Z ->
  resolution_tells (mkDnsResolution started authority messages []
    (apply_chain_expiry (canonicalize_answers (direct_pool rs4 rs6 m4 m6 o4 o6)) [])) messages rs4 rs6 o4 o6.
Proof.
  intros H4 H6 Ho4 Ho6. destruct (direct_pool_spec service rs4 rs6 m4 m6 o4 o6 H4 H6 Ho4 Ho6) as (Hpool & _ & T4 & T6 & D).
  assert (forall observed rs, tells (canonicalize_answers (direct_pool rs4 rs6 m4 m6 o4 o6)) observed rs ->
    tells (apply_chain_expiry (canonicalize_answers (direct_pool rs4 rs6 m4 m6 o4 o6)) []) observed rs) as Happly.
  { intros observed rs H r Hr. destruct (H r Hr) as (a & Ha & Hrest). rewrite apply_no_chain_expiry.
    eexists. split; [by apply list_elem_of_fmap_2|exact Hrest]. }
  split; cbn [dr_messages dr_answers].
  - reflexivity.
  - by eapply Happly, tells_canonicalize.
  - by eapply Happly, tells_canonicalize.
  - rewrite apply_no_chain_expiry. intros b (a & -> & Ha)%list_elem_of_fmap. apply (D a).
    by apply (proj1 (proj2 (canonicalize_good service _ Hpool))).
  - rewrite apply_no_chain_expiry. apply Forall_forall. by intros b (a & -> & _)%list_elem_of_fmap.
Qed.

Lemma run_resolve_service authority rs4 rs6 r4 r6 pending turn :
  let service := ss_service authority in
  room authority (length rs4 + length rs6) [r4; r6] -> rs4 ++ rs6 <> [] ->
  Forall (direct service DNS_TYPE_A) rs4 -> Forall (direct service DNS_TYPE_AAAA) rs6 ->
  answers_with 2 service DNS_TYPE_A rs4 r4 -> answers_with 1 service DNS_TYPE_AAAA rs6 r6 ->
  exists r s o4 o6, resolve_service authority (state [r4; r6] pending turn []) = (Ok r, s)
    /\ (0 <= o4 < span)%Z /\ (0 <= o6 < span)%Z
    /\ resolution_tells r [observation r4 o4; observation r6 o6] rs4 rs6 o4 o6.
Proof.
  intros service [Hn Hdepth [Ha Hres] (Hspan & Hla & Hlr) Hm Hc Hb] Hsome H4 H6 A4 A6.
  apply Forall_cons in Hb as [Hb4 [Hb6 _]%Forall_cons]. cbn [length] in Hm.
  pose proof (proj2 Hwindow turn) as Hnow. unfold resolve_service. fold service. cbv zeta. unfold checked_add_ms.
  rewrite (run_bind _ _ _ _ _ (run_now _ _ _ _)). cbn beta. rewrite (proj2 (Z.leb_le _ _)) by (cbn [instant_limit scripted]; lia).
  erewrite run_bind by reflexivity. cbn beta. set (c := mkResolverContext _ _ _ _).
  assert (context_ok c) as Hcok by (split; unfold c; cbn [rc_started rc_deadline rc_policy]; lia).
  destruct (run_resolve_record_type c service DNS_TYPE_A rs4 r4 [r6] pending (S turn) []) as (o4 & t4 & Ho4 & R4);
    [done|done|by left|done|done|done|cbn; lia|cbn; lia|cbn; lia|].
  rewrite (run_bind _ _ _ _ _ R4).
  destruct (run_resolve_record_type c service DNS_TYPE_AAAA rs6 r6 [] [] t4 [observation r4 o4]) as (o6 & t6 & Ho6 & R6);
    [done|done|by right|done|done|done|cbn; lia|cbn; lia|cbn; lia|].
  rewrite (run_bind _ _ _ _ _ R6). clear R4 R6.
  rewrite reconcile_direct by done. erewrite run_bind by reflexivity. cbn beta. cbn [rr_answers].
  change (terminal_name service []) with service. fold (direct_pool rs4 rs6 (identity r4) (identity r6) o4 o6).
  destruct (direct_pool_spec service rs4 rs6 (identity r4) (identity r6) o4 o6) as (Hpool & Hlen & T4 & T6 & _); [done|done|lia|lia|].
  pose proof (resolution_tells_pool service (rc_started c) authority ([] ++ [observation r4 o4] ++ [observation r6 o6])
    rs4 rs6 (identity r4) (identity r6) o4 o6 H4 H6 (proj1 Ho4) (proj1 Ho6)) as Htells.
  set (pool := direct_pool rs4 rs6 _ _ o4 o6) in *. clearbody pool.
  rewrite filter_all by (eapply Forall_impl; [exact Hpool|]; by intros a [H _]).
  destruct (canonicalize_good service _ Hpool) as (Hgood & _). pose proof (length_canonicalize pool) as Hcl.
  set (answers := apply_chain_expiry (canonicalize_answers pool) []) in *.
  assert (length answers = length (canonicalize_answers pool)) as Hal by (unfold answers, apply_chain_expiry; by rewrite length_map).
  assert (answers <> []) as Hne.
  { intros E. destruct Htells as [_ E4 E6 _ _]. cbn [dr_answers] in E4, E6. rewrite E in E4, E6.
    destruct rs4 as [|x l]; [destruct rs6 as [|x l]; [done|]|].
    - destruct (E6 x (list_elem_of_here _ _)) as (a & Hin & _). by apply elem_of_nil in Hin.
    - destruct (E4 x (list_elem_of_here _ _)) as (a & Hin & _). by apply elem_of_nil in Hin. }
  rewrite bool_decide_eq_false_2 by exact Hne. cbn [orb]. rewrite (proj2 (Z.ltb_ge _ _)) by lia.
  erewrite run_bind by reflexivity. cbn beta.
  assert (Forall (fun a => (span <= an_effective_expires_ns a)%Z) answers) as Hexp.
  { unfold answers. rewrite apply_no_chain_expiry. apply Forall_fmap. eapply Forall_impl; [exact Hgood|]. by intros a (_ & _ & H). }
  destruct (run_any_expired (rc_started c) answers [] [] t6 ([] ++ [observation r4 o4] ++ [observation r6 o6])) as [t7 R7];
    [apply (ctx_started _ Hcok)|done|done|].
  rewrite (run_bind _ _ _ _ _ R7). cbv iota.
  rewrite (run_bind _ _ _ _ _ (run_before_deadline (rc_deadline c) _ _ _ _ (ctx_deadline _ Hcok))).
  eexists _, _, o4, o6. split; [reflexivity|]. split; [done|]. split; [done|]. exact Htells.
Qed.
End window.

(** ** Replies in wire format *)

Lemma record_ok_later observed r : (0 <= observed < 2 ^ 63)%Z -> record_ok 0 r -> record_ok observed r.
Proof.
  intros Ho [R1 R2 (L1 & L2 & L3)]. split; [done|done|].
  unfold lifetime_ok, record_expires, u32_bound, u64_bound in *. lia.
Qed.
Lemma direct_no_alias service type message observed owner rs :
  type = DNS_TYPE_A \/ type = DNS_TYPE_AAAA -> Forall (direct service type) rs ->
  omap (expected_alias message observed owner) rs = [].
Proof.
  intros Ht. induction 1 as [|r rs [_ _ Hty _] _ IH]; [done|]. cbn [omap list_omap].
  assert (expected_alias message observed owner r = None) as ->; [|done].
  unfold expected_alias. destruct (ar_data r); cbn in Hty; subst type; [done..|by destruct Ht].
Qed.
(** The parser reads the replies that list the records, with the names of the owners
    written out or compressed. *)
Lemma response_forms_answers left service type forms :
  type = DNS_TYPE_A \/ type = DNS_TYPE_AAAA -> valid_name service -> (span <= 2 ^ 63)%Z ->
  Forall (direct service type) (map af_record forms) -> Forall (form_ok service) forms ->
  (Z.of_nat (length forms) < 65536)%Z ->
  answers_with left service type (map af_record forms) (response_forms (transaction left) service type forms).
Proof.
  intros Ht Hn Hspan Hrs Hforms Hlen observed Hobs.
  eexists. split; [apply parse_response_forms; try done; [lia| |]|].
  - unfold transaction. apply be_value_bound.
  - rewrite Forall_forall in Hrs. apply Forall_forall. intros f Hf.
    destruct (Hrs (af_record f)) as [Hok _ _ _]; [by apply list_elem_of_fmap_2|]. apply record_ok_later; [lia|done].
  - cbn [addresses cnames]. split; [done|]. by rewrite lookup_fmap, lookup_aliases, (direct_no_alias service type), lookup_empty.
Qed.
End scripted.

(** C38: a resolver that answers is enough.  Let the resolver answer the two queries
    of a service directly with its addresses, at least one of them, in replies of any
    form that the parser reads so, within the declared sizes and counts.  Let the
    stream accept and deliver the bytes in chunks of any sizes, which may change from
    call to call, and let every reading of the clock fall into a window no longer
    than the two declared deadlines and the lives of the records.  Then resolution
    succeeds: both replies are observed within the window, every address the resolver
    told is among the answers, with an expiry no later than that of the record that
    told it, and there are no other addresses. *)
Theorem resolve_service_live (chunk : nat -> nat) (clock : nat -> Z) (random : nat -> byte * byte)
    (hash : list byte -> list byte) (base span : Z) (authority : AuthenticatedServiceSession)
    (rs4 rs6 : list AnswerRecord) (r4 r6 pending : list byte) (turn : nat)
    (Hwindow : within_window clock base span)
    (Hroom : room base span authority (length rs4 + length rs6) [r4; r6]) (Hsome : rs4 ++ rs6 <> [])
    (H4 : Forall (direct span (ss_service authority) DNS_TYPE_A) rs4)
    (H6 : Forall (direct span (ss_service authority) DNS_TYPE_AAAA) rs6)
    (A4 : answers_with random hash span 2 (ss_service authority) DNS_TYPE_A rs4 r4)
    (A6 : answers_with random hash span 1 (ss_service authority) DNS_TYPE_AAAA rs6 r6) :
  exists r s o4 o6,
    resolve_service (network := scripted chunk clock random hash) authority (mkScriptedWorld [r4; r6] pending turn, [])
      = (Ok r, s)
    /\ (0 <= o4 < span)%Z /\ (0 <= o6 < span)%Z
    /\ resolution_tells r [observation hash r4 o4; observation hash r6 o6] rs4 rs6 o4 o6.
Proof. exact (run_resolve_service chunk clock random hash base span Hwindow authority rs4 rs6 r4 r6 pending turn Hroom Hsome H4 H6 A4 A6). Qed.

(** * Witnesses *)

(** A session to [api.example.com] over the scripted resolver; its hash is the
    first 32 bytes of the message. *)
Definition example_authority : AuthenticatedServiceSession :=
  mkSession (example_name "api.example.com") (mkTcpPort 443)
    (mkResolutionPolicy (mkResolverEndpoint (Ipv4 (repeat (mkb 1) 4)) (mkTcpPort 53))
       (path_at "/etc/resolver.conf") 2 4 512 50 10 Ipv4ThenIpv6Lexicographic)
    (mkTlsPolicy (path_at "/etc/ca.pem") Tls13 DnsSanExact NotCheckedRecordedAssumption)
    (mkServiceSessionLimits 100 1000 4096 4096 4 2 8192)
    (path_at "/usr/libexec/connector") [] UnixStreamV1 (mkChildChannelDescriptor 9) None.
(** Chunks of one to three bytes, and a clock that advances by some time in a turn, in
    the examples by 20 microseconds, for 400 turns. *)
Definition example_chunk (turn : nat) : nat := turn mod 3.
Definition ticking (step : Z) (turn : nat) : Z := (7000 + step * Z.of_nat (Nat.min turn 400))%Z.
Definition example_clock : nat -> Z := ticking 20000.
Definition example_random (left : nat) : byte * byte := (mkb 2, mkb (Z.of_nat left)).
Definition ticking_network (step : Z) : Network := scripted example_chunk (ticking step) example_random (take 32).
Definition example_network : Network := ticking_network 20000.
Definition example_start (script : list (list byte)) : NetState (network := example_network) :=
  (mkScriptedWorld script [] 0, []).
Lemma example_window : within_window example_clock 7000 8000001.
Proof. unfold within_window, example_clock, ticking. split; [lia|]. intros turn. lia. Qed.
(** The addresses of [example_records] are of the other name, so the first answer
    only gives the alias, and the second query follows it. *)
Definition aliased_script : list (list byte) :=
  [response_wire 516 (example_name "api.example.com") DNS_TYPE_A example_records;
   response_wire 515 (example_name "edge.example.net") DNS_TYPE_A [example_address 9 60; example_address 4 20];
   response_wire 514 (example_name "api.example.com") DNS_TYPE_AAAA [example_alias];
   response_wire 513 (example_name "edge.example.net") DNS_TYPE_AAAA []].
Definition outcome (step : Z) (script : list (list byte)) : result (fault DnsError) (list Address * list Z) :=
  match (resolve_service (network := ticking_network step) example_authority (mkScriptedWorld script [] 0, [])).1 with
  | Ok r => Ok (map an_address (dr_answers r), map an_effective_expires_ns (dr_answers r))
  | Err e => Err e
  end.
Lemma outcome_aliased :
  outcome 20000 aliased_script
  = Ok ([V4 (map mkb [192; 0; 2; 4]%Z); V4 (map mkb [192; 0; 2; 9]%Z)], [20006680000; 30003800000]%Z).
Proof. vm_compute. reflexivity. Qed.
(** With half a millisecond in a turn, the first attempt misses its ten milliseconds. *)
Lemma outcome_late : outcome 500000 aliased_script = Err (Failure Deadline).
Proof. vm_compute. reflexivity. Qed.
(** Without a response the resolver cannot be reached. *)
Lemma outcome_unavailable : outcome 20000 [] = Err (Failure ResolverUnavailable).
Proof. vm_compute. reflexivity. Qed.

Lemma sound_resolution {A B C} (P : A -> C -> Prop) (x : result (fault DnsError) A * (B * C)) :
  is_ok x.1 = true ->
  match x with
  | (Ok r, (_, messages)) => P r messages
  | (Err (Failure _), _) => True
  | (Err Panicked, _) => False
  end -> exists r, x.1 = Ok r /\ P r x.2.2.
Proof. destruct x as [[r|e] [w ms]]; [|done]. intros _ H. by exists r. Qed.
Lemma resolve_service_sound_witness :
  exists r, (resolve_service (network := example_network) example_authority (example_start aliased_script)).1 = Ok r
    /\ resolution_sound example_authority r
       /\ dr_messages r = (resolve_service (network := example_network) example_authority (example_start aliased_script)).2.2.
Proof.
  apply (sound_resolution (fun r messages => resolution_sound example_authority r /\ dr_messages r = messages)
    (resolve_service (network := example_network) example_authority (example_start aliased_script))).
  - vm_compute. reflexivity.
  - apply (resolve_service_sound (network := example_network) (H := scripted_laws _ _ _ _) example_authority
      (mkScriptedWorld aliased_script [] 0)).
    vm_compute. reflexivity.
Defined.

(** A reply whose first owner is compressed, and one without a record. *)
Definition direct_forms : list AnswerForm :=
  [mkAnswerForm true (mkAnswerRecord (example_name "api.example.com") (Data_A (map mkb [192; 0; 2; 4]%Z)) 20);
   mkAnswerForm false (mkAnswerRecord (example_name "api.example.com") (Data_A (map mkb [192; 0; 2; 9]%Z)) 60)].
Definition direct_reply : list byte := response_forms 514 (example_name "api.example.com") DNS_TYPE_A direct_forms.
Definition empty_reply : list byte := response_forms 513 (example_name "api.example.com") DNS_TYPE_AAAA [].
Lemma direct_records_ok :
  Forall (direct 8000001 (example_name "api.example.com") DNS_TYPE_A) (map af_record direct_forms).
Proof.
  repeat (apply Forall_cons; split); [..|constructor];
    (split; [split; [vm_compute; reflexivity|vm_compute; reflexivity|split; [done|split; [reflexivity|done]]]
            |reflexivity|reflexivity|vm_compute; discriminate]).
Qed.
Lemma direct_reply_answers :
  answers_with example_random (take 32) 8000001 2 (example_name "api.example.com") DNS_TYPE_A
    (map af_record direct_forms) direct_reply.
Proof.
  apply (response_forms_answers example_random (take 32) 8000001 2);
    [by left|vm_compute; reflexivity|lia|exact direct_records_ok| |reflexivity].
  repeat (apply Forall_cons; split); [..|constructor]; intros H; [|discriminate H].
  split; [reflexivity|]. apply Nat.ltb_lt. vm_compute. reflexivity.
Qed.
Lemma empty_reply_answers :
  answers_with example_random (take 32) 8000001 1 (example_name "api.example.com") DNS_TYPE_AAAA [] empty_reply.
Proof.
  by apply (response_forms_answers example_random (take 32) 8000001 1 _ _ []); [by right|vm_compute; reflexivity|lia|..].
Qed.
Lemma resolve_service_live_witness :
  exists r s, resolve_service (network := example_network) example_authority
      (mkScriptedWorld [direct_reply; empty_reply] [] 0, []) = (Ok r, s)
    /\ length (dr_messages r) = 2 /\ length (dr_answers r) >= 1.
Proof.
  destruct (resolve_service_live example_chunk example_clock example_random (take 32) 7000 8000001 example_authority
    (map af_record direct_forms) [] direct_reply empty_reply [] 0) as (r & s & o4 & o6 & Hr & _ & _ & Htells).
  - exact example_window.
  - split; [vm_compute; reflexivity|done|split; vm_compute; discriminate|split; [reflexivity|split; vm_compute; discriminate]
           |vm_compute; discriminate|vm_compute; discriminate|].
    repeat (apply Forall_cons; split); [..|constructor];
      (split; [vm_compute; lia|split; [vm_compute; discriminate|reflexivity]]).
  - discriminate.
  - exact direct_records_ok.
  - constructor.
  - exact direct_reply_answers.
  - exact empty_reply_answers.
  - exists r, s. split; [exact Hr|]. destruct Htells as [Hm H4 _ _ _]. split; [by rewrite Hm|].
    destruct (H4 _ (list_elem_of_here _ _)) as (a & Ha & _). clear - Ha.
    revert Ha. generalize (dr_answers r). intros l Ha. destruct l; [by apply elem_of_nil in Ha|cbn; lia].
Defined.
