(* ===== verification/JsonCbor.v ===== *)
(** JSON values as deterministic CBOR: the part that the codecs of
    [proofbound-runtime-compose/src/cbor_encode.rs], [cbor_decode.rs] and
    [proofbound-runtime-accept/src/cbor.rs] have in common.  A codec differs from
    the other in how it writes the string at a path and how it reads a number and
    a byte string back; those are the parameters of the sections below. *)
From S2P Require Import Prelude Identity.
From S2P Require WireV2 WireMaps VerifyCbor VerifyDecode.
From Stdlib Require Import Ascii ZArith Lia Sorted.
From stdpp Require Import prelude strings list numbers.
Export stdpp.list_relations.list.

(** * [serde_json::Value] *)

(** A number is a [u64], a negative [i64] or a float; an object is a
    [BTreeMap<String, Value>], listed in the order of its keys. *)
Inductive Json :=
| Json_Null
| Json_Bool (value : bool)
| Json_U64 (value : Z)
| Json_I64 (value : Z)
| Json_F64 (bits : Z)
| Json_String (value : string)
| Json_Array (values : list Json)
| Json_Object (members : list (string * Json)).

Section json_ind.
Context (P : Json -> Prop).
Hypothesis (Hnull : P Json_Null) (Hbool : forall b, P (Json_Bool b)) (Hu64 : forall z, P (Json_U64 z))
  (Hi64 : forall z, P (Json_I64 z)) (Hf64 : forall z, P (Json_F64 z)) (Hstring : forall s, P (Json_String s))
  (Harray : forall vs, Forall P vs -> P (Json_Array vs))
  (Hobject : forall kvs, Forall (fun kv => P kv.2) kvs -> P (Json_Object kvs)).
Fixpoint Json_rec_full (v : Json) : P v :=
  match v with
  | Json_Null => Hnull
  | Json_Bool b => Hbool b
  | Json_U64 z => Hu64 z
  | Json_I64 z => Hi64 z
  | Json_F64 z => Hf64 z
  | Json_String s => Hstring s
  | Json_Array vs =>
    Harray vs ((fix go vs : Forall P vs :=
      match vs with [] => Forall_nil_2 _ | v :: vs => Forall_cons_2 _ _ _ (Json_rec_full v) (go vs) end) vs)
  | Json_Object kvs =>
    Hobject kvs ((fix go kvs : Forall (fun kv => P kv.2) kvs :=
      match kvs with
      | [] => Forall_nil_2 _ | kv :: kvs => Forall_cons_2 _ _ _ (Json_rec_full kv.2) (go kvs)
      end) kvs)
  end.
End json_ind.

(** [Map::insert], and the insertion of any map with string keys. *)
Fixpoint object_insert {A} (key : string) (value : A) (members : list (string * A)) : list (string * A) :=
  match members with
  | [] => [(key, value)]
  | (k, v) :: rest =>
    if rlt key k then (key, value) :: members
    else if String.eqb key k then (key, value) :: rest
    else (k, v) :: object_insert key value rest
  end.
Definition object_of {A} (entries : list (string * A)) : list (string * A) :=
  fold_left (fun members kv => object_insert kv.1 kv.2 members) entries [].
(** [Map::remove]. *)
Definition object_remove (key : string) (members : list (string * Json)) : list (string * Json) :=
  filter (fun kv => kv.1 <> key) members.

Definition object_sorted {A} (members : list (string * A)) : Prop :=
  StronglySorted (fun l r => rlt l.1 r.1 = true) members.

(** * The encoder *)

Definition encoder := list byte -> result () (list byte).
Definition encode_argument : Z -> Z -> list byte -> list byte := WireV2.encode_argument.
Definition encode_length (major : Z) (length : nat) (output : list byte) : result () (list byte) :=
  length ← ok_or (try_from u64_bound (Z.of_nat length)) ();
  Ok (encode_argument major length output).
Definition encode_text (value : string) (output : list byte) : result () (list byte) :=
  output ← encode_length 3 (length (String.list_ascii_of_string value)) output;
  Ok (output ++ String.list_ascii_of_string value).
Definition encode_bytes (value : list byte) (output : list byte) : result () (list byte) :=
  output ← encode_length 2 (length value) output; Ok (output ++ value).

(** The loops over the elements and over the sorted entries. *)
Fixpoint run_encoders (encoders : list encoder) : encoder := fun output =>
  match encoders with
  | [] => Ok output
  | enc :: encoders => output ← enc output; run_encoders encoders output
  end.
Definition encode_object (values : list (string * encoder)) : encoder := fun output =>
  entries ← mapM (fun kv => encoded_key ← encode_text kv.1 []; Ok (encoded_key, kv.2)) values;
  let entries := sort_by WireV2.key_before entries in
  output ← encode_length 5 (length entries) output;
  run_encoders (map (fun (entry : list byte * encoder) output => entry.2 (output ++ entry.1)) entries) output.

Section encode.
(** [encode_string] of the codec. *)
Context (encode_string : string -> list string -> encoder).

(** [path] is pushed and popped around each member. *)
Fixpoint encode_json (value : Json) (path : list string) : encoder := fun output =>
  match value with
  | Json_Null => Ok (output ++ [mkb 0xf6])
  | Json_Bool value => Ok (output ++ [mkb (if value then 0xf5 else 0xf4)])
  | Json_U64 value => Ok (encode_argument 0 value output)
  | Json_I64 _ | Json_F64 _ => Err ()
  | Json_String value => encode_string value path output
  | Json_Array values =>
    output ← encode_length 4 (length values) output;
    run_encoders (map (fun value => encode_json value path) values) output
  | Json_Object values =>
    encode_object (map (fun kv => (kv.1, encode_json kv.2 (path ++ [kv.1]))) values) output
  end.
End encode.

(** * The projection *)

Section project.
Context (project_unsigned : Z -> list string -> Json) (project_bytes : list byte -> list string -> result () string).

Fixpoint project (value : VerifyCbor.Value) (path : list string) : result () Json :=
  match value with
  | VerifyCbor.Unsigned value => Ok (project_unsigned value path)
  | VerifyCbor.Negative argument => value ← ok_or (i64_try_from (-1 - argument)) (); Ok (Json_I64 value)
  | VerifyCbor.Bytes bytes => text ← project_bytes bytes path; Ok (Json_String text)
  | VerifyCbor.Text value => Ok (Json_String value)
  | VerifyCbor.Array values => values ← mapM (fun value => project value path) values; Ok (Json_Array values)
  | VerifyCbor.Map values =>
    entries ← mapM (fun kv => value ← project kv.2 (path ++ [kv.1]); Ok (kv.1, value)) values;
    Ok (Json_Object (object_of entries))
  | VerifyCbor.Bool value => Ok (Json_Bool value)
  | VerifyCbor.Null => Ok Json_Null
  end.
End project.

(** The decoder of both crates: the verifier's, with [()] for every error. *)
Definition decode : list byte -> result () VerifyCbor.Value := VerifyCbor.decode_with (fun _ => ()).

(** * Text forms of byte strings *)

Notation bytes_of := String.list_ascii_of_string.
Definition str_strip_prefix (prefix value : string) : option string :=
  String.string_of_list_ascii <$> strip_prefix_bytes (bytes_of prefix) (bytes_of value).
Definition one_of (value : string) (values : list string) : bool := existsb (String.eqb value) values.
Definition differs (a b : string) : bool := negb (String.eqb a b).
Definition is_empty_string (value : string) : bool := String.eqb value "".
Definition str_len (value : string) : nat := length (bytes_of value).

(** [chunks_exact(2)] visits the pairs that [unhex] indexes. *)
Definition parse_hex_exact (value : list byte) (size : nat) : result () (list byte) :=
  if negb (length value =? size * 2) then Err () else unhex () size value.
Definition uuid_dashes : list nat := [8; 13; 18; 23].
Definition parse_uuid (value : string) : result () (list byte) :=
  let bytes := String.list_ascii_of_string value in
  if negb (length bytes =? 36)
     || negb (forallb (fun index => bool_decide (bytes !! index = Some "-"%char)) uuid_dashes)
  then Err ()
  else parse_hex_exact (filter (fun byte => byte <> "-"%char) bytes) 16.

Definition parse_digest (value : string) : result () (list byte) :=
  hex ← ok_or (str_strip_prefix "sha256:" value) ();
  parse_hex_exact (bytes_of hex) 32.

Lemma parse_hex_exact_Ok value n l : parse_hex_exact value n = Ok l <-> value = hex_bytes l /\ length l = n.
Proof.
  unfold parse_hex_exact. split.
  - destruct (negb _) eqn:Hl; [done|]. apply negb_false_iff, Nat.eqb_eq in Hl. intros H.
    apply unhex_inv in H as [<- <-]; [done|lia].
  - intros [-> <-]. rewrite length_hex_bytes, (proj2 (Nat.eqb_eq _ _)) by lia. apply unhex_hex.
Qed.
Lemma hex_bytes_no_dash l : Forall (fun byte => byte <> "-"%char) (hex_bytes l).
Proof.
  induction l as [|b l IH]; [constructor|]. change (hex_bytes (b :: l)) with (hex_pair b ++ hex_bytes l).
  assert (forall z, (0 <= z < 16)%Z -> hex_char z <> "-"%char) as Hne.
  { intros z Hz He. pose proof (hex_nibble_char () z Hz) as H. rewrite He in H. discriminate H. }
  destruct (nibble_bounds b). apply Forall_app. split; [|done]. repeat constructor; by apply Hne.
Qed.
(** A list of 36 bytes with the four dashes, cut at them. *)
Lemma uuid_cut (l : list byte) :
  length l = 36 -> forallb (fun index => bool_decide (l !! index = Some "-"%char)) uuid_dashes = true ->
  exists a b c d e, length a = 8 /\ length b = 4 /\ length c = 4 /\ length d = 4 /\ length e = 12
    /\ l = a ++ "-"%char :: b ++ "-"%char :: c ++ "-"%char :: d ++ "-"%char :: e.
Proof.
  intros Hl Hd. do 36 (destruct l as [|? l]; [done|]). destruct l; [|done].
  cbn in Hd. repeat apply andb_true_iff in Hd as [?%bool_decide_eq_true Hd]. simplify_eq.
  match goal with |- context [?x1 :: ?x2 :: ?x3 :: ?x4 :: ?x5 :: ?x6 :: ?x7 :: ?x8 :: _ :: ?y1 :: ?y2 :: ?y3 :: ?y4 :: _
    :: ?z1 :: ?z2 :: ?z3 :: ?z4 :: _ :: ?u1 :: ?u2 :: ?u3 :: ?u4 :: _ :: ?e] =>
    exists [x1; x2; x3; x4; x5; x6; x7; x8], [y1; y2; y3; y4], [z1; z2; z3; z4], [u1; u2; u3; u4], e end.
  done.
Qed.
Lemma uuid_slices a b c d e :
  length a = 8 -> length b = 4 -> length c = 4 -> length d = 4 -> length e = 12 ->
  let l := a ++ b ++ c ++ d ++ e in
  VerifyDecode.slice l 0 8 = a /\ VerifyDecode.slice l 8 12 = b /\ VerifyDecode.slice l 12 16 = c
  /\ VerifyDecode.slice l 16 20 = d /\ VerifyDecode.slice l 20 32 = e.
Proof.
  intros Ha Hb Hc Hd He. unfold VerifyDecode.slice. cbn [Nat.sub].
  do 8 (destruct a as [|? a]; [done|]); destruct a; [|done].
  do 4 (destruct b as [|? b]; [done|]); destruct b; [|done].
  do 4 (destruct c as [|? c]; [done|]); destruct c; [|done].
  do 4 (destruct d as [|? d]; [done|]); destruct d; [|done].
  do 12 (destruct e as [|? e]; [done|]); destruct e; [|done]. done.
Qed.
Lemma uuid_parts (l : list byte) :
  length l = 32 -> exists a b c d e, length a = 8 /\ length b = 4 /\ length c = 4 /\ length d = 4 /\ length e = 12
    /\ l = a ++ b ++ c ++ d ++ e.
Proof.
  intros Hl. exists (VerifyDecode.slice l 0 8), (VerifyDecode.slice l 8 12), (VerifyDecode.slice l 12 16),
    (VerifyDecode.slice l 16 20), (VerifyDecode.slice l 20 32).
  do 32 (destruct l as [|? l]; [done|]). by destruct l.
Qed.
(** [parse_uuid] reads exactly the texts of sixteen bytes. *)
Lemma parse_uuid_Ok value l : parse_uuid value = Ok l <-> value = VerifyDecode.uuid_text l /\ length l = 16.
Proof.
  unfold parse_uuid. split.
  - destruct (_ || _) eqn:Hc; [done|]. apply orb_false_iff in Hc as [Hl%negb_false_iff%Nat.eqb_eq Hd%negb_false_iff].
    destruct (uuid_cut _ Hl Hd) as (a & b & c & d & e & Ha & Hb & Hc' & Hd' & He & Heq).
    intros [Hf Hlen]%parse_hex_exact_Ok. split; [|done]. unfold VerifyDecode.uuid_text.
    set (keep := fun byte : ascii => byte <> "-"%char) in Hf.
    assert (filter keep (String.list_ascii_of_string value)
      = filter keep a ++ filter keep b ++ filter keep c ++ filter keep d ++ filter keep e) as Hcut.
    { rewrite Heq. unfold keep. rewrite !list_basics.list.filter_app, !filter_cons_False by naive_solver.
      rewrite !list_basics.list.filter_app, !filter_cons_False by naive_solver.
      rewrite !list_basics.list.filter_app, !filter_cons_False by naive_solver.
      rewrite !list_basics.list.filter_app, !filter_cons_False by naive_solver. done. }
    assert (forall x, length (filter keep x) <= length x) as Hle by (intros x; apply length_filter).
    assert (forall x : list ascii, length x <= length (filter keep x) -> filter keep x = x) as Hfull.
    { intros x. induction x as [|y x IH]; [done|]. rewrite filter_cons. destruct (decide (keep y)); cbn; intros Hx.
      - f_equal. apply IH. lia.
      - specialize (Hle x). lia. }
    assert (length (hex_bytes l) = 32) as H32 by (rewrite length_hex_bytes; lia).
    rewrite <- Hf, Hcut, !length_app in H32.
    pose proof (Hle a); pose proof (Hle b); pose proof (Hle c); pose proof (Hle d); pose proof (Hle e).
    rewrite (Hfull a), (Hfull b), (Hfull c), (Hfull d), (Hfull e) in Hcut by lia. rewrite <- Hf, Hcut.
    destruct (uuid_slices a b c d e Ha Hb Hc' Hd' He) as (-> & -> & -> & -> & ->).
    apply (inj String.list_ascii_of_string). rewrite String.list_ascii_of_string_of_list_ascii, Heq. done.
  - intros [-> Hl]. pose proof (length_hex_bytes l) as Hh. rewrite Hl in Hh. unfold VerifyDecode.uuid_text.
    assert (parse_hex_exact (hex_bytes l) 16 = Ok l) as Hp by by apply parse_hex_exact_Ok.
    pose proof (hex_bytes_no_dash l) as Hf. revert Hp Hf. generalize (hex_bytes l), Hh. clear Hh. intros h Hh Hp Hf.
    destruct (uuid_parts h Hh) as (a & b & c & d & e & Ha & Hb & Hc & Hd & He & ->).
    destruct (uuid_slices a b c d e Ha Hb Hc Hd He) as (-> & -> & -> & -> & ->).
    rewrite String.list_ascii_of_string_of_list_ascii.
    apply Forall_app in Hf as [Fa [Fb [Fc [Fd Fe]%Forall_app]%Forall_app]%Forall_app].
    rewrite !length_app, Ha, Hb, Hc, Hd, He. cbn [length Nat.eqb Nat.add negb orb].
    assert (forallb (fun index => bool_decide
      ((a ++ ["-"%char] ++ b ++ ["-"%char] ++ c ++ ["-"%char] ++ d ++ ["-"%char] ++ e) !! index = Some "-"%char))
      uuid_dashes = true) as ->.
    { do 8 (destruct a as [|? a]; [done|]); destruct a; [|done]. do 4 (destruct b as [|? b]; [done|]); destruct b; [|done].
      do 4 (destruct c as [|? c]; [done|]); destruct c; [|done]. do 4 (destruct d as [|? d]; [done|]); destruct d; [|done]. done. }
    cbn [negb]. rewrite <- Hp. f_equal. rewrite !list_basics.list.filter_app.
    assert (filter (fun byte => byte <> "-"%char) ["-"%char] = []) as -> by reflexivity.
    rewrite !filter_all by done. done.
Qed.

Lemma bytes_inj a b : bytes_of a = bytes_of b -> a = b.
Proof. apply (inj String.list_ascii_of_string). Qed.
Lemma bytes_append a b : bytes_of (String.append a b) = bytes_of a ++ bytes_of b.
Proof. induction a as [|c a IH]; [done|]. exact (f_equal (cons c) IH). Qed.
Lemma bytes_hex l : bytes_of (VerifyDecode.hex l) = hex_bytes l.
Proof. apply String.list_ascii_of_string_of_list_ascii. Qed.
Lemma str_strip_prefix_Some p v r : str_strip_prefix p v = Some r <-> v = String.append p r.
Proof.
  unfold str_strip_prefix. split.
  - intros (l & Hl%strip_prefix_bytes_Some & ->)%fmap_Some. apply bytes_inj.
    by rewrite bytes_append, String.list_ascii_of_string_of_list_ascii.
  - intros ->. rewrite bytes_append. rewrite (proj2 (strip_prefix_bytes_Some _ _ (bytes_of r)) eq_refl). cbn.
    f_equal. apply String.string_of_list_ascii_of_string.
Qed.
Lemma parse_digest_Ok value l :
  parse_digest value = Ok l <-> value = String.append "sha256:" (VerifyDecode.hex l) /\ length l = 32.
Proof.
  unfold parse_digest. rewrite bind_Ok. split.
  - intros (h & Hh%ok_or_Ok%str_strip_prefix_Some & [Heq Hl]%parse_hex_exact_Ok). split; [|done]. subst value.
    f_equal. apply bytes_inj. by rewrite bytes_hex.
  - intros [-> Hl]. eexists. split; [apply ok_or_Ok, str_strip_prefix_Some; reflexivity|].
    apply parse_hex_exact_Ok. by rewrite bytes_hex.
Qed.

Lemma differs_true a b : differs a b = true <-> a <> b.
Proof. unfold differs. rewrite negb_true_iff. apply String.eqb_neq. Qed.
Lemma one_of_true v l : one_of v l = true <-> v ∈ l.
Proof.
  unfold one_of. rewrite existsb_exists. setoid_rewrite String.eqb_eq. setoid_rewrite list_elem_of_In. naive_solver.
Qed.

(** * Lemmas: objects *)

#[export] Instance object_order_antisymm {A} :
  AntiSymm (=) (fun l r : string * A => rlt l.1 r.1 = true).
Proof. intros l r Hl Hr. rewrite (rlt_asym _ _ Hl) in Hr. done. Qed.
Lemma object_sorted_unique {A} (l k : list (string * A)) : object_sorted l -> object_sorted k -> l ≡ₚ k -> l = k.
Proof. apply sorting.StronglySorted_unique. apply _. Qed.
Lemma object_sorted_NoDup {A} (l : list (string * A)) : object_sorted l -> NoDup l.*1.
Proof.
  induction 1 as [|[k v] l Hs IH Hx]; cbn; constructor; [|done].
  intros (kv & -> & Hin)%list_elem_of_fmap. rewrite Forall_forall in Hx. apply Hx in Hin. cbn in Hin.
  by rewrite rlt_irrefl in Hin.
Qed.
Lemma object_insert_Permutation {A} k (v : A) l :
  object_sorted l -> k ∉ l.*1 -> object_insert k v l ≡ₚ (k, v) :: l /\ object_sorted (object_insert k v l).
Proof.
  intros Hl. induction Hl as [|[k' v'] l Hs IH Hx]; intros Hk; cbn.
  - split; [done|]. repeat constructor.
  - cbn in Hk. apply not_elem_of_cons in Hk as [Hne Hk].
    destruct (rlt k k') eqn:Hlt.
    + split; [done|]. constructor; [by constructor|]. constructor; [done|].
      eapply Forall_impl; [exact Hx|]. cbn. intros kv. by apply rlt_trans.
    + rewrite (proj2 (String.eqb_neq k k')) by done. destruct (IH Hk) as [Hp Hsort]. split.
      * rewrite Hp. apply Permutation_swap.
      * constructor; [done|]. rewrite Hp. constructor; [|done]. cbn.
        destruct (rlt_total k k') as [|[|]]; [congruence|done|done].
Qed.
Lemma object_of_spec {A} (l : list (string * A)) :
  NoDup l.*1 -> object_of l ≡ₚ l /\ object_sorted (object_of l).
Proof.
  intros Hnd. unfold object_of.
  cut (forall m, object_sorted m -> NoDup (l ++ m).*1 ->
    fold_left (fun members kv => object_insert kv.1 kv.2 members) l m ≡ₚ l ++ m
    /\ object_sorted (fold_left (fun members kv => object_insert kv.1 kv.2 members) l m)).
  { intros H. destruct (H []) as [Hp Hs]; [constructor|by rewrite app_nil_r|]. by rewrite app_nil_r in Hp. }
  clear Hnd. induction l as [|[k v] l IH]; intros m Hm Hnd; [done|]. cbn in Hnd.
  apply NoDup_cons in Hnd as [Hni Hnd].
  assert (k ∉ m.*1) as Hkm by (rewrite fmap_app in Hni; set_solver).
  destruct (object_insert_Permutation k v m Hm Hkm) as [Hp Hs]. cbn [fold_left fst snd].
  destruct (IH _ Hs) as [Hp' Hs'].
  - rewrite Hp. rewrite fmap_app. cbn. rewrite <- Permutation_middle. rewrite <- fmap_app. by constructor.
  - split; [|done]. rewrite Hp', Hp. cbn. by rewrite <- Permutation_middle.
Qed.
(** Inserting the members of an object in any order rebuilds it. *)
Lemma object_of_members {A} (l m : list (string * A)) : object_sorted m -> l ≡ₚ m -> object_of l = m.
Proof.
  intros Hm Hp. assert (NoDup l.*1) as Hnd by (rewrite Hp; by apply object_sorted_NoDup).
  destruct (object_of_spec l Hnd) as [Hp' Hs]. apply object_sorted_unique; [done|done|]. by rewrite Hp', Hp.
Qed.

(** * Lemmas: the encoder *)

Lemma mapM_None_Permutation {A B} (f : A -> option B) l k : l ≡ₚ k -> mapM f l = None -> mapM f k = None.
Proof. rewrite !mapM_None. intros Hp. by rewrite Hp. Qed.
Lemma mapM_Permutation_Ok {E A B} (f : A -> result E B) (l l' : list A) (k' : list B) :
  l' ≡ₚ l -> mapM f l = Ok k' -> exists k, k ≡ₚ k' /\ mapM f l' = Ok k.
Proof.
  intros Hp. revert k'. induction Hp as [|x l l' Hp IH|x y l|l l' l'' H1 IH1 H2 IH2]; intros k' Hk.
  - by exists k'.
  - cbn in Hk |- *. apply bind_Ok in Hk as (y & Hy & (ys & Hys & [= <-])%bind_Ok).
    destruct (IH _ Hys) as (k & Hkp & Hk). exists (y :: k).
    split; [by apply Permutation_skip|]. cbn. rewrite Hy. cbn. by rewrite Hk.
  - cbn in Hk. apply bind_Ok in Hk as (a & Ha & (ys & Hys & [= <-])%bind_Ok).
    apply bind_Ok in Hys as (b & Hb & (zs & Hzs & [= <-])%bind_Ok). exists (b :: a :: zs).
    split; [apply Permutation_swap|]. cbn. by rewrite Hb, Ha; cbn; rewrite Hzs.
  - destruct (IH2 _ Hk) as (k1 & Hk1 & Hm). destruct (IH1 _ Hm) as (k2 & Hk2 & Hm'). exists k2. split; [by etransitivity|done].
Qed.
Lemma mapM_total_map {A B} (f : A -> option B) (g : A -> B) l :
  Forall (fun a => f a = Some (g a)) l -> mapM f l = Some (map g l).
Proof. induction 1 as [|a l Ha _ IH]; cbn; [done|]. by rewrite Ha, IH. Qed.

(** Bounds on the encoding of a value, whatever its strings are written as. *)
Fixpoint json_nesting (v : Json) : nat :=
  match v with
  | Json_Array vs => WireV2.max_list (map (fun v => S (json_nesting v)) vs)
  | Json_Object kvs => WireV2.max_list (map (fun kv => S (json_nesting kv.2)) kvs)
  | _ => 0
  end.
Fixpoint json_items (v : Json) : Z :=
  match v with
  | Json_Array vs => (1 + WireV2.sum_list (map json_items vs))%Z
  | Json_Object kvs => (1 + WireV2.sum_list (map (fun kv => 1 + json_items kv.2) kvs))%Z
  | _ => 1
  end.
Fixpoint json_weight (v : Json) : Z :=
  match v with
  | Json_String s => (41 + WireMaps.text_length s)%Z
  | Json_Array vs => (9 + WireV2.sum_list (map json_weight vs))%Z
  | Json_Object kvs => (9 + WireV2.sum_list (map (fun kv => 9 + WireMaps.text_length kv.1 + json_weight kv.2) kvs))%Z
  | _ => 9%Z
  end.
Definition json_within_limits (v : Json) : bool :=
  (json_nesting v <=? WireV2.MAX_DEPTH) && (json_items v <=? WireV2.MAX_ITEMS)%Z && (json_weight v <=? WireV2.MAX_BYTES)%Z.

Section encode_lemmas.
Context (encode_string : string -> list string -> encoder).
(** What the string at a path is written as. *)
Context (string_value : string -> list string -> option WireV2.Value).

(** The value a JSON value stands for. *)
Fixpoint wire_value (path : list string) (value : Json) : option WireV2.Value :=
  match value with
  | Json_Null => Some WireV2.Null
  | Json_Bool value => Some (WireV2.Bool value)
  | Json_U64 value => Some (WireV2.Unsigned value)
  | Json_I64 _ | Json_F64 _ => None
  | Json_String value => string_value value path
  | Json_Array values => WireV2.Array <$> mapM (wire_value path) values
  | Json_Object values =>
    WireV2.Map <$> mapM (fun kv => w ← wire_value (path ++ [kv.1]) kv.2; Some (kv.1, w)) values
  end.

(** The values [serde_json] and memory can hold. *)
Fixpoint json_typed (value : Json) : Prop :=
  match value with
  | Json_U64 value => WireV2.in_u64 value = true
  | Json_String value => WireV2.text_ok value = true
  | Json_Array values => WireV2.in_u64 (Z.of_nat (length values)) = true /\ foldr (fun v P => json_typed v /\ P) True values
  | Json_Object values =>
    WireV2.in_u64 (Z.of_nat (length values)) = true /\ object_sorted values
    /\ foldr (fun kv P => (WireV2.text_ok kv.1 = true /\ json_typed kv.2) /\ P) True values
  | _ => True
  end.
Lemma foldr_Forall {A} (Q : A -> Prop) l : foldr (fun a P => Q a /\ P) True l <-> Forall Q l.
Proof. induction l as [|a l IH]; cbn; [done|]. rewrite IH, Forall_cons. done. Qed.

Fixpoint json_typed_bool (value : Json) : bool :=
  match value with
  | Json_U64 value => WireV2.in_u64 value
  | Json_String value => WireV2.text_ok value
  | Json_Array values => WireV2.in_u64 (Z.of_nat (length values)) && forallb json_typed_bool values
  | Json_Object values =>
    WireV2.in_u64 (Z.of_nat (length values)) && windows_all (fun l r => rlt l.1 r.1) values
    && forallb (fun kv => WireV2.text_ok kv.1 && json_typed_bool kv.2) values
  | _ => true
  end.
Lemma json_typed_bool_spec v : json_typed_bool v = true -> json_typed v.
Proof.
  induction v as [| | | | |s|vs IH|kvs IH] using Json_rec_full; cbn; try done.
  - rewrite andb_true_iff, forallb_Forall', foldr_Forall. intros [Hl Hv]. split; [done|].
    rewrite Forall_forall in *. auto.
  - rewrite !andb_true_iff, forallb_Forall', foldr_Forall. intros [[Hl Hs] Hv]. split; [done|]. split.
    + apply (windows_all_StronglySorted (fun l r : string * Json => rlt l.1 r.1)); [|done]. intros a b c. apply rlt_trans.
    + rewrite Forall_forall in *. intros kv Hkv. specialize (Hv kv Hkv). apply andb_true_iff in Hv as [? ?]. auto.
Qed.

(** An encoder that appends [w], or fails. *)
Definition emits (enc : encoder) (w : option (list byte)) : Prop :=
  forall out, enc out = match w with Some w => Ok (out ++ w) | None => Err () end.
Hypothesis encode_string_emits : forall s path, WireV2.text_ok s = true ->
  emits (encode_string s path) (WireV2.wire <$> string_value s path).
Hypothesis string_value_ok : forall s path w, WireV2.text_ok s = true -> string_value s path = Some w ->
  WireMaps.encodable w = true /\ WireV2.canon w = w.

Lemma encode_length_emits major n :
  (Z.of_nat n < u64_bound)%Z -> emits (encode_length major n) (Some (WireV2.encode_argument major (Z.of_nat n) [])).
Proof.
  intros Hn out. unfold encode_length. rewrite (proj2 (try_from_Some _ _ (Z.of_nat n))) by lia. cbn.
  unfold encode_argument. by rewrite WireV2.encode_argument_app by lia.
Qed.
Lemma encode_text_emits s : WireV2.text_ok s = true -> emits (encode_text s) (Some (WireV2.text_wire s)).
Proof.
  intros [_ Hs]%WireV2.text_ok_spec out. unfold encode_text. rewrite encode_length_emits by done. cbn.
  by rewrite <- app_assoc.
Qed.
Lemma run_encoders_emits {A} (enc : A -> encoder) (w : A -> option (list byte)) l :
  Forall (fun a => emits (enc a) (w a)) l -> emits (run_encoders (map enc l)) (@concat byte <$> mapM w l).
Proof.
  induction 1 as [|a l Ha _ IH]; intros out; cbn; [by rewrite app_nil_r|].
  rewrite Ha. destruct (w a) as [x|]; cbn; [|done]. rewrite IH. destruct (mapM w l) as [xs|]; cbn; [|done].
  by rewrite app_assoc.
Qed.
Section object.
Context (path : list string) (kvs : list (string * Json)).
Let enc (kv : string * Json) : encoder := encode_json encode_string kv.2 (path ++ [kv.1]).
Let wv (kv : string * Json) : option WireV2.Value := wire_value (path ++ [kv.1]) kv.2.
Let sorted : list (string * Json) := sort_by (fun a b => rlt (WireV2.text_wire a.1) (WireV2.text_wire b.1)) kvs.
Hypothesis (Hlen : WireV2.in_u64 (Z.of_nat (length kvs)) = true)
  (Hkeys : Forall (fun kv => WireV2.text_ok kv.1 = true) kvs)
  (Henc : Forall (fun kv => emits (enc kv) ((WireV2.wire ∘ WireV2.canon) <$> wv kv)) kvs).

Lemma encode_object_emits :
  emits (encode_object (map (fun kv => (kv.1, enc kv)) kvs))
    ((fun parts => WireV2.encode_argument 5 (Z.of_nat (length kvs)) [] ++ concat parts)
     <$> mapM (fun kv => (fun b => WireV2.text_wire kv.1 ++ b) <$> ((WireV2.wire ∘ WireV2.canon) <$> wv kv)) sorted).
Proof.
  intros out. unfold encode_object.
  assert (mapM (fun kv : string * encoder => encoded_key ← encode_text kv.1 []; Ok (encoded_key, kv.2))
    (map (fun kv => (kv.1, enc kv)) kvs) = Ok (map (fun kv => (WireV2.text_wire kv.1, enc kv)) kvs)) as ->.
  { apply (mapM_Ok_map _ (fun kv => (kv.1, enc kv)) (fun kv => (WireV2.text_wire kv.1, enc kv))).
    intros kv Hin. cbn. rewrite Forall_forall in Hkeys. by rewrite encode_text_emits by by apply Hkeys. }
  cbn [mbind result_bind]. cbv zeta.
  assert (sort_by WireV2.key_before (map (fun kv => (WireV2.text_wire kv.1, enc kv)) kvs)
    = map (fun kv => (WireV2.text_wire kv.1, enc kv)) sorted) as ->
    by (symmetry; apply (sort_by_fmap (fun kv : string * Json => (WireV2.text_wire kv.1, enc kv))); done).
  rewrite length_map. assert (length sorted = length kvs) as Hl by (unfold sorted; by rewrite sort_by_Permutation).
  apply WireV2.in_u64_spec in Hlen. rewrite Hl, encode_length_emits by lia. cbn [mbind result_bind].
  rewrite map_map. cbn [fst snd].
  rewrite (run_encoders_emits (fun kv out => enc kv (out ++ WireV2.text_wire kv.1))
    (fun kv => (fun b => WireV2.text_wire kv.1 ++ b) <$> ((WireV2.wire ∘ WireV2.canon) <$> wv kv))).
  - destruct (mapM _ sorted); cbn; [|done]. by rewrite <- app_assoc.
  - unfold sorted. rewrite sort_by_Permutation. eapply Forall_impl; [exact Henc|]. intros kv He out'. rewrite He.
    destruct (wv kv); cbn; [|done]. by rewrite <- app_assoc.
Qed.
Lemma object_value_wire :
  (fun parts => WireV2.encode_argument 5 (Z.of_nat (length kvs)) [] ++ concat parts)
    <$> mapM (fun kv => (fun b => WireV2.text_wire kv.1 ++ b) <$> ((WireV2.wire ∘ WireV2.canon) <$> wv kv)) sorted
  = (WireV2.wire ∘ WireV2.canon) <$> (WireV2.Map <$> mapM (fun kv => w ← wv kv; Some (kv.1, w)) kvs).
Proof.
  destruct (mapM (fun kv => w ← wv kv; Some (kv.1, w)) kvs) as [ws|] eqn:Hws.
  - set (g := fun kv => default WireV2.Null (wv kv)).
    assert (Forall (fun kv => wv kv = Some (g kv)) kvs) as Hg.
    { apply Forall_forall. intros kv Hin. apply mapM_Some_1 in Hws.
      destruct (Prelude.Forall2_elem_left _ _ _ _ Hws Hin) as (w & _ & Hw). cbn in Hw.
      unfold g. destruct (wv kv); [done|]. discriminate Hw. }
    assert (ws = map (fun kv => (kv.1, g kv)) kvs) as ->.
    { rewrite (mapM_total_map _ (fun kv => (kv.1, g kv))) in Hws; [by injection Hws|].
      eapply Forall_impl; [exact Hg|]. cbn. intros kv ->. done. }
    rewrite (mapM_total_map _ (fun kv => WireV2.text_wire kv.1 ++ WireV2.wire (WireV2.canon (g kv)))).
    2: { unfold sorted. rewrite sort_by_Permutation. eapply Forall_impl; [exact Hg|]. cbn. by intros kv ->. }
    cbn. f_equal. rewrite map_map. cbn.
    assert (sort_by (fun l r : string * WireV2.Value => WireV2.key_lt l.1 r.1) (map (fun kv => (kv.1, WireV2.canon (g kv))) kvs)
      = map (fun kv => (kv.1, WireV2.canon (g kv))) sorted) as ->
      by (symmetry; apply (sort_by_fmap (fun kv : string * Json => (kv.1, WireV2.canon (g kv)))); done).
    rewrite map_map, length_map. cbn.
    assert (length sorted = length kvs) as -> by (unfold sorted; by rewrite sort_by_Permutation). done.
  - cbn. apply fmap_None. apply (mapM_None_Permutation _ kvs); [unfold sorted; by rewrite sort_by_Permutation|].
    apply mapM_None in Hws. apply mapM_None. eapply Exists_impl; [exact Hws|]. cbn. intros kv. by destruct (wv kv).
Qed.
End object.

Lemma encode_json_emits v path :
  json_typed v ->
  emits (encode_json encode_string v path) ((WireV2.wire ∘ WireV2.canon) <$> wire_value path v).
Proof.
  revert path. induction v as [| | | | |s|vs IH|kvs IH] using Json_rec_full; intros path Hty; try done.
  - intros out. cbn. unfold encode_argument. apply WireV2.in_u64_spec in Hty.
    by rewrite WireV2.encode_argument_app by lia.
  - intros out. cbn. rewrite encode_string_emits by done.
    destruct (string_value s path) as [w|] eqn:Hw; cbn; [|done]. by rewrite (proj2 (string_value_ok _ _ _ Hty Hw)).
  - destruct Hty as [Hlen%WireV2.in_u64_spec Hvs%foldr_Forall]. intros out. cbn [encode_json wire_value].
    rewrite encode_length_emits by lia. cbn [mbind result_bind].
    rewrite (run_encoders_emits _ (fun v => (WireV2.wire ∘ WireV2.canon) <$> wire_value path v)).
    + destruct (mapM (wire_value path) vs) as [ws|] eqn:Hws; cbn.
      * apply mapM_Some_1 in Hws.
        assert (mapM (fun v => (WireV2.wire ∘ WireV2.canon) <$> wire_value path v) vs
          = Some (map (WireV2.wire ∘ WireV2.canon) ws)) as ->.
        { clear -Hws. induction Hws as [|v w vs ws Hv _ IH]; cbn; [done|]. rewrite Hv. cbn. by rewrite IH. }
        cbn. rewrite length_map, map_map, <- (Forall2_length _ _ _ Hws). by rewrite <- app_assoc.
      * assert (mapM (fun v => (WireV2.wire ∘ WireV2.canon) <$> wire_value path v) vs = None) as ->; [|done].
        apply mapM_None in Hws. apply mapM_None. eapply Exists_impl; [exact Hws|]. cbn. by intros v ->.
    + rewrite Forall_forall in IH, Hvs |- *. intros v Hin. apply IH; auto.
  - destruct Hty as (Hlen & _ & Hkvs%foldr_Forall). cbn [encode_json wire_value].
    rewrite <- object_value_wire. apply encode_object_emits; [done|..].
    + eapply Forall_impl; [exact Hkvs|]. by intros kv [? _].
    + rewrite Forall_forall in IH, Hkvs |- *. intros kv Hin. apply IH; [done|]. by apply Hkvs.
Qed.
Lemma json_wire_encodable v path w :
  json_typed v -> wire_value path v = Some w -> WireMaps.encodable w = true.
Proof.
  revert path w. induction v as [| | | | |s|vs IH|kvs IH] using Json_rec_full; intros path w Hty Hw; cbn in Hw;
    try discriminate; try (by injection Hw as <-).
  - injection Hw as <-. by apply WireMaps.encodable_Unsigned.
  - by eapply string_value_ok.
  - destruct Hty as [Hlen Hvs%foldr_Forall]. apply fmap_Some in Hw as (ws & Hws%mapM_Some_1 & ->).
    rewrite (Forall2_length _ _ _ Hws) in Hlen. apply WireMaps.encodable_Array; [done|].
    apply forallb_Forall'. apply Forall_forall. intros x Hx.
    destruct (Prelude.Forall2_elem_right _ _ _ _ Hws Hx) as (v & Hv & Hvx).
    rewrite Forall_forall in IH, Hvs. eapply IH; [done|by apply Hvs|done].
  - destruct Hty as (Hlen & Hsort & Hkvs%foldr_Forall). apply fmap_Some in Hw as (ws & Hws%mapM_Some_1 & ->).
    rewrite (Forall2_length _ _ _ Hws) in Hlen.
    assert (ws.*1 = kvs.*1) as Hk.
    { clear -Hws. induction Hws as [|kv x kvs ws Hv _ IH]; cbn; [done|]. apply bind_Some in Hv as (w & _ & [= <-]).
      cbn. by f_equal. }
    assert (Forall (fun kv => WireV2.text_ok kv.1 = true /\ WireMaps.encodable kv.2 = true) ws) as Hws'.
    { apply Forall_forall. intros x Hx. destruct (Prelude.Forall2_elem_right _ _ _ _ Hws Hx) as (kv & Hkv & Hx').
      apply bind_Some in Hx' as (w & Hw & [= <-]). rewrite Forall_forall in IH, Hkvs.
      destruct (Hkvs _ Hkv) as [Ht Hj]. split; [done|]. by eapply IH. }
    apply WireMaps.encodable_Map; [done| | |].
    + apply forallb_Forall'. eapply Forall_impl; [exact Hws'|]. by intros kv [? _].
    + apply bool_decide_eq_true. rewrite Hk. by apply object_sorted_NoDup.
    + apply forallb_Forall'. eapply Forall_impl; [exact Hws'|]. by intros kv [_ ?].
Qed.

(** ** Size *)

Lemma wire_value_Array path vs :
  Forall (fun v => is_Some (wire_value path v)) vs -> is_Some (wire_value path (Json_Array vs)).
Proof. intros H. cbn [wire_value]. apply fmap_is_Some, mapM_is_Some. exact H. Qed.
Lemma wire_value_Object path kvs :
  Forall (fun kv => is_Some (wire_value (path ++ [kv.1]) kv.2)) kvs -> is_Some (wire_value path (Json_Object kvs)).
Proof.
  intros H. cbn [wire_value]. apply fmap_is_Some, mapM_is_Some. eapply Forall_impl; [exact H|].
  cbn. intros kv [w ->]. by eexists.
Qed.
Section size.
Hypothesis string_value_small : forall s path w, string_value s path = Some w ->
  WireV2.nesting w = 0 /\ WireV2.item_count w = 1%Z /\ (WireMaps.weight w <= 41 + WireMaps.text_length s)%Z.

Lemma wire_value_size path v w :
  wire_value path v = Some w ->
  WireV2.nesting w = json_nesting v /\ WireV2.item_count w = json_items v /\ (WireMaps.weight w <= json_weight v)%Z.
Proof.
  revert path w. induction v as [| | | | |s|vs IH|kvs IH] using Json_rec_full; intros path w Hw; cbn in Hw;
    try discriminate; try (by injection Hw as <-).
  - by eapply string_value_small.
  - apply fmap_Some in Hw as (ws & Hws%mapM_Some_1 & ->). cbn. unfold WireV2.sum_list, WireV2.max_list.
    clear -IH Hws. induction Hws as [|v w vs ws Hv _ IHw]; cbn; [lia|].
    destruct (Forall_inv IH _ _ Hv) as (-> & -> & ?). destruct (IHw (Forall_inv_tail IH)) as (? & ? & ?). lia.
  - apply fmap_Some in Hw as (ws & Hws%mapM_Some_1 & ->). cbn. unfold WireV2.sum_list, WireV2.max_list.
    clear -IH Hws. induction Hws as [|kv x kvs ws Hv _ IHw]; cbn; [lia|]. apply bind_Some in Hv as (w & Hv & [= <-]). cbn.
    destruct (Forall_inv IH _ _ Hv) as (-> & -> & ?). destruct (IHw (Forall_inv_tail IH)) as (? & ? & ?). lia.
Qed.
Lemma wire_value_within path v w :
  json_within_limits v = true -> wire_value path v = Some w -> WireV2.within_limits (WireV2.canon w) = true.
Proof.
  unfold json_within_limits. rewrite !andb_true_iff, Nat.leb_le, !Z.leb_le. intros [[Hn Hi] Hw] Hv.
  apply wire_value_size in Hv as (? & ? & ?). apply WireMaps.within_limits_canon; lia.
Qed.
End size.

(** ** Reading it back *)

Section project_lemmas.
Context (project_unsigned : Z -> list string -> Json) (project_bytes : list byte -> list string -> result () string).
(** The strings that are read back as they were. *)
Context (string_plain : string -> list string -> Prop).
Hypothesis string_value_back : forall s path w, WireV2.text_ok s = true -> string_plain s path -> string_value s path = Some w ->
  project project_unsigned project_bytes (VerifyCbor.seen w) path = Ok (Json_String s).

(** Every number and string is at a path where it is read back as it is. *)
Fixpoint json_plain (path : list string) (value : Json) : Prop :=
  match value with
  | Json_U64 value => project_unsigned value path = Json_U64 value
  | Json_String value => string_plain value path
  | Json_Array values => foldr (fun v P => json_plain path v /\ P) True values
  | Json_Object values => foldr (fun kv P => json_plain (path ++ [kv.1]) kv.2 /\ P) True values
  | _ => True
  end.

Lemma project_wire_value v path w :
  json_typed v -> json_plain path v -> wire_value path v = Some w ->
  project project_unsigned project_bytes (VerifyCbor.seen (WireV2.canon w)) path = Ok v.
Proof.
  revert path w. induction v as [| | | | |s|vs IH|kvs IH] using Json_rec_full; intros path w Hty Hpl Hw; cbn in Hw;
    try discriminate; try (by injection Hw as <-).
  - injection Hw as <-. cbn. by f_equal.
  - rewrite (proj2 (string_value_ok _ _ _ Hty Hw)). by apply string_value_back.
  - destruct Hty as [_ Hvs%foldr_Forall]. cbn in Hpl. apply foldr_Forall in Hpl.
    apply fmap_Some in Hw as (ws & Hws%mapM_Some_1 & ->). cbn. rewrite !map_map.
    assert (mapM (fun value => project project_unsigned project_bytes value path)
      (map (fun x => VerifyCbor.seen (WireV2.canon x)) ws) = Ok vs) as ->; [|done].
    apply mapM_Ok. induction Hws as [|v x vs ws Hv _ IHw]; cbn; constructor.
    + apply Forall_inv in IH, Hvs, Hpl. by apply IH.
    + apply Forall_inv_tail in IH, Hvs, Hpl. by apply IHw.
  - destruct Hty as (_ & Hsort & Hkvs%foldr_Forall). cbn in Hpl. apply foldr_Forall in Hpl.
    apply fmap_Some in Hw as (ws & Hws%mapM_Some_1 & ->). cbn [WireV2.canon VerifyCbor.seen project].
    set (F := fun kv : string * WireV2.Value => (kv.1, VerifyCbor.seen (WireV2.canon kv.2))).
    assert (Forall2 (fun kv x => x.1 = kv.1 /\
      project project_unsigned project_bytes (VerifyCbor.seen (WireV2.canon x.2)) (path ++ [kv.1]) = Ok kv.2) kvs ws) as Hall.
    { induction Hws as [|kv x kvs ws Hv _ IHw]; constructor.
      - apply bind_Some in Hv as (w & Hw & [= <-]). apply Forall_inv in IH, Hkvs, Hpl. split; [done|]. cbn.
        apply IH; [by apply Hkvs|done|done].
      - apply Forall_inv_tail in IH, Hkvs, Hpl. inversion Hsort; subst. by apply IHw. }
    clear IH Hpl Hws.
    assert (exists l, l ≡ₚ kvs /\ mapM (fun kv => value ← project project_unsigned project_bytes kv.2 (path ++ [kv.1]); Ok (kv.1, value))
      (map (fun kv => (kv.1, VerifyCbor.seen kv.2)) (sort_by (fun l r => WireV2.key_lt l.1 r.1)
        (map (fun kv => (kv.1, WireV2.canon kv.2)) ws))) = Ok l) as (l & Hl & ->).
    { apply mapM_Permutation_Ok with (map F ws); [unfold F; by rewrite sort_by_Permutation, map_map|].
      apply mapM_Ok. clear -Hall. induction Hall as [|[k v] [k' x] kvs ws [Hk Hv] _ IH]; cbn in *; constructor; [|done].
      cbn [fst snd] in Hk, Hv |- *. subst k'. unfold F. cbn [fst snd]. setoid_rewrite Hv. done. }
    cbn. by rewrite (object_of_members l kvs).
Qed.

(** What was encoded within the limits of the decoder is decoded again. *)
Lemma decode_encode_json v bytes :
  json_typed v -> json_plain [] v -> encode_json encode_string v [] [] = Ok bytes ->
  (forall w, wire_value [] v = Some w -> WireV2.within_limits (WireV2.canon w) = true) ->
  (value ← decode bytes; project project_unsigned project_bytes value []) = Ok v.
Proof.
  intros Hty Hpl He Hl. rewrite encode_json_emits in He by done.
  destruct (wire_value [] v) as [w|] eqn:Hw; cbn in He; [|done]. injection He as <-.
  unfold decode. rewrite VerifyCbor.decode_with_renames.
  pose proof (json_wire_encodable _ _ _ Hty Hw) as Hen.
  pose proof (VerifyCbor.decode_lift w Hen) as Hd. rewrite (Hl w eq_refl) in Hd. rewrite Hd. cbn [map_err mbind result_bind].
  by apply project_wire_value.
Qed.
End project_lemmas.
End encode_lemmas.
