(* ===== verification/ReceiptViews.v ===== *)
(** What other crates see of a decoded receipt: the composition and acceptance
    views of [proofbound-runtime-verify/src/decode.rs]. *)
From S2P Require Import Prelude.
From S2P Require Import VerifyDecode.
From Stdlib Require Import Ascii ZArith.
From stdpp Require Import prelude strings list.

Record CompositionArtifact := mkCompositionArtifact {
  ca_mode : Z; ca_role : string; ca_sha256 : string; ca_size : string
}.
Record CompositionTcbEntry := mkCompositionTcbEntry { ct_identity : string; ct_role : string }.
Record ReceiptCompositionFacts := mkReceiptCompositionFacts {
  cf_assumptions : list string;
  cf_eligibility_reasons : list string;
  cf_execution_id : string;
  cf_producer : CompositionArtifact;
  cf_product_version : string;
  cf_reusable : bool;
  cf_runtime : CompositionArtifact;
  cf_launcher : CompositionArtifact;
  cf_schema : string;
  cf_trusted_computing_base : list CompositionTcbEntry;
  cf_version_two : bool
}.
Record ReceiptAcceptanceFacts := mkReceiptAcceptanceFacts {
  af_schema : string;
  af_runtime_version : string;
  af_execution_id : string;
  af_plan_id : string;
  af_operating_system : string;
  af_architecture : string;
  af_executable : CompositionArtifact;
  af_policy_sha256 : string;
  af_policy_model_version : string;
  af_pids_max : Z;
  af_memory_max : Z;
  af_memory_oom_group : Z;
  af_memory_swap_max : Z;
  af_reusable : bool;
  af_assumptions : list string;
  af_tcb_roles : list string
}.

Definition composition_artifact (wire : WireArtifact) : CompositionArtifact :=
  mkCompositionArtifact (art_mode wire) (wire_artifact_role (art_role wire)) (art_sha256 wire) (art_size wire).
Definition recorded_reusable (recorded : RecordedEligibility) : bool :=
  match recorded with Recorded_Reusable => true | Recorded_NonReusable _ => false end.

Section views.
Context {serde : SerdeJson}.
Definition composition_facts (self : DecodedReceipt) : ReceiptCompositionFacts :=
  let wire := dr_wire self in
  {|
    cf_assumptions := w_assumptions wire;
    cf_eligibility_reasons :=
      match dr_recorded_eligibility self with
      | Recorded_Reusable => []
      | Recorded_NonReusable reasons => map WireReason_as_str reasons
      end;
    cf_execution_id := w_execution_id wire;
    cf_producer := composition_artifact (w_producer wire);
    cf_product_version := w_product_version wire;
    cf_reusable := recorded_reusable (dr_recorded_eligibility self);
    cf_runtime := composition_artifact (rt_runtime (w_runtime wire));
    cf_launcher := composition_artifact (rt_launcher (w_runtime wire));
    cf_schema := w_schema wire;
    cf_trusted_computing_base :=
      map (fun entry => mkCompositionTcbEntry (tcb_identity entry) (tcb_role entry)) (w_trusted_computing_base wire);
    cf_version_two := dr_version_two self
  |}.
Definition acceptance_facts (self : DecodedReceipt) : option ReceiptAcceptanceFacts :=
  let wire := dr_wire self in
  resources ← dr_resources self;
  Some {|
    af_schema := w_schema wire;
    af_runtime_version := w_product_version wire;
    af_execution_id := w_execution_id wire;
    af_plan_id := plan_id (w_plan wire);
    af_operating_system := operating_system (w_platform wire);
    af_architecture :=
      match architecture (w_platform wire) with X86_64 => "x86_64" | Aarch64 => "aarch64" end;
    af_executable := composition_artifact (cmd_executable (w_command wire));
    af_policy_sha256 := bd_policy_sha256 (w_boundary wire);
    af_policy_model_version := policy_model_version (w_policy wire);
    af_pids_max := res_processes resources;
    af_memory_max := res_memory resources;
    af_memory_oom_group := 1;
    af_memory_swap_max := res_swap resources;
    af_reusable := recorded_reusable (dr_recorded_eligibility self);
    af_assumptions := w_assumptions wire;
    af_tcb_roles := map tcb_role (w_trusted_computing_base wire)
  |}.
End views.
