(* ===== verification/Compose.v ===== *)
(** Composition of a verified release with a verified execution
    ([proofbound-runtime-compose/src/lib.rs] and the codec parts of
    [cbor_encode.rs], [cbor_decode.rs] that are its own).  The parsers that serde
    derives, the JSON printer of serde_json and SHA-256 are parameters
    ([ComposeSerde]); the execution receipt is verified by the model of the
    verifier. *)
From S2P Require Import Prelude Identity JsonCbor ReceiptViews.
From S2P Require WireV2 WireMaps VerifyCbor VerifyDecode VerifyReceipt.
From Stdlib Require Import Ascii ZArith Lia Sorted.
From stdpp Require Import prelude strings list numbers.
Export stdpp.list_relations.list.

Definition COMPOSITION_SCHEMA : string := "proofbound-runtime-composed-receipt/1".
Definition newline_terminated (s : string) : list byte := bytes_of s ++ [mkb 10].
Definition COMPOSITION_DOMAIN : list byte := newline_terminated "proofbound-runtime-composed-receipt/1".
Definition COMPOSITION_SCHEMA_V2 : string := "proofbound-runtime-composed-receipt/2".
Definition COMPOSITION_DOMAIN_V2 : list byte := newline_terminated "proofbound-runtime-composed-receipt/2".
Definition RELEASE_ENVELOPE_SCHEMA : string := "proofbound-release-envelope/7".
Definition RELEASE_REPORT_SCHEMA : string := "proofbound-verification-report/3".
Definition COMPILED_RELEASE_SCHEMA : string := "proofbound-compiled-release/7".
Definition RELEASE_MANIFEST_SCHEMA : string := "proofbound-runtime-release-manifest/1".
Definition EXECUTION_RECEIPT_SCHEMA : string := "proofbound-runtime-receipt/1".
Definition EXECUTION_RECEIPT_SCHEMA_V2 : string := "proofbound-runtime-execution-receipt/2".

Inductive CompositionError :=
| SchemaInvalid | ReleaseClaimOmitted | ReleaseSubstituted | ReleaseDowngraded | ReleaseContextMismatch
| BundleSubstituted | BundleRoleMismatch | ExecutionReplayed | AssumptionOmitted
| TrustedComputingBaseOmitted | ExecutionInvalid | CompositionMismatch.
Definition CompositionError_code (e : CompositionError) : string :=
  match e with
  | SchemaInvalid => "composition.schema.invalid"
  | ReleaseClaimOmitted => "composition.release.claim-omitted"
  | ReleaseSubstituted => "composition.release.substituted"
  | ReleaseDowngraded => "composition.release.downgraded"
  | ReleaseContextMismatch => "composition.release.context-mismatch"
  | BundleSubstituted => "composition.bundle.substituted"
  | BundleRoleMismatch => "composition.bundle.role-mismatch"
  | ExecutionReplayed => "composition.execution.replayed"
  | AssumptionOmitted => "composition.assumption.omitted"
  | TrustedComputingBaseOmitted => "composition.tcb.omitted"
  | ExecutionInvalid => "composition.execution.invalid"
  | CompositionMismatch => "composition.receipt.mismatch"
  end.

(** * Inputs *)

Record ArtifactBytes := mkArtifactBytes { ab_name : string; ab_bytes : list byte }.
Record CompositionInputs := mkCompositionInputs {
  ci_release_envelope : ArtifactBytes;
  ci_compiled_release : ArtifactBytes;
  ci_release_verification : ArtifactBytes;
  ci_release_verifier : ArtifactBytes;
  ci_release_observation_inputs : ArtifactBytes;
  ci_release_tcb_ledger : ArtifactBytes;
  ci_runtime_manifest : ArtifactBytes;
  ci_runtime : ArtifactBytes;
  ci_launcher : ArtifactBytes;
  ci_execution_verifier : ArtifactBytes;
  ci_composer : ArtifactBytes;
  ci_execution_receipt : ArtifactBytes;
  ci_execution_verification : ArtifactBytes;
  ci_expected_execution_commitment : string;
  ci_expected_execution_id : string
}.

(** * The facts for an acceptance policy *)

Record AcceptanceClaimFacts := mkAcceptanceClaimFacts {
  acf_claim_id : string; acf_formal : string; acf_linkage : string; acf_assumption : string;
  acf_policy_admitted : bool
}.
Record ReleaseAcceptanceFacts := mkReleaseAcceptanceFacts {
  raf_composition_id : string;
  raf_project : string;
  raf_project_revision : string;
  raf_payload_sha256 : string;
  raf_evidence_context : string;
  raf_runtime_bundle_version : string;
  raf_runtime_bundle_architecture : string;
  raf_claims : list AcceptanceClaimFacts;
  raf_assumptions : list string;
  raf_exclusions : list string;
  raf_open_obligations : list string;
  raf_tcb_roles : list string
}.

(** * Wire forms *)

Record ReleaseEnvelope := mkReleaseEnvelope { re_payload : string; re_payload_sha256 : string; re_schema : string }.
Record ObservedArtifact := mkObservedArtifact { oa_logical_name : string; oa_sha256 : string; oa_size_bytes : Z }.
Record ObservedPlatform := mkObservedPlatform { op_architecture : string; op_operating_system : string }.
Record ToolchainClosure := mkToolchainClosure { tc_kind : string; tc_sha256 : string }.
Record ArtifactObservation := mkArtifactObservation {
  ao_artifact : ObservedArtifact;
  ao_dependencies : list string;
  ao_evidence : string;
  ao_identity : string;
  ao_platform : ObservedPlatform;
  ao_procedure : ObservedArtifact;
  ao_semantic_kind : string;
  ao_subject_role : string;
  ao_toolchain_closure : ToolchainClosure
}.
Record ClaimStatus := mkClaimStatus {
  cs_artifact_observations : list ArtifactObservation;
  cs_assumption : string;
  cs_assumptions : list string;
  cs_claim_id : string;
  cs_formal : string;
  cs_linkage : string;
  cs_policy_admitted : bool;
  cs_public_statement : string;
  cs_undischarged_premises : list string
}.
Record ResidualObligations := mkResidualObligations {
  ro_assumptions : list string; ro_exclusions : list string; ro_open_obligations : list string;
  ro_undischarged_premises : list string
}.
Record ReportOpenObligation := mkReportOpenObligation { oo_id : string; oo_statement : string; oo_remediation : string }.
Record ReportExclusion := mkReportExclusion { rx_id : string; rx_statement : string; rx_rationale : string }.
Record ClaimResidualReport := mkClaimResidualReport {
  cr_claim_id : string;
  cr_open_obligations : list ReportOpenObligation;
  cr_undischarged_premises : list string;
  cr_assumptions : list string;
  cr_out_of_scope : list ReportExclusion
}.
Record ReleaseReport := mkReleaseReport {
  rr_claims : list ClaimStatus;
  rr_evidence_context : option string;
  rr_not_proved_out_of_scope : list ClaimResidualReport;
  rr_payload_sha256 : string;
  rr_project : string;
  rr_project_revision : string;
  rr_publication_blocked : bool;
  rr_schema : string;
  rr_trust_boundary : string;
  rr_verdict : string
}.
Record CompiledRelease := mkCompiledRelease {
  cl_assumptions : Json;
  cl_claims : Json;
  cl_closures : Json;
  cl_evidence : Json;
  cl_evidence_context : option string;
  cl_graph : Json;
  cl_graph_sha256 : string;
  cl_policies : Json;
  cl_premises : Json;
  cl_project : string;
  cl_project_revision : string;
  cl_project_tier : Z;
  cl_reported_statuses : list ClaimStatus;
  cl_schema : string;
  cl_sealed_files : Json;
  cl_tree_state : string
}.
Record ReleaseTcbComponent := mkReleaseTcbComponent { rtc_identity_sha256 : string; rtc_name : string; rtc_version : string }.
Record TcbLedger := mkTcbLedger { tl_components : list ReleaseTcbComponent; tl_schema : string }.
Record ManifestArtifact := mkManifestArtifact { ma_name : string; ma_sha256 : string; ma_size : Z }.
Record RuntimeManifest := mkRuntimeManifest {
  rm_architecture : string; rm_artifacts : list ManifestArtifact; rm_schema : string; rm_target : string;
  rm_toolchain : string; rm_version : string
}.
Record WireArtifact := mkWireArtifact { wa_mode : Z; wa_role : string; wa_sha256 : string; wa_size : string }.
Record WireRuntime := mkWireRuntime { wr_launcher : WireArtifact; wr_runtime : WireArtifact }.
Record WireTcbEntry := mkWireTcbEntry { wt_identity : string; wt_role : string }.
Record WireEligibility := mkWireEligibility { we_reasons : list string; we_status : string }.
Record ExecutionReceipt := mkExecutionReceipt {
  er_assumptions : list string;
  er_boundary : Json;
  er_command : Json;
  er_eligibility : WireEligibility;
  er_environment : Json;
  er_execution_id : string;
  er_inputs : Json;
  er_observations : Json;
  er_outcome : Json;
  er_output_root : Json;
  er_outputs : Json;
  er_plan : Json;
  er_platform : Json;
  er_policy : Json;
  er_producer : WireArtifact;
  er_product_version : string;
  er_runtime : WireRuntime;
  er_schema : string;
  er_streams : Json;
  er_trusted_computing_base : list WireTcbEntry
}.
Record ExecutionFacts := mkExecutionFacts {
  ef_assumptions : list string;
  ef_eligibility : WireEligibility;
  ef_execution_id : string;
  ef_producer : WireArtifact;
  ef_product_version : string;
  ef_runtime : WireRuntime;
  ef_schema : string;
  ef_trusted_computing_base : list WireTcbEntry;
  ef_version_two : bool
}.
Definition ExecutionFacts_from (receipt : ExecutionReceipt) : ExecutionFacts :=
  mkExecutionFacts (er_assumptions receipt) (er_eligibility receipt) (er_execution_id receipt) (er_producer receipt)
    (er_product_version receipt) (er_runtime receipt) (er_schema receipt) (er_trusted_computing_base receipt) false.
Record ExecutionVerification := mkExecutionVerification {
  ev_eligibility : WireEligibility; ev_receipt_commitment : string; ev_valid : bool
}.
Record ArtifactIdentity := mkArtifactIdentity { ai_name : string; ai_sha256 : string; ai_size : string }.
Record InheritedEntry := mkInheritedEntry { ie_id : string; ie_origins : list string }.
Record ComposedTcbEntry := mkComposedTcbEntry { cte_identity : string; cte_origins : list string; cte_role : string }.
Record ReleaseIdentity := mkReleaseIdentity {
  ri_envelope : ArtifactIdentity;
  ri_evidence_context : string;
  ri_observation_inputs : ArtifactIdentity;
  ri_payload_sha256 : string;
  ri_project : string;
  ri_project_revision : string;
  ri_verification_report : ArtifactIdentity;
  ri_verification_verdict : string;
  ri_verifier : ArtifactIdentity
}.
Record RuntimeBundleIdentity := mkRuntimeBundleIdentity {
  rb_architecture : string; rb_artifacts : list ArtifactIdentity; rb_manifest : ArtifactIdentity;
  rb_target : string; rb_toolchain : string; rb_version : string
}.
Record ExecutionIdentity := mkExecutionIdentity {
  xi_commitment : string; xi_eligibility : string; xi_execution_id : string; xi_receipt : ArtifactIdentity;
  xi_verification_report : ArtifactIdentity; xi_verifier : ArtifactIdentity
}.
Record ComposedEligibility := mkComposedEligibility { ce_status : string }.
Record ComposedReceipt := mkComposedReceipt {
  cmp_assumptions : list InheritedEntry;
  cmp_claims : list ClaimStatus;
  cmp_composition_id : string;
  cmp_eligibility : ComposedEligibility;
  cmp_execution : ExecutionIdentity;
  cmp_not_proved_out_of_scope : ResidualObligations;
  cmp_release : ReleaseIdentity;
  cmp_runtime_bundle : RuntimeBundleIdentity;
  cmp_schema : string;
  cmp_trusted_computing_base : list ComposedTcbEntry
}.

(** [#[derive(PartialEq)]] *)
#[global] Instance ObservedArtifact_eq_dec : EqDecision ObservedArtifact. Proof. solve_decision. Defined.
#[global] Instance ObservedPlatform_eq_dec : EqDecision ObservedPlatform. Proof. solve_decision. Defined.
#[global] Instance ToolchainClosure_eq_dec : EqDecision ToolchainClosure. Proof. solve_decision. Defined.
#[global] Instance ArtifactObservation_eq_dec : EqDecision ArtifactObservation. Proof. solve_decision. Defined.
#[global] Instance ClaimStatus_eq_dec : EqDecision ClaimStatus. Proof. solve_decision. Defined.
#[global] Instance InheritedEntry_eq_dec : EqDecision InheritedEntry. Proof. solve_decision. Defined.
#[global] Instance ComposedTcbEntry_eq_dec : EqDecision ComposedTcbEntry. Proof. solve_decision. Defined.

(** What serde derives and what serde_json prints. *)
Class ComposeSerde := {
  parse_release_envelope : list byte -> option ReleaseEnvelope;
  parse_release_report : list byte -> option ReleaseReport;
  parse_compiled_release : list byte -> option CompiledRelease;
  parse_tcb_ledger : list byte -> option TcbLedger;
  parse_runtime_manifest : list byte -> option RuntimeManifest;
  parse_execution_receipt : list byte -> option ExecutionReceipt;
  parse_execution_verification : list byte -> option ExecutionVerification;
  parse_composed : list byte -> option ComposedReceipt;
  parse_value : list byte -> option Json;
  composed_from_value : Json -> option ComposedReceipt;
  to_vec : Json -> option (list byte);
  record_to_string : list (string * string) -> option string
}.
Definition parse {A} (parsed : option A) : result CompositionError A := ok_or parsed SchemaInvalid.

(** * [serde_json::to_value] *)

Definition json_strings (values : list string) : Json := Json_Array (map Json_String values).
Definition json_object (fields : list (string * Json)) : Json := Json_Object (object_of fields).
Definition ArtifactIdentity_to_value (a : ArtifactIdentity) : Json :=
  json_object [("name", Json_String (ai_name a)); ("sha256", Json_String (ai_sha256 a)); ("size", Json_String (ai_size a))].
Definition ObservedArtifact_to_value (a : ObservedArtifact) : Json :=
  json_object [("logical_name", Json_String (oa_logical_name a)); ("sha256", Json_String (oa_sha256 a));
    ("size_bytes", Json_U64 (oa_size_bytes a))].
Definition ObservedPlatform_to_value (p : ObservedPlatform) : Json :=
  json_object [("architecture", Json_String (op_architecture p)); ("operating_system", Json_String (op_operating_system p))].
Definition ToolchainClosure_to_value (c : ToolchainClosure) : Json :=
  json_object [("kind", Json_String (tc_kind c)); ("sha256", Json_String (tc_sha256 c))].
Definition ArtifactObservation_to_value (o : ArtifactObservation) : Json :=
  json_object
    [("artifact", ObservedArtifact_to_value (ao_artifact o));
     ("dependencies", json_strings (ao_dependencies o));
     ("evidence", Json_String (ao_evidence o));
     ("identity", Json_String (ao_identity o));
     ("platform", ObservedPlatform_to_value (ao_platform o));
     ("procedure", ObservedArtifact_to_value (ao_procedure o));
     ("semantic_kind", Json_String (ao_semantic_kind o));
     ("subject_role", Json_String (ao_subject_role o));
     ("toolchain_closure", ToolchainClosure_to_value (ao_toolchain_closure o))].
Definition ClaimStatus_to_value (c : ClaimStatus) : Json :=
  json_object
    [("artifact_observations", Json_Array (map ArtifactObservation_to_value (cs_artifact_observations c)));
     ("assumption", Json_String (cs_assumption c));
     ("assumptions", json_strings (cs_assumptions c));
     ("claim_id", Json_String (cs_claim_id c));
     ("formal", Json_String (cs_formal c));
     ("linkage", Json_String (cs_linkage c));
     ("policy_admitted", Json_Bool (cs_policy_admitted c));
     ("public_statement", Json_String (cs_public_statement c));
     ("undischarged_premises", json_strings (cs_undischarged_premises c))].
Definition InheritedEntry_to_value (e : InheritedEntry) : Json :=
  json_object [("id", Json_String (ie_id e)); ("origins", json_strings (ie_origins e))].
Definition ComposedTcbEntry_to_value (e : ComposedTcbEntry) : Json :=
  json_object [("identity", Json_String (cte_identity e)); ("origins", json_strings (cte_origins e));
    ("role", Json_String (cte_role e))].
Definition ResidualObligations_to_value (r : ResidualObligations) : Json :=
  json_object
    [("assumptions", json_strings (ro_assumptions r)); ("exclusions", json_strings (ro_exclusions r));
     ("open_obligations", json_strings (ro_open_obligations r));
     ("undischarged_premises", json_strings (ro_undischarged_premises r))].
Definition ReleaseIdentity_to_value (r : ReleaseIdentity) : Json :=
  json_object
    [("envelope", ArtifactIdentity_to_value (ri_envelope r));
     ("evidence_context", Json_String (ri_evidence_context r));
     ("observation_inputs", ArtifactIdentity_to_value (ri_observation_inputs r));
     ("payload_sha256", Json_String (ri_payload_sha256 r));
     ("project", Json_String (ri_project r));
     ("project_revision", Json_String (ri_project_revision r));
     ("verification_report", ArtifactIdentity_to_value (ri_verification_report r));
     ("verification_verdict", Json_String (ri_verification_verdict r));
     ("verifier", ArtifactIdentity_to_value (ri_verifier r))].
Definition RuntimeBundleIdentity_to_value (b : RuntimeBundleIdentity) : Json :=
  json_object
    [("architecture", Json_String (rb_architecture b));
     ("artifacts", Json_Array (map ArtifactIdentity_to_value (rb_artifacts b)));
     ("manifest", ArtifactIdentity_to_value (rb_manifest b));
     ("target", Json_String (rb_target b));
     ("toolchain", Json_String (rb_toolchain b));
     ("version", Json_String (rb_version b))].
Definition ExecutionIdentity_to_value (e : ExecutionIdentity) : Json :=
  json_object
    [("commitment", Json_String (xi_commitment e));
     ("eligibility", Json_String (xi_eligibility e));
     ("execution_id", Json_String (xi_execution_id e));
     ("receipt", ArtifactIdentity_to_value (xi_receipt e));
     ("verification_report", ArtifactIdentity_to_value (xi_verification_report e));
     ("verifier", ArtifactIdentity_to_value (xi_verifier e))].
Definition ComposedEligibility_to_value (e : ComposedEligibility) : Json := json_object [("status", Json_String (ce_status e))].
Definition ComposedReceipt_to_value (r : ComposedReceipt) : Json :=
  json_object
    [("assumptions", Json_Array (map InheritedEntry_to_value (cmp_assumptions r)));
     ("claims", Json_Array (map ClaimStatus_to_value (cmp_claims r)));
     ("composition_id", Json_String (cmp_composition_id r));
     ("eligibility", ComposedEligibility_to_value (cmp_eligibility r));
     ("execution", ExecutionIdentity_to_value (cmp_execution r));
     ("not_proved_out_of_scope", ResidualObligations_to_value (cmp_not_proved_out_of_scope r));
     ("release", ReleaseIdentity_to_value (cmp_release r));
     ("runtime_bundle", RuntimeBundleIdentity_to_value (cmp_runtime_bundle r));
     ("schema", Json_String (cmp_schema r));
     ("trusted_computing_base", Json_Array (map ComposedTcbEntry_to_value (cmp_trusted_computing_base r)))].

(** * The codec of version 2 *)

Definition is_digest_path (path : list string) : bool :=
  match list_basics.list.last path with
  | Some field =>
    one_of field ["composition_id"; "commitment"; "payload_sha256"; "sha256"; "evidence"]
    || (String.eqb field "identity" && one_of "artifact_observations" path)
    || String.eqb field "dependencies"
  | None => false
  end.
Definition exact_decimal_path (path : list string) : bool :=
  match list_basics.list.last path with Some field => one_of field ["size"; "size_bytes"] | None => false end.
Definition path_is_size (path : list string) : bool :=
  match list_basics.list.last path with Some field => String.eqb field "size" | None => false end.
Definition encode_string (value : string) (path : list string) : encoder := fun output =>
  field ← ok_or (list_basics.list.last path) ();
  if String.eqb field "size" then value ← ok_or (u64_parse (bytes_of value)) (); Ok (encode_argument 0 value output)
  else if String.eqb field "execution_id" then bytes ← parse_uuid value; encode_bytes bytes output
  else if String.eqb field "project_revision" then bytes ← parse_hex_exact (bytes_of value) 20; encode_bytes bytes output
  else if is_digest_path path then bytes ← parse_digest value; encode_bytes bytes output
  else encode_text value output.
Definition encode_composed_v2 (value : Json) : result () (list byte) := encode_json encode_string value [] [].
Definition model_bytes (bytes : list byte) (path : list string) : result () string :=
  field ← ok_or (list_basics.list.last path) ();
  if String.eqb field "execution_id" then
    if negb (length bytes =? 16) then Err () else Ok (VerifyDecode.uuid_text bytes)
  else if String.eqb field "project_revision" then
    if length bytes =? 20 then Ok (VerifyDecode.hex bytes) else Err ()
  else if is_digest_path path then
    if length bytes =? 32 then Ok (String.append "sha256:" (VerifyDecode.hex bytes)) else Err ()
  else Err ().
Definition project_unsigned (model : bool) (value : Z) (path : list string) : Json :=
  if exact_decimal_path path && (negb model || path_is_size path) then Json_String (u64_to_string value) else Json_U64 value.
Definition project_bytes (model : bool) (bytes : list byte) (path : list string) : result () string :=
  if model then model_bytes bytes path else Ok (String.append "hex:" (VerifyDecode.hex bytes)).
Definition decode_composed_v2_model (input : list byte) : result () Json :=
  value ← decode input; project (project_unsigned true) (project_bytes true) value [].
Definition project_composed_v2 (input : list byte) : result () Json :=
  value ← decode input; project (project_unsigned false) (project_bytes false) value [].

(** * Maps of origins *)

(** [entries.entry(key).or_default().insert(origin)] on a
    [BTreeMap<K, BTreeSet<String>>], listed in the order of its keys. *)
Section origins.
Context {K : Type} `{RustOrd K}.
Fixpoint entry_insert (key : K) (origin : string) (entries : list (K * list string)) : list (K * list string) :=
  match entries with
  | [] => [(key, [origin])]
  | entry :: rest =>
    match rcmp key entry.1 with
    | Lt => (key, [origin]) :: entries
    | Eq => (entry.1, set_insert origin entry.2) :: rest
    | Gt => entry :: entry_insert key origin rest
    end
  end.
Definition entry_insert_all (keys : list K) (origin : string) (entries : list (K * list string)) : list (K * list string) :=
  fold_left (fun entries key => entry_insert key origin entries) keys entries.
End origins.

Section compose.
Context (sha256 : list byte -> list byte).

(** * Digests and texts *)

Definition digest_hex (bytes : list byte) : string := VerifyDecode.hex (sha256 bytes).
Definition digest_text (bytes : list byte) : string := String.append "sha256:" (digest_hex bytes).
Definition domain_digest_text (domain : string) (bytes : list byte) : string :=
  String.append "sha256:" (VerifyDecode.hex (sha256 (bytes_of domain ++ [mkb 0] ++ bytes))).
Definition artifact_identity (artifact : ArtifactBytes) : ArtifactIdentity :=
  mkArtifactIdentity (ab_name artifact) (digest_text (ab_bytes artifact))
    (u64_to_string (Z.of_nat (length (ab_bytes artifact)))).
Definition lower_or_digit (b : byte) : bool := byte_in 97 122 b || is_digit b.
Definition valid_segment (segment : nat * list byte) : bool :=
  let '(index, segment) := segment in
  negb (bool_decide (segment = []))
  && (negb (index =? 0) || match segment with b :: _ => byte_in 97 122 b | [] => false end)
  && forallb lower_or_digit segment.
Definition valid_context_name (value : string) : bool :=
  let segments := split_on "-"%char (bytes_of value) in
  (str_len value <=? 128) && forallb valid_segment (zip (seq 0 (length segments)) segments).
Definition is_digest (value : string) : bool :=
  (str_len value =? 71)
  && match str_strip_prefix "sha256:" value with Some hex => forallb is_hex (bytes_of hex) | None => false end.
(** [str::trim_start_matches] *)
Fixpoint trim_prefix (fuel : nat) (prefix value : string) : string :=
  match fuel with
  | O => value
  | S fuel => match str_strip_prefix prefix value with Some value => trim_prefix fuel prefix value | None => value end
  end.
Definition trim_start_matches (value prefix : string) : string := trim_prefix (S (str_len value)) prefix value.

(** * The release *)

Definition claim_ids (claims : list ClaimStatus) : result CompositionError (list string) :=
  let ids := set_of (map cs_claim_id claims) in
  if negb (length ids =? length claims) then Err SchemaInvalid else Ok ids.
Definition valid_context (context : option string) : option string :=
  context ← context; if valid_context_name context then Some context else None.
Definition validate_release (envelope : ReleaseEnvelope) (report : ReleaseReport) (compiled : CompiledRelease)
    (inputs : CompositionInputs) : result CompositionError string :=
  if one_of (re_schema envelope) ["proofbound-release-envelope/3"; "proofbound-release-envelope/4";
       "proofbound-release-envelope/5"; "proofbound-release-envelope/6"]
     || one_of (rr_schema report) ["proofbound-verification-report/1"; "proofbound-verification-report/2"]
     || one_of (cl_schema compiled) ["proofbound-compiled-release/3"; "proofbound-compiled-release/4";
          "proofbound-compiled-release/5"; "proofbound-compiled-release/6"]
     || one_of (rr_verdict report) ["receipt-consistent"; "record-consistent"]
  then Err ReleaseDowngraded
  else if differs (re_schema envelope) RELEASE_ENVELOPE_SCHEMA
     || differs (re_payload envelope) "compiled-receipt.json"
     || differs (rr_schema report) RELEASE_REPORT_SCHEMA
     || differs (rr_verdict report) "bytes-observed"
     || is_empty_string (rr_trust_boundary report)
     || differs (cl_schema compiled) COMPILED_RELEASE_SCHEMA
     || differs (cl_tree_state compiled) "clean"
     || (3 <? cl_project_tier compiled)%Z
     || is_empty_string (cl_graph_sha256 compiled)
     || differs (ab_name (ci_release_observation_inputs inputs)) "proofbound-observation-inputs.json"
     || bool_decide (ab_bytes (ci_release_observation_inputs inputs) = [])
  then Err SchemaInvalid
  else
    context ← ok_or (valid_context (rr_evidence_context report)) ReleaseContextMismatch;
    if negb (bool_decide (cl_evidence_context compiled = Some context)) then Err ReleaseContextMismatch
    else
      let compiled_digest := domain_digest_text COMPILED_RELEASE_SCHEMA (ab_bytes (ci_compiled_release inputs)) in
      if differs (re_payload_sha256 envelope) compiled_digest
         || differs (rr_payload_sha256 report) (re_payload_sha256 envelope)
         || differs (rr_project report) (cl_project compiled)
         || differs (rr_project_revision report) (cl_project_revision compiled)
      then Err ReleaseSubstituted
      else
        reported_ids ← claim_ids (rr_claims report);
        compiled_ids ← claim_ids (cl_reported_statuses compiled);
        if bool_decide (compiled_ids = []) then Err SchemaInvalid
        else if negb (bool_decide (reported_ids = compiled_ids)) then Err ReleaseClaimOmitted
        else if negb (bool_decide (rr_claims report = cl_reported_statuses compiled)) then Err ReleaseDowngraded
        else Ok context.

Section serde.
Context {serde : ComposeSerde}.

Definition residual_record (kind claim_id id statement detail_name detail : string) : result CompositionError string :=
  let record := sort_by (fun l r => rlt l.1 r.1) [("claim_id", claim_id); (detail_name, detail); ("id", id); ("kind", kind); ("statement", statement)] in
  ok_or (record_to_string record) SchemaInvalid.
Definition insert_all (values : list string) (s : list string) : list string :=
  fold_left (fun s value => set_insert value s) values s.
Definition labelled (claim_id text : string) : string := String.append claim_id (String.append ": " text).
Definition open_obligation_record (claim_id : string) (obligation : ReportOpenObligation) : result CompositionError string :=
  residual_record "open-obligation" claim_id (oo_id obligation) (oo_statement obligation) "remediation" (oo_remediation obligation).
Definition exclusion_record (claim_id : string) (exclusion : ReportExclusion) : result CompositionError string :=
  residual_record "exclusion" claim_id (rx_id exclusion) (rx_statement exclusion) "rationale" (rx_rationale exclusion).
(** [BTreeMap::get] on the map collected from the claims: the last of a key. *)
Definition claim_get (claims : list ClaimStatus) (id : string) : option ClaimStatus :=
  List.find (fun claim => String.eqb (cs_claim_id claim) id) (rev claims).
Definition residual_row (claims : list ClaimStatus) (sets : ResidualObligations) (row : ClaimResidualReport) :
    result CompositionError ResidualObligations :=
  claim ← ok_or (claim_get claims (cr_claim_id row)) ReleaseClaimOmitted;
  if negb (bool_decide (cr_assumptions row = cs_assumptions claim))
     || negb (bool_decide (cr_undischarged_premises row = cs_undischarged_premises claim))
  then Err ReleaseDowngraded
  else
    let assumptions := insert_all (map (labelled (cr_claim_id row)) (cr_assumptions row)) (ro_assumptions sets) in
    let premises := insert_all (map (labelled (cr_claim_id row)) (cr_undischarged_premises row)) (ro_undischarged_premises sets) in
    obligations ← mapM (open_obligation_record (cr_claim_id row)) (cr_open_obligations row);
    exclusions ← mapM (exclusion_record (cr_claim_id row)) (cr_out_of_scope row);
    Ok (mkResidualObligations assumptions (insert_all exclusions (ro_exclusions sets))
          (insert_all obligations (ro_open_obligations sets)) premises).
Fixpoint residual_rows (claims : list ClaimStatus) (sets : ResidualObligations) (rows : list ClaimResidualReport) :
    result CompositionError ResidualObligations :=
  match rows with
  | [] => Ok sets
  | row :: rows => sets ← residual_row claims sets row; residual_rows claims sets rows
  end.
Definition residual_obligations (claims : list ClaimStatus) (rows : list ClaimResidualReport) :
    result CompositionError ResidualObligations :=
  claim_ids ← claim_ids claims;
  let row_ids := set_of (map cr_claim_id rows) in
  if negb (length row_ids =? length rows) || negb (bool_decide (row_ids = claim_ids)) then Err ReleaseClaimOmitted
  else residual_rows claims (mkResidualObligations [] [] [] []) rows.

(** * The bundle *)

Definition bundle_names (inputs : CompositionInputs) : list (string * ArtifactBytes) :=
  [("pbr", ci_runtime inputs); ("pbr-native-launcher", ci_launcher inputs); ("pbr-verify", ci_execution_verifier inputs);
   ("pbr-compose", ci_composer inputs)].
Definition validate_registered (registered : ManifestArtifact) (name : string) (bytes : ArtifactBytes) :
    result CompositionError ArtifactIdentity :=
  if differs (ma_name registered) name || differs (ab_name bytes) name then Err BundleRoleMismatch
  else
    size ← ok_or (try_from u64_bound (Z.of_nat (length (ab_bytes bytes)))) SchemaInvalid;
    if differs (ma_sha256 registered) (digest_hex (ab_bytes bytes)) || negb (ma_size registered =? size)%Z
    then Err BundleSubstituted else Ok (artifact_identity bytes).
Definition validate_bundle (manifest : RuntimeManifest) (inputs : CompositionInputs) :
    result CompositionError (list ArtifactIdentity) :=
  if differs (rm_schema manifest) RELEASE_MANIFEST_SCHEMA
     || is_empty_string (rm_toolchain manifest)
     || is_empty_string (rm_version manifest)
     || negb (one_of (rm_architecture manifest) ["aarch64"; "x86_64"])
     || negb (one_of (rm_target manifest) ["aarch64-unknown-linux-gnu"; "x86_64-unknown-linux-gnu"])
  then Err SchemaInvalid
  else
    let expected := bundle_names inputs in
    if negb (length (rm_artifacts manifest) =? length expected) then Err BundleRoleMismatch
    else mapM (fun re : ManifestArtifact * (string * ArtifactBytes) => validate_registered re.1 re.2.1 re.2.2)
           (zip (rm_artifacts manifest) expected).

(** * The execution *)

Definition valid_eligibility (eligibility : WireEligibility) : bool :=
  if String.eqb (we_status eligibility) "reusable" then bool_decide (we_reasons eligibility = [])
  else if String.eqb (we_status eligibility) "non-reusable" then negb (bool_decide (we_reasons eligibility = []))
  else false.
Definition validate_wire_artifact (wire : WireArtifact) (role : string) (expected : ArtifactIdentity) :
    result CompositionError () :=
  if differs (wa_role wire) role then Err BundleRoleMismatch
  else
    expected_sha256 ← ok_or (str_strip_prefix "sha256:" (ai_sha256 expected)) SchemaInvalid;
    if differs (wa_sha256 wire) expected_sha256 || differs (wa_size wire) (ai_size expected) || (wa_mode wire =? 0)%Z
    then Err BundleSubstituted else Ok ().
Definition trusts (base : list WireTcbEntry) (role : string) (artifact : ArtifactIdentity) : bool :=
  let raw_digest := trim_start_matches (ai_sha256 artifact) "sha256:" in
  existsb (fun entry => String.eqb (wt_role entry) role && String.eqb (wt_identity entry) raw_digest) base.
(** [bundle_artifacts[index]] *)
Definition artifact_at (artifacts : list ArtifactIdentity) (index : nat) : result (fault CompositionError) ArtifactIdentity :=
  ok_or (artifacts !! index) Panicked.
Definition validate_execution (receipt : ExecutionFacts) (verification : ExecutionVerification)
    (bundle_artifacts : list ArtifactIdentity) (inputs : CompositionInputs) : result (fault CompositionError) () :=
  let expected_schema := if ef_version_two receipt then EXECUTION_RECEIPT_SCHEMA_V2 else EXECUTION_RECEIPT_SCHEMA in
  if differs (ef_schema receipt) expected_schema
     || is_empty_string (ef_product_version receipt)
     || negb (ev_valid verification)
     || negb (valid_eligibility (ev_eligibility verification))
     || differs (we_status (ev_eligibility verification)) (we_status (ef_eligibility receipt))
     || negb (bool_decide (we_reasons (ev_eligibility verification) = we_reasons (ef_eligibility receipt)))
     || differs (ev_receipt_commitment verification) (ci_expected_execution_commitment inputs)
     || differs (digest_text (ab_bytes (ci_execution_receipt inputs))) (ci_expected_execution_commitment inputs)
  then Err (Failure ExecutionInvalid)
  else if differs (ef_execution_id receipt) (ci_expected_execution_id inputs) then Err (Failure ExecutionReplayed)
  else
    first ← artifact_at bundle_artifacts 0;
    _ ← lift_fault (validate_wire_artifact (wr_runtime (ef_runtime receipt)) "runtime-binary" first);
    second ← artifact_at bundle_artifacts 1;
    _ ← lift_fault (validate_wire_artifact (wr_launcher (ef_runtime receipt)) "launcher-binary" second);
    _ ← lift_fault (validate_wire_artifact (ef_producer receipt) "runtime-binary" first);
    if negb (trusts (ef_trusted_computing_base receipt) "runtime-binary" first)
       || negb (trusts (ef_trusted_computing_base receipt) "launcher-binary" second)
    then Err (Failure TrustedComputingBaseOmitted) else Ok ().

(** * What is inherited *)

Definition inherited_assumptions (claims : list ClaimStatus) (execution : list string) : list InheritedEntry :=
  let origins := fold_left (fun origins claim => entry_insert_all (cs_assumptions claim) "release" origins) claims [] in
  let origins := entry_insert_all execution "execution" origins in
  map (fun entry => mkInheritedEntry entry.1 entry.2) origins.
Definition component_key (component : ReleaseTcbComponent) : string * string :=
  ("proofbound-component",
   String.append (rtc_name component) (String.append "@" (String.append (rtc_version component)
     (String.append "#" (rtc_identity_sha256 component))))).
Definition component_invalid (component : ReleaseTcbComponent) : bool :=
  is_empty_string (rtc_name component) || is_empty_string (rtc_version component)
  || negb (is_digest (rtc_identity_sha256 component)).
Definition tcb_invalid (entry : WireTcbEntry) : bool := is_empty_string (wt_role entry) || is_empty_string (wt_identity entry).
(** A loop that returns at the first invalid element. *)
Fixpoint entries_or_invalid {A} (invalid : A -> bool) (key : A -> string * string) (origin : string)
    (entries : list (string * string * list string)) (l : list A) : result CompositionError (list (string * string * list string)) :=
  match l with
  | [] => Ok entries
  | a :: l => if invalid a then Err SchemaInvalid else entries_or_invalid invalid key origin (entry_insert (key a) origin entries) l
  end.
Definition inherited_tcb (release : TcbLedger) (execution : list WireTcbEntry) : result CompositionError (list ComposedTcbEntry) :=
  if differs (tl_schema release) "proofbound-tcb-ledger/1" || bool_decide (tl_components release = []) then Err SchemaInvalid
  else
    entries ← entries_or_invalid component_invalid component_key "release" [] (tl_components release);
    entries ← entries_or_invalid tcb_invalid (fun entry => (wt_role entry, wt_identity entry)) "execution" entries execution;
    Ok (map (fun entry => mkComposedTcbEntry entry.1.2 entry.2 entry.1.1) entries).

(** * Identity and bytes *)

Definition schema_invalid {E A} (m : result E A) : result CompositionError A := map_err (fun _ => SchemaInvalid) m.
Definition composed_body (receipt : ComposedReceipt) : result CompositionError Json :=
  match ComposedReceipt_to_value receipt with
  | Json_Object members => Ok (Json_Object (object_remove "composition_id" members))
  | _ => Err SchemaInvalid
  end.
Definition composition_identity (receipt : ComposedReceipt) : result CompositionError string :=
  value ← composed_body receipt;
  body ← ok_or (to_vec value) SchemaInvalid;
  Ok (String.append "sha256:" (VerifyDecode.hex (sha256 (COMPOSITION_DOMAIN ++ body)))).
Definition composition_identity_v2 (receipt : ComposedReceipt) : result CompositionError string :=
  value ← composed_body receipt;
  body ← schema_invalid (encode_composed_v2 value);
  Ok (String.append "sha256:" (VerifyDecode.hex (sha256 (COMPOSITION_DOMAIN_V2 ++ body)))).
Definition canonical_bytes (receipt : ComposedReceipt) : result CompositionError (list byte) :=
  ok_or (to_vec (ComposedReceipt_to_value receipt)) SchemaInvalid.
Definition canonical_v2_bytes (receipt : ComposedReceipt) : result CompositionError (list byte) :=
  schema_invalid (encode_composed_v2 (ComposedReceipt_to_value receipt)).
Definition with_composition_id (receipt : ComposedReceipt) (id : string) : ComposedReceipt :=
  mkComposedReceipt (cmp_assumptions receipt) (cmp_claims receipt) id (cmp_eligibility receipt) (cmp_execution receipt)
    (cmp_not_proved_out_of_scope receipt) (cmp_release receipt) (cmp_runtime_bundle receipt) (cmp_schema receipt)
    (cmp_trusted_computing_base receipt).

(** * Composition *)

Context {json : VerifyDecode.SerdeJson} (scan : list byte -> option VerifyReceipt.JsonSyntax).

Definition wire_artifact (artifact : CompositionArtifact) : WireArtifact :=
  mkWireArtifact (ca_mode artifact) (ca_role artifact) (ca_sha256 artifact) (ca_size artifact).
Definition execution_facts (facts : ReceiptCompositionFacts) : ExecutionFacts :=
  mkExecutionFacts (cf_assumptions facts)
    (mkWireEligibility (cf_eligibility_reasons facts) (if cf_reusable facts then "reusable" else "non-reusable"))
    (cf_execution_id facts) (wire_artifact (cf_producer facts)) (cf_product_version facts)
    (mkWireRuntime (wire_artifact (cf_launcher facts)) (wire_artifact (cf_runtime facts))) (cf_schema facts)
    (map (fun entry => mkWireTcbEntry (ct_identity entry) (ct_role entry)) (cf_trusted_computing_base facts)) true.
Definition starts_with_brace (bytes : list byte) : bool := bool_decide (head bytes = Some "{"%char).
Definition execution_invalid {E A} (m : result E A) : result (fault CompositionError) A :=
  map_err (fun _ => Failure ExecutionInvalid) m.
Definition parse_execution_facts (inputs : CompositionInputs) : result (fault CompositionError) ExecutionFacts :=
  let bytes := ab_bytes (ci_execution_receipt inputs) in
  if starts_with_brace bytes then
    receipt ← lift_fault (parse (parse_execution_receipt bytes)); Ok (ExecutionFacts_from receipt)
  else
    expected ← execution_invalid (ReceiptCommitment_parse (ci_expected_execution_commitment inputs));
    _ ← map_err (fun e => match e with Failure _ => Failure ExecutionInvalid | Panicked => Panicked end)
          (VerifyReceipt.verify_receipt scan sha256 bytes expected);
    decoded ← execution_invalid (VerifyDecode.decode_receipt bytes);
    let facts := composition_facts decoded in
    if negb (cf_version_two facts) then Err (Failure ExecutionInvalid) else Ok (execution_facts facts).

Definition composed_receipt (inputs : CompositionInputs) (envelope : ReleaseEnvelope) (report : ReleaseReport)
    (manifest : RuntimeManifest) (execution : ExecutionFacts) (evidence_context : string)
    (bundle_artifacts : list ArtifactIdentity) (residual : ResidualObligations) (tcb : list ComposedTcbEntry) :
    ComposedReceipt :=
  {|
    cmp_assumptions := inherited_assumptions (rr_claims report) (ef_assumptions execution);
    cmp_claims := rr_claims report;
    cmp_composition_id := "";
    cmp_eligibility := mkComposedEligibility "composed";
    cmp_execution := {|
      xi_commitment := ci_expected_execution_commitment inputs;
      xi_eligibility := we_status (ef_eligibility execution);
      xi_execution_id := ef_execution_id execution;
      xi_receipt := artifact_identity (ci_execution_receipt inputs);
      xi_verification_report := artifact_identity (ci_execution_verification inputs);
      xi_verifier := artifact_identity (ci_execution_verifier inputs) |};
    cmp_not_proved_out_of_scope := residual;
    cmp_release := {|
      ri_envelope := artifact_identity (ci_release_envelope inputs);
      ri_evidence_context := evidence_context;
      ri_observation_inputs := artifact_identity (ci_release_observation_inputs inputs);
      ri_payload_sha256 := re_payload_sha256 envelope;
      ri_project := rr_project report;
      ri_project_revision := rr_project_revision report;
      ri_verification_report := artifact_identity (ci_release_verification inputs);
      ri_verification_verdict := rr_verdict report;
      ri_verifier := artifact_identity (ci_release_verifier inputs) |};
    cmp_runtime_bundle := {|
      rb_architecture := rm_architecture manifest;
      rb_artifacts := bundle_artifacts;
      rb_manifest := artifact_identity (ci_runtime_manifest inputs);
      rb_target := rm_target manifest;
      rb_toolchain := rm_toolchain manifest;
      rb_version := rm_version manifest |};
    cmp_schema := if ef_version_two execution then COMPOSITION_SCHEMA_V2 else COMPOSITION_SCHEMA;
    cmp_trusted_computing_base := tcb
  |}.
Definition compose (inputs : CompositionInputs) : result (fault CompositionError) (list byte) :=
  envelope ← lift_fault (parse (parse_release_envelope (ab_bytes (ci_release_envelope inputs))));
  report ← lift_fault (parse (parse_release_report (ab_bytes (ci_release_verification inputs))));
  compiled ← lift_fault (parse (parse_compiled_release (ab_bytes (ci_compiled_release inputs))));
  release_tcb ← lift_fault (parse (parse_tcb_ledger (ab_bytes (ci_release_tcb_ledger inputs))));
  manifest ← lift_fault (parse (parse_runtime_manifest (ab_bytes (ci_runtime_manifest inputs))));
  execution ← parse_execution_facts inputs;
  verification ← lift_fault (parse (parse_execution_verification (ab_bytes (ci_execution_verification inputs))));
  evidence_context ← lift_fault (validate_release envelope report compiled inputs);
  bundle_artifacts ← lift_fault (validate_bundle manifest inputs);
  _ ← validate_execution execution verification bundle_artifacts inputs;
  residual ← lift_fault (residual_obligations (rr_claims report) (rr_not_proved_out_of_scope report));
  tcb ← lift_fault (inherited_tcb release_tcb (ef_trusted_computing_base execution));
  let receipt := composed_receipt inputs envelope report manifest execution evidence_context bundle_artifacts residual tcb in
  if ef_version_two execution then
    id ← lift_fault (composition_identity_v2 receipt); lift_fault (canonical_v2_bytes (with_composition_id receipt id))
  else
    id ← lift_fault (composition_identity receipt); lift_fault (canonical_bytes (with_composition_id receipt id)).

(** * Reading a composition back *)

Definition parse_composed_receipt (bytes : list byte) : result CompositionError ComposedReceipt :=
  if starts_with_brace bytes then
    receipt ← parse (parse_composed bytes);
    if differs (cmp_schema receipt) COMPOSITION_SCHEMA then Err SchemaInvalid else Ok receipt
  else
    value ← schema_invalid (decode_composed_v2_model bytes);
    receipt ← parse (composed_from_value value);
    if differs (cmp_schema receipt) COMPOSITION_SCHEMA_V2 then Err SchemaInvalid else Ok receipt.
Definition verify_composed_receipt (bytes : list byte) (inputs : CompositionInputs) : result (fault CompositionError) () :=
  actual ← lift_fault (parse_composed_receipt bytes);
  expected_bytes ← compose inputs;
  expected ← lift_fault (parse_composed_receipt expected_bytes);
  if negb (bool_decide (cmp_assumptions actual = cmp_assumptions expected)) then Err (Failure AssumptionOmitted)
  else if negb (bool_decide (cmp_trusted_computing_base actual = cmp_trusted_computing_base expected))
  then Err (Failure TrustedComputingBaseOmitted)
  else if negb (bool_decide (cmp_claims actual = cmp_claims expected)) then Err (Failure ReleaseDowngraded)
  else if negb (bool_decide (bytes = expected_bytes)) then Err (Failure CompositionMismatch)
  else Ok ().
(** [value.get("schema").and_then(Value::as_str)] *)
Definition value_schema (value : Json) : option string :=
  match value with
  | Json_Object members =>
    member ← List.find (fun kv => String.eqb kv.1 "schema") members;
    match member.2 with Json_String schema => Some schema | _ => None end
  | _ => None
  end.
Definition project_composed_receipt (bytes : list byte) : result CompositionError Json :=
  if starts_with_brace bytes then
    value ← parse (parse_value bytes);
    receipt ← parse (composed_from_value value);
    if differs (cmp_schema receipt) COMPOSITION_SCHEMA then Err SchemaInvalid else Ok value
  else
    value ← schema_invalid (project_composed_v2 bytes);
    if negb (bool_decide (value_schema value = Some COMPOSITION_SCHEMA_V2)) then Err SchemaInvalid else Ok value.
Definition claim_facts (claim : ClaimStatus) : AcceptanceClaimFacts :=
  mkAcceptanceClaimFacts (cs_claim_id claim) (cs_formal claim) (cs_linkage claim) (cs_assumption claim) (cs_policy_admitted claim).
Definition decode_release_acceptance_facts (bytes : list byte) : result CompositionError ReleaseAcceptanceFacts :=
  receipt ← parse_composed_receipt bytes;
  if differs (cmp_schema receipt) COMPOSITION_SCHEMA_V2 then Err SchemaInvalid
  else Ok {|
    raf_composition_id := cmp_composition_id receipt;
    raf_project := ri_project (cmp_release receipt);
    raf_project_revision := ri_project_revision (cmp_release receipt);
    raf_payload_sha256 := ri_payload_sha256 (cmp_release receipt);
    raf_evidence_context := ri_evidence_context (cmp_release receipt);
    raf_runtime_bundle_version := rb_version (cmp_runtime_bundle receipt);
    raf_runtime_bundle_architecture := rb_architecture (cmp_runtime_bundle receipt);
    raf_claims := map claim_facts (cmp_claims receipt);
    raf_assumptions := map ie_id (cmp_assumptions receipt);
    raf_exclusions := ro_exclusions (cmp_not_proved_out_of_scope receipt);
    raf_open_obligations := ro_open_obligations (cmp_not_proved_out_of_scope receipt);
    raf_tcb_roles := map cte_role (cmp_trusted_computing_base receipt)
  |}.
End serde.
End compose.
