(* ===== verification/Accept.v ===== *)
(** The adopter's acceptance policy
    ([proofbound-runtime-accept/src/lib.rs], [cbor.rs]): decoding and validation of
    the policy, evaluation of its clauses against the verified execution and
    release facts, and the canonical decision.  SHA-256 and the derived
    deserializers of the policy and of the decision are parameters. *)
From S2P Require Import Prelude Identity JsonCbor ReceiptViews Compose.
From S2P Require WireV2 WireMaps VerifyCbor VerifyDecode.
From Stdlib Require Import Ascii ZArith Lia Sorted.
From stdpp Require Import prelude strings list numbers.
Export stdpp.list_relations.list.

Definition POLICY_SCHEMA : string := "proofbound-runtime-acceptance-policy/1".
Definition DECISION_SCHEMA : string := "proofbound-runtime-acceptance-decision/2".
Definition zero_terminated (s : string) : list byte := String.list_ascii_of_string s ++ [mkb 0].
Definition POLICY_DOMAIN : list byte := zero_terminated "proofbound-runtime-acceptance-policy/1".
Definition DECISION_DOMAIN : list byte := zero_terminated "proofbound-runtime-acceptance-decision/2".

Inductive AcceptanceError := MalformedPolicy | InvalidPolicy | InvalidIdentity | InvalidDecision | EncodingFailed.
Definition AcceptanceError_code (e : AcceptanceError) : string :=
  match e with
  | MalformedPolicy => "acceptance.policy.malformed-cbor"
  | InvalidPolicy => "acceptance.policy.invalid"
  | InvalidIdentity => "acceptance.identity.invalid"
  | InvalidDecision => "acceptance.decision.invalid"
  | EncodingFailed => "acceptance.decision.encoding-failed"
  end.

(** * The policy *)

Record PlatformPolicy := mkPlatformPolicy { pp_architecture : string; pp_operating_system : string }.
Record ResourcePolicy := mkResourcePolicy {
  rsp_pids_max : Z; rsp_memory_max : Z; rsp_memory_oom_group : Z; rsp_memory_swap_max : Z
}.
Record ExecutablePolicy := mkExecutablePolicy { xp_mode : Z; xp_size : Z; xp_sha256 : string }.
Record FreshnessPolicy := mkFreshnessPolicy { fp_mode : string }.
Record ExecutionPolicy := mkExecutionPolicy {
  ep_plan_id : string;
  ep_platform : PlatformPolicy;
  ep_resources : ResourcePolicy;
  ep_executable : ExecutablePolicy;
  ep_eligibility : string;
  ep_freshness : FreshnessPolicy;
  ep_policy_sha256 : string;
  ep_runtime_version : string;
  ep_receipt_schema : string;
  ep_policy_model_version : string
}.
Record ClaimPolicy := mkClaimPolicy {
  cp_formal : string; cp_linkage : string; cp_claim_id : string; cp_assumption : string;
  cp_policy_admitted : bool
}.
Record ReleasePolicy := mkReleasePolicy {
  rlp_claims : list ClaimPolicy;
  rlp_directory_sha256 : string;
  rlp_project : string;
  rlp_payload_sha256 : string;
  rlp_evidence_context : string;
  rlp_project_revision : string;
  rlp_verifier_sha256 : string
}.
Record RejectPolicy := mkRejectPolicy {
  rj_tcb_roles : list string; rj_exclusions : list string; rj_assumptions : list string;
  rj_open_obligations : list string
}.
Record AcceptancePolicy := mkAcceptancePolicy {
  ap_schema : string; ap_release : ReleasePolicy; ap_execution : ExecutionPolicy;
  ap_reject_if_present : RejectPolicy
}.
Record DecodedPolicy := mkDecodedPolicy {
  dp_policy : AcceptancePolicy; dp_identity : string; dp_identity_matches : bool
}.

(** * Texts *)

Definition is_hex_exact (value : string) (bytes : nat) : bool :=
  (length (bytes_of value) =? bytes * 2) && forallb is_hex (bytes_of value).
Definition is_digest (value : string) : bool :=
  match str_strip_prefix "sha256:" value with Some hex => is_hex_exact hex 32 | None => false end.
Definition is_uuid (value : string) : bool :=
  (length (bytes_of value) =? 36)
  && forallb (fun index => bool_decide (bytes_of value !! index = Some "-"%char)) uuid_dashes
  && forallb (fun ib : nat * byte => existsb (Nat.eqb ib.1) uuid_dashes || is_hex ib.2)
       (zip (seq 0 (length (bytes_of value))) (bytes_of value)).
Definition same_digest (actual expected : string) : bool :=
  String.eqb actual expected
  || match str_strip_prefix "sha256:" expected with Some expected => String.eqb actual expected | None => false end.

(** * [cbor.rs] *)

Definition digest_fields : list string :=
  ["sha256"; "policy_sha256"; "payload_sha256"; "decision_id"; "composition_id"; "policy_identity";
   "execution_commitment"].
Definition encode_string (value : string) (path : list string) : encoder := fun output =>
  match list_basics.list.last path with
  | Some field =>
    if String.eqb field "execution_id" then bytes ← parse_uuid value; encode_bytes bytes output
    else if String.eqb field "project_revision" then bytes ← parse_hex_exact (bytes_of value) 20; encode_bytes bytes output
    else if one_of field digest_fields then bytes ← parse_digest value; encode_bytes bytes output
    else encode_text value output
  | None => encode_text value output
  end.
Definition project_bytes (bytes : list byte) (path : list string) : result () string :=
  match list_basics.list.last path with
  | Some field =>
    if String.eqb field "execution_id" && (length bytes =? 16) then Ok (VerifyDecode.uuid_text bytes)
    else if String.eqb field "project_revision" && (length bytes =? 20) then Ok (VerifyDecode.hex bytes)
    else if length bytes =? 32 then Ok (String.append "sha256:" (VerifyDecode.hex bytes))
    else Err ()
  | None => Err ()
  end.
Definition decode_model (input : list byte) : result () Json :=
  value ← decode input; project (fun value _ => Json_U64 value) project_bytes value [].
Definition project_json : list byte -> result () Json := decode_model.
Definition encode_model (value : Json) : result () (list byte) := encode_json encode_string value [] [].

(** * Validation of the policy *)

Definition valid_claim_policy (claim : ClaimPolicy) : bool :=
  negb (is_empty_string (cp_claim_id claim))
  && one_of (cp_formal claim) ["PROVED"; "BOUNDED_CHECKED"; "TESTED"; "OPEN"; "INVALID"]
  && one_of (cp_linkage claim) ["REFINED"; "ARTIFACT_BOUND"; "TRANSCRIBED"; "MODEL_ONLY"; "INVALID"]
  && one_of (cp_assumption claim) ["NONE"; "ASSUMED"; "INVALID"].
Definition strict_strings (values : list string) : bool :=
  forallb (fun value => negb (is_empty_string value)) values && windows_all (fun a b => rlt a b) values.
Definition strict_by {A} (values : list A) (key : A -> string) : bool :=
  windows_all (fun a b => rlt (key a) (key b)) values.
Definition validate_policy (policy : AcceptancePolicy) : result AcceptanceError () :=
  let execution := ap_execution policy in
  let release := ap_release policy in
  let resources := ep_resources execution in
  if negb (String.eqb (ap_schema policy) POLICY_SCHEMA)
     || negb (String.eqb (ep_receipt_schema execution) "proofbound-runtime-execution-receipt/2")
     || negb (String.eqb (ep_policy_model_version execution) "proofbound-runtime-linux-policy/2")
     || negb (String.eqb (pp_operating_system (ep_platform execution)) "linux")
     || negb (one_of (pp_architecture (ep_platform execution)) ["x86_64"; "aarch64"])
     || negb (one_of (ep_eligibility execution) ["reusable"; "non-reusable"])
     || negb (String.eqb (fp_mode (ep_freshness execution)) "not-required")
     || is_empty_string (ep_plan_id execution)
     || (128 <? str_len (ep_plan_id execution))
     || is_empty_string (ep_runtime_version execution)
     || (xp_mode (ep_executable execution) =? 0)%Z
     || (4095 <? xp_mode (ep_executable execution))%Z
     || (rsp_pids_max resources =? 0)%Z
     || negb ((65536 <=? rsp_memory_max resources)%Z && (rsp_memory_max resources <=? 1099511627776)%Z)
     || (1099511627776 <? rsp_memory_swap_max resources)%Z
     || negb (rsp_memory_max resources mod 65536 =? 0)%Z
     || negb (rsp_memory_swap_max resources mod 65536 =? 0)%Z
     || negb (rsp_memory_oom_group resources =? 1)%Z
     || negb (is_digest (xp_sha256 (ep_executable execution)))
     || negb (is_digest (ep_policy_sha256 execution))
     || is_empty_string (rlp_project release)
     || is_empty_string (rlp_evidence_context release)
     || (128 <? str_len (rlp_evidence_context release))
     || negb (is_digest (rlp_payload_sha256 release))
     || negb (is_digest (rlp_directory_sha256 release))
     || negb (is_digest (rlp_verifier_sha256 release))
     || negb (is_hex_exact (rlp_project_revision release) 20)
     || bool_decide (rlp_claims release = [])
     || negb (strict_by (rlp_claims release) cp_claim_id)
     || negb (forallb valid_claim_policy (rlp_claims release))
     || negb (strict_strings (rj_assumptions (ap_reject_if_present policy)))
     || negb (strict_strings (rj_exclusions (ap_reject_if_present policy)))
     || negb (strict_strings (rj_open_obligations (ap_reject_if_present policy)))
     || negb (strict_strings (rj_tcb_roles (ap_reject_if_present policy)))
  then Err InvalidPolicy else Ok ().

(** * Decisions *)

Inductive RejectionReason :=
| PolicyIdentityMismatch | ReleaseVerificationFailed | ExecutionVerificationFailed
| DiagnosticProfileNotReusable | InputVerificationFailed | CompositionMissing | ExecutionReplay
| ExecutionSchemaMismatch | RuntimeVersionMismatch | PlatformMismatch | ArchitectureMismatch
| PlanIdMismatch | ExecutableMismatch | AuthorityMismatch | ResourceMismatch | EligibilityMismatch
| FreshnessPolicyUnsupported | ReleaseProjectMismatch | ReleaseRevisionMismatch
| ReleasePayloadMismatch | ReleaseContextMismatch | ReleaseDirectoryMismatch
| ReleaseVerifierMismatch | ClaimMissing | ClaimFormalMismatch | ClaimLinkageMismatch
| ClaimAssumptionMismatch | ClaimPolicyMismatch | ForbiddenAssumption | ForbiddenExclusion
| ForbiddenOpenObligation | ForbiddenTcbRole.
#[global] Instance RejectionReason_eq_dec : EqDecision RejectionReason.
Proof. solve_decision. Defined.
Definition RejectionReason_all_codes : list string :=
  ["architecture-mismatch"; "authority-mismatch"; "claim-assumption-mismatch"; "claim-formal-mismatch";
   "claim-linkage-mismatch"; "claim-missing"; "claim-policy-mismatch"; "composition-missing";
   "diagnostic-profile-not-reusable"; "eligibility-mismatch"; "executable-mismatch"; "execution-replay";
   "execution-schema-mismatch"; "execution-verification-failed"; "forbidden-assumption";
   "forbidden-exclusion"; "forbidden-open-obligation"; "forbidden-tcb-role";
   "freshness-policy-unsupported"; "input-verification-failed"; "plan-id-mismatch"; "platform-mismatch";
   "policy-identity-mismatch"; "release-context-mismatch"; "release-directory-mismatch";
   "release-payload-mismatch"; "release-project-mismatch"; "release-revision-mismatch";
   "release-verification-failed"; "release-verifier-mismatch"; "resource-mismatch";
   "runtime-version-mismatch"].
Definition RejectionReason_as_str (r : RejectionReason) : string :=
  match r with
  | PolicyIdentityMismatch => "policy-identity-mismatch"
  | ReleaseVerificationFailed => "release-verification-failed"
  | ExecutionVerificationFailed => "execution-verification-failed"
  | DiagnosticProfileNotReusable => "diagnostic-profile-not-reusable"
  | InputVerificationFailed => "input-verification-failed"
  | CompositionMissing => "composition-missing"
  | ExecutionReplay => "execution-replay"
  | ExecutionSchemaMismatch => "execution-schema-mismatch"
  | RuntimeVersionMismatch => "runtime-version-mismatch"
  | PlatformMismatch => "platform-mismatch"
  | ArchitectureMismatch => "architecture-mismatch"
  | PlanIdMismatch => "plan-id-mismatch"
  | ExecutableMismatch => "executable-mismatch"
  | AuthorityMismatch => "authority-mismatch"
  | ResourceMismatch => "resource-mismatch"
  | EligibilityMismatch => "eligibility-mismatch"
  | FreshnessPolicyUnsupported => "freshness-policy-unsupported"
  | ReleaseProjectMismatch => "release-project-mismatch"
  | ReleaseRevisionMismatch => "release-revision-mismatch"
  | ReleasePayloadMismatch => "release-payload-mismatch"
  | ReleaseContextMismatch => "release-context-mismatch"
  | ReleaseDirectoryMismatch => "release-directory-mismatch"
  | ReleaseVerifierMismatch => "release-verifier-mismatch"
  | ClaimMissing => "claim-missing"
  | ClaimFormalMismatch => "claim-formal-mismatch"
  | ClaimLinkageMismatch => "claim-linkage-mismatch"
  | ClaimAssumptionMismatch => "claim-assumption-mismatch"
  | ClaimPolicyMismatch => "claim-policy-mismatch"
  | ForbiddenAssumption => "forbidden-assumption"
  | ForbiddenExclusion => "forbidden-exclusion"
  | ForbiddenOpenObligation => "forbidden-open-obligation"
  | ForbiddenTcbRole => "forbidden-tcb-role"
  end.
(** [Ord] compares the codes. *)
#[global] Instance RejectionReason_ord : RustOrd RejectionReason := ord_via RejectionReason_as_str.
#[global] Instance RejectionReason_as_str_inj : Inj (=) (=) RejectionReason_as_str.
Proof. intros [] []; (reflexivity || discriminate). Qed.
#[global] Instance RejectionReason_lawful : LawfulOrd RejectionReason.
Proof. apply (ord_via_lawful RejectionReason_as_str). Qed.

Record DecisionInput := mkDecisionInput { di_role : string; di_size : Z; di_sha256 : string }.
Record EvaluationInputs := mkEvaluationInputs {
  ei_execution : ReceiptAcceptanceFacts;
  ei_release : ReleaseAcceptanceFacts;
  ei_expected_execution_commitment : string;
  ei_expected_execution_id : string;
  ei_composition_id : string;
  ei_proofbound_release_sha256 : string;
  ei_proofbound_verifier_sha256 : string;
  ei_artifacts : list DecisionInput
}.
Record WireDecision := mkWireDecision {
  wd_schema : string;
  wd_status : string;
  wd_inputs : list DecisionInput;
  wd_reasons : list RejectionReason;
  wd_decision_id : string;
  wd_execution_id : string;
  wd_composition_id : option string;
  wd_policy_identity : string;
  wd_execution_commitment : string
}.
Record AcceptanceDecision := mkAcceptanceDecision { ad_wire : WireDecision; ad_bytes : list byte }.
Definition AcceptanceDecision_accepted (self : AcceptanceDecision) : bool :=
  String.eqb (wd_status (ad_wire self)) "accepted".
Definition AcceptanceDecision_projection (self : AcceptanceDecision) : result AcceptanceError Json :=
  map_err (fun _ => InvalidDecision) (project_json (ad_bytes self)).

(** [serde_json::to_value]: the fields in their order, inserted into the map. *)
Definition DecisionInput_to_value (input : DecisionInput) : Json :=
  Json_Object (object_of [("role", Json_String (di_role input)); ("size", Json_U64 (di_size input));
    ("sha256", Json_String (di_sha256 input))]).
Definition WireDecision_to_value (wire : WireDecision) : Json :=
  Json_Object (object_of
    [("schema", Json_String (wd_schema wire));
     ("status", Json_String (wd_status wire));
     ("inputs", Json_Array (map DecisionInput_to_value (wd_inputs wire)));
     ("reasons", Json_Array (map (fun r => Json_String (RejectionReason_as_str r)) (wd_reasons wire)));
     ("decision_id", Json_String (wd_decision_id wire));
     ("execution_id", Json_String (wd_execution_id wire));
     ("composition_id", match wd_composition_id wire with Some id => Json_String id | None => Json_Null end);
     ("policy_identity", Json_String (wd_policy_identity wire));
     ("execution_commitment", Json_String (wd_execution_commitment wire))]).
(** [as_object_mut().ok_or(..)?.remove("decision_id")] *)
Definition without_decision_id (value : Json) (e : AcceptanceError) : result AcceptanceError Json :=
  match value with Json_Object members => Ok (Json_Object (object_remove "decision_id" members)) | _ => Err e end.

Definition INPUT_ROLES : list string :=
  ["acceptance-policy"; "release-envelope"; "compiled-release"; "release-verification"; "release-verifier";
   "release-observation-inputs"; "release-tcb-ledger"; "runtime-manifest"; "runtime"; "launcher";
   "execution-verifier"; "composer"; "acceptor"; "execution-receipt"; "execution-verification"].
Definition validate_artifacts (artifacts : list DecisionInput) : result AcceptanceError () :=
  if negb (length artifacts =? length INPUT_ROLES)
     || existsb (fun ar : DecisionInput * string => negb (String.eqb (di_role ar.1) ar.2) || negb (is_digest (di_sha256 ar.1)))
          (zip artifacts INPUT_ROLES)
  then Err InvalidDecision else Ok ().

(** * Evaluation *)

Definition Reasons : Type := list RejectionReason.
(** [if condition { reasons.insert(reason); }] *)
Definition insert_if (condition : bool) (reason : RejectionReason) (reasons : Reasons) : Reasons :=
  if condition then set_insert reason reasons else reasons.

Definition evaluate_execution (policy : ExecutionPolicy) (actual : ReceiptAcceptanceFacts)
    (release : ReleaseAcceptanceFacts) (reasons : Reasons) : Reasons :=
  let reasons := insert_if (differs (af_schema actual) (ep_receipt_schema policy)) ExecutionSchemaMismatch reasons in
  let reasons := insert_if (differs (af_runtime_version actual) (ep_runtime_version policy)
    || differs (raf_runtime_bundle_version release) (ep_runtime_version policy)) RuntimeVersionMismatch reasons in
  let reasons := insert_if (differs (af_operating_system actual) (pp_operating_system (ep_platform policy)))
    PlatformMismatch reasons in
  let reasons := insert_if (differs (af_architecture actual) (pp_architecture (ep_platform policy))
    || differs (raf_runtime_bundle_architecture release) (pp_architecture (ep_platform policy)))
    ArchitectureMismatch reasons in
  let reasons := insert_if (differs (af_plan_id actual) (ep_plan_id policy)) PlanIdMismatch reasons in
  let reasons := insert_if
    (negb (ca_mode (af_executable actual) =? xp_mode (ep_executable policy))%Z
     || negb (bool_decide (u64_parse (bytes_of (ca_size (af_executable actual))) = Some (xp_size (ep_executable policy))))
     || negb (same_digest (ca_sha256 (af_executable actual)) (xp_sha256 (ep_executable policy))))
    ExecutableMismatch reasons in
  let reasons := insert_if (differs (af_policy_model_version actual) (ep_policy_model_version policy)
    || negb (same_digest (af_policy_sha256 actual) (ep_policy_sha256 policy))) AuthorityMismatch reasons in
  let resources := ep_resources policy in
  let reasons := insert_if
    (negb (af_pids_max actual =? rsp_pids_max resources)%Z
     || negb (af_memory_max actual =? rsp_memory_max resources)%Z
     || negb (af_memory_oom_group actual =? rsp_memory_oom_group resources)%Z
     || negb (af_memory_swap_max actual =? rsp_memory_swap_max resources)%Z)
    ResourceMismatch reasons in
  let eligibility := if af_reusable actual then "reusable" else "non-reusable" in
  let reasons := insert_if (differs eligibility (ep_eligibility policy)) EligibilityMismatch reasons in
  insert_if (differs (fp_mode (ep_freshness policy)) "not-required") FreshnessPolicyUnsupported reasons.

Definition compare_claim (required : ClaimPolicy) (actual : AcceptanceClaimFacts) (reasons : Reasons) : Reasons :=
  let reasons := insert_if (differs (acf_formal actual) (cp_formal required)) ClaimFormalMismatch reasons in
  let reasons := insert_if (differs (acf_linkage actual) (cp_linkage required)) ClaimLinkageMismatch reasons in
  let reasons := insert_if (differs (acf_assumption actual) (cp_assumption required)) ClaimAssumptionMismatch reasons in
  insert_if (negb (eqb (acf_policy_admitted actual) (cp_policy_admitted required))) ClaimPolicyMismatch reasons.
Definition evaluate_claim (actual : ReleaseAcceptanceFacts) (reasons : Reasons) (required : ClaimPolicy) : Reasons :=
  match List.find (fun claim => String.eqb (acf_claim_id claim) (cp_claim_id required)) (raf_claims actual) with
  | None => set_insert ClaimMissing reasons
  | Some claim => compare_claim required claim reasons
  end.
Definition intersects (forbidden actual : list string) : bool :=
  existsb (fun value => one_of value actual) forbidden.
Definition evaluate_release (policy : ReleasePolicy) (reject : RejectPolicy) (actual : ReleaseAcceptanceFacts)
    (proofbound_release_sha256 proofbound_verifier_sha256 : string) (reasons : Reasons) : Reasons :=
  let reasons := insert_if (differs (raf_project actual) (rlp_project policy)) ReleaseProjectMismatch reasons in
  let reasons := insert_if (differs (raf_project_revision actual) (rlp_project_revision policy))
    ReleaseRevisionMismatch reasons in
  let reasons := insert_if (differs (raf_payload_sha256 actual) (rlp_payload_sha256 policy)) ReleasePayloadMismatch reasons in
  let reasons := insert_if (differs (raf_evidence_context actual) (rlp_evidence_context policy))
    ReleaseContextMismatch reasons in
  let reasons := insert_if (negb (same_digest proofbound_release_sha256 (rlp_directory_sha256 policy)))
    ReleaseDirectoryMismatch reasons in
  let reasons := insert_if (negb (same_digest proofbound_verifier_sha256 (rlp_verifier_sha256 policy)))
    ReleaseVerifierMismatch reasons in
  let reasons := fold_left (evaluate_claim actual) (rlp_claims policy) reasons in
  let reasons := insert_if (intersects (rj_assumptions reject) (raf_assumptions actual)) ForbiddenAssumption reasons in
  let reasons := insert_if (intersects (rj_exclusions reject) (raf_exclusions actual)) ForbiddenExclusion reasons in
  let reasons := insert_if (intersects (rj_open_obligations reject) (raf_open_obligations actual))
    ForbiddenOpenObligation reasons in
  insert_if (intersects (rj_tcb_roles reject) (raf_tcb_roles actual)) ForbiddenTcbRole reasons.

Section accept.
Context (sha256 : list byte -> list byte).
(** The derived deserializers. *)
Context (policy_from_value : Json -> option AcceptancePolicy) (decision_from_value : Json -> option WireDecision).

Definition domain_digest (domain bytes : list byte) : string :=
  String.append "sha256:" (VerifyDecode.hex (sha256 (domain ++ bytes))).
Definition digest (bytes : list byte) : string := String.append "sha256:" (VerifyDecode.hex (sha256 bytes)).
Definition DecisionInput_new (role : string) (bytes : list byte) : DecisionInput :=
  mkDecisionInput role (Z.of_nat (length bytes)) (digest bytes).

Definition decode_policy (bytes : list byte) (expected_identity : string) : result AcceptanceError DecodedPolicy :=
  if negb (is_digest expected_identity) then Err InvalidIdentity
  else
    value ← map_err (fun _ => MalformedPolicy) (decode_model bytes);
    policy ← ok_or (policy_from_value value) InvalidPolicy;
    _ ← validate_policy policy;
    let identity := domain_digest POLICY_DOMAIN bytes in
    Ok (mkDecodedPolicy policy identity (String.eqb identity expected_identity)).

Definition encoding_failed {A} (m : result () A) : result AcceptanceError A := map_err (fun _ => EncodingFailed) m.
Definition with_decision_id (wire : WireDecision) (id : string) : WireDecision :=
  mkWireDecision (wd_schema wire) (wd_status wire) (wd_inputs wire) (wd_reasons wire) id (wd_execution_id wire)
    (wd_composition_id wire) (wd_policy_identity wire) (wd_execution_commitment wire).
Definition build_decision (policy : DecodedPolicy) (expected_execution_commitment expected_execution_id : string)
    (composition_id : option string) (artifacts : list DecisionInput) (reasons : Reasons) :
    result AcceptanceError AcceptanceDecision :=
  if negb (is_digest expected_execution_commitment)
     || match composition_id with Some value => negb (is_digest value) | None => false end
     || negb (is_uuid expected_execution_id)
  then Err InvalidIdentity
  else
    let wire := mkWireDecision DECISION_SCHEMA (if bool_decide (reasons = []) then "accepted" else "rejected")
      artifacts reasons "" expected_execution_id composition_id (dp_identity policy) expected_execution_commitment in
    _ ← validate_artifacts (wd_inputs wire);
    body ← without_decision_id (WireDecision_to_value wire) EncodingFailed;
    encoded ← encoding_failed (encode_model body);
    let wire := with_decision_id wire (domain_digest DECISION_DOMAIN encoded) in
    bytes ← encoding_failed (encode_model (WireDecision_to_value wire));
    Ok (mkAcceptanceDecision wire bytes).

Definition evaluate (policy : DecodedPolicy) (inputs : EvaluationInputs) : result AcceptanceError AcceptanceDecision :=
  if negb (is_digest (ei_expected_execution_commitment inputs))
     || negb (is_digest (ei_composition_id inputs))
     || negb (is_uuid (ei_expected_execution_id inputs))
  then Err InvalidIdentity
  else
    let reasons := insert_if (negb (dp_identity_matches policy)) PolicyIdentityMismatch [] in
    let reasons := evaluate_execution (ap_execution (dp_policy policy)) (ei_execution inputs) (ei_release inputs) reasons in
    let reasons := evaluate_release (ap_release (dp_policy policy)) (ap_reject_if_present (dp_policy policy))
      (ei_release inputs) (ei_proofbound_release_sha256 inputs) (ei_proofbound_verifier_sha256 inputs) reasons in
    let reasons := insert_if (differs (af_execution_id (ei_execution inputs)) (ei_expected_execution_id inputs))
      InputVerificationFailed reasons in
    build_decision policy (ei_expected_execution_commitment inputs) (ei_expected_execution_id inputs)
      (Some (ei_composition_id inputs)) (ei_artifacts inputs) reasons.

Definition reject_unverified (policy : DecodedPolicy) (expected_execution_commitment expected_execution_id : string)
    (artifacts : list DecisionInput) (reason : RejectionReason) : result AcceptanceError AcceptanceDecision :=
  let reasons := if dp_identity_matches policy then [reason] else Prelude.sort [reason; PolicyIdentityMismatch] in
  build_decision policy expected_execution_commitment expected_execution_id None artifacts reasons.

Definition project_decision (bytes : list byte) : result AcceptanceError Json :=
  value ← map_err (fun _ => InvalidDecision) (decode_model bytes);
  wire ← ok_or (decision_from_value value) InvalidDecision;
  if differs (wd_schema wire) DECISION_SCHEMA
     || negb (is_digest (wd_decision_id wire))
     || negb (is_digest (wd_policy_identity wire))
     || negb (is_digest (wd_execution_commitment wire))
     || negb (is_uuid (wd_execution_id wire))
     || match wd_composition_id wire with Some value => negb (is_digest value) | None => false end
     || negb (windows_all (fun a b => rlt a b) (wd_reasons wire))
     || (String.eqb (wd_status wire) "accepted"
         && (negb (bool_decide (wd_reasons wire = [])) || bool_decide (wd_composition_id wire = None)))
     || (String.eqb (wd_status wire) "rejected" && bool_decide (wd_reasons wire = []))
     || negb (one_of (wd_status wire) ["accepted"; "rejected"])
  then Err InvalidDecision
  else
    _ ← validate_artifacts (wd_inputs wire);
    body ← without_decision_id (WireDecision_to_value wire) InvalidDecision;
    encoded ← map_err (fun _ => InvalidDecision) (encode_model body);
    if differs (domain_digest DECISION_DOMAIN encoded) (wd_decision_id wire) then Err InvalidDecision
    else map_err (fun _ => InvalidDecision) (project_json bytes).
End accept.

(** * Lemmas: the codec *)

(** What the string at a path is written as. *)
Definition string_value (value : string) (path : list string) : option WireV2.Value :=
  match list_basics.list.last path with
  | Some field =>
    if String.eqb field "execution_id" then WireV2.Bytes <$> result_ok (parse_uuid value)
    else if String.eqb field "project_revision" then WireV2.Bytes <$> result_ok (parse_hex_exact (bytes_of value) 20)
    else if one_of field digest_fields then WireV2.Bytes <$> result_ok (parse_digest value)
    else Some (WireV2.Text value)
  | None => Some (WireV2.Text value)
  end.
Lemma encode_bytes_emits l : (Z.of_nat (length l) < u64_bound)%Z -> emits (encode_bytes l) (Some (WireV2.wire (WireV2.Bytes l))).
Proof. intros H out. unfold encode_bytes. rewrite encode_length_emits by done. cbn. by rewrite <- app_assoc. Qed.
Lemma encode_parsed_emits (m : result () (list byte)) n :
  (forall l, m = Ok l -> length l = n) -> (Z.of_nat n < u64_bound)%Z ->
  emits (fun output => bytes ← m; encode_bytes bytes output) (WireV2.wire <$> (WireV2.Bytes <$> result_ok m)).
Proof.
  intros Hm Hn out. destruct m as [l|[]]; cbn; [|done]. apply encode_bytes_emits. by rewrite (Hm l eq_refl).
Qed.
Lemma encode_string_emits value path :
  WireV2.text_ok value = true -> emits (encode_string value path) (WireV2.wire <$> string_value value path).
Proof.
  intros Ht. unfold encode_string, string_value. destruct (list_basics.list.last path) as [field|]; [|by apply encode_text_emits].
  destruct (String.eqb field "execution_id").
  { apply (encode_parsed_emits _ 16); [|done]. intros l Hl. by apply parse_uuid_Ok in Hl as [_ ?]. }
  destruct (String.eqb field "project_revision").
  { apply (encode_parsed_emits _ 20); [|done]. intros l Hl. by apply parse_hex_exact_Ok in Hl as [_ ?]. }
  destruct (one_of field digest_fields); [|by apply encode_text_emits].
  apply (encode_parsed_emits _ 32); [|done]. intros l Hl. by apply parse_digest_Ok in Hl as [_ ?].
Qed.
(** The three byte forms and the text, with what is read back. *)
Lemma string_value_cases value path w :
  string_value value path = Some w ->
  w = WireV2.Text value
  \/ exists l, w = WireV2.Bytes l /\ length l <= 32 /\ project_bytes l path = Ok value.
Proof.
  unfold string_value, project_bytes. destruct (list_basics.list.last path) as [field|]; [|intros [= <-]; by left].
  destruct (String.eqb_spec field "execution_id") as [->|Hne].
  { intros (l & [-> Hl]%result_ok_Some%parse_uuid_Ok & ->)%fmap_Some. right. exists l. split; [done|].
    rewrite Hl. split; [lia|]. cbn. done. }
  destruct (String.eqb_spec field "project_revision") as [->|Hne'].
  { intros (l & [Hv Hl]%result_ok_Some%parse_hex_exact_Ok & ->)%fmap_Some. right. exists l. split; [done|].
    rewrite Hl. split; [lia|]. cbn. f_equal. apply bytes_inj. by rewrite bytes_hex. }
  cbn [andb]. destruct (one_of field digest_fields); [|intros [= <-]; by left].
  intros (l & [-> Hl]%result_ok_Some%parse_digest_Ok & ->)%fmap_Some. right. exists l. split; [done|].
  rewrite Hl. split; [lia|]. done.
Qed.
Lemma string_value_ok value path w :
  WireV2.text_ok value = true -> string_value value path = Some w ->
  WireMaps.encodable w = true /\ WireV2.canon w = w.
Proof.
  intros Ht [-> | (l & -> & Hl & _)]%string_value_cases; (split; [|done]).
  - by apply WireMaps.encodable_Text.
  - apply WireMaps.encodable_Bytes, WireV2.in_u64_spec. unfold u64_bound. lia.
Qed.
Lemma string_value_back value path w :
  WireV2.text_ok value = true -> True -> string_value value path = Some w ->
  project (fun value _ => Json_U64 value) project_bytes (VerifyCbor.seen w) path = Ok (Json_String value).
Proof. intros Ht _ [-> | (l & -> & Hl & Hp)]%string_value_cases; cbn; [done|]. by rewrite Hp. Qed.

Lemma json_plain_all path v : json_plain (fun value _ => Json_U64 value) (fun _ _ => True) path v.
Proof.
  revert path. induction v as [| | | | |s|vs IH|kvs IH] using Json_rec_full; intros path; cbn; try done;
    apply foldr_Forall; (eapply Forall_impl; [exact IH|]); cbn; auto.
Qed.
(** What [encode_model] writes, [decode_model] reads. *)
Lemma decode_encode_model v bytes :
  json_typed v -> encode_model v = Ok bytes ->
  (forall w, wire_value string_value [] v = Some w -> WireV2.within_limits (WireV2.canon w) = true) ->
  decode_model bytes = Ok v.
Proof.
  intros Hty He Hl. unfold decode_model.
  apply (decode_encode_json _ _ encode_string_emits string_value_ok _ _ (fun _ _ => True) string_value_back); try done.
  apply json_plain_all.
Qed.
Lemma encode_model_total v w :
  json_typed v -> wire_value string_value [] v = Some w -> encode_model v = Ok (WireV2.wire (WireV2.canon w)).
Proof.
  intros Hty Hw. unfold encode_model.
  rewrite (encode_json_emits _ _ encode_string_emits string_value_ok) by done. by rewrite Hw.
Qed.
