(* ===== verification/AcceptDecision.v ===== *)
(** What an acceptance decision means
    ([proofbound-runtime-accept/src/lib.rs]): the clauses of [evaluate] against a
    declarative reading of the policy, when a decision exists, and what
    [project_decision] reads back. *)
From S2P Require Import Prelude Identity JsonCbor ReceiptViews Compose Accept.
From S2P Require WireV2 WireMaps VerifyCbor VerifyDecode.
From Stdlib Require Import Ascii ZArith Lia Sorted.
From stdpp Require Import prelude strings list numbers.
Export stdpp.list_relations.list.

(** * The declarative reading of a policy *)

(** A digest names another, with or without the algorithm. *)
Definition names_digest (actual expected : string) : Prop :=
  actual = expected \/ expected = String.append "sha256:" actual.
Definition same_executable (actual : CompositionArtifact) (expected : ExecutablePolicy) : Prop :=
  ca_mode actual = xp_mode expected /\ u64_parse (bytes_of (ca_size actual)) = Some (xp_size expected)
  /\ names_digest (ca_sha256 actual) (xp_sha256 expected).
Definition same_resources (actual : ReceiptAcceptanceFacts) (expected : ResourcePolicy) : Prop :=
  af_pids_max actual = rsp_pids_max expected /\ af_memory_max actual = rsp_memory_max expected
  /\ af_memory_oom_group actual = rsp_memory_oom_group expected /\ af_memory_swap_max actual = rsp_memory_swap_max expected.
(** [claim] is the first of the release with the identifier. *)
Definition claim_named (claims : list AcceptanceClaimFacts) (id : string) (claim : AcceptanceClaimFacts) : Prop :=
  exists before after, claims = before ++ claim :: after /\ acf_claim_id claim = id
    /\ Forall (fun other => acf_claim_id other <> id) before.
Definition some_claim (policy : ReleasePolicy) (actual : ReleaseAcceptanceFacts)
    (P : ClaimPolicy -> AcceptanceClaimFacts -> Prop) : Prop :=
  exists required claim, required ∈ rlp_claims policy
    /\ claim_named (raf_claims actual) (cp_claim_id required) claim /\ P required claim.
Definition meets (forbidden actual : list string) : Prop := exists value, value ∈ forbidden /\ value ∈ actual.

Definition execution_violated (policy : ExecutionPolicy) (actual : ReceiptAcceptanceFacts)
    (release : ReleaseAcceptanceFacts) (r : RejectionReason) : Prop :=
  match r with
  | ExecutionSchemaMismatch => af_schema actual <> ep_receipt_schema policy
  | RuntimeVersionMismatch =>
    af_runtime_version actual <> ep_runtime_version policy \/ raf_runtime_bundle_version release <> ep_runtime_version policy
  | PlatformMismatch => af_operating_system actual <> pp_operating_system (ep_platform policy)
  | ArchitectureMismatch =>
    af_architecture actual <> pp_architecture (ep_platform policy)
    \/ raf_runtime_bundle_architecture release <> pp_architecture (ep_platform policy)
  | PlanIdMismatch => af_plan_id actual <> ep_plan_id policy
  | ExecutableMismatch => ~ same_executable (af_executable actual) (ep_executable policy)
  | AuthorityMismatch =>
    af_policy_model_version actual <> ep_policy_model_version policy
    \/ ~ names_digest (af_policy_sha256 actual) (ep_policy_sha256 policy)
  | ResourceMismatch => ~ same_resources actual (ep_resources policy)
  | EligibilityMismatch => ep_eligibility policy <> if af_reusable actual then "reusable" else "non-reusable"
  | FreshnessPolicyUnsupported => fp_mode (ep_freshness policy) <> "not-required"
  | _ => False
  end.
Definition release_violated (policy : ReleasePolicy) (reject : RejectPolicy) (actual : ReleaseAcceptanceFacts)
    (release_sha256 verifier_sha256 : string) (r : RejectionReason) : Prop :=
  match r with
  | ReleaseProjectMismatch => raf_project actual <> rlp_project policy
  | ReleaseRevisionMismatch => raf_project_revision actual <> rlp_project_revision policy
  | ReleasePayloadMismatch => raf_payload_sha256 actual <> rlp_payload_sha256 policy
  | ReleaseContextMismatch => raf_evidence_context actual <> rlp_evidence_context policy
  | ReleaseDirectoryMismatch => ~ names_digest release_sha256 (rlp_directory_sha256 policy)
  | ReleaseVerifierMismatch => ~ names_digest verifier_sha256 (rlp_verifier_sha256 policy)
  | ClaimMissing =>
    exists required, required ∈ rlp_claims policy /\ cp_claim_id required ∉ map acf_claim_id (raf_claims actual)
  | ClaimFormalMismatch => some_claim policy actual (fun required claim => acf_formal claim <> cp_formal required)
  | ClaimLinkageMismatch => some_claim policy actual (fun required claim => acf_linkage claim <> cp_linkage required)
  | ClaimAssumptionMismatch =>
    some_claim policy actual (fun required claim => acf_assumption claim <> cp_assumption required)
  | ClaimPolicyMismatch =>
    some_claim policy actual (fun required claim => acf_policy_admitted claim <> cp_policy_admitted required)
  | ForbiddenAssumption => meets (rj_assumptions reject) (raf_assumptions actual)
  | ForbiddenExclusion => meets (rj_exclusions reject) (raf_exclusions actual)
  | ForbiddenOpenObligation => meets (rj_open_obligations reject) (raf_open_obligations actual)
  | ForbiddenTcbRole => meets (rj_tcb_roles reject) (raf_tcb_roles actual)
  | _ => False
  end.
Definition violated (policy : DecodedPolicy) (inputs : EvaluationInputs) (r : RejectionReason) : Prop :=
  match r with
  | PolicyIdentityMismatch => dp_identity_matches policy = false
  | InputVerificationFailed => af_execution_id (ei_execution inputs) <> ei_expected_execution_id inputs
  | _ =>
    execution_violated (ap_execution (dp_policy policy)) (ei_execution inputs) (ei_release inputs) r
    \/ release_violated (ap_release (dp_policy policy)) (ap_reject_if_present (dp_policy policy)) (ei_release inputs)
         (ei_proofbound_release_sha256 inputs) (ei_proofbound_verifier_sha256 inputs) r
  end.

(** * The tests of the code *)

Lemma elem_insert_if c r x s : x ∈ insert_if c r s <-> (c = true /\ x = r) \/ x ∈ s.
Proof. unfold insert_if. destruct c; [rewrite elem_of_set_insert|]; naive_solver. Qed.
Lemma same_digest_true a b : same_digest a b = true <-> names_digest a b.
Proof.
  unfold same_digest, names_digest. rewrite orb_true_iff, String.eqb_eq.
  assert (match str_strip_prefix "sha256:" b with Some e => String.eqb a e | None => false end = true
    <-> b = String.append "sha256:" a) as ->; [|done].
  rewrite <- str_strip_prefix_Some. destruct (str_strip_prefix "sha256:" b); [rewrite String.eqb_eq|]; naive_solver.
Qed.
Lemma intersects_true f a : intersects f a = true <-> meets f a.
Proof.
  unfold intersects, meets. rewrite existsb_exists. setoid_rewrite one_of_true. by setoid_rewrite list_elem_of_In.
Qed.
Lemma negb_true_not b P : (b = true <-> P) -> negb b = true <-> ~ P.
Proof. intros <-. rewrite negb_true_iff. by destruct b. Qed.
Lemma same_executable_test a p :
  negb (ca_mode a =? xp_mode p)%Z || negb (bool_decide (u64_parse (bytes_of (ca_size a)) = Some (xp_size p)))
  || negb (same_digest (ca_sha256 a) (xp_sha256 p)) = true <-> ~ same_executable a p.
Proof.
  rewrite <- !negb_andb. apply negb_true_not. unfold same_executable.
  rewrite !andb_true_iff, Z.eqb_eq, bool_decide_eq_true, same_digest_true. tauto.
Qed.
Lemma same_resources_test a p :
  negb (af_pids_max a =? rsp_pids_max p)%Z || negb (af_memory_max a =? rsp_memory_max p)%Z
  || negb (af_memory_oom_group a =? rsp_memory_oom_group p)%Z || negb (af_memory_swap_max a =? rsp_memory_swap_max p)%Z = true
  <-> ~ same_resources a p.
Proof.
  rewrite <- !negb_andb. apply negb_true_not. unfold same_resources.
  rewrite !andb_true_iff, !Z.eqb_eq. tauto.
Qed.

(** Every clause of the policy. *)
Lemma elem_evaluate_execution p a rel s r :
  r ∈ evaluate_execution p a rel s <-> execution_violated p a rel r \/ r ∈ s.
Proof.
  unfold evaluate_execution. rewrite !elem_insert_if, same_executable_test, same_resources_test.
  rewrite !orb_true_iff, !differs_true, (negb_true_not _ _ (same_digest_true _ _)).
  assert ((if af_reusable a then "reusable" else "non-reusable") <> ep_eligibility p
    <-> ep_eligibility p <> if af_reusable a then "reusable" else "non-reusable") as -> by (split; congruence).
  destruct r; cbn [execution_violated]; intuition discriminate.
Qed.
Lemma find_claim claims id :
  match List.find (fun claim => String.eqb (acf_claim_id claim) id) claims with
  | Some claim => claim_named claims id claim /\ id ∈ map acf_claim_id claims
  | None => id ∉ map acf_claim_id claims
  end.
Proof.
  induction claims as [|c l IH]; cbn; [set_solver|]. destruct (String.eqb_spec (acf_claim_id c) id) as [He|Hne].
  - split; [exists [], l; done|]. rewrite He. constructor.
  - destruct (List.find _ l).
    + destruct IH as [(before & after & -> & Hid & Hb) Hin]. split; [|by constructor].
      exists (c :: before), after. by repeat constructor.
    + set_solver.
Qed.
Lemma claim_named_unique claims id c c' : claim_named claims id c -> claim_named claims id c' -> c = c'.
Proof.
  intros (b & a & -> & Hc & Hb) (b' & a' & Heq & Hc' & Hb'). revert b' Heq Hb'.
  induction Hb as [|x b Hx Hb IH]; intros [|y b'] Heq Hb'; cbn in Heq; simplify_eq; [done|..].
  - by apply Forall_inv in Hb'.
  - apply Forall_inv_tail in Hb'. by eapply IH.
Qed.
Definition claim_violated (actual : ReleaseAcceptanceFacts) (required : ClaimPolicy) (r : RejectionReason) : Prop :=
  let named := claim_named (raf_claims actual) (cp_claim_id required) in
  match r with
  | ClaimMissing => cp_claim_id required ∉ map acf_claim_id (raf_claims actual)
  | ClaimFormalMismatch => exists c, named c /\ acf_formal c <> cp_formal required
  | ClaimLinkageMismatch => exists c, named c /\ acf_linkage c <> cp_linkage required
  | ClaimAssumptionMismatch => exists c, named c /\ acf_assumption c <> cp_assumption required
  | ClaimPolicyMismatch => exists c, named c /\ acf_policy_admitted c <> cp_policy_admitted required
  | _ => False
  end.
Lemma elem_evaluate_claim actual s required r :
  r ∈ evaluate_claim actual s required <-> claim_violated actual required r \/ r ∈ s.
Proof.
  unfold evaluate_claim, claim_violated. cbv zeta. pose proof (find_claim (raf_claims actual) (cp_claim_id required)) as Hf.
  destruct (List.find _ (raf_claims actual)) as [claim|].
  - destruct Hf as [Hn Hin]. unfold compare_claim. rewrite !elem_insert_if, !differs_true.
    assert (negb (eqb (acf_policy_admitted claim) (cp_policy_admitted required)) = true
      <-> acf_policy_admitted claim <> cp_policy_admitted required) as -> by (rewrite negb_true_iff; apply eqb_false_iff).
    assert (forall P : AcceptanceClaimFacts -> Prop,
      (exists c, claim_named (raf_claims actual) (cp_claim_id required) c /\ P c) <-> P claim) as Hex.
    { intros P. split; [|by exists claim]. intros (c & Hc & HP). by rewrite (claim_named_unique _ _ _ _ Hn Hc). }
    destruct r; rewrite ?Hex; intuition discriminate.
  - rewrite elem_of_set_insert.
    assert (forall P : AcceptanceClaimFacts -> Prop,
      (exists c, claim_named (raf_claims actual) (cp_claim_id required) c /\ P c) <-> False) as Hex.
    { intros P. split; [|done]. intros (c & (b & a & Heq & Hid & _) & _). apply Hf. rewrite Heq, map_app. cbn.
      rewrite Hid. set_solver. }
    destruct r; rewrite ?Hex; intuition discriminate.
Qed.
Lemma elem_fold_claims actual claims s r :
  r ∈ fold_left (evaluate_claim actual) claims s
  <-> (exists required, required ∈ claims /\ claim_violated actual required r) \/ r ∈ s.
Proof.
  revert s. induction claims as [|c l IH]; intros s; cbn [fold_left]; [set_solver|].
  rewrite IH, elem_evaluate_claim. setoid_rewrite elem_of_cons. naive_solver.
Qed.
Lemma elem_evaluate_release p j a d v s r :
  r ∈ evaluate_release p j a d v s <-> release_violated p j a d v r \/ r ∈ s.
Proof.
  unfold evaluate_release. rewrite !elem_insert_if, elem_fold_claims, !elem_insert_if.
  rewrite !differs_true, !intersects_true, !(negb_true_not _ _ (same_digest_true _ _)).
  unfold release_violated, some_claim, claim_violated. destruct r; naive_solver.
Qed.

#[local] Abbreviation strict := (StronglySorted (fun a b : RejectionReason => rlt a b = true)).
Lemma insert_if_strict c r s : strict s -> strict (insert_if c r s).
Proof. intros Hs. unfold insert_if. destruct c; [by apply set_insert_strict|done]. Qed.
Lemma evaluate_claim_strict a s c : strict s -> strict (evaluate_claim a s c).
Proof.
  intros Hs. unfold evaluate_claim, compare_claim. destruct (List.find _ _).
  - by do 4 apply insert_if_strict.
  - by apply set_insert_strict.
Qed.
Lemma evaluate_execution_strict p a r s : strict s -> strict (evaluate_execution p a r s).
Proof. intros Hs. unfold evaluate_execution. by do 10 apply insert_if_strict. Qed.
Lemma evaluate_release_strict p j a d v s : strict s -> strict (evaluate_release p j a d v s).
Proof.
  intros Hs. unfold evaluate_release. do 4 apply insert_if_strict.
  assert (forall claims s, strict s -> strict (fold_left (evaluate_claim a) claims s)) as Hf.
  { clear. induction claims as [|c l IH]; intros s Hs; cbn; [done|]. by apply IH, evaluate_claim_strict. }
  apply Hf. by do 6 apply insert_if_strict.
Qed.

(** * Identities are what the encoder accepts *)

Lemma parse_hex_is_hex l n : length l = n * 2 -> forallb is_hex l = true -> exists d, parse_hex_exact l n = Ok d.
Proof. intros Hl Hh. unfold parse_hex_exact. rewrite Hl, Nat.eqb_refl. by apply unhex_is_hex. Qed.
Lemma is_digest_parse v : is_digest v = true <-> exists l, parse_digest v = Ok l.
Proof.
  unfold is_digest, parse_digest. split.
  - destruct (str_strip_prefix _ v) as [h|]; [|done]. unfold is_hex_exact.
    intros [Hl%Nat.eqb_eq Hh]%andb_true_iff. by apply parse_hex_is_hex.
  - intros [l H]. apply bind_Ok in H as (h & Hh%ok_or_Ok & [Heq Hl]%parse_hex_exact_Ok). rewrite Hh.
    unfold is_hex_exact. rewrite Heq, length_hex_bytes, hex_is_hex, Hl. done.
Qed.
Lemma is_uuid_parse v : is_uuid v = true -> exists l, parse_uuid v = Ok l.
Proof.
  unfold is_uuid, parse_uuid. rewrite !andb_true_iff. intros [[Hl%Nat.eqb_eq Hd] Hh]. rewrite Hl, Hd. cbn [negb orb Nat.eqb].
  destruct (uuid_cut _ Hl Hd) as (a & b & c & d & e & Ha & Hb & Hc & Hd' & He & Heq). rewrite Heq in Hh |- *.
  assert (forall x, filter (fun byte : ascii => byte <> "-"%char) ("-"%char :: x) = filter (fun byte => byte <> "-"%char) x)
    as Hdash by (intros x; by rewrite filter_cons_False by naive_solver).
  assert (forall x : list ascii, forallb is_hex x = true -> filter (fun byte => byte <> "-"%char) x = x) as Hkeep.
  { intros x Hx. apply filter_all. apply forallb_Forall' in Hx. eapply Forall_impl; [exact Hx|].
    by intros y Hy ->. }
  assert (forallb is_hex a = true /\ forallb is_hex b = true /\ forallb is_hex c = true /\ forallb is_hex d = true
    /\ forallb is_hex e = true) as (Xa & Xb & Xc & Xd & Xe).
  { clear -Hh Ha Hb Hc Hd' He. do 8 (destruct a as [|? a]; [done|]); destruct a; [|done].
    do 4 (destruct b as [|? b]; [done|]); destruct b; [|done]. do 4 (destruct c as [|? c]; [done|]); destruct c; [|done].
    do 4 (destruct d as [|? d]; [done|]); destruct d; [|done]. do 12 (destruct e as [|? e]; [done|]); destruct e; [|done].
    cbn in Hh |- *. rewrite !andb_true_r in *. repeat match type of Hh with _ && _ = true =>
      let X := fresh in apply andb_true_iff in Hh as [X Hh]; rewrite ?X; clear X end. by rewrite ?Hh. }
  rewrite !list_basics.list.filter_app, !Hdash, !list_basics.list.filter_app, !Hdash, !list_basics.list.filter_app, !Hdash,
    !list_basics.list.filter_app, !Hdash, !Hkeep by done.
  apply parse_hex_is_hex; [rewrite !length_app; lia|]. rewrite !forallb_app. by rewrite Xa, Xb, Xc, Xd, Xe.
Qed.
Lemma text_ok_ascii s :
  Forall (fun b => byte_in 0x00 0x7f b = true) (bytes_of s) -> length (bytes_of s) <= 4096 -> WireV2.text_ok s = true.
Proof.
  intros Ha Hl. unfold WireV2.text_ok, str_ok. rewrite utf8_valid_ascii by done. apply WireV2.in_u64_spec. unfold u64_bound. lia.
Qed.
Lemma hex_bytes_ascii l : Forall (fun b => byte_in 0x00 0x7f b = true) (hex_bytes l).
Proof. eapply Forall_impl; [apply forallb_Forall', (hex_is_hex l)|]. intros b. apply is_hex_ascii. Qed.
Lemma digest_text v : is_digest v = true -> WireV2.text_ok v = true /\ WireMaps.text_length v = 71%Z.
Proof.
  intros [l [-> Hl]%parse_digest_Ok]%is_digest_parse. unfold WireMaps.text_length.
  assert (length (bytes_of (String.append "sha256:" (VerifyDecode.hex l))) = 71) as H71
    by (rewrite bytes_append, bytes_hex, length_app, length_hex_bytes, Hl; done).
  split; [|by rewrite H71]. apply text_ok_ascii; [|by rewrite H71; lia].
  rewrite bytes_append, bytes_hex. apply Forall_app. split; [by repeat constructor|apply hex_bytes_ascii].
Qed.
Lemma uuid_text_ok v : is_uuid v = true -> WireV2.text_ok v = true /\ WireMaps.text_length v = 36%Z.
Proof.
  intros Hu. unfold WireMaps.text_length.
  assert (length (bytes_of v) = 36) as H36.
  { unfold is_uuid in Hu. rewrite !andb_true_iff, Nat.eqb_eq in Hu. tauto. }
  split; [|by rewrite H36]. apply text_ok_ascii; [|by rewrite H36; lia].
  apply is_uuid_parse in Hu as [l [-> _]%parse_uuid_Ok]. unfold VerifyDecode.uuid_text.
  rewrite String.list_ascii_of_string_of_list_ascii.
  assert (forall i j, Forall (fun b => byte_in 0x00 0x7f b = true) (VerifyDecode.slice (hex_bytes l) i j)) as Hs
    by (intros i j; apply Forall_take, Forall_drop, hex_bytes_ascii).
  repeat (apply Forall_app; split); try apply Hs; by repeat constructor.
Qed.

(** * The members of a decision *)

Lemma sum_list_bound {A} (f : A -> Z) l m : Forall (fun x => f x <= m)%Z l -> (WireV2.sum_list (map f l) <= m * Z.of_nat (length l))%Z.
Proof. unfold WireV2.sum_list. induction 1; cbn; lia. Qed.
Lemma max_list_bound {A} (f : A -> nat) l m : Forall (fun x => f x <= m) l -> WireV2.max_list (map f l) <= m.
Proof. unfold WireV2.max_list. induction 1; cbn; lia. Qed.

Definition decision_members (wire : WireDecision) : list (string * Json) :=
  [("composition_id", match wd_composition_id wire with Some id => Json_String id | None => Json_Null end);
   ("decision_id", Json_String (wd_decision_id wire));
   ("execution_commitment", Json_String (wd_execution_commitment wire));
   ("execution_id", Json_String (wd_execution_id wire));
   ("inputs", Json_Array (map DecisionInput_to_value (wd_inputs wire)));
   ("policy_identity", Json_String (wd_policy_identity wire));
   ("reasons", Json_Array (map (fun r => Json_String (RejectionReason_as_str r)) (wd_reasons wire)));
   ("schema", Json_String (wd_schema wire));
   ("status", Json_String (wd_status wire))].
Definition decision_body (wire : WireDecision) : list (string * Json) := object_remove "decision_id" (decision_members wire).
Lemma WireDecision_value wire : WireDecision_to_value wire = Json_Object (decision_members wire).
Proof. reflexivity. Qed.
Lemma without_decision_id_value wire e : without_decision_id (WireDecision_to_value wire) e = Ok (Json_Object (decision_body wire)).
Proof. reflexivity. Qed.
Lemma decision_body_id wire id : decision_body (with_decision_id wire id) = decision_body wire.
Proof. reflexivity. Qed.

Record decision_ok (wire : WireDecision) : Prop := {
  dk_schema : wd_schema wire = DECISION_SCHEMA;
  dk_status : wd_status wire ∈ ["accepted"; "rejected"];
  dk_inputs : validate_artifacts (wd_inputs wire) = Ok ();
  dk_sizes : Forall (fun input => WireV2.in_u64 (di_size input) = true) (wd_inputs wire);
  dk_reasons : length (wd_reasons wire) <= 32;
  dk_decision : is_digest (wd_decision_id wire) = true;
  dk_execution : is_uuid (wd_execution_id wire) = true;
  dk_composition : match wd_composition_id wire with Some id => is_digest id = true | None => True end;
  dk_policy : is_digest (wd_policy_identity wire) = true;
  dk_commitment : is_digest (wd_execution_commitment wire) = true
}.
Lemma validate_artifacts_Ok inputs :
  validate_artifacts inputs = Ok ()
  <-> map di_role inputs = INPUT_ROLES /\ Forall (fun input => is_digest (di_sha256 input) = true) inputs.
Proof.
  unfold validate_artifacts. generalize INPUT_ROLES. intros roles.
  assert ((if negb (length inputs =? length roles) || existsb (fun ar : DecisionInput * string =>
      negb (String.eqb (di_role ar.1) ar.2) || negb (is_digest (di_sha256 ar.1))) (zip inputs roles)
    then Err InvalidDecision else Ok ()) = Ok () <->
    length inputs = length roles /\ existsb (fun ar : DecisionInput * string =>
      negb (String.eqb (di_role ar.1) ar.2) || negb (is_digest (di_sha256 ar.1))) (zip inputs roles) = false) as ->.
  { rewrite <- Nat.eqb_eq. destruct (_ =? _), (existsb _ _); cbn; naive_solver. }
  revert roles. induction inputs as [|x l IH]; intros [|r roles]; cbn.
  - by repeat split.
  - split; [by intros []|by intros [[=] ?]].
  - split; [by intros []|by intros [[=] ?]].
  - rewrite orb_false_iff, orb_false_iff, !negb_false_iff, String.eqb_eq, Forall_cons.
    specialize (IH roles). split.
    + intros [[= Hl] [[-> Hd] He]]. destruct (proj1 IH (conj Hl He)) as [-> ?]. done.
    + intros [[= -> Hr] [Hd Hf]]. destruct (proj2 IH (conj Hr Hf)) as [-> ?]. done.
Qed.
Lemma input_roles_ok : Forall (fun role => WireV2.text_ok role = true /\ (WireMaps.text_length role <= 32)%Z) INPUT_ROLES.
Proof. repeat constructor; vm_compute; (reflexivity || discriminate). Qed.
Lemma reason_ok r : WireV2.text_ok (RejectionReason_as_str r) = true /\ (WireMaps.text_length (RejectionReason_as_str r) <= 32)%Z.
Proof. destruct r; split; vm_compute; (reflexivity || discriminate). Qed.

(** A member that is encoded within small bounds. *)
Record member_fine (depth : nat) (path : list string) (v : Json) : Prop := {
  mf_typed : json_typed v;
  mf_wire : is_Some (wire_value string_value path v);
  mf_nesting : json_nesting v <= depth;
  mf_items : (json_items v <= 512)%Z;
  mf_weight : (json_weight v <= 8192)%Z
}.
Lemma fine_string depth path s n :
  WireV2.text_ok s = true /\ (WireMaps.text_length s <= n)%Z -> (n <= 71)%Z -> is_Some (string_value s path) ->
  member_fine depth path (Json_String s).
Proof. intros [Ht Hn] ? Hs. split; cbn; [done|done|lia|lia|lia]. Qed.
Lemma fine_text depth path s n field :
  WireV2.text_ok s = true /\ (WireMaps.text_length s <= n)%Z -> (n <= 71)%Z -> list_basics.list.last path = Some field ->
  one_of field ("execution_id" :: "project_revision" :: digest_fields) = false -> member_fine depth path (Json_String s).
Proof.
  intros Ht Hn Hp Hf. eapply (fine_string _ _ _ n); [done|lia|]. unfold string_value. rewrite Hp.
  cbn [one_of existsb] in Hf. apply orb_false_iff in Hf as [-> [-> Hf]%orb_false_iff].
  unfold one_of. rewrite Hf. by eexists.
Qed.
Lemma fine_digest depth path s field :
  is_digest s = true -> list_basics.list.last path = Some field -> one_of field digest_fields = true -> member_fine depth path (Json_String s).
Proof.
  intros Hd Hp Hf. destruct (digest_text s Hd) as [Ht Hl]. eapply (fine_string _ _ _ 71); [by rewrite Hl|lia|].
  apply is_digest_parse in Hd as [l Hl']. unfold string_value. rewrite Hp, Hf, Hl'.
  destruct (String.eqb_spec field "execution_id") as [->|_]; [discriminate Hf|].
  destruct (String.eqb_spec field "project_revision") as [->|_]; [discriminate Hf|]. by eexists.
Qed.
Lemma fine_uuid depth path s :
  is_uuid s = true -> list_basics.list.last path = Some "execution_id" -> member_fine depth path (Json_String s).
Proof.
  intros Hu Hp. destruct (uuid_text_ok s Hu) as [Ht Hl]. eapply (fine_string _ _ _ 36); [by rewrite Hl|lia|].
  apply is_uuid_parse in Hu as [l Hl']. unfold string_value. rewrite Hp. cbn [String.eqb Ascii.eqb Bool.eqb].
  rewrite Hl'. by eexists.
Qed.
Lemma fine_input input :
  WireV2.text_ok (di_role input) = true /\ (WireMaps.text_length (di_role input) <= 32)%Z ->
  is_digest (di_sha256 input) = true -> WireV2.in_u64 (di_size input) = true ->
  json_typed (DecisionInput_to_value input) /\ is_Some (wire_value string_value ["inputs"] (DecisionInput_to_value input))
  /\ json_nesting (DecisionInput_to_value input) = 1 /\ json_items (DecisionInput_to_value input) = 7%Z
  /\ (json_weight (DecisionInput_to_value input) <= 300)%Z.
Proof.
  intros Hr Hd Hz. pose proof (fine_text 0 ["inputs"; "role"] _ _ _ Hr ltac:(done) eq_refl eq_refl) as [Hr1 Hr2 _ _ _].
  pose proof (fine_digest 0 ["inputs"; "sha256"] _ _ Hd eq_refl eq_refl) as [Hd1 Hd2 _ _ _].
  change (DecisionInput_to_value input) with (Json_Object [("role", Json_String (di_role input));
    ("sha256", Json_String (di_sha256 input)); ("size", Json_U64 (di_size input))]).
  split; [|split; [|split; [done|split; [done|]]]].
  - cbn. split; [done|]. split; [|by repeat split]. by repeat constructor.
  - apply wire_value_Object. repeat constructor; [exact Hr2|exact Hd2|by eexists].
  - destruct Hr as [_ Hr], (digest_text _ Hd) as [_ Hl]. cbn -[Z.add]. rewrite Hl.
    unfold WireMaps.text_length in *. cbn in *. lia.
Qed.
Lemma fine_array depth path vs :
  length vs <= 32 ->
  Forall (fun v => json_typed v /\ is_Some (wire_value string_value path v) /\ json_nesting v <= depth
    /\ (json_items v <= 7)%Z /\ (json_weight v <= 80)%Z \/ json_typed v /\ is_Some (wire_value string_value path v)
    /\ json_nesting v <= depth /\ (json_items v <= 7)%Z /\ length vs <= 15 /\ (json_weight v <= 300)%Z) vs ->
  member_fine (S depth) path (Json_Array vs).
Proof.
  intros Hl Hv. split.
  - cbn. split; [apply WireV2.in_u64_spec; unfold u64_bound; lia|]. apply foldr_Forall. eapply Forall_impl; [exact Hv|]. cbn. tauto.
  - apply wire_value_Array. eapply Forall_impl; [exact Hv|]. cbn. tauto.
  - cbn. apply max_list_bound. eapply Forall_impl; [exact Hv|]. cbn. lia.
  - cbn. pose proof (sum_list_bound json_items vs 7) as H. lapply H; [lia|]. eapply Forall_impl; [exact Hv|]. cbn. lia.
  - cbn. destruct (decide (length vs <= 15)).
    + pose proof (sum_list_bound json_weight vs 300) as H. lapply H; [lia|]. eapply Forall_impl; [exact Hv|]. cbn. lia.
    + pose proof (sum_list_bound json_weight vs 80) as H. lapply H; [lia|]. eapply Forall_impl; [exact Hv|]. cbn. lia.
Qed.
Lemma decision_members_fine wire :
  decision_ok wire ->
  Forall (fun kv => WireV2.text_ok kv.1 = true /\ (WireMaps.text_length kv.1 <= 32)%Z /\ member_fine 2 [kv.1] kv.2)
    (decision_members wire).
Proof.
  intros [Hschema Hstatus Hinputs Hsizes Hreasons Hid Hexec Hcomp Hpol Hcommit].
  apply validate_artifacts_Ok in Hinputs as [Hroles Hdigests].
  unfold decision_members. repeat (apply Forall_cons; split; [split; [reflexivity|split; [vm_compute; discriminate|]]; cbn [fst snd]|]);
    [..|constructor].
  - destruct (wd_composition_id wire); [by eapply fine_digest|]. split; cbn; (done || lia || by eexists).
  - by eapply fine_digest.
  - by eapply fine_digest.
  - by eapply fine_uuid.
  - assert (length (wd_inputs wire) = 15) as H15 by (apply (f_equal length) in Hroles; by rewrite length_map in Hroles).
    apply fine_array; [by rewrite length_map, H15; lia|]. apply Forall_fmap, Forall_forall. intros input Hin. cbn.
    rewrite Forall_forall in Hsizes, Hdigests. right.
    destruct (fine_input input) as (? & ? & Hn & Hi & Hw); [|by apply Hdigests|by apply Hsizes|].
    { pose proof input_roles_ok as Hr. rewrite Forall_forall in Hr. apply Hr. rewrite <- Hroles.
      by apply list_elem_of_fmap_2. }
    rewrite length_map, H15. do 5 (split; [first [done | by rewrite Hn | by rewrite Hi | lia]|]). done.
  - by eapply fine_digest.
  - apply fine_array; [by rewrite length_map|]. apply Forall_fmap, Forall_forall. intros r _. cbn. left.
    destruct (fine_text 0 ["reasons"] _ _ _ (reason_ok r) ltac:(done) eq_refl eq_refl) as [H1 H2 _ _ _]. destruct (reason_ok r) as [_ Hl].
    do 4 (split; [first [done | by cbn; lia]|]). cbn. lia.
  - apply (fine_text _ _ _ 71 "schema"); [rewrite Hschema; split; vm_compute; (reflexivity || discriminate)|done..].
  - apply (fine_text _ _ _ 71 "status"); [|done..]. apply list_elem_of_In in Hstatus as [<-|[<-|[]]]; split; vm_compute; (reflexivity || discriminate).
Qed.
Lemma fine_object kvs :
  Forall (fun kv => WireV2.text_ok kv.1 = true /\ (WireMaps.text_length kv.1 <= 32)%Z /\ member_fine 2 [kv.1] kv.2) kvs ->
  object_sorted kvs -> length kvs <= 9 ->
  json_typed (Json_Object kvs) /\ is_Some (wire_value string_value [] (Json_Object kvs))
  /\ json_within_limits (Json_Object kvs) = true.
Proof.
  intros Hk Hs Hl. split; [|split].
  - cbn. split; [apply WireV2.in_u64_spec; unfold u64_bound; lia|]. split; [done|].
    apply foldr_Forall. eapply Forall_impl; [exact Hk|]. intros kv (? & _ & [? _ _ _ _]). done.
  - apply wire_value_Object. eapply Forall_impl; [exact Hk|]. intros kv (_ & _ & [_ ? _ _ _]). done.
  - unfold json_within_limits. rewrite !andb_true_iff, Nat.leb_le, !Z.leb_le. cbn.
    pose proof (max_list_bound (fun kv : string * Json => S (json_nesting kv.2)) kvs 3) as H1. lapply H1; clear H1.
    2: { eapply Forall_impl; [exact Hk|]. intros kv (_ & _ & [_ _ ? _ _]). lia. }
    pose proof (sum_list_bound (fun kv : string * Json => 1 + json_items kv.2)%Z kvs 513) as H2. lapply H2; clear H2.
    2: { eapply Forall_impl; [exact Hk|]. intros kv (_ & _ & [_ _ _ ? _]). lia. }
    pose proof (sum_list_bound (fun kv : string * Json => 9 + WireMaps.text_length kv.1 + json_weight kv.2)%Z kvs 8233) as H3.
    lapply H3; clear H3.
    2: { eapply Forall_impl; [exact Hk|]. intros kv (_ & ? & [_ _ _ _ ?]). lia. }
    unfold WireV2.MAX_DEPTH, WireV2.MAX_ITEMS, WireV2.MAX_BYTES. lia.
Qed.
Lemma decision_value_fine wire :
  decision_ok wire ->
  (json_typed (WireDecision_to_value wire) /\ is_Some (wire_value string_value [] (WireDecision_to_value wire))
   /\ json_within_limits (WireDecision_to_value wire) = true)
  /\ json_typed (Json_Object (decision_body wire)) /\ is_Some (wire_value string_value [] (Json_Object (decision_body wire))).
Proof.
  intros Hok. pose proof (decision_members_fine wire Hok) as Hf.
  assert (Forall (fun kv => WireV2.text_ok kv.1 = true /\ (WireMaps.text_length kv.1 <= 32)%Z /\ member_fine 2 [kv.1] kv.2)
    (decision_body wire)) as Hb.
  { rewrite Forall_forall in Hf |- *. intros kv [_ Hin]%list_elem_of_filter. by apply Hf. }
  assert (object_sorted (decision_body wire)) as Hs.
  { change (object_sorted (List.filter (fun kv => negb (String.eqb kv.1 "decision_id")) (decision_members wire))).
    by repeat constructor. }
  pose proof (fine_object _ Hb Hs) as Hbody. lapply Hbody; [intros (? & ? & _)|change (8 <= 9); lia].
  split; [|done]. rewrite WireDecision_value. apply fine_object; [done| |cbn; lia]. by repeat constructor.
Qed.

Lemma string_value_small s path w :
  string_value s path = Some w ->
  WireV2.nesting w = 0 /\ WireV2.item_count w = 1%Z /\ (WireMaps.weight w <= 41 + WireMaps.text_length s)%Z.
Proof.
  unfold WireMaps.text_length. intros [-> | (l & -> & Hl & _)]%string_value_cases; (split; [done|split; [done|]]); cbn;
    unfold WireMaps.text_length; lia.
Qed.
(** A decision is encoded, and its encoding is read back. *)
Lemma decision_encoded wire :
  decision_ok wire ->
  (exists body, encode_model (Json_Object (decision_body wire)) = Ok body)
  /\ exists bytes, encode_model (WireDecision_to_value wire) = Ok bytes
     /\ decode_model bytes = Ok (WireDecision_to_value wire).
Proof.
  intros Hok. destruct (decision_value_fine wire Hok) as ((Hty & [w Hw] & Hl) & Htb & [wb Hwb]). split.
  - eexists. by apply encode_model_total.
  - pose proof (encode_model_total _ _ Hty Hw) as He. eexists. split; [exact He|].
    apply decode_encode_model; [done|done|]. intros w' Hw'.
    eapply (wire_value_within string_value string_value_small); [exact Hl|exact Hw'].
Qed.

(** ** The same value, with every string as text *)

Definition text_value (s : string) (_ : list string) : option WireV2.Value := Some (WireV2.Text s).
Definition encode_as_text (v : Json) : result () (list byte) := encode_json (fun s _ => encode_text s) v [] [].
Lemma as_text_emits s (path : list string) :
  WireV2.text_ok s = true -> emits (encode_text s) (WireV2.wire <$> text_value s path).
Proof. apply encode_text_emits. Qed.
Lemma as_text_ok s path w :
  WireV2.text_ok s = true -> text_value s path = Some w -> WireMaps.encodable w = true /\ WireV2.canon w = w.
Proof. intros Ht [= <-]. split; [by apply WireMaps.encodable_Text|done]. Qed.
Lemma as_text_small s path w :
  text_value s path = Some w ->
  WireV2.nesting w = 0 /\ WireV2.item_count w = 1%Z /\ (WireMaps.weight w <= 41 + WireMaps.text_length s)%Z.
Proof. intros [= <-]. cbn. lia. Qed.
Lemma wire_value_text v path : json_typed v -> is_Some (wire_value string_value path v) -> is_Some (wire_value text_value path v).
Proof.
  revert path. induction v as [| | | | |s|vs IH|kvs IH] using Json_rec_full; intros path Hty Hw; try done; cbn in Hw.
  - apply wire_value_Array. destruct Hty as [_ Hty%foldr_Forall]. rewrite fmap_is_Some, mapM_is_Some in Hw.
    rewrite Forall_forall in *. intros v Hv. apply IH; [done|by apply Hty|by apply Hw].
  - apply wire_value_Object. destruct Hty as (_ & _ & Hty%foldr_Forall). rewrite fmap_is_Some, mapM_is_Some in Hw.
    rewrite Forall_forall in *. intros kv Hkv. apply IH; [done|by apply Hty|]. destruct (Hw kv Hkv) as [x Hx].
    apply bind_Some in Hx as (w & -> & _). by eexists.
Qed.
Lemma decision_as_text wire bytes :
  decision_ok wire -> encode_model (WireDecision_to_value wire) = Ok bytes ->
  exists bytes', bytes' <> bytes /\ decode_model bytes' = Ok (WireDecision_to_value wire).
Proof.
  intros Hok He. destruct (decision_value_fine wire Hok) as ((Hty & [w Hw] & Hl) & _).
  destruct (wire_value_text _ [] Hty (ex_intro _ w Hw)) as [w' Hw'].
  pose proof (encode_json_emits _ _ as_text_emits as_text_ok _ [] Hty []) as He'. rewrite Hw' in He'. cbn [fmap option_fmap option_map app] in He'.
  exists ((WireV2.wire ∘ WireV2.canon) w'). split.
  - rewrite (encode_model_total _ _ Hty Hw) in He. injection He as <-. cbn. intros Heq.
    apply WireMaps.wire_inj in Heq;
      [|exact (WireMaps.encodable_canon_ok _ (json_wire_encodable _ as_text_ok _ _ _ Hty Hw'))
       |exact (WireMaps.encodable_canon_ok _ (json_wire_encodable _ string_value_ok _ _ _ Hty Hw))].
    revert Hw Hw' Heq. rewrite WireDecision_value.
    destruct Hok as [_ _ _ _ _ [l Hid]%is_digest_parse _ _ _ _].
    intros (ws & Hws%mapM_Some_1 & ->)%fmap_Some (ws' & Hws'%mapM_Some_1 & ->)%fmap_Some [= Heq].
    assert (("decision_id", WireV2.Bytes l) ∈ ws) as Hin.
    { destruct (Prelude.Forall2_elem_left _ _ _ ("decision_id", Json_String (wd_decision_id wire)) Hws) as (y & Hy & Hyw).
      { apply list_elem_of_In. cbn. tauto. }
      apply bind_Some in Hyw as (x & Hx & [= <-]).
      change (string_value (wd_decision_id wire) ["decision_id"] = Some x) in Hx.
      unfold string_value in Hx. cbn in Hx. rewrite Hid in Hx. by injection Hx as <-. }
    assert (("decision_id", WireV2.Bytes l) ∈ map (fun kv => (kv.1, WireV2.canon kv.2)) ws') as Hin'.
    { rewrite <- (sort_by_Permutation (fun l r : string * WireV2.Value => WireV2.key_lt l.1 r.1)), Heq, sort_by_Permutation.
      apply list_elem_of_fmap. by exists ("decision_id", WireV2.Bytes l). }
    apply list_elem_of_fmap in Hin' as ([k x] & [= <- Hx] & Hin').
    destruct (Prelude.Forall2_elem_right _ _ _ _ Hws' Hin') as (kv & Hkv & Hkx).
    apply bind_Some in Hkx as (w0 & Hw0 & [= Hk ->]).
    assert (kv = ("decision_id", Json_String (wd_decision_id wire))) as ->.
    { apply list_elem_of_In in Hkv. cbn in Hkv. repeat destruct Hkv as [<-|Hkv]; try discriminate Hk; done. }
    cbn in Hw0. injection Hw0 as <-. discriminate Hx.
  - unfold decode_model. apply (decode_encode_json _ _ as_text_emits as_text_ok _ _ (fun _ _ => True)).
    + intros s path v Ht _ [= <-]. done.
    + done.
    + apply json_plain_all.
    + exact He'.
    + intros w2 Hw2. by eapply (wire_value_within text_value as_text_small).
Qed.

Section decisions.
Context (sha256 : list byte -> list byte) (policy_from_value : Json -> option AcceptancePolicy)
  (decision_from_value : Json -> option WireDecision).
#[local] Abbreviation domain_digest := (Accept.domain_digest sha256).
#[local] Abbreviation build_decision := (Accept.build_decision sha256).
#[local] Abbreviation evaluate := (Accept.evaluate sha256).
#[local] Abbreviation reject_unverified := (Accept.reject_unverified sha256).
#[local] Abbreviation project_decision := (Accept.project_decision sha256 decision_from_value).
#[local] Abbreviation decode_policy := (Accept.decode_policy sha256 policy_from_value).

Definition identities_ok (commitment id : string) (composition : option string) : bool :=
  is_digest commitment && match composition with Some value => is_digest value | None => true end && is_uuid id.
Definition undecided (policy : DecodedPolicy) (commitment id : string) (composition : option string)
    (artifacts : list DecisionInput) (reasons : Reasons) : WireDecision :=
  mkWireDecision DECISION_SCHEMA (if bool_decide (reasons = []) then "accepted" else "rejected") artifacts reasons ""
    id composition (dp_identity policy) commitment.
Lemma build_decision_Ok policy commitment id composition artifacts reasons d :
  build_decision policy commitment id composition artifacts reasons = Ok d <->
  identities_ok commitment id composition = true /\ validate_artifacts artifacts = Ok ()
  /\ exists body, encode_model (Json_Object (decision_body (undecided policy commitment id composition artifacts reasons))) = Ok body
     /\ ad_wire d = with_decision_id (undecided policy commitment id composition artifacts reasons) (domain_digest DECISION_DOMAIN body)
     /\ encode_model (WireDecision_to_value (ad_wire d)) = Ok (ad_bytes d).
Proof.
  unfold Accept.build_decision, identities_ok. cbv zeta.
  assert (negb (is_digest commitment) || match composition with Some value => negb (is_digest value) | None => false end
    || negb (is_uuid id) = negb (is_digest commitment && match composition with Some value => is_digest value | None => true end
      && is_uuid id)) as -> by (destruct composition; by rewrite !negb_andb).
  destruct (_ && _); cbn [negb]; [|by split; [|intros [? _]]].
  fold (undecided policy commitment id composition artifacts reasons).
  rewrite without_decision_id_value. cbn [mbind result_bind]. unfold encoding_failed. split.
  - intros ([] & Hv & H)%bind_Ok. apply bind_Ok in H as (body & Hb%map_err_Ok & H).
    apply bind_Ok in H as (bytes & He%map_err_Ok & [= <-]). split; [done|]. split; [done|]. by exists body.
  - intros (_ & Hv & body & Hb & Hw & He). cbn [wd_inputs undecided]. rewrite Hv. cbn [mbind result_bind].
    rewrite Hb. cbn [map_err]. cbn [mbind result_bind]. rewrite <- Hw, He. cbn. by destruct d.
Qed.

Definition evaluated_reasons (policy : DecodedPolicy) (inputs : EvaluationInputs) : Reasons :=
  insert_if (differs (af_execution_id (ei_execution inputs)) (ei_expected_execution_id inputs)) InputVerificationFailed
    (evaluate_release (ap_release (dp_policy policy)) (ap_reject_if_present (dp_policy policy)) (ei_release inputs)
       (ei_proofbound_release_sha256 inputs) (ei_proofbound_verifier_sha256 inputs)
       (evaluate_execution (ap_execution (dp_policy policy)) (ei_execution inputs) (ei_release inputs)
          (insert_if (negb (dp_identity_matches policy)) PolicyIdentityMismatch []))).
Lemma evaluate_builds policy inputs :
  evaluate policy inputs
  = build_decision policy (ei_expected_execution_commitment inputs) (ei_expected_execution_id inputs)
      (Some (ei_composition_id inputs)) (ei_artifacts inputs) (evaluated_reasons policy inputs).
Proof.
  unfold Accept.evaluate. fold (evaluated_reasons policy inputs).
  destruct (is_digest (ei_expected_execution_commitment inputs)) eqn:Hc,
    (is_digest (ei_composition_id inputs)) eqn:Hi, (is_uuid (ei_expected_execution_id inputs)) eqn:Hu;
    cbn [negb orb]; try reflexivity; unfold Accept.build_decision; by rewrite Hc, ?Hi, ?Hu.
Qed.
Lemma elem_evaluated_reasons policy inputs r : r ∈ evaluated_reasons policy inputs <-> violated policy inputs r.
Proof.
  unfold evaluated_reasons. rewrite !elem_insert_if, elem_evaluate_release, elem_evaluate_execution, elem_insert_if,
    differs_true, negb_true_iff. rewrite elem_of_nil.
  destruct r; cbn [violated execution_violated release_violated]; intuition discriminate.
Qed.
Lemma evaluated_reasons_strict policy inputs : strict (evaluated_reasons policy inputs).
Proof. apply insert_if_strict, evaluate_release_strict, evaluate_execution_strict, insert_if_strict. constructor. Qed.
Definition all_reasons : list RejectionReason :=
  [PolicyIdentityMismatch; ReleaseVerificationFailed; ExecutionVerificationFailed; DiagnosticProfileNotReusable;
   InputVerificationFailed; CompositionMissing; ExecutionReplay; ExecutionSchemaMismatch; RuntimeVersionMismatch;
   PlatformMismatch; ArchitectureMismatch; PlanIdMismatch; ExecutableMismatch; AuthorityMismatch; ResourceMismatch;
   EligibilityMismatch; FreshnessPolicyUnsupported; ReleaseProjectMismatch; ReleaseRevisionMismatch;
   ReleasePayloadMismatch; ReleaseContextMismatch; ReleaseDirectoryMismatch; ReleaseVerifierMismatch; ClaimMissing;
   ClaimFormalMismatch; ClaimLinkageMismatch; ClaimAssumptionMismatch; ClaimPolicyMismatch; ForbiddenAssumption;
   ForbiddenExclusion; ForbiddenOpenObligation; ForbiddenTcbRole].
Lemma strict_reasons_bound s : strict s -> length s <= 32.
Proof.
  intros Hs. change 32 with (length all_reasons). apply submseteq_length, NoDup_submseteq.
  - induction Hs as [|r s Hs IH Hr]; constructor; [|done]. intros Hin. rewrite Forall_forall in Hr.
    apply Hr in Hin. by rewrite rlt_irrefl in Hin.
  - intros r _. apply list_elem_of_In. destruct r; cbn; tauto.
Qed.

(** C6: [evaluate] decides exactly the policy: the reasons of a decision are, in
    strict canonical order, the clauses of the policy that the verified facts
    violate; the decision accepts exactly when none is; and it is bound to the
    policy, the commitment, the execution, the composition and the artifacts it
    was asked about. *)
Theorem evaluate_exact policy inputs d :
  evaluate policy inputs = Ok d ->
  strict (wd_reasons (ad_wire d))
  /\ (forall r, r ∈ wd_reasons (ad_wire d) <-> violated policy inputs r)
  /\ (AcceptanceDecision_accepted d = true <-> forall r, ~ violated policy inputs r)
  /\ wd_policy_identity (ad_wire d) = dp_identity policy
  /\ wd_execution_commitment (ad_wire d) = ei_expected_execution_commitment inputs
  /\ wd_execution_id (ad_wire d) = ei_expected_execution_id inputs
  /\ wd_composition_id (ad_wire d) = Some (ei_composition_id inputs)
  /\ wd_inputs (ad_wire d) = ei_artifacts inputs
  /\ map di_role (ei_artifacts inputs) = INPUT_ROLES.
Proof.
  rewrite evaluate_builds. intros (_ & [Hroles _]%validate_artifacts_Ok & body & _ & Hw & _)%build_decision_Ok.
  unfold AcceptanceDecision_accepted. rewrite Hw. cbn.
  split; [apply evaluated_reasons_strict|]. split; [intros r; apply elem_evaluated_reasons|].
  split; [|by rewrite Hroles]. setoid_rewrite <- elem_evaluated_reasons.
  destruct (evaluated_reasons policy inputs) as [|r s] eqn:Hr; cbn.
  - split; [|done]. intros _ r. apply not_elem_of_nil.
  - split; [done|]. intros Hno. destruct (Hno r). constructor.
Qed.

(** What the documentation of SHA-256 promises. *)
Hypothesis sha256_length : forall bytes, length (sha256 bytes) = 32.
Lemma domain_digest_ok domain bytes : is_digest (domain_digest domain bytes) = true.
Proof. apply is_digest_parse. eexists. by apply parse_digest_Ok. Qed.
Lemma decode_policy_identity bytes expected policy :
  decode_policy bytes expected = Ok policy ->
  dp_identity policy = domain_digest POLICY_DOMAIN bytes /\ is_digest expected = true
  /\ dp_identity_matches policy = String.eqb (dp_identity policy) expected.
Proof.
  unfold Accept.decode_policy. destruct (is_digest expected); cbn [negb]; [|done].
  intros (v & _ & H)%bind_Ok. apply bind_Ok in H as (p & _ & H). apply bind_Ok in H as ([] & _ & [= <-]). done.
Qed.
Lemma undecided_ok policy commitment id composition artifacts reasons decision :
  identities_ok commitment id composition = true -> validate_artifacts artifacts = Ok () ->
  Forall (fun input => WireV2.in_u64 (di_size input) = true) artifacts -> length reasons <= 32 ->
  is_digest (dp_identity policy) = true -> is_digest decision = true ->
  decision_ok (with_decision_id (undecided policy commitment id composition artifacts reasons) decision).
Proof.
  unfold identities_ok. rewrite !andb_true_iff. intros [[Hc Hcomp] Hu] Ha Hs Hr Hp Hd. split; cbn; try done.
  - destruct (bool_decide _); set_solver.
  - by destruct composition.
Qed.
Lemma build_decision_total policy commitment id composition artifacts reasons :
  Forall (fun input => WireV2.in_u64 (di_size input) = true) artifacts -> length reasons <= 32 ->
  is_digest (dp_identity policy) = true ->
  match build_decision policy commitment id composition artifacts reasons with
  | Ok _ => identities_ok commitment id composition = true /\ validate_artifacts artifacts = Ok ()
  | Err e =>
    e = InvalidIdentity /\ identities_ok commitment id composition = false
    \/ e = InvalidDecision /\ identities_ok commitment id composition = true /\ validate_artifacts artifacts <> Ok ()
  end.
Proof.
  intros Hs Hr Hp. destruct (identities_ok commitment id composition) eqn:Hi.
  - destruct (validate_artifacts artifacts) as [[]|e] eqn:Ha.
    + pose proof (fun decision => undecided_ok policy _ _ _ _ reasons decision Hi Ha Hs Hr Hp) as Hok.
      destruct (decision_encoded _ (Hok _ (domain_digest_ok [] []))) as [[body Hb] _].
      destruct (decision_encoded _ (Hok _ (domain_digest_ok DECISION_DOMAIN body))) as [_ (bytes & He & _)].
      rewrite decision_body_id in Hb.
      rewrite (proj2 (build_decision_Ok policy commitment id composition artifacts reasons
        (mkAcceptanceDecision (with_decision_id (undecided policy commitment id composition artifacts reasons)
           (domain_digest DECISION_DOMAIN body)) bytes))); [done|]. split; [done|]. split; [done|]. by exists body.
    + destruct (build_decision policy commitment id composition artifacts reasons) as [d|e'] eqn:Hb.
      * apply build_decision_Ok in Hb as (_ & Hv & _). congruence.
      * right. split; [|done]. revert Hb. unfold identities_ok in Hi. rewrite !andb_true_iff in Hi. destruct Hi as [[Hc Hcomp] Hu].
        unfold Accept.build_decision. cbv zeta. rewrite Hc, Hu. cbn [wd_inputs negb orb].
        assert (match composition with Some value => negb (is_digest value) | None => false end = false) as ->
          by (destruct composition; [by rewrite Hcomp|done]). cbn [orb]. rewrite Ha. cbn. intros [= <-].
        revert Ha. unfold validate_artifacts. destruct (_ || _); naive_solver.
  - destruct (build_decision policy commitment id composition artifacts reasons) as [d|e] eqn:Hb.
    + apply build_decision_Ok in Hb as (? & _). congruence.
    + left. split; [|done]. revert Hb. unfold Accept.build_decision. cbv zeta.
      unfold identities_ok in Hi. destruct (is_digest commitment); [|by intros [= <-]].
      destruct composition as [c|]; [destruct (is_digest c)|]; destruct (is_uuid id); cbn in *; try done; by intros [= <-].
Qed.

(** A decoded policy always yields a decision about well-formed identities and
    artifacts, for whatever facts; [evaluate] refuses exactly the inputs whose
    identities or artifacts are malformed, each with its error. *)
Theorem evaluate_total bytes expected policy inputs :
  decode_policy bytes expected = Ok policy ->
  Forall (fun input => WireV2.in_u64 (di_size input) = true) (ei_artifacts inputs) ->
  let identities := is_digest (ei_expected_execution_commitment inputs) && is_digest (ei_composition_id inputs)
    && is_uuid (ei_expected_execution_id inputs) in
  let artifacts := map di_role (ei_artifacts inputs) = INPUT_ROLES
    /\ Forall (fun input => is_digest (di_sha256 input) = true) (ei_artifacts inputs) in
  match evaluate policy inputs with
  | Ok _ => identities = true /\ artifacts
  | Err e => e = InvalidIdentity /\ identities = false \/ e = InvalidDecision /\ identities = true /\ ~ artifacts
  end.
Proof.
  intros (Hp & _ & _)%decode_policy_identity Hs. cbv zeta. rewrite evaluate_builds.
  assert (is_digest (dp_identity policy) = true) as Hpd by (rewrite Hp; apply domain_digest_ok).
  pose proof (build_decision_total policy (ei_expected_execution_commitment inputs) (ei_expected_execution_id inputs)
    (Some (ei_composition_id inputs)) _ _ Hs (strict_reasons_bound _ (evaluated_reasons_strict policy inputs)) Hpd) as H.
  destruct (build_decision _ _ _ _ _ _); rewrite <- validate_artifacts_Ok; exact H.
Qed.

(** The derived deserializer reads what the derived serializer writes. *)
Hypothesis decision_from_value_to_value : forall wire, decision_from_value (WireDecision_to_value wire) = Some wire.

Definition projectable (wire : WireDecision) : bool :=
  windows_all (fun a b => rlt a b) (wd_reasons wire)
  && (if bool_decide (wd_reasons wire = []) then bool_decide (wd_composition_id wire <> None) else true).
Lemma built_decision_projected policy commitment id composition artifacts reasons d :
  build_decision policy commitment id composition artifacts reasons = Ok d ->
  Forall (fun input => WireV2.in_u64 (di_size input) = true) artifacts -> length reasons <= 32 ->
  is_digest (dp_identity policy) = true ->
  project_decision (ad_bytes d)
  = if projectable (ad_wire d) then Ok (WireDecision_to_value (ad_wire d)) else Err InvalidDecision.
Proof.
  intros (Hi & Ha & body & Hb & Hw & He)%build_decision_Ok Hs Hr Hp.
  pose proof (undecided_ok policy _ _ _ _ reasons _ Hi Ha Hs Hr Hp (domain_digest_ok DECISION_DOMAIN body)) as Hok.
  rewrite <- Hw in Hok.
  destruct (decision_encoded _ Hok) as [_ (bytes & He' & Hd)]. rewrite He in He'. injection He' as <-.
  unfold Accept.project_decision. rewrite Hd. cbn [map_err mbind result_bind]. rewrite decision_from_value_to_value.
  cbn [ok_or mbind result_bind].
  assert (wd_decision_id (ad_wire d) = domain_digest DECISION_DOMAIN body) as Hid by by rewrite Hw.
  assert (wd_status (ad_wire d) = if bool_decide (wd_reasons (ad_wire d) = []) then "accepted" else "rejected") as Hstatus
    by by rewrite Hw.
  assert (encode_model (Json_Object (decision_body (ad_wire d))) = Ok body) as Hbody by by rewrite Hw, decision_body_id.
  destruct Hok as [Hschema _ Hin _ _ Hdig Hu Hc Hpol Hcom].
  rewrite Hschema, Hdig, Hpol, Hcom, Hu. unfold differs at 1. rewrite String.eqb_refl. cbn [negb orb].
  assert (match wd_composition_id (ad_wire d) with Some value => negb (is_digest value) | None => false end = false) as ->
    by (destruct (wd_composition_id (ad_wire d)); [by rewrite Hc|done]).
  cbn [orb]. rewrite Hstatus. unfold projectable.
  assert ((if windows_all (fun a b => rlt a b) (wd_reasons (ad_wire d))
      && (if bool_decide (wd_reasons (ad_wire d) = []) then bool_decide (wd_composition_id (ad_wire d) <> None) else true)
    then Ok (WireDecision_to_value (ad_wire d)) else Err InvalidDecision)
    = if negb (windows_all (fun a b => rlt a b) (wd_reasons (ad_wire d)))
      || bool_decide (wd_reasons (ad_wire d) = []) && bool_decide (wd_composition_id (ad_wire d) = None)
      then Err InvalidDecision else Ok (WireDecision_to_value (ad_wire d))) as ->.
  { destruct (windows_all _ _), (bool_decide (wd_reasons _ = [])), (wd_composition_id (ad_wire d)); reflexivity. }
  rewrite Hin, without_decision_id_value. cbn [mbind result_bind]. rewrite Hbody. cbn [map_err mbind result_bind].
  rewrite Hid. unfold differs. rewrite String.eqb_refl. unfold project_json. rewrite Hd. cbn [negb map_err].
  destruct (windows_all _ _), (bool_decide (wd_reasons _ = [])), (wd_composition_id (ad_wire d)); reflexivity.
Qed.

(** C8: the bytes of a decision are a decision: [project_decision] accepts them and
    shows exactly the fields the decision was built with, the identity among
    them, and so does its own projection. *)
Theorem decision_projected bytes expected policy inputs d :
  decode_policy bytes expected = Ok policy ->
  Forall (fun input => WireV2.in_u64 (di_size input) = true) (ei_artifacts inputs) ->
  evaluate policy inputs = Ok d ->
  project_decision (ad_bytes d) = Ok (WireDecision_to_value (ad_wire d))
  /\ AcceptanceDecision_projection d = Ok (WireDecision_to_value (ad_wire d)).
Proof.
  intros (Hp & _ & _)%decode_policy_identity Hs. rewrite evaluate_builds. intros Hb.
  assert (is_digest (dp_identity policy) = true) as Hpd by (rewrite Hp; apply domain_digest_ok).
  pose proof (evaluated_reasons_strict policy inputs) as Hst.
  pose proof (built_decision_projected _ _ _ _ _ _ _ Hb Hs (strict_reasons_bound _ Hst) Hpd) as H.
  assert (projectable (ad_wire d) = true) as Hpr.
  { apply build_decision_Ok in Hb as (_ & _ & body & _ & Hw & _). unfold projectable. rewrite Hw.
    cbn [wd_reasons wd_composition_id with_decision_id undecided].
    assert (windows_all (fun a b : RejectionReason => rlt a b) (evaluated_reasons policy inputs) = true) as ->
      by by apply windows_all_rlt.
    by destruct (bool_decide _). }
  rewrite Hpr in H. split; [done|]. apply build_decision_Ok in Hb as (Hi & Ha & body & _ & Hw & He).
  unfold AcceptanceDecision_projection, project_json.
  pose proof (undecided_ok policy _ _ _ _ _ _ Hi Ha Hs (strict_reasons_bound _ Hst) Hpd (domain_digest_ok DECISION_DOMAIN body)) as Hok.
  rewrite <- Hw in Hok. destruct (decision_encoded _ Hok) as [_ (bytes' & He' & Hd)]. rewrite He in He'. injection He' as <-.
  by rewrite Hd.
Qed.

(** C9: inputs that were not verified are never accepted: the decision is a
    rejection for the given reason, and for the policy identity when that does not
    match, without a composition; its bytes are a decision unless the two reasons
    are the same one, which [project_decision] refuses as a duplicate. *)
Theorem reject_unverified_rejects bytes expected policy commitment id artifacts reason d :
  decode_policy bytes expected = Ok policy ->
  Forall (fun input => WireV2.in_u64 (di_size input) = true) artifacts ->
  reject_unverified policy commitment id artifacts reason = Ok d ->
  AcceptanceDecision_accepted d = false /\ wd_composition_id (ad_wire d) = None
  /\ (forall r, r ∈ wd_reasons (ad_wire d) <-> r = reason \/ r = PolicyIdentityMismatch /\ dp_identity policy <> expected)
  /\ project_decision (ad_bytes d)
     = if bool_decide (reason = PolicyIdentityMismatch) && differs (dp_identity policy) expected
       then Err InvalidDecision else Ok (WireDecision_to_value (ad_wire d)).
Proof.
  intros (Hp & _ & Hm)%decode_policy_identity Hs Hd.
  assert (is_digest (dp_identity policy) = true) as Hpd by (rewrite Hp; apply domain_digest_ok).
  unfold Accept.reject_unverified in Hd. cbv zeta in Hd. rewrite Hm in Hd.
  set (reasons := if String.eqb (dp_identity policy) expected then [reason] else Prelude.sort [reason; PolicyIdentityMismatch]) in Hd.
  assert (reasons ≡ₚ if String.eqb (dp_identity policy) expected then [reason] else [reason; PolicyIdentityMismatch]) as Hperm.
  { unfold reasons. destruct (String.eqb _ _); [done|]. apply sort_by_Permutation. }
  assert (length reasons <= 32) as Hlen by (rewrite Hperm; destruct (String.eqb _ _); cbn; lia).
  assert (reasons <> []) as Hne.
  { intros Hn. rewrite Hn in Hperm. apply Permutation_length in Hperm. destruct (String.eqb _ _); discriminate. }
  pose proof (built_decision_projected _ _ _ _ _ _ _ Hd Hs Hlen Hpd) as Hproj.
  apply build_decision_Ok in Hd as (_ & _ & body & _ & Hw & _). unfold AcceptanceDecision_accepted.
  rewrite Hproj. rewrite Hw. cbn [wd_status wd_composition_id wd_reasons with_decision_id undecided].
  rewrite bool_decide_eq_false_2 by done. split; [done|]. split; [done|]. split.
  - intros r. rewrite Hperm. destruct (String.eqb_spec (dp_identity policy) expected); set_solver.
  - unfold projectable. cbn [wd_composition_id wd_reasons with_decision_id undecided]. rewrite bool_decide_eq_false_2 by done.
    rewrite andb_true_r. unfold differs. unfold reasons. destruct (String.eqb (dp_identity policy) expected).
    + by rewrite andb_false_r.
    + rewrite andb_true_r.
      assert (windows_all (fun a b => rlt a b) (Prelude.sort [reason; PolicyIdentityMismatch])
        = negb (bool_decide (reason = PolicyIdentityMismatch))) as -> by (clear; destruct reason; vm_compute; reflexivity).
      by destruct (bool_decide _).
Qed.

(** Whatever bytes [project_decision] accepts hold a well-formed decision: of
    this schema, over the fifteen artifact roles, with strictly ordered reasons,
    accepted exactly when there is none and then bound to a composition, and
    identified by the digest of its own canonical body. *)
Theorem projected_decision_sound bytes value :
  project_decision bytes = Ok value ->
  exists wire body,
    decode_model bytes = Ok value /\ decision_from_value value = Some wire
    /\ wd_schema wire = DECISION_SCHEMA /\ map di_role (wd_inputs wire) = INPUT_ROLES
    /\ strict (wd_reasons wire)
    /\ (wd_status wire = "accepted" <-> wd_reasons wire = [])
    /\ (wd_status wire = "rejected" <-> wd_reasons wire <> [])
    /\ (wd_reasons wire = [] -> wd_composition_id wire <> None)
    /\ encode_model (Json_Object (decision_body wire)) = Ok body
    /\ wd_decision_id wire = domain_digest DECISION_DOMAIN body.
Proof.
  unfold Accept.project_decision. intros (v & Hv%map_err_Ok & H)%bind_Ok.
  apply bind_Ok in H as (wire & Hwire%ok_or_Ok & H).
  match type of H with (if ?c then _ else _) = _ => destruct c eqn:Hc; [done|] end.
  apply bind_Ok in H as ([] & [Hroles _]%validate_artifacts_Ok & H). rewrite without_decision_id_value in H.
  cbn [mbind result_bind] in H. apply bind_Ok in H as (body & Hb%map_err_Ok & H).
  destruct (differs (domain_digest DECISION_DOMAIN body) _) eqn:Hid; [done|]. apply map_err_Ok in H. unfold project_json in H. rewrite Hv in H. injection H as ->.
  assert (domain_digest DECISION_DOMAIN body = wd_decision_id wire) as Hid'.
  { unfold differs in Hid. by apply negb_false_iff, String.eqb_eq in Hid. }
  repeat apply orb_false_iff in Hc as [Hc ?].
  repeat match goal with H : negb _ = false |- _ => apply negb_false_iff in H end.
  exists wire, body. unfold differs in Hc. apply negb_false_iff, String.eqb_eq in Hc.
  match goal with H : windows_all _ _ = true |- _ => apply windows_all_rlt in H end.
  match goal with H : one_of _ _ = true |- _ => apply one_of_true in H; rename H into Hst end.
  do 5 (split; [done|]).
  destruct (decide (wd_reasons wire = [])) as [Hn|Hn].
  - rewrite (bool_decide_eq_true_2 _ Hn) in *. cbn [negb] in *.
    destruct (String.eqb_spec (wd_status wire) "rejected") as [He|He]; [done|].
    assert (wd_status wire = "accepted") as Ha by (apply list_elem_of_In in Hst as [Hst|[Hst|[]]]; congruence). rewrite Ha in *. cbn [andb orb String.eqb Ascii.eqb Bool.eqb] in *.
    repeat split; try done. intros _ Hnone. by rewrite Hnone in *.
  - rewrite (bool_decide_eq_false_2 _ Hn) in *. cbn [negb orb] in *.
    destruct (String.eqb_spec (wd_status wire) "accepted") as [He|He]; [done|].
    assert (wd_status wire = "rejected") as Ha by (apply list_elem_of_In in Hst as [Hst|[Hst|[]]]; congruence). rewrite Ha in *. repeat split; done.
Qed.

(** The bytes of a decision are not the only ones that [project_decision] takes
    for it: with its digests and identifiers written as text instead of as byte
    strings, other bytes are accepted and projected to the same value. *)
Theorem decision_bytes_not_unique bytes expected policy inputs d :
  decode_policy bytes expected = Ok policy ->
  Forall (fun input => WireV2.in_u64 (di_size input) = true) (ei_artifacts inputs) ->
  evaluate policy inputs = Ok d ->
  exists bytes', bytes' <> ad_bytes d /\ project_decision bytes' = project_decision (ad_bytes d).
Proof.
  intros (Hp & _ & _)%decode_policy_identity Hs. rewrite evaluate_builds.
  assert (is_digest (dp_identity policy) = true) as Hpd by (rewrite Hp; apply domain_digest_ok).
  pose proof (strict_reasons_bound _ (evaluated_reasons_strict policy inputs)) as Hl.
  intros (Hi & Ha & body & _ & Hw & He)%build_decision_Ok.
  pose proof (undecided_ok policy _ _ _ _ _ _ Hi Ha Hs Hl Hpd (domain_digest_ok DECISION_DOMAIN body)) as Hok.
  rewrite <- Hw in Hok. destruct (decision_as_text _ _ Hok He) as (bytes' & Hne & Hd). exists bytes'. split; [done|].
  destruct (decision_encoded _ Hok) as [_ (bytes2 & He2 & Hd2)]. rewrite He in He2. injection He2 as <-.
  unfold Accept.project_decision, project_json. by rewrite Hd, Hd2.
Qed.
End decisions.

(** * Concrete instances *)

Definition example_sha256 (bytes : list byte) : list byte := repeat (mkb (Z.of_nat (length bytes) mod 256)) 32.
Definition example_digest : string := Accept.digest example_sha256 [].
Definition example_uuid : string := "00000000-0000-4000-8000-000000000001".
Definition example_claim : ClaimPolicy := mkClaimPolicy "PROVED" "REFINED" "claim-1" "NONE" true.
Definition example_policy : AcceptancePolicy :=
  mkAcceptancePolicy POLICY_SCHEMA
    (mkReleasePolicy [example_claim] example_digest "project" example_digest "context"
       "0000000000000000000000000000000000000000" example_digest)
    (mkExecutionPolicy "plan" (mkPlatformPolicy "x86_64" "linux") (mkResourcePolicy 8 65536 1 0)
       (mkExecutablePolicy 493 1024 example_digest) "reusable" (mkFreshnessPolicy "not-required") example_digest "1.0.0"
       "proofbound-runtime-execution-receipt/2" "proofbound-runtime-linux-policy/2")
    (mkRejectPolicy ["forbidden-role"] [] ["forbidden"] []).
Definition example_policy_bytes : list byte := [mkb 0xa0].
Definition example_policy_identity : string := Accept.domain_digest example_sha256 POLICY_DOMAIN example_policy_bytes.
Definition example_from_value (_ : Json) : option AcceptancePolicy := Some example_policy.
Definition example_decoded : DecodedPolicy := mkDecodedPolicy example_policy example_policy_identity true.
Definition example_execution : ReceiptAcceptanceFacts :=
  mkReceiptAcceptanceFacts "proofbound-runtime-execution-receipt/2" "1.0.0" example_uuid "plan" "linux" "x86_64"
    (mkCompositionArtifact 493 "executable" example_digest "1024") example_digest "proofbound-runtime-linux-policy/2"
    8 65536 1 0 true ["assumption"] ["kernel"].
Definition example_release (assumptions : list string) : ReleaseAcceptanceFacts :=
  mkReleaseAcceptanceFacts example_digest "project" "0000000000000000000000000000000000000000" example_digest "context"
    "1.0.0" "x86_64" [mkAcceptanceClaimFacts "claim-1" "PROVED" "REFINED" "NONE" true] assumptions [] [] ["kernel"].
Definition example_inputs (assumptions : list string) : EvaluationInputs :=
  mkEvaluationInputs example_execution (example_release assumptions) example_digest example_uuid example_digest
    example_digest example_digest (map (fun role => mkDecisionInput role 1 example_digest) INPUT_ROLES).
Definition decision_or_default (m : result AcceptanceError AcceptanceDecision) : AcceptanceDecision :=
  match m with
  | Ok d => d
  | Err _ => mkAcceptanceDecision (mkWireDecision "" "" [] [] "" "" None "" "") []
  end.
Definition example_decision (assumptions : list string) : AcceptanceDecision :=
  decision_or_default (Accept.evaluate example_sha256 example_decoded (example_inputs assumptions)).

(** A deserializer of decisions. *)
Definition read_string (v : Json) : option string := match v with Json_String s => Some s | _ => None end.
Definition read_reason (v : Json) : option RejectionReason :=
  s ← read_string v; List.find (fun r => String.eqb (RejectionReason_as_str r) s) all_reasons.
Definition read_input (v : Json) : option DecisionInput :=
  match v with
  | Json_Object [("role", Json_String role); ("sha256", Json_String sha256); ("size", Json_U64 size)] =>
    Some (mkDecisionInput role size sha256)
  | _ => None
  end.
Definition read_decision (v : Json) : option WireDecision :=
  match v with
  | Json_Object [("composition_id", composition); ("decision_id", Json_String decision);
      ("execution_commitment", Json_String commitment); ("execution_id", Json_String execution);
      ("inputs", Json_Array inputs); ("policy_identity", Json_String policy); ("reasons", Json_Array reasons);
      ("schema", Json_String schema); ("status", Json_String status)] =>
    composition ← match composition with
                  | Json_Null => Some None | Json_String id => Some (Some id) | _ => None
                  end;
    inputs ← mapM read_input inputs;
    reasons ← mapM read_reason reasons;
    Some (mkWireDecision schema status inputs reasons decision execution composition policy commitment)
  | _ => None
  end.
Lemma read_decision_to_value wire : read_decision (WireDecision_to_value wire) = Some wire.
Proof.
  rewrite WireDecision_value. destruct wire as [schema status inputs reasons decision execution composition policy commitment].
  cbn [read_decision decision_members wd_schema wd_status wd_inputs wd_reasons wd_decision_id wd_execution_id
    wd_composition_id wd_policy_identity wd_execution_commitment].
  assert (mapM read_input (map DecisionInput_to_value inputs) = Some inputs) as ->.
  { induction inputs as [|[r z s] l IH]; [done|]. cbn [map mapM]. by rewrite IH. }
  assert (mapM read_reason (map (fun r => Json_String (RejectionReason_as_str r)) reasons) = Some reasons) as ->.
  { induction reasons as [|r l IH]; [done|]. cbn [map mapM]. rewrite IH. by destruct r. }
  by destruct composition.
Qed.

Lemma example_sha256_length bytes : length (example_sha256 bytes) = 32.
Proof. apply repeat_length. Qed.
Lemma example_decoded_policy :
  Accept.decode_policy example_sha256 example_from_value example_policy_bytes example_policy_identity = Ok example_decoded.
Proof. vm_compute. reflexivity. Qed.
Lemma example_artifacts assumptions :
  Forall (fun input => WireV2.in_u64 (di_size input) = true) (ei_artifacts (example_inputs assumptions)).
Proof. repeat constructor. Qed.
Lemma example_accepts :
  Accept.evaluate example_sha256 example_decoded (example_inputs []) = Ok (example_decision [])
  /\ AcceptanceDecision_accepted (example_decision []) = true.
Proof. vm_compute. split; reflexivity. Qed.
Lemma example_rejects :
  Accept.evaluate example_sha256 example_decoded (example_inputs ["forbidden"]) = Ok (example_decision ["forbidden"])
  /\ wd_reasons (ad_wire (example_decision ["forbidden"])) = [ForbiddenAssumption].
Proof. vm_compute. split; reflexivity. Qed.

Lemma evaluate_exact_witness : violated example_decoded (example_inputs ["forbidden"]) ForbiddenAssumption.
Proof.
  destruct (evaluate_exact example_sha256 _ _ _ (proj1 example_rejects)) as (_ & Hr & _).
  apply Hr. rewrite (proj2 example_rejects). constructor.
Defined.
Lemma evaluate_total_witness :
  exists d, Accept.evaluate example_sha256 example_decoded (example_inputs []) = Ok d.
Proof.
  pose proof (evaluate_total example_sha256 example_from_value example_sha256_length _ _ _ (example_inputs [])
    example_decoded_policy (example_artifacts [])) as H. rewrite (proj1 example_accepts) in *. by eexists.
Defined.
Lemma decision_projected_witness :
  Accept.project_decision example_sha256 read_decision (ad_bytes (example_decision []))
  = Ok (WireDecision_to_value (ad_wire (example_decision []))).
Proof.
  exact (proj1 (decision_projected example_sha256 example_from_value read_decision example_sha256_length
    read_decision_to_value _ _ _ (example_inputs []) (example_decision []) example_decoded_policy (example_artifacts [])
    (proj1 example_accepts))).
Defined.
Definition example_rejection (reason : RejectionReason) : AcceptanceDecision :=
  decision_or_default (Accept.reject_unverified example_sha256 example_decoded example_digest example_uuid
    (ei_artifacts (example_inputs [])) reason).
Lemma reject_unverified_rejects_witness :
  AcceptanceDecision_accepted (example_rejection ReleaseVerificationFailed) = false.
Proof.
  apply (reject_unverified_rejects example_sha256 example_from_value read_decision example_sha256_length
    read_decision_to_value _ _ _ example_digest example_uuid _ ReleaseVerificationFailed _ example_decoded_policy
    (example_artifacts [])). vm_compute. reflexivity.
Defined.
Lemma projected_decision_sound_witness :
  exists wire, wd_status wire = "accepted" <-> wd_reasons wire = [].
Proof.
  destruct (projected_decision_sound example_sha256 read_decision (ad_bytes (example_decision []))
    (WireDecision_to_value (ad_wire (example_decision [])))) as (wire & body & H).
  - vm_compute. reflexivity.
  - exists wire. apply H.
Defined.
Lemma decision_bytes_not_unique_witness :
  exists bytes, bytes <> ad_bytes (example_decision [])
    /\ Accept.project_decision example_sha256 read_decision bytes
       = Accept.project_decision example_sha256 read_decision (ad_bytes (example_decision [])).
Proof.
  exact (decision_bytes_not_unique example_sha256 example_from_value read_decision example_sha256_length _ _ _
    (example_inputs []) (example_decision []) example_decoded_policy (example_artifacts []) (proj1 example_accepts)).
Defined.
