(* ===== verification/Composition.v ===== *)
(** What a composition means ([proofbound-runtime-compose/src/lib.rs]): the
    inherited sets, the residual obligations, the bindings between the inputs and
    the composed receipt, its round trip and its independent recomputation, and
    what an accepted decision about it says of the release and the execution. *)
From S2P Require Import Prelude Identity JsonCbor ReceiptViews Compose.
From S2P Require WireV2 WireMaps VerifyCbor VerifyDecode VerifyReceipt Eligibility.
From Stdlib Require Import Ascii ZArith Lia Sorted.
From stdpp Require Import prelude strings list numbers.
Export stdpp.list_relations.list.

(** * Maps of origins *)

Section origins.
Context {K : Type} `{LawfulOrd K}.
#[local] Abbreviation keys_strict := (StronglySorted (fun l r : K * list string => rlt l.1 r.1 = true)).
#[local] Abbreviation names_strict := (StronglySorted (fun l r : string => rlt l r = true)).

(** [key] has [origin] in the map. *)
Definition has_origin (entries : list (K * list string)) (key : K) (origin : string) : Prop :=
  exists origins, (key, origins) ∈ entries /\ origin ∈ origins.
Record origins_ok (entries : list (K * list string)) : Prop := {
  oo_keys : keys_strict entries;
  oo_names : Forall (fun entry => names_strict entry.2 /\ entry.2 <> []) entries
}.
Lemma has_origin_cons k os entries key o :
  has_origin ((k, os) :: entries) key o <-> key = k /\ o ∈ os \/ has_origin entries key o.
Proof.
  unfold has_origin. split.
  - intros (x & [[= -> ->]|Hin]%elem_of_cons & Ho); [by left|right; by exists x].
  - intros [[-> Ho]|(x & Hx & Ho)]; [exists os|exists x]; (split; [|done]); [constructor|by constructor].
Qed.
Lemma entry_insert_spec key o entries :
  origins_ok entries ->
  origins_ok (entry_insert key o entries)
  /\ (forall k x, has_origin (entry_insert key o entries) k x <-> k = key /\ x = o \/ has_origin entries k x)
  /\ (forall entry, entry ∈ entry_insert key o entries -> entry.1 = key \/ entry.1 ∈ entries.*1).
Proof.
  intros [Hk Hn]. induction Hk as [|[k os] rest Hs IH Hx]; cbn [entry_insert fst snd].
  - split; [split; [by repeat constructor|]|split].
    + constructor; [|done]. split; [by repeat constructor|done].
    + intros k x. rewrite has_origin_cons. set_solver.
    + intros entry ->%list_elem_of_singleton. by left.
  - apply Forall_cons in Hn as [[Hos Hne] Hrest]. destruct (IH Hrest) as ([IHk IHn] & IHo & IHe).
    destruct (rcmp key k) eqn:Hc.
    + apply rcmp_Eq in Hc as ->. split; [split; [by constructor|]|split].
      * constructor; [|done]. cbn. split; [by apply set_insert_strict|]. intros He.
        assert (o ∈ set_insert o os) as Hin by (apply elem_of_set_insert; by left). rewrite He in Hin. by apply elem_of_nil in Hin.
      * intros k' x. rewrite !has_origin_cons, elem_of_set_insert. naive_solver.
      * intros entry [->|Hin]%elem_of_cons; cbn; [by left|]. right. right. by apply list_elem_of_fmap_2.
    + assert (rlt key k = true) as Hlt by (unfold rlt; by rewrite Hc). split; [split|split].
      * constructor; [by constructor|]. constructor; [done|]. eapply Forall_impl; [exact Hx|]. cbn. intros e. by apply rlt_trans.
      * constructor; [|by constructor]. split; [by repeat constructor|done].
      * intros k' x. rewrite has_origin_cons. set_solver.
      * intros entry [->|Hin]%elem_of_cons; cbn; [by left|]. right. by apply (list_elem_of_fmap_2 fst _ _ Hin).
    + split; [split|split].
      * constructor; [done|]. apply Forall_forall. intros e He. cbn. destruct (IHe e He) as [->|Hin].
        { unfold rlt. rewrite (rcmp_opp key k), Hc. done. }
        apply list_elem_of_fmap in Hin as (e' & -> & Hin'). rewrite Forall_forall in Hx. by apply (Hx e').
      * by constructor.
      * intros k' x. rewrite !has_origin_cons, IHo. naive_solver.
      * intros entry [->|Hin]%elem_of_cons; cbn; [right; left|]. destruct (IHe entry Hin); [by left|by right; right].
Qed.
Lemma entry_insert_all_spec keys o entries :
  origins_ok entries ->
  origins_ok (entry_insert_all keys o entries)
  /\ forall k x, has_origin (entry_insert_all keys o entries) k x <-> x = o /\ k ∈ keys \/ has_origin entries k x.
Proof.
  unfold entry_insert_all. revert entries. induction keys as [|key keys IH]; intros entries He; cbn [fold_left].
  - split; [done|]. intros k x. rewrite elem_of_nil. tauto.
  - destruct (entry_insert_spec key o entries He) as (Hok & Ho & _). destruct (IH _ Hok) as [Hok' Ho'].
    split; [done|]. intros k x. rewrite Ho', Ho, elem_of_cons. tauto.
Qed.
Lemma origins_ok_nil : origins_ok [].
Proof. split; constructor. Qed.
Lemma has_origin_nil k x : ~ has_origin [] k x.
Proof. intros (os & Hin & _). by apply elem_of_nil in Hin. Qed.
Lemma origins_key_in entries key : origins_ok entries -> key ∈ entries.*1 <-> exists o, has_origin entries key o.
Proof.
  intros [_ Hn]. rewrite Forall_forall in Hn. split.
  - intros ([k os] & -> & Hin)%list_elem_of_fmap. destruct (Hn _ Hin) as [_ Hne]. cbn in Hne |- *.
    destruct os as [|o os]; [done|]. exists o, (o :: os). split; [done|constructor].
  - intros (o & os & Hin & _). by apply (list_elem_of_fmap_2 fst _ _ Hin).
Qed.
End origins.

#[local] Abbreviation strict := (StronglySorted (fun l r : string => rlt l r = true)).

(** * The inherited sets *)

(** Which assumptions come from where. *)
Definition assumed_by (claims : list ClaimStatus) (execution : list string) (id origin : string) : Prop :=
  origin = "release" /\ (exists claim, claim ∈ claims /\ id ∈ cs_assumptions claim) \/ origin = "execution" /\ id ∈ execution.
Lemma release_origins claims entries :
  origins_ok entries ->
  let origins := fold_left (fun origins claim => entry_insert_all (cs_assumptions claim) "release" origins) claims entries in
  origins_ok origins
  /\ forall k x, has_origin origins k x
     <-> x = "release" /\ (exists claim, claim ∈ claims /\ k ∈ cs_assumptions claim) \/ has_origin entries k x.
Proof.
  cbv zeta. revert entries. induction claims as [|claim claims IH]; intros entries He; cbn [fold_left].
  - split; [done|]. intros k x. split; [by right|]. intros [(_ & c & Hin & _)|]; [by apply elem_of_nil in Hin|done].
  - destruct (entry_insert_all_spec (cs_assumptions claim) "release" entries He) as [Hok Ho].
    destruct (IH _ Hok) as [Hok' Ho']. split; [done|]. intros k x. rewrite Ho', Ho. setoid_rewrite elem_of_cons. naive_solver.
Qed.
Lemma assumption_origins claims execution :
  let origins := entry_insert_all execution "execution"
    (fold_left (fun origins claim => entry_insert_all (cs_assumptions claim) "release" origins) claims []) in
  origins_ok origins /\ forall k x, has_origin origins k x <-> assumed_by claims execution k x.
Proof.
  cbv zeta. destruct (release_origins claims [] origins_ok_nil) as [Hok Ho].
  destruct (entry_insert_all_spec execution "execution" _ Hok) as [Hok' Ho']. split; [done|].
  intros k x. rewrite Ho', Ho. unfold assumed_by. pose proof (has_origin_nil (K:=string) k x). tauto.
Qed.
Lemma inherited_ids claims execution id :
  id ∈ map ie_id (inherited_assumptions claims execution) <-> exists origin, assumed_by claims execution id origin.
Proof.
  unfold inherited_assumptions. cbv zeta. rewrite map_map. cbn [ie_id].
  destruct (assumption_origins claims execution) as [Hok Ho]. setoid_rewrite <- Ho. by apply origins_key_in.
Qed.

(** No assumption is lost and none is invented: the inherited entries are
    listed once each, in the strict order of their names; an entry has an origin
    exactly when a claim of the release, respectively the execution, makes the
    assumption; and its origins are strictly ordered and not empty. *)
Theorem inherited_assumptions_exact claims execution :
  let entries := inherited_assumptions claims execution in
  strict (map ie_id entries)
  /\ Forall (fun entry => strict (ie_origins entry) /\ ie_origins entry <> []) entries
  /\ forall id origin,
     (exists entry, entry ∈ entries /\ ie_id entry = id /\ origin ∈ ie_origins entry) <-> assumed_by claims execution id origin.
Proof.
  cbv zeta. unfold inherited_assumptions. cbv zeta. destruct (assumption_origins claims execution) as [[Hk Hn] Ho].
  revert Hk Hn Ho. generalize (entry_insert_all execution "execution"
    (fold_left (fun origins claim => entry_insert_all (cs_assumptions claim) "release" origins) claims [])).
  intros entries Hk Hn Ho. split; [|split].
  - rewrite map_map. cbn. clear -Hk. induction Hk as [|e l Hs IH Hx]; cbn; constructor; [done|]. by apply Forall_map.
  - apply Forall_map. done.
  - intros id origin. rewrite <- Ho. unfold has_origin. split.
    + intros (entry & (e & -> & Hin)%list_elem_of_fmap & <- & Hor). exists e.2. by destruct e.
    + intros (os & Hin & Hor). exists (mkInheritedEntry id os). split; [|done].
      by apply (list_elem_of_fmap_2 (fun entry : string * list string => mkInheritedEntry entry.1 entry.2) _ (id, os)).
Qed.

(** Which trusted parts come from where. *)
Definition trusted_by (release : TcbLedger) (execution : list WireTcbEntry) (key : string * string) (origin : string) : Prop :=
  origin = "release" /\ (exists component, component ∈ tl_components release /\ component_key component = key)
  \/ origin = "execution" /\ (exists entry, entry ∈ execution /\ (wt_role entry, wt_identity entry) = key).
Lemma entries_or_invalid_spec {A} (invalid : A -> bool) key origin entries l :
  origins_ok entries ->
  match entries_or_invalid invalid key origin entries l with
  | Ok origins =>
    Forall (fun a => invalid a = false) l /\ origins_ok origins
    /\ forall k x, has_origin origins k x <-> x = origin /\ (exists a, a ∈ l /\ key a = k) \/ has_origin entries k x
  | Err e => e = SchemaInvalid /\ Exists (fun a => invalid a = true) l
  end.
Proof.
  revert entries. induction l as [|a l IH]; intros entries He; cbn [entries_or_invalid].
  - split; [constructor|]. split; [done|]. intros k x. split; [by right|].
    intros [(_ & a & Hin & _)|]; [by apply elem_of_nil in Hin|done].
  - destruct (invalid a) eqn:Ha; [split; [done|by constructor]|].
    destruct (entry_insert_spec (key a) origin entries He) as (Hok & Ho & _). specialize (IH _ Hok).
    destruct (entries_or_invalid _ _ _ _ l) as [origins|e].
    + destruct IH as (Hl & Hok' & Ho'). split; [by constructor|]. split; [done|]. intros k x. rewrite Ho', Ho.
      setoid_rewrite elem_of_cons. naive_solver.
    + destruct IH as [-> Hl]. split; [done|]. by constructor.
Qed.

Lemma inherited_role release execution entries entry :
  inherited_tcb release execution = Ok entries -> entry ∈ execution -> wt_role entry ∈ map cte_role entries.
Proof.
  unfold inherited_tcb. destruct (_ || _); [done|]. intros (first & H1 & H)%bind_Ok. apply bind_Ok in H as (last & H2 & [= <-]) .
  intros Hin. pose proof (entries_or_invalid_spec component_invalid component_key "release" [] (tl_components release) origins_ok_nil) as S1.
  rewrite H1 in S1. destruct S1 as (_ & Hok & _).
  pose proof (entries_or_invalid_spec tcb_invalid (fun entry => (wt_role entry, wt_identity entry)) "execution" first execution Hok) as S2.
  rewrite H2 in S2. destruct S2 as (_ & _ & Ho).
  destruct (proj2 (Ho (wt_role entry, wt_identity entry) "execution")) as (os & Hos & _); [left; split; [done|by exists entry]|].
  rewrite map_map. cbn. by apply (list_elem_of_fmap_2 (fun e : string * string * list string => e.1.1) _ _ Hos).
Qed.

(** The trusted computing base of a composition is exactly the union of the
    ledger of the release and the base of the execution: it is refused unless the
    ledger is of its schema and not empty and every entry is complete, and then it
    lists each role and identity once, in strict order, with its origins. *)
Theorem inherited_tcb_exact release execution :
  match inherited_tcb release execution with
  | Ok entries =>
    tl_schema release = "proofbound-tcb-ledger/1" /\ tl_components release <> []
    /\ Forall (fun component => component_invalid component = false) (tl_components release)
    /\ Forall (fun entry => wt_role entry <> "" /\ wt_identity entry <> "") execution
    /\ StronglySorted (fun l r => rlt l r = true) (map (fun entry => (cte_role entry, cte_identity entry)) entries)
    /\ Forall (fun entry => strict (cte_origins entry) /\ cte_origins entry <> []) entries
    /\ forall role identity origin,
       (exists entry, entry ∈ entries /\ cte_role entry = role /\ cte_identity entry = identity /\ origin ∈ cte_origins entry)
       <-> trusted_by release execution (role, identity) origin
  | Err e =>
    e = SchemaInvalid
    /\ (tl_schema release <> "proofbound-tcb-ledger/1" \/ tl_components release = []
        \/ Exists (fun component => component_invalid component = true) (tl_components release)
        \/ Exists (fun entry => wt_role entry = "" \/ wt_identity entry = "") execution)
  end.
Proof.
  unfold inherited_tcb. destruct (differs (tl_schema release) _) eqn:Hs; cbn [orb].
  { apply differs_true in Hs. split; [done|by left]. }
  unfold differs in Hs. apply negb_false_iff, String.eqb_eq in Hs.
  case_bool_decide as Hne; [split; [done|by right; left]|].
  pose proof (entries_or_invalid_spec component_invalid component_key "release" [] (tl_components release) origins_ok_nil) as H1.
  destruct (entries_or_invalid component_invalid _ _ _ _) as [first|e]; cbn [mbind result_bind];
    [|destruct H1 as [-> H1]; split; [done|by right; right; left]].
  destruct H1 as (Hc & Hok & Ho).
  pose proof (entries_or_invalid_spec tcb_invalid (fun entry => (wt_role entry, wt_identity entry)) "execution" first execution Hok) as H2.
  destruct (entries_or_invalid tcb_invalid _ _ _ _) as [entries|e]; cbn [mbind result_bind].
  - destruct H2 as (He & [Hk Hn] & Ho'). split; [done|]. split; [done|]. split; [done|]. split; [|split; [|split]].
    + eapply Forall_impl; [exact He|]. unfold tcb_invalid, is_empty_string. intros entry [Hr Hi]%orb_false_iff.
      split; by apply String.eqb_neq.
    + rewrite map_map. cbn. clear -Hk. induction Hk as [|e l Hs IH Hx]; cbn; constructor; [done|].
      apply Forall_map. eapply Forall_impl; [exact Hx|]. cbn. by intros [[] ?]; destruct e as [[] ?].
    + by apply Forall_map.
    + intros role identity origin. unfold trusted_by.
      pose proof (has_origin_nil (role, identity) origin) as Hnil. specialize (Ho' (role, identity) origin). rewrite Ho in Ho'.
      assert (has_origin entries (role, identity) origin <-> trusted_by release execution (role, identity) origin) as <-
        by (unfold trusted_by; tauto).
      unfold has_origin. split.
      * intros (entry & (e & -> & Hin)%list_elem_of_fmap & <- & <- & Hor). exists e.2. by destruct e as [[] ?].
      * intros (os & Hin & Hor). exists (mkComposedTcbEntry identity os role). split; [|done].
        by apply (list_elem_of_fmap_2 (fun entry : string * string * list string =>
          mkComposedTcbEntry entry.1.2 entry.2 entry.1.1) _ (role, identity, os)).
  - destruct H2 as [-> H2]. split; [done|]. right. right. right. eapply Exists_impl; [exact H2|].
    unfold tcb_invalid, is_empty_string. intros entry [?%String.eqb_eq|?%String.eqb_eq]%orb_true_iff; tauto.
Qed.

(** * The claims and their residual obligations *)

Lemma set_of_length {A} `{LawfulOrd A} (l : list A) : length (set_of l) = length l <-> NoDup l.
Proof.
  destruct (set_of_spec l) as [Hs Hin].
  pose proof (strict_NoDup _ Hs) as Hnd.
  assert (set_of l ⊆+ l) as Hsub by (apply NoDup_submseteq; [done|]; intros x; apply Hin).
  split.
  - intros Hl. by rewrite <- (submseteq_length_Permutation _ _ Hsub) by lia.
  - intros Hl. apply Permutation_length, NoDup_Permutation; [done|done|]. done.
Qed.
Lemma NoDup_map_inj {A B} (f : A -> B) l x y : NoDup (map f l) -> x ∈ l -> y ∈ l -> f x = f y -> x = y.
Proof.
  intros Hnd (i & Hi)%list_elem_of_lookup (j & Hj)%list_elem_of_lookup Heq.
  assert (i = j) as ->; [|congruence].
  apply (NoDup_lookup _ _ _ (f x) Hnd); change (map f l) with (f <$> l); rewrite list_lookup_fmap.
  - by rewrite Hi.
  - by rewrite Hj, Heq.
Qed.
Lemma claim_ids_Ok claims ids : claim_ids claims = Ok ids <-> NoDup (map cs_claim_id claims) /\ ids = set_of (map cs_claim_id claims).
Proof.
  unfold claim_ids. rewrite <- set_of_length, length_map. destruct (Nat.eqb_spec (length (set_of (map cs_claim_id claims))) (length claims)).
  - split; [by intros [= <-]|by intros [_ ->]].
  - split; [done|tauto].
Qed.
Lemma claim_get_Some claims id claim : claim_get claims id = Some claim -> claim ∈ claims /\ cs_claim_id claim = id.
Proof. intros [Hin He]%List.find_some. split; [apply list_elem_of_In; by rewrite in_rev|by apply String.eqb_eq]. Qed.
Lemma insert_all_spec values s : strict s -> strict (insert_all values s) /\ forall x, x ∈ insert_all values s <-> x ∈ values \/ x ∈ s.
Proof.
  unfold insert_all. revert s. induction values as [|v l IH]; intros s Hs; cbn [fold_left]; [split; [done|set_solver]|].
  destruct (IH (set_insert v s)) as [H1 H2]; [by apply set_insert_strict|]. split; [done|].
  intros x. rewrite H2, elem_of_set_insert. set_solver.
Qed.

Section residual.
Context {serde : ComposeSerde}.
Record sets_ok (sets : ResidualObligations) : Prop := {
  so_assumptions : strict (ro_assumptions sets);
  so_exclusions : strict (ro_exclusions sets);
  so_open : strict (ro_open_obligations sets);
  so_premises : strict (ro_undischarged_premises sets)
}.
(** What the rows contribute to each set. *)
Definition row_text (texts : ClaimResidualReport -> list string) (rows : list ClaimResidualReport) (x : string) : Prop :=
  exists row text, row ∈ rows /\ text ∈ texts row /\ x = labelled (cr_claim_id row) text.
Definition row_record {A} (items : ClaimResidualReport -> list A) (record : string -> A -> result CompositionError string)
    (rows : list ClaimResidualReport) (x : string) : Prop :=
  exists row item, row ∈ rows /\ item ∈ items row /\ record (cr_claim_id row) item = Ok x.
Lemma row_text_cons texts row rows x :
  row_text texts (row :: rows) x <-> x ∈ map (labelled (cr_claim_id row)) (texts row) \/ row_text texts rows x.
Proof.
  unfold row_text. setoid_rewrite elem_of_cons. rewrite list_elem_of_fmap. naive_solver.
Qed.
Lemma row_record_cons {A} items (record : string -> A -> result CompositionError string) row rows l x :
  mapM (record (cr_claim_id row)) (items row) = Ok l ->
  row_record items record (row :: rows) x <-> x ∈ l \/ row_record items record rows x.
Proof.
  intros Hl%mapM_Ok. unfold row_record. setoid_rewrite elem_of_cons. split.
  - intros (r & item & [->|Hr] & Hitem & Hx).
    + destruct (Prelude.Forall2_elem_left _ _ _ _ Hl Hitem) as (y & Hy & Hr). left. congruence.
    + right. by exists r, item.
  - intros [Hx|(r & item & Hr & Hitem & Hx)].
    + destruct (Prelude.Forall2_elem_right _ _ _ _ Hl Hx) as (item & Hitem & Hr). exists row, item. auto.
    + exists r, item. auto.
Qed.
Lemma residual_rows_Ok claims sets rows result :
  sets_ok sets -> residual_rows claims sets rows = Ok result ->
  sets_ok result
  /\ Forall (fun row => exists claim, claim ∈ claims /\ cs_claim_id claim = cr_claim_id row
       /\ cr_assumptions row = cs_assumptions claim /\ cr_undischarged_premises row = cs_undischarged_premises claim) rows
  /\ (forall x, x ∈ ro_assumptions result <-> row_text cr_assumptions rows x \/ x ∈ ro_assumptions sets)
  /\ (forall x, x ∈ ro_undischarged_premises result
        <-> row_text cr_undischarged_premises rows x \/ x ∈ ro_undischarged_premises sets)
  /\ (forall x, x ∈ ro_open_obligations result
        <-> row_record cr_open_obligations open_obligation_record rows x \/ x ∈ ro_open_obligations sets)
  /\ (forall x, x ∈ ro_exclusions result <-> row_record cr_out_of_scope exclusion_record rows x \/ x ∈ ro_exclusions sets).
Proof.
  revert sets. induction rows as [|row rows IH]; intros sets Hok; cbn [residual_rows].
  { intros [= <-]. split; [done|]. split; [constructor|].
    repeat split; try (intros; by right); intros [Hr|]; try done; destruct Hr as (? & ? & Hin & _); by apply elem_of_nil in Hin. }
  intros (next & Hrow & H)%bind_Ok. unfold residual_row in Hrow.
  apply bind_Ok in Hrow as (claim & [Hin Hid]%ok_or_Ok%claim_get_Some & Hrow).
  destruct (negb _ || negb _) eqn:Hc; [done|].
  apply orb_false_iff in Hc as [Ha%negb_false_iff%bool_decide_eq_true Hp%negb_false_iff%bool_decide_eq_true].
  apply bind_Ok in Hrow as (obligations & Ho & Hrow). apply bind_Ok in Hrow as (exclusions & Hx & [= <-]).
  destruct Hok as [H1 H2 H3 H4].
  destruct (insert_all_spec (map (labelled (cr_claim_id row)) (cr_assumptions row)) _ H1) as [S1 E1].
  destruct (insert_all_spec exclusions _ H2) as [S2 E2]. destruct (insert_all_spec obligations _ H3) as [S3 E3].
  destruct (insert_all_spec (map (labelled (cr_claim_id row)) (cr_undischarged_premises row)) _ H4) as [S4 E4].
  destruct (IH _ (Build_sets_ok (mkResidualObligations _ _ _ _) S1 S2 S3 S4) H) as (Hok' & Hrows & I1 & I2 & I3 & I4).
  cbn in I1, I2, I3, I4. split; [done|]. split; [constructor; [by exists claim|done]|].
  split; [|split; [|split]]; intros x.
  - rewrite I1, E1, row_text_cons. tauto.
  - rewrite I2, E4, row_text_cons. tauto.
  - rewrite I3, E3, (row_record_cons _ _ _ _ _ _ Ho). tauto.
  - rewrite I4, E2, (row_record_cons _ _ _ _ _ _ Hx). tauto.
Qed.

(** Nothing that a release leaves open is lost: residual obligations exist only
    when the rows of the report are exactly one per claim and repeat its
    assumptions and premises, and then the four strictly ordered sets hold exactly
    the assumptions and premises of the claims and the records of the rows. *)
Theorem residual_obligations_exact claims rows result :
  residual_obligations claims rows = Ok result ->
  NoDup (map cs_claim_id claims) /\ NoDup (map cr_claim_id rows)
  /\ (forall id, id ∈ map cr_claim_id rows <-> id ∈ map cs_claim_id claims)
  /\ sets_ok result
  /\ (forall x, x ∈ ro_assumptions result
        <-> exists claim text, claim ∈ claims /\ text ∈ cs_assumptions claim /\ x = labelled (cs_claim_id claim) text)
  /\ (forall x, x ∈ ro_undischarged_premises result
        <-> exists claim text, claim ∈ claims /\ text ∈ cs_undischarged_premises claim /\ x = labelled (cs_claim_id claim) text)
  /\ (forall x, x ∈ ro_open_obligations result <-> row_record cr_open_obligations open_obligation_record rows x)
  /\ (forall x, x ∈ ro_exclusions result <-> row_record cr_out_of_scope exclusion_record rows x).
Proof.
  unfold residual_obligations. intros (ids & [Hnd ->]%claim_ids_Ok & H)%bind_Ok.
  destruct (negb _ || negb _) eqn:Hc; [done|].
  apply orb_false_iff in Hc as [Hl%negb_false_iff%Nat.eqb_eq Heq%negb_false_iff%bool_decide_eq_true].
  assert (NoDup (map cr_claim_id rows)) as Hndr by (apply set_of_length; by rewrite length_map).
  assert (forall id, id ∈ map cr_claim_id rows <-> id ∈ map cs_claim_id claims) as Hids.
  { intros id. rewrite <- (proj2 (set_of_spec _) id), Heq. apply set_of_spec. }
  apply residual_rows_Ok in H as (Hok & Hrows & I1 & I2 & I3 & I4); [|split; constructor].
  cbn in I1, I2, I3, I4. rewrite Forall_forall in Hrows.
  assert (forall claim, claim ∈ claims -> exists row, row ∈ rows /\ cr_claim_id row = cs_claim_id claim
    /\ cr_assumptions row = cs_assumptions claim /\ cr_undischarged_premises row = cs_undischarged_premises claim) as Hclaim.
  { intros claim Hin. pose proof (list_elem_of_fmap_2 cs_claim_id _ _ Hin) as Hid. apply Hids, list_elem_of_fmap in Hid as (row & Hid & Hrow).
    destruct (Hrows row Hrow) as (claim' & Hin' & Hid' & Ha & Hp). exists row.
    assert (claim' = claim) as ->; [|done]. eapply (NoDup_map_inj cs_claim_id); [exact Hnd|done|done|congruence]. }
  do 4 (split; [done|]). split; [|split; [|split]]; intros x.
  - rewrite I1. unfold row_text. split.
    + intros [(row & text & Hr & Ht & ->)|Hn]; [|by apply elem_of_nil in Hn].
      destruct (Hrows row Hr) as (claim & Hin & Hid & Ha & _). exists claim, text. by rewrite <- Ha, Hid.
    + intros (claim & text & Hin & Ht & ->). left. destruct (Hclaim claim Hin) as (row & Hr & Hid & Ha & _).
      exists row, text. by rewrite Ha, Hid.
  - rewrite I2. unfold row_text. split.
    + intros [(row & text & Hr & Ht & ->)|Hn]; [|by apply elem_of_nil in Hn].
      destruct (Hrows row Hr) as (claim & Hin & Hid & _ & Hp). exists claim, text. by rewrite <- Hp, Hid.
    + intros (claim & text & Hin & Ht & ->). left. destruct (Hclaim claim Hin) as (row & Hr & Hid & _ & Hp).
      exists row, text. by rewrite Hp, Hid.
  - rewrite I3, elem_of_nil. tauto.
  - rewrite I4, elem_of_nil. tauto.
Qed.
End residual.

(** * The validations *)

Lemma is_empty_string_false s : is_empty_string s = false <-> s <> "".
Proof. apply String.eqb_neq. Qed.
Lemma differs_false a b : differs a b = false <-> a = b.
Proof. unfold differs. by rewrite negb_false_iff, String.eqb_eq. Qed.
#[local] Hint Rewrite orb_false_iff negb_false_iff bool_decide_eq_true Z.ltb_ge Z.eqb_eq Z.eqb_neq differs_false
  is_empty_string_false one_of_true : guards.

Section bindings.
Context (sha256 : list byte -> list byte) (inputs : CompositionInputs).

Record release_bound (envelope : ReleaseEnvelope) (report : ReleaseReport) (compiled : CompiledRelease) (context : string) :
    Prop := {
  lb_envelope : re_schema envelope = RELEASE_ENVELOPE_SCHEMA /\ re_payload envelope = "compiled-receipt.json";
  lb_report : rr_schema report = RELEASE_REPORT_SCHEMA /\ rr_verdict report = "bytes-observed" /\ rr_trust_boundary report <> "";
  lb_compiled : cl_schema compiled = COMPILED_RELEASE_SCHEMA /\ cl_tree_state compiled = "clean"
    /\ (cl_project_tier compiled <= 3)%Z /\ cl_graph_sha256 compiled <> "";
  lb_observation : ab_name (ci_release_observation_inputs inputs) = "proofbound-observation-inputs.json"
    /\ ab_bytes (ci_release_observation_inputs inputs) <> [];
  lb_context : rr_evidence_context report = Some context /\ cl_evidence_context compiled = Some context
    /\ valid_context_name context = true;
  lb_payload : re_payload_sha256 envelope
      = domain_digest_text sha256 COMPILED_RELEASE_SCHEMA (ab_bytes (ci_compiled_release inputs))
    /\ rr_payload_sha256 report = re_payload_sha256 envelope;
  lb_project : rr_project report = cl_project compiled /\ rr_project_revision report = cl_project_revision compiled;
  lb_claims : rr_claims report = cl_reported_statuses compiled /\ NoDup (map cs_claim_id (rr_claims report))
    /\ rr_claims report <> []
}.
Lemma set_of_nil {A} `{LawfulOrd A} (l : list A) : set_of l = [] <-> l = [].
Proof.
  split; [|by intros ->]. intros Hn. destruct l as [|x l]; [done|].
  assert (x ∈ set_of (x :: l)) as Hin by (apply set_of_spec; constructor). rewrite Hn in Hin. by apply elem_of_nil in Hin.
Qed.
Lemma validate_release_Ok envelope report compiled context :
  validate_release sha256 envelope report compiled inputs = Ok context <-> release_bound envelope report compiled context.
Proof.
  unfold validate_release. split.
  - destruct (_ || _); [done|]. match goal with |- (if ?c then _ else _) = _ -> _ => destruct c eqn:Hc; [done|] end.
    autorewrite with guards in Hc. intros (ctx & Hctx%ok_or_Ok & H)%bind_Ok.
    apply bind_Some in Hctx as (ctx' & Hr & Hctx). destruct (valid_context_name ctx') eqn:Hv; [|done]. injection Hctx as ->.
    destruct (negb (bool_decide (cl_evidence_context compiled = Some ctx))) eqn:Hcl; [done|]. autorewrite with guards in Hcl.
    cbv zeta in H.
    match type of H with (if ?c then _ else _) = _ => destruct c eqn:Hp; [done|] end. autorewrite with guards in Hp.
    apply bind_Ok in H as (ids & [Hnd ->]%claim_ids_Ok & H). apply bind_Ok in H as (ids' & [_ ->]%claim_ids_Ok & H).
    case_bool_decide as Hne; [done|]. destruct (negb (bool_decide (set_of _ = _))); [done|].
    destruct (negb (bool_decide (rr_claims report = _))) eqn:Heq; [done|]. injection H as <-. autorewrite with guards in Heq.
    destruct Hc as [[[[[[[[[[? ?] ?] ?] ?] ?] ?] ?] ?] ?] ?]. destruct Hp as [[[? ?] ?] ?].
    split; try (repeat split; done).
    + split; [done|]. by eapply bool_decide_eq_false_1.
    + split; [done|]. split; [done|]. intros Hn. apply Hne, set_of_nil. rewrite <- Heq, Hn. done.
  - intros [[E1 E2] (R1 & R2 & R3) (C1 & C2 & C3 & C4) [O1 O2] (X1 & X2 & X3) [P1 P2] [J1 J2] (L1 & L2 & L3)].
    rewrite E1, R1, C1, R2, E2, C2, O1. cbn [one_of existsb].
    rewrite (proj2 (is_empty_string_false _) R3), (proj2 (is_empty_string_false _) C4), (proj2 (Z.ltb_ge _ _) C3),
      (bool_decide_eq_false_2 _ O2).
    unfold valid_context. rewrite X1. cbn [mbind option_bind]. rewrite X3. cbn [orb ok_or mbind result_bind].
    rewrite X2. rewrite (bool_decide_eq_true_2 (Some context = Some context)) by done. cbn [negb]. cbv zeta. rewrite <- P1, P2, J1, J2, L1.
    unfold differs. rewrite !String.eqb_refl. cbn.
    rewrite L1 in L2, L3. rewrite (proj2 (claim_ids_Ok _ _) (conj L2 eq_refl)). cbn [mbind result_bind].
    rewrite (bool_decide_eq_false_2 (set_of _ = [])).
    2: { intros Hn%(proj1 (set_of_nil _)). by apply L3, (map_eq_nil cs_claim_id). }
    by rewrite !bool_decide_eq_true_2.
Qed.

Definition registered_bound (registered : ManifestArtifact) (expected : string * ArtifactBytes) : Prop :=
  ma_name registered = expected.1 /\ ab_name expected.2 = expected.1
  /\ ma_sha256 registered = digest_hex sha256 (ab_bytes expected.2)
  /\ ma_size registered = Z.of_nat (length (ab_bytes expected.2))
  /\ (Z.of_nat (length (ab_bytes expected.2)) < u64_bound)%Z.
Record bundle_bound (manifest : RuntimeManifest) : Prop := {
  bb_manifest : rm_schema manifest = RELEASE_MANIFEST_SCHEMA /\ rm_toolchain manifest <> "" /\ rm_version manifest <> "";
  bb_platform : rm_architecture manifest ∈ ["aarch64"; "x86_64"]
    /\ rm_target manifest ∈ ["aarch64-unknown-linux-gnu"; "x86_64-unknown-linux-gnu"];
  bb_artifacts : Forall2 registered_bound (rm_artifacts manifest) (bundle_names inputs)
}.
Definition bundle_identities : list ArtifactIdentity := map (fun expected => artifact_identity sha256 expected.2) (bundle_names inputs).
Lemma validate_registered_Ok registered name bytes identity :
  validate_registered sha256 registered name bytes = Ok identity
  <-> registered_bound registered (name, bytes) /\ identity = artifact_identity sha256 bytes.
Proof.
  unfold validate_registered, registered_bound. cbn [fst snd]. split.
  - destruct (_ || _) eqn:Hc; [done|]. autorewrite with guards in Hc.
    intros (size & [-> Hs]%ok_or_Ok%try_from_Some & H)%bind_Ok. destruct (_ || _) eqn:Hd; [done|].
    autorewrite with guards in Hd. injection H as <-. destruct Hc, Hd. split; [|done]. repeat split; try done. lia.
  - intros [(Hn & Hb & Hd & Hz & Hl) ->]. rewrite (proj2 (differs_false _ _) Hn), (proj2 (differs_false _ _) Hb).
    cbn [orb]. rewrite (proj2 (try_from_Some _ _ (Z.of_nat (length (ab_bytes bytes))))) by (split; [done|lia]).
    cbn [ok_or mbind result_bind]. by rewrite (proj2 (differs_false _ _) Hd), (proj2 (Z.eqb_eq _ _) Hz).
Qed.
Lemma validate_all_Ok l k identities :
  length l = length k ->
  mapM (fun re : ManifestArtifact * (string * ArtifactBytes) => validate_registered sha256 re.1 re.2.1 re.2.2) (zip l k) = Ok identities
  <-> Forall2 registered_bound l k /\ identities = map (fun expected => artifact_identity sha256 expected.2) k.
Proof.
  revert k identities. induction l as [|a l IH]; intros [|[name bytes] k] identities Hl; try discriminate Hl.
  - cbn. split; [intros [= <-]; by split|by intros [_ ->]].
  - injection Hl as Hl. cbn [zip zip_with mapM fst snd map]. rewrite bind_Ok. setoid_rewrite bind_Ok. split.
    + intros (x & [Hx ->]%validate_registered_Ok & xs & [Hxs ->]%IH & [= <-]); [|done]. split; [by constructor|done].
    + intros [Hf ->]. inversion Hf; subst. eexists. split; [by apply validate_registered_Ok|]. eexists.
      split; [by apply IH|done].
Qed.
Lemma validate_bundle_Ok manifest identities :
  validate_bundle sha256 manifest inputs = Ok identities <-> bundle_bound manifest /\ identities = bundle_identities.
Proof.
  unfold validate_bundle, bundle_identities. split.
  - destruct (_ || _) eqn:Hc; [done|]. autorewrite with guards in Hc. destruct Hc as [[[[? ?] ?] ?] ?].
    cbv zeta. destruct (Nat.eqb_spec (length (rm_artifacts manifest)) (length (bundle_names inputs))) as [Hl|]; [|done].
    cbn [negb]. intros [Hf ->]%(validate_all_Ok _ _ _ Hl). by repeat split.
  - intros [[(M1 & M2 & M3) [P1 P2] Hf] ->].
    rewrite (proj2 (differs_false _ _) M1), (proj2 (is_empty_string_false _) M2), (proj2 (is_empty_string_false _) M3),
      (proj2 (one_of_true _ _) P1), (proj2 (one_of_true _ _) P2). cbn [orb negb]. cbv zeta.
    pose proof (Forall2_length _ _ _ Hf) as Hl. rewrite Hl, Nat.eqb_refl. cbn [negb]. by apply (validate_all_Ok _ _ _ Hl).
Qed.

Definition wire_bound (wire : WireArtifact) (role : string) (artifact : ArtifactBytes) : Prop :=
  wa_role wire = role /\ wa_sha256 wire = digest_hex sha256 (ab_bytes artifact)
  /\ wa_size wire = u64_to_string (Z.of_nat (length (ab_bytes artifact))) /\ wa_mode wire <> 0%Z.
Record execution_bound (execution : ExecutionFacts) (verification : ExecutionVerification) : Prop := {
  xb_schema : ef_schema execution = if ef_version_two execution then EXECUTION_RECEIPT_SCHEMA_V2 else EXECUTION_RECEIPT_SCHEMA;
  xb_version : ef_product_version execution <> "";
  xb_valid : ev_valid verification = true /\ ev_eligibility verification = ef_eligibility execution;
  xb_eligibility : we_status (ef_eligibility execution) = "reusable" /\ we_reasons (ef_eligibility execution) = []
    \/ we_status (ef_eligibility execution) = "non-reusable" /\ we_reasons (ef_eligibility execution) <> [];
  xb_commitment : ev_receipt_commitment verification = ci_expected_execution_commitment inputs
    /\ digest_text sha256 (ab_bytes (ci_execution_receipt inputs)) = ci_expected_execution_commitment inputs;
  xb_id : ef_execution_id execution = ci_expected_execution_id inputs;
  xb_runtime : wire_bound (wr_runtime (ef_runtime execution)) "runtime-binary" (ci_runtime inputs);
  xb_launcher : wire_bound (wr_launcher (ef_runtime execution)) "launcher-binary" (ci_launcher inputs);
  xb_producer : wire_bound (ef_producer execution) "runtime-binary" (ci_runtime inputs);
  xb_trusted : mkWireTcbEntry (digest_hex sha256 (ab_bytes (ci_runtime inputs))) "runtime-binary"
      ∈ ef_trusted_computing_base execution
    /\ mkWireTcbEntry (digest_hex sha256 (ab_bytes (ci_launcher inputs))) "launcher-binary"
      ∈ ef_trusted_computing_base execution
}.
Lemma valid_eligibility_true e :
  valid_eligibility e = true
  <-> we_status e = "reusable" /\ we_reasons e = [] \/ we_status e = "non-reusable" /\ we_reasons e <> [].
Proof.
  unfold valid_eligibility. destruct (String.eqb_spec (we_status e) "reusable") as [->|Hr].
  - rewrite bool_decide_eq_true. naive_solver.
  - destruct (String.eqb_spec (we_status e) "non-reusable") as [->|Hn]; [|naive_solver].
    rewrite negb_true_iff, bool_decide_eq_false. naive_solver.
Qed.
Lemma artifact_digest artifact :
  str_strip_prefix "sha256:" (ai_sha256 (artifact_identity sha256 artifact)) = Some (digest_hex sha256 (ab_bytes artifact)).
Proof. by apply str_strip_prefix_Some. Qed.
Lemma trim_digest l : trim_start_matches (String.append "sha256:" (VerifyDecode.hex l)) "sha256:" = VerifyDecode.hex l.
Proof.
  unfold trim_start_matches. assert (exists n, str_len (String.append "sha256:" (VerifyDecode.hex l)) = S n) as [n ->].
  { unfold str_len. rewrite bytes_append. cbn. by eexists. }
  cbn [trim_prefix]. rewrite (proj2 (str_strip_prefix_Some _ _ (VerifyDecode.hex l)) eq_refl).
  destruct (str_strip_prefix "sha256:" (VerifyDecode.hex l)) as [r|] eqn:Hr; [|done].
  apply str_strip_prefix_Some in Hr. exfalso. pose proof (hex_is_hex l) as Hh. rewrite <- bytes_hex, Hr in Hh.
  rewrite bytes_append in Hh. discriminate Hh.
Qed.
Lemma validate_wire_artifact_Ok wire role artifact :
  validate_wire_artifact wire role (artifact_identity sha256 artifact) = Ok () <-> wire_bound wire role artifact.
Proof.
  unfold validate_wire_artifact, wire_bound. rewrite artifact_digest. cbn [ok_or mbind result_bind ai_size artifact_identity]. split.
  - destruct (differs (wa_role wire) role) eqn:Hr; [done|]. destruct (_ || _) eqn:Hc; [done|].
    autorewrite with guards in Hr, Hc. tauto.
  - intros (Hr & Hd & Hs & Hm). rewrite (proj2 (differs_false _ _) Hr), (proj2 (differs_false _ _) Hd),
      (proj2 (differs_false _ _) Hs), (proj2 (Z.eqb_neq _ _) Hm). done.
Qed.
Lemma trusts_true base role artifact :
  trusts base role (artifact_identity sha256 artifact) = true
  <-> mkWireTcbEntry (digest_hex sha256 (ab_bytes artifact)) role ∈ base.
Proof.
  unfold trusts. cbv zeta. cbn [ai_sha256 artifact_identity]. unfold digest_text, digest_hex. rewrite trim_digest, existsb_exists.
  setoid_rewrite andb_true_iff. setoid_rewrite String.eqb_eq. split.
  - intros ([identity r] & Hin & <- & <-). by apply list_elem_of_In.
  - intros Hin%list_elem_of_In. eexists. by split.
Qed.
Lemma validate_execution_Ok execution verification :
  validate_execution sha256 execution verification bundle_identities inputs = Ok () <->
  execution_bound execution verification.
Proof.
  unfold validate_execution. cbv zeta.
  unfold artifact_at, bundle_identities, bundle_names. cbn [map lookup list_lookup ok_or mbind result_bind snd]. split.
  - match goal with |- (if ?c then _ else _) = _ -> _ => destruct c eqn:Hc; [done|] end. autorewrite with guards in Hc.
    destruct (differs (ef_execution_id execution) _) eqn:Hid; [done|]. autorewrite with guards in Hid.
    intros ([] & Hr%map_err_Ok%validate_wire_artifact_Ok & H)%bind_Ok.
    apply bind_Ok in H as ([] & Hl%map_err_Ok%validate_wire_artifact_Ok & H).
    apply bind_Ok in H as ([] & Hp%map_err_Ok%validate_wire_artifact_Ok & H).
    destruct (_ || _) eqn:Ht; [done|]. autorewrite with guards in Ht. rewrite !trusts_true in Ht.
    destruct Hc as [[[[[[[Hs Hv] Hval] Hel] Hst] Hre] Hcm] Hdg]. apply valid_eligibility_true in Hel.
    assert (ev_eligibility verification = ef_eligibility execution) as Heq
      by (destruct (ev_eligibility verification), (ef_eligibility execution); cbn in Hst, Hre; congruence).
    rewrite Heq in Hel. by split.
  - intros [Hs Hv [Hval Heq] Hel [Hcm Hdg] Hid Hr Hl Hp [Ht1 Ht2]]. rewrite Heq.
    rewrite (proj2 (differs_false _ _) Hs), (proj2 (is_empty_string_false _) Hv), Hval,
      (proj2 (valid_eligibility_true _) Hel), (proj2 (differs_false _ _) Hcm), (proj2 (differs_false _ _) Hdg),
      (proj2 (differs_false _ _) Hid), (bool_decide_eq_true_2 _ (eq_refl (we_reasons (ef_eligibility execution)))).
    unfold differs at 1. rewrite String.eqb_refl. cbn [negb orb].
    rewrite (proj2 (validate_wire_artifact_Ok _ _ _) Hr), (proj2 (validate_wire_artifact_Ok _ _ _) Hl),
      (proj2 (validate_wire_artifact_Ok _ _ _) Hp). cbn [lift_fault map_err mbind result_bind].
    by rewrite (proj2 (trusts_true _ _ _) Ht1), (proj2 (trusts_true _ _ _) Ht2).
Qed.
End bindings.

Section composed.
Context (sha256 : list byte -> list byte) {serde : ComposeSerde} {json : VerifyDecode.SerdeJson}
  (scan : list byte -> option VerifyReceipt.JsonSyntax).
#[local] Abbreviation compose := (Compose.compose sha256 scan).
#[local] Abbreviation parse_execution_facts := (Compose.parse_execution_facts sha256 scan).
#[local] Abbreviation verify_composed_receipt := (Compose.verify_composed_receipt sha256 scan).

(** * What is composed *)

Definition receipt_identity (receipt : ComposedReceipt) (version_two : bool) : result CompositionError string :=
  if version_two then composition_identity_v2 sha256 receipt else composition_identity sha256 receipt.
Definition receipt_bytes (receipt : ComposedReceipt) (version_two : bool) : result CompositionError (list byte) :=
  if version_two then canonical_v2_bytes receipt else canonical_bytes receipt.
(** The inputs are bound to each other and to the receipt. *)
Record composition (inputs : CompositionInputs) (envelope : ReleaseEnvelope) (report : ReleaseReport)
    (compiled : CompiledRelease) (ledger : TcbLedger) (manifest : RuntimeManifest) (execution : ExecutionFacts)
    (verification : ExecutionVerification) (context : string) (receipt : ComposedReceipt) : Prop := {
  cb_envelope : parse_release_envelope (ab_bytes (ci_release_envelope inputs)) = Some envelope;
  cb_report : parse_release_report (ab_bytes (ci_release_verification inputs)) = Some report;
  cb_compiled : parse_compiled_release (ab_bytes (ci_compiled_release inputs)) = Some compiled;
  cb_ledger : parse_tcb_ledger (ab_bytes (ci_release_tcb_ledger inputs)) = Some ledger;
  cb_manifest : parse_runtime_manifest (ab_bytes (ci_runtime_manifest inputs)) = Some manifest;
  cb_execution : parse_execution_facts inputs = Ok execution;
  cb_verification : parse_execution_verification (ab_bytes (ci_execution_verification inputs)) = Some verification;
  cb_release_bound : release_bound sha256 inputs envelope report compiled context;
  cb_bundle_bound : bundle_bound sha256 inputs manifest;
  cb_execution_bound : execution_bound sha256 inputs execution verification;
  cb_receipt : exists residual tcb id,
    residual_obligations (rr_claims report) (rr_not_proved_out_of_scope report) = Ok residual
    /\ inherited_tcb ledger (ef_trusted_computing_base execution) = Ok tcb
    /\ receipt_identity (composed_receipt sha256 inputs envelope report manifest execution context
         (bundle_identities sha256 inputs) residual tcb) (ef_version_two execution) = Ok id
    /\ receipt = with_composition_id (composed_receipt sha256 inputs envelope report manifest execution context
         (bundle_identities sha256 inputs) residual tcb) id
}.
Lemma lift_fault_Ok {E A} (m : result E A) a : lift_fault m = Ok a -> m = Ok a.
Proof. apply map_err_Ok. Qed.
Lemma compose_Ok inputs bytes :
  compose inputs = Ok bytes <->
  exists envelope report compiled ledger manifest execution verification context receipt,
    composition inputs envelope report compiled ledger manifest execution verification context receipt
    /\ receipt_bytes receipt (ef_version_two execution) = Ok bytes.
Proof.
  unfold Compose.compose, parse. split.
  - intros (envelope & H1%lift_fault_Ok%ok_or_Ok & H)%bind_Ok. apply bind_Ok in H as (report & H2%lift_fault_Ok%ok_or_Ok & H).
    apply bind_Ok in H as (compiled & H3%lift_fault_Ok%ok_or_Ok & H). apply bind_Ok in H as (ledger & H4%lift_fault_Ok%ok_or_Ok & H).
    apply bind_Ok in H as (manifest & H5%lift_fault_Ok%ok_or_Ok & H). apply bind_Ok in H as (execution & H6 & H).
    apply bind_Ok in H as (verification & H7%lift_fault_Ok%ok_or_Ok & H).
    apply bind_Ok in H as (context & H8%lift_fault_Ok%validate_release_Ok & H).
    apply bind_Ok in H as (artifacts & [H9 ->]%lift_fault_Ok%validate_bundle_Ok & H).
    apply bind_Ok in H as ([] & H10%validate_execution_Ok & H). apply bind_Ok in H as (residual & H11%lift_fault_Ok & H).
    apply bind_Ok in H as (tcb & H12%lift_fault_Ok & H). cbv zeta in H.
    set (base := composed_receipt _ _ _ _ _ _ _ _ _ _) in H.
    assert (exists id, receipt_identity base (ef_version_two execution) = Ok id
      /\ receipt_bytes (with_composition_id base id) (ef_version_two execution) = Ok bytes) as (id & Hid & Hb).
    { unfold receipt_identity, receipt_bytes.
      destruct (ef_version_two execution); apply bind_Ok in H as (id & Hid%lift_fault_Ok & Hb%lift_fault_Ok); by exists id. }
    exists envelope, report, compiled, ledger, manifest, execution, verification, context, (with_composition_id base id).
    split; [|done]. split; try done. by exists residual, tcb, id.
  - intros (envelope & report & compiled & ledger & manifest & execution & verification & context & receipt & Hc & Hb).
    destruct Hc as [H1 H2 H3 H4 H5 H6 H7 H8 H9 H10 (residual & tcb & id & H11 & H12 & Hid & ->)].
    rewrite H1, H2, H3, H4, H5. cbn [ok_or lift_fault map_err mbind result_bind]. rewrite H6. cbn [mbind result_bind].
    rewrite H7, (proj2 (validate_release_Ok _ _ _ _ _ _) H8). cbn [ok_or lift_fault map_err mbind result_bind].
    rewrite (proj2 (validate_bundle_Ok _ _ _ _) (conj H9 eq_refl)). cbn [lift_fault map_err mbind result_bind].
    rewrite (proj2 (validate_execution_Ok _ _ _ _) H10). cbn [mbind result_bind].
    rewrite H11. cbn [lift_fault map_err mbind result_bind]. rewrite H12. cbn [lift_fault map_err mbind result_bind].
    revert Hid Hb. unfold receipt_identity, receipt_bytes.
    destruct (ef_version_two execution); intros -> Hb; cbn [lift_fault map_err mbind result_bind]; by rewrite Hb.
Qed.

(** C5: [compose] succeeds exactly on inputs that belong together: the release
    envelope, report and compiled release name the same payload, project,
    revision, context and claims; the manifest registers exactly the bytes of the
    four programs; the execution receipt hashes to the expected commitment, its
    verification is valid and of the same decision, it is of the expected
    execution and was made by the registered runtime and launcher, which it
    trusts.  What it returns is the canonical form of the receipt of those inputs,
    with the identity computed from its body. *)
Theorem compose_exact inputs bytes :
  compose inputs = Ok bytes <->
  exists envelope report compiled ledger manifest execution verification context receipt,
    composition inputs envelope report compiled ledger manifest execution verification context receipt
    /\ receipt_bytes receipt (ef_version_two execution) = Ok bytes.
Proof. apply compose_Ok. Qed.

Lemma artifact_at_bundle inputs execution verification :
  validate_execution sha256 execution verification (bundle_identities sha256 inputs) inputs <> Err Panicked.
Proof.
  unfold validate_execution, artifact_at, bundle_identities, bundle_names. cbv zeta. cbn [map lookup list_lookup ok_or mbind result_bind snd].
  destruct (_ || _); [done|]. destruct (differs _ _); [done|].
  do 3 (apply (bind_not_panicked (lift_fault _)); [apply lift_fault_not_panicked|intros ? _]). by destruct (_ || _).
Qed.
Lemma execution_facts_not_panicked inputs : parse_execution_facts inputs <> Err Panicked.
Proof.
  unfold Compose.parse_execution_facts. cbv zeta. destruct (starts_with_brace _).
  - apply bind_not_panicked; [apply lift_fault_not_panicked|done].
  - apply bind_not_panicked; [by destruct (ReceiptCommitment_parse _)|intros commitment _]. apply bind_not_panicked.
    + pose proof (VerifyReceipt.verify_receipt_not_panicked scan sha256 (ab_bytes (ci_execution_receipt inputs)) commitment) as Hp.
      by destruct (VerifyReceipt.verify_receipt _ _ _ _) as [|[]].
    + intros report _. apply bind_not_panicked; [by destruct (VerifyDecode.decode_receipt _)|]. intros decoded _. by destruct (negb _).
Qed.
Lemma compose_not_panicked inputs : compose inputs <> Err Panicked.
Proof.
  unfold Compose.compose. do 5 (apply bind_not_panicked; [apply lift_fault_not_panicked|intros ? _]).
  apply bind_not_panicked; [apply execution_facts_not_panicked|intros execution _].
  do 2 (apply bind_not_panicked; [apply lift_fault_not_panicked|intros ? _]).
  apply bind_not_panicked; [apply lift_fault_not_panicked|intros artifacts Ha].
  apply bind_not_panicked; [|intros ? _].
  { apply lift_fault_Ok, validate_bundle_Ok in Ha as [_ ->]. apply artifact_at_bundle. }
  do 2 (apply bind_not_panicked; [apply lift_fault_not_panicked|intros ? _]).
  cbv zeta. destruct (ef_version_two execution); (apply bind_not_panicked; [apply lift_fault_not_panicked|intros ? _];
    apply lift_fault_not_panicked).
Qed.

Lemma verify_composed_Ok bytes inputs :
  verify_composed_receipt bytes inputs = Ok ()
  <-> compose inputs = Ok bytes /\ exists receipt, parse_composed_receipt bytes = Ok receipt.
Proof.
  unfold Compose.verify_composed_receipt. split.
  - intros (actual & Ha%lift_fault_Ok & H)%bind_Ok. apply bind_Ok in H as (expected_bytes & Hc & H).
    apply bind_Ok in H as (expected & He & H). do 3 (destruct (negb _); [done|]).
    destruct (negb (bool_decide (bytes = expected_bytes))) eqn:Hb; [done|].
    apply negb_false_iff, bool_decide_eq_true in Hb as <-. split; [done|]. by exists actual.
  - intros [Hc [receipt Hr]]. rewrite Hr. cbn [lift_fault map_err mbind result_bind]. rewrite Hc. cbn [mbind result_bind].
    rewrite Hr. cbn [lift_fault map_err mbind result_bind]. by rewrite !bool_decide_eq_true_2.
Qed.

(** A composed receipt verifies exactly when it is, byte for byte, what
    [compose] makes of the same inputs; neither of the two ever panics on the
    positions of the bundle. *)
Theorem verify_composed_exact bytes inputs :
  compose inputs <> Err Panicked /\ verify_composed_receipt bytes inputs <> Err Panicked
  /\ (verify_composed_receipt bytes inputs = Ok ()
      <-> compose inputs = Ok bytes /\ exists receipt, parse_composed_receipt bytes = Ok receipt).
Proof.
  split; [apply compose_not_panicked|]. split; [|apply verify_composed_Ok]. unfold Compose.verify_composed_receipt.
  apply bind_not_panicked; [apply lift_fault_not_panicked|intros actual _].
  apply bind_not_panicked; [apply compose_not_panicked|intros expected_bytes _].
  apply bind_not_panicked; [apply lift_fault_not_panicked|intros expected _]. by repeat case_match.
Qed.

Lemma version_two_facts inputs execution :
  parse_execution_facts inputs = Ok execution -> ef_version_two execution = true ->
  exists commitment report decoded,
    ReceiptCommitment_parse (ci_expected_execution_commitment inputs) = Ok commitment
    /\ VerifyReceipt.verify_receipt scan sha256 (ab_bytes (ci_execution_receipt inputs)) commitment = Ok report
    /\ VerifyDecode.decode_receipt (ab_bytes (ci_execution_receipt inputs)) = Ok decoded
    /\ execution = execution_facts (composition_facts decoded).
Proof.
  unfold Compose.parse_execution_facts. cbv zeta. destruct (starts_with_brace _).
  - intros (receipt & _ & [= <-])%bind_Ok. discriminate.
  - intros (commitment & Hc%map_err_Ok & H)%bind_Ok _. apply bind_Ok in H as (report & Hr%map_err_Ok & H).
    apply bind_Ok in H as (decoded & Hd%map_err_Ok & H). destruct (negb _); [done|]. injection H as <-.
    by exists commitment, report, decoded.
Qed.

(** A version 2 composition rests on a verified execution: the verifier accepts
    the execution receipt against the expected commitment, the composed facts are
    the ones it decoded, the recorded eligibility is the one it derives, and every
    assumption it requires of a receipt is an assumption of the composition. *)
Theorem composed_execution_verified inputs envelope report compiled ledger manifest execution verification context receipt :
  composition inputs envelope report compiled ledger manifest execution verification context receipt ->
  ef_version_two execution = true ->
  exists commitment verified decoded,
    ReceiptCommitment_parse (ci_expected_execution_commitment inputs) = Ok commitment
    /\ VerifyReceipt.verify_receipt scan sha256 (ab_bytes (ci_execution_receipt inputs)) commitment = Ok verified
    /\ VerifyDecode.decode_receipt (ab_bytes (ci_execution_receipt inputs)) = Ok decoded
    /\ execution = execution_facts (composition_facts decoded)
    /\ (VerifyReceipt.report_eligibility verified = Eligibility.Verifier.Reusable
        <-> xi_eligibility (cmp_execution receipt) = "reusable")
    /\ (forall assumption, assumption ∈ VerifyReceipt.REQUIRED_ASSUMPTIONS ->
          assumption ∈ map ie_id (cmp_assumptions receipt)).
Proof.
  intros [_ _ _ _ _ Hex _ _ _ _ (residual & tcb & id & _ & _ & _ & ->)] Hv.
  destruct (version_two_facts _ _ Hex Hv) as (commitment & verified & decoded & Hc & Hr & Hd & ->).
  exists commitment, verified, decoded. do 4 (split; [done|]).
  apply VerifyReceipt.verify_receipt_Ok in Hr as (decoded' & Hd' & Hacc & _ & ->). rewrite Hd in Hd'. injection Hd' as <-.
  destruct Hacc as [_ _ _ Hass _ _ Hel]. split.
  - cbn. unfold VerifyReceipt.validate_eligibility in Hel. unfold recorded_reusable.
    destruct (VerifyDecode.dr_recorded_eligibility decoded), (Eligibility.Verifier.derive_eligibility _); done.
  - intros assumption Hin. cbn. apply inherited_ids. exists "execution". right. split; [done|]. cbn. by apply Hass.
Qed.
End composed.
