(* ===== verification/CompositionWire.v ===== *)
(** The version 2 form of a composed receipt
    ([proofbound-runtime-compose/src/cbor_encode.rs], [cbor_decode.rs]): its round
    trip, and what an accepted decision about a composition says of the release
    and of the execution that were composed. *)
From S2P Require Import Prelude Identity JsonCbor ReceiptViews Compose Composition.
From S2P Require WireV2 WireMaps VerifyCbor VerifyDecode VerifyReceipt Accept AcceptDecision.
From Stdlib Require Import Ascii ZArith Lia Sorted.
From stdpp Require Import prelude strings list numbers.
Export stdpp.list_relations.list.

(** * The strings of the codec *)

Definition string_value (value : string) (path : list string) : option WireV2.Value :=
  field ← list_basics.list.last path;
  if String.eqb field "size" then WireV2.Unsigned <$> u64_parse (bytes_of value)
  else if String.eqb field "execution_id" then WireV2.Bytes <$> result_ok (parse_uuid value)
  else if String.eqb field "project_revision" then WireV2.Bytes <$> result_ok (parse_hex_exact (bytes_of value) 20)
  else if is_digest_path path then WireV2.Bytes <$> result_ok (parse_digest value)
  else Some (WireV2.Text value).
(** A size is written as the decimal of a [u64]. *)
Definition string_plain (value : string) (path : list string) : Prop :=
  path_is_size path = true -> exists z, (0 <= z < u64_bound)%Z /\ value = u64_to_string z.
Lemma composed_encode_parsed_emits {A} (m : option A) (enc : A -> encoder) (w : A -> WireV2.Value) :
  (forall a, m = Some a -> emits (enc a) (Some (WireV2.wire (w a)))) ->
  emits (fun output => a ← ok_or m (); enc a output) (WireV2.wire <$> (w <$> m)).
Proof. intros Hm out. destruct m as [a|]; cbn; [by apply Hm|done]. Qed.
Lemma encode_result_emits {A} (m : result () A) (enc : A -> encoder) (w : A -> WireV2.Value) :
  (forall a, m = Ok a -> emits (enc a) (Some (WireV2.wire (w a)))) ->
  emits (fun output => a ← m; enc a output) (WireV2.wire <$> (w <$> result_ok m)).
Proof. intros Hm out. destruct m as [a|[]]; cbn; [by apply Hm|done]. Qed.
Lemma u64_parse_bound l z : u64_parse l = Some z -> (0 <= z < u64_bound)%Z.
Proof.
  unfold u64_parse. intros H.
  assert (forall k, parse_digits 0 k = Some z -> (0 <= z < u64_bound)%Z) as Hb
    by (intros k Hk; by eapply parse_digits_bound, Hk; vm_compute).
  repeat case_match; try done; by eapply Hb.
Qed.
Lemma composed_encode_bytes_emits l : (Z.of_nat (length l) < u64_bound)%Z -> emits (encode_bytes l) (Some (WireV2.wire (WireV2.Bytes l))).
Proof. intros H out. unfold encode_bytes. rewrite encode_length_emits by done. cbn. by rewrite <- app_assoc. Qed.
Lemma composed_encode_string_emits value path :
  WireV2.text_ok value = true -> emits (encode_string value path) (WireV2.wire <$> string_value value path).
Proof.
  intros Ht. unfold encode_string, string_value. destruct (list_basics.list.last path) as [field|]; [|done].
  cbn [ok_or mbind result_bind option_bind].
  destruct (String.eqb field "size").
  { apply (composed_encode_parsed_emits _ (fun z output => Ok (encode_argument 0 z output))). intros z Hz%u64_parse_bound out.
    unfold encode_argument. by rewrite WireV2.encode_argument_app by lia. }
  destruct (String.eqb field "execution_id").
  { apply encode_result_emits. intros l [_ Hl]%parse_uuid_Ok. apply composed_encode_bytes_emits. by rewrite Hl. }
  destruct (String.eqb field "project_revision").
  { apply encode_result_emits. intros l [_ Hl]%parse_hex_exact_Ok. apply composed_encode_bytes_emits. by rewrite Hl. }
  destruct (is_digest_path path); [|by apply encode_text_emits].
  apply encode_result_emits. intros l [_ Hl]%parse_digest_Ok. apply composed_encode_bytes_emits. by rewrite Hl.
Qed.
(** What is written, and what is read back from it. *)
Lemma composed_string_value_cases value path w :
  string_value value path = Some w ->
  w = WireV2.Text value
  \/ (exists z, w = WireV2.Unsigned z /\ u64_parse (bytes_of value) = Some z /\ path_is_size path = true
       /\ exact_decimal_path path = true)
  \/ exists l, w = WireV2.Bytes l /\ length l <= 32 /\ model_bytes l path = Ok value.
Proof.
  unfold string_value, model_bytes, path_is_size, exact_decimal_path.
  destruct (list_basics.list.last path) as [field|]; [|done]. cbn [mbind option_bind ok_or result_bind].
  destruct (String.eqb_spec field "size") as [->|Hs].
  { intros (z & Hz & ->)%fmap_Some. right. left. by exists z. }
  destruct (String.eqb_spec field "execution_id") as [->|Hx].
  { intros (l & Hl & ->)%fmap_Some. right. right. exists l. destruct (parse_uuid value) as [l'|] eqn:Hp; [|done].
    injection Hl as ->. apply parse_uuid_Ok in Hp as [-> H16]. rewrite H16. split; [done|]. split; [lia|done]. }
  destruct (String.eqb_spec field "project_revision") as [->|Hr].
  { intros (l & Hl & ->)%fmap_Some. right. right. exists l. destruct (parse_hex_exact _ 20) as [l'|] eqn:Hp; [|done].
    injection Hl as ->. apply parse_hex_exact_Ok in Hp as [Hv H20]. rewrite H20. split; [done|]. split; [lia|].
    cbn. f_equal. apply bytes_inj. by rewrite bytes_hex. }
  destruct (is_digest_path path); [|intros [= <-]; by left].
  intros (l & Hl & ->)%fmap_Some. right. right. exists l. destruct (parse_digest value) as [l'|] eqn:Hp; [|done].
  injection Hl as ->. apply parse_digest_Ok in Hp as [-> H32]. rewrite H32. split; [done|]. split; [lia|done].
Qed.
Lemma composed_string_value_ok value path w :
  WireV2.text_ok value = true -> string_value value path = Some w -> WireMaps.encodable w = true /\ WireV2.canon w = w.
Proof.
  intros Ht [-> | [(z & -> & Hz%u64_parse_bound & _) | (l & -> & Hl & _)]]%composed_string_value_cases; (split; [|done]).
  - by apply WireMaps.encodable_Text.
  - by apply WireMaps.encodable_Unsigned, WireV2.in_u64_spec.
  - apply WireMaps.encodable_Bytes, WireV2.in_u64_spec. unfold u64_bound. lia.
Qed.
Lemma composed_string_value_back value path w :
  WireV2.text_ok value = true -> string_plain value path -> string_value value path = Some w ->
  project (project_unsigned true) (project_bytes true) (VerifyCbor.seen w) path = Ok (Json_String value).
Proof.
  intros Ht Hp [-> | [(z & -> & Hz & Hs & He) | (l & -> & Hl & Hb)]]%composed_string_value_cases; cbn.
  - done.
  - unfold project_unsigned. rewrite He, Hs. cbn. destruct (Hp Hs) as (z' & Hz' & ->). unfold u64_to_string in Hz.
    rewrite String.list_ascii_of_string_of_list_ascii, u64_parse_decimal in Hz by done. by injection Hz as ->.
  - by rewrite Hb.
Qed.
Lemma composed_string_value_small s path w :
  string_value s path = Some w ->
  WireV2.nesting w = 0 /\ WireV2.item_count w = 1%Z /\ (WireMaps.weight w <= 41 + WireMaps.text_length s)%Z.
Proof.
  unfold WireMaps.text_length.
  intros [-> | [(z & -> & _) | (l & -> & Hl & _)]]%composed_string_value_cases; (split; [done|split; [done|]]); cbn;
    unfold WireMaps.text_length; lia.
Qed.

(** * The members of a receipt are read back as they are *)

#[local] Abbreviation plain := (json_plain (project_unsigned true) string_plain).
Lemma plain_string path s : path_is_size path = false -> plain path (Json_String s).
Proof. intros Hp. cbn. unfold string_plain. congruence. Qed.
Lemma plain_strings path l : path_is_size path = false -> plain path (json_strings l).
Proof. intros Hp. apply foldr_Forall, Forall_fmap, Forall_forall. intros s _. by apply plain_string. Qed.
Lemma plain_u64 path z : path_is_size path = false -> plain path (Json_U64 z).
Proof. intros Hp. cbn. unfold project_unsigned. by rewrite Hp, andb_false_r. Qed.
Lemma plain_array {A} (f : A -> Json) path l : Forall (fun a => plain path (f a)) l -> plain path (Json_Array (map f l)).
Proof. intros H. by apply foldr_Forall, Forall_fmap. Qed.
Lemma plain_object path kvs : Forall (fun kv => plain (path ++ [kv.1]) kv.2) kvs -> plain path (Json_Object kvs).
Proof. intros H. by apply foldr_Forall. Qed.
Lemma path_field path field : path_is_size (path ++ [field]) = String.eqb field "size".
Proof. unfold path_is_size. by rewrite last_snoc. Qed.
Ltac plain_members :=
  apply plain_object; repeat (apply Forall_cons; split; cbn [fst snd]); try apply Forall_nil_2;
  try (apply plain_string; rewrite path_field; reflexivity); try (apply plain_strings; rewrite path_field; reflexivity);
  try (apply plain_u64; rewrite path_field; reflexivity); try exact I.
Definition size_plain (a : ArtifactIdentity) : Prop := exists z, (0 <= z < u64_bound)%Z /\ ai_size a = u64_to_string z.
Lemma plain_identity path a : size_plain a -> plain path (ArtifactIdentity_to_value a).
Proof.
  intros Hs. change (ArtifactIdentity_to_value a) with (Json_Object [("name", Json_String (ai_name a));
    ("sha256", Json_String (ai_sha256 a)); ("size", Json_String (ai_size a))]). plain_members. intros _. exact Hs.
Qed.
Lemma plain_observed path a : plain path (ObservedArtifact_to_value a).
Proof.
  change (ObservedArtifact_to_value a) with (Json_Object [("logical_name", Json_String (oa_logical_name a));
    ("sha256", Json_String (oa_sha256 a)); ("size_bytes", Json_U64 (oa_size_bytes a))]). plain_members.
Qed.
Lemma plain_observation path o : plain path (ArtifactObservation_to_value o).
Proof.
  change (ArtifactObservation_to_value o) with (Json_Object
    [("artifact", ObservedArtifact_to_value (ao_artifact o)); ("dependencies", json_strings (ao_dependencies o));
     ("evidence", Json_String (ao_evidence o)); ("identity", Json_String (ao_identity o));
     ("platform", Json_Object [("architecture", Json_String (op_architecture (ao_platform o)));
        ("operating_system", Json_String (op_operating_system (ao_platform o)))]);
     ("procedure", ObservedArtifact_to_value (ao_procedure o)); ("semantic_kind", Json_String (ao_semantic_kind o));
     ("subject_role", Json_String (ao_subject_role o));
     ("toolchain_closure", Json_Object [("kind", Json_String (tc_kind (ao_toolchain_closure o)));
        ("sha256", Json_String (tc_sha256 (ao_toolchain_closure o)))])]).
  plain_members; try apply plain_observed; plain_members.
Qed.
Lemma plain_claim path c : plain path (ClaimStatus_to_value c).
Proof.
  change (ClaimStatus_to_value c) with (Json_Object
    [("artifact_observations", Json_Array (map ArtifactObservation_to_value (cs_artifact_observations c)));
     ("assumption", Json_String (cs_assumption c)); ("assumptions", json_strings (cs_assumptions c));
     ("claim_id", Json_String (cs_claim_id c)); ("formal", Json_String (cs_formal c));
     ("linkage", Json_String (cs_linkage c)); ("policy_admitted", Json_Bool (cs_policy_admitted c));
     ("public_statement", Json_String (cs_public_statement c));
     ("undischarged_premises", json_strings (cs_undischarged_premises c))]).
  plain_members. apply plain_array, Forall_forall. intros o _. apply plain_observation.
Qed.
Lemma plain_inherited path e : plain path (InheritedEntry_to_value e).
Proof.
  change (InheritedEntry_to_value e) with (Json_Object [("id", Json_String (ie_id e)); ("origins", json_strings (ie_origins e))]).
  plain_members.
Qed.
Lemma plain_tcb path e : plain path (ComposedTcbEntry_to_value e).
Proof.
  change (ComposedTcbEntry_to_value e) with (Json_Object [("identity", Json_String (cte_identity e));
    ("origins", json_strings (cte_origins e)); ("role", Json_String (cte_role e))]). plain_members.
Qed.
Lemma plain_residual path r : plain path (ResidualObligations_to_value r).
Proof.
  change (ResidualObligations_to_value r) with (Json_Object [("assumptions", json_strings (ro_assumptions r));
    ("exclusions", json_strings (ro_exclusions r)); ("open_obligations", json_strings (ro_open_obligations r));
    ("undischarged_premises", json_strings (ro_undischarged_premises r))]). plain_members.
Qed.
Lemma plain_release path r :
  Forall size_plain [ri_envelope r; ri_observation_inputs r; ri_verification_report r; ri_verifier r] ->
  plain path (ReleaseIdentity_to_value r).
Proof.
  intros (H1 & H2 & H3 & H4 & _)%foldr_Forall.
  change (ReleaseIdentity_to_value r) with (Json_Object
    [("envelope", ArtifactIdentity_to_value (ri_envelope r)); ("evidence_context", Json_String (ri_evidence_context r));
     ("observation_inputs", ArtifactIdentity_to_value (ri_observation_inputs r));
     ("payload_sha256", Json_String (ri_payload_sha256 r)); ("project", Json_String (ri_project r));
     ("project_revision", Json_String (ri_project_revision r));
     ("verification_report", ArtifactIdentity_to_value (ri_verification_report r));
     ("verification_verdict", Json_String (ri_verification_verdict r));
     ("verifier", ArtifactIdentity_to_value (ri_verifier r))]).
  plain_members; by apply plain_identity.
Qed.
Lemma plain_bundle path b : Forall size_plain (rb_manifest b :: rb_artifacts b) -> plain path (RuntimeBundleIdentity_to_value b).
Proof.
  intros [H1 H2]%Forall_cons. change (RuntimeBundleIdentity_to_value b) with (Json_Object
    [("architecture", Json_String (rb_architecture b)); ("artifacts", Json_Array (map ArtifactIdentity_to_value (rb_artifacts b)));
     ("manifest", ArtifactIdentity_to_value (rb_manifest b)); ("target", Json_String (rb_target b));
     ("toolchain", Json_String (rb_toolchain b)); ("version", Json_String (rb_version b))]).
  plain_members; [|by apply plain_identity]. apply plain_array. eapply Forall_impl; [exact H2|]. intros a. apply plain_identity.
Qed.
Lemma plain_execution path e :
  Forall size_plain [xi_receipt e; xi_verification_report e; xi_verifier e] -> plain path (ExecutionIdentity_to_value e).
Proof.
  intros (H1 & H2 & H3 & _)%foldr_Forall. change (ExecutionIdentity_to_value e) with (Json_Object
    [("commitment", Json_String (xi_commitment e)); ("eligibility", Json_String (xi_eligibility e));
     ("execution_id", Json_String (xi_execution_id e)); ("receipt", ArtifactIdentity_to_value (xi_receipt e));
     ("verification_report", ArtifactIdentity_to_value (xi_verification_report e));
     ("verifier", ArtifactIdentity_to_value (xi_verifier e))]).
  plain_members; by apply plain_identity.
Qed.

Definition receipt_members (r : ComposedReceipt) : list (string * Json) :=
  [("assumptions", Json_Array (map InheritedEntry_to_value (cmp_assumptions r)));
   ("claims", Json_Array (map ClaimStatus_to_value (cmp_claims r)));
   ("composition_id", Json_String (cmp_composition_id r));
   ("eligibility", Json_Object [("status", Json_String (ce_status (cmp_eligibility r)))]);
   ("execution", ExecutionIdentity_to_value (cmp_execution r));
   ("not_proved_out_of_scope", ResidualObligations_to_value (cmp_not_proved_out_of_scope r));
   ("release", ReleaseIdentity_to_value (cmp_release r));
   ("runtime_bundle", RuntimeBundleIdentity_to_value (cmp_runtime_bundle r));
   ("schema", Json_String (cmp_schema r));
   ("trusted_computing_base", Json_Array (map ComposedTcbEntry_to_value (cmp_trusted_computing_base r)))].
Lemma ComposedReceipt_value r : ComposedReceipt_to_value r = Json_Object (receipt_members r).
Proof. reflexivity. Qed.
(** The identities of artifacts in a receipt. *)
Definition receipt_identities (r : ComposedReceipt) : list ArtifactIdentity :=
  [ri_envelope (cmp_release r); ri_observation_inputs (cmp_release r); ri_verification_report (cmp_release r);
   ri_verifier (cmp_release r); xi_receipt (cmp_execution r); xi_verification_report (cmp_execution r);
   xi_verifier (cmp_execution r); rb_manifest (cmp_runtime_bundle r)] ++ rb_artifacts (cmp_runtime_bundle r).
Lemma plain_receipt r : Forall size_plain (receipt_identities r) -> plain [] (ComposedReceipt_to_value r).
Proof.
  intros [(H1 & H2 & H3 & H4 & H5 & H6 & H7 & H8 & _)%foldr_Forall Ha]%Forall_app. rewrite ComposedReceipt_value.
  unfold receipt_members. plain_members.
  - apply plain_array, Forall_forall. intros e _. apply plain_inherited.
  - apply plain_array, Forall_forall. intros c _. apply plain_claim.
  - plain_members.
  - apply plain_execution. by repeat constructor.
  - apply plain_residual.
  - apply plain_release. by repeat constructor.
  - apply plain_bundle. by constructor.
  - apply plain_array, Forall_forall. intros e _. apply plain_tcb.
Qed.

(** * The round trip *)

Lemma decode_encode_composed v bytes :
  json_typed v -> json_within_limits v = true -> plain [] v -> encode_composed_v2 v = Ok bytes ->
  decode_composed_v2_model bytes = Ok v.
Proof.
  intros Hty Hl Hp He. unfold decode_composed_v2_model.
  apply (decode_encode_json _ _ composed_encode_string_emits composed_string_value_ok _ _ string_plain composed_string_value_back); try done.
  intros w Hw. by eapply (wire_value_within string_value composed_string_value_small).
Qed.
Lemma encoded_not_brace kvs bytes :
  json_typed (Json_Object kvs) -> encode_composed_v2 (Json_Object kvs) = Ok bytes -> starts_with_brace bytes = false.
Proof.
  intros Hty He. unfold encode_composed_v2 in He.
  pose proof (encode_json_emits _ _ composed_encode_string_emits composed_string_value_ok _ [] Hty []) as Hw. rewrite He in Hw.
  destruct (wire_value string_value [] (Json_Object kvs)) as [w|] eqn:Hwv; [|done]. cbn in Hw. injection Hw as ->.
  pose proof (json_wire_encodable _ composed_string_value_ok _ _ _ Hty Hwv) as Hen.
  apply fmap_Some in Hwv as (ws & _ & ->). apply bool_decide_eq_false. by apply WireMaps.map_head.
Qed.

Section roundtrip.
Context {serde : ComposeSerde}.
(** The derived deserializer reads what the derived serializer writes. *)
Lemma receipt_read_back r bytes :
  composed_from_value (ComposedReceipt_to_value r) = Some r -> cmp_schema r = COMPOSITION_SCHEMA_V2 ->
  json_typed (ComposedReceipt_to_value r) -> json_within_limits (ComposedReceipt_to_value r) = true ->
  Forall size_plain (receipt_identities r) -> canonical_v2_bytes r = Ok bytes -> parse_composed_receipt bytes = Ok r.
Proof.
  intros Hr Hs Hty Hl Hp Hb%map_err_Ok. unfold parse_composed_receipt.
  rewrite (encoded_not_brace _ _ Hty Hb).
  rewrite (decode_encode_composed _ _ Hty Hl (plain_receipt r Hp) Hb). cbn [schema_invalid map_err mbind result_bind].
  unfold parse. rewrite Hr. cbn [ok_or mbind result_bind]. by rewrite Hs.
Qed.
End roundtrip.

(** * A composition and the decision about it *)

Section composed.
Context (sha256 : list byte -> list byte) {serde : ComposeSerde} {json : VerifyDecode.SerdeJson}
  (scan : list byte -> option VerifyReceipt.JsonSyntax).
#[local] Abbreviation compose := (Compose.compose sha256 scan).
#[local] Abbreviation verify_composed_receipt := (Compose.verify_composed_receipt sha256 scan).
#[local] Abbreviation composition := (Composition.composition sha256 scan).

(** The inputs fit in memory. *)
Definition inputs_fit (inputs : CompositionInputs) : Prop :=
  Forall (fun artifact => (Z.of_nat (length (ab_bytes artifact)) < u64_bound)%Z)
    [ci_release_envelope inputs; ci_release_verification inputs; ci_release_verifier inputs;
     ci_release_observation_inputs inputs; ci_runtime_manifest inputs; ci_runtime inputs; ci_launcher inputs;
     ci_execution_verifier inputs; ci_composer inputs; ci_execution_receipt inputs; ci_execution_verification inputs].
Definition acceptance_facts_of (receipt : ComposedReceipt) : ReleaseAcceptanceFacts :=
  mkReleaseAcceptanceFacts (cmp_composition_id receipt) (ri_project (cmp_release receipt))
    (ri_project_revision (cmp_release receipt)) (ri_payload_sha256 (cmp_release receipt))
    (ri_evidence_context (cmp_release receipt)) (rb_version (cmp_runtime_bundle receipt))
    (rb_architecture (cmp_runtime_bundle receipt)) (map claim_facts (cmp_claims receipt))
    (map ie_id (cmp_assumptions receipt)) (ro_exclusions (cmp_not_proved_out_of_scope receipt))
    (ro_open_obligations (cmp_not_proved_out_of_scope receipt)) (map cte_role (cmp_trusted_computing_base receipt)).
Lemma identity_plain artifact :
  (Z.of_nat (length (ab_bytes artifact)) < u64_bound)%Z -> size_plain (artifact_identity sha256 artifact).
Proof. intros H. exists (Z.of_nat (length (ab_bytes artifact))). split; [lia|done]. Qed.

Section of_composition.
Context (inputs : CompositionInputs) (envelope : ReleaseEnvelope) (report : ReleaseReport) (compiled : CompiledRelease)
  (ledger : TcbLedger) (manifest : RuntimeManifest) (execution : ExecutionFacts) (verification : ExecutionVerification)
  (context : string) (receipt : ComposedReceipt).
Hypothesis Hcomposed : composition inputs envelope report compiled ledger manifest execution verification context receipt.

Lemma composed_identities : inputs_fit inputs -> Forall size_plain (receipt_identities receipt).
Proof.
  destruct Hcomposed as [_ _ _ _ _ _ _ _ _ _ (residual & tcb & id & _ & _ & _ & ->)].
  intros (H1 & H2 & H3 & H4 & H5 & H6 & H7 & H8 & H9 & H10 & H11 & _)%foldr_Forall.
  unfold receipt_identities. cbn. unfold bundle_identities, bundle_names. cbn. repeat constructor; by apply identity_plain.
Qed.
Lemma composed_schema : ef_version_two execution = true -> cmp_schema receipt = COMPOSITION_SCHEMA_V2.
Proof.
  intros Hv. destruct Hcomposed as [_ _ _ _ _ _ _ _ _ _ (residual & tcb & id & _ & _ & _ & ->)]. cbn. by rewrite Hv.
Qed.
Lemma composed_parsed bytes :
  ef_version_two execution = true -> receipt_bytes receipt true = Ok bytes ->
  composed_from_value (ComposedReceipt_to_value receipt) = Some receipt ->
  json_typed (ComposedReceipt_to_value receipt) -> json_within_limits (ComposedReceipt_to_value receipt) = true ->
  inputs_fit inputs -> parse_composed_receipt bytes = Ok receipt.
Proof.
  intros Hv Hb Hr Hty Hl Hfit. eapply receipt_read_back; try done; [by apply composed_schema|by apply composed_identities].
Qed.
Lemma parsed_facts bytes :
  ef_version_two execution = true -> parse_composed_receipt bytes = Ok receipt ->
  decode_release_acceptance_facts bytes = Ok (acceptance_facts_of receipt).
Proof.
  intros Hv Hp. unfold decode_release_acceptance_facts. rewrite Hp. cbn [mbind result_bind].
  by rewrite (composed_schema Hv).
Qed.

(** C7: a version 2 composition within the decoder's limits is read back: its bytes
    are what [compose] returns, they decode to the very receipt that was composed,
    they verify against the same inputs, and the facts handed to an acceptance
    policy are those of that receipt. *)
Theorem composed_receipt_read_back bytes :
  ef_version_two execution = true -> receipt_bytes receipt true = Ok bytes ->
  composed_from_value (ComposedReceipt_to_value receipt) = Some receipt ->
  json_typed (ComposedReceipt_to_value receipt) -> json_within_limits (ComposedReceipt_to_value receipt) = true ->
  inputs_fit inputs ->
  compose inputs = Ok bytes /\ parse_composed_receipt bytes = Ok receipt
  /\ verify_composed_receipt bytes inputs = Ok ()
  /\ decode_release_acceptance_facts bytes = Ok (acceptance_facts_of receipt).
Proof.
  intros Hv Hb Hr Hty Hl Hfit. pose proof (composed_parsed bytes Hv Hb Hr Hty Hl Hfit) as Hp.
  assert (compose inputs = Ok bytes) as Hc.
  { apply compose_Ok. exists envelope, report, compiled, ledger, manifest, execution, verification, context, receipt.
    by rewrite Hv. }
  split; [done|]. split; [done|]. split; [by apply verify_composed_Ok; eauto|]. by apply parsed_facts.
Qed.
End of_composition.

(** ** Acceptance *)

Lemma accepted_not_violated policy einputs d :
  Accept.evaluate sha256 policy einputs = Ok d -> Accept.AcceptanceDecision_accepted d = true ->
  forall r, ~ AcceptDecision.violated policy einputs r.
Proof.
  rewrite AcceptDecision.evaluate_builds.
  intros (_ & _ & body & _ & Hw & _)%AcceptDecision.build_decision_Ok Ha r Hr.
  apply AcceptDecision.elem_evaluated_reasons in Hr. unfold Accept.AcceptanceDecision_accepted in Ha. rewrite Hw in Ha. cbn in Ha.
  case_bool_decide as Hn; [|done]. rewrite Hn in Hr. by apply elem_of_nil in Hr.
Qed.
Lemma accepted_claim policy reject actual directory verifier required :
  (forall r, ~ AcceptDecision.release_violated policy reject actual directory verifier r) ->
  required ∈ Accept.rlp_claims policy ->
  exists claim, claim ∈ raf_claims actual /\ acf_claim_id claim = Accept.cp_claim_id required
    /\ acf_formal claim = Accept.cp_formal required /\ acf_linkage claim = Accept.cp_linkage required
    /\ acf_assumption claim = Accept.cp_assumption required /\ acf_policy_admitted claim = Accept.cp_policy_admitted required.
Proof.
  intros Hno Hreq. pose proof (AcceptDecision.find_claim (raf_claims actual) (Accept.cp_claim_id required)) as Hf.
  destruct (List.find _ (raf_claims actual)) as [claim|].
  - destruct Hf as [Hn _]. assert (claim ∈ raf_claims actual /\ acf_claim_id claim = Accept.cp_claim_id required) as [Hin Hid].
    { destruct Hn as (b & a & -> & Hid & _). split; [|done]. apply elem_of_app. right. constructor. }
    exists claim. split; [done|]. split; [done|]. repeat split.
    + apply dec_stable. intros Hne. apply (Hno Accept.ClaimFormalMismatch). by exists required, claim.
    + apply dec_stable. intros Hne. apply (Hno Accept.ClaimLinkageMismatch). by exists required, claim.
    + apply dec_stable. intros Hne. apply (Hno Accept.ClaimAssumptionMismatch). by exists required, claim.
    + apply dec_stable. intros Hne. apply (Hno Accept.ClaimPolicyMismatch). by exists required, claim.
  - exfalso. apply (Hno Accept.ClaimMissing). by exists required.
Qed.

(** C4: an accepting decision about a composition is a statement about what was
    composed: the policy is the expected one, the release is of its project,
    revision and compiled payload, every claim it requires is a claim of the
    compiled release with exactly the required facets, and nothing it forbids is
    assumed by any claim or by the execution, or trusted by the execution. *)
Theorem accepted_composition inputs envelope report compiled ledger manifest execution verification context receipt
    bytes release policy einputs d :
  composition inputs envelope report compiled ledger manifest execution verification context receipt ->
  ef_version_two execution = true -> receipt_bytes receipt true = Ok bytes ->
  composed_from_value (ComposedReceipt_to_value receipt) = Some receipt ->
  json_typed (ComposedReceipt_to_value receipt) -> json_within_limits (ComposedReceipt_to_value receipt) = true ->
  inputs_fit inputs ->
  decode_release_acceptance_facts bytes = Ok release -> Accept.ei_release einputs = release ->
  Accept.evaluate sha256 policy einputs = Ok d -> Accept.AcceptanceDecision_accepted d = true ->
  let rules := Accept.ap_release (Accept.dp_policy policy) in
  let reject := Accept.ap_reject_if_present (Accept.dp_policy policy) in
  Accept.dp_identity_matches policy = true
  /\ cl_project compiled = Accept.rlp_project rules /\ cl_project_revision compiled = Accept.rlp_project_revision rules
  /\ domain_digest_text sha256 COMPILED_RELEASE_SCHEMA (ab_bytes (ci_compiled_release inputs)) = Accept.rlp_payload_sha256 rules
  /\ (forall required, required ∈ Accept.rlp_claims rules ->
        exists claim, claim ∈ cl_reported_statuses compiled /\ cs_claim_id claim = Accept.cp_claim_id required
          /\ cs_formal claim = Accept.cp_formal required /\ cs_linkage claim = Accept.cp_linkage required
          /\ cs_assumption claim = Accept.cp_assumption required
          /\ cs_policy_admitted claim = Accept.cp_policy_admitted required)
  /\ (forall assumption, assumption ∈ Accept.rj_assumptions reject ->
        assumption ∉ ef_assumptions execution
        /\ forall claim, claim ∈ cl_reported_statuses compiled -> assumption ∉ cs_assumptions claim)
  /\ (forall role, role ∈ Accept.rj_tcb_roles reject ->
        forall entry, entry ∈ ef_trusted_computing_base execution -> wt_role entry <> role).
Proof.
  intros Hc Hv Hb Hr Hty Hl Hfit Hd Hrel He Ha. cbv zeta.
  pose proof (composed_parsed _ _ _ _ _ _ _ _ _ _ Hc bytes Hv Hb Hr Hty Hl Hfit) as Hp.
  rewrite (parsed_facts _ _ _ _ _ _ _ _ _ _ Hc bytes Hv Hp) in Hd. injection Hd as <-.
  pose proof (accepted_not_violated _ _ _ He Ha) as Hno.
  assert (forall r, ~ AcceptDecision.release_violated (Accept.ap_release (Accept.dp_policy policy))
    (Accept.ap_reject_if_present (Accept.dp_policy policy)) (acceptance_facts_of receipt)
    (Accept.ei_proofbound_release_sha256 einputs) (Accept.ei_proofbound_verifier_sha256 einputs) r) as Hrv.
  { intros r Hvr. apply (Hno r). rewrite <- Hrel in Hvr. destruct r; cbn in Hvr |- *; tauto. }
  destruct Hc as [_ _ _ _ _ _ _ Hbound _ _ (residual & tcb & id & _ & Htcb & _ & Heq)].
  destruct Hbound as [_ _ _ _ _ [Hpay _] [Hproj Hrev] [Hclaims _]].
  split; [|split; [|split; [|split; [|split; [|split]]]]].
  - apply not_false_iff_true. apply (Hno Accept.PolicyIdentityMismatch).
  - apply dec_stable. intros Hne. apply (Hrv Accept.ReleaseProjectMismatch). rewrite Heq. cbn. congruence.
  - apply dec_stable. intros Hne. apply (Hrv Accept.ReleaseRevisionMismatch). rewrite Heq. cbn. congruence.
  - apply dec_stable. intros Hne. apply (Hrv Accept.ReleasePayloadMismatch). rewrite Heq. cbn. congruence.
  - intros required Hreq. destruct (accepted_claim _ _ _ _ _ _ Hrv Hreq) as (claim & Hin & Hfacets).
    rewrite Heq in Hin. cbn in Hin. apply list_elem_of_fmap in Hin as (c & -> & Hin). rewrite Hclaims in Hin.
    exists c. split; [done|]. exact Hfacets.
  - intros assumption Hass.
    assert (forall origin, ~ assumed_by (rr_claims report) (ef_assumptions execution) assumption origin) as Hnot.
    { intros origin Hor. apply (Hrv Accept.ForbiddenAssumption). exists assumption. split; [done|]. rewrite Heq. cbn.
      apply inherited_ids. by exists origin. }
    split.
    + intros Hin. apply (Hnot "execution"). right. done.
    + intros claim Hin Hca. apply (Hnot "release"). left. rewrite Hclaims. split; [done|]. by exists claim.
  - intros role Hrole entry Hin <-. apply (Hrv Accept.ForbiddenTcbRole). exists (wt_role entry). split; [done|].
    rewrite Heq. cbn. eapply inherited_role; [exact Htcb|done].
Qed.
End composed.
