(* ===== verification/CompositionExample.v ===== *)
(** A concrete version 2 composition around the golden execution receipt of the
    repository, and a decision about it: the hypotheses of the theorems of
    [Composition] and [CompositionWire] hold there. *)
From S2P Require Import Prelude Vectors Identity JsonCbor ReceiptViews Compose Composition CompositionWire.
From S2P Require WireV2 WireMaps VerifyCbor VerifyDecode VerifyReceipt Accept AcceptDecision.
From Stdlib Require Import Ascii ZArith Lia Sorted.
From stdpp Require Import prelude strings list numbers.
Export stdpp.list_relations.list.

Definition example_runtime : list byte := bytes_of "runtime-x".
Definition example_launcher : list byte := bytes_of "launcher-bytes".
(** A hash under which the two programs have the digests of the golden receipt. *)
Definition example_sha256 (bytes : list byte) : list byte :=
  if bool_decide (bytes = example_runtime) then
    bytes_of_hex "3022d33ed00ece081b990d06bb14aadf610488530808546c8d9c0f7641e4d06e"
  else if bool_decide (bytes = example_launcher) then
    bytes_of_hex "bdda2976529c5f62debdab8891c2371309082181be4fdf7aa416626f184b2f76"
  else VerifyReceipt.example_sha256 bytes.
Definition example_artifact (name : string) (bytes : list byte) : ArtifactBytes := mkArtifactBytes name bytes.
Definition example_digest : string := Eval vm_compute in digest_text example_sha256 [].
Definition example_commitment : string := Eval vm_compute in digest_text example_sha256 execution_receipt.
Definition example_inputs : CompositionInputs := {|
  ci_release_envelope := example_artifact "envelope.json" (bytes_of "envelope");
  ci_compiled_release := example_artifact "compiled-receipt.json" (bytes_of "compiled");
  ci_release_verification := example_artifact "report.json" (bytes_of "report");
  ci_release_verifier := example_artifact "verifier" (bytes_of "verifier");
  ci_release_observation_inputs := example_artifact "proofbound-observation-inputs.json" (bytes_of "observations");
  ci_release_tcb_ledger := example_artifact "ledger.json" (bytes_of "ledger");
  ci_runtime_manifest := example_artifact "manifest.json" (bytes_of "manifest");
  ci_runtime := example_artifact "pbr" example_runtime;
  ci_launcher := example_artifact "pbr-native-launcher" example_launcher;
  ci_execution_verifier := example_artifact "pbr-verify" (bytes_of "pbr-verify");
  ci_composer := example_artifact "pbr-compose" (bytes_of "pbr-compose");
  ci_execution_receipt := example_artifact "receipt.cbor" execution_receipt;
  ci_execution_verification := example_artifact "verification.json" (bytes_of "verification");
  ci_expected_execution_commitment := example_commitment;
  ci_expected_execution_id := "00112233-4455-4677-8899-aabbccddeeff"
|}.
Definition example_payload : string := Eval vm_compute in domain_digest_text example_sha256 COMPILED_RELEASE_SCHEMA (bytes_of "compiled").
Definition example_revision : string := "0000000000000000000000000000000000000000".
Definition example_claim : ClaimStatus :=
  mkClaimStatus [mkArtifactObservation (mkObservedArtifact "pbr" example_digest 9) [example_digest] example_digest example_digest
      (mkObservedPlatform "x86_64" "linux") (mkObservedArtifact "procedure" example_digest 1) "kind" "role"
      (mkToolchainClosure "closure" example_digest)]
    "ASSUMED" ["release-assumption"] "claim-1" "PROVED" "REFINED" true "statement" [].
Definition example_rows : list ClaimResidualReport :=
  [mkClaimResidualReport "claim-1" [mkReportOpenObligation "o-1" "statement" "remediation"] [] ["release-assumption"] []].
Definition example_report : ReleaseReport :=
  mkReleaseReport [example_claim] (Some "context") example_rows example_payload "project" example_revision false
    RELEASE_REPORT_SCHEMA "boundary" "bytes-observed".
Definition example_compiled : CompiledRelease :=
  mkCompiledRelease Json_Null Json_Null Json_Null Json_Null (Some "context") Json_Null "graph" Json_Null Json_Null "project"
    example_revision 1 [example_claim] COMPILED_RELEASE_SCHEMA Json_Null "clean".
Definition example_envelope : ReleaseEnvelope := mkReleaseEnvelope "compiled-receipt.json" example_payload RELEASE_ENVELOPE_SCHEMA.
Definition example_ledger : TcbLedger :=
  mkTcbLedger [mkReleaseTcbComponent example_digest "coq" "9.0"] "proofbound-tcb-ledger/1".
Definition example_manifest : RuntimeManifest := Eval vm_compute in
  mkRuntimeManifest "x86_64"
    (map (fun expected : string * ArtifactBytes => mkManifestArtifact expected.1 (digest_hex example_sha256 (ab_bytes expected.2))
       (Z.of_nat (length (ab_bytes expected.2)))) (bundle_names example_inputs))
    RELEASE_MANIFEST_SCHEMA "x86_64-unknown-linux-gnu" "toolchain" "1.0.0".
Definition example_verification : ExecutionVerification := Eval vm_compute in
  mkExecutionVerification (mkWireEligibility [] "reusable") (digest_text example_sha256 execution_receipt) true.
Definition example_serde (read : Json -> option ComposedReceipt) : ComposeSerde := {|
  parse_release_envelope := fun _ => Some example_envelope;
  parse_release_report := fun _ => Some example_report;
  parse_compiled_release := fun _ => Some example_compiled;
  parse_tcb_ledger := fun _ => Some example_ledger;
  parse_runtime_manifest := fun _ => Some example_manifest;
  parse_execution_receipt := fun _ => None;
  parse_execution_verification := fun _ => Some example_verification;
  parse_composed := fun _ => None;
  parse_value := fun _ => None;
  composed_from_value := read;
  to_vec := fun _ => None;
  record_to_string := fun record => Some (foldr (fun kv s => String.append kv.1 (String.append kv.2 s)) "" record)
|}.
Definition example_json : VerifyDecode.SerdeJson := VerifyReceipt.example_serde None None.
Definition no_facts : ExecutionFacts :=
  mkExecutionFacts [] (mkWireEligibility [] "") "" (mkWireArtifact 0 "" "" "") ""
    (mkWireRuntime (mkWireArtifact 0 "" "" "") (mkWireArtifact 0 "" "" "")) "" [] false.
(** The computed parts are stored as values, so that later checks do not decode the
    receipt again. *)
Definition example_execution : ExecutionFacts := Eval vm_compute in
  default no_facts (result_ok
    (@parse_execution_facts example_sha256 (example_serde (fun _ => None)) example_json (fun _ => None) example_inputs)).
Definition no_residual : ResidualObligations := mkResidualObligations [] [] [] [].
Definition example_residual : ResidualObligations := Eval vm_compute in
  default no_residual (result_ok (@residual_obligations (example_serde (fun _ => None)) [example_claim] example_rows)).
Definition example_tcb : list ComposedTcbEntry := Eval vm_compute in
  default [] (result_ok (inherited_tcb example_ledger (ef_trusted_computing_base example_execution))).
Definition example_base : ComposedReceipt := Eval vm_compute in
  composed_receipt example_sha256 example_inputs example_envelope example_report example_manifest example_execution "context"
    (bundle_identities example_sha256 example_inputs) example_residual example_tcb.
Definition example_composition_id : string := Eval vm_compute in default "" (result_ok (composition_identity_v2 example_sha256 example_base)).
Definition example_receipt : ComposedReceipt := Eval vm_compute in with_composition_id example_base example_composition_id.
(** The deserializer of the example knows one receipt. *)
Definition example_read (_ : Json) : option ComposedReceipt := Some example_receipt.
Definition example_bytes : list byte := Eval vm_compute in default [] (result_ok (canonical_v2_bytes example_receipt)).

Lemma example_executes :
  @parse_execution_facts example_sha256 (example_serde example_read) example_json (fun _ => None) example_inputs
    = Ok example_execution
  /\ ef_version_two example_execution = true.
Proof. vm_compute. split; reflexivity. Qed.
Lemma example_release_bound :
  release_bound example_sha256 example_inputs example_envelope example_report example_compiled "context".
Proof.
  constructor; try (vm_compute; repeat split; (reflexivity || discriminate)).
  split; [reflexivity|]. split; [|discriminate]. cbn. repeat constructor. apply not_elem_of_nil.
Qed.
Lemma example_bundle_bound : bundle_bound example_sha256 example_inputs example_manifest.
Proof.
  constructor.
  - repeat split; discriminate.
  - split; cbn; set_solver.
  - repeat constructor.
Qed.
Lemma example_execution_bound : execution_bound example_sha256 example_inputs example_execution example_verification.
Proof.
  constructor.
  - vm_compute. reflexivity.
  - vm_compute. discriminate.
  - vm_compute. split; reflexivity.
  - left. vm_compute. split; reflexivity.
  - vm_compute. split; reflexivity.
  - vm_compute. reflexivity.
  - vm_compute. repeat split; discriminate.
  - vm_compute. repeat split; discriminate.
  - vm_compute. repeat split; discriminate.
  - split; apply trusts_true; vm_compute; reflexivity.
Qed.
Definition example_composition : Prop :=
  @composition example_sha256 (example_serde example_read) example_json (fun _ => None) example_inputs example_envelope
    example_report example_compiled example_ledger example_manifest example_execution example_verification "context"
    example_receipt.
Lemma example_composed : example_composition.
Proof.
  apply Build_composition; [reflexivity..|exact (proj1 example_executes)|reflexivity|exact example_release_bound
    |exact example_bundle_bound|exact example_execution_bound|].
  exists example_residual, example_tcb, example_composition_id.
  split; [vm_compute; reflexivity|]. split; [vm_compute; reflexivity|]. split; [vm_compute; reflexivity|reflexivity].
Qed.
Lemma example_receipt_bytes : @receipt_bytes (example_serde example_read) example_receipt true = Ok example_bytes.
Proof. vm_compute. reflexivity. Qed.
Lemma example_typed : json_typed (ComposedReceipt_to_value example_receipt).
Proof. apply json_typed_bool_spec. vm_compute. reflexivity. Qed.
Lemma example_limits : json_within_limits (ComposedReceipt_to_value example_receipt) = true.
Proof. vm_compute. reflexivity. Qed.
Lemma example_fits : inputs_fit example_inputs.
Proof. unfold inputs_fit. apply (bool_decide_eq_true_1 _). vm_compute. reflexivity. Qed.

(** * Witnesses *)

Lemma residual_obligations_exact_witness :
  NoDup (map cr_claim_id example_rows) /\ sets_ok example_residual.
Proof.
  destruct (@residual_obligations_exact (example_serde example_read) [example_claim] example_rows example_residual) as
    (_ & Hn & _ & Hs & _); [vm_compute; reflexivity|]. split; [exact Hn|exact Hs].
Defined.
Lemma composed_execution_verified_witness :
  Forall (fun assumption => assumption ∈ map ie_id (cmp_assumptions example_receipt)) VerifyReceipt.REQUIRED_ASSUMPTIONS.
Proof.
  destruct (@composed_execution_verified example_sha256 (example_serde example_read) example_json (fun _ => None) _ _ _ _ _ _ _ _ _ _
    example_composed (proj2 example_executes)) as (commitment & verified & decoded & _ & _ & _ & _ & _ & H).
  exact (proj2 (Forall_forall _ _) H).
Defined.
Lemma composed_receipt_read_back_witness :
  @parse_composed_receipt (example_serde example_read) example_bytes = Ok example_receipt.
Proof.
  exact (proj1 (proj2 (@composed_receipt_read_back example_sha256 (example_serde example_read) example_json (fun _ => None)
    _ _ _ _ _ _ _ _ _ _ example_composed example_bytes (proj2 example_executes) example_receipt_bytes eq_refl example_typed
    example_limits example_fits))).
Defined.

(** A policy that requires the claim and forbids another assumption, and one that
    forbids an assumption of the release. *)
Definition example_policy (forbidden : list string) : Accept.AcceptancePolicy :=
  Accept.mkAcceptancePolicy Accept.POLICY_SCHEMA
    (Accept.mkReleasePolicy [Accept.mkClaimPolicy "PROVED" "REFINED" "claim-1" "ASSUMED" true] example_digest "project"
       example_payload "context" example_revision example_digest)
    (Accept.ap_execution AcceptDecision.example_policy)
    (Accept.mkRejectPolicy ["another-role"] [] forbidden []).
Definition example_decoded (forbidden : list string) : Accept.DecodedPolicy :=
  Accept.mkDecodedPolicy (example_policy forbidden) example_digest true.
Definition example_release : ReleaseAcceptanceFacts := Eval vm_compute in acceptance_facts_of example_receipt.
Definition example_execution_facts : ReceiptAcceptanceFacts :=
  mkReceiptAcceptanceFacts "proofbound-runtime-execution-receipt/2" "1.0.0" (ci_expected_execution_id example_inputs) "plan" "linux"
    "x86_64" (mkCompositionArtifact 493 "executable" AcceptDecision.example_digest "1024") AcceptDecision.example_digest
    "proofbound-runtime-linux-policy/2" 8 65536 1 0 true [] [].
Definition example_evaluation : Accept.EvaluationInputs :=
  Accept.mkEvaluationInputs example_execution_facts example_release (ci_expected_execution_commitment example_inputs)
    (ci_expected_execution_id example_inputs) example_composition_id example_digest example_digest
    (map (fun role => Accept.mkDecisionInput role 1 example_digest) Accept.INPUT_ROLES).
Definition example_decision (forbidden : list string) : Accept.AcceptanceDecision :=
  AcceptDecision.decision_or_default (Accept.evaluate example_sha256 (example_decoded forbidden) example_evaluation).
Lemma example_decides :
  Accept.evaluate example_sha256 (example_decoded ["forbidden"]) example_evaluation = Ok (example_decision ["forbidden"])
  /\ Accept.AcceptanceDecision_accepted (example_decision ["forbidden"]) = true
  /\ Accept.AcceptanceDecision_accepted (example_decision ["release-assumption"]) = false.
Proof. vm_compute. repeat split; reflexivity. Qed.
Lemma example_facts :
  @decode_release_acceptance_facts (example_serde example_read) example_bytes = Ok example_release.
Proof. vm_compute. reflexivity. Qed.
Lemma accepted_composition_witness :
  decode_release_acceptance_facts (serde := example_serde example_read) example_bytes = Ok example_release
  /\ "forbidden" ∉ ef_assumptions example_execution.
Proof.
  split; [exact example_facts|].
  destruct (@accepted_composition example_sha256 (example_serde example_read) example_json (fun _ => None)
    _ _ _ _ _ _ _ _ _ _ example_bytes example_release (example_decoded ["forbidden"]) example_evaluation
    (example_decision ["forbidden"]) example_composed (proj2 example_executes) example_receipt_bytes eq_refl example_typed
    example_limits example_fits example_facts eq_refl (proj1 example_decides) (proj1 (proj2 example_decides)))
    as (_ & _ & _ & _ & _ & Hass & _).
  exact (proj1 (Hass "forbidden" (list_elem_of_here _ _))).
Defined.
