(* ===== verification/Diagnostic.v ===== *)
(** The diagnostic receipt: [proofbound-runtime-diagnose/src/artifact.rs] and the
    bounded writer of [canonical.rs].  [serde_json]'s serializer is a parameter
    (class [SerdeWriter]: the buffers it writes for a value), as is SHA-256.  The
    theorems are in [DiagnosticReceipts]. *)
From S2P Require Import Prelude Identity JsonCbor.
From S2P Require RunResult Receipt.
From Stdlib Require Import Ascii ZArith Lia Sorted.
From stdpp Require Import prelude strings list numbers gmap.
Export stdpp.list_relations.list.

Definition str_size (s : string) : Z := Z.of_nat (length (String.list_ascii_of_string s)).

#[global] Instance Architecture_eq_dec : EqDecision Receipt.Architecture.
Proof. solve_decision. Defined.

(** * [canonical.rs] *)

Inductive CanonicalWriteError := BoundExceeded | EncodingFailed.
#[global] Instance CanonicalWriteError_eq_dec : EqDecision CanonicalWriteError.
Proof. solve_decision. Defined.

Record BoundedCanonicalJson := mkBoundedCanonicalJson {
  bj_bytes : list byte;
  bj_limit : Z;
  bj_bound_exceeded : bool
}.
Definition BoundedCanonicalJson_new (limit : Z) : result CanonicalWriteError BoundedCanonicalJson :=
  limit ← ok_or (try_from u64_bound limit) BoundExceeded;
  Ok (mkBoundedCanonicalJson [] limit false).
Definition exceeded (self : BoundedCanonicalJson) : BoundedCanonicalJson :=
  mkBoundedCanonicalJson (bj_bytes self) (bj_limit self) true.
(** [Write::write]: the writer after the call, and whether it succeeded. *)
Definition write (self : BoundedCanonicalJson) (bytes : list byte) : BoundedCanonicalJson * bool :=
  match u64_checked_add (Z.of_nat (length (bj_bytes self))) (Z.of_nat (length bytes)) with
  | None => (exceeded self, false)
  | Some next_length =>
    if (bj_limit self <? next_length)%Z then (exceeded self, false)
    else (mkBoundedCanonicalJson (bj_bytes self ++ bytes) (bj_limit self) (bj_bound_exceeded self), true)
  end.
(** [Write::write_all]: an empty buffer makes no call; a call that succeeds takes
    the whole buffer. *)
Definition write_all (self : BoundedCanonicalJson) (bytes : list byte) : BoundedCanonicalJson * bool :=
  match bytes with [] => (self, true) | _ => write self bytes end.
Definition writer_error (self : BoundedCanonicalJson) : CanonicalWriteError :=
  if bj_bound_exceeded self then BoundExceeded else EncodingFailed.
Definition raw (self : BoundedCanonicalJson) (bytes : list byte) : result CanonicalWriteError BoundedCanonicalJson :=
  match write_all self bytes with
  | (self, true) => Ok self
  | (self, false) => Err (writer_error self)
  end.
(** [serde_json::to_writer]: the buffers it passes to [write_all] for a value, in
    order, up to the first that fails, and whether the serializer succeeds when
    all of them are written. *)
Class SerdeWriter := {
  json_writes : Json -> list (list byte);
  json_complete : Json -> bool
}.
Definition json_text `{SerdeWriter} (v : Json) : list byte := concat (json_writes v).

Fixpoint write_each (self : BoundedCanonicalJson) (buffers : list (list byte)) : BoundedCanonicalJson * bool :=
  match buffers with
  | [] => (self, true)
  | bytes :: buffers =>
    match write_all self bytes with
    | (self, true) => write_each self buffers
    | (self, false) => (self, false)
    end
  end.

Section writer.
Context `{SerdeWriter}.

Definition value (self : BoundedCanonicalJson) (v : Json) : result CanonicalWriteError BoundedCanonicalJson :=
  match write_each self (json_writes v) with
  | (self, true) => if json_complete v then Ok self else Err (writer_error self)
  | (self, false) => Err (writer_error self)
  end.
Fixpoint sequence_items (self : BoundedCanonicalJson) (first : bool) (values : list Json) :
    result CanonicalWriteError BoundedCanonicalJson :=
  match values with
  | [] => raw self (literal "]")
  | v :: values =>
    self ← (if first then Ok self else raw self (literal ","));
    self ← value self v;
    sequence_items self false values
  end.
Definition sequence (self : BoundedCanonicalJson) (values : list Json) :
    result CanonicalWriteError BoundedCanonicalJson :=
  self ← raw self (literal "[");
  sequence_items self true values.
Definition finish (self : BoundedCanonicalJson) : list byte := bj_bytes self.

(** A step of the straight-line code that fills the writer. *)
Inductive piece :=
| Raw (text : string)
| Value (v : Json)
| Sequence (vs : list Json).
Fixpoint write_pieces (self : BoundedCanonicalJson) (pieces : list piece) :
    result CanonicalWriteError BoundedCanonicalJson :=
  match pieces with
  | [] => Ok self
  | piece :: pieces =>
    self ← match piece with
           | Raw text => raw self (literal text)
           | Value v => value self v
           | Sequence vs => sequence self vs
           end;
    write_pieces self pieces
  end.
Definition write_document (limit : Z) (pieces : list piece) : result CanonicalWriteError (list byte) :=
  output ← BoundedCanonicalJson_new limit;
  output ← write_pieces output pieces;
  Ok (finish output).
End writer.

(** * Values *)

Definition json_object (fields : list (string * Json)) : Json := Json_Object (object_of fields).
Definition json_strings (values : list string) : Json := Json_Array (map Json_String values).
Definition json_option {A} (f : A -> Json) (o : option A) : Json :=
  match o with Some a => f a | None => Json_Null end.
Definition json_i64 (z : Z) : Json := if (0 <=? z)%Z then Json_U64 z else Json_I64 z.
Fixpoint octal_digits (fuel : nat) (z : Z) (acc : list byte) : list byte :=
  match fuel with
  | O => acc
  | S fuel =>
    if (z <? 8)%Z then digit_byte z :: acc
    else octal_digits fuel (z / 8) (digit_byte (z mod 8) :: acc)
  end.
(** [format!("{:0width$o}", z)] of a [u16] or [u32], which has at most eleven digits. *)
Definition octal (width : nat) (z : Z) : string :=
  let digits := octal_digits 11 z [] in
  String.string_of_list_ascii (replicate (width - length digits) "0"%char ++ digits).
Definition digest_text (d : Sha256Digest) : string := String.append "sha256:" (Sha256Digest_to_hex d).

(** * Errors *)

Inductive DiagnosticArtifactError :=
| ArtifactEmpty | ArtifactRoleInvalid | PlatformInvalid | BoundInvalid | ArgumentInvalid | EnvironmentNameInvalid
| EventInvalid | EventOrderInvalid | EventBoundExceeded | ProcessBoundExceeded | PathBoundExceeded
| SymlinkBoundExceeded | TraceeStringBoundExceeded | SocketAddressInvalid | SocketAddressBoundExceeded
| OutcomeInvalid | ResolutionInvalid | CompletionInvalid | TrustedRoleInvalid | AssumptionInvalid
| OutputBoundExceeded | CanonicalEncodingFailed.
#[global] Instance DiagnosticArtifactError_eq_dec : EqDecision DiagnosticArtifactError.
Proof. solve_decision. Defined.
Definition DiagnosticArtifactError_code (e : DiagnosticArtifactError) : string :=
  match e with
  | ArtifactEmpty => "diagnostic.artifact.empty"
  | ArtifactRoleInvalid => "diagnostic.artifact.role-invalid"
  | PlatformInvalid => "diagnostic.platform.invalid"
  | BoundInvalid => "diagnostic.bound.invalid"
  | ArgumentInvalid => "diagnostic.argument.invalid"
  | EnvironmentNameInvalid => "diagnostic.environment-name.invalid"
  | EventInvalid => "diagnostic.event.invalid"
  | EventOrderInvalid => "diagnostic.event.order-invalid"
  | EventBoundExceeded => "diagnostic.event.bound-exceeded"
  | ProcessBoundExceeded => "diagnostic.process.bound-exceeded"
  | PathBoundExceeded => "diagnostic.path.bound-exceeded"
  | SymlinkBoundExceeded => "diagnostic.symlink.bound-exceeded"
  | TraceeStringBoundExceeded => "diagnostic.tracee-string.bound-exceeded"
  | SocketAddressInvalid => "diagnostic.socket-address.invalid"
  | SocketAddressBoundExceeded => "diagnostic.socket-address.bound-exceeded"
  | OutcomeInvalid => "diagnostic.outcome.invalid"
  | ResolutionInvalid => "diagnostic.resolution.invalid"
  | CompletionInvalid => "diagnostic.completion.invalid"
  | TrustedRoleInvalid => "diagnostic.trusted-role.invalid"
  | AssumptionInvalid => "diagnostic.assumption.invalid"
  | OutputBoundExceeded => "diagnostic.output.bound-exceeded"
  | CanonicalEncodingFailed => "diagnostic.canonical-json.failed"
  end.
Definition map_write_error (error : CanonicalWriteError) : DiagnosticArtifactError :=
  match error with BoundExceeded => OutputBoundExceeded | EncodingFailed => CanonicalEncodingFailed end.

(** * Artifacts and the platform *)

Inductive DiagnosticArtifactRole := ExecutionPlan | RuntimeExecutable | RuntimeBinary | LauncherBinary | DiagnosticObserver.
#[global] Instance DiagnosticArtifactRole_eq_dec : EqDecision DiagnosticArtifactRole.
Proof. solve_decision. Defined.
Definition DiagnosticArtifactRole_as_str (role : DiagnosticArtifactRole) : string :=
  match role with
  | ExecutionPlan => "execution-plan"
  | RuntimeExecutable => "runtime-executable"
  | RuntimeBinary => "runtime-binary"
  | LauncherBinary => "launcher-binary"
  | DiagnosticObserver => "diagnostic-observer"
  end.
Record DiagnosticArtifactIdentity := mkDiagnosticArtifactIdentity {
  da_role : DiagnosticArtifactRole;
  da_digest : Sha256Digest;
  da_size_bytes : Z;
  da_mode : FileMode
}.
Definition DiagnosticArtifactIdentity_new (role : DiagnosticArtifactRole) (digest : Sha256Digest) (size_bytes : Z)
    (mode : FileMode) : result DiagnosticArtifactError DiagnosticArtifactIdentity :=
  if (size_bytes =? 0)%Z then Err ArtifactEmpty
  else Ok (mkDiagnosticArtifactIdentity role digest size_bytes mode).
Definition DiagnosticArtifactIdentity_to_value (a : DiagnosticArtifactIdentity) : Json :=
  json_object
    [("mode", Json_String (octal 4 (FileMode_get (da_mode a))));
     ("role", Json_String (DiagnosticArtifactRole_as_str (da_role a)));
     ("sha256", Json_String (digest_text (da_digest a)));
     ("size_bytes", Json_U64 (da_size_bytes a))].

Record DiagnosticPlatform := mkDiagnosticPlatform {
  dp_architecture : Receipt.Architecture;
  dp_kernel_release : string;
  dp_landlock_abi : Z
}.
Definition DiagnosticPlatform_new (architecture : Receipt.Architecture) (kernel_release : string) (landlock_abi : Z) :
    result DiagnosticArtifactError DiagnosticPlatform :=
  if is_empty_string kernel_release || (256 <? str_size kernel_release)%Z
     || negb ((3 <=? landlock_abi)%Z && (landlock_abi <=? 11)%Z)
  then Err PlatformInvalid
  else Ok (mkDiagnosticPlatform architecture kernel_release landlock_abi).
Definition DiagnosticPlatform_to_value (p : DiagnosticPlatform) : Json :=
  json_object
    [("architecture", Json_String (Receipt.Architecture_as_str (dp_architecture p)));
     ("kernel_release", Json_String (dp_kernel_release p));
     ("landlock_abi", Json_U64 (dp_landlock_abi p));
     ("operating_system", Json_String "linux")].

(** * Bounds and gaps *)

Record ObservationBounds := mkObservationBounds {
  event_count : Z;
  event_count_per_process : Z;
  output_bytes : Z;
  path_bytes : Z;
  process_count : Z;
  socket_address_bytes : Z;
  symlink_hops : Z;
  tracee_string_bytes : Z
}.
(** [(lo..=hi).contains(&z)] *)
Definition range_contains (lo hi z : Z) : bool := (lo <=? z)%Z && (z <=? hi)%Z.
Definition ObservationBounds_validate (b : ObservationBounds) : result DiagnosticArtifactError ObservationBounds :=
  if negb (range_contains 1 1048576 (event_count b))
     || negb (range_contains 1 1048576 (event_count_per_process b))
     || negb (range_contains 1024 67108864 (output_bytes b))
     || negb (range_contains 1 1048576 (path_bytes b))
     || negb (range_contains 1 4096 (process_count b))
     || negb (range_contains 1 4096 (socket_address_bytes b))
     || negb (range_contains 1 40 (symlink_hops b))
     || negb (range_contains 1 1048576 (tracee_string_bytes b))
  then Err BoundInvalid else Ok b.
Definition ObservationBounds_to_value (b : ObservationBounds) : Json :=
  json_object
    [("event_count", Json_U64 (event_count b));
     ("event_count_per_process", Json_U64 (event_count_per_process b));
     ("output_bytes", Json_U64 (output_bytes b));
     ("path_bytes", Json_U64 (path_bytes b));
     ("process_count", Json_U64 (process_count b));
     ("socket_address_bytes", Json_U64 (socket_address_bytes b));
     ("symlink_hops", Json_U64 (symlink_hops b));
     ("tracee_string_bytes", Json_U64 (tracee_string_bytes b))].

Inductive DiagnosticGap :=
| ArchitectureUnsupported | ChildLost | EventLimit | EventPerProcessLimit | IdentityDrift | ObserverFailed
| OutputLimit | PathLimit | ProcessLimit | SocketAddressLimit | StringLimit | SymlinkLimit | SyscallUnsupported
| TraceeMemoryReadFailed | UnexpectedStop.
#[global] Instance DiagnosticGap_eq_dec : EqDecision DiagnosticGap.
Proof. solve_decision. Defined.
Definition DiagnosticGap_as_str (gap : DiagnosticGap) : string :=
  match gap with
  | ArchitectureUnsupported => "architecture-unsupported"
  | ChildLost => "child-lost"
  | EventLimit => "event-limit"
  | EventPerProcessLimit => "event-per-process-limit"
  | IdentityDrift => "identity-drift"
  | ObserverFailed => "observer-failed"
  | OutputLimit => "output-limit"
  | PathLimit => "path-limit"
  | ProcessLimit => "process-limit"
  | SocketAddressLimit => "socket-address-limit"
  | StringLimit => "string-limit"
  | SymlinkLimit => "symlink-limit"
  | SyscallUnsupported => "syscall-unsupported"
  | TraceeMemoryReadFailed => "tracee-memory-read-failed"
  | UnexpectedStop => "unexpected-stop"
  end.
Definition DiagnosticGap_discriminant (gap : DiagnosticGap) : Z :=
  match gap with
  | ArchitectureUnsupported => 0 | ChildLost => 1 | EventLimit => 2 | EventPerProcessLimit => 3 | IdentityDrift => 4
  | ObserverFailed => 5 | OutputLimit => 6 | PathLimit => 7 | ProcessLimit => 8 | SocketAddressLimit => 9
  | StringLimit => 10 | SymlinkLimit => 11 | SyscallUnsupported => 12 | TraceeMemoryReadFailed => 13
  | UnexpectedStop => 14
  end.
#[global] Instance DiagnosticGap_ord : RustOrd DiagnosticGap := ord_via DiagnosticGap_discriminant.
#[global] Instance DiagnosticGap_lawful : LawfulOrd DiagnosticGap.
Proof.
  assert (Inj (=) (=) DiagnosticGap_discriminant) by (intros [] []; done).
  apply (ord_via_lawful DiagnosticGap_discriminant).
Qed.

(** * Events *)

Inductive OperandKind := Kind_Path | Kind_ProcessCreate | Kind_SocketAddress | Kind_SocketCreate.
#[global] Instance OperandKind_eq_dec : EqDecision OperandKind.
Proof. solve_decision. Defined.

Inductive DiagnosticEventClass :=
| Bind | Clone | Connect | Creat | Execve | Execveat | Fork | Newfstatat | Open | Openat | Openat2 | Readlink
| Readlinkat | Sendto | Socket | Statx | Vfork.
#[global] Instance DiagnosticEventClass_eq_dec : EqDecision DiagnosticEventClass.
Proof. solve_decision. Defined.
Definition DiagnosticEventClass_as_str (class : DiagnosticEventClass) : string :=
  match class with
  | Bind => "bind" | Clone => "clone" | Connect => "connect" | Creat => "creat" | Execve => "execve"
  | Execveat => "execveat" | Fork => "fork" | Newfstatat => "newfstatat" | Open => "open" | Openat => "openat"
  | Openat2 => "openat2" | Readlink => "readlink" | Readlinkat => "readlinkat" | Sendto => "sendto"
  | Socket => "socket" | Statx => "statx" | Vfork => "vfork"
  end.
Definition operand_kind (class : DiagnosticEventClass) : OperandKind :=
  match class with
  | Bind | Connect | Sendto => Kind_SocketAddress
  | Socket => Kind_SocketCreate
  | Clone | Fork | Vfork => Kind_ProcessCreate
  | Creat | Execve | Execveat | Newfstatat | Open | Openat | Openat2 | Readlink | Readlinkat | Statx => Kind_Path
  end.
Definition is_network (class : DiagnosticEventClass) : bool :=
  match class with Bind | Connect | Sendto | Socket => true | _ => false end.
Definition is_execute (class : DiagnosticEventClass) : bool :=
  match class with Execve | Execveat => true | _ => false end.
Definition is_read_candidate (class : DiagnosticEventClass) : bool :=
  match class with
  | Newfstatat | Open | Openat | Openat2 | Readlink | Readlinkat | Statx => true
  | _ => false
  end.

Record ObservedObjectIdentity := mkObservedObjectIdentity {
  oo_device_major : Z;
  oo_device_minor : Z;
  oo_inode : Z;
  oo_mode : Z;
  oo_mount_id : Z
}.
#[global] Instance ObservedObjectIdentity_eq_dec : EqDecision ObservedObjectIdentity.
Proof. solve_decision. Defined.
(** [0o777_777] is 262143. *)
Definition ObservedObjectIdentity_new (device_major device_minor inode mode mount_id : Z) :
    result DiagnosticArtifactError ObservedObjectIdentity :=
  if (262143 <? mode)%Z then Err EventInvalid
  else Ok (mkObservedObjectIdentity device_major device_minor inode mode mount_id).
Definition ObservedObjectIdentity_to_value (o : ObservedObjectIdentity) : Json :=
  json_object
    [("device_major", Json_U64 (oo_device_major o));
     ("device_minor", Json_U64 (oo_device_minor o));
     ("inode", Json_U64 (oo_inode o));
     ("mode", Json_String (octal 6 (oo_mode o)));
     ("mount_id", Json_U64 (oo_mount_id o))].

Inductive SocketAddressFamily := Inet | Inet6 | Netlink | Other | Unix.
#[global] Instance SocketAddressFamily_eq_dec : EqDecision SocketAddressFamily.
Proof. solve_decision. Defined.
Definition SocketAddressFamily_as_str (family : SocketAddressFamily) : string :=
  match family with
  | Inet => "inet" | Inet6 => "inet6" | Netlink => "netlink" | Other => "other" | Unix => "unix"
  end.
Record ObservedSocketAddress := mkObservedSocketAddress {
  os_family : SocketAddressFamily;
  os_bytes : list byte
}.
#[global] Instance ObservedSocketAddress_eq_dec : EqDecision ObservedSocketAddress.
Proof. solve_decision. Defined.
Definition ObservedSocketAddress_new (family : SocketAddressFamily) (bytes : list byte) :
    result DiagnosticArtifactError ObservedSocketAddress :=
  if (4096 <? Z.of_nat (length bytes))%Z then Err SocketAddressInvalid
  else Ok (mkObservedSocketAddress family bytes).
Definition encode_hex (bytes : list byte) : string := String.string_of_list_ascii (hex_bytes bytes).
Definition ObservedSocketAddress_to_value (a : ObservedSocketAddress) : Json :=
  json_object
    [("bytes_hex", Json_String (encode_hex (os_bytes a)));
     ("family", Json_String (SocketAddressFamily_as_str (os_family a)));
     ("length_bytes", Json_U64 (Z.of_nat (length (os_bytes a))))].

Record PathOperands := mkPathOperands {
  po_buffer_bytes : option Z;
  po_directory_fd : option Z;
  po_flags : option Z;
  po_mask : option Z;
  po_mode : option Z;
  po_path : option string;
  po_resolve : option Z;
  po_symlink_hops : option Z
}.
Inductive ObservationOperands :=
| Path (operands : PathOperands)
| ProcessCreate (flags : option Z)
| SocketAddress (address : option ObservedSocketAddress) (descriptor : Z) (payload_bytes : option Z)
| SocketCreate (domain protocol socket_type : Z).
Definition ObservationOperands_kind (operands : ObservationOperands) : OperandKind :=
  match operands with
  | Path _ => Kind_Path
  | ProcessCreate _ => Kind_ProcessCreate
  | SocketAddress _ _ _ => Kind_SocketAddress
  | SocketCreate _ _ _ => Kind_SocketCreate
  end.
Definition ObservationOperands_path (operands : ObservationOperands) : option string :=
  match operands with Path p => po_path p | _ => None end.
Definition path_flags (operands : ObservationOperands) : option Z :=
  match operands with Path p => po_flags p | _ => None end.
Definition retains_redacted_target (operands : ObservationOperands) : bool :=
  match operands with
  | Path p => bool_decide (is_Some (po_path p))
  | SocketAddress address _ _ => bool_decide (is_Some address)
  | _ => false
  end.
Definition has_complete_path_observation (operands : ObservationOperands) : bool :=
  match operands with
  | Path p => bool_decide (is_Some (po_path p)) && bool_decide (is_Some (po_symlink_hops p))
  | _ => false
  end.
Definition has_path_observation (operands : ObservationOperands) : bool :=
  match operands with Path p => bool_decide (is_Some (po_path p)) | _ => false end.
(** [option.is_some_and(p)] *)
Definition is_some_and {A} (p : A -> bool) (o : option A) : bool :=
  match o with Some a => p a | None => false end.
Definition ObservationOperands_validate_bounds (operands : ObservationOperands) (bounds : ObservationBounds) :
    result DiagnosticArtifactError () :=
  match operands with
  | Path p =>
    if is_some_and (fun value => path_bytes bounds <? str_size value)%Z (po_path p) then Err PathBoundExceeded
    else if is_some_and (fun value => tracee_string_bytes bounds <? str_size value)%Z (po_path p)
    then Err TraceeStringBoundExceeded
    else if is_some_and (fun value => symlink_hops bounds <? value)%Z (po_symlink_hops p) then Err SymlinkBoundExceeded
    else Ok ()
  | SocketAddress address _ _ =>
    if is_some_and (fun value => socket_address_bytes bounds <? Z.of_nat (length (os_bytes value)))%Z address
    then Err SocketAddressBoundExceeded else Ok ()
  | _ => Ok ()
  end.
Definition ObservationOperands_to_value (operands : ObservationOperands) : Json :=
  match operands with
  | Path p =>
    json_object
      [("buffer_bytes", json_option Json_U64 (po_buffer_bytes p));
       ("directory_fd", json_option json_i64 (po_directory_fd p));
       ("flags", json_option Json_U64 (po_flags p));
       ("kind", Json_String "path");
       ("mask", json_option Json_U64 (po_mask p));
       ("mode", json_option Json_U64 (po_mode p));
       ("path", json_option Json_String (po_path p));
       ("resolve", json_option Json_U64 (po_resolve p));
       ("symlink_hops", json_option Json_U64 (po_symlink_hops p))]
  | ProcessCreate flags =>
    json_object [("flags", json_option Json_U64 flags); ("kind", Json_String "process-create")]
  | SocketAddress address descriptor payload_bytes =>
    json_object
      [("address", json_option ObservedSocketAddress_to_value address);
       ("descriptor", Json_U64 descriptor);
       ("kind", Json_String "socket-address");
       ("payload_bytes", json_option Json_U64 payload_bytes)]
  | SocketCreate domain protocol socket_type =>
    json_object
      [("domain", Json_U64 domain); ("kind", Json_String "socket-create"); ("protocol", Json_U64 protocol);
       ("socket_type", Json_U64 socket_type)]
  end.

Inductive ObservationOutcome := Returned (value : Z) | Failed (error : Z).
#[global] Instance ObservationOutcome_eq_dec : EqDecision ObservationOutcome.
Proof. solve_decision. Defined.
Definition ObservationOutcome_validate (outcome : ObservationOutcome) : result DiagnosticArtifactError ObservationOutcome :=
  if bool_decide (outcome = Failed 0) then Err OutcomeInvalid else Ok outcome.
Definition is_returned (outcome : ObservationOutcome) : bool :=
  match outcome with Returned _ => true | Failed _ => false end.

(** [path.contains("//")] *)
Fixpoint contains_double_slash (bytes : list byte) : bool :=
  match bytes with
  | [] => false
  | a :: rest => (bool_decide (a = "/"%char) && bool_decide (head rest = Some "/"%char)) || contains_double_slash rest
  end.
Definition proper_component (component : list byte) : bool :=
  negb (bool_decide (component = [])) && negb (bool_decide (component = ["."%char]))
  && negb (bool_decide (component = ["."%char; "."%char])).
Definition is_normalized_absolute_path (path : string) : bool :=
  let bytes := String.list_ascii_of_string path in
  if negb (bool_decide (head bytes = Some "/"%char))
     || bool_decide (mkb 0 ∈ bytes)
     || ((1 <? length bytes) && bool_decide (last_byte bytes = Some "/"%char))
     || contains_double_slash bytes
  then false
  else String.eqb path "/" || forallb proper_component (drop 1 (split_on "/"%char bytes)).

Record DiagnosticEvent := mkDiagnosticEvent {
  sequence_number : Z;
  process : Z;
  architecture : Receipt.Architecture;
  class : DiagnosticEventClass;
  operands : ObservationOperands;
  outcome : ObservationOutcome;
  resolution : RunResult.ObservationResolution;
  resolved_path : option string;
  object_before : option ObservedObjectIdentity;
  object_after : option ObservedObjectIdentity
}.
(** The four cases of [match resolution]: whether the case returns an error. *)
Definition resolution_invalid (resolution : RunResult.ObservationResolution) (operands : ObservationOperands)
    (outcome : ObservationOutcome) (resolved_path : option string) (object_before object_after : option ObservedObjectIdentity) : bool :=
  match resolution with
  | RunResult.KernelSelected =>
    negb (is_returned outcome) || bool_decide (resolved_path = None) || bool_decide (is_Some object_before)
    || bool_decide (object_after = None) || negb (has_path_observation operands)
  | RunResult.StableCandidate =>
    is_returned outcome || bool_decide (resolved_path = None) || bool_decide (object_before = None)
    || negb (bool_decide (object_before = object_after)) || negb (has_complete_path_observation operands)
  | RunResult.Unresolved =>
    bool_decide (is_Some resolved_path) || bool_decide (is_Some object_before) || bool_decide (is_Some object_after)
  | RunResult.Redacted =>
    bool_decide (is_Some resolved_path) || bool_decide (is_Some object_before) || bool_decide (is_Some object_after)
    || retains_redacted_target operands
  end.
Definition DiagnosticEvent_new (sequence process : Z) (architecture : Receipt.Architecture) (class : DiagnosticEventClass)
    (operands : ObservationOperands) (outcome : ObservationOutcome) (resolution : RunResult.ObservationResolution)
    (resolved_path : option string) (object_before object_after : option ObservedObjectIdentity) :
    result DiagnosticArtifactError DiagnosticEvent :=
  if (process =? 0)%Z || negb (bool_decide (operand_kind class = ObservationOperands_kind operands)) then Err EventInvalid
  else
    outcome ← ObservationOutcome_validate outcome;
    if resolution_invalid resolution operands outcome resolved_path object_before object_after then Err ResolutionInvalid
    else if is_some_and (fun path => negb (is_normalized_absolute_path path)) resolved_path then Err ResolutionInvalid
    else Ok (mkDiagnosticEvent sequence process architecture class operands outcome resolution resolved_path
               object_before object_after).
Definition DiagnosticEvent_validate_bounds (event : DiagnosticEvent) (bounds : ObservationBounds) :
    result DiagnosticArtifactError () :=
  _ ← ObservationOperands_validate_bounds (operands event) bounds;
  if is_some_and (fun value => path_bytes bounds <? str_size value)%Z (resolved_path event)
  then Err PathBoundExceeded else Ok ().
Definition DiagnosticEvent_to_value (e : DiagnosticEvent) : Json :=
  let '(result, error) :=
    match outcome e with Returned value => (Some value, None) | Failed value => (None, Some value) end in
  json_object
    [("architecture", Json_String (Receipt.Architecture_as_str (architecture e)));
     ("class", Json_String (DiagnosticEventClass_as_str (class e)));
     ("error", json_option Json_U64 error);
     ("object_after", json_option ObservedObjectIdentity_to_value (object_after e));
     ("object_before", json_option ObservedObjectIdentity_to_value (object_before e));
     ("operands", ObservationOperands_to_value (operands e));
     ("process", Json_U64 (process e));
     ("resolution", Json_String (RunResult.ObservationResolution_as_str (resolution e)));
     ("resolved_path", json_option Json_String (resolved_path e));
     ("result", json_option Json_U64 result);
     ("sequence", Json_U64 (sequence_number e))].

(** * The trusted computing base *)

Inductive DiagnosticTcbRole :=
| Tcb_DiagnosticObserver | Filesystem | Hardware | LinuxKernel | RuntimeLauncher | RuntimeSupervisor.
#[global] Instance DiagnosticTcbRole_eq_dec : EqDecision DiagnosticTcbRole.
Proof. solve_decision. Defined.
Definition DiagnosticTcbRole_ALL : list DiagnosticTcbRole :=
  [Tcb_DiagnosticObserver; Filesystem; Hardware; LinuxKernel; RuntimeLauncher; RuntimeSupervisor].
Definition DiagnosticTcbRole_as_str (role : DiagnosticTcbRole) : string :=
  match role with
  | Tcb_DiagnosticObserver => "diagnostic-observer"
  | Filesystem => "filesystem"
  | Hardware => "hardware"
  | LinuxKernel => "linux-kernel"
  | RuntimeLauncher => "runtime-launcher"
  | RuntimeSupervisor => "runtime-supervisor"
  end.
Definition DiagnosticTcbRole_discriminant (role : DiagnosticTcbRole) : Z :=
  match role with
  | Tcb_DiagnosticObserver => 0 | Filesystem => 1 | Hardware => 2 | LinuxKernel => 3 | RuntimeLauncher => 4
  | RuntimeSupervisor => 5
  end.
#[global] Instance DiagnosticTcbRole_ord : RustOrd DiagnosticTcbRole := ord_via DiagnosticTcbRole_discriminant.
#[global] Instance DiagnosticTcbRole_lawful : LawfulOrd DiagnosticTcbRole.
Proof.
  assert (Inj (=) (=) DiagnosticTcbRole_discriminant) by (intros [] []; done).
  apply (ord_via_lawful DiagnosticTcbRole_discriminant).
Qed.
Record DiagnosticTcbEntry := mkDiagnosticTcbEntry { dt_role : DiagnosticTcbRole; dt_identity : string }.
Definition DiagnosticTcbEntry_key (entry : DiagnosticTcbEntry) : DiagnosticTcbRole * string := (dt_role entry, dt_identity entry).
#[global] Instance DiagnosticTcbEntry_ord : RustOrd DiagnosticTcbEntry := ord_via DiagnosticTcbEntry_key.
#[global] Instance DiagnosticTcbEntry_lawful : LawfulOrd DiagnosticTcbEntry.
Proof.
  assert (Inj (=) (=) DiagnosticTcbEntry_key) by (intros [] []; unfold DiagnosticTcbEntry_key; cbn; congruence).
  apply (ord_via_lawful DiagnosticTcbEntry_key).
Qed.
Definition DiagnosticTcbEntry_new (role : DiagnosticTcbRole) (identity : string) :
    result DiagnosticArtifactError DiagnosticTcbEntry :=
  if is_empty_string identity || (512 <? str_size identity)%Z then Err TrustedRoleInvalid
  else Ok (mkDiagnosticTcbEntry role identity).
Definition DiagnosticTcbEntry_to_value (entry : DiagnosticTcbEntry) : Json :=
  json_object [("identity", Json_String (dt_identity entry)); ("role", Json_String (DiagnosticTcbRole_as_str (dt_role entry)))].

(** * The receipt *)

Definition DIAGNOSTIC_RECEIPT_SCHEMA : string := "proofbound-runtime-diagnostic-receipt/1".

Record DiagnosticReceiptParts := mkDiagnosticReceiptParts {
  dr_execution_id : Receipt.ExecutionId;
  dr_seed_plan : DiagnosticArtifactIdentity;
  dr_target : DiagnosticArtifactIdentity;
  dr_runtime : DiagnosticArtifactIdentity;
  dr_launcher : DiagnosticArtifactIdentity;
  dr_observer : DiagnosticArtifactIdentity;
  dr_platform : DiagnosticPlatform;
  dr_arguments : list string;
  dr_environment_names : list string;
  dr_bounds : ObservationBounds;
  dr_events : list DiagnosticEvent;
  dr_completion : RunResult.DiagnosticCompletion;
  dr_gaps : list DiagnosticGap;
  dr_trusted_computing_base : list DiagnosticTcbEntry;
  dr_assumptions : list string
}.
Record DiagnosticReceipt := mkDiagnosticReceipt {
  rcp_bytes : list byte;
  rcp_commitment : Sha256Digest;
  rcp_seed_plan_digest : Sha256Digest;
  rcp_arguments : list string;
  rcp_environment_names : list string;
  rcp_events : list DiagnosticEvent;
  rcp_gaps : list DiagnosticGap;
  rcp_output_bound : Z
}.

Definition require_role (artifact : DiagnosticArtifactIdentity) (expected : DiagnosticArtifactRole) :
    result DiagnosticArtifactError () :=
  if bool_decide (da_role artifact = expected) then Ok () else Err ArtifactRoleInvalid.
Definition validate_arguments (arguments : list string) : result DiagnosticArtifactError () :=
  if (256 <? Z.of_nat (length arguments))%Z
     || existsb (fun value => (65536 <? str_size value)%Z || bool_decide (mkb 0 ∈ String.list_ascii_of_string value)) arguments
  then Err ArgumentInvalid else Ok ().
Definition is_alphabetic (b : byte) : bool := byte_in 65 90 b || byte_in 97 122 b.
Definition environment_name_valid (value : string) : bool :=
  match String.list_ascii_of_string value with
  | [] => false
  | b :: rest =>
    negb (256 <? str_size value)%Z && (is_alphabetic b || bool_decide (b = "_"%char))
    && forallb (fun b => is_alphabetic b || is_digit b || bool_decide (b = "_"%char)) rest
  end.
Fixpoint environment_name_set (output : list string) (values : list string) : result DiagnosticArtifactError (list string) :=
  match values with
  | [] => Ok output
  | value :: values =>
    if environment_name_valid value then environment_name_set (set_insert value output) values
    else Err EnvironmentNameInvalid
  end.
Definition canonical_environment_names (values : list string) : result DiagnosticArtifactError (list string) :=
  output ← environment_name_set [] values;
  if (256 <? Z.of_nat (length output))%Z then Err EnvironmentNameInvalid else Ok output.

Fixpoint event_loop (bounds : ObservationBounds) (platform : Receipt.Architecture) (previous : option Z)
    (processes : gmap Z Z) (events : list DiagnosticEvent) : result DiagnosticArtifactError (gmap Z Z) :=
  match events with
  | [] => Ok processes
  | event :: events =>
    if negb (bool_decide (architecture event = platform)) then Err EventInvalid
    else if is_some_and (fun value => sequence_number event <=? value)%Z previous then Err EventOrderInvalid
    else
      _ ← DiagnosticEvent_validate_bounds event bounds;
      let count := (default 0 (processes !! process event) + 1)%Z in
      if (event_count_per_process bounds <? count)%Z then Err EventBoundExceeded
      else event_loop bounds platform (Some (sequence_number event)) (<[process event := count]> processes) events
  end.
Definition gap_reported (gap : DiagnosticGap) (gaps : list DiagnosticGap) : bool := bool_decide (gap ∈ gaps).
Definition validate_events (events : list DiagnosticEvent) (bounds : ObservationBounds) (platform : Receipt.Architecture)
    (gaps : list DiagnosticGap) : result DiagnosticArtifactError () :=
  if (event_count bounds <? Z.of_nat (length events))%Z then Err EventBoundExceeded
  else
    processes ← event_loop bounds platform None ∅ events;
    if (process_count bounds <? Z.of_nat (base.size processes))%Z then Err ProcessBoundExceeded
    else
      let event_limit_reached := (Z.of_nat (length events) =? event_count bounds)%Z in
      let per_process_limit_reached :=
        existsb (fun entry : Z * Z => entry.2 =? event_count_per_process bounds)%Z (map_to_list processes) in
      let process_limit_reached := (Z.of_nat (base.size processes) =? process_count bounds)%Z in
      if (gap_reported EventLimit gaps && negb event_limit_reached)
         || (gap_reported EventPerProcessLimit gaps && negb per_process_limit_reached)
         || (gap_reported ProcessLimit gaps && negb process_limit_reached)
      then Err CompletionInvalid else Ok ().
Definition validate_tcb (entries : list DiagnosticTcbEntry) : result DiagnosticArtifactError () :=
  if negb (length entries =? length DiagnosticTcbRole_ALL) then Err TrustedRoleInvalid
  else if negb (bool_decide (set_of (map dt_role entries) = set_of DiagnosticTcbRole_ALL)) then Err TrustedRoleInvalid
  else Ok ().
Definition canonical_nonempty_text_set (values : list string) (maximum_count maximum_bytes : Z) :
    result DiagnosticArtifactError (list string) :=
  let output := set_of values in
  if bool_decide (output = []) || (maximum_count <? Z.of_nat (length output))%Z
     || existsb (fun value => is_empty_string value || (maximum_bytes <? str_size value)%Z) output
  then Err AssumptionInvalid else Ok output.

Section receipt.
Context `{SerdeWriter} (sha256 : list byte -> list byte).

(** The calls that [encode_receipt] makes, in order. *)
Definition receipt_pieces (parts : DiagnosticReceiptParts) (bounds : ObservationBounds) : list piece :=
  [Raw "{'arguments':"; Value (json_strings (dr_arguments parts));
   Raw ",'assumptions':"; Value (json_strings (dr_assumptions parts));
   Raw ",'bounds':"; Value (ObservationBounds_to_value bounds);
   Raw ",'completion':"; Value (Json_String (RunResult.DiagnosticCompletion_as_str (dr_completion parts)));
   Raw ",'environment_names':"; Value (json_strings (dr_environment_names parts));
   Raw ",'events':"; Sequence (map DiagnosticEvent_to_value (dr_events parts));
   Raw ",'execution_id':"; Value (Json_String (Receipt.ExecutionId_to_text (dr_execution_id parts)));
   Raw ",'execution_profile':'diagnostic','gaps':";
   Sequence (map (fun gap => Json_String (DiagnosticGap_as_str gap)) (dr_gaps parts));
   Raw ",'launcher':"; Value (DiagnosticArtifactIdentity_to_value (dr_launcher parts));
   Raw ",'mechanism':'linux-ptrace-syscall-v1','observer':"; Value (DiagnosticArtifactIdentity_to_value (dr_observer parts));
   Raw ",'platform':"; Value (DiagnosticPlatform_to_value (dr_platform parts));
   Raw ",'reusable':false,'runtime':"; Value (DiagnosticArtifactIdentity_to_value (dr_runtime parts));
   Raw ",'safe_policy':false,'schema':"; Value (Json_String DIAGNOSTIC_RECEIPT_SCHEMA);
   Raw ",'seed_plan':"; Value (DiagnosticArtifactIdentity_to_value (dr_seed_plan parts));
   Raw ",'target':"; Value (DiagnosticArtifactIdentity_to_value (dr_target parts));
   Raw ",'trusted_computing_base':"; Sequence (map DiagnosticTcbEntry_to_value (dr_trusted_computing_base parts));
   Raw "}"].
Definition encode_receipt (parts : DiagnosticReceiptParts) (bounds : ObservationBounds) :
    result DiagnosticArtifactError (list byte) :=
  map_err map_write_error (write_document (output_bytes bounds) (receipt_pieces parts bounds)).

(** The parts after the mutations of [construct]. *)
Definition with_canonical_sets (parts : DiagnosticReceiptParts) (environment_names : list string)
    (gaps : list DiagnosticGap) (tcb : list DiagnosticTcbEntry) (assumptions : list string) : DiagnosticReceiptParts :=
  mkDiagnosticReceiptParts (dr_execution_id parts) (dr_seed_plan parts) (dr_target parts) (dr_runtime parts)
    (dr_launcher parts) (dr_observer parts) (dr_platform parts) (dr_arguments parts) environment_names (dr_bounds parts)
    (dr_events parts) (dr_completion parts) gaps tcb assumptions.
(** [gaps.sort_unstable_by_key(as_str); gaps.dedup()]: equal keys are equal gaps, so
    that every sort gives the same list. *)
Definition canonical_gaps (gaps : list DiagnosticGap) : list DiagnosticGap :=
  dedup_by (fun a b => bool_decide (a = b))
    (sort_by (fun a b => rlt (DiagnosticGap_as_str a) (DiagnosticGap_as_str b)) gaps).
Definition completion_is_complete (completion : RunResult.DiagnosticCompletion) : bool :=
  match completion with RunResult.Complete => true | RunResult.Completion_Incomplete => false end.
Definition DiagnosticReceipt_construct (parts : DiagnosticReceiptParts) : result DiagnosticArtifactError DiagnosticReceipt :=
  _ ← require_role (dr_seed_plan parts) ExecutionPlan;
  _ ← require_role (dr_target parts) RuntimeExecutable;
  _ ← require_role (dr_runtime parts) RuntimeBinary;
  _ ← require_role (dr_launcher parts) LauncherBinary;
  _ ← require_role (dr_observer parts) DiagnosticObserver;
  bounds ← ObservationBounds_validate (dr_bounds parts);
  _ ← validate_arguments (dr_arguments parts);
  environment_names ← canonical_environment_names (dr_environment_names parts);
  let gaps := canonical_gaps (dr_gaps parts) in
  _ ← validate_events (dr_events parts) bounds (dp_architecture (dr_platform parts)) gaps;
  if (64 <? Z.of_nat (length gaps))%Z
     || negb (Bool.eqb (completion_is_complete (dr_completion parts)) (bool_decide (gaps = [])))
  then Err CompletionInvalid
  else
    let tcb := Prelude.sort (dr_trusted_computing_base parts) in
    _ ← validate_tcb tcb;
    assumptions ← canonical_nonempty_text_set (dr_assumptions parts) 64 256;
    let parts := with_canonical_sets parts environment_names gaps tcb assumptions in
    bytes ← encode_receipt parts bounds;
    Ok (mkDiagnosticReceipt bytes (mkSha256Digest (sha256 bytes)) (da_digest (dr_seed_plan parts)) (dr_arguments parts)
          (dr_environment_names parts) (dr_events parts) (dr_gaps parts) (output_bytes bounds)).
End receipt.

(** * A compact printer

    What [serde_json]'s compact formatter writes, for examples and witnesses: the
    whole value in one buffer.  Floats do not occur in this crate. *)

Definition hex_escape (b : byte) : list byte := bytes_of "\u00" ++ hex_pair b.
Definition escape (b : byte) : list byte :=
  let z := bval b in
  if (z =? 34)%Z then [mkb 92; mkb 34]
  else if (z =? 92)%Z then [mkb 92; mkb 92]
  else if (z =? 8)%Z then bytes_of "\b"
  else if (z =? 9)%Z then bytes_of "\t"
  else if (z =? 10)%Z then bytes_of "\n"
  else if (z =? 12)%Z then bytes_of "\f"
  else if (z =? 13)%Z then bytes_of "\r"
  else if (z <? 32)%Z then hex_escape b
  else [b].
Definition quoted (s : string) : list byte := mkb 34 :: concat (map escape (bytes_of s)) ++ [mkb 34].
Fixpoint compact (v : Json) : list byte :=
  match v with
  | Json_Null => bytes_of "null"
  | Json_Bool b => bytes_of (if b then "true" else "false")
  | Json_U64 z => u64_decimal z
  | Json_I64 z => if (z <? 0)%Z then "-"%char :: u64_decimal (- z) else u64_decimal z
  | Json_F64 _ => bytes_of "0.0"
  | Json_String s => quoted s
  | Json_Array vs => "["%char :: join_with ","%char (map compact vs) ++ ["]"%char]
  | Json_Object members =>
    "{"%char :: join_with ","%char (map (fun kv => quoted kv.1 ++ ":"%char :: compact kv.2) members) ++ ["}"%char]
  end.
Definition compact_writer : SerdeWriter := {| json_writes := fun v => [compact v]; json_complete := fun _ => true |}.
