(* ===== verification/DiagnosticReceipts.v ===== *)
(** The theorems about [Diagnostic]: what the bounded writer writes, which inputs
    a receipt is constructed from, what its bytes are, and that the verifier
    refuses them. *)
From S2P Require Import Prelude Vectors Identity JsonCbor Network Diagnostic.
From S2P Require RunResult Receipt Eligibility VerifyDecode VerifyReceipt.
From Stdlib Require Import Ascii ZArith Lia Sorted.
From stdpp Require Import prelude strings list numbers gmap.
Export stdpp.list_relations.list.

(** * The bounded writer *)

(** What [serde_json] documents of its compact formatter. *)
Class SerdeWriterLaws `{SerdeWriter} : Prop := {
  written v : json_complete v = true;
  text_object members :
    json_text (Json_Object members)
    = "{"%char :: join_with ","%char (map (fun kv => json_text (Json_String kv.1) ++ ":"%char :: json_text kv.2) members)
      ++ ["}"%char];
  text_array values : json_text (Json_Array values) = "["%char :: join_with ","%char (map json_text values) ++ ["]"%char];
  text_bool b : json_text (Json_Bool b) = bytes_of (if b then "true" else "false");
  text_string s : forallb (fun b => byte_in 32 126 b && negb (bval b =? 34)%Z && negb (bval b =? 92)%Z) (bytes_of s) = true ->
    json_text (Json_String s) = mkb 34 :: bytes_of s ++ [mkb 34]
}.

Definition writer_ok (self : BoundedCanonicalJson) : Prop :=
  bj_bound_exceeded self = false /\ (Z.of_nat (length (bj_bytes self)) <= bj_limit self < u64_bound)%Z.
Definition advance (self : BoundedCanonicalJson) (text : list byte) : BoundedCanonicalJson :=
  mkBoundedCanonicalJson (bj_bytes self ++ text) (bj_limit self) (bj_bound_exceeded self).
Definition room (self : BoundedCanonicalJson) (text : list byte) : bool :=
  (Z.of_nat (length (bj_bytes self) + length text) <=? bj_limit self)%Z.
(** An operation that appends a text when it fits and fails with the bound otherwise. *)
Definition puts (op : BoundedCanonicalJson -> result CanonicalWriteError BoundedCanonicalJson) (text : list byte) : Prop :=
  forall self, writer_ok self -> op self = if room self text then Ok (advance self text) else Err BoundExceeded.

Lemma advance_ok self text : writer_ok self -> room self text = true -> writer_ok (advance self text).
Proof.
  intros [He Hb] Hr%Z.leb_le. split; [done|]. cbn. rewrite length_app. lia.
Qed.
Lemma room_app self t u :
  room self (t ++ u) = room self t && room (advance self t) u.
Proof.
  unfold room. cbn. rewrite !length_app. apply eq_bool_prop_intro. rewrite andb_True, !Is_true_true, !Z.leb_le. lia.
Qed.
Lemma advance_app self t u : advance (advance self t) u = advance self (t ++ u).
Proof. unfold advance. cbn. by rewrite app_assoc. Qed.
Lemma write_all_spec self text :
  writer_ok self ->
  write_all self text = if room self text then (advance self text, true) else (exceeded self, false).
Proof.
  intros [He Hb]. unfold room. destruct text as [|b text].
  - cbn [write_all length]. rewrite Nat.add_0_r. rewrite (proj2 (Z.leb_le _ _)) by lia.
    destruct self; cbn. unfold advance. cbn. by rewrite app_nil_r.
  - cbn [write_all]. unfold write, u64_checked_add. rewrite <- Nat2Z.inj_add.
    destruct (try_from u64_bound _) as [n|] eqn:Hn.
    + apply try_from_Some in Hn as [-> Hn]. rewrite Z.leb_antisym. by destruct (_ <? _)%Z.
    + apply try_from_None in Hn. rewrite (proj2 (Z.leb_gt _ _)) by lia. done.
Qed.
Lemma write_each_spec self buffers :
  writer_ok self ->
  exists self', write_each self buffers
    = if room self (concat buffers) then (advance self (concat buffers), true) else (exceeded self', false).
Proof.
  revert self. induction buffers as [|t buffers IH]; intros self Hok; cbn [write_each concat].
  - exists self. destruct Hok as [He Hb]. unfold room. cbn [length].
    rewrite Nat.add_0_r, (proj2 (Z.leb_le _ _)) by lia. unfold advance. rewrite app_nil_r. by destruct self.
  - rewrite write_all_spec, room_app by done. destruct (room self t) eqn:Hr; cbn [andb]; [|by exists self].
    destruct (IH (advance self t)) as [self' ->]; [by apply advance_ok|]. exists self'. by rewrite advance_app.
Qed.

Section puts.
Implicit Types (f g : BoundedCanonicalJson -> result CanonicalWriteError BoundedCanonicalJson).
Lemma puts_ret : puts Ok [].
Proof.
  intros self [He Hb]. unfold room. cbn. rewrite Nat.add_0_r, (proj2 (Z.leb_le _ _)) by lia.
  unfold advance. rewrite app_nil_r. by destruct self.
Qed.
Lemma puts_bind f g t u : puts f t -> puts g u -> puts (fun self => f self ≫= g) (t ++ u).
Proof.
  intros Hf Hg self Hok. rewrite (Hf self Hok), room_app. destruct (room self t) eqn:Hr; cbn; [|done].
  rewrite (Hg _ (advance_ok _ _ Hok Hr)). by rewrite advance_app.
Qed.
Lemma puts_raw t : puts (fun self => raw self t) t.
Proof. intros self Hok. unfold raw. rewrite write_all_spec by done. by destruct (room self t). Qed.

Context `{SerdeWriterLaws}.
Lemma puts_value v : puts (fun self => value self v) (json_text v).
Proof.
  intros self Hok. unfold value, json_text. destruct (write_each_spec self (json_writes v) Hok) as [self' ->].
  rewrite written. by destruct (room _ _).
Qed.
Lemma puts_items first vs :
  puts (fun self => sequence_items self first vs)
    (match vs with
     | [] => bytes_of "]"
     | v :: vs => (if first then [] else bytes_of ",") ++ json_text v ++ concat (map (fun v => bytes_of "," ++ json_text v) vs) ++ bytes_of "]"
     end).
Proof.
  revert first. induction vs as [|v vs IH]; intros first; [exact (puts_raw (literal "]"))|].
  cbn [sequence_items]. apply (puts_bind (fun self => if first then Ok self else raw self (literal ","))).
  { destruct first; [apply puts_ret|apply (puts_raw (literal ","))]. }
  apply (puts_bind (fun self => value self v)); [apply puts_value|]. specialize (IH false).
  destruct vs as [|w vs]; [exact IH|]. cbn [map concat]. by rewrite <- !app_assoc in *.
Qed.
Lemma join_with_cons sep (l : list byte) ls : join_with sep (l :: ls) = l ++ concat (map (cons sep) ls).
Proof.
  revert l. induction ls as [|k ls IH]; intros l; [by rewrite app_nil_r|].
  change (join_with sep (l :: k :: ls)) with (l ++ sep :: join_with sep (k :: ls)). by rewrite IH.
Qed.
Lemma puts_sequence vs : puts (fun self => sequence self vs) (json_text (Json_Array vs)).
Proof.
  rewrite text_array. change ("["%char :: ?l) with (bytes_of "[" ++ l).
  apply (puts_bind (fun self => raw self (literal "["))); [exact (puts_raw (literal "["))|].
  pose proof (puts_items true vs) as Hp. destruct vs as [|v vs]; [exact Hp|]. cbn [map].
  rewrite join_with_cons, map_map, <- app_assoc. exact Hp.
Qed.
Definition piece_text (p : piece) : list byte :=
  match p with Raw text => literal text | Value v => json_text v | Sequence vs => json_text (Json_Array vs) end.
Definition pieces_text (pieces : list piece) : list byte := concat (map piece_text pieces).
Lemma puts_pieces pieces : puts (fun self => write_pieces self pieces) (pieces_text pieces).
Proof.
  induction pieces as [|p pieces IH]; [exact puts_ret|]. unfold pieces_text in *. cbn [write_pieces map concat].
  destruct p; cbn [piece_text]; (eapply puts_bind; [|exact IH]);
    [apply puts_raw|apply puts_value|apply puts_sequence].
Qed.
(** A document is written exactly when it fits. *)
Lemma write_document_exact limit pieces :
  (0 <= limit < u64_bound)%Z ->
  write_document limit pieces
  = if (Z.of_nat (length (pieces_text pieces)) <=? limit)%Z then Ok (pieces_text pieces) else Err BoundExceeded.
Proof.
  intros Hl. unfold write_document, BoundedCanonicalJson_new.
  rewrite (proj2 (try_from_Some _ _ _) (conj eq_refl Hl)). cbn [ok_or mbind result_bind].
  rewrite (puts_pieces pieces (mkBoundedCanonicalJson [] limit false)) by (split; [done|cbn; lia]).
  unfold room. cbn. by destruct (_ <=? _)%Z.
Qed.
End puts.

(** * The receipt document *)

(** The whole receipt as one JSON object. *)
Definition receipt_members (parts : DiagnosticReceiptParts) (bounds : ObservationBounds) : list (string * Json) :=
  [("arguments", json_strings (dr_arguments parts));
   ("assumptions", json_strings (dr_assumptions parts));
   ("bounds", ObservationBounds_to_value bounds);
   ("completion", Json_String (RunResult.DiagnosticCompletion_as_str (dr_completion parts)));
   ("environment_names", json_strings (dr_environment_names parts));
   ("events", Json_Array (map DiagnosticEvent_to_value (dr_events parts)));
   ("execution_id", Json_String (Receipt.ExecutionId_to_text (dr_execution_id parts)));
   ("execution_profile", Json_String "diagnostic");
   ("gaps", Json_Array (map (fun gap => Json_String (DiagnosticGap_as_str gap)) (dr_gaps parts)));
   ("launcher", DiagnosticArtifactIdentity_to_value (dr_launcher parts));
   ("mechanism", Json_String "linux-ptrace-syscall-v1");
   ("observer", DiagnosticArtifactIdentity_to_value (dr_observer parts));
   ("platform", DiagnosticPlatform_to_value (dr_platform parts));
   ("reusable", Json_Bool false);
   ("runtime", DiagnosticArtifactIdentity_to_value (dr_runtime parts));
   ("safe_policy", Json_Bool false);
   ("schema", Json_String DIAGNOSTIC_RECEIPT_SCHEMA);
   ("seed_plan", DiagnosticArtifactIdentity_to_value (dr_seed_plan parts));
   ("target", DiagnosticArtifactIdentity_to_value (dr_target parts));
   ("trusted_computing_base", Json_Array (map DiagnosticTcbEntry_to_value (dr_trusted_computing_base parts)))].
Lemma receipt_members_sorted parts bounds : object_sorted (receipt_members parts bounds).
Proof. unfold object_sorted. repeat (constructor; [|repeat constructor]). constructor. Qed.

(** A quoted text of the source is the string it stands for. *)
Definition plain (s : string) : bool :=
  forallb (fun b => byte_in 32 126 b && negb (bval b =? 34)%Z && negb (bval b =? 92)%Z) (bytes_of s).
Section document.
Context `{SerdeWriterLaws}.
Fixpoint members_text (members : list (string * Json)) : list byte :=
  match members with
  | [] => []
  | kv :: rest => (mkb 34 :: bytes_of kv.1 ++ [mkb 34; ":"%char]) ++ json_text kv.2
      ++ match rest with [] => [] | _ => ","%char :: members_text rest end
  end.
Lemma text_members members :
  forallb (fun kv => plain kv.1) members = true ->
  json_text (Json_Object members) = "{"%char :: members_text members ++ ["}"%char].
Proof.
  intros Hp. rewrite text_object. f_equal. f_equal. induction members as [|[k v] members IH]; [done|].
  cbn in Hp. apply andb_true_iff in Hp as [Hk Hp]. cbn [map members_text fst snd]. rewrite join_with_cons.
  rewrite (text_string k Hk). destruct members as [|kv members]; cbn [map concat].
  - cbn. by rewrite !app_nil_r, <- !app_assoc.
  - rewrite <- IH by done. cbn [map]. rewrite join_with_cons. cbn. by rewrite <- !app_assoc.
Qed.
(** The streaming encoder writes the text of the one object. *)
Lemma receipt_pieces_text parts bounds :
  pieces_text (receipt_pieces parts bounds) = json_text (Json_Object (receipt_members parts bounds)).
Proof.
  rewrite text_members by (vm_compute; reflexivity).
  unfold pieces_text, receipt_pieces, receipt_members. cbn [map concat piece_text members_text fst snd].
  rewrite !text_bool, (text_string "diagnostic"), (text_string "linux-ptrace-syscall-v1") by (vm_compute; reflexivity).
  repeat (cbn [app]; rewrite <- !app_assoc). reflexivity.
Qed.
End document.

(** * The golden receipt *)

Lemma escape_plain b : byte_in 32 126 b && negb (bval b =? 34)%Z && negb (bval b =? 92)%Z = true -> escape b = [b].
Proof.
  unfold escape, byte_in. rewrite !andb_true_iff, !negb_true_iff, !Z.leb_le, !Z.eqb_neq. intros [[[Hl Hh] Hq] Hs].
  repeat (rewrite (proj2 (Z.eqb_neq _ _)) by lia). by rewrite (proj2 (Z.ltb_ge _ _)) by lia.
Qed.
#[export] Instance compact_laws : @SerdeWriterLaws compact_writer.
Proof.
  constructor; intros; unfold json_text; cbn; rewrite ?app_nil_r; try done.
  - do 3 f_equal. apply map_ext. intros kv. by rewrite !app_nil_r.
  - do 3 f_equal. apply map_ext. intros v. by rewrite app_nil_r.
  - unfold quoted. f_equal. f_equal. induction (bytes_of s) as [|b l IH]; [done|]. cbn in H |- *.
    apply andb_true_iff in H as [Hb Hl]. by rewrite (escape_plain b Hb), IH.
Qed.

Definition fixture_digest (byte : Z) : Sha256Digest := mkSha256Digest (replicate 32 (mkb byte)).
Definition fixture_artifact (role : DiagnosticArtifactRole) (byte size mode : Z) : DiagnosticArtifactIdentity :=
  mkDiagnosticArtifactIdentity role (fixture_digest byte) size (mkFileMode mode).
Definition fixture_object : ObservedObjectIdentity := mkObservedObjectIdentity 8 1 42 33188 7.
Definition fixture_path_operands : ObservationOperands :=
  Path (mkPathOperands None (Some (-100))%Z (Some 0%Z) None None (Some "config") None (Some 0%Z)).
Definition fixture_socket_operands : ObservationOperands :=
  SocketAddress (Some (mkObservedSocketAddress Inet (map mkb [2; 0; 1; 187; 127; 0; 0; 1; 0; 0; 0; 0; 0; 0; 0; 0]%Z))) 3 None.
Definition fixture_path_event : DiagnosticEvent :=
  mkDiagnosticEvent 0 1000 Receipt.X86_64 Openat fixture_path_operands (Failed 13) RunResult.StableCandidate
    (Some "/workspace/config") (Some fixture_object) (Some fixture_object).
Definition fixture_socket_event : DiagnosticEvent :=
  mkDiagnosticEvent 1 1000 Receipt.X86_64 Connect fixture_socket_operands (Failed 1) RunResult.Unresolved None None None.
(** [fixture_parts] of the tests of [artifact.rs] *)
Definition fixture_parts : DiagnosticReceiptParts :=
  mkDiagnosticReceiptParts (Receipt.mkExecutionId (bytes_of_hex "00112233445546778899aabbccddeeff"))
    (fixture_artifact ExecutionPlan 0x44 4 420) (fixture_artifact RuntimeExecutable 0x55 5 493)
    (fixture_artifact RuntimeBinary 0x11 1 493) (fixture_artifact LauncherBinary 0x22 2 493)
    (fixture_artifact DiagnosticObserver 0x33 3 493) (mkDiagnosticPlatform Receipt.X86_64 "fixture" 11)
    ["--fixture"; "π"] ["LANG"] (mkObservationBounds 2 256 1048576 4096 16 128 40 4096)
    [fixture_path_event; fixture_socket_event] RunResult.Completion_Incomplete [EventLimit]
    [mkDiagnosticTcbEntry Filesystem "fixture-filesystem"; mkDiagnosticTcbEntry Hardware "fixture-hardware";
     mkDiagnosticTcbEntry LinuxKernel "fixture-kernel"; mkDiagnosticTcbEntry RuntimeLauncher "fixture-launcher";
     mkDiagnosticTcbEntry Tcb_DiagnosticObserver "fixture-observer"; mkDiagnosticTcbEntry RuntimeSupervisor "fixture-supervisor"]
    ["PBR-HOST-AX-002"].
(** The digest of the golden receipt, as the plan draft records it. *)
Definition fixture_sha256 (_ : list byte) : list byte :=
  bytes_of_hex "807c2d80af519e661059fd89f788fec9964898c85349b28530b87e4b12a7e7ce".
Example fixture_events_valid :
  DiagnosticEvent_new 0 1000 Receipt.X86_64 Openat fixture_path_operands (Failed 13) RunResult.StableCandidate
    (Some "/workspace/config") (Some fixture_object) (Some fixture_object) = Ok fixture_path_event
  /\ DiagnosticEvent_new 1 1000 Receipt.X86_64 Connect fixture_socket_operands (Failed 1) RunResult.Unresolved None None None
     = Ok fixture_socket_event.
Proof. vm_compute. split; reflexivity. Qed.
(** [aggregate_subject_matches_both_canonical_vectors], for the receipt *)
Lemma fixture_constructs :
  exists receipt, @DiagnosticReceipt_construct compact_writer fixture_sha256 fixture_parts = Ok receipt
    /\ rcp_bytes receipt = diagnostic_receipt.
Proof. eexists. split; vm_compute; reflexivity. Qed.

(** * Events within their bounds *)

Definition operands_fit (bounds : ObservationBounds) (operands : ObservationOperands) : Prop :=
  match operands with
  | Path p =>
    (forall s, po_path p = Some s -> str_size s <= path_bytes bounds /\ str_size s <= tracee_string_bytes bounds)%Z
    /\ (forall n, po_symlink_hops p = Some n -> n <= symlink_hops bounds)%Z
  | SocketAddress address _ _ =>
    forall a, address = Some a -> (Z.of_nat (length (os_bytes a)) <= socket_address_bytes bounds)%Z
  | _ => True
  end.
Definition event_fits (bounds : ObservationBounds) (event : DiagnosticEvent) : Prop :=
  operands_fit bounds (operands event)
  /\ forall s, resolved_path event = Some s -> (str_size s <= path_bytes bounds)%Z.
Lemma is_some_and_false {A} (p : A -> bool) o : is_some_and p o = false <-> forall a, o = Some a -> p a = false.
Proof. destruct o; cbn; naive_solver. Qed.
Lemma event_fits_spec event bounds : DiagnosticEvent_validate_bounds event bounds = Ok () <-> event_fits bounds event.
Proof.
  unfold DiagnosticEvent_validate_bounds, event_fits. rewrite bind_Ok.
  assert (ObservationOperands_validate_bounds (operands event) bounds = Ok () <-> operands_fit bounds (operands event)) as Ho.
  { destruct (operands event) as [p|f|a d n|x y z]; cbn; [|done| |done].
    - setoid_rewrite <- Z.ltb_ge. rewrite <- (is_some_and_false (fun value => symlink_hops bounds <? value)%Z).
      transitivity ((is_some_and (fun value => path_bytes bounds <? str_size value)%Z (po_path p) = false
        /\ is_some_and (fun value => tracee_string_bytes bounds <? str_size value)%Z (po_path p) = false)
        /\ is_some_and (fun value => symlink_hops bounds <? value)%Z (po_symlink_hops p) = false).
      + destruct (is_some_and _ _), (is_some_and _ (po_path p)), (is_some_and _ (po_symlink_hops p)); naive_solver.
      + rewrite !is_some_and_false. naive_solver.
    - setoid_rewrite <- Z.ltb_ge.
      rewrite <- (is_some_and_false (fun value => socket_address_bytes bounds <? Z.of_nat (length (os_bytes value)))%Z).
      destruct (is_some_and _ _); naive_solver. }
  setoid_rewrite <- Z.ltb_ge. rewrite <- (is_some_and_false (fun value => path_bytes bounds <? str_size value)%Z), <- Ho.
  destruct (is_some_and _ _); split.
  - intros (? & _ & ?). done.
  - intros [_ ?]. done.
  - intros ([] & ? & _). done.
  - intros [? _]. by exists ().
Qed.

Definition count_of (p : Z) (events : list DiagnosticEvent) : Z :=
  Z.of_nat (length (filter (fun e => process e = p) events)).
Definition processes_of (events : list DiagnosticEvent) : gset Z := list_to_set (map process events).
Definition tally (processes : gmap Z Z) (events : list DiagnosticEvent) : gmap Z Z :=
  fold_left (fun m e => <[process e := (default 0 (m !! process e) + 1)%Z]> m) events processes.

Lemma tally_lookup m events p : default 0%Z (tally m events !! p) = (default 0%Z (m !! p) + count_of p events)%Z.
Proof.
  revert m. induction events as [|e events IH]; intros m; cbn [tally fold_left].
  - unfold count_of. cbn. lia.
  - change (default 0%Z (tally (<[process e:=(default 0%Z (m !! process e) + 1)%Z]> m) events !! p)
      = (default 0%Z (m !! p) + count_of p (e :: events))%Z).
    rewrite IH. unfold count_of. destruct (decide (process e = p)) as [<-|Hne].
    + rewrite lookup_insert_eq, filter_cons_True by done. cbn. lia.
    + rewrite lookup_insert_ne, filter_cons_False by done. done.
Qed.
Lemma tally_dom m events : dom (tally m events) = dom m ∪ processes_of events.
Proof.
  revert m. induction events as [|e events IH]; intros m; [cbn; set_solver|].
  change (dom (tally (<[process e:=(default 0%Z (m !! process e) + 1)%Z]> m) events) = dom m ∪ processes_of (e :: events)).
  rewrite IH, dom_insert_L. unfold processes_of. cbn. set_solver.
Qed.
Lemma count_positive e events : e ∈ events -> (1 <= count_of (process e) events)%Z.
Proof.
  intros He. unfold count_of. assert (e ∈ filter (fun d => process d = process e) events) as Hf by (by apply list_elem_of_filter).
  destruct (filter _ events) as [|d l] eqn:Hd; [by apply not_elem_of_nil in Hf|]. cbn. lia.
Qed.
Lemma tally_empty events p c :
  tally ∅ events !! p = Some c <-> p ∈ map process events /\ c = count_of p events.
Proof.
  pose proof (tally_lookup ∅ events p) as Hl. rewrite lookup_empty in Hl. cbn in Hl.
  assert (is_Some (tally ∅ events !! p) <-> p ∈ map process events) as Hd.
  { rewrite <- elem_of_dom, tally_dom, dom_empty_L. unfold processes_of. rewrite union_empty_l_L. apply elem_of_list_to_set. }
  split.
  - intros Hc. rewrite Hc in Hl. cbn in Hl. split; [|lia]. apply Hd. by eexists.
  - intros [Hp ->]. apply Hd in Hp as [d Hp]. rewrite Hp in Hl |- *. cbn in Hl. by rewrite Hl.
Qed.

Definition ordered_after (previous : option Z) (events : list DiagnosticEvent) : Prop :=
  StronglySorted Z.lt (option_list previous ++ map sequence_number events).
Lemma ordered_after_cons previous e events :
  ordered_after previous (e :: events)
  <-> (forall v, previous = Some v -> (v < sequence_number e)%Z) /\ ordered_after (Some (sequence_number e)) events.
Proof.
  unfold ordered_after. destruct previous as [v|]; cbn.
  - split.
    + intros [Hs Hv]%StronglySorted_inv. split; [|done]. intros w [= <-]. by inversion Hv.
    + intros [Hv Hs]. specialize (Hv v eq_refl). constructor; [done|]. constructor; [done|].
      apply StronglySorted_inv in Hs as [_ Hs]. eapply Forall_impl; [exact Hs|]. cbn. lia.
  - split; [done|]. by intros [_ ?].
Qed.
Lemma event_loop_Ok bounds platform previous m events m' :
  event_loop bounds platform previous m events = Ok m'
  <-> m' = tally m events /\ Forall (fun e => architecture e = platform) events /\ ordered_after previous events
      /\ Forall (event_fits bounds) events
      /\ Forall (fun e => (default 0 (tally m events !! process e) <= event_count_per_process bounds)%Z) events.
Proof.
  revert previous m. induction events as [|e events IH]; intros previous m; cbn [event_loop].
  { split; [|by intros (-> & _)]. intros [= <-]. split; [done|]. split; [constructor|]. split; [|split; constructor].
    unfold ordered_after. destruct previous; cbn; repeat constructor. }
  change (tally m (e :: events)) with (tally (<[process e:=(default 0%Z (m !! process e) + 1)%Z]> m) events).
  set (m1 := <[process e:=(default 0%Z (m !! process e) + 1)%Z]> m) in *.
  rewrite !Forall_cons, ordered_after_cons. setoid_rewrite <- Z.leb_gt.
  rewrite <- (is_some_and_false (fun value => sequence_number e <=? value)%Z).
  destruct (bool_decide (architecture e = platform)) eqn:Ha; cbn [negb];
    [apply bool_decide_eq_true in Ha|apply bool_decide_eq_false in Ha; naive_solver].
  destruct (is_some_and _ previous); [naive_solver|].
  rewrite bind_Ok, <- (event_fits_spec e bounds).
  assert (default 0%Z (tally m1 events !! process e) = (default 0%Z (m !! process e) + 1 + count_of (process e) events)%Z) as Hp.
  { rewrite tally_lookup. unfold m1. by rewrite lookup_insert_eq. }
  destruct (event_count_per_process bounds <? default 0%Z (m !! process e) + 1)%Z eqn:Hc.
  { apply Z.ltb_lt in Hc. split; [by intros ([] & _ & ?)|]. intros (_ & _ & _ & _ & Hle & _). unfold count_of in *. lia. }
  apply Z.ltb_ge in Hc. split.
  - intros ([] & He & (-> & H1 & H2 & H3 & H4)%IH). repeat split; try done.
    destruct (decide (count_of (process e) events = 0%Z)) as [H0|H0]; [lia|].
    unfold count_of in H0. destruct (filter _ events) as [|d l] eqn:Hd; [done|].
    assert (d ∈ filter (fun x => process x = process e) events) as [Hpd Hde]%list_elem_of_filter by (rewrite Hd; left).
    rewrite Forall_forall in H4. rewrite <- Hpd. by apply H4.
  - intros (-> & [_ H1] & [_ H2] & [He H3] & [_ H4]). exists (). split; [done|]. by apply IH.
Qed.

Record events_ok (events : list DiagnosticEvent) (bounds : ObservationBounds) (platform : Receipt.Architecture)
    (gaps : list DiagnosticGap) : Prop := {
  ev_count : (Z.of_nat (length events) <= event_count bounds)%Z;
  ev_platform : Forall (fun e => architecture e = platform) events;
  ev_order : StronglySorted Z.lt (map sequence_number events);
  ev_fit : Forall (event_fits bounds) events;
  ev_per_process : Forall (fun e => (count_of (process e) events <= event_count_per_process bounds)%Z) events;
  ev_processes : (Z.of_nat (base.size (processes_of events)) <= process_count bounds)%Z;
  ev_event_limit : EventLimit ∈ gaps -> Z.of_nat (length events) = event_count bounds;
  ev_per_process_limit : EventPerProcessLimit ∈ gaps ->
    Exists (fun e => count_of (process e) events = event_count_per_process bounds) events;
  ev_process_limit : ProcessLimit ∈ gaps -> Z.of_nat (base.size (processes_of events)) = process_count bounds
}.
Lemma existsb_tally events n :
  existsb (fun entry : Z * Z => entry.2 =? n)%Z (map_to_list (tally ∅ events)) = true
  <-> Exists (fun e => count_of (process e) events = n) events.
Proof.
  rewrite existsb_exists, Exists_exists. split.
  - intros ([p c] & Hin%list_elem_of_In%elem_of_map_to_list & Hc%Z.eqb_eq). cbn in Hc. subst c.
    apply tally_empty in Hin as [(e & -> & He)%list_elem_of_fmap ->]. by exists e.
  - intros (e & He & <-). exists (process e, count_of (process e) events). split; [|by apply Z.eqb_eq].
    apply list_elem_of_In, elem_of_map_to_list, tally_empty. split; [|done]. apply list_elem_of_fmap. by exists e.
Qed.
Lemma validate_events_Ok events bounds platform gaps :
  validate_events events bounds platform gaps = Ok () <-> events_ok events bounds platform gaps.
Proof.
  unfold validate_events, gap_reported.
  assert (base.size (tally ∅ events) = base.size (processes_of events)) as Hsize.
  { rewrite <- size_dom, tally_dom, dom_empty_L, union_empty_l_L. done. }
  destruct (event_count bounds <? Z.of_nat (length events))%Z eqn:Hc.
  { split; [done|]. intros []. lia. }
  rewrite bind_Ok. setoid_rewrite event_loop_Ok.
  assert (forall m, Forall (fun e => (default 0 (tally ∅ events !! process e) <= m)%Z) events
    <-> Forall (fun e => (count_of (process e) events <= m)%Z) events) as Hper.
  { intros m. apply Forall_proper; [|done]. intros e. rewrite tally_lookup, lookup_empty. cbn. by rewrite Z.add_0_l. }
  setoid_rewrite Hper. unfold ordered_after. cbn [option_list app].
  split.
  - intros (m & (-> & H1 & H2 & H3 & H4) & H5). rewrite Hsize in H5.
    destruct (process_count bounds <? _)%Z eqn:Hp; [done|]. destruct (_ || _ || _) eqn:Hg; [done|].
    rewrite !orb_false_iff, !andb_false_iff, !bool_decide_eq_false, !negb_false_iff, existsb_tally, !Z.eqb_eq in Hg.
    constructor; try done; try lia; intros Hin; naive_solver.
  - intros [H1 H2 H3 H4 H5 H6 H7 H8 H9]. exists (tally ∅ events). split; [done|]. rewrite Hsize.
    rewrite (proj2 (Z.ltb_ge _ _)) by done.
    assert (forall (P : Prop) `{Decision P} b, (P -> b = true) -> bool_decide P && negb b = false) as Himp.
    { intros P D b HP. destruct (decide P) as [HP'|HP']; [by rewrite (HP HP'), andb_false_r|by rewrite bool_decide_eq_false_2]. }
    rewrite !Himp; [done|intros; by apply Z.eqb_eq; auto|intros; apply existsb_tally; auto|intros; apply Z.eqb_eq; auto].
Qed.

(** * Which parts make a receipt *)

Lemma environment_name_set_Ok output values l :
  environment_name_set output values = Ok l
  <-> Forall (fun value => environment_name_valid value = true) values
      /\ l = fold_left (fun s value => set_insert value s) values output.
Proof.
  revert output. induction values as [|v values IH]; intros output; cbn [environment_name_set fold_left].
  - rewrite Forall_nil. naive_solver.
  - rewrite Forall_cons. destruct (environment_name_valid v); [|naive_solver]. rewrite IH. naive_solver.
Qed.
Lemma canonical_environment_names_Ok values l :
  canonical_environment_names values = Ok l
  <-> Forall (fun value => environment_name_valid value = true) values
      /\ (Z.of_nat (length (set_of values)) <= 256)%Z /\ l = set_of values.
Proof.
  unfold canonical_environment_names. rewrite bind_Ok. setoid_rewrite environment_name_set_Ok.
  change (fold_left (fun s value => set_insert value s) values []) with (set_of values). split.
  - intros (o & [Hv ->] & Ho). destruct (256 <? _)%Z eqn:Hl; [done|]. injection Ho as <-. split; [done|]. split; [lia|done].
  - intros (Hv & Hl & ->). exists (set_of values). split; [done|]. by rewrite (proj2 (Z.ltb_ge _ _)).
Qed.

(** The canonical gaps are the set of the gaps, whose names are in their order. *)
Lemma gap_name_order a b : rlt (DiagnosticGap_as_str a) (DiagnosticGap_as_str b) = rlt a b.
Proof. destruct a, b; vm_compute; reflexivity. Qed.
Lemma canonical_gaps_set gaps : canonical_gaps gaps = set_of gaps.
Proof.
  unfold canonical_gaps.
  assert (sort_by (fun a b => rlt (DiagnosticGap_as_str a) (DiagnosticGap_as_str b)) gaps = Prelude.sort gaps) as ->.
  { unfold Prelude.sort, sort_by. induction gaps as [|g gaps IH]; [done|]. cbn [foldr]. rewrite IH.
    generalize (foldr (insert_by rlt) [] gaps). intros l. induction l as [|h l IHl]; [done|]. cbn [insert_by].
    by rewrite gap_name_order, IHl. }
  pose proof (set_of_spec gaps) as [Hs He]. apply strict_unique; [|done|].
  - apply dedup_by_strict; [intros; apply bool_decide_eq_true|apply sort_weak].
  - intros g. by rewrite (elem_of_dedup_by _ (fun a b => bool_decide_eq_true (a = b))), elem_of_sort, He.
Qed.
Lemma gaps_few (gaps : list DiagnosticGap) : (Z.of_nat (length (set_of gaps)) <= 64)%Z.
Proof.
  set (all := [ArchitectureUnsupported; ChildLost; EventLimit; EventPerProcessLimit; IdentityDrift; ObserverFailed;
    OutputLimit; PathLimit; ProcessLimit; SocketAddressLimit; StringLimit; SymlinkLimit; SyscallUnsupported;
    TraceeMemoryReadFailed; UnexpectedStop]).
  assert (length (set_of gaps) <= length all) as Hl; [|cbn in Hl; lia].
  apply submseteq_length, NoDup_submseteq; [apply strict_NoDup, set_of_spec|].
  intros g _. apply (bool_decide_eq_true_1 _). unfold all. destruct g; vm_compute; reflexivity.
Qed.

Lemma diag_validate_tcb_Ok entries :
  validate_tcb (Prelude.sort entries) = Ok () <-> map dt_role entries ≡ₚ DiagnosticTcbRole_ALL.
Proof.
  unfold validate_tcb.
  assert (length (Prelude.sort entries) = length entries) as -> by apply Permutation_length, sort_by_Permutation.
  assert (set_of (map dt_role (Prelude.sort entries)) = set_of (map dt_role entries)) as ->.
  { apply set_of_unique. intros r. rewrite !list_elem_of_fmap. by setoid_rewrite elem_of_sort. }
  assert (NoDup DiagnosticTcbRole_ALL) as Hnd by (apply (bool_decide_eq_true_1 _); vm_compute; reflexivity).
  split.
  - destruct (negb _) eqn:Hl; [done|]. apply negb_false_iff, Nat.eqb_eq in Hl. destruct (bool_decide _) eqn:Hs; [|done].
    intros _. apply bool_decide_eq_true in Hs. symmetry. apply submseteq_length_Permutation; [|rewrite length_map; lia].
    apply NoDup_submseteq; [done|]. intros r Hr. destruct (set_of_spec (map dt_role entries)) as [_ H1].
    destruct (set_of_spec DiagnosticTcbRole_ALL) as [_ H2]. by rewrite <- H1, Hs, H2.
  - intros Hp. assert (length entries = length DiagnosticTcbRole_ALL) as -> by (rewrite <- Hp; by rewrite length_map).
    rewrite Nat.eqb_refl, (bool_decide_eq_true_2 _); [done|]. apply set_of_unique. intros r. by rewrite Hp.
Qed.

Definition bounds_ok (b : ObservationBounds) : Prop :=
  (1 <= event_count b <= 1048576 /\ 1 <= event_count_per_process b <= 1048576 /\ 1024 <= output_bytes b <= 67108864
   /\ 1 <= path_bytes b <= 1048576 /\ 1 <= process_count b <= 4096 /\ 1 <= socket_address_bytes b <= 4096
   /\ 1 <= symlink_hops b <= 40 /\ 1 <= tracee_string_bytes b <= 1048576)%Z.
Lemma range_contains_true lo hi z : range_contains lo hi z = true <-> (lo <= z <= hi)%Z.
Proof. unfold range_contains. rewrite andb_true_iff, !Z.leb_le. done. Qed.
Lemma ObservationBounds_validate_Ok b c : ObservationBounds_validate b = Ok c <-> c = b /\ bounds_ok b.
Proof.
  unfold ObservationBounds_validate, bounds_ok. rewrite <- !range_contains_true.
  repeat (destruct (range_contains _ _ _); cbn [negb orb]; [|naive_solver]). naive_solver.
Qed.

(** What [construct] demands of its parts. *)
Record parts_ok (parts : DiagnosticReceiptParts) : Prop := {
  pk_roles : [da_role (dr_seed_plan parts); da_role (dr_target parts); da_role (dr_runtime parts);
              da_role (dr_launcher parts); da_role (dr_observer parts)]
             = [ExecutionPlan; RuntimeExecutable; RuntimeBinary; LauncherBinary; DiagnosticObserver];
  pk_bounds : bounds_ok (dr_bounds parts);
  pk_arguments : (Z.of_nat (length (dr_arguments parts)) <= 256)%Z
    /\ Forall (fun s => (str_size s <= 65536)%Z /\ mkb 0 ∉ bytes_of s) (dr_arguments parts);
  pk_environment : Forall (fun value => environment_name_valid value = true) (dr_environment_names parts)
    /\ (Z.of_nat (length (set_of (dr_environment_names parts))) <= 256)%Z;
  pk_events : events_ok (dr_events parts) (dr_bounds parts) (dp_architecture (dr_platform parts)) (dr_gaps parts);
  pk_completion : dr_completion parts = RunResult.Complete <-> dr_gaps parts = [];
  pk_tcb : map dt_role (dr_trusted_computing_base parts) ≡ₚ DiagnosticTcbRole_ALL;
  pk_assumptions : dr_assumptions parts <> [] /\ (Z.of_nat (length (set_of (dr_assumptions parts))) <= 64)%Z
    /\ Forall (fun s => s <> "" /\ (str_size s <= 256)%Z) (dr_assumptions parts)
}.
Definition canonical_parts (parts : DiagnosticReceiptParts) : DiagnosticReceiptParts :=
  with_canonical_sets parts (set_of (dr_environment_names parts)) (set_of (dr_gaps parts))
    (Prelude.sort (dr_trusted_computing_base parts)) (set_of (dr_assumptions parts)).

Lemma validate_arguments_Ok arguments :
  validate_arguments arguments = Ok () <->
  (Z.of_nat (length arguments) <= 256)%Z
  /\ Forall (fun s => (str_size s <= 65536)%Z /\ mkb 0 ∉ bytes_of s) arguments.
Proof.
  unfold validate_arguments. destruct (256 <? _)%Z eqn:Hl; cbn [orb].
  { split; [done|]. intros [? _]. lia. }
  apply Z.ltb_ge in Hl. transitivity (existsb (fun value => (65536 <? str_size value)%Z
    || bool_decide (mkb 0 ∈ bytes_of value)) arguments = false); [by destruct (existsb _ _)|].
  rewrite existsb_false. split.
  - intros H. split; [done|]. eapply Forall_impl; [exact H|]. intros s [? ?%bool_decide_eq_false]%orb_false_iff. split; [lia|done].
  - intros [_ H]. eapply Forall_impl; [exact H|]. intros s [Hs Hn]. apply orb_false_iff.
    split; [lia|by apply bool_decide_eq_false].
Qed.
Lemma assumptions_Ok values l :
  canonical_nonempty_text_set values 64 256 = Ok l <->
  (values <> [] /\ (Z.of_nat (length (set_of values)) <= 64)%Z
   /\ Forall (fun s => s <> "" /\ (str_size s <= 256)%Z) values) /\ l = set_of values.
Proof.
  unfold canonical_nonempty_text_set. destruct (set_of_spec values) as [_ He].
  assert (set_of values = [] <-> values = []) as Hnil.
  { split; intros H; [|by subst]. destruct values as [|v values]; [done|].
    exfalso. apply (not_elem_of_nil v). rewrite <- H. apply He. left. }
  assert (existsb (fun value => is_empty_string value || (256 <? str_size value)%Z) (set_of values) = false
    <-> Forall (fun s => s <> "" /\ (str_size s <= 256)%Z) values) as Hex.
  { rewrite existsb_false, !Forall_forall. setoid_rewrite He.
    assert (forall s, is_empty_string s || (256 <? str_size s)%Z = false <-> s <> "" /\ (str_size s <= 256)%Z) as Hs;
      [|by setoid_rewrite Hs].
    intros s. rewrite orb_false_iff, Z.ltb_ge. unfold is_empty_string. by rewrite String.eqb_neq. }
  rewrite <- Hnil, <- Hex.
  destruct (bool_decide (set_of values = [])) eqn:H1;
    [apply bool_decide_eq_true in H1|apply bool_decide_eq_false in H1]; cbn [orb]; [naive_solver|].
  destruct (64 <? _)%Z eqn:H2; cbn [orb]; [split; [done|intros [(_ & ? & _) _]; lia]|].
  apply Z.ltb_ge in H2. destruct (existsb _ _); (split; [|by intros [(_ & _ & ?) ->]]); intros [= <-].
  split; [|done]. split; [done|]. split; [done|done].
Qed.

Section construct.
Context `{SerdeWriterLaws} (sha256 : list byte -> list byte).

Definition receipt_text (parts : DiagnosticReceiptParts) : list byte :=
  json_text (Json_Object (receipt_members (canonical_parts parts) (dr_bounds parts))).
Definition receipt_of (parts : DiagnosticReceiptParts) : DiagnosticReceipt :=
  let text := receipt_text parts in
  mkDiagnosticReceipt text (mkSha256Digest (sha256 text)) (da_digest (dr_seed_plan parts)) (dr_arguments parts)
    (set_of (dr_environment_names parts)) (dr_events parts) (set_of (dr_gaps parts)) (output_bytes (dr_bounds parts)).

Lemma encode_receipt_Ok parts bounds bytes :
  bounds_ok bounds ->
  encode_receipt parts bounds = Ok bytes <->
  bytes = json_text (Json_Object (receipt_members parts bounds)) /\ (Z.of_nat (length bytes) <= output_bytes bounds)%Z.
Proof.
  intros (_ & _ & Hb & _). unfold encode_receipt.
  rewrite map_err_Ok, write_document_exact by (unfold u64_bound; lia). rewrite receipt_pieces_text.
  destruct (_ <=? _)%Z eqn:Hl; [apply Z.leb_le in Hl|apply Z.leb_gt in Hl].
  - split; [intros [= <-]; done|by intros [-> _]].
  - split; [done|]. intros [-> ?]. lia.
Qed.
Lemma diag_require_role_Ok artifact role : require_role artifact role = Ok () <-> da_role artifact = role.
Proof. unfold require_role. case_bool_decide; naive_solver. Qed.
Lemma completion_test parts :
  (64 <? Z.of_nat (length (canonical_gaps (dr_gaps parts))))%Z
  || negb (Bool.eqb (completion_is_complete (dr_completion parts)) (bool_decide (canonical_gaps (dr_gaps parts) = []))) = false
  <-> (dr_completion parts = RunResult.Complete <-> dr_gaps parts = []).
Proof.
  rewrite canonical_gaps_set, (proj2 (Z.ltb_ge _ _)) by apply gaps_few. cbn [orb]. rewrite negb_false_iff, eqb_true_iff.
  assert (set_of (dr_gaps parts) = [] <-> dr_gaps parts = []) as Hg.
  { destruct (set_of_spec (dr_gaps parts)) as [_ He]. split; intros Hn; [|by rewrite Hn].
    destruct (dr_gaps parts) as [|g gaps]; [done|]. exfalso. apply (not_elem_of_nil g). rewrite <- Hn. apply He. left. }
  rewrite <- Hg. case_bool_decide; destruct (dr_completion parts); cbn; naive_solver.
Qed.

(** C10: a diagnostic receipt is constructed exactly from parts that are within
    their declared bounds and say whether they are complete, when its text fits the
    output bound; its bytes are then the canonical text of one JSON object over
    the canonical parts, and it carries their commitment. *)
Theorem diagnostic_receipt_exact parts receipt :
  DiagnosticReceipt_construct sha256 parts = Ok receipt <->
  parts_ok parts /\ (Z.of_nat (length (receipt_text parts)) <= output_bytes (dr_bounds parts))%Z
  /\ receipt = receipt_of parts.
Proof.
  unfold DiagnosticReceipt_construct. rewrite canonical_gaps_set. split.
  - intros Hc. apply bind_Ok in Hc as ([] & R1%diag_require_role_Ok & Hc). apply bind_Ok in Hc as ([] & R2%diag_require_role_Ok & Hc).
    apply bind_Ok in Hc as ([] & R3%diag_require_role_Ok & Hc). apply bind_Ok in Hc as ([] & R4%diag_require_role_Ok & Hc).
    apply bind_Ok in Hc as ([] & R5%diag_require_role_Ok & Hc).
    apply bind_Ok in Hc as (b & [-> Hb]%ObservationBounds_validate_Ok & Hc).
    apply bind_Ok in Hc as ([] & Ha%validate_arguments_Ok & Hc).
    apply bind_Ok in Hc as (names & (Hn & Hn' & ->)%canonical_environment_names_Ok & Hc).
    apply bind_Ok in Hc as ([] & Hev%validate_events_Ok & Hc).
    destruct (_ || _) eqn:Hcomp; [done|]. rewrite <- canonical_gaps_set in Hcomp. apply completion_test in Hcomp.
    apply bind_Ok in Hc as ([] & Ht%diag_validate_tcb_Ok & Hc).
    apply bind_Ok in Hc as (assumptions & [Has ->]%assumptions_Ok & Hc).
    apply bind_Ok in Hc as (bytes & He & [= <-]).
    apply (encode_receipt_Ok (canonical_parts parts)) in He as [-> Hle]; [|done].
    split; [|split; [exact Hle|reflexivity]]. constructor; try done; [by rewrite R1, R2, R3, R4, R5|].
    destruct (set_of_spec (dr_gaps parts)) as [_ Hg]. destruct Hev as [E1 E2 E3 E4 E5 E6 E7 E8 E9].
    constructor; try done; intros Hin%Hg; auto.
  - intros ([Hr Hb [Ha Ha'] [Hn Hn'] Hev Hcomp Ht Has] & Hle & ->). injection Hr as R1 R2 R3 R4 R5.
    rewrite (proj2 (diag_require_role_Ok _ _) R1), (proj2 (diag_require_role_Ok _ _) R2), (proj2 (diag_require_role_Ok _ _) R3),
      (proj2 (diag_require_role_Ok _ _) R4), (proj2 (diag_require_role_Ok _ _) R5).
    cbn [mbind result_bind]. rewrite (proj2 (ObservationBounds_validate_Ok _ _) (conj eq_refl Hb)).
    cbn [mbind result_bind]. rewrite (proj2 (validate_arguments_Ok _) (conj Ha Ha')).
    cbn [mbind result_bind]. rewrite (proj2 (canonical_environment_names_Ok _ _) (conj Hn (conj Hn' eq_refl))).
    cbn [mbind result_bind].
    assert (validate_events (dr_events parts) (dr_bounds parts) (dp_architecture (dr_platform parts))
      (set_of (dr_gaps parts)) = Ok ()) as ->.
    { apply validate_events_Ok. destruct (set_of_spec (dr_gaps parts)) as [_ Hg]. destruct Hev as [E1 E2 E3 E4 E5 E6 E7 E8 E9].
      constructor; try done; intros Hin%Hg; auto. }
    cbn [mbind result_bind]. apply completion_test in Hcomp. rewrite canonical_gaps_set in Hcomp. rewrite Hcomp.
    rewrite (proj2 (diag_validate_tcb_Ok _) Ht). cbn [mbind result_bind].
    rewrite (proj2 (assumptions_Ok _ _) (conj Has eq_refl)). cbn [mbind result_bind].
    change (with_canonical_sets _ _ _ _ _) with (canonical_parts parts).
    rewrite (proj2 (encode_receipt_Ok (canonical_parts parts) (dr_bounds parts) _ Hb) (conj eq_refl Hle)). done.
Qed.
End construct.

(** * Normalized paths *)

Lemma no_double_slash l c cs :
  split_on "/"%char l = c :: cs -> Forall (fun c => c <> []) cs -> contains_double_slash l = false.
Proof.
  revert c cs. induction l as [|b l IH]; intros c cs Hs Hcs; [done|]. cbn in Hs |- *.
  destruct (split_on_cons "/"%char l) as (d & ds & Hd). rewrite Hd in Hs.
  case_bool_decide as Hb; injection Hs as <- <-.
  - apply Forall_cons in Hcs as [Hd0 Hds]. rewrite (IH d ds Hd Hds), orb_false_r.
    apply bool_decide_eq_false_2. destruct l as [|e l]; [done|]. cbn. intros [= ->]. cbn in Hd. by injection Hd as <- _.
  - by rewrite (IH d ds Hd Hcs).
Qed.
Lemma nonempty_parts l :
  Forall (fun c => c <> []) (split_on "/"%char l) ->
  contains_double_slash ("/"%char :: l) = false /\ last_byte ("/"%char :: l) <> Some "/"%char.
Proof.
  intros Hf. destruct (split_on_cons "/"%char l) as (c & cs & Hc). split.
  - apply (no_double_slash _ [] (split_on "/"%char l)); [cbn; by rewrite bool_decide_eq_true_2|done].
  - intros Hl. assert (l <> []) as Hne by (intros ->; cbn in Hf; by apply Forall_cons in Hf as [? _]).
    assert (last_byte l = Some "/"%char) as [ps Hps]%ends_with_separator.
    { destruct (exists_last Hne) as (k & b & ->). rewrite app_comm_cons in Hl. by rewrite last_byte_snoc in Hl |- *. }
    rewrite Hps in Hf. apply Forall_app in Hf as [_ Hf]. by apply Forall_cons in Hf as [? _].
Qed.
Lemma proper_component_spec c : proper_component c = true <-> bad_component c = false.
Proof. unfold proper_component, bad_component. repeat case_bool_decide; naive_solver. Qed.

(** A path is normalized exactly when it is the root or the components of a path
    below it, none of them empty, a dot or two dots, each after one separator. *)
Theorem normalized_path_exact path :
  is_normalized_absolute_path path = true
  <-> exists cs, Forall path_component cs /\ bytes_of path = "/"%char :: join_with "/"%char cs.
Proof.
  unfold is_normalized_absolute_path. split.
  - destruct (bytes_of path) as [|b l] eqn:Hl; [done|]. cbn [head].
    destruct (bool_decide (Some b = Some "/"%char)) eqn:Hb; [|done].
    apply bool_decide_eq_true in Hb as [= ->]. cbn [negb orb].
    destruct (bool_decide (mkb 0 ∈ _)) eqn:Hn; [done|]. apply bool_decide_eq_false in Hn. cbn [orb].
    destruct (_ || contains_double_slash _); [done|].
    intros [Hp|Hp]%orb_true_iff; (destruct (components_exist l) as (cs & Hcs & ->); [by intros ?; apply Hn; right| |by exists cs]).
    + apply String.eqb_eq in Hp. subst. injection Hl as <-. by left.
    + right. cbn [split_on] in Hp. rewrite bool_decide_eq_true_2 in Hp by done. cbn [drop] in Hp.
      apply forallb_Forall' in Hp. eapply Forall_impl; [exact Hp|]. intros c. apply proper_component_spec.
  - intros (cs & Hcs & Hl). rewrite Hl. cbn [head]. rewrite bool_decide_eq_true_2 by done. cbn [negb orb].
    destruct (components_accepted cs Hcs) as [Hn Hp].
    rewrite bool_decide_eq_false_2 by (rewrite elem_of_cons; intros [?%nul_ne_slash|?]; done). cbn [orb].
    destruct Hp as [He|Hp].
    + rewrite He in Hl |- *. assert (path = "/") as -> by (by apply string_bytes_inj). done.
    + assert (Forall (fun c => c <> []) (split_on "/"%char (join_with "/"%char cs))) as Hne.
      { eapply Forall_impl; [exact Hp|]. intros c Hc. exact (proj1 (proj1 (bad_component_spec c) Hc)). }
      destruct (nonempty_parts _ Hne) as [H1 H2]. rewrite H1, (bool_decide_eq_false_2 _ H2), andb_false_r. cbn [orb split_on].
      rewrite bool_decide_eq_true_2 by done. cbn [drop]. apply orb_true_iff. right. apply forallb_Forall'.
      eapply Forall_impl; [exact Hp|]. intros c. apply proper_component_spec.
Qed.

(** * Events *)

(** How an object was resolved, and what such an event shows. *)
Inductive resolved_as (operands : ObservationOperands) (outcome : ObservationOutcome) :
    RunResult.ObservationResolution -> option string -> option ObservedObjectIdentity -> option ObservedObjectIdentity -> Prop :=
| by_kernel value path object supplied :
    outcome = Returned value -> ObservationOperands_path operands = Some supplied ->
    resolved_as operands outcome RunResult.KernelSelected (Some path) None (Some object)
| as_candidate p error path object supplied hops :
    outcome = Failed error -> operands = Path p -> po_path p = Some supplied -> po_symlink_hops p = Some hops ->
    resolved_as operands outcome RunResult.StableCandidate (Some path) (Some object) (Some object)
| unresolved : resolved_as operands outcome RunResult.Unresolved None None None
| redacted :
    ObservationOperands_path operands = None ->
    (forall address descriptor payload, operands <> SocketAddress (Some address) descriptor payload) ->
    resolved_as operands outcome RunResult.Redacted None None None.
Lemma resolution_invalid_spec resolution operands outcome path before after :
  resolution_invalid resolution operands outcome path before after = false
  <-> resolved_as operands outcome resolution path before after.
Proof.
  split.
  - destruct resolution; cbn; rewrite ?orb_false_iff, ?negb_false_iff, ?bool_decide_eq_false, ?bool_decide_eq_true.
    + intros [[[[Ho Hp] Hb] Ha] Hh]. destruct before; [by destruct Hb|].
      destruct outcome, path, after; try done.
      destruct operands as [[? ? ? ? ? [supplied|] ? ?]| | |]; try done. by econstructor.
    + intros [[[[Ho Hp] Hb] Ha] Hh]. destruct outcome, path, before; try done. subst after.
      destruct operands as [[? ? ? ? ? [supplied|] ? [hops|]]| | |]; try done. by econstructor.
    + intros [[Hp Hb] Ha]. destruct path, before, after; try (exfalso; eauto; fail). constructor.
    + intros [[[Hp Hb] Ha] Hr]. destruct path, before, after; try (exfalso; eauto; fail). constructor.
      * destruct operands as [[? ? ? ? ? [supplied|] ? ?]| | |]; done.
      * intros address d n ->. done.
  - intros [v p o s -> Hs|p e q o s h -> -> Hs Hh| |Hs Hn]; cbn; try done.
    + destruct operands as [[]| | |]; cbn in *; try done. by subst.
    + rewrite Hs, Hh. by rewrite bool_decide_eq_true_2.
    + destruct operands as [[]| |[a|]|]; cbn in *; try done; [by subst|by destruct (Hn a descriptor payload_bytes)].
Qed.

(** C12: an event is accepted exactly when its operands are those of its class, its
    error number is positive, it shows what its resolution claims, and the path it
    was resolved to is normalized. *)
Theorem diagnostic_event_exact sequence process architecture class operands outcome resolution path before after event :
  DiagnosticEvent_new sequence process architecture class operands outcome resolution path before after = Ok event
  <-> process <> 0%Z /\ operand_kind class = ObservationOperands_kind operands /\ outcome <> Failed 0
      /\ resolved_as operands outcome resolution path before after
      /\ (forall p, path = Some p -> is_normalized_absolute_path p = true)
      /\ event = mkDiagnosticEvent sequence process architecture class operands outcome resolution path before after.
Proof.
  unfold DiagnosticEvent_new, ObservationOutcome_validate. rewrite <- resolution_invalid_spec.
  assert ((forall p, path = Some p -> is_normalized_absolute_path p = true)
    <-> is_some_and (fun path => negb (is_normalized_absolute_path path)) path = false) as ->.
  { rewrite is_some_and_false. by setoid_rewrite negb_false_iff. }
  destruct (Z.eqb_spec process 0) as [->|Hp]; cbn [orb]; [naive_solver|].
  destruct (bool_decide (operand_kind class = _)) eqn:Hk; cbn [negb];
    [apply bool_decide_eq_true in Hk|apply bool_decide_eq_false in Hk; naive_solver].
  case_bool_decide as Ho; cbn [mbind result_bind]; [naive_solver|].
  destruct (resolution_invalid _ _ _ _ _ _); [naive_solver|]. destruct (is_some_and _ _); [naive_solver|].
  split; [intros [= <-]; done|]. by intros (_ & _ & _ & _ & _ & ->).
Qed.

Lemma diagnostic_receipt_exact_witness :
  exists receipt, @DiagnosticReceipt_construct compact_writer fixture_sha256 fixture_parts = Ok receipt
    /\ parts_ok fixture_parts /\ rcp_bytes receipt = @receipt_text compact_writer fixture_parts.
Proof.
  destruct fixture_constructs as (receipt & Hc & _). exists receipt. split; [exact Hc|].
  destruct (proj1 (@diagnostic_receipt_exact compact_writer compact_laws fixture_sha256 fixture_parts receipt) Hc) as (Hp & _ & Hr).
  split; [exact Hp|]. by rewrite Hr.
Defined.

(** * Diagnostics are never evidence *)

Definition member_str (members : list (string * Json)) (key : string) : option string :=
  match List.find (fun kv => String.eqb kv.1 key) members with Some (_, Json_String s) => Some s | _ => None end.

(** C11: no verification accepts a diagnostic receipt: whatever commitment is expected,
    a verifier whose JSON parser reads the members of the receipt back refuses its
    bytes. *)
Theorem diagnostic_receipt_refused `{SerdeWriterLaws} {serde : VerifyDecode.SerdeJson}
    (scan : list byte -> option VerifyReceipt.JsonSyntax) (sha256 : list byte -> list byte)
    parts receipt expected report
    (Hread : forall value key, VerifyDecode.from_slice (receipt_text parts) = Ok value ->
      VerifyDecode.json_get_str value key = member_str (receipt_members (canonical_parts parts) (dr_bounds parts)) key)
    (Hc : DiagnosticReceipt_construct sha256 parts = Ok receipt) :
  VerifyReceipt.verify_receipt scan sha256 (rcp_bytes receipt) expected <> Ok report.
Proof.
  apply diagnostic_receipt_exact in Hc as (_ & _ & ->). cbn [rcp_bytes receipt_of].
  unfold VerifyReceipt.verify_receipt, VerifyReceipt.reject_diagnostic_profile.
  assert (VerifyReceipt.starts_with_brace (receipt_text parts) = true) as ->.
  { unfold receipt_text. rewrite text_object. done. }
  cbn [negb]. destruct (VerifyDecode.from_slice (receipt_text parts)) as [value|e] eqn:Hv; [|done].
  cbn [map_err mbind result_bind]. rewrite (Hread value "schema" eq_refl).
  rewrite bool_decide_eq_true_2 by (vm_compute; reflexivity). cbn [negb].
  destruct (VerifyReceipt.reject_duplicate_keys _ _); [|done]. cbn [map_err mbind result_bind].
  destruct (ok_or _ _); [|done]. cbn [mbind result_bind]. by destruct (negb _).
Qed.

(** A parser that knows the golden receipt. *)
Definition fixture_members : list (string * Json) := receipt_members (canonical_parts fixture_parts) (dr_bounds fixture_parts).
Definition fixture_serde : VerifyDecode.SerdeJson := {|
  VerifyDecode.Json := list (string * Json);
  VerifyDecode.json_string := fun _ => []; VerifyDecode.json_u64 := fun _ => []; VerifyDecode.json_i64 := fun _ => [];
  VerifyDecode.json_bool := fun _ => []; VerifyDecode.json_null := []; VerifyDecode.json_array := fun _ => [];
  VerifyDecode.json_object := fun _ => [];
  VerifyDecode.json_get_str := member_str;
  VerifyDecode.from_slice := fun bytes =>
    if bool_decide (bytes = diagnostic_receipt) then Ok fixture_members else Err VerifyDecode.Json_Syntax;
  VerifyDecode.from_value := fun _ => None; VerifyDecode.to_vec := fun _ => None
|}.
Lemma diagnostic_receipt_refused_witness :
  let commitment := mkReceiptCommitment [] in
  @VerifyReceipt.verify_receipt fixture_serde (fun _ => None) fixture_sha256 diagnostic_receipt commitment
  <> Ok (VerifyReceipt.mkVerificationReport commitment Eligibility.Verifier.Reusable).
Proof.
  intros commitment. destruct fixture_constructs as (receipt & Hc & Hb). rewrite <- Hb.
  apply (@diagnostic_receipt_refused compact_writer compact_laws fixture_serde (fun _ => None) fixture_sha256 fixture_parts receipt
    commitment (VerifyReceipt.mkVerificationReport commitment Eligibility.Verifier.Reusable)); [|exact Hc].
  intros value key. cbn [fixture_serde VerifyDecode.from_slice VerifyDecode.json_get_str]. case_bool_decide; [|done].
  intros [= <-]. reflexivity.
Defined.
