(* ===== verification/Observer.v ===== *)
(** The diagnostic observer protocol: [proofbound-runtime-diagnose/src/observer.rs].
    An operation of [ObserverProtocol] takes the state and returns the directive
    with the state after it; every error is found before the first assignment, so
    that an operation that fails leaves the state as it was. *)
From S2P Require Import Prelude Diagnostic.
From Stdlib Require Import Ascii ZArith Lia Sorted.
From stdpp Require Import prelude strings list numbers gmap.
Export stdpp.list_relations.list.

(** * Trace options and processes *)

Definition PTRACE_O_TRACESYSGOOD : Z := 0x00000001.
Definition PTRACE_O_TRACEFORK : Z := 0x00000002.
Definition PTRACE_O_TRACEVFORK : Z := 0x00000004.
Definition PTRACE_O_TRACECLONE : Z := 0x00000008.
Definition PTRACE_O_TRACEEXEC : Z := 0x00000010.
Definition PTRACE_O_EXITKILL : Z := 0x00100000.
Definition REQUIRED_TRACE_OPTIONS : Z :=
  Z.lor (Z.lor (Z.lor (Z.lor (Z.lor PTRACE_O_TRACESYSGOOD PTRACE_O_TRACEFORK) PTRACE_O_TRACEVFORK)
    PTRACE_O_TRACECLONE) PTRACE_O_TRACEEXEC) PTRACE_O_EXITKILL.

Inductive ObserverProtocolError :=
| BoundsInvalid | ProcessIdInvalid | ProcessTreeChanged | TransitionInvalid | TraceOptionsInvalid
| ProcessTreeNotDrained | TreeDrainNotConfirmed | ProtocolTerminal.
#[global] Instance ObserverProtocolError_eq_dec : EqDecision ObserverProtocolError.
Proof. solve_decision. Defined.
Definition ObserverProtocolError_code (e : ObserverProtocolError) : string :=
  match e with
  | BoundsInvalid => "diagnostic.observer.bounds-invalid"
  | ProcessIdInvalid => "diagnostic.observer.process-id-invalid"
  | ProcessTreeChanged => "diagnostic.observer.process-tree-changed"
  | TransitionInvalid => "diagnostic.observer.transition-invalid"
  | TraceOptionsInvalid => "diagnostic.observer.trace-options-invalid"
  | ProcessTreeNotDrained => "diagnostic.observer.process-tree-not-drained"
  | TreeDrainNotConfirmed => "diagnostic.observer.tree-drain-not-confirmed"
  | ProtocolTerminal => "diagnostic.observer.protocol-terminal"
  end.

(** A [NonZeroU32]. *)
Notation DiagnosticProcessId := Z (only parsing).
Definition DiagnosticProcessId_new (value : Z) : result ObserverProtocolError DiagnosticProcessId :=
  if (value =? 0)%Z then Err ProcessIdInvalid else Ok value.
Inductive ProcessCreationKind := Created_Clone | Created_Fork | Created_Vfork.
Record DiagnosticTraceOptions := mkDiagnosticTraceOptions { option_bits : Z }.
#[global] Instance DiagnosticTraceOptions_eq_dec : EqDecision DiagnosticTraceOptions.
Proof. solve_decision. Defined.
Definition DiagnosticTraceOptions_from_bits (bits : Z) : result ObserverProtocolError DiagnosticTraceOptions :=
  if (bits =? REQUIRED_TRACE_OPTIONS)%Z then Ok (mkDiagnosticTraceOptions bits) else Err TraceOptionsInvalid.
Definition DiagnosticTraceOptions_required : DiagnosticTraceOptions := mkDiagnosticTraceOptions REQUIRED_TRACE_OPTIONS.

(** * The protocol *)

Inductive ObserverProtocolState :=
| Prepared | Attached | BoundaryReady | OptionsEnabled | Released | Draining | Complete | Incomplete | FailedBeforeRelease.
#[global] Instance ObserverProtocolState_eq_dec : EqDecision ObserverProtocolState.
Proof. solve_decision. Defined.
Inductive ObserverDirective :=
| Continue | TerminateAndDrain | PublishComplete | PublishIncomplete | TerminateAndPublishNothing.
#[global] Instance ObserverDirective_eq_dec : EqDecision ObserverDirective.
Proof. solve_decision. Defined.

(** [processes] maps a process to the events of its [ProcessObservation]. *)
Record ObserverProtocol := mkObserverProtocol {
  state : ObserverProtocolState;
  bounds : ObservationBounds;
  root : DiagnosticProcessId;
  processes : gmap Z Z;
  seen_processes : gset Z;
  total_events : Z;
  gaps : list DiagnosticGap;
  tree_drain_confirmed : bool
}.
Definition with_state (s : ObserverProtocolState) (self : ObserverProtocol) : ObserverProtocol :=
  mkObserverProtocol s (bounds self) (root self) (processes self) (seen_processes self) (total_events self) (gaps self)
    (tree_drain_confirmed self).
Definition with_processes (p : gmap Z Z) (self : ObserverProtocol) : ObserverProtocol :=
  mkObserverProtocol (state self) (bounds self) (root self) p (seen_processes self) (total_events self) (gaps self)
    (tree_drain_confirmed self).
Definition with_seen (p : gset Z) (self : ObserverProtocol) : ObserverProtocol :=
  mkObserverProtocol (state self) (bounds self) (root self) (processes self) p (total_events self) (gaps self)
    (tree_drain_confirmed self).
Definition with_total (n : Z) (self : ObserverProtocol) : ObserverProtocol :=
  mkObserverProtocol (state self) (bounds self) (root self) (processes self) (seen_processes self) n (gaps self)
    (tree_drain_confirmed self).
Definition with_gap (gap : DiagnosticGap) (self : ObserverProtocol) : ObserverProtocol :=
  mkObserverProtocol (state self) (bounds self) (root self) (processes self) (seen_processes self) (total_events self)
    (set_insert gap (gaps self)) (tree_drain_confirmed self).
Definition with_confirmed (b : bool) (self : ObserverProtocol) : ObserverProtocol :=
  mkObserverProtocol (state self) (bounds self) (root self) (processes self) (seen_processes self) (total_events self)
    (gaps self) b.
Definition transition : Type := result ObserverProtocolError (ObserverDirective * ObserverProtocol).

Definition ObserverProtocol_new (root : DiagnosticProcessId) (bounds : ObservationBounds) :
    result ObserverProtocolError ObserverProtocol :=
  bounds ← map_err (fun _ => BoundsInvalid) (ObservationBounds_validate bounds);
  Ok (mkObserverProtocol Prepared bounds root {[root := 0%Z]} {[root]} 0 [] false).
Definition active_processes (self : ObserverProtocol) : Z := Z.of_nat (base.size (processes self)).
Definition tracks_process (self : ObserverProtocol) (process : DiagnosticProcessId) : bool :=
  bool_decide (process ∈ dom (processes self)).

Definition is_terminal (s : ObserverProtocolState) : bool :=
  match s with Complete | Incomplete | FailedBeforeRelease => true | _ => false end.
Definition require_state (self : ObserverProtocol) (required : ObserverProtocolState) : result ObserverProtocolError () :=
  if is_terminal (state self) then Err ProtocolTerminal
  else if negb (bool_decide (state self = required)) then Err TransitionInvalid
  else Ok ().
Definition require_observing (self : ObserverProtocol) : result ObserverProtocolError () :=
  match state self with
  | Released | Draining => Ok ()
  | Complete | Incomplete | FailedBeforeRelease => Err ProtocolTerminal
  | _ => Err TransitionInvalid
  end.
Definition stop_with_gap (self : ObserverProtocol) (gap : DiagnosticGap) : transition :=
  Ok (TerminateAndDrain, with_confirmed false (with_state Draining (with_gap gap self))).
(** The directive of a transition that is also possible while draining. *)
Definition continue_or_drain (self : ObserverProtocol) : transition :=
  if bool_decide (state self = Draining) then Ok (TerminateAndDrain, with_confirmed false self) else Ok (Continue, self).

Definition attach_root (self : ObserverProtocol) : transition :=
  _ ← require_state self Prepared; Ok (Continue, with_state Attached self).
Definition record_boundary_ready (self : ObserverProtocol) : transition :=
  _ ← require_state self Attached; Ok (Continue, with_state BoundaryReady self).
Definition enable_trace_options (self : ObserverProtocol) (options : DiagnosticTraceOptions) : transition :=
  _ ← require_state self BoundaryReady;
  if negb (bool_decide (options = DiagnosticTraceOptions_required)) then Err TraceOptionsInvalid
  else Ok (Continue, with_state OptionsEnabled self).
Definition release_target (self : ObserverProtocol) : transition :=
  _ ← require_state self OptionsEnabled; Ok (Continue, with_state Released self).
Definition discover_child (self : ObserverProtocol) (parent child : DiagnosticProcessId) (kind : ProcessCreationKind) : transition :=
  _ ← require_observing self;
  if negb (tracks_process self parent) then stop_with_gap self ChildLost
  else if bool_decide (child ∈ seen_processes self) then stop_with_gap self ObserverFailed
  else if (process_count (bounds self) <=? Z.of_nat (base.size (seen_processes self)))%Z then stop_with_gap self ProcessLimit
  else
    continue_or_drain
      (with_processes (<[child := 0%Z]> (processes self)) (with_seen ({[child]} ∪ seen_processes self) self)).
Definition record_event (self : ObserverProtocol) (process : DiagnosticProcessId) : transition :=
  _ ← require_observing self;
  if negb (tracks_process self process) then stop_with_gap self ChildLost
  else if bool_decide (state self = Draining) then Ok (TerminateAndDrain, with_confirmed false self)
  else
    let process_events := default 0%Z (processes self !! process) in
    let per_process_exhausted := (event_count_per_process (bounds self) <=? process_events)%Z in
    let total_exhausted := (event_count (bounds self) <=? total_events self)%Z in
    if per_process_exhausted || total_exhausted then
      let self := if per_process_exhausted then with_gap EventPerProcessLimit self else self in
      let self := if total_exhausted then with_gap EventLimit self else self in
      Ok (TerminateAndDrain, with_confirmed false (with_state Draining self))
    else
      observation ← ok_or (processes self !! process) ProcessTreeChanged;
      Ok (Continue, with_total (total_events self + 1)
            (with_processes (<[process := (observation + 1)%Z]> (processes self)) self)).
(** [superseded.iter().enumerate().all(|(index, process)| !superseded[..index].contains(process))] *)
Fixpoint no_repetition (seen superseded : list DiagnosticProcessId) : bool :=
  match superseded with
  | [] => true
  | process :: rest => negb (bool_decide (process ∈ seen)) && no_repetition (seen ++ [process]) rest
  end.
Definition identities_are_closed (self : ObserverProtocol) (former survivor : DiagnosticProcessId)
    (superseded : list DiagnosticProcessId) : bool :=
  let survivor_is_replaced := bool_decide (survivor ∈ superseded) in
  tracks_process self former && negb (bool_decide (former ∈ superseded))
  && forallb (tracks_process self) superseded && no_repetition [] superseded
  && ((bool_decide (former = survivor) && negb survivor_is_replaced)
      || (negb (bool_decide (former = survivor)) && survivor_is_replaced)).
Definition record_exec (self : ObserverProtocol) (former survivor : DiagnosticProcessId)
    (superseded : list DiagnosticProcessId) : transition :=
  _ ← require_observing self;
  if negb (identities_are_closed self former survivor superseded) then stop_with_gap self ObserverFailed
  else
    observation ← ok_or (processes self !! former) ProcessTreeChanged;
    let remaining := foldl (fun m process => delete process m) (delete former (processes self)) superseded in
    continue_or_drain
      (with_seen ({[survivor]} ∪ seen_processes self) (with_processes (<[survivor := observation]> remaining) self)).
Definition record_process_exit (self : ObserverProtocol) (process : DiagnosticProcessId) : transition :=
  _ ← require_observing self;
  if negb (tracks_process self process) then stop_with_gap self ChildLost
  else
    let self := with_processes (delete process (processes self)) self in
    if bool_decide (state self = Draining) then Ok (TerminateAndDrain, self) else Ok (Continue, self).
Definition record_unexpected_stop (self : ObserverProtocol) (process : DiagnosticProcessId) : transition :=
  _ ← require_observing self;
  stop_with_gap self (if tracks_process self process then UnexpectedStop else ChildLost).
Definition record_observer_failure (self : ObserverProtocol) : transition :=
  match state self with
  | Prepared | Attached | BoundaryReady | OptionsEnabled =>
    Ok (TerminateAndPublishNothing, with_state FailedBeforeRelease self)
  | Released | Draining => stop_with_gap self ObserverFailed
  | Complete | Incomplete | FailedBeforeRelease => Err ProtocolTerminal
  end.
Definition confirm_tree_drained (self : ObserverProtocol) : transition :=
  _ ← require_state self Draining;
  if negb (bool_decide (processes self = ∅)) then Err ProcessTreeNotDrained
  else Ok (Continue, with_confirmed true self).
Definition finish (self : ObserverProtocol) : transition :=
  _ ← require_observing self;
  if negb (bool_decide (processes self = ∅)) then Err ProcessTreeNotDrained
  else if bool_decide (state self = Draining) && negb (tree_drain_confirmed self) then Err TreeDrainNotConfirmed
  else if bool_decide (gaps self = []) then Ok (PublishComplete, with_state Complete self)
  else Ok (PublishIncomplete, with_state Incomplete self).

(** * Runs *)

Inductive operation :=
| Op_attach_root | Op_boundary_ready | Op_enable (options : DiagnosticTraceOptions) | Op_release
| Op_child (parent child : DiagnosticProcessId) (kind : ProcessCreationKind)
| Op_event (process : DiagnosticProcessId)
| Op_exec (former survivor : DiagnosticProcessId) (superseded : list DiagnosticProcessId)
| Op_exit (process : DiagnosticProcessId)
| Op_unexpected_stop (process : DiagnosticProcessId)
| Op_failure | Op_drained | Op_finish.
Definition apply (op : operation) (self : ObserverProtocol) : transition :=
  match op with
  | Op_attach_root => attach_root self
  | Op_boundary_ready => record_boundary_ready self
  | Op_enable options => enable_trace_options self options
  | Op_release => release_target self
  | Op_child parent child kind => discover_child self parent child kind
  | Op_event process => record_event self process
  | Op_exec former survivor superseded => record_exec self former survivor superseded
  | Op_exit process => record_process_exit self process
  | Op_unexpected_stop process => record_unexpected_stop self process
  | Op_failure => record_observer_failure self
  | Op_drained => confirm_tree_drained self
  | Op_finish => finish self
  end.
(** A call of the adapter; [?] ends the run at the first error. *)
Fixpoint run (ops : list operation) (self : ObserverProtocol) : result ObserverProtocolError ObserverProtocol :=
  match ops with
  | [] => Ok self
  | op :: ops => next ← apply op self; run ops next.2
  end.
Inductive reachable (root : DiagnosticProcessId) (limits : ObservationBounds) : ObserverProtocol -> Prop :=
| reach_new self : ObserverProtocol_new root limits = Ok self -> reachable root limits self
| reach_step self op directive next :
    reachable root limits self -> apply op self = Ok (directive, next) -> reachable root limits next.

(** * The invariant *)

Definition unreleased (s : ObserverProtocolState) : bool :=
  match s with Prepared | Attached | BoundaryReady | OptionsEnabled | FailedBeforeRelease => true | _ => false end.
Record observer_ok (self : ObserverProtocol) : Prop := {
  ob_bounds : (1 <= event_count (bounds self) /\ 1 <= event_count_per_process (bounds self) /\ 1 <= process_count (bounds self))%Z;
  ob_tracked : dom (processes self) ⊆ seen_processes self;
  ob_seen : (Z.of_nat (base.size (seen_processes self)) <= process_count (bounds self))%Z;
  ob_events : map_Forall (fun _ n => (0 <= n <= event_count_per_process (bounds self))%Z) (processes self);
  ob_total : (0 <= total_events self <= event_count (bounds self))%Z;
  ob_gaps : StronglySorted (fun a b => rlt a b = true) (gaps self);
  ob_event_limit : EventLimit ∈ gaps self -> total_events self = event_count (bounds self);
  ob_process_limit : ProcessLimit ∈ gaps self ->
    Z.of_nat (base.size (seen_processes self)) = process_count (bounds self);
  ob_unreleased : unreleased (state self) = true ->
    processes self = {[root self := 0%Z]} /\ seen_processes self = {[root self]} /\ total_events self = 0%Z /\ gaps self = [];
  ob_complete : state self = Complete \/ state self = Released -> gaps self = [];
  ob_incomplete : state self = Draining \/ state self = Incomplete -> gaps self <> [];
  ob_empty : state self = Complete \/ state self = Incomplete -> processes self = ∅;
  ob_confirmed : tree_drain_confirmed self = true ->
    (state self = Draining \/ state self = Incomplete) /\ processes self = ∅;
  ob_published : state self = Incomplete -> tree_drain_confirmed self = true
}.

Lemma set_insert_not_nil `{LawfulOrd A} (x : A) l : set_insert x l <> [].
Proof. intros Hn. apply (not_elem_of_nil x). rewrite <- Hn. apply elem_of_set_insert. by left. Qed.
Lemma require_state_Ok self s u : require_state self s = Ok u -> state self = s /\ is_terminal s = false.
Proof.
  unfold require_state. destruct (is_terminal (state self)) eqn:Ht; [done|]. case_bool_decide as Hs; [|done].
  intros _. by subst s.
Qed.
Lemma require_observing_Ok self u : require_observing self = Ok u -> state self = Released \/ state self = Draining.
Proof. unfold require_observing. destruct (state self); naive_solver. Qed.
Lemma require_observing_Released self : state self = Released -> require_observing self = Ok ().
Proof. unfold require_observing. by intros ->. Qed.

(** The gap that a stop records is consistent with the counters. *)
Definition gap_justified (self : ObserverProtocol) (gap : DiagnosticGap) : Prop :=
  (gap = EventLimit -> total_events self = event_count (bounds self))
  /\ (gap = ProcessLimit -> Z.of_nat (base.size (seen_processes self)) = process_count (bounds self)).
Lemma with_gap_justified self gap :
  observer_ok self -> gap_justified self gap ->
  StronglySorted (fun a b => rlt a b = true) (gaps (with_gap gap self))
  /\ gaps (with_gap gap self) <> []
  /\ (EventLimit ∈ gaps (with_gap gap self) -> total_events self = event_count (bounds self))
  /\ (ProcessLimit ∈ gaps (with_gap gap self) -> Z.of_nat (base.size (seen_processes self)) = process_count (bounds self)).
Proof.
  intros Hok [He Hp]. cbn. split; [by apply set_insert_strict, Hok|]. split; [apply set_insert_not_nil|].
  rewrite !elem_of_set_insert. split; intros [<-|Hin]; auto; by apply Hok.
Qed.
(** Every stop of an observation keeps the invariant. *)
Lemma drain_ok self self' :
  observer_ok self -> state self = Released \/ state self = Draining ->
  bounds self' = bounds self -> processes self' = processes self -> seen_processes self' = seen_processes self ->
  total_events self' = total_events self -> state self' = Draining -> tree_drain_confirmed self' = false ->
  StronglySorted (fun a b => rlt a b = true) (gaps self') -> gaps self' <> [] ->
  (EventLimit ∈ gaps self' -> total_events self = event_count (bounds self)) ->
  (ProcessLimit ∈ gaps self' -> Z.of_nat (base.size (seen_processes self)) = process_count (bounds self)) ->
  observer_ok self'.
Proof.
  intros [] Hs Hb Hp Hse Ht Hst Hc Hsort Hne He Hpl.
  constructor; rewrite ?Hb, ?Hp, ?Hse, ?Ht, ?Hst, ?Hc; try done; by intros [?|?].
Qed.
Lemma stop_with_gap_ok self gap directive next :
  observer_ok self -> state self = Released \/ state self = Draining -> gap_justified self gap ->
  stop_with_gap self gap = Ok (directive, next) -> observer_ok next.
Proof.
  intros Hok Hs Hg [= <- <-]. destruct (with_gap_justified self gap Hok Hg) as (H1 & H2 & H3 & H4).
  by apply (drain_ok self).
Qed.
Lemma unjustified_gap self gap : gap <> EventLimit -> gap <> ProcessLimit -> gap_justified self gap.
Proof. by intros ??. Qed.
(** The operation stopped with a gap that no counter has to justify. *)
Ltac stopped H :=
  eapply stop_with_gap_ok; [| | |exact H]; [eassumption|eassumption|by apply unjustified_gap].

(** A change of the processes during observation. *)
Lemma observing_ok self self' :
  observer_ok self -> state self = Released \/ state self = Draining ->
  state self' = state self -> bounds self' = bounds self -> gaps self' = gaps self ->
  (tree_drain_confirmed self' = true -> tree_drain_confirmed self = true /\ processes self' = ∅) ->
  dom (processes self') ⊆ seen_processes self' ->
  (Z.of_nat (base.size (seen_processes self')) <= process_count (bounds self))%Z ->
  map_Forall (fun _ n => (0 <= n <= event_count_per_process (bounds self))%Z) (processes self') ->
  (0 <= total_events self' <= event_count (bounds self))%Z ->
  (EventLimit ∈ gaps self -> total_events self' = event_count (bounds self)) ->
  (ProcessLimit ∈ gaps self -> Z.of_nat (base.size (seen_processes self')) = process_count (bounds self)) ->
  observer_ok self'.
Proof.
  intros [] Hs Hst Hb Hg Hc Hd Hz Hf Ht He Hp.
  assert (unreleased (state self) = false /\ (state self = Complete \/ state self = Incomplete -> False)) as [Hu Hn]
    by (destruct Hs as [-> | ->]; split; [done|by intros [?|?]|done|by intros [?|?]]).
  constructor; rewrite ?Hb, ?Hg, ?Hst; try done.
  - by rewrite Hu.
  - intros [Hco Hpr]%Hc. split; [by apply ob_confirmed0|done].
  - intros H. destruct (Hn (or_intror H)).
Qed.

Lemma early_ok self s :
  observer_ok self -> unreleased (state self) = true -> unreleased s = true \/ s = Released -> observer_ok (with_state s self).
Proof.
  intros Hok Hu Hs. pose proof Hok as []. destruct (ob_unreleased0 Hu) as (_ & _ & _ & Hg).
  assert (tree_drain_confirmed self <> true) as Hc.
  { intros [[Hd|Hd] _]%ob_confirmed0; by rewrite Hd in Hu. }
  constructor; cbn; try done; try solve [intros _; auto].
  - intros [-> | ->]; by destruct Hs.
  - intros [-> | ->]; by destruct Hs.
  - intros ->. by destruct Hs.
Qed.
(** The two operations that pass a transition also while draining. *)
Lemma continue_or_drain_ok self self' directive next :
  observer_ok self -> state self = Released \/ state self = Draining ->
  state self' = state self -> bounds self' = bounds self -> gaps self' = gaps self ->
  (state self = Released -> tree_drain_confirmed self' = tree_drain_confirmed self) ->
  dom (processes self') ⊆ seen_processes self' ->
  (Z.of_nat (base.size (seen_processes self')) <= process_count (bounds self))%Z ->
  map_Forall (fun _ n => (0 <= n <= event_count_per_process (bounds self))%Z) (processes self') ->
  total_events self' = total_events self ->
  (ProcessLimit ∈ gaps self -> Z.of_nat (base.size (seen_processes self')) = process_count (bounds self)) ->
  continue_or_drain self' = Ok (directive, next) -> observer_ok next.
Proof.
  intros Hok Hs Hst Hb Hg Hc Hd Hz Hf Ht Hp. pose proof Hok as []. unfold continue_or_drain. rewrite Hst.
  case_bool_decide as Hdr; intros [= <- <-].
  - apply (observing_ok self); cbn; try done; rewrite Ht; done.
  - assert (state self = Released) as Hr by (by destruct Hs). specialize (Hc Hr).
    apply (observing_ok self); try done; try (rewrite Ht; done).
    rewrite Hc. intros [[?|?] _]%ob_confirmed0; congruence.
Qed.
Lemma size_insert_seen (child : Z) (seen : gset Z) : child ∉ seen -> base.size ({[child]} ∪ seen) = S (base.size seen).
Proof. intros Hn. rewrite size_union by set_solver. by rewrite size_singleton. Qed.
Lemma discover_child_ok self parent child kind directive next :
  observer_ok self -> discover_child self parent child kind = Ok (directive, next) -> observer_ok next.
Proof.
  intros Hok H. pose proof Hok as []. unfold discover_child in H.
  apply bind_Ok in H as (u & Hs%require_observing_Ok & H).
  destruct (tracks_process self parent); [|stopped H]. cbn [negb] in H.
  case_bool_decide as Hseen; [stopped H|].
  destruct (_ <=? _)%Z eqn:Hl.
  { eapply stop_with_gap_ok; [done|done| |exact H]. split; [done|]. intros _. lia. }
  apply Z.leb_gt in Hl. refine (continue_or_drain_ok self _ _ _ Hok Hs _ _ _ _ _ _ _ _ _ H); cbn; try done.
  - rewrite dom_insert_L. set_solver.
  - rewrite size_insert_seen by done. lia.
  - apply map_Forall_insert_2; [lia|done].
  - intros Hin%ob_process_limit0. lia.
Qed.
Lemma record_event_ok self process directive next :
  observer_ok self -> record_event self process = Ok (directive, next) -> observer_ok next.
Proof.
  intros Hok H. pose proof Hok as []. unfold record_event in H.
  apply bind_Ok in H as (u & Hs%require_observing_Ok & H).
  destruct (tracks_process self process) eqn:Htr; [|stopped H]. cbn [negb] in H.
  case_bool_decide as Hd.
  { injection H as <- <-. apply (observing_ok self); cbn; try done. }
  assert (state self = Released) as Hr by (by destruct Hs).
  assert (gaps self = []) as Hg by auto.
  apply bool_decide_eq_true, elem_of_dom in Htr as [n Hn]. rewrite Hn in H. cbn in H.
  destruct (event_count_per_process (bounds self) <=? n)%Z eqn:Hp, (event_count (bounds self) <=? total_events self)%Z eqn:Ht;
    cbn [orb] in H.
  1-3: injection H as <- <-; apply (drain_ok self); cbn; rewrite ?Hg; try done; try (repeat constructor; done);
    rewrite ?elem_of_set_insert; intros Hin; try lia;
    repeat (destruct Hin as [Hin|Hin]; [discriminate Hin|]); by apply not_elem_of_nil in Hin.
  injection H as <- <-. apply (observing_ok self); cbn; try done.
  - intros [[?|?] _]%ob_confirmed0; congruence.
  - rewrite dom_insert_L. intros p [->%elem_of_singleton|?]%elem_of_union; apply ob_tracked0; [by apply elem_of_dom|done].
  - apply map_Forall_insert_2; [|done]. specialize (ob_events0 _ _ Hn). cbn in ob_events0. lia.
  - lia.
  - rewrite Hg. by intros ?%not_elem_of_nil.
Qed.
Lemma foldl_delete_subseteq (l : list Z) (m : gmap Z Z) : foldl (fun m p => delete p m) m l ⊆ m.
Proof.
  revert m. induction l as [|p l IH]; intros m; [done|]. cbn [foldl].
  etransitivity; [apply IH|apply delete_subseteq].
Qed.
Lemma tracks_process_spec self process : tracks_process self process = true <-> process ∈ dom (processes self).
Proof. apply bool_decide_eq_true. Qed.
Lemma identities_are_closed_tracked self former survivor superseded :
  identities_are_closed self former survivor superseded = true ->
  former ∈ dom (processes self) /\ survivor ∈ dom (processes self).
Proof.
  unfold identities_are_closed. rewrite !andb_true_iff, orb_true_iff, !andb_true_iff, !tracks_process_spec, !bool_decide_eq_true.
  intros [[[[Hf _] Hall] _] [[<- _]|[_ Hin]]]; (split; [done|]); [done|].
  apply forallb_Forall' in Hall. rewrite Forall_forall in Hall. apply tracks_process_spec. by apply Hall.
Qed.
Lemma record_exec_ok self former survivor superseded directive next :
  observer_ok self -> record_exec self former survivor superseded = Ok (directive, next) -> observer_ok next.
Proof.
  intros Hok H. pose proof Hok as []. unfold record_exec in H.
  apply bind_Ok in H as (u & Hs%require_observing_Ok & H).
  destruct (identities_are_closed _ _ _ _) eqn:Hcl; [|stopped H]. cbn [negb] in H.
  apply identities_are_closed_tracked in Hcl as [[n Hn]%elem_of_dom Hsv].
  rewrite Hn in H. cbn [ok_or mbind result_bind] in H.
  assert ({[survivor]} ∪ seen_processes self = seen_processes self) as Hseen by set_solver.
  pose proof (foldl_delete_subseteq superseded (delete former (processes self))) as Hsub.
  assert (foldl (fun m p => delete p m) (delete former (processes self)) superseded ⊆ processes self) as Hsub'
    by (etransitivity; [exact Hsub|apply delete_subseteq]).
  refine (continue_or_drain_ok self _ _ _ Hok Hs _ _ _ _ _ _ _ _ _ H); cbn; rewrite ?Hseen; try done.
  - rewrite dom_insert_L. apply subseteq_dom in Hsub'. set_solver.
  - apply map_Forall_insert_2; [exact (ob_events0 _ _ Hn)|]. intros p m Hm. apply (ob_events0 p).
    by apply (lookup_weaken _ _ _ _ Hm).
Qed.
Lemma record_process_exit_ok self process directive next :
  observer_ok self -> record_process_exit self process = Ok (directive, next) -> observer_ok next.
Proof.
  intros Hok H. pose proof Hok as []. unfold record_process_exit in H.
  apply bind_Ok in H as (u & Hs%require_observing_Ok & H).
  destruct (tracks_process self process) eqn:Ht; [|stopped H]. cbn [negb] in H.
  assert (next = with_processes (delete process (processes self)) self) as -> by (by case_bool_decide; simplify_eq).
  apply (observing_ok self); cbn; try done.
  - intros Hc. split; [done|]. destruct (ob_confirmed0 Hc) as [_ Hp]. apply tracks_process_spec in Ht.
    rewrite Hp, dom_empty_L in Ht. set_solver.
  - rewrite dom_delete_L. set_solver.
  - by apply map_Forall_delete.
Qed.
Lemma finish_ok self directive next :
  observer_ok self -> finish self = Ok (directive, next) -> observer_ok next.
Proof.
  intros Hok H. pose proof Hok as []. unfold finish in H.
  apply bind_Ok in H as (u & Hs%require_observing_Ok & H).
  case_bool_decide as Hp; [|done]. cbn [negb] in H.
  destruct (bool_decide (state self = Draining) && negb (tree_drain_confirmed self)) eqn:Hd; [done|].
  assert (state self = Draining -> tree_drain_confirmed self = true) as Hdc.
  { intros Hst. rewrite bool_decide_eq_true_2 in Hd by done. by destruct (tree_drain_confirmed self). }
  assert (tree_drain_confirmed self = true -> state self = Draining) as Hcd.
  { intros [[?|Hi] _]%ob_confirmed0; [done|]. rewrite Hi in Hs. by destruct Hs. }
  case_bool_decide as Hg; injection H as <- <-; constructor; cbn; try done; try solve [by intros [?|?]]; try solve [intros _; auto].
  - intros Hc%Hcd. destruct ob_incomplete0; auto.
  - intros _. apply Hdc. destruct Hs as [Hs|Hs]; [|done]. destruct Hg. auto.
Qed.
Lemma require_Ok_state self s u : require_state self s = Ok u -> state self = s.
Proof. by intros [? _]%require_state_Ok. Qed.

Lemma step_ok self op directive next :
  observer_ok self -> apply op self = Ok (directive, next) -> observer_ok next.
Proof.
  intros Hok. destruct op; cbn [apply].
  - intros (u & Hs%require_Ok_state & [= <- <-])%bind_Ok. apply early_ok; [done|by rewrite Hs|by left].
  - intros (u & Hs%require_Ok_state & [= <- <-])%bind_Ok. apply early_ok; [done|by rewrite Hs|by left].
  - intros (u & Hs%require_Ok_state & H)%bind_Ok. case_bool_decide; [|done]. injection H as <- <-.
    apply early_ok; [done|by rewrite Hs|by left].
  - intros (u & Hs%require_Ok_state & [= <- <-])%bind_Ok. apply early_ok; [done|by rewrite Hs|by right].
  - by apply discover_child_ok.
  - by apply record_event_ok.
  - by apply record_exec_ok.
  - by apply record_process_exit_ok.
  - intros (u & Hs%require_observing_Ok & H)%bind_Ok. eapply stop_with_gap_ok; [done|done| |exact H].
    by destruct (tracks_process self process); apply unjustified_gap.
  - unfold record_observer_failure. destruct (state self) eqn:Hs; intros H; try discriminate H;
      try (injection H as <- <-; apply early_ok; [done|by rewrite Hs|by left]).
    + eapply stop_with_gap_ok; [done|by left| |exact H]. by apply unjustified_gap.
    + eapply stop_with_gap_ok; [done|by right| |exact H]. by apply unjustified_gap.
  - intros (u & Hs%require_Ok_state & H)%bind_Ok. case_bool_decide as Hp; [|done]. injection H as <- <-.
    pose proof Hok as []. constructor; cbn; try done. intros _. split; [by left|done].
  - by apply finish_ok.
Qed.
Lemma new_ok root limits self : ObserverProtocol_new root limits = Ok self -> observer_ok self /\ state self = Prepared.
Proof.
  unfold ObserverProtocol_new. intros (b & Hb%map_err_Ok & [= <-])%bind_Ok. split; [|done].
  unfold ObservationBounds_validate in Hb. destruct (_ || _) eqn:Hr in Hb; [done|]. injection Hb as ->.
  rewrite !orb_false_iff, !negb_false_iff in Hr. unfold range_contains in Hr. rewrite !andb_true_iff, !Z.leb_le in Hr.
  constructor; cbn; try done; try solve [by intros [?|?]]; try solve [by intros ?%not_elem_of_nil].
  - lia.
  - rewrite dom_singleton_L. done.
  - rewrite size_singleton. lia.
  - apply map_Forall_singleton. lia.
  - lia.
  - constructor.
Qed.
Lemma reachable_ok root limits self : reachable root limits self -> observer_ok self.
Proof. induction 1 as [self Hn|self op d next _ IH Ha]; [by apply (new_ok _ _ _ Hn)|by eapply step_ok]. Qed.

(** C22: every state the observer can reach is consistent: it tracks only processes it
    has counted, within the process limit; it retains no more events than its two
    limits allow; a limit gap is recorded only at the limit; before release nothing
    is observed, and a published result has an empty process tree, with gaps
    exactly when it is incomplete. *)
Theorem observer_invariant root limits self : reachable root limits self -> observer_ok self.
Proof. apply reachable_ok. Qed.

(** * Publication *)

Lemma terminal_refuses self op : is_terminal (state self) = true -> apply op self = Err ProtocolTerminal.
Proof.
  intros Ht. destruct op; cbn [apply];
    unfold attach_root, record_boundary_ready, enable_trace_options, release_target, discover_child, record_event,
      record_exec, record_process_exit, record_unexpected_stop, record_observer_failure, confirm_tree_drained, finish,
      require_state, require_observing; destruct (state self); done.
Qed.
(** A transition that loses no gap of [gs]. *)
Definition keeps (gs : list DiagnosticGap) (m : transition) : Prop := forall d n, m = Ok (d, n) -> gs ⊆ gaps n.
Lemma keeps_if gs (b : bool) m1 m2 : keeps gs m1 -> keeps gs m2 -> keeps gs (if b then m1 else m2).
Proof. by destruct b. Qed.
Lemma keeps_mbind {A} gs (m : result ObserverProtocolError A) f : (forall a, keeps gs (f a)) -> keeps gs (m ≫= f).
Proof. intros Hf d n (a & _ & H)%bind_Ok. by eapply Hf. Qed.
Lemma keeps_ok gs d s : gs ⊆ gaps s -> keeps gs (Ok (d, s)).
Proof. by intros Hs d' n [= <- <-]. Qed.
Lemma keeps_err gs e : keeps gs (Err e).
Proof. done. Qed.
Lemma with_gap_keeps gs g s : gs ⊆ gaps s -> gs ⊆ gaps (with_gap g s).
Proof. intros Hs x Hx. cbn. apply elem_of_set_insert. right. by apply Hs. Qed.
Lemma keeps_stop gs g s : gs ⊆ gaps s -> keeps gs (stop_with_gap s g).
Proof. intros Hs. apply keeps_ok. exact (with_gap_keeps gs g s Hs). Qed.
Lemma keeps_continue gs s : gs ⊆ gaps s -> keeps gs (continue_or_drain s).
Proof. intros Hs. unfold continue_or_drain. apply keeps_if; by apply keeps_ok. Qed.
Lemma gaps_kept self op directive next : apply op self = Ok (directive, next) -> gaps self ⊆ gaps next.
Proof.
  revert directive next. change (keeps (gaps self) (apply op self)).
  destruct op; cbn [apply]; unfold attach_root, record_boundary_ready, enable_trace_options, release_target,
    discover_child, record_event, record_exec, record_process_exit, record_unexpected_stop, confirm_tree_drained, finish;
    try (apply keeps_mbind; intros _);
    repeat first [apply keeps_err|apply keeps_if|apply keeps_mbind; intros ?|by apply keeps_stop|by apply keeps_continue|by apply keeps_ok].
  - apply keeps_ok. change (gaps self ⊆ gaps (let s := if (event_count_per_process (bounds self) <=? default 0 (processes self !! process))%Z
      then with_gap EventPerProcessLimit self else self in
      if (event_count (bounds self) <=? total_events self)%Z then with_gap EventLimit s else s)).
    destruct (_ <=? _)%Z, (_ <=? _)%Z; repeat apply with_gap_keeps; done.
  - unfold record_observer_failure. destruct (state self);
      first [apply keeps_err|by apply keeps_stop|by apply keeps_ok].
Qed.
Lemma finish_shape self directive next :
  finish self = Ok (directive, next) ->
  processes self = ∅ /\ (state self = Draining -> tree_drain_confirmed self = true)
  /\ directive = (if bool_decide (gaps self = []) then PublishComplete else PublishIncomplete)
  /\ next = with_state (if bool_decide (gaps self = []) then Complete else Incomplete) self.
Proof.
  unfold finish. intros (u & _ & H)%bind_Ok. case_bool_decide as Hp; [|done]. cbn [negb] in H.
  destruct (bool_decide (state self = Draining) && _) eqn:Hd; [done|]. split; [done|].
  assert (state self = Draining -> tree_drain_confirmed self = true) as Hc.
  { intros Hs. rewrite bool_decide_eq_true_2 in Hd by done. by destruct (tree_drain_confirmed self). }
  case_bool_decide; by injection H as <- <-.
Qed.

(** C23: a result is published only from an empty process tree, confirmed when the tree
    had to be drained; it is complete exactly when no gap was recorded at any point
    of the run, and no operation follows a publication. *)
Theorem observer_publication root limits start ops self directive next :
  reachable root limits start -> run ops start = Ok self -> finish self = Ok (directive, next) ->
  processes self = ∅ /\ gaps start ⊆ gaps self
  /\ (directive = PublishComplete <-> gaps self = [])
  /\ (directive = PublishIncomplete <-> gaps self <> [])
  /\ (gaps self <> [] -> tree_drain_confirmed self = true)
  /\ gaps next = gaps self
  /\ forall op, apply op next = Err ProtocolTerminal.
Proof.
  intros Hreach Hrun Hf.
  assert (reachable root limits self /\ gaps start ⊆ gaps self) as [Hr Hg].
  { clear Hf. revert start Hreach Hrun. induction ops as [|op ops IH]; intros start Hreach; [by intros [= <-]|].
    cbn [run]. intros ([d n] & Ha & Hn)%bind_Ok. destruct (IH n (reach_step _ _ _ _ _ _ Hreach Ha) Hn) as [H1 H2].
    split; [done|]. etransitivity; [by eapply gaps_kept|done]. }
  apply reachable_ok in Hr. pose proof Hr as [].
  assert (state self = Released \/ state self = Draining) as Hs.
  { unfold finish in Hf. by apply bind_Ok in Hf as (u & Hs%require_observing_Ok & _). }
  apply finish_shape in Hf as (Hp & Hc & -> & ->).
  split; [done|]. split; [done|]. case_bool_decide as Hn; (split; [naive_solver|]); (split; [naive_solver|]);
    (split; [|split; [done|intros op; by apply terminal_refuses]]); [done|].
  intros _. apply Hc. destruct Hs as [Hs|Hs]; [|done]. destruct Hn. auto.
Qed.

(** * Release *)

(** The one operation that advances a setup state, and the state it leads to. *)
Definition setup_step (s : ObserverProtocolState) : option (operation * ObserverProtocolState) :=
  match s with
  | Prepared => Some (Op_attach_root, Attached)
  | Attached => Some (Op_boundary_ready, BoundaryReady)
  | BoundaryReady => Some (Op_enable DiagnosticTraceOptions_required, OptionsEnabled)
  | OptionsEnabled => Some (Op_release, Released)
  | _ => None
  end.
Lemma setup_advances self op expected s directive next :
  setup_step (state self) = Some (expected, s) -> apply op self = Ok (directive, next) ->
  (op = expected /\ state next = s) \/ state next = FailedBeforeRelease.
Proof.
  intros Hst Ha. destruct op; cbn [apply] in Ha;
    try (apply bind_Ok in Ha as (u & H & Ha); first [apply require_Ok_state in H|apply require_observing_Ok in H]).
  1,2,4: rewrite H in Hst; injection Hst as <- <-; injection Ha as <- <-; by left.
  - rewrite H in Hst. injection Hst as <- <-. case_bool_decide as Ho; [|done]. injection Ha as <- <-. left. by subst.
  - destruct H as [H|H]; by rewrite H in Hst.
  - destruct H as [H|H]; by rewrite H in Hst.
  - destruct H as [H|H]; by rewrite H in Hst.
  - destruct H as [H|H]; by rewrite H in Hst.
  - destruct H as [H|H]; by rewrite H in Hst.
  - right. unfold record_observer_failure in Ha. destruct (state self); try discriminate Hst; injection Ha as <- <-; done.
  - by rewrite H in Hst.
  - destruct H as [H|H]; by rewrite H in Hst.
Qed.
Lemma failed_run ops self final : state self = FailedBeforeRelease -> run ops self = Ok final -> state final = FailedBeforeRelease.
Proof.
  intros Hs. destruct ops as [|op ops]; cbn; [by intros [= <-]|]. rewrite terminal_refuses by (by rewrite Hs). done.
Qed.
Lemma setup_run ops self expected s final :
  setup_step (state self) = Some (expected, s) -> unreleased (state final) = false -> run ops self = Ok final ->
  exists rest next, ops = expected :: rest /\ state next = s /\ run rest next = Ok final.
Proof.
  intros Hst Hf. destruct ops as [|op ops]; cbn [run].
  - intros [= <-]. by destruct (state self).
  - intros ([d next] & Ha & Hr)%bind_Ok. cbn [snd] in Hr.
    destruct (setup_advances _ _ _ _ _ _ Hst Ha) as [[-> Hn]|Hn]; [by exists ops, next|].
    apply failed_run in Hr; [|done]. by rewrite Hr in Hf.
Qed.

(** C24: target code runs only behind the whole boundary: a run that observes, drains or
    publishes anything began with ptrace ownership of the root, the launcher's
    acknowledgement of the boundary, exactly the required trace options, and the
    release, in this order and with nothing between them. *)
Theorem release_order root limits start ops self :
  ObserverProtocol_new root limits = Ok start -> run ops start = Ok self -> unreleased (state self) = false ->
  exists rest, ops = [Op_attach_root; Op_boundary_ready; Op_enable DiagnosticTraceOptions_required; Op_release] ++ rest.
Proof.
  intros [_ Hs]%new_ok Hrun Hu.
  destruct (setup_run ops start Op_attach_root Attached self) as (r1 & s1 & -> & H1 & R1); [by rewrite Hs|done..|].
  destruct (setup_run r1 s1 Op_boundary_ready BoundaryReady self) as (r2 & s2 & -> & H2 & R2); [by rewrite H1|done..|].
  destruct (setup_run r2 s2 (Op_enable DiagnosticTraceOptions_required) OptionsEnabled self) as (r3 & s3 & -> & H3 & R3);
    [by rewrite H2|done..|].
  destruct (setup_run r3 s3 Op_release Released self) as (r4 & s4 & -> & H4 & R4); [by rewrite H3|done..|].
  by exists r4.
Qed.

(** * Every observation can be published *)

Lemma exits_run l self :
  state self = Released \/ state self = Draining -> NoDup l -> (forall p, p ∈ l <-> p ∈ dom (processes self)) ->
  exists final, run (map Op_exit l) self = Ok final /\ processes final = ∅ /\ state final = state self
    /\ gaps final = gaps self.
Proof.
  revert self. induction l as [|p l IH]; intros self Hs Hnd Hl; cbn [map run].
  - exists self. split; [done|]. split; [|done]. apply dom_empty_iff_L. apply elem_of_equiv_empty_L. intros p Hp.
    apply Hl in Hp. by apply not_elem_of_nil in Hp.
  - apply NoDup_cons in Hnd as [Hni Hnd]. set (next := with_processes (delete p (processes self)) self).
    assert (exists d, record_process_exit self p = Ok (d, next)) as [d Hd].
    { unfold record_process_exit, require_observing. rewrite (proj2 (tracks_process_spec self p)) by (apply Hl; left).
      destruct Hs as [Hs|Hs]; rewrite Hs; cbn [negb mbind result_bind]; case_bool_decide; by eexists. }
    destruct (IH next) as (final & Hr & Hf); [done|done| |].
    { intros q. cbn. rewrite dom_delete_L, elem_of_difference, elem_of_singleton, <- Hl, elem_of_cons. naive_solver. }
    exists final. cbn [apply]. rewrite Hd. cbn [mbind result_bind snd]. split; [exact Hr|]. exact Hf.
Qed.
Lemma run_app ops ops' self : run (ops ++ ops') self = run ops self ≫= run ops'.
Proof.
  revert self. induction ops as [|op ops IH]; intros self; [done|]. cbn [app run].
  destruct (apply op self) as [[d n]|e]; cbn; [apply IH|done].
Qed.

(** No observation is stuck: from every reachable state after release the terminal
    waits of the tracked processes, the confirmation of a drained tree and
    [finish] lead to a publication with the gaps recorded so far. *)
Theorem observation_publishes root limits self :
  reachable root limits self -> state self = Released \/ state self = Draining ->
  exists ops final, run ops self = Ok final
    /\ state final = (if bool_decide (gaps self = []) then Complete else Incomplete) /\ gaps final = gaps self.
Proof.
  intros Hr%reachable_ok Hs. pose proof Hr as [].
  destruct (exits_run (elements (dom (processes self))) self) as (drained & Hrun & Hp & Hst & Hg);
    [done|apply NoDup_elements|intros p; apply elem_of_elements|].
  destruct Hs as [Hs|Hs]; rewrite Hs in Hst.
  - assert (gaps self = []) as Hn by auto. exists (map Op_exit (elements (dom (processes self))) ++ [Op_finish]).
    exists (with_state Complete drained). rewrite run_app, Hrun. cbn [mbind result_bind run apply].
    unfold finish. rewrite require_observing_Released by done. cbn [mbind result_bind].
    rewrite (bool_decide_eq_true_2 _ Hp), Hst, Hg, Hn. cbn. by rewrite Hg.
  - assert (gaps self <> []) as Hn by auto. exists (map Op_exit (elements (dom (processes self))) ++ [Op_drained; Op_finish]).
    exists (with_state Incomplete (with_confirmed true drained)). rewrite run_app, Hrun. cbn [mbind result_bind run apply].
    assert (confirm_tree_drained drained = Ok (Continue, with_confirmed true drained)) as ->.
    { unfold confirm_tree_drained, require_state. rewrite Hst, (bool_decide_eq_true_2 _ Hp). reflexivity. }
    cbn [mbind result_bind snd].
    unfold finish, require_observing. cbn. rewrite Hst, (bool_decide_eq_true_2 _ Hp), Hg. cbn.
    by rewrite (bool_decide_eq_false_2 _ Hn).
Qed.

(** * A run that reaches the event limit *)

Definition example_bounds : ObservationBounds := mkObservationBounds 1 1 1024 1 2 1 1 1.
Definition example_start : ObserverProtocol := mkObserverProtocol Prepared example_bounds 7%Z {[7%Z := 0%Z]} {[7%Z]} 0 [] false.
Definition example_ops : list operation :=
  [Op_attach_root; Op_boundary_ready; Op_enable DiagnosticTraceOptions_required; Op_release; Op_event 7%Z; Op_event 7%Z].
Definition example_drained : list operation := example_ops ++ [Op_exit 7%Z; Op_drained].
Lemma example_new : ObserverProtocol_new 7%Z example_bounds = Ok example_start.
Proof. reflexivity. Qed.
Lemma example_run : exists self, run example_drained example_start = Ok self /\ state self = Draining
  /\ gaps self = [EventLimit; EventPerProcessLimit] /\ (exists next, finish self = Ok (PublishIncomplete, next)).
Proof. eexists. split; [vm_compute; reflexivity|]. split; [done|]. split; [done|]. eexists. vm_compute. reflexivity. Qed.
Lemma run_reachable root limits ops self final :
  reachable root limits self -> run ops self = Ok final -> reachable root limits final.
Proof.
  revert self. induction ops as [|op ops IH]; intros self Hr; cbn [run]; [by intros [= <-]|].
  intros ([d n] & Ha & Hn)%bind_Ok. apply (IH n); [by eapply reach_step|exact Hn].
Qed.
Lemma observer_invariant_witness : exists self, run example_drained example_start = Ok self /\ observer_ok self.
Proof.
  destruct example_run as (self & Hr & _). exists self. split; [exact Hr|]. apply (observer_invariant 7%Z example_bounds).
  exact (run_reachable 7%Z example_bounds _ _ _ (reach_new _ _ _ example_new) Hr).
Defined.
Lemma observer_publication_witness :
  exists self next, finish self = Ok (PublishIncomplete, next) /\ processes self = ∅ /\ apply Op_finish next = Err ProtocolTerminal.
Proof.
  destruct example_run as (self & Hr & _ & _ & next & Hf). exists self, next. split; [exact Hf|].
  destruct (observer_publication 7%Z example_bounds example_start example_drained self PublishIncomplete next
    (reach_new _ _ _ example_new) Hr Hf) as (Hp & _ & _ & _ & _ & _ & Ht). split; [exact Hp|exact (Ht Op_finish)].
Defined.
Lemma release_order_witness :
  exists rest, example_drained = [Op_attach_root; Op_boundary_ready; Op_enable DiagnosticTraceOptions_required; Op_release] ++ rest.
Proof.
  destruct example_run as (self & Hr & Hs & _). apply (release_order 7%Z example_bounds example_start example_drained self example_new Hr).
  rewrite Hs. reflexivity.
Defined.
Lemma observation_publishes_witness :
  exists self ops final, run example_drained example_start = Ok self /\ run ops self = Ok final /\ state final = Incomplete.
Proof.
  destruct example_run as (self & Hr & Hs & Hg & _). exists self.
  destruct (observation_publishes 7%Z example_bounds self) as (ops & final & Hrun & Hst & _).
  - exact (run_reachable 7%Z example_bounds _ _ _ (reach_new _ _ _ example_new) Hr).
  - right. exact Hs.
  - exists ops, final. split; [exact Hr|]. split; [exact Hrun|]. rewrite Hst, Hg. reflexivity.
Defined.
