(* ===== verification/Trace.v ===== *)
(** System-call capture of the active trace
    ([proofbound-runtime-linux/src/trace.rs], from [read_thread_group_id] to
    [reconcile_exec_processes], with the stop decoding of [src/sys.rs]): which
    system calls are recorded, what is read from the stopped tracee, how entry and
    exit stops are paired and how [exec] replaces identities.  The kernel is the
    class [TraceSys]; [ActiveTrace] itself is in [TraceActive.v]. *)
From S2P Require Import Prelude.
From Stdlib Require Import Ascii ZArith Lia Sorted.
From stdpp Require Import prelude strings list numbers gmap.
Export stdpp.list_relations.list.

(** * Numbers *)

Definition SIGNAL_STOP : Z := 19.
Definition SIGNAL_TRAP : Z := 5.
Definition SIGNAL_SYSCALL : Z := Z.lor SIGNAL_TRAP 0x80.
Definition AT_FDCWD : Z := -100.
Definition MAX_TRACE_PROCESS_LIMIT : Z := 4096.
Definition MAX_TRACE_PATH_BYTES : Z := 1048576.
Definition MAX_TRACE_SOCKET_ADDRESS_BYTES : Z := 4096.
Definition CLONE_UNTRACED_FLAG : Z := 0x00800000.
Definition TRACE_MEMORY_CHUNK_BYTES : nat := Z.to_nat 256.
Definition AUDIT_ARCH_AARCH64 : Z := 0xc00000b7.
Definition AUDIT_ARCH_X86_64 : Z := 0xc000003e.

Inductive TraceStartupError := ProcessIdInvalid | ProcessLimitInvalid | CaptureLimitInvalid.
Inductive TraceObservationError :=
| UnsupportedOperatingSystem | DrainRequired | ProcessTreeDrained | ProcessIdentityInvalid | ProcessIdentityChanged
| ProcessIdentityDuplicate | TreeReconciliationFailed | ProcessCapacityExceeded | ProcessUnknown | InitialStopMissing
| WaitFailed | WaitTimedOut | ResumeFailed | EventMessageInvalid | SyscallInformationInvalid | ArchitectureUnsupported
| SyscallFormUnsupported | TraceeMemoryReadFailed | TraceeStringLimitExceeded | PathLimitExceeded
| SocketAddressLimitExceeded | SyscallOrderInvalid | ProcessHandleFailed | ThreadGroupInvalid | DrainFailed
| DrainTimedOut | StreamReadFailed | StreamDrainTimedOut | ResourceCleanupFailed | ResourceObservationIncomplete.
#[global] Instance TraceObservationError_eq_dec : EqDecision TraceObservationError.
Proof. solve_decision. Defined.

(** A [NonZeroU32] of at most [i32::MAX]. *)
Notation TraceProcessId := Z (only parsing).
Definition TraceProcessId_new (value : Z) : result TraceStartupError TraceProcessId :=
  if negb (value =? 0)%Z && (value <=? 2147483647)%Z then Ok value else Err ProcessIdInvalid.
Definition TraceProcessLimit_new (value : Z) : result TraceStartupError Z :=
  if (value =? 0)%Z || (MAX_TRACE_PROCESS_LIMIT <? value)%Z then Err ProcessLimitInvalid else Ok value.
Definition drain_capacity (limit : Z) : Z := limit * 2.
Record TraceCaptureLimits := mkTraceCaptureLimits {
  path_bytes : Z;
  socket_address_bytes : Z;
  symlink_hops : Z;
  tracee_string_bytes : Z
}.
Definition TraceCaptureLimits_new (path_bytes socket_address_bytes symlink_hops tracee_string_bytes : Z) :
    result TraceStartupError TraceCaptureLimits :=
  if (path_bytes =? 0)%Z || (MAX_TRACE_PATH_BYTES <? path_bytes)%Z
     || (socket_address_bytes =? 0)%Z || (MAX_TRACE_SOCKET_ADDRESS_BYTES <? socket_address_bytes)%Z
     || (symlink_hops =? 0)%Z || (40 <? symlink_hops)%Z
     || (tracee_string_bytes =? 0)%Z || (MAX_TRACE_PATH_BYTES <? tracee_string_bytes)%Z
  then Err CaptureLimitInvalid
  else Ok (mkTraceCaptureLimits path_bytes socket_address_bytes symlink_hops tracee_string_bytes).

(** * Stops reported by the kernel ([sys.rs]) *)

Definition PTRACE_EVENT_FORK : Z := 1.
Definition PTRACE_EVENT_VFORK : Z := 2.
Definition PTRACE_EVENT_CLONE : Z := 3.
Definition PTRACE_EVENT_EXEC : Z := 4.
Inductive TraceWaitStatus := Stopped (signal event : Z) | Exited (code : Z) | Signaled (signal : Z).
Record TraceWaitObservation := mkTraceWaitObservation { wo_process_id : Z; wo_status : TraceWaitStatus }.
Record TraceSyscallRegisters := mkTraceSyscallRegisters {
  sr_architecture : Z;
  sr_instruction_pointer : Z;
  sr_stack_pointer : Z;
  sr_number : Z;
  sr_arguments : list Z
}.
Inductive TraceSyscallStop :=
| Stop_Entry (registers : TraceSyscallRegisters)
| Stop_Exit (result : Z) (is_error : bool)
| Stop_Seccomp
| Stop_None.
Inductive TraceProcessCreationKind := Clone_kind | Fork_kind | Vfork_kind.
Definition trace_event_is_exec (event : Z) : bool := (event =? PTRACE_EVENT_EXEC)%Z.
Definition trace_process_creation_event (event : Z) : option TraceProcessCreationKind :=
  if (event =? PTRACE_EVENT_FORK)%Z then Some Fork_kind
  else if (event =? PTRACE_EVENT_VFORK)%Z then Some Vfork_kind
  else if (event =? PTRACE_EVENT_CLONE)%Z then Some Clone_kind
  else None.

(** * System calls and operands *)

Inductive TraceSyscallClass :=
| Bind | Clone | Connect | Creat | Execve | Execveat | Fork | Newfstatat | Open | Openat | Openat2 | Readlink
| Readlinkat | Sendto | Socket | Statx | Vfork.
#[global] Instance TraceSyscallClass_eq_dec : EqDecision TraceSyscallClass.
Proof. solve_decision. Defined.
Inductive TraceCapturedOperands :=
| Captured_Path (buffer_bytes directory_fd flags mask mode : option Z) (path : list byte) (resolve : option Z)
| Captured_ProcessCreate (flags : option Z)
| Captured_SocketAddress (address : option (list byte)) (descriptor : Z) (payload_bytes : option Z)
| Captured_SocketCreate (domain protocol socket_type : Z).
(** The registers of the entry stop, with the class and the operands. *)
Record TraceSyscallInvocation := mkTraceSyscallInvocation {
  iv_registers : TraceSyscallRegisters;
  iv_class : TraceSyscallClass;
  iv_operands : TraceCapturedOperands
}.
Inductive TraceCaptureRequest :=
| Request_Path (class : TraceSyscallClass) (path_address : Z) (buffer_bytes directory_fd flags mask mode : option Z)
| Request_Openat2 (directory_fd path_address how_address how_bytes : Z)
| Request_ProcessCreate (class : TraceSyscallClass) (flags : option Z)
| Request_Clone3 (arguments_address arguments_bytes : Z)
| Request_SocketAddress (class : TraceSyscallClass) (descriptor address address_bytes : Z) (address_optional : bool)
    (payload_bytes : option Z)
| Request_SocketCreate (domain protocol socket_type : Z).

Definition as_u32 (value : Z) : Z := value `mod` 4294967296.
Definition u32_as_i32 (value : Z) : Z := if (value <? 2147483648)%Z then value else value - 4294967296.
Definition upper_half_ok (value : Z) : bool :=
  let upper := Z.shiftr value 32 in (upper =? 0)%Z || (upper =? 4294967295)%Z.
Definition trace_i32_argument (value : Z) : result TraceObservationError Z :=
  if negb (upper_half_ok value) then Err SyscallFormUnsupported else Ok (u32_as_i32 (as_u32 value)).
Definition trace_u32_argument (value : Z) : result TraceObservationError Z :=
  if negb (upper_half_ok value) then Err SyscallFormUnsupported else Ok (as_u32 value).

Record ArchitectureSyscalls := mkArchitectureSyscalls {
  n_open : option Z; n_socket : Z; n_connect : Z; n_sendto : Z; n_bind : Z; n_clone : Z; n_fork : option Z;
  n_vfork : option Z; n_execve : Z; n_creat : option Z; n_readlink : option Z; n_openat : Z; n_newfstatat : Z;
  n_readlinkat : Z; n_execveat : Z; n_statx : Z; n_clone3 : Z; n_openat2 : Z
}.
(** [arguments[i]] of a [[u64; 6]]. *)
Definition arg (arguments : list Z) (i : nat) : Z := nth i arguments 0%Z.
Definition decode_supported_syscall (number : Z) (arguments : list Z) (syscalls : ArchitectureSyscalls) :
    result TraceObservationError (option TraceCaptureRequest) :=
  let a := arg arguments in
  let eqn n := (number =? n)%Z in
  let eqo o := bool_decide (o = Some number) in
  if eqo (n_open syscalls) then Ok (Some (Request_Path Open (a 0) None None (Some (a 1)) None (Some (a 2))))
  else if eqn (n_openat syscalls) then
    fd ← trace_i32_argument (a 0); Ok (Some (Request_Path Openat (a 1) None (Some fd) (Some (a 2)) None (Some (a 3))))
  else if eqn (n_openat2 syscalls) then fd ← trace_i32_argument (a 0); Ok (Some (Request_Openat2 fd (a 1) (a 2) (a 3)))
  else if eqo (n_creat syscalls) then Ok (Some (Request_Path Creat (a 0) None None None None (Some (a 1))))
  else if eqn (n_execve syscalls) then Ok (Some (Request_Path Execve (a 0) None None None None None))
  else if eqn (n_execveat syscalls) then
    fd ← trace_i32_argument (a 0); Ok (Some (Request_Path Execveat (a 1) None (Some fd) (Some (a 4)) None None))
  else if eqn (n_newfstatat syscalls) then
    fd ← trace_i32_argument (a 0); Ok (Some (Request_Path Newfstatat (a 1) None (Some fd) (Some (a 3)) None None))
  else if eqo (n_readlink syscalls) then Ok (Some (Request_Path Readlink (a 0) (Some (a 2)) None None None None))
  else if eqn (n_readlinkat syscalls) then
    fd ← trace_i32_argument (a 0); Ok (Some (Request_Path Readlinkat (a 1) (Some (a 3)) (Some fd) None None None))
  else if eqn (n_statx syscalls) then
    fd ← trace_i32_argument (a 0); Ok (Some (Request_Path Statx (a 1) None (Some fd) (Some (a 2)) (Some (a 3)) None))
  else if eqn (n_socket syscalls) then
    domain ← trace_u32_argument (a 0); protocol ← trace_u32_argument (a 2); socket_type ← trace_u32_argument (a 1);
    Ok (Some (Request_SocketCreate domain protocol socket_type))
  else if eqn (n_connect syscalls) || eqn (n_bind syscalls) then
    descriptor ← trace_u32_argument (a 0);
    Ok (Some (Request_SocketAddress (if eqn (n_connect syscalls) then Connect else Bind) descriptor (a 1) (a 2) false None))
  else if eqn (n_sendto syscalls) then
    descriptor ← trace_u32_argument (a 0);
    Ok (Some (Request_SocketAddress Sendto descriptor (a 4) (a 5) true (Some (a 2))))
  else if eqn (n_clone syscalls) then Ok (Some (Request_ProcessCreate Clone (Some (a 0))))
  else if eqo (n_fork syscalls) then Ok (Some (Request_ProcessCreate Fork None))
  else if eqo (n_vfork syscalls) then Ok (Some (Request_ProcessCreate Vfork None))
  else if eqn (n_clone3 syscalls) then Ok (Some (Request_Clone3 (a 0) (a 1)))
  else Ok None.
Definition x86_64_syscalls : ArchitectureSyscalls :=
  mkArchitectureSyscalls (Some 2%Z) 41 42 44 49 56 (Some 57%Z) (Some 58%Z) 59 (Some 85%Z) (Some 89%Z) 257 262 267 322 332 435 437.
Definition aarch64_syscalls : ArchitectureSyscalls :=
  mkArchitectureSyscalls None 198 203 206 200 220 None None 221 None None 56 79 78 281 291 435 437.
Definition X32_SYSCALL_BIT : Z := 0x40000000.
Definition decode_x86_64_syscall (number : Z) (arguments : list Z) :
    result TraceObservationError (option TraceCaptureRequest) :=
  if negb (Z.land number X32_SYSCALL_BIT =? 0)%Z then Err SyscallFormUnsupported
  else decode_supported_syscall number arguments x86_64_syscalls.
Definition decode_aarch64_syscall (number : Z) (arguments : list Z) :
    result TraceObservationError (option TraceCaptureRequest) :=
  decode_supported_syscall number arguments aarch64_syscalls.
Definition decode_trace_syscall (registers : TraceSyscallRegisters) :
    result TraceObservationError (option TraceCaptureRequest) :=
  if (sr_architecture registers =? AUDIT_ARCH_X86_64)%Z then
    decode_x86_64_syscall (sr_number registers) (sr_arguments registers)
  else if (sr_architecture registers =? AUDIT_ARCH_AARCH64)%Z then
    decode_aarch64_syscall (sr_number registers) (sr_arguments registers)
  else Err ArchitectureUnsupported.
Definition validate_process_creation_flags (class : TraceSyscallClass) (flags : option Z) :
    result TraceObservationError () :=
  if bool_decide (class = Clone) && from_option (fun value => negb (Z.land value CLONE_UNTRACED_FLAG =? 0)%Z) false flags
  then Err SyscallFormUnsupported else Ok ().

(** [u64::from_le_bytes] *)
Definition le_value (bytes : list byte) : Z := foldr (fun b value => bval b + 256 * value)%Z 0%Z bytes.

(** * The kernel *)

Record TraceObjectIdentity := mkTraceObjectIdentity {
  oi_device_major : Z;
  oi_device_minor : Z;
  oi_inode : Z;
  oi_mode : Z;
  oi_mount_id : Z
}.
#[global] Instance TraceObjectIdentity_eq_dec : EqDecision TraceObjectIdentity.
Proof. solve_decision. Defined.
(** An absolute path without [.] and [..] components, as the names below the root. *)
Definition Components : Type := list (list byte).

(** The wrappers of [sys.rs] and the functions of [std::fs] that observation calls;
    [None] is an error. *)
Class TraceSys := {
  World : Type;
  (** the greatest [Instant], in nanoseconds *)
  instant_limit : Z;
  (** [Instant::now] *)
  now : World -> Z * World;
  trace_wait_event_nonblocking : TraceProcessId -> World -> option (option TraceWaitObservation) * World;
  trace_event_process : Z -> World -> option Z * World;
  trace_syscall_stop : TraceProcessId -> World -> option TraceSyscallStop * World;
  trace_syscall : TraceProcessId -> World -> option () * World;
  (** the bytes read from an address into a buffer of the given length *)
  trace_read_process_memory : TraceProcessId -> Z -> nat -> World -> option (list byte) * World;
  trace_open_process_handle : TraceProcessId -> World -> option Z * World;
  trace_kill_process_handle : Z -> World -> option () * World;
  (** [std::fs::read] of [/proc/<process>/status] *)
  read_status : TraceProcessId -> World -> option (list byte) * World;
  trace_open_object : list byte -> World -> option Z * World;
  trace_read_link : list byte -> Z -> World -> option (list byte) * World;
  trace_object_metadata : Z -> World -> option TraceObjectIdentity * World;
  (** [std::fs::canonicalize] *)
  canonicalize : list byte -> World -> option Components * World;
  (** [std::fs::symlink_metadata], of which only [is_symlink] is used *)
  symlink_metadata : Components -> World -> option bool * World;
  (** [std::fs::read_link] *)
  read_link : Components -> World -> option (list byte) * World;
  (** [std::thread::sleep] *)
  sleep : World -> World
}.

(** * Reading the stopped tracee *)

Section Capture.
Context `{TraceSys}.
Notation M := (eff World TraceObservationError).
Implicit Types (process : TraceProcessId) (limits : TraceCaptureLimits).

(** [address.checked_add] in [u64] *)
Definition remote_address (address : Z) (offset : nat) : result TraceObservationError Z :=
  let remote := (address + Z.of_nat offset)%Z in
  if (remote <=? 18446744073709551615)%Z then Ok remote else Err TraceeMemoryReadFailed.
(** [observed.iter().position(|byte| *byte == 0)] with the bytes before it *)
Fixpoint before_nul (bytes : list byte) : option (list byte) :=
  match bytes with
  | [] => None
  | b :: rest => if (bval b =? 0)%Z then Some [] else cons b <$> before_nul rest
  end.
(** Every iteration that does not return adds at least one byte, so that the string
    limit bounds them. *)
Fixpoint read_string_loop (fuel : nat) process (address : Z) limits (bytes : list byte) : M (list byte) :=
  match fuel with
  | O => throw TraceeStringLimitExceeded
  | S fuel =>
    if (Z.of_nat (length bytes) <? tracee_string_bytes limits)%Z then
      let remaining := Z.to_nat (tracee_string_bytes limits) - length bytes in
      let count := remaining `min` TRACE_MEMORY_CHUNK_BYTES in
      chunk_address ← lift_result (remote_address address (length bytes));
      observed ← call (trace_read_process_memory process chunk_address count) TraceeMemoryReadFailed;
      if bool_decide (observed = []) then throw TraceeMemoryReadFailed
      else
        match before_nul observed with
        | Some prefix =>
          if (path_bytes limits <? Z.of_nat (length (bytes ++ prefix)))%Z then throw PathLimitExceeded
          else mret (bytes ++ prefix)
        | None =>
          if (path_bytes limits <? Z.of_nat (length (bytes ++ observed)))%Z then throw PathLimitExceeded
          else read_string_loop fuel process address limits (bytes ++ observed)
        end
    else throw TraceeStringLimitExceeded
  end.
Definition read_tracee_string process (address : Z) limits : M (list byte) :=
  read_string_loop (S (Z.to_nat (tracee_string_bytes limits))) process address limits [].
(** The buffer of [length] bytes is filled from its start; [bytes] are those read. *)
Fixpoint read_exact_loop (fuel : nat) process (address : Z) (size : nat) (bytes : list byte) : M (list byte) :=
  match fuel with
  | O => mret bytes
  | S fuel =>
    if length bytes <? size then
      remote ← lift_result (remote_address address (length bytes));
      observed ← call (trace_read_process_memory process remote (size - length bytes)) TraceeMemoryReadFailed;
      if bool_decide (observed = []) then throw TraceeMemoryReadFailed
      else read_exact_loop fuel process address size (bytes ++ observed)
    else mret bytes
  end.
Definition read_exact_tracee_memory process (address : Z) (size : nat) : M (list byte) :=
  read_exact_loop (S size) process address size [].
Definition read_little_endian_u64 (bytes : list byte) (start : nat) : result TraceObservationError Z :=
  let field := take 8 (drop start bytes) in
  if length field =? 8 then Ok (le_value field) else Err SyscallFormUnsupported.
Definition capture_socket_address process (address address_bytes : Z) (address_optional : bool) limits :
    M (option (list byte)) :=
  if address_optional && (address =? 0)%Z && (address_bytes =? 0)%Z then mret None
  else if (socket_address_bytes limits <? address_bytes)%Z then throw SocketAddressLimitExceeded
  else if (address =? 0)%Z && negb (address_bytes =? 0)%Z then throw TraceeMemoryReadFailed
  else bytes ← read_exact_tracee_memory process address (Z.to_nat address_bytes); mret (Some bytes).

Definition OPEN_HOW_BYTES : Z := 24.
Definition CLONE3_MIN_BYTES : Z := 8.
Definition CLONE3_MAX_BYTES : Z := 88.
Definition capture_request process (request : TraceCaptureRequest) limits :
    M (TraceSyscallClass * TraceCapturedOperands) :=
  match request with
  | Request_Path class path_address buffer_bytes directory_fd flags mask mode =>
    path ← read_tracee_string process path_address limits;
    mret (class, Captured_Path buffer_bytes directory_fd flags mask mode path None)
  | Request_Openat2 directory_fd path_address how_address how_bytes =>
    if negb (how_bytes =? OPEN_HOW_BYTES)%Z then throw SyscallFormUnsupported
    else
      path ← read_tracee_string process path_address limits;
      how ← read_exact_tracee_memory process how_address (Z.to_nat OPEN_HOW_BYTES);
      flags ← lift_result (read_little_endian_u64 how 0);
      mode ← lift_result (read_little_endian_u64 how 8);
      resolve ← lift_result (read_little_endian_u64 how 16);
      mret (Openat2, Captured_Path None (Some directory_fd) (Some flags) None (Some mode) path (Some resolve))
  | Request_ProcessCreate class flags =>
    _ ← lift_result (validate_process_creation_flags class flags);
    mret (class, Captured_ProcessCreate flags)
  | Request_Clone3 arguments_address arguments_bytes =>
    if negb ((CLONE3_MIN_BYTES <=? arguments_bytes)%Z && (arguments_bytes <=? CLONE3_MAX_BYTES)%Z)
       || negb (arguments_bytes `mod` 8 =? 0)%Z then throw SyscallFormUnsupported
    else
      bytes ← read_exact_tracee_memory process arguments_address 8;
      let flags := le_value bytes in
      _ ← lift_result (validate_process_creation_flags Clone (Some flags));
      mret (Clone, Captured_ProcessCreate (Some flags))
  | Request_SocketAddress class descriptor address address_bytes address_optional payload_bytes =>
    address ← capture_socket_address process address address_bytes address_optional limits;
    mret (class, Captured_SocketAddress address descriptor payload_bytes)
  | Request_SocketCreate domain protocol socket_type => mret (Socket, Captured_SocketCreate domain protocol socket_type)
  end.
Definition capture_syscall_invocation process (registers : TraceSyscallRegisters) limits :
    M (option TraceSyscallInvocation) :=
  request ← lift_result (decode_trace_syscall registers);
  match request with
  | None => mret None
  | Some request =>
    captured ← capture_request process request limits;
    mret (Some (mkTraceSyscallInvocation registers captured.1 captured.2))
  end.
End Capture.

(** * Tracees *)

Inductive PendingTraceSyscall := Captured (invocation : TraceSyscallInvocation) | Ignored.
Record TraceeState := mkTraceeState {
  thread_group : TraceProcessId;
  awaiting_initial_stop : bool;
  allow_initial_exit : bool;
  pending : option PendingTraceSyscall
}.
Definition released_at_unknown_syscall_phase (thread_group : TraceProcessId) : TraceeState :=
  mkTraceeState thread_group false true None.
Definition awaiting_stop (thread_group : TraceProcessId) : TraceeState := mkTraceeState thread_group true false None.
Definition begin_syscall (self : TraceeState) (value : PendingTraceSyscall) : result TraceObservationError TraceeState :=
  match pending self with
  | Some _ => Err SyscallOrderInvalid
  | None => Ok (mkTraceeState (thread_group self) (awaiting_initial_stop self) false (Some value))
  end.
Definition finish_syscall (self : TraceeState) :
    result TraceObservationError (option PendingTraceSyscall * TraceeState) :=
  match pending self with
  | Some value =>
    Ok (Some value, mkTraceeState (thread_group self) (awaiting_initial_stop self) (allow_initial_exit self) None)
  | None =>
    if allow_initial_exit self
    then Ok (None, mkTraceeState (thread_group self) (awaiting_initial_stop self) false None)
    else Err SyscallOrderInvalid
  end.

(** The keys of a [BTreeMap], in order. *)
Definition keys {A} (m : gmap Z A) : list Z := Prelude.sort (elements (dom m)).
Definition delete_all {A} (processes : list Z) (m : gmap Z A) : gmap Z A :=
  foldl (fun m process => delete process m) m processes.
Record ExecIdentityChange := mkExecIdentityChange {
  change_former : TraceProcessId;
  change_survivor : TraceProcessId;
  change_superseded : list TraceProcessId
}.
Definition reconcile_exec_processes (processes : gmap Z TraceeState) (requested reported former : TraceProcessId) :
    result TraceObservationError (ExecIdentityChange * gmap Z TraceeState) :=
  if negb (reported =? requested)%Z then Err ProcessIdentityChanged
  else
    survivor ← ok_or (processes !! reported) ProcessUnknown;
    exec_state ← ok_or (processes !! former) ProcessUnknown;
    if negb (thread_group survivor =? reported)%Z || negb (thread_group exec_state =? reported)%Z
    then Err ProcessIdentityChanged
    else
      let processes := delete former processes in
      let replaced_threads :=
        filter (fun process => thread_group <$> processes !! process = Some reported) (keys processes) in
      let exec_state := mkTraceeState reported false (allow_initial_exit exec_state) (pending exec_state) in
      Ok (mkExecIdentityChange former reported replaced_threads,
          <[reported := exec_state]> (delete_all replaced_threads processes)).

(** * Thread groups *)

(** [str::lines] *)
Definition strip_cr (line : list byte) : list byte :=
  if option_test (fun b => (bval b =? 13)%Z) (last_byte line) then removelast line else line.
Fixpoint lines_of (parts : list (list byte)) : list (list byte) :=
  match parts with
  | [] => []
  | [last] => if bool_decide (last = []) then [] else [last]
  | line :: rest => strip_cr line :: lines_of rest
  end.
Definition lines (status : list byte) : list (list byte) := lines_of (split_on (mkb 10) status).
Fixpoint strip_prefix (prefix l : list byte) : option (list byte) :=
  match prefix, l with
  | [], _ => Some l
  | p :: prefix, b :: l => if bool_decide (p = b) then strip_prefix prefix l else None
  | _ :: _, [] => None
  end.
(** [str::parse::<u32>]: an overflow of [u64] is one of [u32]. *)
Definition parse_u32 (value : list byte) : option Z :=
  number ← u64_parse value; if (number <=? 4294967295)%Z then Some number else None.
Definition tgid_prefix : list byte := String.list_ascii_of_string "Tgid:" ++ [mkb 9].
Definition parse_thread_group_id (status : list byte) : result TraceObservationError TraceProcessId :=
  match omap (strip_prefix tgid_prefix) (lines status) with
  | [value] =>
    value ← ok_or (parse_u32 value) ThreadGroupInvalid;
    map_err (fun _ => ThreadGroupInvalid) (TraceProcessId_new value)
  | _ => Err ThreadGroupInvalid
  end.
Definition MAX_STATUS_BYTES : Z := 65536.
Definition read_thread_group_id `{TraceSys} (process : TraceProcessId) : eff World TraceObservationError TraceProcessId :=
  bytes ← call (read_status process) ThreadGroupInvalid;
  if (MAX_STATUS_BYTES <? Z.of_nat (length bytes))%Z then throw ThreadGroupInvalid
  else if negb (utf8_valid bytes) then throw ThreadGroupInvalid
  else lift_result (parse_thread_group_id bytes).

Example parse_thread_group_example : parse_thread_group_id (String.list_ascii_of_string "Name:" ++ [mkb 10] ++ tgid_prefix ++ String.list_ascii_of_string "42" ++ [mkb 10])
  = Ok 42%Z.
Proof. reflexivity. Qed.

(** * What is read from a stopped tracee *)

(** Every address of the range can be read. *)
Definition readable (memory : Z -> option byte) (address : Z) (n : nat) : Prop :=
  forall i, i < n -> memory (address + Z.of_nat i)%Z <> None.
(** [process_vm_readv] with one local and one remote vector on a stopped tracee: what
    it reads is what the memory holds from the address on, and reading changes
    nothing.  A transfer never splits a vector, so it is only sure to succeed, with at
    least one byte, when the whole range can be read; otherwise it may read some
    bytes, or none, or fail. *)
Class TraceMemory `{TraceSys} := {
  memory : TraceProcessId -> World -> Z -> option byte;
  memory_range process w address : memory process w address <> None -> (0 <= address <= 18446744073709551615)%Z;
  memory_read process address n w : 0 < n ->
    let '(r, w') := trace_read_process_memory process address n w in
    memory process w' = memory process w
    /\ (readable (memory process w) address n -> exists l, r = Some l /\ l <> [])
    /\ (forall l, r = Some l -> length l <= n
         /\ forall i b, l !! i = Some b -> memory process w (address + Z.of_nat i) = Some b)
}.

Section Memory.
Context `{TraceMemory}.
Implicit Types (process : TraceProcessId) (limits : TraceCaptureLimits) (w : World).

(** The memory from [address] on holds [l]. *)
Definition holds process w (address : Z) (l : list byte) : Prop :=
  forall i b, l !! i = Some b -> memory process w (address + Z.of_nat i) = Some b.
Definition holds_string process w (address : Z) (s : list byte) : Prop :=
  holds process w address (s ++ [mkb 0]) /\ Forall (fun b => bval b <> 0%Z) s.

Lemma holds_app process w address l k :
  holds process w address (l ++ k) <-> holds process w address l /\ holds process w (address + Z.of_nat (length l)) k.
Proof.
  split.
  - intros Hh. split; intros i b Hi.
    + apply Hh. by apply lookup_app_l_Some.
    + replace (address + Z.of_nat (length l) + Z.of_nat i)%Z with (address + Z.of_nat (length l + i))%Z by lia.
      apply Hh. rewrite lookup_app_r by lia. by replace (length l + i - length l) with i by lia.
  - intros [Hl Hk] i b [Hi|[Hlen Hi]]%lookup_app_Some; [by apply Hl|].
    apply Hk in Hi. by replace (address + Z.of_nat (length l) + Z.of_nat (i - length l))%Z with (address + Z.of_nat i)%Z in Hi by lia.
Qed.
Lemma holds_prefix process w address l k : holds process w address l -> holds process w address k -> length l <= length k -> l `prefix_of` k.
Proof.
  intros Hl Hk Hle. exists (drop (length l) k). rewrite <- (take_drop (length l) k) at 1. f_equal.
  apply list_eq. intros i. destruct (decide (i < length l)) as [Hi|Hi].
  - rewrite lookup_take_lt by done. destruct (lookup_lt_is_Some_2 l i Hi) as [b Hb].
    destruct (lookup_lt_is_Some_2 k i) as [c Hc]; [lia|]. rewrite Hb, Hc. apply Hl in Hb. apply Hk in Hc. congruence.
  - rewrite lookup_take_ge, lookup_ge_None_2 by lia. done.
Qed.
Lemma holds_world process w w' address l :
  memory process w' = memory process w -> holds process w' address l <-> holds process w address l.
Proof. unfold holds. by intros ->. Qed.
Lemma before_nul_Some l p :
  before_nul l = Some p <-> Forall (fun b => bval b <> 0%Z) p /\ exists rest, l = p ++ mkb 0 :: rest.
Proof.
  revert p. induction l as [|b l IH]; intros p; cbn.
  - split; [done|]. intros (_ & rest & Hl). by destruct p.
  - destruct (Z.eqb_spec (bval b) 0) as [Hb|Hb].
    + split.
      * intros [= <-]. split; [constructor|]. exists l. f_equal. by rewrite <- (mkb_bval b), Hb.
      * intros (Hf & rest & Hl). destruct p as [|c p]; [done|]. injection Hl as <- Hl. by inversion Hf.
    + rewrite fmap_Some. split.
      * intros (q & Hq & ->). apply IH in Hq as (Hf & rest & ->). split; [by constructor|]. by exists rest.
      * intros (Hf & rest & Hl). destruct p as [|c p]; injection Hl as Hbc Hl.
        { exfalso. apply Hb. rewrite Hbc. done. }
        subst c. apply Forall_cons in Hf as [_ Hf]. exists p. split; [|done]. apply IH. split; [done|]. by exists rest.
Qed.
Lemma before_nul_None l : before_nul l = None <-> Forall (fun b => bval b <> 0%Z) l.
Proof.
  induction l as [|b l IH]; cbn; [by split|]. rewrite Forall_cons. case_match; [naive_solver lia|].
  rewrite fmap_None, IH. split; [|tauto]. intros. split; [lia|done].
Qed.

Lemma nul_unique process w address s t :
  holds process w address (s ++ [mkb 0]) -> holds process w address (t ++ [mkb 0]) ->
  Forall (fun b => bval b <> 0%Z) s -> Forall (fun b => bval b <> 0%Z) t -> s = t.
Proof.
  assert (forall s t, holds process w address (s ++ [mkb 0]) -> holds process w address (t ++ [mkb 0]) ->
    Forall (fun b => bval b <> 0%Z) t -> length s <= length t -> s = t) as Hle.
  { clear s t. intros s t Hs Ht Hz Hlen. destruct (holds_prefix process w address (s ++ [mkb 0]) (t ++ [mkb 0]) Hs Ht) as [k Hk].
    { rewrite !length_app. lia. }
    destruct (decide (k = [])) as [->|Hne].
    { rewrite app_nil_r in Hk. by apply app_inj_tail in Hk as [-> _]. }
    exfalso. destruct (exists_last Hne) as (k' & b & ->). rewrite app_assoc in Hk. apply app_inj_tail in Hk as [-> _].
    apply Forall_app in Hz as [[_ Hz]%Forall_app _]. by inversion Hz. }
  intros Hs Ht Hzs Hzt. destruct (decide (length s <= length t)); [by apply Hle|]. symmetry. apply Hle; [done..|lia].
Qed.
(** One iteration: the bytes at the end of those read so far. *)
Lemma chunk_read process w address (l : list byte) n :
  0 < n -> holds process w address l ->
  let '(r, w') := trace_read_process_memory process (address + Z.of_nat (length l)) n w in
  memory process w' = memory process w
  /\ (readable (memory process w) (address + Z.of_nat (length l)) n -> exists observed, r = Some observed /\ observed <> [])
  /\ forall observed, r = Some observed -> holds process w address (l ++ observed) /\ length observed <= n.
Proof.
  intros Hn Hl. pose proof (memory_read process (address + Z.of_nat (length l)) n w Hn) as Hm.
  destruct (trace_read_process_memory _ _ _ _) as [r w']. destruct Hm as (Hw & Hr & Hobs).
  split; [done|]. split; [done|]. intros observed ->. destruct (Hobs _ eq_refl) as [Hlen Hh].
  split; [by apply holds_app|done].
Qed.
Lemma remote_address_readable process w address (l : list byte) n :
  0 < n -> readable (memory process w) (address + Z.of_nat (length l)) n ->
  remote_address address (length l) = Ok (address + Z.of_nat (length l))%Z.
Proof.
  intros Hn Hr. specialize (Hr 0 Hn). rewrite Z.add_0_r in Hr. apply memory_range in Hr.
  unfold remote_address. by rewrite (proj2 (Z.leb_le _ _)) by lia.
Qed.

Lemma read_string_sound fuel process address limits bytes w s w' :
  holds process w address bytes -> Forall (fun b => bval b <> 0%Z) bytes ->
  read_string_loop fuel process address limits bytes w = (Ok s, w') ->
  holds_string process w address s /\ (Z.of_nat (length s) <= path_bytes limits)%Z
  /\ (Z.of_nat (length s) < tracee_string_bytes limits)%Z.
Proof.
  revert bytes w. induction fuel as [|fuel IH]; intros bytes w Hh Hnz; cbn [read_string_loop]; [done|].
  destruct (Z.ltb_spec (Z.of_nat (length bytes)) (tracee_string_bytes limits)) as [Hlt|]; [|done].
  set (n := _ `min` _). assert (0 < n /\ n <= Z.to_nat (tracee_string_bytes limits) - length bytes) as [Hn Hmax].
  { unfold n, TRACE_MEMORY_CHUNK_BYTES. lia. }
  pose proof (chunk_read process w address bytes n Hn Hh) as Hc.
  unfold mbind, eff_bind, lift_result, call, remote_address. destruct (_ <=? _)%Z; [|done].
  destruct (trace_read_process_memory _ _ _ _) as [[observed|] w1]; cbn [ok_or]; [|done].
  destruct Hc as (Hw & _ & Hobs). destruct (Hobs _ eq_refl) as [Hh' Hlen]. clear Hobs. rename Hh' into Hobs.
  case_bool_decide as Hne; [done|].
  destruct (before_nul observed) as [p|] eqn:Hp.
  - apply before_nul_Some in Hp as (Hpz & rest & ->). case_match eqn:Hcmp; [done|]. intros [= <- <-].
    rewrite length_app in Hlen. cbn in Hlen.
    apply Z.ltb_ge in Hcmp. rewrite length_app in Hcmp. split; [|rewrite length_app; lia]. split; [|by apply Forall_app].
    replace (bytes ++ p ++ mkb 0 :: rest) with (((bytes ++ p) ++ [mkb 0]) ++ rest) in Hobs by (by rewrite <- !app_assoc).
    by apply holds_app in Hobs as [Hobs _].
  - apply before_nul_None in Hp. case_match; [done|]. intros Hr. apply IH in Hr.
    + unfold holds_string in *. by rewrite (holds_world _ _ _ _ _ Hw) in Hr.
    + by rewrite (holds_world _ _ _ _ _ Hw).
    + by apply Forall_app.
Qed.

(** What a string of the length may make the loop read: up to a chunk more than it,
    and no more than the limit. *)
Definition string_reach limits (size : nat) : nat :=
  (size + TRACE_MEMORY_CHUNK_BYTES) `min` Z.to_nat (tracee_string_bytes limits).
Lemma readable_world process w w' address n :
  memory process w' = memory process w -> readable (memory process w) address n -> readable (memory process w') address n.
Proof. by intros ->. Qed.
Lemma readable_within process w address n k count :
  readable (memory process w) address n -> k + count <= n -> readable (memory process w) (address + Z.of_nat k) count.
Proof. intros Hr Hk i Hi. replace (address + Z.of_nat k + Z.of_nat i)%Z with (address + Z.of_nat (k + i))%Z by lia. apply Hr. lia. Qed.

(** What a chunk without and with the terminator tells about the string. *)
Lemma chunk_of_string process w address k observed :
  holds process w address (k ++ [mkb 0]) -> Forall (fun b => bval b <> 0%Z) k -> holds process w address observed ->
  match before_nul observed with Some p => p = k | None => observed `prefix_of` k end.
Proof.
  intros Hk Hnz Hobs. destruct (before_nul observed) as [p|] eqn:Hp.
  - apply before_nul_Some in Hp as (Hpz & rest & ->).
    replace (p ++ mkb 0 :: rest) with ((p ++ [mkb 0]) ++ rest) in Hobs by (by rewrite <- app_assoc).
    apply holds_app in Hobs as [Hobs _]. by eapply nul_unique.
  - apply before_nul_None in Hp. destruct (decide (length observed <= length k)) as [|Hgt].
    + eapply holds_prefix; [exact Hobs|by apply holds_app in Hk as [Hk _]|done].
    + exfalso. assert (k ++ [mkb 0] `prefix_of` observed) as [t ->].
      { eapply holds_prefix; [exact Hk|exact Hobs|rewrite length_app; cbn; lia]. }
      apply Forall_app in Hp as [[_ Hz]%Forall_app _]. by inversion Hz.
Qed.
Lemma read_string_complete fuel process address limits bytes w s :
  holds_string process w address s -> bytes `prefix_of` s -> (Z.of_nat (length s) <= path_bytes limits)%Z ->
  (Z.of_nat (length s) < tracee_string_bytes limits)%Z -> Z.to_nat (tracee_string_bytes limits) - length bytes < fuel ->
  readable (memory process w) address (string_reach limits (length s)) ->
  exists w', read_string_loop fuel process address limits bytes w = (Ok s, w') /\ memory process w' = memory process w.
Proof.
  intros Hs Hpre Hpath Hlim. revert bytes w Hs Hpre. induction fuel as [|fuel IH]; intros bytes w Hs [k ->] Hf Hr; [lia|].
  rewrite length_app in Hpath, Hlim. cbn [read_string_loop]. rewrite (proj2 (Z.ltb_lt _ _)) by lia.
  set (n := _ `min` _). assert (0 < n) as Hn by (unfold n, TRACE_MEMORY_CHUNK_BYTES; lia).
  destruct Hs as [Hh Hnz]. pose proof Hh as Hh0. rewrite <- app_assoc in Hh. apply holds_app in Hh as [Hb Hk].
  assert (readable (memory process w) (address + Z.of_nat (length bytes)) n) as Hrn.
  { eapply readable_within; [exact Hr|]. unfold string_reach, n. rewrite length_app. lia. }
  pose proof (chunk_read process w address bytes n Hn Hb) as Hc.
  unfold mbind, eff_bind, lift_result, call. rewrite (remote_address_readable process w address bytes n Hn Hrn).
  destruct (trace_read_process_memory _ _ _ _) as [r w1]. destruct Hc as (Hw & Hsome & Hobs).
  destruct (Hsome Hrn) as (observed & -> & Hne). cbn [ok_or]. rewrite bool_decide_eq_false_2 by done.
  destruct (Hobs _ eq_refl) as [[_ Hread]%holds_app _]. clear Hobs Hsome. apply Forall_app in Hnz as [Hnzb Hnzk].
  pose proof (chunk_of_string process w _ k observed Hk Hnzk Hread) as Hchunk. destruct (before_nul observed) as [p|].
  - subst p. rewrite (proj2 (Z.ltb_ge _ _)) by (rewrite length_app; lia). by exists w1.
  - destruct Hchunk as [k' ->]. rewrite length_app in Hpath. rewrite (proj2 (Z.ltb_ge _ _)) by (rewrite length_app; lia).
    destruct (IH (bytes ++ observed) w1) as (w' & Hrun & Hw').
    + split; [by apply (holds_world _ _ _ _ _ Hw)|]. by apply Forall_app.
    + exists k'. by rewrite app_assoc.
    + rewrite length_app. assert (0 < length observed) by (destruct observed; [done|cbn; lia]). lia.
    + by apply (readable_world _ _ _ _ _ Hw).
    + exists w'. rewrite Hrun. split; [done|congruence].
Qed.
End Memory.

(** C20: a captured tracee string is the one that the stopped memory holds, with its
    terminator, at the address, and it is within both limits, however the kernel
    divides or refuses the reads.  Conversely such a string is captured whenever the
    memory can be read up to a chunk beyond it, or up to the string limit; without that
    a read that touches what cannot be read may fail as a whole. *)
Theorem read_tracee_string_correct `{TraceMemory} process address limits (w : World) s :
  ((read_tracee_string process address limits w).1 = Ok s ->
     holds_string process w address s /\ (Z.of_nat (length s) <= path_bytes limits)%Z
     /\ (Z.of_nat (length s) < tracee_string_bytes limits)%Z)
  /\ (holds_string process w address s -> (Z.of_nat (length s) <= path_bytes limits)%Z ->
      (Z.of_nat (length s) < tracee_string_bytes limits)%Z ->
      readable (memory process w) address (string_reach limits (length s)) ->
      (read_tracee_string process address limits w).1 = Ok s).
Proof.
  unfold read_tracee_string. split.
  - destruct (read_string_loop _ _ _ _ _ _) as [r w'] eqn:Hr. cbn. intros ->.
    eapply read_string_sound; [| |exact Hr]; [by intros i b|constructor].
  - intros Hs Hp Hl Hreach. edestruct (read_string_complete (S (Z.to_nat (tracee_string_bytes limits)))) as (w' & -> & _);
      [exact Hs|apply prefix_nil|done|done|cbn; lia|exact Hreach|done].
Qed.

(** * Replaced identities *)

Lemma keys_spec {A} (m : gmap Z A) p : p ∈ keys m <-> is_Some (m !! p).
Proof. unfold keys. rewrite elem_of_sort, elem_of_elements. apply elem_of_dom. Qed.
Lemma keys_NoDup {A} (m : gmap Z A) : NoDup (keys m).
Proof. unfold keys. unfold Prelude.sort. rewrite sort_by_Permutation. apply NoDup_elements. Qed.
Lemma delete_all_lookup {A} (l : list Z) (m : gmap Z A) p :
  delete_all l m !! p = if decide (p ∈ l) then None else m !! p.
Proof.
  unfold delete_all. revert m. induction l as [|q l IH]; intros m; cbn [foldl].
  - rewrite decide_False; [done|]. apply not_elem_of_nil.
  - rewrite IH. destruct (decide (p ∈ l)) as [Hp|Hp]; [rewrite decide_True; [done|]; by apply list_elem_of_further|].
    destruct (decide (p = q)) as [->|Hq]; [rewrite lookup_delete_eq, decide_True; [done|]; left|].
    rewrite lookup_delete_ne, decide_False by (try done; rewrite elem_of_cons; tauto). done.
Qed.

(** After a successful [exec] one tracee of the thread group remains. *)
Lemma reconcile_Ok processes requested reported former change next :
  reconcile_exec_processes processes requested reported former = Ok (change, next) ->
  reported = requested /\ change_former change = former /\ change_survivor change = reported
  /\ thread_group <$> processes !! former = Some reported /\ thread_group <$> processes !! reported = Some reported
  /\ NoDup (change_superseded change)
  /\ (forall p, p ∈ change_superseded change <-> p <> former /\ thread_group <$> processes !! p = Some reported)
  /\ (exists exec_state, next !! reported = Some exec_state /\ thread_group exec_state = reported
        /\ awaiting_initial_stop exec_state = false /\ exists state, processes !! former = Some state /\ pending exec_state = pending state)
  /\ (forall p, p <> reported -> next !! p = if decide (thread_group <$> processes !! p = Some reported) then None else processes !! p).
Proof.
  unfold reconcile_exec_processes. destruct (Z.eqb_spec reported requested) as [->|]; [|done]. cbn [negb].
  intros (survivor & Hs%ok_or_Ok & (state & Hf%ok_or_Ok & H)%bind_Ok)%bind_Ok.
  destruct (Z.eqb_spec (thread_group survivor) requested) as [Hst|]; [|done].
  destruct (Z.eqb_spec (thread_group state) requested) as [Hft|]; [|done]. cbn [negb orb] in H.
  injection H as <- <-. cbn [change_former change_survivor change_superseded].
  rewrite Hf, Hs. cbn. rewrite Hst, Hft. do 5 (split; [done|]).
  assert (forall p, p ∈ filter (fun process => thread_group <$> delete former processes !! process = Some requested) (keys (delete former processes))
    <-> p <> former /\ thread_group <$> processes !! p = Some requested) as Hrep.
  { intros p. rewrite list_elem_of_filter, keys_spec. destruct (decide (p = former)) as [->|Hp].
    - rewrite lookup_delete_eq. cbn. split; [by intros [? _]|tauto].
    - rewrite !lookup_delete_ne by done. split; [tauto|]. intros [_ Ht]. split; [done|].
      apply (fmap_is_Some thread_group). rewrite Ht. by eexists. }
  split; [apply NoDup_filter, keys_NoDup|]. split; [exact Hrep|]. split.
  - eexists. rewrite lookup_insert_eq. split; [done|]. cbn. eauto.
  - intros p Hp. rewrite lookup_insert_ne by done. rewrite delete_all_lookup.
    destruct (decide (p = former)) as [->|Hpf].
    + rewrite lookup_delete_eq, Hf. cbn. rewrite (decide_True (P := Some (thread_group state) = _)) by (by rewrite Hft).
      by destruct (decide _).
    + rewrite lookup_delete_ne by done. destruct (decide (_ ∈ _)) as [Hin|Hin].
      * apply Hrep in Hin as [_ Hin]. by rewrite decide_True.
      * rewrite decide_False; [done|]. intros Ht. apply Hin, Hrep. done.
Qed.
