(* ===== verification/Candidate.v ===== *)
(** Advisory resolution of failed paths
    ([proofbound-runtime-linux/src/trace.rs], [observe_selected_object] to
    [walk_candidate_path]): the object behind a descriptor of the stopped tracee, and
    the object a failed path operation named, resolved twice inside the root of the
    tracee by a walk that follows symbolic links itself. *)
From S2P Require Import Prelude Plan Trace.
From Stdlib Require Import Ascii ZArith Lia Sorted.
From stdpp Require Import prelude strings list numbers gmap.
Export stdpp.list_relations.list.

Record TraceSelectedObject := mkTraceSelectedObject { so_path : list byte; so_identity : TraceObjectIdentity }.
Record TraceCandidateObject := mkTraceCandidateObject {
  co_path : list byte;
  co_symlink_hops : Z;
  co_object_before : TraceObjectIdentity;
  co_object_after : TraceObjectIdentity
}.
Inductive TraceCandidateObservation := Stable (candidate : TraceCandidateObject) | IdentityDrift | SymlinkLimit.
Inductive TraceObjectSource := Descriptor (descriptor : Z) | Executable.
Record CandidatePass := mkCandidatePass {
  cp_path : list byte;
  cp_symlink_hops : Z;
  cp_identity : TraceObjectIdentity
}.
Inductive CandidateResolutionError := Limit_SymlinkLimit | Unresolved.
#[global] Instance CandidateResolutionError_eq_dec : EqDecision CandidateResolutionError.
Proof. solve_decision. Defined.

(** [component.as_os_str()] *)
Definition as_os_str (c : Component) : list byte :=
  match c with
  | RootDir => ["/"%char]
  | CurDir => ["."%char]
  | ParentDir => ["."%char; "."%char]
  | Normal name => name
  end.
(** A [PathBuf] of proper names below the root, as text. *)
Definition path_text (path : Components) : list byte := "/"%char :: join_with "/"%char path.
Definition starts_with (path root : Components) : bool := bool_decide (root `prefix_of` path).
Definition deleted_suffix : list byte := String.list_ascii_of_string " (deleted)".
Definition ends_with (suffix l : list byte) : bool := bool_decide (suffix `suffix_of` l).
(** A signed number in a format string. *)
Definition display_i32 (z : Z) : list byte := if (z <? 0)%Z then "-"%char :: u64_decimal (- z) else u64_decimal z.
Definition proc_path (process : Z) (rest : list byte) : list byte :=
  String.list_ascii_of_string "/proc/" ++ u64_decimal process ++ rest.
Definition proc_text (process : Z) (rest : string) : list byte := proc_path process (String.list_ascii_of_string rest).
Definition retained_fd_path (descriptor : Z) : list byte :=
  String.list_ascii_of_string "/proc/self/fd/" ++ display_i32 descriptor.

Section Candidate.
Context `{TraceSys}.
Notation M := (eff World CandidateResolutionError).

(** One turn of the [while] loop: the state before it with the component taken, and
    the state after it. *)
Record Walk := mkWalk {
  walk_current : Components;
  walk_pending : list (list byte);
  walk_hops : Z;
  walk_target_bytes : Z
}.
Definition require_below (root : Components) (walk : Walk) : M Walk :=
  if starts_with (walk_current walk) root then mret walk else throw Unresolved.
Definition walk_step (root : Components) (path_byte_limit symlink_hop_limit : Z) (component : list byte) (walk : Walk) : M Walk :=
  match head (components component) with
  | None | Some RootDir | Some CurDir => mret walk
  | Some ParentDir =>
    require_below root
      (mkWalk (if bool_decide (walk_current walk = root) then walk_current walk else removelast (walk_current walk))
         (walk_pending walk) (walk_hops walk) (walk_target_bytes walk))
  | Some (Normal name) =>
    let candidate := walk_current walk ++ [name] in
    is_symlink ← call (symlink_metadata candidate) Unresolved;
    if (is_symlink : bool) then
      let hops := (walk_hops walk + 1)%Z in
      if (symlink_hop_limit <? hops)%Z then throw Limit_SymlinkLimit
      else
        target ← call (read_link candidate) Unresolved;
        let target_bytes := (walk_target_bytes walk + Z.of_nat (length target))%Z in
        if (path_byte_limit * symlink_hop_limit <? target_bytes)%Z then throw Unresolved
        else
          require_below root
            (mkWalk (if is_absolute target then root else walk_current walk)
               (map as_os_str (components target) ++ walk_pending walk) hops target_bytes)
    else require_below root (mkWalk candidate (walk_pending walk) (walk_hops walk) (walk_target_bytes walk))
  end.
(** [exhausted] is the outcome without fuel, which no walk reaches. *)
Fixpoint walk_loop (exhausted : M (Components * Z)) (fuel : nat) (root : Components) (path_byte_limit symlink_hop_limit : Z)
    (walk : Walk) : M (Components * Z) :=
  match fuel with
  | O => exhausted
  | S fuel =>
    match walk_pending walk with
    | [] => mret (walk_current walk, walk_hops walk)
    | component :: rest =>
      next ← walk_step root path_byte_limit symlink_hop_limit component
        (mkWalk (walk_current walk) rest (walk_hops walk) (walk_target_bytes walk));
      walk_loop exhausted fuel root path_byte_limit symlink_hop_limit next
    end
  end.
(** What the loop can still take: the pending components, and for every link that may
    still be followed a component per byte of a target and one for its root. *)
Definition walk_measure (path_byte_limit symlink_hop_limit : Z) (walk : Walk) : nat :=
  length (walk_pending walk) + Z.to_nat (path_byte_limit * symlink_hop_limit - walk_target_bytes walk)
  + 2 * Z.to_nat (symlink_hop_limit - walk_hops walk).
Definition walk_start (root base : Components) (operand : list byte) : Walk :=
  mkWalk (if is_absolute operand then root else base) (map as_os_str (components operand)) 0 0.
Definition walk_candidate_path (root base : Components) (operand : list byte) (path_byte_limit symlink_hop_limit : Z) :
    M (Components * Z) :=
  let start := walk_start root base operand in
  walk_loop (throw Unresolved) (S (walk_measure path_byte_limit symlink_hop_limit start)) root path_byte_limit
    symlink_hop_limit start.

Definition resolve_candidate_once (process : Z) (directory_fd : option Z) (operand : list byte)
    (path_byte_limit symlink_hop_limit : Z) : M CandidatePass :=
  root ← call (canonicalize (proc_text process "/root")) Unresolved;
  base ← (if is_absolute operand then mret root
          else
            anchor ← (match directory_fd with
                      | None => mret (proc_text process "/cwd")
                      | Some descriptor =>
                        if (descriptor =? AT_FDCWD)%Z then mret (proc_text process "/cwd")
                        else if (0 <=? descriptor)%Z
                        then mret (proc_path process (String.list_ascii_of_string "/fd/" ++ display_i32 descriptor))
                        else throw Unresolved
                      end : M (list byte));
            call (canonicalize anchor) Unresolved);
  if negb (starts_with base root) then throw Unresolved
  else
    walked ← walk_candidate_path root base operand path_byte_limit symlink_hop_limit;
    let resolved := walked.1 in
    if negb (starts_with resolved root) then throw Unresolved
    else
      let artifact_bytes := path_text (drop (length root) resolved) in
      if (path_byte_limit <? Z.of_nat (length artifact_bytes))%Z || bool_decide (mkb 0 ∈ artifact_bytes) then throw Unresolved
      else if bool_decide (mkb 0 ∈ path_text resolved) then throw Unresolved
      else
        object ← call (trace_open_object (path_text resolved)) Unresolved;
        retained ← call (trace_read_link (retained_fd_path object) path_byte_limit) Unresolved;
        if ends_with deleted_suffix retained
           || negb (bool_decide (components retained = components (path_text resolved)))
        then throw Unresolved
        else
          identity ← call (trace_object_metadata object) Unresolved;
          mret (mkCandidatePass artifact_bytes walked.2 identity).

(** [.ok()?] on each of the calls. *)
Definition observe_selected_object (process : Z) (source : TraceObjectSource) (limits : TraceCaptureLimits) (w : World) :
    option TraceSelectedObject * World :=
  let tracee_path :=
    match source with
    | Descriptor descriptor => proc_path process (String.list_ascii_of_string "/fd/" ++ display_i32 descriptor)
    | Executable => proc_text process "/exe"
    end in
  let observed : eff World () TraceSelectedObject :=
    object ← call (trace_open_object tracee_path) ();
    path ← call (trace_read_link (retained_fd_path object) (path_bytes limits)) ();
    identity ← call (trace_object_metadata object) ();
    mret (mkTraceSelectedObject path identity) in
  let '(r, w) := observed w in (result_ok r, w).
Definition eligible_selected_descriptor (class : TraceSyscallClass) (result : Z) (is_error : bool) (retained_processes : nat) :
    option Z :=
  if is_error || negb (retained_processes =? 1)
     || negb (bool_decide (class = Creat \/ class = Open \/ class = Openat \/ class = Openat2))
  then None
  else if (0 <=? result)%Z && (result <=? 2147483647)%Z then Some result else None.
Definition observe_successful_descriptor (process : Z) (invocation : TraceSyscallInvocation) (result : Z) (is_error : bool)
    (retained_processes : nat) (limits : TraceCaptureLimits) (w : World) : option TraceSelectedObject * World :=
  match eligible_selected_descriptor (iv_class invocation) result is_error retained_processes with
  | None => (None, w)
  | Some descriptor => observe_selected_object process (Descriptor descriptor) limits w
  end.
Definition observe_failed_candidate (process : Z) (invocation : TraceSyscallInvocation) (is_error : bool)
    (retained_processes : nat) (limits : TraceCaptureLimits) (w : World) : option TraceCandidateObservation * World :=
  if negb is_error || negb (retained_processes =? 1) then (None, w)
  else
    match iv_operands invocation with
    | Captured_Path _ directory_fd _ _ _ path _ =>
      if bool_decide (path = []) then (None, w)
      else
        let pass := resolve_candidate_once process directory_fd path (path_bytes limits) (symlink_hops limits) in
        match pass w with
        | (Err Limit_SymlinkLimit, w) => (Some SymlinkLimit, w)
        | (Err Unresolved, w) => (None, w)
        | (Ok before, w) =>
          match pass w with
          | (Err Limit_SymlinkLimit, w) => (Some SymlinkLimit, w)
          | (Err Unresolved, w) => (None, w)
          | (Ok after, w) =>
            if negb (bool_decide (cp_path before = cp_path after)) || negb (cp_symlink_hops before =? cp_symlink_hops after)%Z
               || negb (bool_decide (cp_identity before = cp_identity after))
            then (Some IdentityDrift, w)
            else
              (Some (Stable (mkTraceCandidateObject (cp_path after) (cp_symlink_hops after) (cp_identity before)
                               (cp_identity after))), w)
          end
        end
    | _ => (None, w)
    end.
End Candidate.

(** * The walk *)

Lemma split_on_length sep l : length (split_on sep l) <= S (length l).
Proof.
  induction l as [|b l IH]; cbn [split_on]; [done|]. case_bool_decide; cbn; [lia|].
  destruct (split_on sep l); cbn in *; lia.
Qed.
Lemma omap_length {A B} (f : A -> option B) l : length (omap f l) <= length l.
Proof. induction l as [|a l IH]; cbn; [done|]. destruct (f a); cbn; lia. Qed.
Lemma components_length l : length (components l) <= S (length l).
Proof.
  unfold components. pose proof (split_on_length "/"%char l) as Hlen. rewrite length_app.
  destruct (is_absolute l) eqn:Ha.
  - apply bool_decide_eq_true in Ha. destruct l as [|b l]; [done|]. injection Ha as ->.
    assert (split_on "/"%char ("/"%char :: l) = [] :: split_on "/"%char l) as -> by done.
    pose proof (omap_length component (split_on "/"%char l)). pose proof (split_on_length "/"%char l). cbn in *. lia.
  - case_bool_decide as Hc; [|pose proof (omap_length component (split_on "/"%char l)); cbn in *; lia].
    destruct (split_on "/"%char l) as [|p ps]; [done|]. injection Hc as ->.
    assert (omap component (["."%char] :: ps) = omap component ps) as -> by done.
    pose proof (omap_length component ps). cbn in *. lia.
Qed.
(** [as_os_str] loses nothing: parsing it again gives the component. *)
Definition proper_name (name : list byte) : Prop :=
  name <> [] /\ name <> ["."%char] /\ name <> ["."%char; "."%char] /\ "/"%char ∉ name.
Definition well_formed (c : Component) : Prop := match c with Normal name => proper_name name | _ => True end.
Lemma split_on_single sep l : sep ∉ l -> split_on sep l = [l].
Proof. intros Hl. apply split_on_iff. split; [done|]. split; [by repeat constructor|]. done. Qed.
Lemma as_os_str_components c : well_formed c -> head (components (as_os_str c)) = Some c.
Proof.
  destruct c as [| | |name]; [done..|]. intros (H1 & H2 & H3 & H4). cbn. unfold components, is_absolute.
  rewrite bool_decide_eq_false_2.
  2: { destruct name as [|b name]; [done|]. intros [= ->]. apply H4. left. }
  rewrite split_on_single by done. cbn. rewrite bool_decide_eq_false_2 by congruence. cbn. unfold component.
  rewrite !bool_decide_eq_false_2 by done. done.
Qed.
Lemma components_well_formed l : Forall well_formed (components l).
Proof.
  unfold components. apply Forall_app. split; [destruct (is_absolute l); [by repeat constructor|]; case_bool_decide; by repeat constructor|].
  apply Forall_forall. intros c (part & Hin & Hc)%list_elem_of_omap. unfold component in Hc.
  pose proof (split_on_parts "/"%char l) as Hp. rewrite Forall_forall in Hp. apply Hp in Hin.
  repeat case_bool_decide; cbn in Hc; simplify_eq; done.
Qed.

Section Walk.
Context `{TraceSys}.
Implicit Types (root current : Components) (walk next : Walk) (w : World).

(** What one turn of the loop does when it succeeds. *)
Inductive walked (root : Components) (path_byte_limit symlink_hop_limit : Z) (walk : Walk) (w : World) : Walk -> Prop :=
| walked_skip : walked root path_byte_limit symlink_hop_limit walk w walk
| walked_up current :
  current = walk_current walk \/ walk_current walk <> root /\ current = removelast (walk_current walk) ->
  root `prefix_of` current ->
  walked root path_byte_limit symlink_hop_limit walk w
    (mkWalk current (walk_pending walk) (walk_hops walk) (walk_target_bytes walk))
| walked_down name :
  proper_name name -> (symlink_metadata (walk_current walk ++ [name]) w).1 = Some false ->
  root `prefix_of` walk_current walk ++ [name] ->
  walked root path_byte_limit symlink_hop_limit walk w
    (mkWalk (walk_current walk ++ [name]) (walk_pending walk) (walk_hops walk) (walk_target_bytes walk))
| walked_link current target :
  current = root \/ current = walk_current walk -> root `prefix_of` current ->
  (walk_hops walk + 1 <= symlink_hop_limit)%Z ->
  (walk_target_bytes walk + Z.of_nat (length target) <= path_byte_limit * symlink_hop_limit)%Z ->
  walked root path_byte_limit symlink_hop_limit walk w
    (mkWalk current (map as_os_str (components target) ++ walk_pending walk) (walk_hops walk + 1)
       (walk_target_bytes walk + Z.of_nat (length target))).

Lemma require_below_Ok root walk w next w' :
  require_below root walk w = (Ok next, w') -> next = walk /\ w' = w /\ root `prefix_of` walk_current walk.
Proof. unfold require_below, starts_with. case_bool_decide; [|done]. by intros [= <- <-]. Qed.
Lemma walk_step_Ok root path_byte_limit symlink_hop_limit component walk w next w' :
  walk_step root path_byte_limit symlink_hop_limit component walk w = (Ok next, w') ->
  walked root path_byte_limit symlink_hop_limit walk w next.
Proof.
  unfold walk_step. pose proof (components_well_formed component) as Hwf.
  destruct (components component) as [|[| | |name] rest]; cbn [head];
    [by intros [= <- <-]; constructor..| |].
  - intros (-> & -> & Hp)%require_below_Ok. cbn in Hp. constructor; [|done]. case_bool_decide; [by left|by right].
  - apply Forall_cons in Hwf as [Hname _]. unfold mbind, eff_bind, call.
    destruct (symlink_metadata _ w) as [[[]|] w1] eqn:Hm; cbn [ok_or]; [| |done].
    + case_match eqn:Hh; [done|]. destruct (read_link _ w1) as [[target|] w2]; cbn [ok_or]; [|done].
      case_match eqn:Hb; [done|]. intros (-> & -> & Hp)%require_below_Ok. cbn in Hp.
      constructor; [by destruct (is_absolute target); [left|right]|done|lia|lia].
    + intros (-> & -> & Hp)%require_below_Ok. constructor; [done| |done]. by rewrite Hm.
Qed.

Definition walk_ok (root : Components) (path_byte_limit symlink_hop_limit : Z) (walk : Walk) : Prop :=
  root `prefix_of` walk_current walk /\ (0 <= walk_hops walk <= symlink_hop_limit)%Z
  /\ (0 <= walk_target_bytes walk <= path_byte_limit * symlink_hop_limit)%Z.
Lemma walked_walk_ok root path_byte_limit symlink_hop_limit walk w next :
  walked root path_byte_limit symlink_hop_limit walk w next ->
  walk_ok root path_byte_limit symlink_hop_limit walk -> walk_ok root path_byte_limit symlink_hop_limit next.
Proof. intros Hw (Hp & Hh & Hb). destruct Hw; repeat split; cbn; try done; lia. Qed.
Lemma walked_measure root path_byte_limit symlink_hop_limit walk w next :
  walked root path_byte_limit symlink_hop_limit walk w next ->
  walk_ok root path_byte_limit symlink_hop_limit walk ->
  walk_measure path_byte_limit symlink_hop_limit next <= walk_measure path_byte_limit symlink_hop_limit walk.
Proof.
  intros Hw (Hp & Hh & Hb). destruct Hw as [| | |current target Hc Hr Hlim Hbytes]; unfold walk_measure; cbn; try lia.
  rewrite length_app, length_map. pose proof (components_length target). lia.
Qed.

(** C21: the walk ends: above its measure the fuel is never used up, so that neither
    more of it nor another outcome for its end changes the result. *)
Theorem walk_terminates exhausted exhausted' fuel root path_byte_limit symlink_hop_limit walk w :
  walk_ok root path_byte_limit symlink_hop_limit walk -> walk_measure path_byte_limit symlink_hop_limit walk < fuel ->
  walk_loop exhausted fuel root path_byte_limit symlink_hop_limit walk w
  = walk_loop exhausted' (S (walk_measure path_byte_limit symlink_hop_limit walk)) root path_byte_limit symlink_hop_limit walk w.
Proof.
  assert (forall fuel fuel' walk w, walk_ok root path_byte_limit symlink_hop_limit walk ->
    walk_measure path_byte_limit symlink_hop_limit walk < fuel -> walk_measure path_byte_limit symlink_hop_limit walk < fuel' ->
    walk_loop exhausted fuel root path_byte_limit symlink_hop_limit walk w
    = walk_loop exhausted' fuel' root path_byte_limit symlink_hop_limit walk w)
    as Hgen; [|intros; apply Hgen; [done..|lia]].
  clear. induction fuel as [|fuel IH]; intros [|fuel'] walk w Hok Hf Hf'; [lia..|]. cbn [walk_loop].
  destruct (walk_pending walk) as [|component rest] eqn:Hpend; [done|]. unfold mbind, eff_bind.
  destruct (walk_step _ _ _ _ _ w) as [[next|e] w1] eqn:Hs; [|done]. apply walk_step_Ok in Hs.
  pose proof (walked_measure _ _ _ _ _ _ Hs Hok) as Hm. apply walked_walk_ok in Hs; [|exact Hok].
  unfold walk_measure in Hf, Hf'. rewrite Hpend in Hf, Hf'. unfold walk_measure at 2 in Hm. cbn in Hf, Hf', Hm. apply IH; [done|lia..].
Qed.

(** The rule of induction for a walk that ends: a property of the current path that
    every turn preserves holds of the resolved path. *)
Lemma walk_loop_ind (P : Components -> Prop) fuel root path_byte_limit symlink_hop_limit walk w path hops w' :
  (forall walk w next, walk_ok root path_byte_limit symlink_hop_limit walk -> P (walk_current walk) ->
     walked root path_byte_limit symlink_hop_limit walk w next -> P (walk_current next)) ->
  walk_ok root path_byte_limit symlink_hop_limit walk -> P (walk_current walk) ->
  walk_loop (throw Unresolved) fuel root path_byte_limit symlink_hop_limit walk w = (Ok (path, hops), w') ->
  P path /\ root `prefix_of` path /\ (0 <= hops <= symlink_hop_limit)%Z.
Proof.
  intros Hstep. revert walk w. induction fuel as [|fuel IH]; intros walk w Hok HP; cbn [walk_loop]; [done|].
  destruct (walk_pending walk) as [|component rest] eqn:Hpend.
  - intros [= <- <- <-]. split; [done|]. destruct Hok as (Hp & Hh & _). done.
  - unfold mbind, eff_bind. destruct (walk_step _ _ _ _ _ w) as [[next|e] w1] eqn:Hs; [|done]. apply walk_step_Ok in Hs.
    apply IH; [by eapply walked_walk_ok|]. by eapply (Hstep _ _ _ _ _ Hs).
Unshelve. all: try done.
Qed.
Lemma walk_start_ok root base operand path_byte_limit symlink_hop_limit :
  root `prefix_of` base -> (0 <= path_byte_limit)%Z -> (0 <= symlink_hop_limit)%Z ->
  walk_ok root path_byte_limit symlink_hop_limit (walk_start root base operand).
Proof. intros. unfold walk_start. repeat split; cbn; [by destruct (is_absolute operand)|lia..|nia]. Qed.
(** No operand and no link leads outside the root, and at most the declared number
    of links is followed. *)
Lemma walk_below root base operand path_byte_limit symlink_hop_limit w path hops w' :
  root `prefix_of` base -> (0 <= path_byte_limit)%Z -> (0 <= symlink_hop_limit)%Z ->
  walk_candidate_path root base operand path_byte_limit symlink_hop_limit w = (Ok (path, hops), w') ->
  root `prefix_of` path /\ (0 <= hops <= symlink_hop_limit)%Z.
Proof.
  intros Hb Hp Hs Hw. eapply (walk_loop_ind (fun _ => True)) in Hw as [_ Hr]; [done|done|by apply walk_start_ok|done].
Qed.
End Walk.

(** * The resolved path *)

(** Files that do not change while they are looked at. *)
Class StaticFiles `{TraceSys} := {
  lstat : Components -> option bool;
  symlink_metadata_static path (w : World) : (symlink_metadata path w).1 = lstat path
}.

Section Resolved.
Context `{StaticFiles}.
Implicit Types (root base path : Components) (w : World).

(** The path names an object below the root without a symbolic link on the way. *)
Definition canonical_below root path : Prop :=
  exists names, path = root ++ names /\ Forall proper_name names
    /\ forall i, i < length names -> lstat (root ++ take (S i) names) = Some false.

Lemma canonical_root root : canonical_below root root.
Proof. exists []. rewrite app_nil_r. split; [done|]. split; [constructor|]. cbn. lia. Qed.
Lemma canonical_down root path name :
  canonical_below root path -> proper_name name -> lstat (path ++ [name]) = Some false -> canonical_below root (path ++ [name]).
Proof.
  intros (names & -> & Hn & Hl) Hname Hs. exists (names ++ [name]). rewrite app_assoc. split; [done|].
  split; [apply Forall_app; split; [done|by constructor]|]. intros i Hi. rewrite length_app in Hi. cbn in Hi.
  destruct (decide (i < length names)); [rewrite take_app_le by lia; by apply Hl|].
  rewrite take_ge by (rewrite length_app; cbn; lia). by rewrite app_assoc.
Qed.
Lemma canonical_up root path : canonical_below root path -> path <> root -> canonical_below root (removelast path).
Proof.
  intros (names & -> & Hn & Hl) Hne. destruct names as [|x names _] using rev_ind; [by rewrite app_nil_r in Hne|].
  rewrite app_assoc, removelast_last. exists names. apply Forall_app in Hn as [Hn _]. split; [done|]. split; [done|].
  intros i Hi. rewrite <- (Hl i) by (rewrite length_app; lia). by rewrite take_app_le by lia.
Qed.

Lemma components_path_text names :
  Forall proper_name names -> components (path_text names) = RootDir :: map Normal names.
Proof.
  intros Hn. unfold components, path_text. change (is_absolute ("/"%char :: join_with "/"%char names)) with true. cbv iota.
  assert (omap component (split_on "/"%char ("/"%char :: join_with "/"%char names)) = map Normal names) as ->; [|done].
  assert (split_on "/"%char ("/"%char :: join_with "/"%char names) = [] :: split_on "/"%char (join_with "/"%char names)) as -> by done.
  destruct (decide (names = [])) as [->|Hne]; [done|].
  assert (split_on "/"%char (join_with "/"%char names) = names) as ->.
  { apply split_on_iff. split; [done|]. split; [|done]. eapply Forall_impl; [exact Hn|]. by intros c (_ & _ & _ & ?). }
  change (omap component ([] :: names)) with (omap component names).
  clear Hne. induction Hn as [|name names (H1 & H2 & H3 & H4) Hn IH]; [done|]. cbn. unfold component at 1.
  rewrite !bool_decide_eq_false_2 by done. cbn. by f_equal.
Qed.

Lemma walk_names exhausted fuel root path_byte_limit symlink_hop_limit done names w :
  Forall proper_name names -> (forall i, i < length names -> lstat (root ++ done ++ take (S i) names) = Some false) ->
  length names < fuel ->
  (walk_loop exhausted fuel root path_byte_limit symlink_hop_limit (mkWalk (root ++ done) names 0 0) w).1 = Ok (root ++ done ++ names, 0%Z).
Proof.
  revert done names w. induction fuel as [|fuel IH]; intros done names w Hn Hl Hf; [lia|]. cbn [walk_loop walk_pending].
  destruct names as [|name names]; [by rewrite app_nil_r|]. apply Forall_cons in Hn as [Hname Hn].
  cbn [walk_current walk_hops walk_target_bytes]. unfold mbind, eff_bind, walk_step.
  rewrite (as_os_str_components (Normal name) Hname : head (components name) = _). cbn [walk_current].
  unfold mbind, eff_bind, call. pose proof (symlink_metadata_static ((root ++ done) ++ [name]) w) as Hm.
  rewrite <- app_assoc in *. pose proof (Hl 0 ltac:(cbn; lia)) as Hl0. change (take 1 (name :: names)) with [name] in Hl0. rewrite Hl0 in Hm. destruct (symlink_metadata _ w) as [o w1]. cbn in Hm. subst o.
  cbn [ok_or]. unfold require_below, starts_with. cbn [walk_current]. rewrite bool_decide_eq_true_2 by by eexists.
  unfold mret, eff_ret. cbn [walk_pending walk_hops walk_target_bytes]. rewrite (IH (done ++ [name]) names w1).
  - by rewrite <- app_assoc.
  - done.
  - intros i Hi. rewrite <- app_assoc. apply (Hl (S i)). cbn. lia.
  - cbn in Hf. lia.
Qed.

(** C19: while files do not change, the resolved path is canonical: it passes through no
    symbolic link, and resolving it again from any directory follows none and
    gives it back. *)
Theorem walk_canonical root base operand path_byte_limit symlink_hop_limit w path hops w' :
  canonical_below root base -> (0 <= path_byte_limit)%Z -> (0 <= symlink_hop_limit)%Z ->
  walk_candidate_path root base operand path_byte_limit symlink_hop_limit w = (Ok (path, hops), w') ->
  canonical_below root path /\ (0 <= hops <= symlink_hop_limit)%Z
  /\ forall base' w2, (walk_candidate_path root base' (path_text (drop (length root) path)) path_byte_limit symlink_hop_limit w2).1
       = Ok (path, 0%Z).
Proof.
  intros Hb Hp Hs Hw. assert (root `prefix_of` base) as Hpre by (destruct Hb as (names & -> & _); by eexists).
  eapply (walk_loop_ind (canonical_below root)) in Hw as (Hc & _ & Hh).
  - split; [done|]. split; [done|]. intros base' w2. destruct Hc as (names & -> & Hn & Hl).
    rewrite drop_app_length. unfold walk_candidate_path. unfold walk_start at 2. rewrite components_path_text by done.
    change (is_absolute (path_text names)) with true. cbv iota. cbn [map walk_loop walk_pending].
    unfold mbind, eff_bind. unfold walk_step. cbn [as_os_str].
    change (head (components ["/"%char])) with (Some RootDir). cbv iota. cbn [mret eff_ret walk_current walk_hops walk_target_bytes].
    unfold mret, eff_ret. rewrite map_map, (map_ext _ id), map_id by done.
    pose proof (fun fuel => walk_names (throw Unresolved) fuel root path_byte_limit symlink_hop_limit [] names w2) as Hnames.
    rewrite app_nil_r in Hnames. cbn [app] in Hnames. apply Hnames; [done| |].
    + intros i Hi. by apply Hl.
    + unfold walk_measure, walk_start. rewrite components_path_text by done. cbn. rewrite length_map, length_map. lia.
  - intros walk w1 next (Hr & _) Hcur Hwalk. destruct Hwalk as [|current [->|[Hne ->]]|name Hname Hm|current target [-> | ->]]; cbn.
    + done.
    + done.
    + by apply canonical_up.
    + apply canonical_down; [done..|]. by rewrite <- symlink_metadata_static with (w := w1).
    + apply canonical_root.
    + done.
  - by apply walk_start_ok.
  - unfold walk_start. cbn. destruct (is_absolute operand); [apply canonical_root|done].
Qed.
End Resolved.

(** * Candidates *)

(** What [std::fs::canonicalize] documents of the path it returns. *)
Class CanonicalPaths `{TraceSys} := {
  canonicalize_proper path (w : World) names : (canonicalize path w).1 = Some names -> Forall proper_name names
}.

Section Observed.
Context `{CanonicalPaths}.
Implicit Types (w : World) (limits : TraceCaptureLimits).

Definition names_below (root path : Components) : Prop := exists names, path = root ++ names /\ Forall proper_name names.
Lemma names_below_walked root path_byte_limit symlink_hop_limit walk w next :
  names_below root (walk_current walk) -> walked root path_byte_limit symlink_hop_limit walk w next ->
  names_below root (walk_current next).
Proof.
  intros (names & Heq & Hn) Hw.
  assert (names_below root root) as Hroot by (exists []; split; [by rewrite app_nil_r|constructor]).
  destruct Hw as [|current [->|[Hne ->]] Hr|name Hname|current target [-> | ->]]; cbn in *; try (by exists names); try done.
  - destruct names as [|x names _] using rev_ind; [by rewrite app_nil_r in Heq|].
    rewrite Heq, app_assoc, removelast_last. exists names. split; [done|]. by apply Forall_app in Hn as [? _].
  - rewrite Heq, <- app_assoc. exists (names ++ [name]). split; [done|]. apply Forall_app. split; [done|]. by constructor.
Qed.

(** What one pass yields: a bounded path of proper names below the root, and at most
    the declared number of links. *)
Lemma resolve_candidate_once_Ok process directory_fd operand path_byte_limit symlink_hop_limit w pass w' :
  (0 <= path_byte_limit)%Z -> (0 <= symlink_hop_limit)%Z ->
  resolve_candidate_once process directory_fd operand path_byte_limit symlink_hop_limit w = (Ok pass, w') ->
  (exists names, cp_path pass = path_text names /\ Forall proper_name names)
  /\ (Z.of_nat (length (cp_path pass)) <= path_byte_limit)%Z /\ mkb 0 ∉ cp_path pass
  /\ (0 <= cp_symlink_hops pass <= symlink_hop_limit)%Z.
Proof.
  intros Hp0 Hs0. unfold resolve_candidate_once. intros (root & w1 & Hroot & Hrest)%eff_bind_Ok.
  apply eff_bind_Ok in Hrest as (base & w2 & Hbase & Hrest).
  assert (Forall proper_name base) as Hproper.
  { assert (forall p w o w', call (canonicalize p) Unresolved w = (Ok o, w') -> Forall proper_name o) as Hcall.
    { intros p w0 o w0'. unfold call. pose proof (canonicalize_proper p w0) as Hc.
      destruct (canonicalize p w0) as [[names|] wc]; cbn; [|done]. intros [= <- _]. by apply Hc. }
    destruct (is_absolute operand); [injection Hbase as <- <-; by eapply Hcall|].
    apply eff_bind_Ok in Hbase as (anchor & w3 & _ & Hb). by eapply Hcall. }
  destruct (starts_with base root) eqn:Hpre; cbn [negb] in Hrest; [|done].
  apply bool_decide_eq_true in Hpre as [names ->]. apply Forall_app in Hproper as [_ Hproper].
  apply eff_bind_Ok in Hrest as ([resolved hops] & w3 & Hwalk & Hrest). cbn [fst snd] in Hrest.
  eapply (walk_loop_ind (names_below root)) in Hwalk as ((k & -> & Hk) & Hpre & Hh).
  2: { intros walk w0 next _ Hn Hw. by eapply names_below_walked. }
  2: { apply walk_start_ok; [by eexists|done..]. }
  2: { unfold walk_start. cbn. destruct (is_absolute operand); [exists []; by rewrite app_nil_r|by exists names]. }
  unfold starts_with in Hrest. rewrite bool_decide_eq_true_2 in Hrest by done. cbn [negb] in Hrest.
  rewrite drop_app_length in Hrest. case_match eqn:Hbound; [done|]. apply orb_false_iff in Hbound as [Hlen Hnul].
  apply bool_decide_eq_false in Hnul. apply Z.ltb_ge in Hlen. case_match; [done|].
  apply eff_bind_Ok in Hrest as (object & w4 & _ & Hrest). apply eff_bind_Ok in Hrest as (retained & w5 & _ & Hrest).
  case_match; [done|]. apply eff_bind_Ok in Hrest as (identity & w6 & _ & [= <- <-]).
  cbn [cp_path cp_symlink_hops]. split; [by exists k|]. done.
Qed.

(** A candidate is reported as stable only for a failed operation of the single
    tracee, from two passes that found the same path and the same object; the path
    is absolute, normalized and within its bound. *)
Theorem stable_candidate_sound process invocation is_error retained limits w candidate w' :
  (0 <= path_bytes limits)%Z -> (0 <= symlink_hops limits)%Z ->
  observe_failed_candidate process invocation is_error retained limits w = (Some (Stable candidate), w') ->
  is_error = true /\ retained = 1 /\ co_object_before candidate = co_object_after candidate
  /\ (exists names, co_path candidate = path_text names /\ Forall proper_name names)
  /\ (Z.of_nat (length (co_path candidate)) <= path_bytes limits)%Z /\ mkb 0 ∉ co_path candidate
  /\ (0 <= co_symlink_hops candidate <= symlink_hops limits)%Z.
Proof.
  intros Hp Hs. unfold observe_failed_candidate. destruct is_error; [|done]. cbn [negb orb].
  destruct (Nat.eqb_spec retained 1) as [->|]; [|done]. cbn [negb].
  destruct (iv_operands invocation) as [? directory_fd ? ? ? path ?| | |]; [|done..]. case_bool_decide; [done|].
  destruct (resolve_candidate_once _ _ _ _ _ w) as [[before|[]] w1]; [|done..].
  destruct (resolve_candidate_once _ _ _ _ _ w1) as [[after|[]] w2] eqn:Ha; [|done..].
  apply resolve_candidate_once_Ok in Ha; [|done..].
  destruct (bool_decide (cp_path before = cp_path after)); [|done]. destruct (cp_symlink_hops before =? _)%Z; [|done].
  destruct (bool_decide (cp_identity before = cp_identity after)) eqn:Hi; [|done]. apply bool_decide_eq_true in Hi.
  cbn [negb orb]. intros [= <- <-]. cbn. tauto.
Qed.
End Observed.
