(* ===== verification/TraceActive.v ===== *)
(** The active trace ([proofbound-runtime-linux/src/trace.rs], [ActiveTrace] and
    [DrainingTrace]): the known process tree, the wait loop, the events it returns
    and the drain after a termination.  A method that takes [&mut self] is a
    computation on the trace and the world; both are kept with an error. *)
From S2P Require Import Prelude Trace Candidate.
From Stdlib Require Import Ascii ZArith Lia Sorted.
From stdpp Require Import prelude strings list numbers gmap.
Export stdpp.list_relations.list.

Inductive TraceTermination := Exit (code : Z) | Signal (signal : Z).
Inductive ActiveTraceEvent :=
| SyscallCompleted (process : TraceProcessId) (invocation : TraceSyscallInvocation) (result : Z) (is_error : bool)
    (selected_object : option TraceSelectedObject) (candidate : option TraceCandidateObservation)
| ProcessCreated (parent child : TraceProcessId) (kind : TraceProcessCreationKind)
| ImageReplaced (former_process process : TraceProcessId) (superseded_processes : list TraceProcessId)
    (invocation : option TraceSyscallInvocation) (selected_object : option TraceSelectedObject)
| ProcessExited (process : TraceProcessId) (termination : TraceTermination)
| UnexpectedStop (process : TraceProcessId) (signal event : Z).
Inductive TraceDrainObservation :=
| Drain_ProcessCreated (parent child : TraceProcessId) (kind : TraceProcessCreationKind)
| Drain_ImageReplaced (former_process process : TraceProcessId) (superseded_processes : list TraceProcessId)
| Drain_ProcessExited (process : TraceProcessId) (termination : TraceTermination).

(** [session] is its process and its deadline; a handle is its descriptor. *)
Record ActiveTrace := mkActiveTrace {
  session_process : TraceProcessId;
  session_deadline : Z;
  processes : gmap Z TraceeState;
  process_handles : gmap Z Z;
  held_process : option TraceProcessId;
  must_drain : bool;
  process_limit : Z;
  tree_reconciliation_failed : bool;
  capture_limits : TraceCaptureLimits
}.
Definition with_processes (p : gmap Z TraceeState) (t : ActiveTrace) : ActiveTrace :=
  mkActiveTrace (session_process t) (session_deadline t) p (process_handles t) (held_process t) (must_drain t) (process_limit t)
    (tree_reconciliation_failed t) (capture_limits t).
Definition with_handles (h : gmap Z Z) (t : ActiveTrace) : ActiveTrace :=
  mkActiveTrace (session_process t) (session_deadline t) (processes t) h (held_process t) (must_drain t) (process_limit t)
    (tree_reconciliation_failed t) (capture_limits t).
Definition with_held (p : option TraceProcessId) (t : ActiveTrace) : ActiveTrace :=
  mkActiveTrace (session_process t) (session_deadline t) (processes t) (process_handles t) p (must_drain t) (process_limit t)
    (tree_reconciliation_failed t) (capture_limits t).
Definition with_must_drain (t : ActiveTrace) : ActiveTrace :=
  mkActiveTrace (session_process t) (session_deadline t) (processes t) (process_handles t) (held_process t) true (process_limit t)
    (tree_reconciliation_failed t) (capture_limits t).
Definition with_reconciliation_failed (b : bool) (t : ActiveTrace) : ActiveTrace :=
  mkActiveTrace (session_process t) (session_deadline t) (processes t) (process_handles t) (held_process t) (must_drain t) (process_limit t)
    b (capture_limits t).
(** [TraceReady::release] *)
Definition ActiveTrace_released (root deadline handle limit : Z) (limits : TraceCaptureLimits) : ActiveTrace :=
  mkActiveTrace root deadline {[root := released_at_unknown_syscall_phase root]} {[root := handle]} None false limit false limits.
Definition is_drained (t : ActiveTrace) : bool := bool_decide (processes t = ∅) && negb (tree_reconciliation_failed t).
Definition remove_unused_process_handles (t : ActiveTrace) : ActiveTrace :=
  with_handles
    (filter (fun entry => entry.1 ∈ map (fun known => thread_group known.2) (map_to_list (processes t))) (process_handles t)) t.

Section Active.
Context `{TraceSys}.
Notation M := (eff (ActiveTrace * World) TraceObservationError).

Definition sys {E A} (m : eff World E A) : eff (ActiveTrace * World) E A := fun s =>
  let '(r, w) := m s.2 in (r, (s.1, w)).
Definition get : M ActiveTrace := fun s => (Ok s.1, s).
Definition modify (f : ActiveTrace -> ActiveTrace) : M () := fun s => (Ok (), (f s.1, s.2)).
(** The result of a computation as a value. *)
Definition attempt {A} (m : M A) : M (result TraceObservationError A) := fun s => let '(r, s) := m s in (Ok r, s).
(** [deadline.expired()] *)
Definition expired (deadline : Z) (w : World) : bool * World := let '(t, w) := now w in ((deadline <=? t)%Z, w).
Definition drain_with {A} (e : TraceObservationError) : M A := _ ← modify with_must_drain; throw e.
Definition resume_before_deadline (process : TraceProcessId) : M () :=
  self ← get;
  late ← sys (ask (expired (session_deadline self)));
  if (late : bool) then drain_with WaitTimedOut
  else
    resumed ← attempt (sys (call (trace_syscall process) ResumeFailed));
    match resumed with Ok _ => mret () | Err e => drain_with e end.
(** [trace_event_process] and [TraceProcessId::new] on its answer *)
Definition event_process (reported : TraceProcessId) : M TraceProcessId :=
  value ← sys (call (trace_event_process reported) EventMessageInvalid);
  lift_result (map_err (fun _ => ProcessIdentityInvalid) (TraceProcessId_new value)).
Definition open_handle_if_vacant (thread_group : TraceProcessId) : M () :=
  self ← get;
  match process_handles self !! thread_group with
  | Some _ => mret ()
  | None =>
    handle ← sys (call (trace_open_process_handle thread_group) ProcessHandleFailed);
    modify (fun t => with_handles (<[thread_group := handle]> (process_handles t)) t)
  end.
Definition reconcile_exec_identity (requested reported : TraceProcessId) : M ExecIdentityChange :=
  former ← event_process reported;
  self ← get;
  change ← lift_result (reconcile_exec_processes (processes self) requested reported former);
  _ ← modify (with_processes change.2);
  _ ← open_handle_if_vacant reported;
  _ ← modify remove_unused_process_handles;
  mret change.1.
Definition register_child (child : TraceProcessId) : M bool :=
  self ← get;
  let count := Z.of_nat (base.size (processes self)) in
  if (drain_capacity (process_limit self) <=? count)%Z then throw ProcessCapacityExceeded
  else
    thread_group ← sys (read_thread_group_id child);
    _ ← open_handle_if_vacant thread_group;
    _ ← modify (fun t => with_processes (<[child := awaiting_stop thread_group]> (processes t)) t);
    mret (process_limit self <=? count)%Z.
Definition record_terminal_process (process : TraceProcessId) : M () :=
  self ← get;
  match processes self !! process with
  | None => throw ProcessUnknown
  | Some _ =>
    _ ← modify (with_processes (delete process (processes self)));
    modify remove_unused_process_handles
  end.
Definition tracee (process : TraceProcessId) : M TraceeState :=
  self ← get; lift_result (ok_or (processes self !! process) ProcessUnknown).
Definition set_tracee (process : TraceProcessId) (state : TraceeState) : M () :=
  modify (fun t => with_processes (<[process := state]> (processes t)) t).
(** A function that observes and cannot fail. *)
Definition observe {A} (f : ActiveTrace -> World -> A * World) : M A := fun s => let '(a, w) := f s.1 s.2 in (Ok a, (s.1, w)).

Definition handle_syscall_stop (process : TraceProcessId) : M (option ActiveTraceEvent) :=
  state ← tracee process;
  if awaiting_initial_stop state then throw InitialStopMissing
  else
    stop ← sys (call (trace_syscall_stop process) SyscallInformationInvalid);
    match stop with
    | Stop_Entry registers =>
      self ← get;
      invocation ← sys (capture_syscall_invocation process registers (capture_limits self));
      state ← tracee process;
      next ← lift_result (begin_syscall state (from_option Captured Ignored invocation));
      _ ← set_tracee process next;
      _ ← resume_before_deadline process;
      mret None
    | Stop_Exit result is_error =>
      state ← tracee process;
      finished ← lift_result (finish_syscall state);
      _ ← set_tracee process finished.2;
      match finished.1 with
      | None => _ ← resume_before_deadline process; mret None
      | Some Ignored => _ ← resume_before_deadline process; mret None
      | Some (Captured invocation) =>
        selected ← observe (fun t =>
          observe_successful_descriptor process invocation result is_error (base.size (processes t)) (capture_limits t));
        candidate ← observe (fun t =>
          observe_failed_candidate process invocation is_error (base.size (processes t)) (capture_limits t));
        _ ← modify (with_held (Some process));
        mret (Some (SyscallCompleted process invocation result is_error selected candidate))
      end
    | Stop_Seccomp | Stop_None => throw SyscallInformationInvalid
    end.
Definition handle_exec (requested reported : TraceProcessId) : M (option ActiveTraceEvent) :=
  change ← reconcile_exec_identity requested reported;
  self ← get;
  let survivor := change_survivor change in
  let invocation :=
    match pending <$> processes self !! survivor with
    | Some (Some (Captured invocation)) => Some invocation
    | _ => None
    end in
  selected ← observe (fun t => observe_selected_object survivor Executable (capture_limits t));
  _ ← modify (with_held (Some survivor));
  mret (Some (ImageReplaced (change_former change) survivor (change_superseded change) invocation selected)).
Definition handle_creation (reported : TraceProcessId) (kind : TraceProcessCreationKind) : M (option ActiveTraceEvent) :=
  _ ← modify (with_reconciliation_failed true);
  child ← event_process reported;
  self ← get;
  if bool_decide (is_Some (processes self !! child)) then throw ProcessIdentityDuplicate
  else
    capacity_exceeded ← register_child child;
    _ ← modify (with_reconciliation_failed false);
    _ ← modify (fun t => if (capacity_exceeded : bool) then with_must_drain t else t);
    _ ← modify (with_held (Some reported));
    mret (Some (ProcessCreated reported child kind)).
Definition handle_wait_observation (requested : TraceProcessId) (observation : TraceWaitObservation) :
    M (option ActiveTraceEvent) :=
  reported ← lift_result (map_err (fun _ => ProcessIdentityInvalid) (TraceProcessId_new (wo_process_id observation)));
  if negb (reported =? requested)%Z then throw ProcessIdentityChanged
  else
    match wo_status observation with
    | Stopped signal event =>
      if (signal =? SIGNAL_TRAP)%Z && trace_event_is_exec event then handle_exec requested reported
      else
        match (if (signal =? SIGNAL_TRAP)%Z then trace_process_creation_event event else None) with
        | Some kind => handle_creation reported kind
        | None =>
          if (signal =? SIGNAL_SYSCALL)%Z && (event =? 0)%Z then handle_syscall_stop reported
          else
            self ← get;
            if (signal =? SIGNAL_STOP)%Z && (event =? 0)%Z
               && from_option awaiting_initial_stop false (processes self !! reported)
            then
              state ← tracee reported;
              _ ← set_tracee reported
                    (mkTraceeState (thread_group state) false (allow_initial_exit state) (pending state));
              _ ← resume_before_deadline reported;
              mret None
            else
              _ ← modify with_must_drain;
              mret (Some (UnexpectedStop reported signal event))
        end
    | Exited code => _ ← record_terminal_process reported; mret (Some (ProcessExited reported (Exit code)))
    | Signaled signal => _ ← record_terminal_process reported; mret (Some (ProcessExited reported (Signal signal)))
    end.

(** [if self.session.deadline.expired() { .. return Err(WaitTimedOut) }] *)
Definition before_deadline : M () :=
  self ← get; late ← sys (ask (expired (session_deadline self))); if (late : bool) then drain_with WaitTimedOut else mret ().
(** One pass of [for requested in processes]. *)
Fixpoint poll (requests : list TraceProcessId) : M (option ActiveTraceEvent) :=
  match requests with
  | [] => mret None
  | requested :: rest =>
    waited ← attempt (sys (call (trace_wait_event_nonblocking requested) WaitFailed));
    match waited with
    | Err e => drain_with e
    | Ok None => poll rest
    | Ok (Some observation) =>
      _ ← before_deadline;
      handled ← attempt (handle_wait_observation requested observation);
      _ ← before_deadline;
      match handled with
      | Ok None => poll rest
      | Ok (Some event) => mret (Some event)
      | Err e => drain_with e
      end
    end
  end.
(** [loop]: every turn without an event sleeps, and the deadline ends it. *)
Fixpoint wait_loop (fuel : nat) : M ActiveTraceEvent :=
  match fuel with
  | O => drain_with WaitTimedOut
  | S fuel =>
    self ← get;
    polled ← poll (keys (processes self));
    match polled with
    | Some event => mret event
    | None => _ ← before_deadline; _ ← sys (ask (fun w => ((), sleep w))); wait_loop fuel
    end
  end.
Definition next_event (fuel : nat) : M ActiveTraceEvent :=
  self ← get;
  if must_drain self then throw DrainRequired
  else if bool_decide (processes self = ∅) then throw ProcessTreeDrained
  else
    _ ← before_deadline;
    _ ← modify (with_held None);
    _ ← match held_process self with Some process => resume_before_deadline process | None => mret () end;
    wait_loop fuel.

(** * Termination and drain *)

Definition TRACE_DRAIN_TIMEOUT : Z := 5000000000.
(** [TraceDeadline::cleanup] *)
Definition cleanup : M Z :=
  t ← sys (ask now);
  let deadline := (t + TRACE_DRAIN_TIMEOUT)%Z in
  if (deadline <=? instant_limit)%Z then mret deadline else throw DrainFailed.
Fixpoint kill_all (handles : list Z) (failed : bool) : M bool :=
  match handles with
  | [] => mret failed
  | handle :: rest =>
    killed ← attempt (sys (call (trace_kill_process_handle handle) DrainFailed));
    kill_all rest (failed || negb (is_ok killed))
  end.
(** [values()] of the handles, in the order of their keys *)
Definition signal_all_process_groups : M () :=
  self ← get;
  failed ← kill_all (omap (fun group => process_handles self !! group) (keys (process_handles self))) false;
  if (failed : bool) then throw DrainFailed else mret ().
(** The state of the [DrainingTrace] is the trace itself; the result is its deadline. *)
Definition begin_termination : M Z :=
  deadline ← cleanup;
  _ ← modify (with_held None);
  _ ← modify with_must_drain;
  _ ← signal_all_process_groups;
  mret deadline.
Definition signal_process (process : TraceProcessId) : M () :=
  self ← get;
  group ← lift_result (ok_or (thread_group <$> processes self !! process) ProcessUnknown);
  handle ← lift_result (ok_or (process_handles self !! group) ProcessHandleFailed);
  sys (call (trace_kill_process_handle handle) DrainFailed).
Definition handle_drain_observation (requested : TraceProcessId) (observation : TraceWaitObservation) :
    M (option TraceDrainObservation) :=
  reported ← lift_result (map_err (fun _ => ProcessIdentityInvalid) (TraceProcessId_new (wo_process_id observation)));
  if negb (reported =? requested)%Z then throw ProcessIdentityChanged
  else
    match wo_status observation with
    | Stopped signal event =>
      if (signal =? SIGNAL_TRAP)%Z && trace_event_is_exec event then
        change ← reconcile_exec_identity requested reported;
        _ ← signal_process (change_survivor change);
        mret (Some (Drain_ImageReplaced (change_former change) (change_survivor change) (change_superseded change)))
      else
        match (if (signal =? SIGNAL_TRAP)%Z then trace_process_creation_event event else None) with
        | Some kind =>
          child ← event_process reported;
          self ← get;
          _ ← (if bool_decide (is_Some (processes self !! child)) then mret false else register_child child);
          _ ← signal_process child;
          _ ← signal_process reported;
          mret (Some (Drain_ProcessCreated reported child kind))
        | None => _ ← signal_process reported; mret None
        end
    | Exited code => _ ← record_terminal_process reported; mret (Some (Drain_ProcessExited reported (Exit code)))
    | Signaled signal => _ ← record_terminal_process reported; mret (Some (Drain_ProcessExited reported (Signal signal)))
    end.
Definition before_cleanup (deadline : Z) : M () :=
  late ← sys (ask (expired deadline)); if (late : bool) then throw DrainTimedOut else mret ().
(** One pass; the flag tells whether a wait result was observed. *)
Fixpoint drain_pass (deadline : Z) (requests : list TraceProcessId) (observed : bool) (observations : list TraceDrainObservation) :
    M (bool * list TraceDrainObservation) :=
  match requests with
  | [] => mret (observed, observations)
  | requested :: rest =>
    self ← get;
    if negb (bool_decide (is_Some (processes self !! requested))) then drain_pass deadline rest observed observations
    else
      waited ← sys (call (trace_wait_event_nonblocking requested) DrainFailed);
      match waited with
      | None => drain_pass deadline rest observed observations
      | Some observation =>
        _ ← before_cleanup deadline;
        handled ← handle_drain_observation requested observation;
        _ ← before_cleanup deadline;
        drain_pass deadline rest true (observations ++ option_list handled)
      end
  end.
Fixpoint drain_loop (fuel : nat) (deadline : Z) (observations : list TraceDrainObservation) : M (list TraceDrainObservation) :=
  match fuel with
  | O => throw DrainTimedOut
  | S fuel =>
    self ← get;
    if bool_decide (processes self = ∅) then mret observations
    else
      _ ← before_cleanup deadline;
      passed ← drain_pass deadline (keys (processes self)) false observations;
      self ← get;
      if bool_decide (processes self = ∅) then mret passed.2
      else
        _ ← before_cleanup deadline;
        _ ← (if passed.1 : bool then mret () else sys (ask (fun w => ((), sleep w))));
        drain_loop fuel deadline passed.2
  end.
(** [DrainingTrace::finish] up to the terminal capture, which [complete_drain] takes
    only from a reconciled tree before the cleanup deadline. *)
Definition drain_finish (fuel : nat) (deadline : Z) : M (list TraceDrainObservation) :=
  observations ← drain_loop fuel deadline [];
  self ← get;
  if tree_reconciliation_failed self then throw TreeReconciliationFailed
  else late ← sys (ask (expired deadline)); if (late : bool) then throw DrainTimedOut else mret observations.
End Active.

(** * What a method does to the known tree *)

Create HintDb trace.
Section Effects.
Context `{TraceSys}.
Notation M := (eff (ActiveTrace * World) TraceObservationError).
Implicit Types (s : ActiveTrace * World).

(** The known processes, the reconciliation mark and the limits stay as they are. *)
Definition keeps {A} (m : M A) : Prop := forall s r s', m s = (r, s') ->
  processes s'.1 = processes s.1 /\ tree_reconciliation_failed s'.1 = tree_reconciliation_failed s.1
  /\ capture_limits s'.1 = capture_limits s.1.
Lemma keeps_ret {A} (a : A) : keeps (mret a).
Proof. by intros s r s' [= <- <-]. Qed.
Lemma keeps_throw {A} e : keeps (throw e : M A).
Proof. by intros s r s' [= <- <-]. Qed.
Lemma keeps_lift {A} (m : result TraceObservationError A) : keeps (lift_result m).
Proof. by intros s r s' [= <- <-]. Qed.
Lemma keeps_bind {A B} (m : M A) (f : A -> M B) : keeps m -> (forall a, keeps (f a)) -> keeps (m ≫= f).
Proof.
  intros Hm Hf s r s'. unfold mbind, eff_bind. destruct (m s) as [[a|e] s1] eqn:He; apply Hm in He as (H1 & H2 & H3).
  - intros (H4 & H5 & H6)%Hf. split_and!; congruence.
  - by intros [= <- <-].
Qed.
Lemma keeps_get : keeps get.
Proof. by intros s r s' [= <- <-]. Qed.
Lemma keeps_modify f :
  (forall t, processes (f t) = processes t /\ tree_reconciliation_failed (f t) = tree_reconciliation_failed t
    /\ capture_limits (f t) = capture_limits t) -> keeps (modify f).
Proof. intros Hf s r s' [= <- <-]. apply Hf. Qed.
Lemma keeps_sys {A} (m : eff World TraceObservationError A) : keeps (sys m).
Proof. intros s r s'. unfold sys. destruct (m s.2) as [a w]. by intros [= <- <-]. Qed.
Lemma keeps_attempt {A} (m : M A) : keeps m -> keeps (attempt m).
Proof. intros Hm s r s'. unfold attempt. destruct (m s) as [a s1] eqn:He. intros [= <- <-]. by eapply Hm. Qed.
Lemma keeps_observe {A} (f : ActiveTrace -> World -> A * World) : keeps (observe f).
Proof. intros s r s'. unfold observe. destruct (f s.1 s.2) as [a w]. by intros [= <- <-]. Qed.
End Effects.
#[export] Hint Resolve keeps_ret keeps_throw keeps_lift keeps_get keeps_sys keeps_attempt keeps_observe : trace.

(** Follows the structure of a method that changes nothing. *)
Ltac keeps_tac :=
  repeat first
    [ apply keeps_bind; [|intros ?] | progress eauto 2 with trace | apply keeps_modify; intros [?????????]; done
    | match goal with |- keeps (match ?x with _ => _ end) => destruct x end ].

Section KnownTree.
Context `{TraceSys}.
Notation M := (eff (ActiveTrace * World) TraceObservationError).
Implicit Types (s : ActiveTrace * World) (p : TraceProcessId).
Lemma keeps_drain_with {A} e : keeps (drain_with e : M A).
Proof. unfold drain_with. keeps_tac. Qed.
Lemma keeps_resume p : keeps (resume_before_deadline p).
Proof. unfold resume_before_deadline. keeps_tac; apply keeps_drain_with. Qed.
Lemma keeps_event_process p : keeps (event_process p).
Proof. unfold event_process. keeps_tac. Qed.
Lemma keeps_open_handle p : keeps (open_handle_if_vacant p).
Proof. unfold open_handle_if_vacant. keeps_tac. Qed.
Lemma keeps_before_deadline : keeps before_deadline.
Proof. unfold before_deadline. keeps_tac; apply keeps_drain_with. Qed.
Lemma keeps_tracee p : keeps (tracee p).
Proof. unfold tracee. keeps_tac. Qed.

(** How an event changes the set of known processes. *)
Inductive event_effect : ActiveTraceEvent -> gset Z -> gset Z -> Prop :=
| effect_syscall known p invocation result is_error selected candidate :
  p ∈ known -> event_effect (SyscallCompleted p invocation result is_error selected candidate) known known
| effect_created known parent child kind :
  parent ∈ known -> child ∉ known -> child <> 0%Z ->
  event_effect (ProcessCreated parent child kind) known ({[child]} ∪ known)
| effect_replaced known former survivor superseded invocation selected :
  former ∈ known -> survivor ∈ known -> NoDup superseded -> former ∉ superseded ->
  (forall p, p ∈ superseded -> p ∈ known) -> (survivor ∈ superseded <-> survivor <> former) ->
  event_effect (ImageReplaced former survivor superseded invocation selected) known
    ({[survivor]} ∪ (known ∖ {[former]} ∖ list_to_set superseded))
| effect_exited known p termination :
  p ∈ known -> event_effect (ProcessExited p termination) known (known ∖ {[p]})
| effect_stop known p signal event : p ∈ known -> event_effect (UnexpectedStop p signal event) known known.
Definition result_effect (r : option ActiveTraceEvent) (t t' : ActiveTrace) : Prop :=
  tree_reconciliation_failed t' = false
  /\ match r with
     | None => dom (processes t') = dom (processes t)
     | Some event => event_effect event (dom (processes t)) (dom (processes t'))
     end.

(** What holds of a result of a computation, when it is one. *)
Definition ok {A} (m : M A) s (Q : A -> ActiveTrace * World -> Prop) : Prop := forall a s', m s = (Ok a, s') -> Q a s'.
Lemma ok_bind {A B} (m : M A) (f : A -> M B) s Q : ok m s (fun a s1 => ok (f a) s1 Q) -> ok (m ≫= f) s Q.
Proof. intros Hm b s' (a & s1 & Ha & Hb)%eff_bind_Ok. exact (Hm a s1 Ha b s' Hb). Qed.
Lemma ok_ret {A} (a : A) s (Q : A -> ActiveTrace * World -> Prop) : Q a s -> ok (mret a) s Q.
Proof. intros HQ b s' [= <- <-]. done. Qed.
Lemma ok_throw {A} e s (Q : A -> ActiveTrace * World -> Prop) : ok (throw e) s Q.
Proof. by intros b s'. Qed.
Lemma ok_get s Q : Q s.1 s -> ok get s Q.
Proof. intros HQ b s' [= <- <-]. done. Qed.
Lemma ok_modify f s Q : Q () (f s.1, s.2) -> ok (modify f) s Q.
Proof. intros HQ b s' [= <- <-]. done. Qed.
Lemma ok_lift {A} (m : result TraceObservationError A) s Q : (forall a, m = Ok a -> Q a s) -> ok (lift_result m) s Q.
Proof. intros HQ b s'. unfold lift_result. intros [= -> <-]. by apply HQ. Qed.
Lemma ok_keeps {A} (m : M A) s Q : keeps m ->
  (forall a s1, processes s1.1 = processes s.1 -> tree_reconciliation_failed s1.1 = tree_reconciliation_failed s.1 -> Q a s1) ->
  ok m s Q.
Proof. intros Hm HQ a s' Ha. apply Hm in Ha as (H1 & H2 & _). by apply HQ. Qed.
Lemma ok_drain_with {A} e s (Q : A -> ActiveTrace * World -> Prop) : ok (drain_with e) s Q.
Proof. by intros b s'. Qed.

Lemma handle_syscall_stop_effect p s :
  p ∈ dom (processes s.1) -> tree_reconciliation_failed s.1 = false ->
  ok (handle_syscall_stop p) s (fun r s' => result_effect r s.1 s'.1).
Proof.
  intros Hp Hf. unfold handle_syscall_stop. apply ok_bind, ok_keeps; [apply keeps_tracee|]. intros state s1 P1 F1.
  destruct (awaiting_initial_stop state); [apply ok_throw|]. apply ok_bind, ok_keeps; [apply keeps_sys|]. intros stop s2 P2 F2.
  assert (forall state s3, processes s3.1 = processes s.1 -> tree_reconciliation_failed s3.1 = false ->
    forall Q : () -> ActiveTrace * World -> Prop, (forall s4, dom (processes s4.1) = dom (processes s.1) -> tree_reconciliation_failed s4.1 = false -> Q () s4) ->
    ok (set_tracee p state) s3 Q) as Hset.
  { intros st s3 P3 F3 Q HQ. apply ok_modify. apply HQ; [|done]. cbn. rewrite P3, dom_insert_L.
    apply set_eq. intros q. set_solver. }
  destruct stop as [registers|result is_error| |]; [| |apply ok_throw..].
  - apply ok_bind, ok_get. apply ok_bind, ok_keeps; [apply keeps_sys|]. intros invocation s3 P3 F3.
    apply ok_bind, ok_keeps; [apply keeps_tracee|]. intros st s4 P4 F4. apply ok_bind, ok_lift. intros next _.
    apply ok_bind, Hset; [congruence..|]. intros s5 P5 F5. apply ok_bind, ok_keeps; [apply keeps_resume|]. intros ? s6 P6 F6.
    apply ok_ret. split; congruence.
  - apply ok_bind, ok_keeps; [apply keeps_tracee|]. intros st s3 P3 F3. apply ok_bind, ok_lift. intros finished _.
    apply ok_bind, Hset; [congruence..|]. intros s4 P4 F4. destruct finished.1 as [[invocation|]|].
    + apply ok_bind, ok_keeps; [apply keeps_observe|]. intros selected s5 P5 F5.
      apply ok_bind, ok_keeps; [apply keeps_observe|]. intros candidate s6 P6 F6. apply ok_bind, ok_modify, ok_ret.
      split; [cbn; congruence|]. cbn. rewrite P6, P5, P4. by constructor.
    + apply ok_bind, ok_keeps; [apply keeps_resume|]. intros ? s5 P5 F5. apply ok_ret. split; congruence.
    + apply ok_bind, ok_keeps; [apply keeps_resume|]. intros ? s5 P5 F5. apply ok_ret. split; congruence.
Qed.

Lemma reconcile_dom known requested reported former change next :
  reconcile_exec_processes known requested reported former = Ok (change, next) ->
  dom next = {[change_survivor change]} ∪ (dom known ∖ {[change_former change]} ∖ list_to_set (change_superseded change)).
Proof.
  intros (-> & -> & -> & Hf & Hr & _ & Hs & (st & Hst & _) & Hn)%reconcile_Ok. apply set_eq. intros q.
  rewrite elem_of_union, elem_of_singleton, !elem_of_difference, elem_of_singleton, elem_of_list_to_set, Hs, !elem_of_dom.
  destruct (decide (q = requested)) as [->|Hq]; [rewrite Hst; split; [by left|by eexists]|].
  rewrite Hn by done. destruct (decide (q = former)) as [->|Hqf].
  - rewrite decide_True by done. split; [by intros [? ?]|]. intros [|[[_ []] _]]; done.
  - destruct (decide (thread_group <$> known !! q = Some requested)) as [Ht|Ht]; [split; [by intros [? ?]|naive_solver]|naive_solver].
Qed.
Lemma handle_exec_effect requested reported s :
  tree_reconciliation_failed s.1 = false ->
  ok (handle_exec requested reported) s (fun r s' => result_effect r s.1 s'.1).
Proof.
  intros Hf. unfold handle_exec, reconcile_exec_identity. apply ok_bind, ok_bind, ok_keeps; [apply keeps_event_process|].
  intros former s1 P1 F1. apply ok_bind, ok_get, ok_bind, ok_lift. intros [change next] Hrec.
  apply ok_bind, ok_modify, ok_bind, ok_keeps; [apply keeps_open_handle|]. intros ? s2 P2 F2.
  apply ok_bind, ok_modify, ok_ret. apply ok_bind, ok_get, ok_bind, ok_keeps; [apply keeps_observe|]. intros selected s3 P3 F3.
  apply ok_bind, ok_modify, ok_ret. split; [cbn in *; congruence|]. cbn in *. rewrite P3, P2, (reconcile_dom _ _ _ _ _ _ Hrec), P1.
  apply reconcile_Ok in Hrec as (_ & -> & -> & Hfo & Hre & Hnd & Hs & _ & _). rewrite P1 in Hfo, Hre, Hs.
  assert (forall q, thread_group <$> processes s.1 !! q = Some reported -> q ∈ dom (processes s.1)) as Hin.
  { intros q Hq. apply elem_of_dom. apply (fmap_is_Some thread_group). rewrite Hq. by eexists. }
  constructor; [by apply Hin|by apply Hin|done| | |].
  - rewrite Hs. tauto.
  - intros q [_ Hq]%Hs. by apply Hin.
  - rewrite Hs. tauto.
Qed.
Lemma handle_creation_effect reported kind s :
  reported ∈ dom (processes s.1) -> ok (handle_creation reported kind) s (fun r s' => result_effect r s.1 s'.1).
Proof.
  intros Hp. unfold handle_creation. apply ok_bind, ok_modify, ok_bind. intros child s1 Hc.
  apply keeps_event_process in Hc as Hk. destruct Hk as (P1 & F1 & _).
  assert (child <> 0%Z) as Hc0.
  { apply eff_bind_Ok in Hc as (value & s0 & _ & [= Hv _]). apply map_err_Ok in Hv. unfold TraceProcessId_new in Hv.
    case_match eqn:Hz; [|done]. injection Hv as <-. apply andb_true_iff in Hz as [Hz _]. by apply negb_true_iff, Z.eqb_neq in Hz. }
  apply ok_bind, ok_get. case_bool_decide as Hfresh; [apply ok_throw|]. unfold register_child.
  apply ok_bind, ok_bind, ok_get. case_match; [apply ok_throw|]. apply ok_bind, ok_keeps; [apply keeps_sys|]. intros group s2 P2 F2.
  apply ok_bind, ok_keeps; [apply keeps_open_handle|]. intros ? s3 P3 F3. apply ok_bind, ok_modify, ok_ret.
  apply ok_bind, ok_modify, ok_bind, ok_modify, ok_bind, ok_modify, ok_ret. cbn in *.
  unfold result_effect.
  destruct (process_limit s1.1 <=? _)%Z; cbn; (split; [done|]); rewrite dom_insert_L, P3, P2, P1;
    (constructor; [done| |done]); rewrite <- P1; by rewrite elem_of_dom.
Qed.
Lemma record_terminal_effect p s termination :
  tree_reconciliation_failed s.1 = false ->
  ok (_ ← record_terminal_process p; mret (Some (ProcessExited p termination))) s (fun r s' => result_effect r s.1 s'.1).
Proof.
  intros Hf. unfold record_terminal_process. apply ok_bind, ok_bind, ok_get. destruct (processes s.1 !! p) eqn:Hp; [|apply ok_throw].
  apply ok_bind, ok_modify, ok_modify, ok_ret. split; [done|]. cbn. rewrite dom_delete_L. constructor. apply elem_of_dom. by eexists.
Qed.

Lemma handle_wait_effect requested observation s :
  requested ∈ dom (processes s.1) -> tree_reconciliation_failed s.1 = false ->
  ok (handle_wait_observation requested observation) s (fun r s' => result_effect r s.1 s'.1).
Proof.
  intros Hp Hf. unfold handle_wait_observation. apply ok_bind, ok_lift. intros reported _.
  destruct (Z.eqb_spec reported requested) as [->|]; [|apply ok_throw]. cbn [negb].
  destruct (wo_status observation) as [signal event|code|signal]; [|by apply record_terminal_effect..].
  destruct (_ && trace_event_is_exec event); [by apply handle_exec_effect|]. case_match; [by apply handle_creation_effect|].
  destruct (_ && _); [by apply handle_syscall_stop_effect|]. apply ok_bind, ok_get. destruct (_ && _).
  - apply ok_bind, ok_keeps; [apply keeps_tracee|]. intros state s1 P1 F1. apply ok_bind, ok_modify, ok_bind, ok_keeps; [apply keeps_resume|].
    intros ? s2 P2 F2. apply ok_ret. cbn in *. split; [congruence|]. rewrite P2, dom_insert_L, P1. set_solver.
  - apply ok_bind, ok_modify, ok_ret. split; [done|]. by constructor.
Qed.

Lemma poll_effect requests s :
  (forall requested, requested ∈ requests -> requested ∈ dom (processes s.1)) -> tree_reconciliation_failed s.1 = false ->
  ok (poll requests) s (fun r s' => result_effect r s.1 s'.1).
Proof.
  revert s. induction requests as [|requested rest IH]; intros s Hin Hf; cbn [poll]; [by apply ok_ret|].
  assert (forall s1, dom (processes s1.1) = dom (processes s.1) -> tree_reconciliation_failed s1.1 = false ->
    ok (poll rest) s1 (fun r s' => result_effect r s.1 s'.1)) as Hrest.
  { intros s1 P1 F1. unfold result_effect. rewrite <- P1. apply IH; [|done]. rewrite P1. intros q Hq. apply Hin. by right. }
  apply ok_bind, ok_keeps; [apply keeps_attempt, keeps_sys|]. intros waited s1 P1 F1.
  destruct waited as [[observation|]|e]; [|apply Hrest; congruence|apply ok_drain_with].
  apply ok_bind, ok_keeps; [apply keeps_before_deadline|]. intros ? s2 P2 F2. apply ok_bind.
  intros handled s3 Hh. unfold attempt in Hh. destruct (handle_wait_observation requested observation s2) as [r s3'] eqn:Hr.
  injection Hh as <- <-. apply ok_bind, ok_keeps; [apply keeps_before_deadline|]. intros ? s4 P4 F4.
  destruct r as [r|e]; [|apply ok_drain_with]. apply handle_wait_effect in Hr as [F3 Hr]; [|rewrite P2, P1; apply Hin; left|congruence].
  destruct r as [event|]; [|apply Hrest; congruence]. apply ok_ret. split; [congruence|]. by rewrite P4, <- P1, <- P2.
Qed.
Lemma wait_loop_effect fuel s :
  tree_reconciliation_failed s.1 = false -> ok (wait_loop fuel) s (fun event s' => result_effect (Some event) s.1 s'.1).
Proof.
  revert s. induction fuel as [|fuel IH]; intros s Hf; cbn [wait_loop]; [apply ok_drain_with|].
  apply ok_bind, ok_get, ok_bind. intros polled s1 Hp. apply poll_effect in Hp as [F1 Hp]; [|by intros q ?%keys_spec%elem_of_dom|done].
  destruct polled as [event|]; [by apply ok_ret|]. apply ok_bind, ok_keeps; [apply keeps_before_deadline|]. intros ? s2 P2 F2.
  apply ok_bind, ok_keeps; [apply keeps_sys|]. intros ? s3 P3 F3. unfold result_effect. rewrite <- Hp, <- P2, <- P3. apply IH. congruence.
Qed.
(** An event of the wait loop changes the known processes exactly as it says. *)
Lemma next_event_effect fuel s :
  tree_reconciliation_failed s.1 = false ->
  ok (next_event fuel) s (fun event s' => processes s.1 <> ∅ /\ result_effect (Some event) s.1 s'.1).
Proof.
  intros Hf. unfold next_event. apply ok_bind, ok_get. destruct (must_drain s.1); [apply ok_throw|].
  case_bool_decide as He; [apply ok_throw|]. apply ok_bind, ok_keeps; [apply keeps_before_deadline|]. intros ? s1 P1 F1.
  apply ok_bind, ok_modify, ok_bind, ok_keeps; [case_match; [apply keeps_resume|apply keeps_ret]|]. intros ? s2 P2 F2.
  intros event s3 Hw. split; [done|]. apply wait_loop_effect in Hw; [|cbn in *; congruence]. cbn in P2. unfold result_effect in *.
  by rewrite P2, P1 in Hw.
Qed.
End KnownTree.
