(* ===== verification/Adapter.v ===== *)
(** The observer adapter ([proofbound-runtime-diagnose-linux/src/adapter.rs], from
    [ActiveObserver]): every trace event advances the pure protocol, a termination
    directive drains the trace, and the drain is reported to the protocol before
    anything is published. *)
From S2P Require Import Prelude Diagnostic Observer Trace Candidate TraceActive.
From Stdlib Require Import Ascii ZArith Lia Sorted.
From stdpp Require Import prelude strings list numbers gmap.
Export stdpp.list_relations.list.

Inductive ObserverAdapterError :=
| Adapter_BoundsInvalid
| Adapter_Trace (error : TraceStartupError)
| Adapter_Observation (error : TraceObservationError)
| Adapter_Protocol (error : ObserverProtocolError).
Record ActiveObserver := mkActiveObserver { ao_trace : ActiveTrace; ao_protocol : ObserverProtocol }.
Inductive DrainPublication := Eligible | Forbidden (error : TraceObservationError).
Inductive ObserverObservation := Observed_Event (event : ActiveTraceEvent) | Observed_Failure (error : TraceObservationError).
(** [dn_deadline] is the cleanup deadline of the draining trace. *)
Record DrainingObserver := mkDrainingObserver {
  dn_trace : ActiveTrace;
  dn_deadline : Z;
  dn_protocol : ObserverProtocol;
  dn_untracked : gset Z;
  dn_publication : DrainPublication
}.

(** [TraceSession::finish_terminal]: cgroup removal and the joined output streams, before
    the deadline. *)
Class TraceTerminal `{TraceSys} := {
  TraceTerminalCapture : Type;
  finish_terminal : Z -> World -> result TraceObservationError TraceTerminalCapture * World
}.

Definition diagnostic_process (process : TraceProcessId) : result ObserverAdapterError DiagnosticProcessId :=
  map_err Adapter_Protocol (DiagnosticProcessId_new process).
Definition process_creation_kind (kind : TraceProcessCreationKind) : ProcessCreationKind :=
  match kind with Clone_kind => Created_Clone | Fork_kind => Created_Fork | Vfork_kind => Created_Vfork end.
Definition protocol_step (t : transition) : result ObserverAdapterError (ObserverDirective * ObserverProtocol) :=
  map_err Adapter_Protocol t.
(** [if directive == ObserverDirective::Continue { self.protocol.record_event(..)? } else { directive }] *)
Definition then_record_event (step : ObserverDirective * ObserverProtocol) (process : DiagnosticProcessId) :
    result ObserverAdapterError (ObserverDirective * ObserverProtocol) :=
  if bool_decide (step.1 = Continue) then protocol_step (record_event step.2 process) else Ok step.
Definition diagnostic_processes (l : list TraceProcessId) : result ObserverAdapterError (list DiagnosticProcessId) :=
  mapM diagnostic_process l.
(** The [match &event] of [next_event]: the directive, the protocol after it and the
    processes it does not track. *)
Definition record_trace_event (protocol : ObserverProtocol) (event : ActiveTraceEvent) :
    result ObserverAdapterError (ObserverDirective * ObserverProtocol * gset Z) :=
  match event with
  | SyscallCompleted process _ _ _ _ _ =>
    process ← diagnostic_process process;
    step ← protocol_step (record_event protocol process);
    Ok (step, ∅)
  | ProcessCreated parent child kind =>
    parent ← diagnostic_process parent;
    child ← diagnostic_process child;
    step ← protocol_step (discover_child protocol parent child (process_creation_kind kind));
    let untracked := if tracks_process step.2 child then ∅ else {[child]} in
    step ← then_record_event step parent;
    Ok (step, untracked)
  | ImageReplaced former_process process superseded_processes _ _ =>
    former ← diagnostic_process former_process;
    survivor ← diagnostic_process process;
    superseded ← diagnostic_processes superseded_processes;
    step ← protocol_step (record_exec protocol former survivor superseded);
    step ← then_record_event step survivor;
    Ok (step, ∅)
  | ProcessExited process _ =>
    process ← diagnostic_process process;
    step ← protocol_step (record_process_exit protocol process);
    Ok (step, ∅)
  | UnexpectedStop process _ _ =>
    process ← diagnostic_process process;
    step ← protocol_step (record_unexpected_stop protocol process);
    Ok (step, ∅)
  end.

Section Adapter.
Context `{TraceTerminal}.
Notation M := (eff World ObserverAdapterError).

Record CompletedObserver := mkCompletedObserver {
  cd_protocol : ObserverProtocol;
  cd_publication : ObserverDirective;
  cd_terminal : TraceTerminalCapture
}.
Inductive ActiveObserverStep :=
| Step_Continue (observer : ActiveObserver) (event : ActiveTraceEvent)
| Step_Drain (observer : DrainingObserver) (observation : ObserverObservation)
| Step_Complete (observer : CompletedObserver) (event : ActiveTraceEvent).

(** A method of the trace, with the trace it leaves. *)
Definition on_trace {A} (m : eff (ActiveTrace * World) TraceObservationError A) (trace : ActiveTrace) :
    M (result TraceObservationError A * ActiveTrace) := fun w =>
  let '(r, (trace, w)) := m (trace, w) in (Ok (r, trace), w).
Definition require_trace {A} (m : eff (ActiveTrace * World) TraceObservationError A) (trace : ActiveTrace) : M (A * ActiveTrace) :=
  done ← on_trace m trace; value ← lift_result (map_err Adapter_Observation done.1); mret (value, done.2).
(** [self.trace.finish()?.into_terminal()] of a drained trace *)
Definition finish_trace (trace : ActiveTrace) : M TraceTerminalCapture :=
  if negb (is_drained trace) then throw (Adapter_Observation DrainRequired)
  else
    late ← ask (expired (session_deadline trace));
    if (late : bool) then
      deadline ← require_trace cleanup trace;
      _ ← (fun w => let '(r, w) := finish_terminal deadline.1 w in (map_err Adapter_Observation r, w));
      throw (Adapter_Observation WaitTimedOut)
    else fun w => let '(r, w) := finish_terminal (session_deadline trace) w in (map_err Adapter_Observation r, w).
Definition ActiveObserver_next_event (fuel : nat) (self : ActiveObserver) : M ActiveObserverStep :=
  observed ← on_trace (next_event fuel) (ao_trace self);
  match observed with
  | (Err error, trace) =>
    let publication := if bool_decide (error = WaitTimedOut) then Forbidden error else Eligible in
    step ← lift_result (protocol_step (record_observer_failure (ao_protocol self)));
    if negb (bool_decide (step.1 = TerminateAndDrain)) then throw (Adapter_Protocol TransitionInvalid)
    else
      draining ← require_trace begin_termination trace;
      mret (Step_Drain (mkDrainingObserver draining.2 draining.1 step.2 ∅ publication) (Observed_Failure error))
  | (Ok event, trace) =>
    recorded ← lift_result (record_trace_event (ao_protocol self) event);
    let '(directive, protocol, untracked) := recorded in
    if bool_decide (directive = TerminateAndDrain) then
      draining ← require_trace begin_termination trace;
      mret (Step_Drain (mkDrainingObserver draining.2 draining.1 protocol untracked Eligible) (Observed_Event event))
    else if negb (bool_decide (directive = Continue)) then throw (Adapter_Protocol TransitionInvalid)
    else if is_drained trace then
      terminal ← finish_trace trace;
      finished ← lift_result (protocol_step (finish protocol));
      mret (Step_Complete (mkCompletedObserver finished.2 finished.1 terminal) event)
    else mret (Step_Continue (mkActiveObserver trace protocol) event)
  end.

(** The loop over [report.observations()]. *)
Definition record_drain_observation (protocol : ObserverProtocol) (untracked : gset Z) (observation : TraceDrainObservation) :
    result ObserverAdapterError (ObserverProtocol * gset Z) :=
  match observation with
  | Drain_ProcessCreated parent child kind =>
    parent ← diagnostic_process parent;
    child ← diagnostic_process child;
    step ← protocol_step (discover_child protocol parent child (process_creation_kind kind));
    Ok (step.2, if tracks_process step.2 child then untracked else {[child]} ∪ untracked)
  | Drain_ImageReplaced former_process process superseded_processes =>
    former ← diagnostic_process former_process;
    survivor ← diagnostic_process process;
    superseded ← diagnostic_processes superseded_processes;
    step ← protocol_step (record_exec protocol former survivor superseded);
    Ok (step.2, untracked)
  | Drain_ProcessExited process _ =>
    process ← diagnostic_process process;
    if bool_decide (process ∈ untracked) then Ok (protocol, untracked ∖ {[process]})
    else step ← protocol_step (record_process_exit protocol process); Ok (step.2, untracked)
  end.
Fixpoint record_drain (protocol : ObserverProtocol) (untracked : gset Z) (observations : list TraceDrainObservation) :
    result ObserverAdapterError (ObserverProtocol * gset Z) :=
  match observations with
  | [] => Ok (protocol, untracked)
  | observation :: rest => next ← record_drain_observation protocol untracked observation; record_drain next.1 next.2 rest
  end.
Definition DrainingObserver_finish (fuel : nat) (self : DrainingObserver) : M CompletedObserver :=
  report ← require_trace (drain_finish fuel (dn_deadline self)) (dn_trace self);
  terminal ← (fun w => let '(r, w) := finish_terminal (dn_deadline self) w in (map_err Adapter_Observation r, w));
  recorded ← lift_result (record_drain (dn_protocol self) (dn_untracked self) report.1);
  if negb (bool_decide (recorded.2 = ∅)) then throw (Adapter_Protocol ProcessTreeChanged)
  else
    confirmed ← lift_result (protocol_step (confirm_tree_drained recorded.1));
    match dn_publication self with
    | Forbidden error => throw (Adapter_Observation error)
    | Eligible =>
      finished ← lift_result (protocol_step (finish confirmed.2));
      mret (mkCompletedObserver finished.2 finished.1 terminal)
    end.
End Adapter.

(** * The protocol on the events of a trace *)

(** The two ways a transition from [Released] ends. *)
Definition proceeds (d : ObserverDirective) (next : ObserverProtocol) : Prop := d = Continue /\ state next = Released.
Definition drains (d : ObserverDirective) (next : ObserverProtocol) : Prop := d = TerminateAndDrain /\ state next = Draining.

Section Protocol.
Implicit Types (self next : ObserverProtocol) (p : DiagnosticProcessId).
Notation tracked self := (dom (Observer.processes self)).

Lemma stop_drains self gap : exists next, stop_with_gap self gap = Ok (TerminateAndDrain, next) /\ drains TerminateAndDrain next
  /\ tracked next = tracked self.
Proof. by eexists. Qed.
Lemma continue_released self : state self = Released -> continue_or_drain self = Ok (Continue, self).
Proof. intros Hs. unfold continue_or_drain. by rewrite bool_decide_eq_false_2 by (by rewrite Hs). Qed.
Lemma record_event_released self p : state self = Released -> p ∈ tracked self ->
  exists d next, record_event self p = Ok (d, next) /\ tracked next = tracked self /\ (proceeds d next \/ drains d next).
Proof.
  intros Hs Hp. unfold record_event. rewrite require_observing_Released by done. cbn [mbind result_bind].
  rewrite (proj2 (tracks_process_spec self p) Hp). cbn [negb]. rewrite bool_decide_eq_false_2 by (by rewrite Hs).
  case_match eqn:He.
  - eexists _, _. split; [done|]. split; [by do 2 case_match|]. right. done.
  - apply elem_of_dom in Hp as [n Hn]. rewrite Hn. cbn. eexists _, _. split; [done|]. split; [|by left].
    cbn. rewrite dom_insert_L. apply subseteq_union_1_L, singleton_subseteq_l, elem_of_dom. by eexists.
Qed.
Lemma discover_child_released self parent child kind : state self = Released -> parent ∈ tracked self -> child ∉ tracked self ->
  exists d next, discover_child self parent child kind = Ok (d, next)
    /\ (proceeds d next /\ tracked next = {[child]} ∪ tracked self \/ drains d next /\ tracked next = tracked self).
Proof.
  intros Hs Hp Hc. unfold discover_child. rewrite require_observing_Released by done. cbn [mbind result_bind].
  rewrite (proj2 (tracks_process_spec self parent) Hp). cbn [negb].
  case_bool_decide; [eexists _, _; split; [done|]; by right|]. case_match; [eexists _, _; split; [done|]; by right|].
  rewrite continue_released by done. eexists _, _. split; [done|]. left. split; [done|]. cbn. by rewrite dom_insert_L.
Qed.
Lemma no_repetition_NoDup seen l : NoDup l -> (forall p, p ∈ l -> p ∉ seen) -> no_repetition seen l = true.
Proof.
  revert seen. induction l as [|q l IH]; intros seen Hnd Hs; [done|]. apply NoDup_cons in Hnd as [Hq Hnd]. cbn.
  rewrite bool_decide_eq_false_2 by (apply Hs; left). cbn. apply IH; [done|]. intros p Hp [Hin|Hin]%elem_of_app.
  - by apply (Hs p); [right|].
  - apply list_elem_of_singleton in Hin as ->. done.
Qed.
Lemma dom_foldl_delete (l : list Z) (m : gmap Z Z) : dom (foldl (fun m p => delete p m) m l) = dom m ∖ list_to_set l.
Proof.
  revert m. induction l as [|p l IH]; intros m; cbn; [set_solver|]. rewrite IH, dom_delete_L. set_solver.
Qed.
Lemma record_exec_released self former survivor superseded : state self = Released -> former ∈ tracked self ->
  NoDup superseded -> former ∉ superseded -> (forall p, p ∈ superseded -> p ∈ tracked self) ->
  (survivor ∈ superseded <-> survivor <> former) ->
  exists next, record_exec self former survivor superseded = Ok (Continue, next) /\ state next = Released
    /\ tracked next = {[survivor]} ∪ (tracked self ∖ {[former]} ∖ list_to_set superseded).
Proof.
  intros Hs Hf Hnd Hni Hall Hsur. unfold record_exec. rewrite require_observing_Released by done. cbn [mbind result_bind].
  assert (identities_are_closed self former survivor superseded = true) as ->.
  { unfold identities_are_closed. rewrite (proj2 (tracks_process_spec self former) Hf), (bool_decide_eq_false_2 _ Hni).
    rewrite no_repetition_NoDup by (try done; intros ? _; apply not_elem_of_nil).
    assert (forallb (tracks_process self) superseded = true) as ->.
    { apply forallb_forall. intros p Hp%list_elem_of_In. apply tracks_process_spec. by apply Hall. }
    cbn. destruct (decide (former = survivor)) as [->|Hne].
    - rewrite (bool_decide_eq_true_2 (survivor = survivor)) by done. by rewrite (bool_decide_eq_false_2 (_ ∈ _)) by done.
    - rewrite (bool_decide_eq_false_2 (former = survivor)) by done. by rewrite (bool_decide_eq_true_2 (_ ∈ _)) by (apply Hsur; congruence). }
  cbn [negb]. apply elem_of_dom in Hf as [n Hn]. rewrite Hn. cbn [ok_or mbind result_bind].
  rewrite continue_released by done. eexists. split; [done|]. split; [done|]. cbn. by rewrite dom_insert_L, dom_foldl_delete, dom_delete_L.
Qed.
Lemma record_process_exit_released self p : state self = Released -> p ∈ tracked self ->
  exists next, record_process_exit self p = Ok (Continue, next) /\ state next = Released /\ tracked next = tracked self ∖ {[p]}.
Proof.
  intros Hs Hp. unfold record_process_exit. rewrite require_observing_Released by done. cbn [mbind result_bind].
  rewrite (proj2 (tracks_process_spec self p) Hp). cbn [negb]. rewrite bool_decide_eq_false_2 by (cbn; by rewrite Hs).
  eexists. split; [done|]. split; [done|]. cbn. by rewrite dom_delete_L.
Qed.
Lemma record_unexpected_stop_released self p : state self = Released ->
  exists next, record_unexpected_stop self p = Ok (TerminateAndDrain, next) /\ state next = Draining /\ tracked next = tracked self.
Proof.
  intros Hs. unfold record_unexpected_stop. rewrite require_observing_Released by done. by eexists.
Qed.
End Protocol.

Section InStep.
Implicit Types (root : DiagnosticProcessId) (limits : ObservationBounds) (protocol next : ObserverProtocol).
Notation tracked self := (dom (Observer.processes self)).

Lemma diagnostic_process_Ok (p : Z) : p <> 0%Z -> diagnostic_process p = Ok p.
Proof. intros Hp. unfold diagnostic_process, DiagnosticProcessId_new. by rewrite (proj2 (Z.eqb_neq p 0) Hp). Qed.
Lemma diagnostic_processes_Ok (l : list Z) : (forall p, p ∈ l -> p <> 0%Z) -> diagnostic_processes l = Ok l.
Proof.
  intros Hl. apply mapM_Ok. apply Forall2_same_length_lookup_2; [done|]. intros i x y Hx Hy. rewrite Hx in Hy. injection Hy as <-.
  apply diagnostic_process_Ok, Hl. by eapply list_elem_of_lookup_2.
Qed.
(** A transition that proceeds is followed by the event it is charged with. *)
Lemma then_record_event_released root limits self d protocol p op :
  reachable root limits self -> Observer.apply op self = Ok (d, protocol) -> proceeds d protocol \/ drains d protocol -> (proceeds d protocol -> p ∈ tracked protocol) ->
  exists d' next, then_record_event (d, protocol) p = Ok (d', next) /\ reachable root limits next /\ tracked next = tracked protocol
    /\ (proceeds d protocol /\ proceeds d' next \/ drains d' next).
Proof.
  intros Hr Hop Hd Hp. assert (reachable root limits protocol) as Hr' by (by eapply reach_step). unfold then_record_event. cbn [fst snd].
  destruct Hd as [[-> Hs]|[-> Hs]].
  - destruct (record_event_released protocol p Hs (Hp (conj eq_refl Hs))) as (d' & next & He & Ht & Hd).
    rewrite bool_decide_eq_true_2 by done. unfold protocol_step. rewrite He. exists d', next. split; [done|].
    split; [by apply (reach_step _ _ protocol (Op_event p) d')|]. split; [done|]. destruct Hd as [|]; [left|right]; done.
  - rewrite bool_decide_eq_false_2 by done. exists TerminateAndDrain, protocol. split; [done|]. split; [done|]. split; [done|]. by right.
Qed.

(** The protocol refuses no event of the trace and follows its tree: the known
    processes are those it tracks and those it reports as untracked, and it tracks
    all of them as long as it does not drain. *)
Lemma record_trace_event_in_step root limits protocol event known known' :
  reachable root limits protocol -> state protocol = Released -> tracked protocol = known -> (forall p, p ∈ known -> p <> 0%Z) ->
  event_effect event known known' ->
  exists d next untracked, record_trace_event protocol event = Ok (d, next, untracked) /\ reachable root limits next
    /\ known' = tracked next ∪ untracked /\ untracked ## tracked next /\ (forall p, p ∈ known' -> p <> 0%Z)
    /\ (proceeds d next /\ untracked = ∅ \/ drains d next).
Proof.
  intros Hr Hs Hk Hnz He. destruct He as [known p ? ? ? ? ? Hp|known parent child kind Hp Hc Hc0|known former survivor superseded ? ? Hf Hsv Hnd Hni Hall Hiff
    |known p ? Hp|known p ? ? Hp]; subst known; cbn [record_trace_event].
  - rewrite diagnostic_process_Ok by auto. destruct (record_event_released protocol p) as (d & next & He & Ht & Hd); [done..|].
    cbn [mbind result_bind]. unfold protocol_step. rewrite He. exists d, next, ∅. split; [done|].
    split; [by apply (reach_step _ _ protocol (Op_event p) d)|]. rewrite Ht. split; [set_solver|]. split; [set_solver|]. split; [done|]. naive_solver.
  - rewrite !diagnostic_process_Ok by auto. cbn [mbind result_bind].
    destruct (discover_child_released protocol parent child (process_creation_kind kind)) as (d & next & He & Hd); [done..|].
    unfold protocol_step at 1. rewrite He. cbn [map_err mbind result_bind snd].
    destruct (then_record_event_released root limits protocol d next parent (Op_child parent child (process_creation_kind kind)))
      as (d' & next' & -> & Hr' & Ht' & Hd'); [done|done|tauto|intros Hpr; destruct Hd as [[_ ->]|[_ ->]]; set_solver|].
    cbn. exists d', next', (if tracks_process next child then ∅ else {[child]}). split; [done|]. split; [done|]. rewrite Ht'.
    pose proof (tracks_process_spec next child) as Hspec. destruct Hd as [[Hpro Ht]|[[-> Hst] Ht]]; rewrite Ht in *.
    + destruct (tracks_process next child); [|exfalso; assert (false = true) by (apply Hspec; set_solver); done].
      split; [set_solver|]. split; [set_solver|]. split; [set_solver|]. naive_solver.
    + destruct (tracks_process next child); [exfalso; by apply Hc, Hspec|].
      split; [set_solver|]. split; [set_solver|]. split; [set_solver|]. right. destruct Hd' as [[[? ?] _]|?]; done.
  - rewrite (diagnostic_process_Ok former) by auto. rewrite (diagnostic_process_Ok survivor) by auto. cbn [mbind result_bind].
    rewrite diagnostic_processes_Ok by auto. cbn [mbind result_bind].
    destruct (record_exec_released protocol former survivor superseded) as (next & He & Hst & Ht); [done..|].
    unfold protocol_step. rewrite He. cbn [map_err mbind result_bind].
    destruct (then_record_event_released root limits protocol Continue next survivor (Op_exec former survivor superseded))
      as (d' & next' & -> & Hr' & Ht' & Hd'); [done|done|by left|intros _; set_solver|].
    cbn. exists d', next', ∅. split; [done|]. split; [done|]. rewrite Ht', Ht. split; [set_solver|]. split; [set_solver|]. split; [set_solver|].
    naive_solver.
  - rewrite diagnostic_process_Ok by auto. destruct (record_process_exit_released protocol p) as (next & He & Hst & Ht); [done..|].
    cbn [mbind result_bind]. unfold protocol_step. rewrite He. exists Continue, next, ∅. split; [done|].
    split; [by apply (reach_step _ _ protocol (Op_exit p) Continue)|]. rewrite Ht. split; [set_solver|]. split; [set_solver|]. split; [set_solver|].
    by left.
  - rewrite diagnostic_process_Ok by auto. destruct (record_unexpected_stop_released protocol p) as (next & He & Hst & Ht); [done..|].
    cbn [mbind result_bind]. unfold protocol_step. rewrite He. exists TerminateAndDrain, next, ∅. split; [done|].
    split; [by apply (reach_step _ _ protocol (Op_unexpected_stop p) TerminateAndDrain)|]. rewrite Ht. split; [set_solver|]. split; [set_solver|].
    split; [set_solver|]. by right.
Qed.
End InStep.

(** * The coupled observer *)

Section Coupled.
Context `{TraceTerminal}.
Implicit Types (root : DiagnosticProcessId) (limits : ObservationBounds) (w : World).
Notation tracked self := (dom (Observer.processes self)).

(** The released protocol tracks exactly the processes the trace knows. *)
Record in_step root limits (self : ActiveObserver) : Prop := {
  is_reachable : reachable root limits (ao_protocol self);
  is_released : state (ao_protocol self) = Released;
  is_tracked : tracked (ao_protocol self) = dom (processes (ao_trace self));
  is_positive : forall p, p ∈ dom (processes (ao_trace self)) -> p <> 0%Z;
  is_reconciled : tree_reconciliation_failed (ao_trace self) = false
}.

Lemma on_trace_eq {A} (m : eff (ActiveTrace * World) TraceObservationError A) trace w r s' :
  m (trace, w) = (r, s') -> on_trace m trace w = (Ok (r, s'.1), s'.2).
Proof. unfold on_trace. intros ->. by destruct s'. Qed.
Lemma require_trace_Err {A} (m : eff (ActiveTrace * World) TraceObservationError A) trace w e w' :
  require_trace m trace w = (Err e, w') -> exists error, e = Adapter_Observation error.
Proof.
  unfold require_trace, mbind, eff_bind, on_trace, lift_result. destruct (m (trace, w)) as [[a|e'] [t w1]]; cbn; [done|].
  intros [= <- <-]. by eexists.
Qed.
Lemma begin_termination_keeps trace w deadline trace' w' :
  require_trace begin_termination trace w = (Ok (deadline, trace'), w') -> processes trace' = processes trace.
Proof.
  unfold require_trace, mbind, eff_bind, on_trace, lift_result.
  destruct (begin_termination (trace, w)) as [r [t w1]] eqn:Hb. destruct r as [a|e]; cbn; [|done]. intros [= <- <- <-].
  assert (keeps begin_termination) as Hk; [|by apply Hk in Hb as [Hb _]].
  unfold begin_termination, cleanup, signal_all_process_groups.
  assert (forall handles failed, keeps (kill_all handles failed)) as Hkill.
  { induction handles as [|h handles IH]; intros failed; cbn; [apply keeps_ret|]. apply keeps_bind; [apply keeps_attempt, keeps_sys|intros; apply IH]. }
  keeps_tac; try apply Hkill.
Qed.
Lemma finish_trace_Err trace w e w' : finish_trace trace w = (Err e, w') -> exists error, e = Adapter_Observation error.
Proof.
  unfold finish_trace. destruct (negb (is_drained trace)); [intros [= <- _]; by eexists|].
  unfold mbind, eff_bind, ask. destruct (expired _ w) as [[] w1].
  - destruct (require_trace cleanup trace w1) as [[d|e'] w2] eqn:Hc; [|intros [= <- _]; by eapply require_trace_Err].
    destruct (finish_terminal d.1 w2) as [[t|e'] w3]; cbn; intros [= <- _]; by eexists.
  - destruct (finish_terminal _ w1) as [[t|e'] w2]; cbn; [done|]. intros [= <- _]. by eexists.
Qed.
Lemma finish_released self : state self = Released -> gaps self = [] -> Observer.processes self = ∅ ->
  finish self = Ok (PublishComplete, Observer.with_state Complete self).
Proof.
  intros Hs Hg Hp. unfold finish. rewrite require_observing_Released by done. cbn [mbind result_bind].
  rewrite bool_decide_eq_true_2 by done. cbn [negb]. rewrite Hs, Hg. done.
Qed.

(** What a step leads to. *)
Definition step_outcome root limits (step : ActiveObserverStep) : Prop :=
  match step with
  | Step_Continue next _ => in_step root limits next /\ processes (ao_trace next) <> ∅
  | Step_Drain draining observation =>
    reachable root limits (dn_protocol draining) /\ state (dn_protocol draining) = Draining
    /\ match observation with
       | Observed_Event _ =>
         dom (processes (dn_trace draining)) = tracked (dn_protocol draining) ∪ dn_untracked draining
         /\ dn_untracked draining ## tracked (dn_protocol draining) /\ dn_publication draining = Eligible
       | Observed_Failure error => dn_publication draining = if bool_decide (error = WaitTimedOut) then Forbidden error else Eligible
       end
  | Step_Complete completed _ =>
    cd_publication completed = PublishComplete /\ state (cd_protocol completed) = Complete /\ gaps (cd_protocol completed) = []
  end.

Lemma next_event_step fuel root limits self w :
  in_step root limits self ->
  match (ActiveObserver_next_event fuel self w).1 with
  | Ok step => step_outcome root limits step
  | Err e => exists error, e = Adapter_Observation error
  end.
Proof.
  intros [Hr Hs Ht Hnz Hf]. unfold ActiveObserver_next_event.
  destruct (next_event fuel (ao_trace self, w)) as [r s'] eqn:Hn.
  rewrite (eff_bind_eq _ _ _ _ _ (on_trace_eq _ _ _ _ _ Hn)). destruct r as [event|error].
  - apply next_event_effect in Hn as (_ & F' & He); [|done]. cbn [fst] in He.
    destruct (record_trace_event_in_step root limits (ao_protocol self) event _ _ Hr Hs Ht Hnz He)
      as (d & next & untracked & Hrec & Hr' & Hdom & Hdisj & Hnz' & Hd).
    rewrite (eff_bind_eq _ _ _ (Ok (d, next, untracked)) s'.2) by (unfold lift_result; by rewrite Hrec).
    destruct Hd as [[[-> Hs'] ->]|[-> Hs']].
    + rewrite bool_decide_eq_false_2 by done. rewrite bool_decide_eq_true_2 by done. cbn [negb]. rewrite (right_id_L ∅ (∪)) in Hdom.
      destruct (is_drained s'.1) eqn:Hdr.
      * destruct (finish_trace s'.1 s'.2) as [[t|e] w2] eqn:Hfin; unfold mbind, eff_bind; rewrite Hfin; [|by apply finish_trace_Err in Hfin].
        apply andb_true_iff in Hdr as [Hemp%bool_decide_eq_true _]. pose proof (reachable_ok _ _ _ Hr') as [].
        unfold lift_result, protocol_step. rewrite finish_released; [|done|by apply ob_complete; right|].
        { cbn. split; [done|]. split; [done|]. by apply ob_complete; right. }
        apply dom_empty_iff_L. by rewrite <- Hdom, Hemp, dom_empty_L.
      * cbn. split; [split; cbn; [done|done|by symmetry|done|done]|]. intros Hemp. unfold is_drained in Hdr.
        rewrite F', bool_decide_eq_true_2 in Hdr by done. done.
    + rewrite bool_decide_eq_true_2 by done. unfold mbind, eff_bind.
      destruct (require_trace begin_termination s'.1 s'.2) as [[[deadline trace]|e] w2] eqn:Hb; [|by apply require_trace_Err in Hb].
      apply begin_termination_keeps in Hb. cbn. rewrite Hb. done.
  - assert (exists next, record_observer_failure (ao_protocol self) = Ok (TerminateAndDrain, next) /\ state next = Draining) as (next & Hfail & Hs').
    { unfold record_observer_failure. rewrite Hs. by eexists. }
    rewrite (eff_bind_eq _ _ _ (Ok (TerminateAndDrain, next)) s'.2) by (unfold lift_result, protocol_step; by rewrite Hfail).
    cbn [fst snd]. rewrite bool_decide_eq_true_2 by done. cbn [negb]. unfold mbind, eff_bind.
    destruct (require_trace begin_termination s'.1 s'.2) as [[[deadline trace]|e] w2] eqn:Hb; [|by apply require_trace_Err in Hb].
    cbn. split; [by apply (reach_step _ _ (ao_protocol self) Op_failure TerminateAndDrain)|]. done.
Qed.
(** C17: the adapter keeps the protocol in step with the trace: while it observes, the
    protocol tracks exactly the known process tree and refuses no event, and the
    run continues, drains or completes without a gap; a step fails only with an
    error of the trace. *)
Theorem adapter_in_step fuel root limits self w :
  in_step root limits self ->
  match (ActiveObserver_next_event fuel self w).1 with
  | Ok step => step_outcome root limits step
  | Err e => exists error, e = Adapter_Observation error
  end.
Proof. apply next_event_step. Qed.
End Coupled.

(** * Drains *)

Section Drains.
Context `{TraceTerminal}.
Implicit Types (root : DiagnosticProcessId) (limits : ObservationBounds) (w : World).

Lemma record_drain_observation_ok root limits protocol untracked observation next :
  reachable root limits protocol -> state protocol = Draining ->
  record_drain_observation protocol untracked observation = Ok next ->
  reachable root limits next.1 /\ state next.1 = Draining /\ gaps protocol ⊆ gaps next.1.
Proof.
  intros Hr Hs Ho.
  assert (forall op d n, Observer.apply op protocol = Ok (d, n) -> state n = Draining ->
    reachable root limits n /\ state n = Draining /\ gaps protocol ⊆ gaps n) as Hstep.
  { intros op d n Ha Hn. split; [by eapply reach_step|]. split; [done|]. by eapply gaps_kept. }
  assert (forall self gap d n, stop_with_gap self gap = Ok (d, n) -> state n = Draining) as Hstop by (by intros ? ? ? ? [= _ <-]).
  assert (forall self d n, state self = Draining -> continue_or_drain self = Ok (d, n) -> state n = Draining) as Hcont.
  { intros self d n Hd. unfold continue_or_drain. rewrite bool_decide_eq_true_2 by done. by intros [= _ <-]. }
  destruct observation as [parent child kind|former survivor superseded|p termination]; cbn in Ho.
  - apply bind_Ok in Ho as (pa & _ & (ch & _ & ([d n] & Hd & [= <-])%bind_Ok)%bind_Ok). apply map_err_Ok in Hd. cbn.
    apply (Hstep (Op_child pa ch (process_creation_kind kind)) d); [done|]. unfold discover_child in Hd.
    apply bind_Ok in Hd as (u & _ & Hd). repeat (case_match; [by eapply Hstop|]). by eapply Hcont; [|exact Hd].
  - apply bind_Ok in Ho as (fo & _ & (su & _ & (sp & _ & ([d n] & Hd & [= <-])%bind_Ok)%bind_Ok)%bind_Ok). apply map_err_Ok in Hd. cbn.
    apply (Hstep (Op_exec fo su sp) d); [done|]. unfold record_exec in Hd. apply bind_Ok in Hd as (u & _ & Hd).
    case_match; [by eapply Hstop|]. apply bind_Ok in Hd as (n0 & _ & Hd). by eapply Hcont; [|exact Hd].
  - apply bind_Ok in Ho as (pr & _ & Ho). case_bool_decide; [by injection Ho as <-|].
    apply bind_Ok in Ho as ([d n] & Hd & [= <-]). apply map_err_Ok in Hd. cbn. apply (Hstep (Op_exit pr) d); [done|].
    unfold record_process_exit in Hd. apply bind_Ok in Hd as (u & _ & Hd). case_match; [by eapply Hstop|].
    case_bool_decide; injection Hd as <- <-; done.
Qed.
Lemma record_drain_ok root limits protocol untracked observations next :
  reachable root limits protocol -> state protocol = Draining -> record_drain protocol untracked observations = Ok next ->
  reachable root limits next.1 /\ state next.1 = Draining /\ gaps protocol ⊆ gaps next.1.
Proof.
  revert protocol untracked. induction observations as [|o observations IH]; intros protocol untracked Hr Hs; cbn [record_drain].
  - by intros [= <-].
  - intros ([p u] & Ho & Hn)%bind_Ok. destruct (record_drain_observation_ok root limits protocol untracked o (p, u)) as (Hr' & Hs' & Hg); [done..|].
    destruct (IH p u Hr' Hs' Hn) as (H1 & H2 & H3). split; [done|]. split; [done|]. by etransitivity.
Qed.

Lemma drained_incomplete fuel root limits self w completed w' :
  reachable root limits (dn_protocol self) -> state (dn_protocol self) = Draining ->
  DrainingObserver_finish fuel self w = (Ok completed, w') ->
  dn_publication self = Eligible /\ cd_publication completed = PublishIncomplete
  /\ Observer.processes (cd_protocol completed) = ∅ /\ gaps (cd_protocol completed) <> []
  /\ gaps (dn_protocol self) ⊆ gaps (cd_protocol completed)
  /\ forall op, Observer.apply op (cd_protocol completed) = Err ProtocolTerminal.
Proof.
  intros Hr Hs. unfold DrainingObserver_finish. intros (report & w1 & _ & Hrest)%eff_bind_Ok.
  apply eff_bind_Ok in Hrest as (terminal & w2 & _ & Hrest).
  apply eff_bind_Ok in Hrest as ([protocol untracked] & w3 & [= Hrec <-] & Hrest). cbn [fst snd] in Hrest.
  destruct (record_drain_ok root limits _ _ _ _ Hr Hs Hrec) as (Hr' & Hs' & Hg). cbn [fst] in *.
  case_bool_decide; cbn [negb] in Hrest; [|done].
  apply eff_bind_Ok in Hrest as ([d confirmed] & w4 & [= Hcon <-] & Hrest). apply map_err_Ok in Hcon. cbn [snd] in Hrest.
  destruct (dn_publication self); [|done]. split; [done|].
  apply eff_bind_Ok in Hrest as ([d' finished] & w5 & [= Hfin <-] & [= <- _]). apply map_err_Ok in Hfin. cbn [cd_publication cd_protocol fst snd].
  assert (reachable root limits confirmed) as Hrc by (by apply (reach_step _ _ protocol Op_drained d)).
  pose proof (reachable_ok _ _ _ Hr') as []. assert (gaps confirmed = gaps protocol) as Hgc.
  { unfold confirm_tree_drained in Hcon. apply bind_Ok in Hcon as (u & _ & Hcon). case_match; [done|]. by injection Hcon as _ <-. }
  apply finish_shape in Hfin as (Hp & _ & -> & ->). assert (gaps confirmed <> []) as Hne by (rewrite Hgc; apply ob_incomplete; by left).
  rewrite (bool_decide_eq_false_2 _ Hne). split; [done|]. split; [done|]. split; [done|]. split; [by cbn; rewrite Hgc|].
  intros op. by apply terminal_refuses.
Qed.
(** A drained observation is published only as incomplete, with every gap recorded
    before the drain, from a process tree that the protocol found empty, and never
    after the wall-time limit of the run was exceeded. *)
Theorem drained_observation_incomplete fuel root limits self w completed w' :
  reachable root limits (dn_protocol self) -> state (dn_protocol self) = Draining ->
  DrainingObserver_finish fuel self w = (Ok completed, w') ->
  dn_publication self = Eligible /\ cd_publication completed = PublishIncomplete
  /\ Observer.processes (cd_protocol completed) = ∅ /\ gaps (cd_protocol completed) <> []
  /\ gaps (dn_protocol self) ⊆ gaps (cd_protocol completed)
  /\ forall op, Observer.apply op (cd_protocol completed) = Err ProtocolTerminal.
Proof. apply drained_incomplete. Qed.
End Drains.
