(* ===== verification/Mapping.v ===== *)
(** From trace events to diagnostic events
    ([proofbound-runtime-diagnose-linux/src/mapping.rs]) and the observation loop of
    the diagnostic command ([proofbound-runtime-diagnose-cli/src/main.rs]): which
    record an event becomes, and what a run hands to the receipt. *)
From S2P Require Import Prelude Receipt RunResult Diagnostic Observer Plan Trace Candidate TraceActive Adapter.
From Stdlib Require Import Ascii ZArith Lia Sorted.
From stdpp Require Import prelude strings list numbers gmap.
Export stdpp.list_relations.list.

Definition MAX_LINUX_ERRNO : Z := 4095.
Inductive DiagnosticEventMapError :=
| Map_ArchitectureUnsupported | Map_ExecInvocationInvalid | Map_PathEncodingInvalid | Map_OutcomeInvalid
| Map_SequenceOverflow | Map_Artifact (error : DiagnosticArtifactError).
Definition DiagnosticEventMapError_code (e : DiagnosticEventMapError) : string :=
  match e with
  | Map_ArchitectureUnsupported => "diagnostic.event-map.architecture-unsupported"
  | Map_ExecInvocationInvalid => "diagnostic.event-map.exec-invocation-invalid"
  | Map_PathEncodingInvalid => "diagnostic.event-map.path-encoding-invalid"
  | Map_OutcomeInvalid => "diagnostic.event-map.outcome-invalid"
  | Map_SequenceOverflow => "diagnostic.event-map.sequence-overflow"
  | Map_Artifact error => DiagnosticArtifactError_code error
  end.

Definition map_architecture (value : Z) : result DiagnosticEventMapError Receipt.Architecture :=
  if (value =? AUDIT_ARCH_X86_64)%Z then Ok Receipt.X86_64
  else if (value =? AUDIT_ARCH_AARCH64)%Z then Ok Receipt.Aarch64
  else Err Map_ArchitectureUnsupported.
Definition map_class (value : TraceSyscallClass) : DiagnosticEventClass :=
  match value with
  | Trace.Bind => Diagnostic.Bind | Trace.Clone => Diagnostic.Clone | Trace.Connect => Diagnostic.Connect
  | Trace.Creat => Diagnostic.Creat | Trace.Execve => Diagnostic.Execve | Trace.Execveat => Diagnostic.Execveat
  | Trace.Fork => Diagnostic.Fork | Trace.Newfstatat => Diagnostic.Newfstatat | Trace.Open => Diagnostic.Open
  | Trace.Openat => Diagnostic.Openat | Trace.Openat2 => Diagnostic.Openat2 | Trace.Readlink => Diagnostic.Readlink
  | Trace.Readlinkat => Diagnostic.Readlinkat | Trace.Sendto => Diagnostic.Sendto | Trace.Socket => Diagnostic.Socket
  | Trace.Statx => Diagnostic.Statx | Trace.Vfork => Diagnostic.Vfork
  end.
(** [u16::from_le_bytes] of the first two bytes *)
Definition socket_address_family (bytes : list byte) : SocketAddressFamily :=
  match bytes with
  | low :: high :: _ =>
    let family := le_value [low; high] in
    if (family =? 1)%Z then Unix else if (family =? 2)%Z then Inet else if (family =? 10)%Z then Inet6
    else if (family =? 16)%Z then Netlink else Other
  | _ => Other
  end.
Definition map_outcome (value : Z) (is_error : bool) : result DiagnosticEventMapError ObservationOutcome :=
  if is_error then
    let errno := (- value)%Z in
    if (1 <=? errno)%Z && (errno <=? MAX_LINUX_ERRNO)%Z then Ok (Failed errno) else Err Map_OutcomeInvalid
  else if (0 <=? value)%Z then Ok (Returned value) else Err Map_OutcomeInvalid.
Definition map_operands (value : TraceCapturedOperands) (symlink_hops : option Z) :
    result DiagnosticEventMapError ObservationOperands :=
  match value with
  | Captured_Path buffer_bytes directory_fd flags mask mode path resolve =>
    path ← ok_or (from_utf8 path) Map_PathEncodingInvalid;
    Ok (Path (mkPathOperands buffer_bytes directory_fd flags mask mode (Some path) resolve symlink_hops))
  | Captured_ProcessCreate flags => Ok (ProcessCreate flags)
  | Captured_SocketAddress address descriptor payload_bytes =>
    address ← match address with
              | None => Ok None
              | Some bytes =>
                address ← map_err Map_Artifact (ObservedSocketAddress_new (socket_address_family bytes) bytes); Ok (Some address)
              end;
    Ok (SocketAddress address descriptor payload_bytes)
  | Captured_SocketCreate domain protocol socket_type => Ok (SocketCreate domain protocol socket_type)
  end.

(** Resolution, path, the two objects and the followed links. *)
Definition Resolved : Type :=
  RunResult.ObservationResolution * option string * option ObservedObjectIdentity * option ObservedObjectIdentity * option Z.
Definition unresolved : Resolved := (RunResult.Unresolved, None, None, None, None).
Definition map_identity_parts (identity : TraceObjectIdentity) : result DiagnosticArtifactError ObservedObjectIdentity :=
  ObservedObjectIdentity_new (oi_device_major identity) (oi_device_minor identity) (oi_inode identity) (oi_mode identity)
    (oi_mount_id identity).
Definition live_path (path : list byte) : option string :=
  text ← from_utf8 path;
  if negb (is_normalized_absolute_path text) || ends_with deleted_suffix path then None else Some text.
Definition map_candidate_object (candidate : TraceCandidateObject) : Resolved :=
  match live_path (co_path candidate) with
  | None => unresolved
  | Some path =>
    if negb (bool_decide (co_object_before candidate = co_object_after candidate)) then unresolved
    else
      match map_identity_parts (co_object_before candidate), map_identity_parts (co_object_after candidate) with
      | Ok before, Ok after =>
        (RunResult.StableCandidate, Some path, Some before, Some after, Some (co_symlink_hops candidate))
      | _, _ => unresolved
      end
  end.
Definition map_selected_object (selected : TraceSelectedObject) : Resolved :=
  match live_path (so_path selected) with
  | None => unresolved
  | Some path =>
    match map_identity_parts (so_identity selected) with
    | Ok identity => (RunResult.KernelSelected, Some path, None, Some identity, None)
    | Err _ => unresolved
    end
  end.
Definition map_object_resolution (selected : option TraceSelectedObject) (candidate : option TraceCandidateObservation) :
    Resolved :=
  match selected, candidate with
  | Some selected, None => map_selected_object selected
  | None, Some (Stable candidate) => map_candidate_object candidate
  | None, Some (IdentityDrift | SymlinkLimit) => unresolved
  | None, None | Some _, Some _ => unresolved
  end.
Definition map_invocation (sequence process : Z) (invocation : TraceSyscallInvocation) (value : Z) (is_error : bool)
    (selected_object : option TraceSelectedObject) (candidate : option TraceCandidateObservation) :
    result DiagnosticEventMapError DiagnosticEvent :=
  let '(resolution, resolved_path, object_before, object_after, symlink_hops) :=
    map_object_resolution selected_object candidate in
  architecture ← map_architecture (sr_architecture (iv_registers invocation));
  operands ← map_operands (iv_operands invocation) symlink_hops;
  outcome ← map_outcome value is_error;
  map_err Map_Artifact
    (DiagnosticEvent_new sequence process architecture (map_class (iv_class invocation)) operands outcome resolution
       resolved_path object_before object_after).

(** The mapper is its [next_sequence]. *)
Definition map_event (next_sequence : Z) (event : ActiveTraceEvent) :
    result DiagnosticEventMapError (option DiagnosticEvent * Z) :=
  mapped ← match event with
    | SyscallCompleted process invocation result is_error selected candidate =>
      Some <$> map_invocation next_sequence process invocation result is_error selected candidate
    | ImageReplaced _ process _ (Some invocation) selected =>
      if negb (bool_decide (iv_class invocation = Trace.Execve \/ iv_class invocation = Trace.Execveat))
      then Err Map_ExecInvocationInvalid
      else Some <$> map_invocation next_sequence process invocation 0 false selected None
    | ProcessCreated _ _ _ | ImageReplaced _ _ _ None _ | ProcessExited _ _ | UnexpectedStop _ _ _ => Ok None
    end;
  match mapped with
  | None => Ok (None, next_sequence)
  | Some mapped =>
    if (next_sequence + 1 <=? 18446744073709551615)%Z then Ok (Some mapped, (next_sequence + 1)%Z) else Err Map_SequenceOverflow
  end.

(** * The observation loop *)

Definition retain_resolution_gap (event : ActiveTraceEvent) (gaps : list DiagnosticGap) : list DiagnosticGap :=
  match event with
  | SyscallCompleted _ _ _ _ _ (Some Candidate.IdentityDrift) => set_insert Diagnostic.IdentityDrift gaps
  | SyscallCompleted _ _ _ _ _ (Some Candidate.SymlinkLimit) => set_insert Diagnostic.SymlinkLimit gaps
  | _ => gaps
  end.
Record Retained := mkRetained {
  rt_next_sequence : Z;
  rt_events : list DiagnosticEvent;
  rt_resolution_gaps : list DiagnosticGap
}.
Definition retain (retained : Retained) (event : ActiveTraceEvent) : result DiagnosticEventMapError Retained :=
  let gaps := retain_resolution_gap event (rt_resolution_gaps retained) in
  mapped ← map_event (rt_next_sequence retained) event;
  Ok (mkRetained mapped.2 (rt_events retained ++ option_list mapped.1) gaps).

Inductive DiagnoseError := Execution_Adapter (error : ObserverAdapterError) | Execution_Map (error : DiagnosticEventMapError)
| Execution_PublicationInvalid.
Section Session.
Context `{TraceTerminal}.
Notation M := (eff World DiagnoseError).

Definition as_execution {A} (m : eff World ObserverAdapterError A) : M A := fun w =>
  let '(r, w) := m w in (map_err Execution_Adapter r, w).
Definition retain_event (retained : Retained) (event : ActiveTraceEvent) : M Retained :=
  lift_result (map_err Execution_Map (retain retained event)).
(** [loop { match observer.next_event()? { .. } }]: the completed observer with what
    was retained.  [wait] and [steps] bound the waits and the turns. *)
Fixpoint observation_loop (steps wait : nat) (observer : ActiveObserver) (retained : Retained) :
    M (option (CompletedObserver * Retained)) :=
  match steps with
  | O => mret None
  | S steps =>
    step ← as_execution (ActiveObserver_next_event wait observer);
    match step with
    | Step_Continue next event => retained ← retain_event retained event; observation_loop steps wait next retained
    | Step_Drain draining observation =>
      retained ← match observation with
                 | Observed_Event event => retain_event retained event
                 | Observed_Failure _ => mret retained
                 end;
      completed ← as_execution (DrainingObserver_finish wait draining);
      mret (Some (completed, retained))
    | Step_Complete completed event => retained ← retain_event retained event; mret (Some (completed, retained))
    end
  end.
Definition run_gaps (completed : CompletedObserver) (retained : Retained) : list DiagnosticGap :=
  foldl (fun gaps gap => set_insert gap gaps) [] (gaps (cd_protocol completed) ++ rt_resolution_gaps retained).
Definition run_completion (publication : ObserverDirective) (gaps : list DiagnosticGap) :
    result DiagnoseError RunResult.DiagnosticCompletion :=
  match publication, bool_decide (gaps = []) with
  | PublishComplete, true => Ok RunResult.Complete
  | PublishComplete, false | PublishIncomplete, false => Ok RunResult.Completion_Incomplete
  | _, _ => Err Execution_PublicationInvalid
  end.
End Session.
