(* ===== verification/TraceEvents.v ===== *)
(** The events of a trace are representable: what the tracer captures fits its class,
    so that the mapping of an event to a diagnostic record fails only on what the
    artifact cannot say, never on an inconsistency of the two. *)
From S2P Require Import Prelude Receipt RunResult Diagnostic Plan Trace Candidate TraceActive Mapping.
From Stdlib Require Import Ascii ZArith Lia Sorted.
From stdpp Require Import prelude strings list numbers gmap.
Export stdpp.list_relations.list.

(** [trace_read_process_memory] refuses a count beyond its buffer. *)
Class BoundedReads `{TraceSys} := {
  read_bounded process address n (w : World) l : (trace_read_process_memory process address n w).1 = Some l -> length l <= n
}.

Definition class_kind (class : TraceSyscallClass) : OperandKind := operand_kind (map_class class).
Definition captured_fits (limits : TraceCaptureLimits) (class : TraceSyscallClass) (operands : TraceCapturedOperands) : Prop :=
  match operands with
  | Captured_Path _ _ _ _ _ _ _ => class_kind class = Kind_Path
  | Captured_ProcessCreate _ => class_kind class = Kind_ProcessCreate
  | Captured_SocketAddress address _ _ =>
    class_kind class = Kind_SocketAddress
    /\ forall bytes, address = Some bytes -> (Z.of_nat (length bytes) <= socket_address_bytes limits)%Z
  | Captured_SocketCreate _ _ _ => class_kind class = Kind_SocketCreate
  end.
Record invocation_fits (limits : TraceCaptureLimits) (iv : TraceSyscallInvocation) : Prop := {
  fits_architecture : sr_architecture (iv_registers iv) = AUDIT_ARCH_X86_64 \/ sr_architecture (iv_registers iv) = AUDIT_ARCH_AARCH64;
  fits_operands : captured_fits limits (iv_class iv) (iv_operands iv)
}.
Definition request_fits (request : TraceCaptureRequest) : Prop :=
  match request with
  | Request_Path class _ _ _ _ _ _ => class_kind class = Kind_Path
  | Request_ProcessCreate class _ => class_kind class = Kind_ProcessCreate
  | Request_SocketAddress class _ _ _ _ _ => class_kind class = Kind_SocketAddress
  | Request_Openat2 _ _ _ _ | Request_Clone3 _ _ | Request_SocketCreate _ _ _ => True
  end.

Lemma decode_supported_fits number arguments syscalls request :
  decode_supported_syscall number arguments syscalls = Ok (Some request) -> request_fits request.
Proof.
  unfold decode_supported_syscall. intros Hd.
  repeat (case_match; [repeat (apply bind_Ok in Hd as (? & _ & Hd)); injection Hd as <-; try done; by case_match|]). done.
Qed.
Lemma decode_fits registers request :
  decode_trace_syscall registers = Ok (Some request) ->
  request_fits request /\ (sr_architecture registers = AUDIT_ARCH_X86_64 \/ sr_architecture registers = AUDIT_ARCH_AARCH64).
Proof.
  unfold decode_trace_syscall. destruct (Z.eqb_spec (sr_architecture registers) AUDIT_ARCH_X86_64).
  - unfold decode_x86_64_syscall. case_match; [done|]. intros ?%decode_supported_fits. by auto.
  - destruct (Z.eqb_spec (sr_architecture registers) AUDIT_ARCH_AARCH64); [|done]. intros ?%decode_supported_fits. by auto.
Qed.

Section Captured.
Context `{BoundedReads}.
Implicit Types (process : TraceProcessId) (limits : TraceCaptureLimits) (w : World).

Lemma read_exact_length fuel process address size bytes w l w' :
  length bytes <= size -> read_exact_loop fuel process address size bytes w = (Ok l, w') -> length l <= size.
Proof.
  revert bytes w. induction fuel as [|fuel IH]; intros bytes w Hb; cbn [read_exact_loop]; [by intros [= <- _]|].
  case_match; [|by intros [= <- _]]. intros (remote & w1 & _ & Hr)%eff_bind_Ok.
  apply eff_bind_Ok in Hr as (observed & w2 & Ho & Hr). case_bool_decide; [done|]. apply IH in Hr; [done|].
  unfold call in Ho. pose proof (read_bounded process remote (size - length bytes) w1) as Hlen.
  destruct (trace_read_process_memory _ _ _ w1) as [[l0|] w3]; [|done]. injection Ho as -> _.
  specialize (Hlen observed eq_refl). rewrite length_app. lia.
Qed.
Lemma capture_socket_address_fits process address address_bytes optional limits w r w' :
  (0 <= socket_address_bytes limits)%Z -> capture_socket_address process address address_bytes optional limits w = (Ok r, w') ->
  forall bytes, r = Some bytes -> (Z.of_nat (length bytes) <= socket_address_bytes limits)%Z.
Proof.
  intros Hlim. unfold capture_socket_address. case_match; [by intros [= <- _]|]. destruct (Z.ltb_spec (socket_address_bytes limits) address_bytes); [done|].
  case_match; [done|]. intros (bytes & w1 & Hr & [= <- _])%eff_bind_Ok bytes' [= <-].
  unfold read_exact_tracee_memory in Hr. apply read_exact_length in Hr; [|cbn; lia]. lia.
Qed.

Lemma capture_request_fits process request limits w class operands w' :
  (0 <= socket_address_bytes limits)%Z -> request_fits request ->
  capture_request process request limits w = (Ok (class, operands), w') -> captured_fits limits class operands.
Proof.
  intros Hlim Hreq. destruct request as [| | | |class0 descriptor address address_bytes optional payload|]; cbn [capture_request].
  - intros (path & w1 & _ & [= <- <- _])%eff_bind_Ok. exact Hreq.
  - case_match; [done|]. intros (path & w1 & _ & Hr)%eff_bind_Ok. repeat (apply eff_bind_Ok in Hr as (? & ? & _ & Hr)).
    injection Hr as <- <- _. done.
  - intros (u & w1 & _ & [= <- <- _])%eff_bind_Ok. exact Hreq.
  - case_match; [done|]. intros (bytes & w1 & _ & Hr)%eff_bind_Ok. apply eff_bind_Ok in Hr as (u & w2 & _ & [= <- <- _]). done.
  - intros (bytes & w1 & Hr & [= <- <- _])%eff_bind_Ok. split; [exact Hreq|]. by eapply capture_socket_address_fits.
  - by intros [= <- <- _].
Qed.
Lemma capture_fits process registers limits w iv w' :
  (0 <= socket_address_bytes limits)%Z ->
  capture_syscall_invocation process registers limits w = (Ok (Some iv), w') -> invocation_fits limits iv.
Proof.
  intros Hlim. unfold capture_syscall_invocation. intros ([request|] & w1 & [= Hd <-] & Hr)%eff_bind_Ok; [|done].
  apply decode_fits in Hd as [Hreq Harch]. apply eff_bind_Ok in Hr as ([class operands] & w2 & Hc & [= <- _]).
  split; [done|]. by eapply capture_request_fits.
Qed.

(** Every pending invocation of the known tree fits. *)
Definition tree_fits (t : ActiveTrace) : Prop :=
  (0 <= socket_address_bytes (capture_limits t) <= 4096)%Z
  /\ forall p state iv, processes t !! p = Some state -> pending state = Some (Captured iv) -> invocation_fits (capture_limits t) iv.
Definition event_fits (limits : TraceCaptureLimits) (event : ActiveTraceEvent) : Prop :=
  match event with
  | SyscallCompleted process iv _ is_error selected candidate =>
    process <> 0%Z /\ invocation_fits limits iv
    /\ (is_Some selected -> is_error = false /\ class_kind (iv_class iv) = Kind_Path)
    /\ (is_Some candidate -> is_error = true /\ class_kind (iv_class iv) = Kind_Path)
  | ImageReplaced _ process _ (Some iv) _ => process <> 0%Z /\ invocation_fits limits iv
  | _ => True
  end.
Lemma selected_fits process iv value is_error retained limits w selected w' :
  observe_successful_descriptor process iv value is_error retained limits w = (selected, w') -> is_Some selected ->
  is_error = false /\ class_kind (iv_class iv) = Kind_Path.
Proof.
  unfold observe_successful_descriptor, eligible_selected_descriptor. destruct is_error; [by intros [= <- _] [? ?]|].
  destruct (negb _) eqn:H1; [by intros [= <- _] [? ?]|]. cbn [orb]. case_bool_decide as Hc; [|by intros [= <- _] [? ?]].
  intros _ _. split; [done|]. by destruct Hc as [-> |[-> |[-> | ->]]].
Qed.
Lemma candidate_fits process iv is_error retained limits limits' w candidate w' :
  captured_fits limits' (iv_class iv) (iv_operands iv) ->
  observe_failed_candidate process iv is_error retained limits w = (candidate, w') -> is_Some candidate ->
  is_error = true /\ class_kind (iv_class iv) = Kind_Path.
Proof.
  unfold observe_failed_candidate. destruct is_error; [|by intros _ [= <- _] [? ?]]. cbn [negb orb].
  destruct (negb _); [by intros _ [= <- _] [? ?]|]. destruct (iv_operands iv); [|by intros _ [= <- _] [? ?]..]. by intros Hf _ _.
Qed.
End Captured.

Section Tree.
Context `{BoundedReads}.
Notation M := (eff (ActiveTrace * World) TraceObservationError).
Implicit Types (s : ActiveTrace * World) (p : TraceProcessId).

Definition pending_fits (limits : TraceCaptureLimits) (state : TraceeState) : Prop :=
  forall iv, pending state = Some (Captured iv) -> invocation_fits limits iv.
Definition answer_fits (r : option ActiveTraceEvent) s : Prop :=
  tree_fits s.1 /\ forall event, r = Some event -> event_fits (capture_limits s.1) event.

Lemma tree_fits_kept (t t' : ActiveTrace) :
  processes t' = processes t -> capture_limits t' = capture_limits t -> tree_fits t -> tree_fits t'.
Proof. unfold tree_fits. by intros -> ->. Qed.
Lemma tree_fits_insert (t t' : ActiveTrace) p state :
  processes t' = <[p := state]> (processes t) -> capture_limits t' = capture_limits t -> pending_fits (capture_limits t) state ->
  tree_fits t -> tree_fits t'.
Proof.
  unfold tree_fits. intros -> -> Hs [Hl Ht]. split; [done|]. intros q st iv. rewrite lookup_insert_Some.
  intros [[_ <-]|[_ Hq]]; [by apply Hs|by eapply Ht].
Qed.
Lemma ok_fits {A} (m : M A) s Q : keeps m -> tree_fits s.1 ->
  (forall a s1, tree_fits s1.1 -> processes s1.1 = processes s.1 -> capture_limits s1.1 = capture_limits s.1 -> Q a s1) -> ok m s Q.
Proof. intros Hm Hf HQ a s' Ha. apply Hm in Ha as (H1 & _ & H3). apply HQ; [by eapply tree_fits_kept|done..]. Qed.
Lemma ok_tracee p s Q : (forall state, processes s.1 !! p = Some state -> Q state s) -> ok (tracee p) s Q.
Proof. intros HQ. unfold tracee. apply ok_bind, ok_get, ok_lift. intros state Hs%ok_or_Ok. by apply HQ. Qed.
Lemma ok_set_tracee p state s (Q : () -> ActiveTrace * World -> Prop) : pending_fits (capture_limits s.1) state -> tree_fits s.1 ->
  (forall s1, tree_fits s1.1 -> Q () s1) -> ok (set_tracee p state) s Q.
Proof. intros Hs Ht HQ. apply ok_modify, HQ. by eapply tree_fits_insert. Qed.

Lemma handle_syscall_stop_fits p s : p <> 0%Z -> tree_fits s.1 -> ok (handle_syscall_stop p) s answer_fits.
Proof.
  intros Hp Hf. unfold handle_syscall_stop. apply ok_bind, ok_tracee. intros state _.
  destruct (awaiting_initial_stop state); [apply ok_throw|]. apply ok_bind, ok_fits; [apply keeps_sys|done|]. intros stop s1 F1 _ _.
  destruct stop as [registers|value is_error| |]; [| |apply ok_throw..].
  - apply ok_bind, ok_get, ok_bind. intros invocation s2 Hc.
    assert (tree_fits s2.1 /\ pending_fits (capture_limits s2.1) (mkTraceeState 0 false false (Some (from_option Captured Ignored invocation)))) as [F2 Hiv].
    { pose proof (keeps_sys _ _ _ _ Hc) as (P & _ & L). split; [by eapply tree_fits_kept|]. unfold sys in Hc.
      destruct (capture_syscall_invocation _ _ _ s1.2) as [r w1] eqn:Hcap. injection Hc as -> <-. cbn.
      intros iv. cbn. destruct invocation as [iv'|]; [|done]. intros [= <-]. destruct F1 as [[Hl _] _]. by eapply capture_fits. }
    apply ok_bind, ok_tracee. intros st _. apply ok_bind, ok_lift. intros next Hb.
    apply ok_bind, ok_set_tracee; [|done|].
    + unfold begin_syscall in Hb. destruct (pending st); [done|]. injection Hb as <-. intros iv Heq. by apply Hiv.
    + intros s3 F3. apply ok_bind, ok_fits; [apply keeps_resume|done|]. intros ? s4 F4 _ _. apply ok_ret. by split.
  - apply ok_bind, ok_tracee. intros st Hst. apply ok_bind, ok_lift. intros [finished next] Hfin. cbn [fst snd].
    assert (pending next = None /\ forall value, finished = Some value -> pending st = Some value) as [Hnone Hfrom].
    { unfold finish_syscall in Hfin. destruct (pending st); [|destruct (allow_initial_exit st); [|done]];
      injection Hfin as <- <-; by split. }
    apply ok_bind. intros u s2 Hset. injection Hset as <- <-.
    assert (tree_fits (with_processes (<[p := next]> (processes s1.1)) s1.1)) as F2.
    { eapply tree_fits_insert; [done|done| |exact F1]. intros iv Heq. by rewrite Hnone in Heq. }
    destruct finished as [[invocation|]|].
    + assert (invocation_fits (capture_limits s1.1) invocation) as Hiv by (destruct F1 as [_ F1]; apply (F1 p st); [done|by apply Hfrom]).
      apply ok_bind. intros selected s3 Hsel. pose proof (keeps_observe _ _ _ _ Hsel) as (P3 & _ & L3).
      unfold observe in Hsel. destruct (observe_successful_descriptor _ _ _ _ _ _ _) as [sel w1] eqn:Hso. injection Hsel as -> Hs3.
      apply ok_bind. intros candidate s4 Hcand. pose proof (keeps_observe _ _ _ _ Hcand) as (P4 & _ & L4).
      unfold observe in Hcand. destruct (observe_failed_candidate _ _ _ _ _ _) as [cand w2] eqn:Hco. injection Hcand as -> Hs4.
      apply ok_bind, ok_modify, ok_ret. split.
      * eapply tree_fits_kept; [..|exact F2]; cbn; [by rewrite P4, P3|by rewrite L4, L3].
      * intros event [= <-]. cbn. rewrite L4, L3. cbn. split; [done|]. split; [done|]. split.
        -- by eapply selected_fits.
        -- eapply candidate_fits; [apply Hiv|exact Hco].
    + apply ok_bind, ok_fits; [apply keeps_resume|done|]. intros ? s4 F4 _ _. apply ok_ret. by split.
    + apply ok_bind, ok_fits; [apply keeps_resume|done|]. intros ? s4 F4 _ _. apply ok_ret. by split.
Qed.

Lemma tree_fits_reconcile (t : ActiveTrace) requested reported former change next :
  reconcile_exec_processes (processes t) requested reported former = Ok (change, next) ->
  tree_fits t -> tree_fits (with_processes next t).
Proof.
  intros (_ & _ & _ & _ & _ & _ & _ & (exec & He & _ & _ & st & Hst & Hpend) & Hn)%reconcile_Ok [Hl Ht]. split; [done|].
  intros p state iv. cbn. destruct (decide (p = reported)) as [->|Hp].
  - rewrite He. intros [= <-]. rewrite Hpend. by eapply (Ht former).
  - rewrite Hn by done. case_match; [done|]. by eapply Ht.
Qed.
Lemma tree_fits_handles (t : ActiveTrace) : tree_fits (remove_unused_process_handles t) <-> tree_fits t.
Proof. done. Qed.
Lemma handle_exec_fits requested reported s : reported <> 0%Z -> tree_fits s.1 -> ok (handle_exec requested reported) s answer_fits.
Proof.
  intros Hp Hf. unfold handle_exec, reconcile_exec_identity. apply ok_bind, ok_bind, ok_fits; [apply keeps_event_process|done|].
  intros former s1 F1 _ _. apply ok_bind, ok_get, ok_bind, ok_lift. intros [change next] Hrec. cbn [fst snd].
  apply ok_bind, ok_modify, ok_bind, ok_fits; [apply keeps_open_handle|by eapply tree_fits_reconcile|]. intros ? s2 F2 _ _.
  apply ok_bind, ok_modify, ok_ret. apply ok_bind, ok_get, ok_bind, ok_fits; [apply keeps_observe|done|]. intros selected s3 F3 P3 L3.
  apply ok_bind, ok_modify, ok_ret. split; [done|]. intros event [= <-]. cbn. apply reconcile_Ok in Hrec as (_ & _ & -> & _).
  cbn in *. destruct (processes s2.1 !! reported) as [st|] eqn:Hst; cbn; [|done].
  destruct (pending st) as [[iv|]|] eqn:Hpend; [|done..]. split; [done|]. rewrite L3. destruct F2 as [_ F2]. by eapply F2.
Qed.
Lemma handle_creation_fits reported kind s : tree_fits s.1 -> ok (handle_creation reported kind) s answer_fits.
Proof.
  intros Hf. unfold handle_creation. apply ok_bind, ok_modify, ok_bind, ok_fits; [apply keeps_event_process|done|]. intros child s1 F1 _ _.
  apply ok_bind, ok_get. case_bool_decide; [apply ok_throw|]. unfold register_child. apply ok_bind, ok_bind, ok_get.
  case_match; [apply ok_throw|]. apply ok_bind, ok_fits; [apply keeps_sys|done|]. intros group s2 F2 _ _.
  apply ok_bind, ok_fits; [apply keeps_open_handle|done|]. intros ? s3 F3 _ _. apply ok_bind, ok_modify, ok_ret.
  apply ok_bind, ok_modify, ok_bind, ok_modify, ok_bind, ok_modify, ok_ret. split; [|by intros event [= <-]].
  assert (tree_fits (with_processes (<[child := awaiting_stop group]> (processes s3.1)) s3.1)) as F4 by (by eapply tree_fits_insert).
  by destruct (process_limit s1.1 <=? _)%Z.
Qed.
Lemma record_terminal_fits p s termination : tree_fits s.1 ->
  ok (_ ← record_terminal_process p; mret (Some (ProcessExited p termination))) s answer_fits.
Proof.
  intros [Hl Hf]. unfold record_terminal_process. apply ok_bind, ok_bind, ok_get. case_match; [|apply ok_throw].
  apply ok_bind, ok_modify, ok_modify, ok_ret. split; [|by intros event [= <-]]. split; [done|]. intros q st iv. cbn.
  intros [_ Hq]%lookup_delete_Some. by eapply Hf.
Qed.
Lemma handle_wait_fits requested observation s : tree_fits s.1 -> ok (handle_wait_observation requested observation) s answer_fits.
Proof.
  intros Hf. unfold handle_wait_observation. apply ok_bind, ok_lift. intros reported Hrep%map_err_Ok.
  assert (reported <> 0%Z) as Hp.
  { unfold TraceProcessId_new in Hrep. case_match eqn:Hz; [|done]. injection Hrep as <-. apply andb_true_iff in Hz as [Hz _].
    by apply negb_true_iff, Z.eqb_neq in Hz. }
  destruct (negb _); [apply ok_throw|]. destruct (wo_status observation) as [signal event|code|signal]; [|by apply record_terminal_fits..].
  destruct (_ && trace_event_is_exec event); [by apply handle_exec_fits|]. case_match; [by apply handle_creation_fits|].
  destruct (_ && _); [by apply handle_syscall_stop_fits|]. apply ok_bind, ok_get. destruct (_ && _).
  - apply ok_bind, ok_tracee. intros state Hst. apply ok_bind, ok_set_tracee; [|done|].
    + intros iv Heq. destruct Hf as [_ Hf]. by apply (Hf reported state).
    + intros s1 F1. apply ok_bind, ok_fits; [apply keeps_resume|done|]. intros ? s2 F2 _ _. apply ok_ret. by split.
  - apply ok_bind, ok_modify, ok_ret. split; [done|]. by intros e [= <-].
Qed.
Lemma poll_fits requests s : tree_fits s.1 -> ok (poll requests) s answer_fits.
Proof.
  revert s. induction requests as [|requested rest IH]; intros s Hf; cbn [poll]; [by apply ok_ret|].
  apply ok_bind, ok_fits; [apply keeps_attempt, keeps_sys|done|]. intros waited s1 F1 _ _.
  destruct waited as [[observation|]|e]; [|by apply IH|apply ok_drain_with].
  apply ok_bind, ok_fits; [apply keeps_before_deadline|done|]. intros ? s2 F2 _ _. apply ok_bind.
  intros handled s3 Hh. unfold attempt in Hh. destruct (handle_wait_observation requested observation s2) as [r s3'] eqn:Hr.
  injection Hh as <- <-. destruct r as [r|e].
  2: { apply ok_bind, ok_keeps; [apply keeps_before_deadline|]. intros. apply ok_drain_with. }
  apply handle_wait_fits in Hr as [F3 Hev]; [|done]. apply ok_bind, ok_fits; [apply keeps_before_deadline|done|]. intros ? s4 F4 _ L4.
  destruct r as [event|]; [|by apply IH]. apply ok_ret. split; [done|]. intros e [= <-]. rewrite L4. by apply Hev.
Qed.
Lemma wait_loop_fits fuel s : tree_fits s.1 -> ok (wait_loop fuel) s (fun event s' => answer_fits (Some event) s').
Proof.
  revert s. induction fuel as [|fuel IH]; intros s F; cbn [wait_loop]; [apply ok_drain_with|].
  apply ok_bind, ok_get, ok_bind. intros polled s1 Hp. apply poll_fits in Hp as [F1 Hp]; [|done].
  destruct polled as [event|]; [by apply ok_ret|]. apply ok_bind, ok_fits; [apply keeps_before_deadline|done|]. intros ? s2 F2 _ _.
  apply ok_bind, ok_fits; [apply keeps_sys|done|]. intros ? s3 F3 _ _. by apply IH.
Qed.
Lemma next_event_fits fuel s : tree_fits s.1 -> ok (next_event fuel) s (fun event s' => answer_fits (Some event) s').
Proof.
  intros Hf. unfold next_event. apply ok_bind, ok_get. destruct (must_drain s.1); [apply ok_throw|].
  case_bool_decide; [apply ok_throw|]. apply ok_bind, ok_fits; [apply keeps_before_deadline|done|]. intros ? s1 F1 _ _.
  apply ok_bind, ok_modify, ok_bind, ok_fits; [case_match; [apply keeps_resume|apply keeps_ret]|done|]. intros ? s2 F2 _ _.
  by apply wait_loop_fits.
Qed.
End Tree.

(** * Mapping *)

Lemma fmap_Err {E A B} (f : A -> B) (m : result E A) e : f <$> m = Err e <-> m = Err e.
Proof. destruct m; cbn; split; try done; by intros [= ->]. Qed.

(** What the mapping of a fitting event can refuse. *)
Definition expected_refusal (e : DiagnosticEventMapError) : Prop :=
  e = Map_PathEncodingInvalid \/ e = Map_OutcomeInvalid \/ e = Map_ExecInvocationInvalid \/ e = Map_SequenceOverflow.
Definition refuses_as_expected {A} (m : result DiagnosticEventMapError A) : Prop := forall e, m = Err e -> expected_refusal e.

Lemma live_path_normalized path text : live_path path = Some text -> is_normalized_absolute_path text = true.
Proof.
  unfold live_path. destruct (from_utf8 path) as [t|]; cbn; [|done]. destruct (is_normalized_absolute_path t) eqn:Hn; cbn; [|done].
  case_match; [done|]. by intros [= <-].
Qed.
Lemma map_invocation_refuses sequence process iv value is_error selected candidate limits :
  (socket_address_bytes limits <= 4096)%Z ->
  process <> 0%Z -> invocation_fits limits iv -> (is_Some selected -> is_error = false /\ class_kind (iv_class iv) = Kind_Path) ->
  (is_Some candidate -> is_error = true /\ class_kind (iv_class iv) = Kind_Path) ->
  refuses_as_expected (map_invocation sequence process iv value is_error selected candidate).
Proof.
  intros Hlim Hp [Harch Hcap] Hsel Hcand e. unfold map_invocation.
  destruct (map_object_resolution selected candidate) as [[[[res path] before] after] hops] eqn:Hres.
  assert (exists a, map_architecture (sr_architecture (iv_registers iv)) = Ok a) as [a ->] by (destruct Harch as [-> | ->]; by eexists).
  cbn [mbind result_bind]. destruct (map_operands (iv_operands iv) hops) as [ops|e'] eqn:Hops; cbn [mbind result_bind].
  2: { intros [= ->]. left. destruct (iv_operands iv) as [? ? ? ? ? text ?| |[bytes|] ? ?|]; cbn in Hops; [|done| |done..].
       - destruct (from_utf8 text); [done|]. by injection Hops.
       - destruct Hcap as [_ Hcap]. unfold ObservedSocketAddress_new in Hops. specialize (Hcap bytes eq_refl).
         destruct (Z.ltb_spec 4096 (Z.of_nat (length bytes))); [lia|done]. }
  destruct (map_outcome value is_error) as [out|e'] eqn:Hout; cbn [mbind result_bind].
  2: { intros [= ->]. right. left. unfold map_outcome in Hout. repeat case_match; by simplify_eq. }
  intros He. exfalso. apply map_err_Err in He as (e' & He & _).
  assert (operand_kind (map_class (iv_class iv)) = ObservationOperands_kind ops /\ is_returned out = negb is_error
    /\ (class_kind (iv_class iv) = Kind_Path -> exists q, ops = Path q /\ is_Some (po_path q) /\ po_symlink_hops q = hops)
    /\ out <> Failed 0) as (Hkind & Hret & Hpath & Hne).
  { split_and!.
    - destruct (iv_operands iv); cbn in Hops, Hcap; unfold class_kind in Hcap; repeat (apply bind_Ok in Hops as (? & _ & Hops));
        injection Hops as <-; cbn; naive_solver.
    - unfold map_outcome in Hout. destruct is_error; case_match; by simplify_eq.
    - intros Hk. destruct (iv_operands iv); cbn in Hops, Hcap; [|rewrite Hk in Hcap; naive_solver..].
      apply bind_Ok in Hops as (t & _ & [= <-]). eexists. split; [done|]. split; [by eexists|done].
    - unfold map_outcome in Hout. destruct is_error; case_match; simplify_eq; [|done]. intros [= H0]. lia. }
  unfold DiagnosticEvent_new in He. rewrite (proj2 (Z.eqb_neq process 0) Hp), (bool_decide_eq_true_2 _ Hkind) in He. cbn [negb orb] in He.
  unfold ObservationOutcome_validate in He. rewrite (bool_decide_eq_false_2 _ Hne) in He. cbn [mbind result_bind] in He.
  assert (resolution_invalid res ops out path before after = false
    /\ is_some_and (fun p => negb (is_normalized_absolute_path p)) path = false) as [Hri Hnorm].
  { destruct selected as [sel|], candidate as [[c| |]|]; cbn in Hres; try by injection Hres as <- <- <- <- <-.
    - unfold map_selected_object in Hres. destruct (live_path (so_path sel)) as [p|] eqn:Hl; [|by injection Hres as <- <- <- <- <-].
      destruct (map_identity_parts (so_identity sel)); [|by injection Hres as <- <- <- <- <-]. injection Hres as <- <- <- <- <-. cbn.
      rewrite (live_path_normalized _ _ Hl). destruct (Hsel ltac:(by eexists)) as [-> Hk]. rewrite Hret.
      destruct (Hpath Hk) as (q & -> & [t Ht] & _). cbn. by rewrite Ht.
    - unfold map_candidate_object in Hres. destruct (live_path (co_path c)) as [p|] eqn:Hl; [|by injection Hres as <- <- <- <- <-].
      case_bool_decide as Hba; cbn [negb] in Hres; [|by injection Hres as <- <- <- <- <-]. rewrite Hba in Hres.
      destruct (map_identity_parts (co_object_after c)) as [a0|]; [|by injection Hres as <- <- <- <- <-]. injection Hres as <- <- <- <- <-. cbn.
      rewrite (live_path_normalized _ _ Hl). destruct (Hcand ltac:(by eexists)) as [-> Hk]. rewrite Hret.
      destruct (Hpath Hk) as (q & -> & [t Ht] & Hh). cbn. rewrite Ht, Hh. rewrite (bool_decide_eq_true_2 (Some a0 = Some a0)) by done.
      done. }
  by rewrite Hri, Hnorm in He.
Qed.

(** C18: every event of an active trace can be written as a diagnostic record: the mapping
    refuses one only for a path that is not UTF-8, a result word that Linux does not
    return, a replaced image whose pending call is no [exec], or a used-up sequence;
    it never finds the captured operands, the resolution or the architecture
    inconsistent with the class. *)
Theorem traced_event_mapped `{BoundedReads} fuel s event s' next_sequence :
  tree_fits s.1 -> next_event fuel s = (Ok event, s') ->
  tree_fits s'.1 /\ forall e, map_event next_sequence event = Err e -> expected_refusal e.
Proof.
  intros Hf Hn. apply next_event_fits in Hn as [Hf' Hev]; [|done]. pose proof Hf' as [[_ Hlim] _]. specialize (Hev event eq_refl). split; [done|].
  intros e. unfold map_event. intros [He|(mapped & _ & He)]%bind_Err.
  - destruct event as [process iv value is_error selected candidate|parent child kind|former process superseded [iv|] selected|process term|process signal ev];
      [| | |done..].
    + destruct Hev as (Hp & Hiv & Hsel & Hcand). apply fmap_Err in He.
      by eapply map_invocation_refuses.
    + done.
    + destruct Hev as [Hp Hiv]. case_bool_decide as Hclass; cbn [negb] in He; [|injection He as <-; unfold expected_refusal; tauto].
      apply fmap_Err in He. refine (map_invocation_refuses _ _ _ _ _ _ _ _ Hlim Hp Hiv _ _ e He); [|by intros [? ?]].
      intros _. split; [done|]. by destruct Hclass as [-> | ->].
  - destruct mapped; [|done]. case_match; [done|]. injection He as <-. unfold expected_refusal. tauto.
Qed.
