(* ===== verification/Session.v ===== *)
(** A diagnostic run from its first event to its publication: how many records it
    retains, and what happens to a run that reaches its event limit. *)
From S2P Require Import Prelude Receipt RunResult Diagnostic Observer Plan Trace Candidate TraceActive Adapter Mapping.
From Stdlib Require Import Ascii ZArith Lia Sorted.
From stdpp Require Import prelude strings list numbers gmap.
Export stdpp.list_relations.list.

(** The events the protocol charges for a trace event. *)
Definition charge (event : ActiveTraceEvent) : Z :=
  match event with
  | SyscallCompleted _ _ _ _ _ _ | ProcessCreated _ _ _ | ImageReplaced _ _ _ _ _ => 1
  | ProcessExited _ _ | UnexpectedStop _ _ _ => 0
  end.
Lemma retain_charge retained event next :
  retain retained event = Ok next ->
  (Z.of_nat (length (rt_events next)) <= Z.of_nat (length (rt_events retained)) + charge event)%Z.
Proof.
  unfold retain, map_event. intros ([mapped n] & (m & Hm & Hn)%bind_Ok & [= <-])%bind_Ok. cbn. rewrite length_app.
  destruct m as [e|]; [case_match; [|done]; injection Hn as <- <-|injection Hn as <- <-; cbn; destruct event; cbn; lia].
  cbn. destruct event as [| |? ? ? [iv|]| |]; cbn in *; try lia; done.
Qed.

Section Totals.
Implicit Types (self next : ObserverProtocol).
Lemma continue_total self d next : continue_or_drain self = Ok (d, next) -> total_events next = total_events self.
Proof. unfold continue_or_drain. case_bool_decide; by intros [= <- <-]. Qed.
Lemma record_event_total self p d next :
  state next = Released -> record_event self p = Ok (d, next) -> total_events next = (total_events self + 1)%Z.
Proof.
  intros Hs. unfold record_event. intros (u & _ & H)%bind_Ok. case_match; [by injection H as <- <-|].
  case_bool_decide as Hd; [injection H as <- <-; cbn in Hs; congruence|].
  case_match; [injection H as <- <-; by destruct (_ <=? _)%Z, (_ <=? _)%Z|].
  apply bind_Ok in H as (n & _ & [= <- <-]). done.
Qed.
Lemma then_record_event_total step p next :
  state next = Released -> then_record_event step p = Ok (Continue, next) -> total_events next = (total_events step.2 + 1)%Z.
Proof.
  intros Hs. unfold then_record_event. case_bool_decide as Hc.
  - intros H0%map_err_Ok. by apply record_event_total in H0.
  - intros [= ->]. done.
Qed.
Lemma stop_total self gap d next : stop_with_gap self gap = Ok (d, next) -> total_events next = total_events self.
Proof. by intros [= _ <-]. Qed.
(** A trace event that lets the run go on is charged exactly. *)
Lemma record_trace_event_total protocol event next untracked :
  state next = Released -> record_trace_event protocol event = Ok (Continue, next, untracked) ->
  total_events next = (total_events protocol + charge event)%Z.
Proof.
  intros Hs. destruct event as [p iv value is_error selected candidate|parent child kind|former survivor superseded iv selected|p termination|p signal ev]; cbn.
  - intros (q & _ & ([d n] & Hd & [= -> <- _])%bind_Ok)%bind_Ok. apply map_err_Ok in Hd. by eapply record_event_total.
  - intros (q & _ & (c & _ & ([d n] & Hd & ([d' n'] & Ht & [= -> <- _])%bind_Ok)%bind_Ok)%bind_Ok)%bind_Ok.
    apply then_record_event_total in Ht; [|done]. rewrite Ht. cbn. apply map_err_Ok in Hd. unfold discover_child in Hd.
    apply bind_Ok in Hd as (u & _ & Hd). f_equal. repeat (case_match; [by eapply stop_total|]). by apply continue_total in Hd as ->.
  - intros (q & _ & (c & _ & (l & _ & ([d n] & Hd & ([d' n'] & Ht & [= -> <- _])%bind_Ok)%bind_Ok)%bind_Ok)%bind_Ok)%bind_Ok.
    apply then_record_event_total in Ht; [|done]. rewrite Ht. cbn. apply map_err_Ok in Hd. unfold record_exec in Hd.
    apply bind_Ok in Hd as (u & _ & Hd). f_equal. case_match; [by eapply stop_total|].
    apply bind_Ok in Hd as (o & _ & Hd). by apply continue_total in Hd as ->.
  - intros (q & _ & ([d n] & Hd & [= -> <- _])%bind_Ok)%bind_Ok. apply map_err_Ok in Hd. unfold record_process_exit in Hd.
    apply bind_Ok in Hd as (u & _ & Hd). case_match; [done|]. case_bool_decide; [done|]. injection Hd as <-. cbn. lia.
  - intros (q & _ & ([d n] & Hd & [= -> <- _])%bind_Ok)%bind_Ok. apply map_err_Ok in Hd. unfold record_unexpected_stop in Hd.
    by apply bind_Ok in Hd as (u & _ & Hd).
Qed.
Lemma apply_bounds op self d next : Observer.apply op self = Ok (d, next) -> bounds next = bounds self.
Proof.
  assert (forall s gap d n, stop_with_gap s gap = Ok (d, n) -> bounds n = bounds s) as Hstop by (by intros ? ? ? ? [= _ <-]).
  assert (forall s d n, continue_or_drain s = Ok (d, n) -> bounds n = bounds s) as Hcont.
  { intros s d' n. unfold continue_or_drain. case_bool_decide; by intros [= _ <-]. }
  destruct op; intros H; unfold Observer.apply, attach_root, record_boundary_ready, enable_trace_options, release_target, discover_child,
    record_event, record_exec, record_process_exit, record_unexpected_stop, confirm_tree_drained, finish in H;
    try (apply bind_Ok in H as (u & _ & H)).
  1,2,4: by injection H as _ <-.
  - case_match; [done|]. by injection H as _ <-.
  - repeat (case_match; [by apply Hstop in H|]). by apply Hcont in H.
  - case_match; [by apply Hstop in H|]. case_bool_decide; [by injection H as _ <-|].
    case_match; [injection H as _ <-; by do 2 case_match|]. apply bind_Ok in H as (n & _ & H). by injection H as _ <-.
  - case_match; [by apply Hstop in H|]. apply bind_Ok in H as (n & _ & H). by apply Hcont in H.
  - case_match; [by apply Hstop in H|]. case_bool_decide; by injection H as _ <-.
  - by apply Hstop in H.
  - unfold record_observer_failure in H. destruct (state self); simplify_eq; try done; by apply Hstop in H.
  - case_match; [done|]. by injection H as _ <-.
  - case_match; [done|]. case_match; [done|]. case_bool_decide; by injection H as _ <-.
Qed.
Lemma reachable_bounds root limits self : reachable root limits self -> bounds self = limits.
Proof.
  induction 1 as [self Hn|self op d next _ IH Ha]; [|apply apply_bounds in Ha; congruence].
  unfold ObserverProtocol_new in Hn. apply bind_Ok in Hn as (b & Hb%map_err_Ok & [= <-]). cbn.
  unfold ObservationBounds_validate in Hb. by case_match; simplify_eq.
Qed.
End Totals.

Section Run.
Context `{TraceTerminal}.
Implicit Types (root : DiagnosticProcessId) (limits : ObservationBounds) (w : World).

(** The event of a step was recorded by a protocol that stays within its bounds. *)
Lemma step_recorded fuel root limits self w step w' :
  in_step root limits self -> ActiveObserver_next_event fuel self w = (Ok step, w') ->
  match step with
  | Step_Continue next event =>
    total_events (ao_protocol next) = (total_events (ao_protocol self) + charge event)%Z
  | Step_Drain _ _ => True
  | Step_Complete _ event => (total_events (ao_protocol self) + charge event <= event_count limits)%Z
  end.
Proof.
  intros [Hr Hs Ht Hnz Hf]. unfold ActiveObserver_next_event. destruct (next_event fuel (ao_trace self, w)) as [r s'] eqn:Hn.
  rewrite (eff_bind_eq _ _ _ _ _ (on_trace_eq _ _ _ _ _ Hn)). destruct r as [event|error].
  - apply next_event_effect in Hn as (_ & F' & He); [|done]. cbn [fst] in He.
    destruct (record_trace_event_in_step root limits (ao_protocol self) event _ _ Hr Hs Ht Hnz He)
      as (d & next & untracked & Hrec & Hr' & _ & _ & _ & Hd).
    rewrite (eff_bind_eq _ _ _ (Ok (d, next, untracked)) s'.2) by (unfold lift_result; by rewrite Hrec).
    case_bool_decide as Hdrain; [intros (a & w1 & _ & [= <- _])%eff_bind_Ok; done|].
    destruct Hd as [[[-> Hs'] ->]|[-> Hs']]; [|done]. rewrite bool_decide_eq_true_2 by done. cbn [negb].
    apply record_trace_event_total in Hrec as Htotal; [|done]. destruct (is_drained s'.1).
    + intros (t & w1 & _ & Hrest)%eff_bind_Ok. apply eff_bind_Ok in Hrest as (f & w2 & _ & [= <- _]).
      pose proof (reachable_bounds _ _ _ Hr') as Hb. pose proof (reachable_ok _ _ _ Hr') as []. rewrite Hb in ob_total. lia.
    + by intros [= <- _].
  - intros (a & w1 & _ & Hrest)%eff_bind_Ok. case_match; [done|]. apply eff_bind_Ok in Hrest as (b & w2 & _ & [= <- _]). done.
Qed.

(** A run retains at most one record more than its event bound, and none more than
    the bound when it completes by itself. *)
Lemma observation_loop_events steps wait root limits self retained w completed retained' w' :
  in_step root limits self -> (Z.of_nat (length (rt_events retained)) <= total_events (ao_protocol self))%Z ->
  observation_loop steps wait self retained w = (Ok (Some (completed, retained')), w') ->
  (Z.of_nat (length (rt_events retained')) <= event_count limits + 1)%Z
  /\ (cd_publication completed = PublishComplete -> (Z.of_nat (length (rt_events retained')) <= event_count limits)%Z).
Proof.
  revert self retained w. induction steps as [|steps IH]; intros self retained w Hin Hlen; cbn [observation_loop]; [done|].
  intros (step & w1 & Hstep & Hrest)%eff_bind_Ok. unfold as_execution in Hstep.
  destruct (ActiveObserver_next_event wait self w) as [r w0] eqn:Hn. injection Hstep as Hr <-. apply map_err_Ok in Hr as ->.
  pose proof (step_recorded _ _ _ _ _ _ _ Hin Hn) as Htotal. pose proof (next_event_step wait root limits self w Hin) as Hout.
  rewrite Hn in Hout. cbn in Hout. destruct Hin as [Hreach _ _ _ _].
  assert (total_events (ao_protocol self) <= event_count limits)%Z as Hmax.
  { rewrite <- (reachable_bounds _ _ _ Hreach). apply reachable_ok in Hreach as []. lia. }
  assert (forall e r2 w2 w3, retain_event retained e w2 = (Ok r2, w3) ->
    (Z.of_nat (length (rt_events r2)) <= total_events (ao_protocol self) + charge e)%Z) as Hret.
  { intros e r2 w2 w3. unfold retain_event, lift_result. intros [= Hr _]. apply map_err_Ok, retain_charge in Hr. lia. }
  destruct step as [next event|draining observation|comp event].
  - apply eff_bind_Ok in Hrest as (r2 & w2 & Hr2 & Hrest). destruct Hout as [Hin' _].
    apply (IH next r2 w2 Hin'); [|done]. rewrite Htotal. by eapply Hret.
  - apply eff_bind_Ok in Hrest as (r2 & w2 & Hr2 & Hrest). apply eff_bind_Ok in Hrest as (c & w3 & Hfin & [= -> -> _]).
    assert (Z.of_nat (length (rt_events retained')) <= total_events (ao_protocol self) + 1)%Z as Hl.
    { destruct observation as [event|error]; [|injection Hr2 as <- _; lia]. pose proof (Hret _ _ _ _ Hr2). destruct event; cbn in *; lia. }
    split; [lia|]. intros Hpub. exfalso. destruct Hout as (Hr & Hs & _). unfold as_execution in Hfin.
    destruct (DrainingObserver_finish wait draining w2) as [rf wf] eqn:Hf. injection Hfin as Hrf <-. apply map_err_Ok in Hrf as ->.
    apply (drained_incomplete wait root limits) in Hf as (_ & Hpub' & _); [|done..]. congruence.
  - apply eff_bind_Ok in Hrest as (r2 & w2 & Hr2 & [= <- <- _]). pose proof (Hret _ _ _ _ Hr2). lia.
Qed.
Theorem run_events_bounded steps wait root limits self w completed retained w' :
  in_step root limits self ->
  observation_loop steps wait self (mkRetained 0 [] []) w = (Ok (Some (completed, retained)), w') ->
  (Z.of_nat (length (rt_events retained)) <= event_count limits + 1)%Z
  /\ (cd_publication completed = PublishComplete -> (Z.of_nat (length (rt_events retained)) <= event_count limits)%Z).
Proof.
  intros Hin Hrun. eapply observation_loop_events; [exact Hin| |exact Hrun]. destruct Hin as [Hr _ _ _ _].
  apply reachable_ok in Hr as []. cbn. lia.
Qed.
End Run.
