(* ===== verification/TraceExample.v ===== *)
(** Runs of the tracer on a scripted kernel: witnesses for the theorems about the trace
    and its adapter, and a run that stops at its event limit. *)
From S2P Require Import Prelude Receipt RunResult Diagnostic DiagnosticReceipts Observer Plan Trace Candidate TraceActive Adapter Mapping TraceEvents Session.
From Stdlib Require Import Ascii ZArith Lia Sorted.
From stdpp Require Import prelude strings list numbers gmap.
Export stdpp.list_relations.list.

Notation bytes_of := String.list_ascii_of_string.

(** * A scripted kernel

    Wait results and system-call stops come from two lists; the memory is one page
    with a string at either end, a read of which is transferred as a whole or fails,
    and the files are a link [/work/in] to [/data/x]. *)
Record Script := mkScript { sc_waits : list TraceWaitObservation; sc_stops : list TraceSyscallStop }.
Definition script_memory (address : Z) : option byte :=
  if (4096 <=? address)%Z && (address <? 8192)%Z then
    Some (if (address <? 4098)%Z then nth (Z.to_nat (address - 4096)) (bytes_of "in") (mkb 0)
          else if (8188 <=? address)%Z then nth (Z.to_nat (address - 8188)) (bytes_of "end") (mkb 0)
          else mkb 0)
  else None.
Fixpoint read_from (address : Z) (n : nat) : option (list byte) :=
  match n with
  | O => Some []
  | S n => b ← script_memory address; cons b <$> read_from (address + 1) n
  end.
Definition script_lstat (path : Components) : option bool :=
  if bool_decide (path = [bytes_of "work"; bytes_of "in"]) then Some true
  else if bool_decide (path = [bytes_of "work"]) || bool_decide (path = [bytes_of "data"])
          || bool_decide (path = [bytes_of "data"; bytes_of "x"]) then Some false
  else None.
Definition script_kernel : TraceSys := {|
  World := Script;
  instant_limit := 1000000000000;
  now := fun w => (0%Z, w);
  trace_wait_event_nonblocking := fun _ w =>
    match sc_waits w with
    | [] => (Some None, w)
    | observation :: rest => (Some (Some observation), mkScript rest (sc_stops w))
    end;
  trace_event_process := fun p w => (Some (p + 1)%Z, w);
  trace_syscall_stop := fun _ w =>
    match sc_stops w with [] => (None, w) | stop :: rest => (Some stop, mkScript (sc_waits w) rest) end;
  trace_syscall := fun _ w => (Some (), w);
  trace_read_process_memory := fun _ address n w => (read_from address n, w);
  trace_open_process_handle := fun p w => (Some (p + 100)%Z, w);
  trace_kill_process_handle := fun _ w => (Some (), w);
  read_status := fun p w => (Some (tgid_prefix ++ u64_decimal p ++ [mkb 10]), w);
  trace_open_object := fun _ w => (Some 5%Z, w);
  trace_read_link := fun _ _ w => (Some (bytes_of "/data/x"), w);
  trace_object_metadata := fun _ w => (Some (mkTraceObjectIdentity 8 1 42 33188 7), w);
  canonicalize := fun path w =>
    (if ends_with (bytes_of "/root") path then Some [] else Some [bytes_of "work"], w);
  symlink_metadata := fun path w => (script_lstat path, w);
  read_link := fun _ w => (Some (bytes_of "/data/x"), w);
  sleep := fun w => w
|}.
Definition script_terminal : @TraceTerminal script_kernel :=
  {| TraceTerminalCapture := unit; finish_terminal := fun _ w => (Ok (), w) |}.
#[local] Existing Instances script_kernel script_terminal.

Definition root_process : Z := 7.
Definition run_limits : ObservationBounds := mkObservationBounds 1 10 65536 64 4 64 4 64.
Definition run_capture : TraceCaptureLimits := mkTraceCaptureLimits 64 64 4 64.
Definition run_trace : ActiveTrace := ActiveTrace_released root_process 1000 107 4 run_capture.
Definition run_setup : list operation :=
  [Op_attach_root; Op_boundary_ready; Op_enable DiagnosticTraceOptions_required; Op_release].
Definition run_start : ObserverProtocol :=
  mkObserverProtocol Prepared run_limits root_process {[root_process := 0%Z]} {[root_process]} 0 [] false.
Definition run_protocol : ObserverProtocol := Observer.with_state Released run_start.
Definition run_observer : ActiveObserver := mkActiveObserver run_trace run_protocol.

Lemma run_in_step : in_step root_process run_limits run_observer.
Proof.
  split; [|done|done| |done].
  - assert (run run_setup run_start = Ok run_protocol) as Hrun by reflexivity.
    eapply run_reachable; [|exact Hrun]. by apply reach_new.
  - intros p Hp. change (p ∈ dom ({[root_process := released_at_unknown_syscall_phase root_process]} : gmap Z TraceeState)) in Hp.
    rewrite dom_singleton_L in Hp. by apply elem_of_singleton in Hp as ->.
Qed.

(** Two [socket] calls of the root; the second finds the limit of one event reached,
    and the tree is killed. *)
Definition syscall_stop : TraceWaitObservation := mkTraceWaitObservation root_process (Stopped SIGNAL_SYSCALL 0).
Definition socket_entry : TraceSyscallStop :=
  Stop_Entry (mkTraceSyscallRegisters AUDIT_ARCH_X86_64 0 0 41 [2; 1; 0; 0; 0; 0]%Z).
Definition run_script : Script :=
  mkScript [syscall_stop; syscall_stop; syscall_stop; syscall_stop; mkTraceWaitObservation root_process (Signaled 9)]
    [socket_entry; Stop_Exit 3 false; socket_entry; Stop_Exit 4 false].
Definition run_world : World := run_script.
Definition run_result : option (CompletedObserver * Retained) :=
  match (observation_loop 5 5 run_observer (mkRetained 0 [] []) run_world).1 with Ok r => r | Err _ => None end.
Definition socket_event (sequence descriptor : Z) : DiagnosticEvent :=
  mkDiagnosticEvent sequence root_process Receipt.X86_64 Diagnostic.Socket (SocketCreate 2 0 1) (Returned descriptor)
    RunResult.Unresolved None None None.
Definition run_summary : option (ObserverDirective * list DiagnosticGap * Retained) :=
  match run_result with
  | Some (completed, retained) => Some (cd_publication completed, gaps (cd_protocol completed), retained)
  | None => None
  end.
Lemma run_summary_eq :
  run_summary = Some (PublishIncomplete, [EventLimit], mkRetained 2 [socket_event 0 3; socket_event 1 4] []).
Proof. vm_compute. reflexivity. Qed.

(** The parts of a receipt of the run with the given events. *)
Definition run_parts (events : list DiagnosticEvent) (gaps : list DiagnosticGap) : DiagnosticReceiptParts :=
  mkDiagnosticReceiptParts (dr_execution_id fixture_parts) (dr_seed_plan fixture_parts) (dr_target fixture_parts)
    (dr_runtime fixture_parts) (dr_launcher fixture_parts) (dr_observer fixture_parts) (dr_platform fixture_parts)
    (dr_arguments fixture_parts) (dr_environment_names fixture_parts) run_limits events RunResult.Completion_Incomplete gaps
    (dr_trusted_computing_base fixture_parts) (dr_assumptions fixture_parts).
Lemma too_many_events `{SerdeWriter} sha256 parts receipt :
  (event_count (dr_bounds parts) < Z.of_nat (length (dr_events parts)))%Z -> DiagnosticReceipt_construct sha256 parts <> Ok receipt.
Proof.
  intros Hlen. unfold DiagnosticReceipt_construct. intros Hc. do 5 (apply bind_Ok in Hc as (? & _ & Hc)).
  apply bind_Ok in Hc as (bounds & Hb & Hc). assert (bounds = dr_bounds parts) as ->.
  { revert Hb. clear. unfold ObservationBounds_validate. case_match; [done|]. by intros [= <-]. }
  apply bind_Ok in Hc as (? & _ & Hc). apply bind_Ok in Hc as (? & _ & Hc). apply bind_Ok in Hc as (u & He & _).
  unfold validate_events in He. rewrite (proj2 (Z.ltb_lt _ _) Hlen) in He. done.
Qed.

(** This run, of two system calls against a limit of one event, publishes nothing: the
    call that finds the limit reached is recorded as the gap and kept as a record as
    well, so the observer decides to publish an incomplete receipt, and no receipt can
    be constructed from the two records, whatever else it holds; with the first record
    alone the receipt is constructed.  ([run_events_bounded] is the general statement:
    a run keeps at most one record more than its limit.) *)
Lemma two_calls_at_limit_one :
  run_summary = Some (PublishIncomplete, [EventLimit], mkRetained 2 [socket_event 0 3; socket_event 1 4] [])
  /\ (forall (writer : SerdeWriter) sha256 parts receipt,
        dr_events parts = [socket_event 0 3; socket_event 1 4] -> dr_bounds parts = run_limits ->
        DiagnosticReceipt_construct sha256 parts <> Ok receipt)
  /\ exists receipt,
       @DiagnosticReceipt_construct compact_writer fixture_sha256 (run_parts [socket_event 0 3] [EventLimit]) = Ok receipt.
Proof.
  split; [exact run_summary_eq|]. split.
  - intros writer sha256 parts receipt He Hb. apply too_many_events. by rewrite He, Hb.
  - eexists. vm_compute. reflexivity.
Qed.

(** * The kernel keeps the hypotheses *)

#[local] Instance script_static : StaticFiles.
Proof. refine {| lstat := script_lstat |}. reflexivity. Defined.
#[local] Instance script_canonical : CanonicalPaths.
Proof.
  constructor. intros path w names. cbn. destruct (ends_with _ path); intros [= <-]; [constructor|].
  constructor; [|constructor]. split_and!; [done..|]. by apply (bool_decide_unpack _); vm_compute.
Defined.
Lemma read_from_exact address n l :
  read_from address n = Some l ->
  length l = n /\ forall i b, l !! i = Some b -> script_memory (address + Z.of_nat i) = Some b.
Proof.
  revert address l. induction n as [|n IH]; intros address l; cbn [read_from]; [by intros [= <-]|].
  intros (b & Hb & (k & Hk & ->)%fmap_Some)%bind_Some. apply IH in Hk as [Hlen Hk]. split; [cbn; by rewrite Hlen|].
  intros [|i] c; cbn.
  - intros [= <-]. by rewrite Z.add_0_r.
  - intros Hi%Hk. by replace (address + Z.of_nat (S i))%Z with (address + 1 + Z.of_nat i)%Z by lia.
Qed.
Lemma read_from_readable address n : readable script_memory address n -> is_Some (read_from address n).
Proof.
  revert address. induction n as [|n IH]; intros address Hr; cbn [read_from]; [by eexists|].
  pose proof (Hr 0 ltac:(lia)) as H0. rewrite Z.add_0_r in H0. destruct (script_memory address) as [b|]; [|done].
  destruct (IH (address + 1)%Z) as [l Hl]; [|cbn; rewrite Hl; by eexists].
  intros i Hi. replace (address + 1 + Z.of_nat i)%Z with (address + Z.of_nat (S i))%Z by lia. apply Hr. lia.
Qed.
#[local] Instance script_reads : BoundedReads.
Proof. constructor. intros process address n w l. cbn. intros Hl. by apply read_from_exact in Hl as [-> _]. Defined.
#[local] Instance script_tracee : TraceMemory.
Proof.
  refine {| memory := fun _ _ => script_memory |}.
  - intros process w address Hm. unfold script_memory in Hm. case_match eqn:Ha; [|done]. lia.
  - intros process address n w Hn. cbn. split; [done|]. split.
    + intros [l Hl]%read_from_readable. exists l. split; [done|]. apply read_from_exact in Hl as [Hl _]. by destruct l; [cbn in Hl; lia|].
    + intros l Hl. apply read_from_exact in Hl as [Hl Hh]. split; [by rewrite Hl|exact Hh].
Defined.

(** * Witnesses *)

Definition run_draining : DrainingObserver :=
  mkDrainingObserver run_trace 2000 (Observer.with_gap ObserverFailed (Observer.with_state Draining run_protocol)) ∅ Eligible.
Definition drain_script : World := mkScript [mkTraceWaitObservation root_process (Signaled 9)] [].
Definition candidate_invocation : TraceSyscallInvocation :=
  mkTraceSyscallInvocation (mkTraceSyscallRegisters AUDIT_ARCH_X86_64 0 0 2 [4096; 0; 0; 0; 0; 0]%Z) Trace.Open
    (Captured_Path None None (Some 0%Z) None (Some 0%Z) (bytes_of "in") None).

Lemma adapter_in_step_witness :
  in_step root_process run_limits run_observer
  /\ match (ActiveObserver_next_event 5 run_observer run_world).1 with
     | Ok step => step_outcome root_process run_limits step
     | Err e => exists error, e = Adapter_Observation error
     end.
Proof. split; [exact run_in_step|]. exact (adapter_in_step 5 root_process run_limits run_observer run_world run_in_step). Defined.
Lemma run_events_bounded_witness :
  exists completed retained w', observation_loop 5 5 run_observer (mkRetained 0 [] []) run_world = (Ok (Some (completed, retained)), w')
    /\ (Z.of_nat (length (rt_events retained)) <= 2)%Z.
Proof.
  pose proof run_summary_eq as Hsum. unfold run_summary, run_result in Hsum.
  destruct (observation_loop 5 5 run_observer (mkRetained 0 [] []) run_world) as [[[[completed retained]|]|e] w'] eqn:Hrun;
    [|discriminate Hsum..].
  exists completed, retained, w'. split; [done|].
  exact (proj1 (run_events_bounded 5 5 root_process run_limits run_observer run_world completed retained w' run_in_step Hrun)).
Defined.
Lemma drain_succeeds : is_ok (DrainingObserver_finish 5 run_draining drain_script).1 = true.
Proof. vm_compute. reflexivity. Qed.
Lemma drained_observation_incomplete_witness :
  exists completed w', DrainingObserver_finish 5 run_draining drain_script = (Ok completed, w')
    /\ cd_publication completed = PublishIncomplete.
Proof.
  pose proof drain_succeeds as Hok. destruct (DrainingObserver_finish 5 run_draining drain_script) as [[completed|e] w'] eqn:Hf;
    [|discriminate Hok]. exists completed, w'. split; [done|].
  refine (proj1 (proj2 (drained_observation_incomplete 5 root_process run_limits run_draining drain_script completed w' _ _ Hf))).
  - apply (reach_step _ _ run_protocol Op_failure TerminateAndDrain); [exact (is_reachable _ _ _ run_in_step)|reflexivity].
  - reflexivity.
Defined.
Lemma run_tree_fits : tree_fits run_trace.
Proof.
  split; [by vm_compute|]. intros p state iv. cbn. intros Hp Hiv.
  assert (({[root_process := released_at_unknown_syscall_phase root_process]} : gmap Z TraceeState) !! p = Some state) as Hl by exact Hp.
  apply lookup_singleton_Some in Hl as [_ <-]. discriminate Hiv.
Qed.
Lemma run_first_event : is_ok (next_event 5 (run_trace, run_world)).1 = true.
Proof. vm_compute. reflexivity. Qed.
Lemma traced_event_mapped_witness :
  exists event s', next_event 5 (run_trace, run_world) = (Ok event, s')
    /\ forall e, map_event 0 event = Err e -> expected_refusal e.
Proof.
  pose proof run_first_event as Hok. destruct (next_event 5 (run_trace, run_world)) as [[event|e] s'] eqn:Hn; [|discriminate Hok].
  exists event, s'. split; [done|]. exact (proj2 (traced_event_mapped 5 (run_trace, run_world) event s' 0 run_tree_fits Hn)).
Defined.
Lemma walk_terminates_witness :
  walk_ok [] 64 4 (walk_start [] [bytes_of "work"] (bytes_of "in"))
  /\ walk_loop (throw Candidate.Unresolved) 1000 [] 64 4 (walk_start [] [bytes_of "work"] (bytes_of "in")) drain_script
     = walk_loop (throw Limit_SymlinkLimit) (S (walk_measure 64 4 (walk_start [] [bytes_of "work"] (bytes_of "in")))) [] 64 4
         (walk_start [] [bytes_of "work"] (bytes_of "in")) drain_script.
Proof.
  assert (walk_ok [] 64 4 (walk_start [] [bytes_of "work"] (bytes_of "in"))) as Hok.
  { apply walk_start_ok; [apply prefix_nil|lia..]. }
  split; [exact Hok|]. apply (walk_terminates _ _ 1000 [] 64 4 _ drain_script Hok). apply Nat.ltb_lt. vm_compute. reflexivity.
Defined.
Lemma walk_example :
  (walk_candidate_path [] [bytes_of "work"] (bytes_of "in") 64 4 drain_script).1 = Ok ([bytes_of "data"; bytes_of "x"], 1%Z).
Proof. vm_compute. reflexivity. Qed.
Lemma walk_canonical_witness :
  exists w', walk_candidate_path [] [bytes_of "work"] (bytes_of "in") 64 4 drain_script = (Ok ([bytes_of "data"; bytes_of "x"], 1%Z), w')
    /\ canonical_below [] [bytes_of "data"; bytes_of "x"].
Proof.
  pose proof walk_example as He. destruct (walk_candidate_path [] [bytes_of "work"] (bytes_of "in") 64 4 drain_script) as [r w'] eqn:Hw.
  cbn in He. subst r. exists w'. split; [done|].
  refine (proj1 (walk_canonical [] [bytes_of "work"] (bytes_of "in") 64 4 drain_script _ _ w' _ _ _ Hw)); [|lia..].
  apply (canonical_down [] []); [apply canonical_root| |reflexivity]. split_and!; [done..|].
  by apply (bool_decide_unpack _); vm_compute.
Defined.
Lemma candidate_example :
  (observe_failed_candidate root_process candidate_invocation true 1 run_capture drain_script).1
  = Some (Stable (mkTraceCandidateObject (bytes_of "/data/x") 1 (mkTraceObjectIdentity 8 1 42 33188 7) (mkTraceObjectIdentity 8 1 42 33188 7))).
Proof. vm_compute. reflexivity. Qed.
Lemma stable_candidate_sound_witness :
  exists candidate w', observe_failed_candidate root_process candidate_invocation true 1 run_capture drain_script
    = (Some (Stable candidate), w') /\ co_object_before candidate = co_object_after candidate.
Proof.
  pose proof candidate_example as He.
  destruct (observe_failed_candidate root_process candidate_invocation true 1 run_capture drain_script) as [r w'] eqn:Hw.
  cbn in He. subst r. eexists _, w'. split; [done|].
  refine (proj1 (proj2 (proj2 (stable_candidate_sound root_process candidate_invocation true 1 run_capture drain_script _ w' _ _ Hw)))).
  all: vm_compute; discriminate.
Defined.
Lemma read_tracee_string_correct_witness :
  (read_tracee_string root_process 4096 run_capture drain_script).1 = Ok (bytes_of "in")
  /\ holds_string root_process drain_script 4096 (bytes_of "in").
Proof.
  destruct (read_tracee_string_correct root_process 4096 run_capture drain_script (bytes_of "in")) as [Hsound Hcomplete].
  assert ((read_tracee_string root_process 4096 run_capture drain_script).1 = Ok (bytes_of "in")) as Hr.
  { apply Hcomplete; [|vm_compute; discriminate|reflexivity|].
    - split; [|repeat (constructor; [by vm_compute|]); constructor].
      intros [|[|[|i]]] b Hb; vm_compute in Hb; [by injection Hb as <-..|by destruct i].
    - intros i Hi. cbn [memory script_tracee]. unfold script_memory.
      assert (i < 64) as Hi' by exact Hi. clear Hi. rewrite (proj2 (Z.leb_le _ _)), (proj2 (Z.ltb_lt _ _)) by lia. discriminate. }
  split; [exact Hr|exact (proj1 (Hsound Hr))].
Defined.
(** A string that ends with the page is held by the memory within the limits, but is
    not captured: the read of a chunk fails as a whole. *)
Lemma string_at_page_end :
  holds_string root_process drain_script 8188 (bytes_of "end")
  /\ (read_tracee_string root_process 8188 run_capture drain_script).1 = Err TraceeMemoryReadFailed.
Proof.
  split; [|vm_compute; reflexivity]. split; [|repeat (constructor; [by vm_compute|]); constructor].
  intros [|[|[|[|i]]]] b Hb; vm_compute in Hb; [by injection Hb as <-..|by destruct i].
Qed.
