(* ===== verification/Draft.v ===== *)
(** The plan draft: [proofbound-runtime-diagnose/src/draft.rs] and [producer.rs].
    A draft is derived from a diagnostic receipt and from what a caller selects;
    it proposes candidates for review and lists what a person must still decide.
    The theorems are in [DraftPlans]. *)
From S2P Require Import Prelude Identity JsonCbor Diagnostic.
From S2P Require RunResult.
From Stdlib Require Import Ascii ZArith Lia Sorted.
From stdpp Require Import prelude strings list numbers gmap.
Export stdpp.list_relations.list.
Import RunResult(DraftProvenance(..)).

#[global] Instance DraftProvenance_eq_dec : EqDecision DraftProvenance.
Proof. solve_decision. Defined.
Definition DraftProvenance_discriminant (p : DraftProvenance) : Z :=
  match p with
  | HumanAuthored => 0 | StaticExecutableClosure => 1 | DiagnosticRuntimeObservation => 2
  | CapsecSourceObservation => 3 | PlatformRequiredClosure => 4
  end.
#[global] Instance DraftProvenance_ord : RustOrd DraftProvenance := ord_via DraftProvenance_discriminant.
#[global] Instance DraftProvenance_lawful : LawfulOrd DraftProvenance.
Proof.
  assert (Inj (=) (=) DraftProvenance_discriminant) by (intros [] []; done).
  apply (ord_via_lawful DraftProvenance_discriminant).
Qed.
Definition provenance_values (provenance : list DraftProvenance) : Json :=
  json_strings (map RunResult.DraftProvenance_as_str provenance).

Definition PLAN_DRAFT_SCHEMA : string := "proofbound-runtime-plan-draft/1".

Inductive DraftError :=
| InputInvalid | CapsecInvalid | CapsecProvenanceInvalid | DifferenceInvalid | CandidateInvalid | ClosureInvalid
| CollectionBoundExceeded | PathScopeInvalid | OutputBoundExceeded | CanonicalEncodingFailed.
#[global] Instance DraftError_eq_dec : EqDecision DraftError.
Proof. solve_decision. Defined.
Definition DraftError_code (e : DraftError) : string :=
  match e with
  | InputInvalid => "diagnostic.draft.input-invalid"
  | CapsecInvalid => "diagnostic.draft.capsec-invalid"
  | CapsecProvenanceInvalid => "diagnostic.draft.capsec-provenance-invalid"
  | DifferenceInvalid => "diagnostic.draft.difference-invalid"
  | CandidateInvalid => "diagnostic.draft.candidate-invalid"
  | ClosureInvalid => "diagnostic.draft.closure-invalid"
  | CollectionBoundExceeded => "diagnostic.draft.collection-bound-exceeded"
  | PathScopeInvalid => "diagnostic.draft.path-scope-invalid"
  | OutputBoundExceeded => "diagnostic.draft.output-bound-exceeded"
  | CanonicalEncodingFailed => "diagnostic.draft.canonical-json-failed"
  end.
Definition map_write_error (error : CanonicalWriteError) : DraftError :=
  match error with BoundExceeded => OutputBoundExceeded | EncodingFailed => CanonicalEncodingFailed end.

(** * Paths *)

Definition validate_absolute_path (path : string) : result DraftError () :=
  if negb (is_normalized_absolute_path path) || (1048576 <? str_size path)%Z then Err InputInvalid else Ok ().
Definition path_is_within (path root : string) : bool :=
  String.eqb path root || String.eqb root "/"
  || match strip_prefix_bytes (bytes_of root) (bytes_of path) with
     | Some suffix => bool_decide (head suffix = Some "/"%char)
     | None => false
     end.
Definition system_roots : list string :=
  ["/bin"; "/boot"; "/dev"; "/etc"; "/home"; "/lib"; "/lib64"; "/media"; "/mnt"; "/opt"; "/proc"; "/root"; "/run";
   "/sbin"; "/srv"; "/sys"; "/tmp"; "/usr"; "/var"].
Definition is_system_path (path : string) : bool := existsb (path_is_within path) system_roots.
Definition canonical_path_set (paths : list string) (allow_root : bool) : result DraftError (list string) :=
  let paths := set_of paths in
  if (256 <? Z.of_nat (length paths))%Z
     || existsb (fun path => negb (is_ok (validate_absolute_path path)) || (negb allow_root && String.eqb path "/")) paths
  then Err PathScopeInvalid else Ok paths.

Record DraftPathScope := mkDraftPathScope { candidate_roots : list string; excluded_roots : list string }.
Definition DraftPathScope_new (candidate_roots : list string) (home_directory : string) (temporary_roots : list string) :
    result DraftError DraftPathScope :=
  candidate_roots ← canonical_path_set candidate_roots false;
  if bool_decide (candidate_roots = []) then Err PathScopeInvalid
  else
    _ ← validate_absolute_path home_directory;
    if String.eqb home_directory "/" then Err PathScopeInvalid
    else
      excluded_roots ← canonical_path_set temporary_roots true;
      let excluded_roots := set_insert home_directory excluded_roots in
      if existsb (fun root => is_system_path root || existsb (path_is_within root) excluded_roots) candidate_roots
      then Err PathScopeInvalid
      else Ok (mkDraftPathScope candidate_roots excluded_roots).
Definition DraftPathScope_allows (self : DraftPathScope) (path : string) : bool :=
  is_normalized_absolute_path path && negb (is_system_path path)
  && negb (existsb (path_is_within path) (excluded_roots self))
  && existsb (path_is_within path) (candidate_roots self).
(** [path_scope.as_ref().is_none_or(|scope| !scope.allows(path))], negated *)
Definition scope_allows (scope : option DraftPathScope) (path : string) : bool :=
  match scope with Some scope => DraftPathScope_allows scope path | None => false end.

(** * Identities *)

Record ContentIdentity := mkContentIdentity { ci_digest : Sha256Digest; ci_size_bytes : Z }.
#[global] Instance ContentIdentity_eq_dec : EqDecision ContentIdentity.
Proof. solve_decision. Defined.
Definition ContentIdentity_key (c : ContentIdentity) : list byte * Z := (digest_bytes (ci_digest c), ci_size_bytes c).
#[global] Instance ContentIdentity_ord : RustOrd ContentIdentity := ord_via ContentIdentity_key.
#[global] Instance ContentIdentity_lawful : LawfulOrd ContentIdentity.
Proof.
  assert (Inj (=) (=) ContentIdentity_key) by (intros [[a] m] [[b] n] [= -> ->]; done).
  apply (ord_via_lawful ContentIdentity_key).
Qed.
Definition ContentIdentity_to_value (c : ContentIdentity) : Json :=
  json_object [("sha256", Json_String (digest_text (ci_digest c))); ("size_bytes", Json_U64 (ci_size_bytes c))].

Record DraftInput := mkDraftInput { di_path : string; di_identity : ContentIdentity; di_mode : Z }.
#[global] Instance DraftInput_eq_dec : EqDecision DraftInput.
Proof. solve_decision. Defined.
Definition DraftInput_key (i : DraftInput) : string * ContentIdentity * Z := (di_path i, di_identity i, di_mode i).
#[global] Instance DraftInput_ord : RustOrd DraftInput := ord_via DraftInput_key.
#[global] Instance DraftInput_lawful : LawfulOrd DraftInput.
Proof.
  assert (Inj (=) (=) DraftInput_key) by (intros [] [] [= -> -> ->]; done). apply (ord_via_lawful DraftInput_key).
Qed.
Definition DraftInput_new (path : string) (identity : ContentIdentity) (mode : Z) : result DraftError DraftInput :=
  _ ← map_err (fun _ => InputInvalid) (validate_absolute_path path);
  if (4095 <? mode)%Z then Err InputInvalid else Ok (mkDraftInput path identity mode).
Definition DraftInput_to_value (i : DraftInput) : Json :=
  json_object
    [("mode", Json_String (octal 4 (di_mode i))); ("path", Json_String (di_path i)); ("role", Json_String "project-input");
     ("sha256", Json_String (digest_text (ci_digest (di_identity i))));
     ("size_bytes", Json_U64 (ci_size_bytes (di_identity i)))].

Inductive IdentifiedClosureRole := Executable | Interpreter | RuntimeLibrary.
#[global] Instance IdentifiedClosureRole_eq_dec : EqDecision IdentifiedClosureRole.
Proof. solve_decision. Defined.
Definition IdentifiedClosureRole_discriminant (r : IdentifiedClosureRole) : Z :=
  match r with Executable => 0 | Interpreter => 1 | RuntimeLibrary => 2 end.
Definition IdentifiedClosureRole_as_str (r : IdentifiedClosureRole) : string :=
  match r with Executable => "executable" | Interpreter => "interpreter" | RuntimeLibrary => "runtime-library" end.
Record IdentifiedClosureEntry := mkIdentifiedClosureEntry {
  ce_role : IdentifiedClosureRole;
  ce_path : string;
  ce_identity : ContentIdentity;
  ce_mode : Z;
  ce_provenance : DraftProvenance
}.
#[global] Instance IdentifiedClosureEntry_eq_dec : EqDecision IdentifiedClosureEntry.
Proof. solve_decision. Defined.
Definition IdentifiedClosureEntry_key (e : IdentifiedClosureEntry) : Z * string * ContentIdentity * Z * DraftProvenance :=
  (IdentifiedClosureRole_discriminant (ce_role e), ce_path e, ce_identity e, ce_mode e, ce_provenance e).
#[global] Instance IdentifiedClosureEntry_ord : RustOrd IdentifiedClosureEntry := ord_via IdentifiedClosureEntry_key.
#[global] Instance IdentifiedClosureEntry_lawful : LawfulOrd IdentifiedClosureEntry.
Proof.
  assert (Inj (=) (=) IdentifiedClosureEntry_key) by (by intros [[] ? ? ? ?] [[] ? ? ? ?] [= -> -> -> ->]).
  apply (ord_via_lawful IdentifiedClosureEntry_key).
Qed.
Definition closure_provenance_fits (role : IdentifiedClosureRole) (provenance : DraftProvenance) : bool :=
  match role, provenance with
  | Executable, StaticExecutableClosure => true
  | Interpreter, PlatformRequiredClosure | RuntimeLibrary, PlatformRequiredClosure => true
  | _, _ => false
  end.
Definition IdentifiedClosureEntry_new (role : IdentifiedClosureRole) (path : string) (identity : ContentIdentity)
    (mode : Z) (provenance : DraftProvenance) : result DraftError IdentifiedClosureEntry :=
  _ ← map_err (fun _ => ClosureInvalid) (validate_absolute_path path);
  if (4095 <? mode)%Z || negb (closure_provenance_fits role provenance) then Err ClosureInvalid
  else Ok (mkIdentifiedClosureEntry role path identity mode provenance).
Definition IdentifiedClosureEntry_to_value (e : IdentifiedClosureEntry) : Json :=
  json_object
    [("mode", Json_String (octal 4 (ce_mode e))); ("path", Json_String (ce_path e));
     ("provenance", Json_String (RunResult.DraftProvenance_as_str (ce_provenance e)));
     ("role", Json_String (IdentifiedClosureRole_as_str (ce_role e)));
     ("sha256", Json_String (digest_text (ci_digest (ce_identity e))));
     ("size_bytes", Json_U64 (ci_size_bytes (ce_identity e)))].

(** * Capsec reports *)

Inductive CapsecUsability := AnalyzerUnknown | Incomplete | ReportInvalid | SchemaUnknown | SourceStale | Usable.
#[global] Instance CapsecUsability_eq_dec : EqDecision CapsecUsability.
Proof. solve_decision. Defined.
Definition CapsecUsability_as_str (u : CapsecUsability) : string :=
  match u with
  | AnalyzerUnknown => "analyzer-unknown" | Incomplete => "incomplete" | ReportInvalid => "report-invalid"
  | SchemaUnknown => "schema-unknown" | SourceStale => "source-stale" | Usable => "usable"
  end.
(** [str::rsplit_once] *)
Fixpoint rsplit_once (sep : byte) (l : list byte) : option (list byte * list byte) :=
  match l with
  | [] => None
  | b :: l =>
    match rsplit_once sep l with
    | Some (before, after) => Some (b :: before, after)
    | None => if bool_decide (b = sep) then Some ([], l) else None
    end
  end.
Definition schema_name_byte (first : bool) (b : byte) : bool :=
  is_lower b || is_digit b
  || (negb first && (bool_decide (b = "."%char) || bool_decide (b = "_"%char) || bool_decide (b = "-"%char))).
Definition valid_schema_identity (value : string) : bool :=
  match rsplit_once "/"%char (bytes_of value) with
  | None => false
  | Some (name, version) =>
    match name, version with
    | first :: rest, digit :: _ =>
      (str_size value <=? 256)%Z && schema_name_byte true first && forallb (schema_name_byte false) rest
      && negb (bool_decide (digit = "0"%char)) && forallb is_digit version
    | _, _ => false
    end
  end.
Record CapsecIntegrationProfile := mkCapsecIntegrationProfile {
  cp_schema_identity : string;
  cp_source : ContentIdentity;
  cp_analyzer : ContentIdentity;
  cp_report : ContentIdentity
}.
Definition CapsecIntegrationProfile_new (schema_identity : string) (source analyzer report : ContentIdentity) :
    result DraftError CapsecIntegrationProfile :=
  if negb (valid_schema_identity schema_identity) then Err CapsecInvalid
  else Ok (mkCapsecIntegrationProfile schema_identity source analyzer report).
Record CapsecReportObservation := mkCapsecReportObservation {
  co_schema_identity : string;
  co_source : ContentIdentity;
  co_analyzer : ContentIdentity;
  co_report : ContentIdentity;
  co_structurally_valid : bool;
  co_complete : bool
}.
Definition CapsecReportObservation_new (schema_identity : string) (source analyzer report : ContentIdentity)
    (structurally_valid complete : bool) : result DraftError CapsecReportObservation :=
  if negb (valid_schema_identity schema_identity) then Err CapsecInvalid
  else Ok (mkCapsecReportObservation schema_identity source analyzer report structurally_valid complete).
Record CapsecInput := mkCapsecInput {
  cs_schema_identity : string;
  cs_source : ContentIdentity;
  cs_analyzer : ContentIdentity;
  cs_report : ContentIdentity;
  cs_usability : CapsecUsability
}.
Definition CapsecInput_evaluate (profile : CapsecIntegrationProfile) (observation : CapsecReportObservation) : CapsecInput :=
  let usability :=
    if negb (String.eqb (co_schema_identity observation) (cp_schema_identity profile)) then SchemaUnknown
    else if negb (bool_decide (co_source observation = cp_source profile)) then SourceStale
    else if negb (bool_decide (co_analyzer observation = cp_analyzer profile)) then AnalyzerUnknown
    else if negb (bool_decide (co_report observation = cp_report profile)) || negb (co_structurally_valid observation)
    then ReportInvalid
    else if negb (co_complete observation) then Incomplete
    else Usable in
  mkCapsecInput (co_schema_identity observation) (co_source observation) (co_analyzer observation)
    (co_report observation) usability.
Definition CapsecInput_to_value (c : CapsecInput) : Json :=
  json_object
    [("analyzer", ContentIdentity_to_value (cs_analyzer c)); ("report", ContentIdentity_to_value (cs_report c));
     ("schema_identity", Json_String (cs_schema_identity c)); ("source", ContentIdentity_to_value (cs_source c));
     ("usability", Json_String (CapsecUsability_as_str (cs_usability c)))].

(** * Differences and candidates *)

Inductive DifferenceClass :=
| RequirementWithoutRuntimeAuthority | RuntimeAuthorityWithoutRequirementOrObservation
| RuntimeObservationWithoutRequirement.
#[global] Instance DifferenceClass_eq_dec : EqDecision DifferenceClass.
Proof. solve_decision. Defined.
Definition DifferenceClass_discriminant (c : DifferenceClass) : Z :=
  match c with
  | RequirementWithoutRuntimeAuthority => 0
  | RuntimeAuthorityWithoutRequirementOrObservation => 1
  | RuntimeObservationWithoutRequirement => 2
  end.
Definition DifferenceClass_as_str (c : DifferenceClass) : string :=
  match c with
  | RequirementWithoutRuntimeAuthority => "requirement-without-runtime-authority"
  | RuntimeAuthorityWithoutRequirementOrObservation => "runtime-authority-without-requirement-or-observation"
  | RuntimeObservationWithoutRequirement => "runtime-observation-without-requirement"
  end.
Record DraftDifference := mkDraftDifference {
  df_class : DifferenceClass;
  df_subject : string;
  df_detail : string;
  df_provenance : list DraftProvenance
}.
#[global] Instance DraftDifference_eq_dec : EqDecision DraftDifference.
Proof. solve_decision. Defined.
Definition DraftDifference_key (d : DraftDifference) : Z * string * string * list DraftProvenance :=
  (DifferenceClass_discriminant (df_class d), df_subject d, df_detail d, df_provenance d).
#[global] Instance DraftDifference_ord : RustOrd DraftDifference := ord_via DraftDifference_key.
#[global] Instance DraftDifference_lawful : LawfulOrd DraftDifference.
Proof.
  assert (Inj (=) (=) DraftDifference_key) by (by intros [[] ? ? ?] [[] ? ? ?] [= -> -> ->]).
  apply (ord_via_lawful DraftDifference_key).
Qed.
Definition DraftDifference_new (class : DifferenceClass) (subject detail : string) (provenance : list DraftProvenance) :
    result DraftError DraftDifference :=
  let provenance := set_of provenance in
  if is_empty_string subject || is_empty_string detail || (1048576 <? str_size subject)%Z
     || (1048576 <? str_size detail)%Z || bool_decide (provenance = []) || (5 <? Z.of_nat (length provenance))%Z
  then Err DifferenceInvalid else Ok (mkDraftDifference class subject detail provenance).
Definition DraftDifference_to_value (d : DraftDifference) : Json :=
  json_object
    [("class", Json_String (DifferenceClass_as_str (df_class d))); ("detail", Json_String (df_detail d));
     ("provenance", provenance_values (df_provenance d)); ("subject", Json_String (df_subject d))].

Inductive CandidateKind := Execute | Read.
#[global] Instance CandidateKind_eq_dec : EqDecision CandidateKind.
Proof. solve_decision. Defined.
Definition CandidateKind_discriminant (k : CandidateKind) : Z := match k with Execute => 0 | Read => 1 end.
#[global] Instance CandidateKind_ord : RustOrd CandidateKind := ord_via CandidateKind_discriminant.
#[global] Instance CandidateKind_lawful : LawfulOrd CandidateKind.
Proof.
  assert (Inj (=) (=) CandidateKind_discriminant) by (intros [] []; done).
  apply (ord_via_lawful CandidateKind_discriminant).
Qed.
Definition CandidateKind_as_str (k : CandidateKind) : string := match k with Execute => "execute" | Read => "read" end.
Record DraftCandidate := mkDraftCandidate {
  dc_kind : CandidateKind;
  dc_path : string;
  dc_provenance : list DraftProvenance
}.
#[global] Instance DraftCandidate_eq_dec : EqDecision DraftCandidate.
Proof. solve_decision. Defined.
Definition DraftCandidate_key (c : DraftCandidate) : CandidateKind * string * list DraftProvenance :=
  (dc_kind c, dc_path c, dc_provenance c).
#[global] Instance DraftCandidate_ord : RustOrd DraftCandidate := ord_via DraftCandidate_key.
#[global] Instance DraftCandidate_lawful : LawfulOrd DraftCandidate.
Proof.
  assert (Inj (=) (=) DraftCandidate_key) by (intros [] [] [= -> -> ->]; done).
  apply (ord_via_lawful DraftCandidate_key).
Qed.
Definition DraftCandidate_new (kind : CandidateKind) (path : string) (provenance : list DraftProvenance) :
    result DraftError DraftCandidate :=
  let provenance := set_of provenance in
  _ ← validate_absolute_path path;
  if bool_decide (provenance = []) || (5 <? Z.of_nat (length provenance))%Z then Err CandidateInvalid
  else Ok (mkDraftCandidate kind path provenance).
Definition identified_closure_provenance (provenance : DraftProvenance) : bool :=
  match provenance with PlatformRequiredClosure | StaticExecutableClosure => true | _ => false end.
Definition DraftCandidate_identified_closure (kind : CandidateKind) (path : string) (provenance : DraftProvenance) :
    result DraftError DraftCandidate :=
  if negb (identified_closure_provenance provenance) then Err CandidateInvalid
  else DraftCandidate_new kind path [provenance].
Definition DraftCandidate_to_value (c : DraftCandidate) : Json :=
  json_object
    [("kind", Json_String (CandidateKind_as_str (dc_kind c))); ("path", Json_String (dc_path c));
     ("provenance", provenance_values (dc_provenance c))].

Definition candidate_provenance_is_bound (candidate : DraftCandidate) (closure : list IdentifiedClosureEntry) : bool :=
  forallb (fun provenance =>
    match provenance with
    | StaticExecutableClosure =>
      existsb (fun entry =>
        String.eqb (ce_path entry) (dc_path candidate) && bool_decide (ce_role entry = Executable)
        && bool_decide (ce_provenance entry = provenance) && bool_decide (dc_kind candidate = Execute)) closure
    | PlatformRequiredClosure =>
      existsb (fun entry =>
        String.eqb (ce_path entry) (dc_path candidate) && bool_decide (ce_provenance entry = provenance)
        && match ce_role entry, dc_kind candidate with
           | Interpreter, Execute | RuntimeLibrary, Read => true
           | _, _ => false
           end) closure
    | CapsecSourceObservation => true
    | DiagnosticRuntimeObservation | HumanAuthored => false
    end) (dc_provenance candidate).

(** [BTreeMap<(CandidateKind, String), DraftCandidate>], in the order of its keys. *)
Abbreviation CandidateKey := (CandidateKind * string)%type (only parsing).
Abbreviation Candidates := (list (CandidateKey * DraftCandidate)) (only parsing).
Definition extend_provenance (existing : DraftCandidate) (provenance : list DraftProvenance) : DraftCandidate :=
  mkDraftCandidate (dc_kind existing) (dc_path existing)
    (fold_left (fun s p => set_insert p s) provenance (dc_provenance existing)).
(** The entry of the key is extended in place, or a new entry takes its place in the order. *)
Fixpoint merge_at (key : CandidateKey) (candidate : DraftCandidate) (candidates : Candidates) : Candidates :=
  match candidates with
  | [] => [(key, candidate)]
  | entry :: rest =>
    match rcmp key entry.1 with
    | Lt => (key, candidate) :: candidates
    | Eq => (entry.1, extend_provenance entry.2 (dc_provenance candidate)) :: rest
    | Gt => entry :: merge_at key candidate rest
    end
  end.
Definition merge_candidate (candidates : Candidates) (candidate : DraftCandidate) : Candidates :=
  merge_at (dc_kind candidate, dc_path candidate) candidate candidates.

(** * Open items *)

Inductive OpenItemCode :=
| CapsecAnalyzerUnknown | CapsecIncomplete | CapsecMissing | CapsecReportInvalid | CapsecSchemaUnknown
| CapsecSourceStale | ChooseEnvironment | ChooseLimits | ChooseNetworkMode | ChooseWriteRoots | Open_DiagnosticGap
| NetworkAttempt | ObservationUnresolved.
#[global] Instance OpenItemCode_eq_dec : EqDecision OpenItemCode.
Proof. solve_decision. Defined.
Definition OpenItemCode_discriminant (c : OpenItemCode) : Z :=
  match c with
  | CapsecAnalyzerUnknown => 0 | CapsecIncomplete => 1 | CapsecMissing => 2 | CapsecReportInvalid => 3
  | CapsecSchemaUnknown => 4 | CapsecSourceStale => 5 | ChooseEnvironment => 6 | ChooseLimits => 7
  | ChooseNetworkMode => 8 | ChooseWriteRoots => 9 | Open_DiagnosticGap => 10 | NetworkAttempt => 11
  | ObservationUnresolved => 12
  end.
Definition OpenItemCode_as_str (c : OpenItemCode) : string :=
  match c with
  | CapsecAnalyzerUnknown => "capsec-analyzer-unknown"
  | CapsecIncomplete => "capsec-incomplete"
  | CapsecMissing => "capsec-missing"
  | CapsecReportInvalid => "capsec-report-invalid"
  | CapsecSchemaUnknown => "capsec-schema-unknown"
  | CapsecSourceStale => "capsec-source-stale"
  | ChooseEnvironment => "choose-environment"
  | ChooseLimits => "choose-limits"
  | ChooseNetworkMode => "choose-network-mode"
  | ChooseWriteRoots => "choose-write-roots"
  | Open_DiagnosticGap => "diagnostic-gap"
  | NetworkAttempt => "network-attempt"
  | ObservationUnresolved => "observation-unresolved"
  end.
Record OpenItem := mkOpenItem { oi_code : OpenItemCode; oi_detail : string; oi_provenance : DraftProvenance }.
#[global] Instance OpenItem_eq_dec : EqDecision OpenItem.
Proof. solve_decision. Defined.
Definition OpenItem_key (i : OpenItem) : Z * string * DraftProvenance :=
  (OpenItemCode_discriminant (oi_code i), oi_detail i, oi_provenance i).
#[global] Instance OpenItem_ord : RustOrd OpenItem := ord_via OpenItem_key.
#[global] Instance OpenItem_lawful : LawfulOrd OpenItem.
Proof.
  assert (Inj (=) (=) OpenItem_key) by (by intros [[] ? ?] [[] ? ?] [= -> ->]). apply (ord_via_lawful OpenItem_key).
Qed.
Definition OpenItem_to_value (i : OpenItem) : Json :=
  json_object
    [("code", Json_String (OpenItemCode_as_str (oi_code i))); ("detail", Json_String (oi_detail i));
     ("provenance", Json_String (RunResult.DraftProvenance_as_str (oi_provenance i)))].
Definition mandatory_open_items : list OpenItem :=
  set_of
    [mkOpenItem ChooseEnvironment "Select registered environment names." HumanAuthored;
     mkOpenItem ChooseLimits "Select every resource limit." HumanAuthored;
     mkOpenItem ChooseNetworkMode "Select the network mode." HumanAuthored;
     mkOpenItem ChooseWriteRoots "Select write roots." HumanAuthored].
Definition capsec_open_item (capsec : option CapsecInput) : option OpenItem :=
  match cs_usability <$> capsec with
  | None => Some (mkOpenItem CapsecMissing "No Capsec report was selected." HumanAuthored)
  | Some AnalyzerUnknown =>
    Some (mkOpenItem CapsecAnalyzerUnknown "The Capsec analyzer identity is not accepted." CapsecSourceObservation)
  | Some Incomplete =>
    Some (mkOpenItem CapsecIncomplete "The Capsec report declares incomplete coverage." CapsecSourceObservation)
  | Some ReportInvalid => Some (mkOpenItem CapsecReportInvalid "The Capsec report is invalid." CapsecSourceObservation)
  | Some SchemaUnknown =>
    Some (mkOpenItem CapsecSchemaUnknown "The Capsec schema identity is not accepted." CapsecSourceObservation)
  | Some SourceStale =>
    Some (mkOpenItem CapsecSourceStale "The Capsec report identifies different source bytes." CapsecSourceObservation)
  | Some Usable => None
  end.
Definition add_capsec_open_item (open_items : list OpenItem) (capsec : option CapsecInput) : list OpenItem :=
  match capsec_open_item capsec with Some item => set_insert item open_items | None => open_items end.

(** * The draft *)

Record PlanDraftInputs := mkPlanDraftInputs {
  pd_static_scaffold : option Sha256Digest;
  pd_inputs : list DraftInput;
  pd_capsec : option CapsecInput;
  pd_differences : list DraftDifference;
  pd_candidates : list DraftCandidate;
  pd_identified_closure : list IdentifiedClosureEntry;
  pd_path_scope : option DraftPathScope
}.
Definition PlanDraftInputs_default : PlanDraftInputs := mkPlanDraftInputs None [] None [] [] [] None.
(** [v.sort(); v.dedup()] *)
Definition sort_dedup {A} `{EqDecision A, RustOrd A} (l : list A) : list A :=
  dedup_by (fun a b => bool_decide (a = b)) (Prelude.sort l).
(** [inputs] after its sorting and deduplication. *)
Definition sorted_inputs (inputs : PlanDraftInputs) : PlanDraftInputs :=
  mkPlanDraftInputs (pd_static_scaffold inputs) (sort_dedup (pd_inputs inputs)) (pd_capsec inputs)
    (Prelude.sort (pd_differences inputs)) (sort_dedup (pd_candidates inputs))
    (sort_dedup (pd_identified_closure inputs)) (pd_path_scope inputs).
Definition longer_than {A} (l : list A) (bound : Z) : bool := (bound <? Z.of_nat (length l))%Z.
Definition capsec_unusable (capsec : option CapsecInput) : bool :=
  match capsec with Some capsec => negb (bool_decide (cs_usability capsec = Usable)) | None => true end.
Definition from_capsec (provenance : list DraftProvenance) : bool := bool_decide (CapsecSourceObservation ∈ provenance).
(** The checks of [build_plan_draft] on its sorted inputs, in order. *)
Definition check_inputs (inputs : PlanDraftInputs) : result DraftError () :=
  if longer_than (pd_inputs inputs) 65536 then Err InputInvalid
  else if longer_than (pd_identified_closure inputs) 258 then Err ClosureInvalid
  else if longer_than (pd_differences inputs) 1048576 then Err DifferenceInvalid
  else if longer_than (pd_candidates inputs) 1048576 then Err CollectionBoundExceeded
  else if existsb (fun candidate =>
            negb (scope_allows (pd_path_scope inputs) (dc_path candidate))
            || negb (candidate_provenance_is_bound candidate (pd_identified_closure inputs))) (pd_candidates inputs)
  then Err CandidateInvalid
  else if capsec_unusable (pd_capsec inputs)
          && (existsb (fun difference => from_capsec (df_provenance difference)) (pd_differences inputs)
              || existsb (fun candidate => from_capsec (dc_provenance candidate)) (pd_candidates inputs))
  then Err CapsecProvenanceInvalid
  else Ok ().

Definition path_event_can_write (event : DiagnosticEvent) : bool :=
  if bool_decide (class event = Creat) then true
  else
    match path_flags (operands event) with
    | Some flags =>
      negb (Z.land flags 3 =? 0)%Z || negb (Z.land flags 64 =? 0)%Z || negb (Z.land flags 512 =? 0)%Z
    | None => true
    end.
Definition decimal_text (z : Z) : string := String.string_of_list_ascii (u64_decimal z).
Definition network_item (event : DiagnosticEvent) : OpenItem :=
  mkOpenItem NetworkAttempt
    (String.append "Observed " (String.append (DiagnosticEventClass_as_str (class event))
      (String.append " at event " (String.append (decimal_text (sequence_number event))
        "; select network authority explicitly."))))
    DiagnosticRuntimeObservation.
Definition event_item (event : DiagnosticEvent) (rest : string) : OpenItem :=
  mkOpenItem ObservationUnresolved
    (String.append "Event " (String.append (decimal_text (sequence_number event)) rest)) DiagnosticRuntimeObservation.
Definition unresolved_item (event : DiagnosticEvent) : OpenItem := event_item event " has no exact reusable target.".
Definition broad_item (event : DiagnosticEvent) : OpenItem :=
  event_item event " selected a root that is too broad for an automatic suggestion.".
Definition gap_item (gap : DiagnosticGap) : OpenItem :=
  mkOpenItem Open_DiagnosticGap
    (String.append "Diagnostic coverage gap: " (String.append (DiagnosticGap_as_str gap) "."))
    DiagnosticRuntimeObservation.

(** The local variables of the loop over the events.  The counts are at most the
    number of events of a receipt, so that [+= 1] on [u64] cannot overflow. *)
Record Breadth := mkBreadth {
  br_candidates : Candidates;
  br_open_items : list OpenItem;
  br_denials : Z;
  br_unresolved : Z;
  br_broad_roots : Z
}.
Definition with_item (item : OpenItem) (st : Breadth) : Breadth :=
  mkBreadth (br_candidates st) (set_insert item (br_open_items st)) (br_denials st) (br_unresolved st) (br_broad_roots st).
Definition with_denial (st : Breadth) : Breadth :=
  mkBreadth (br_candidates st) (br_open_items st) (br_denials st + 1) (br_unresolved st) (br_broad_roots st).
Definition with_unresolved (st : Breadth) : Breadth :=
  mkBreadth (br_candidates st) (br_open_items st) (br_denials st) (br_unresolved st + 1) (br_broad_roots st).
Definition with_broad_root (st : Breadth) : Breadth :=
  mkBreadth (br_candidates st) (br_open_items st) (br_denials st) (br_unresolved st) (br_broad_roots st + 1).
Definition with_candidate (candidate : DraftCandidate) (st : Breadth) : Breadth :=
  mkBreadth (merge_candidate (br_candidates st) candidate) (br_open_items st) (br_denials st) (br_unresolved st)
    (br_broad_roots st).
Definition candidate_kind (event : DiagnosticEvent) : option CandidateKind :=
  if is_execute (class event) then Some Execute
  else if is_read_candidate (class event) && negb (path_event_can_write event) then Some Read
  else None.
Definition is_unresolved (resolution : RunResult.ObservationResolution) : bool :=
  match resolution with RunResult.Unresolved | RunResult.Redacted => true | _ => false end.
(** The body of the loop. *)
Definition scan_event (scope : option DraftPathScope) (st : Breadth) (event : DiagnosticEvent) : Breadth :=
  let st := if is_returned (outcome event) then st else with_denial st in
  let st := if is_network (class event) then with_item (network_item event) st else st in
  if is_unresolved (resolution event) then with_item (unresolved_item event) (with_unresolved st)
  else
    match resolved_path event with
    | None => st
    | Some path =>
      if negb (is_ok (validate_absolute_path path)) || is_network (class event) then st
      else if negb (scope_allows scope path) then with_item (broad_item event) (with_broad_root st)
      else
        match candidate_kind event with
        | Some kind => with_candidate (mkDraftCandidate kind path [DiagnosticRuntimeObservation]) st
        | None => st
        end
    end.
Definition scan_receipt (receipt : DiagnosticReceipt) (inputs : PlanDraftInputs) : Breadth :=
  let st := mkBreadth (fold_left merge_candidate (pd_candidates inputs) []) mandatory_open_items 0 0 0 in
  let st := fold_left (scan_event (pd_path_scope inputs)) (rcp_events receipt) st in
  let open_items := fold_left (fun s gap => set_insert (gap_item gap) s) (rcp_gaps receipt) (br_open_items st) in
  mkBreadth (br_candidates st) (add_capsec_open_item open_items (pd_capsec inputs)) (br_denials st) (br_unresolved st)
    (br_broad_roots st).

Definition breadth_value (st : Breadth) : Json :=
  json_object
    [("broad_roots", Json_U64 (br_broad_roots st)); ("denials", Json_U64 (br_denials st));
     ("suggested_roots", Json_U64 (Z.of_nat (length (br_candidates st)))); ("unresolved_events", Json_U64 (br_unresolved st))].
(** The calls on the writer, in order. *)
Definition draft_pieces (receipt : DiagnosticReceipt) (inputs : PlanDraftInputs) (st : Breadth) : list piece :=
  [Raw "{'arguments':"; Value (json_strings (rcp_arguments receipt));
   Raw ",'breadth':"; Value (breadth_value st);
   Raw ",'candidates':"; Sequence (map (fun entry => DraftCandidate_to_value entry.2) (br_candidates st));
   Raw ",'capsec':"; Value (json_option CapsecInput_to_value (pd_capsec inputs));
   Raw ",'diagnostic_receipt_commitment':"; Value (Json_String (digest_text (rcp_commitment receipt)));
   Raw ",'differences':"; Sequence (map DraftDifference_to_value (pd_differences inputs));
   Raw ",'environment_names':"; Value (json_strings (rcp_environment_names receipt));
   Raw ",'gaps':"; Sequence (map (fun gap => Json_String (DiagnosticGap_as_str gap)) (rcp_gaps receipt));
   Raw ",'identified_closure':"; Sequence (map IdentifiedClosureEntry_to_value (pd_identified_closure inputs));
   Raw ",'inputs':"; Sequence (map DraftInput_to_value (pd_inputs inputs));
   Raw ",'open_items':"; Sequence (map OpenItem_to_value (br_open_items st));
   Raw ",'safe_policy':false,'schema':"; Value (Json_String PLAN_DRAFT_SCHEMA);
   Raw ",'seed_plan':"; Value (Json_String (digest_text (rcp_seed_plan_digest receipt)));
   Raw ",'static_scaffold':";
   Value (json_option (fun digest => Json_String (digest_text digest)) (pd_static_scaffold inputs));
   Raw "}"].

Record PlanDraft := mkPlanDraft { draft_bytes : list byte }.
Record DiagnosticArtifacts := mkDiagnosticArtifacts { art_receipt : DiagnosticReceipt; art_draft : PlanDraft }.
Inductive DiagnosticProducerError :=
| Producer_Receipt (error : DiagnosticArtifactError)
| Producer_Draft (error : DraftError).

Section build.
Context `{SerdeWriter}.

Definition build_plan_draft (receipt : DiagnosticReceipt) (inputs : PlanDraftInputs) : result DraftError PlanDraft :=
  let inputs := sorted_inputs inputs in
  _ ← check_inputs inputs;
  let st := scan_receipt receipt inputs in
  if longer_than (br_candidates st) 1048576 || longer_than (br_open_items st) 1048576 then Err CollectionBoundExceeded
  else
    bytes ← map_err map_write_error (write_document (rcp_output_bound receipt) (draft_pieces receipt inputs st));
    Ok (mkPlanDraft bytes).

Definition build_diagnostic_artifacts (sha256 : list byte -> list byte) (parts : DiagnosticReceiptParts)
    (inputs : PlanDraftInputs) : result DiagnosticProducerError DiagnosticArtifacts :=
  receipt ← map_err Producer_Receipt (DiagnosticReceipt_construct sha256 parts);
  draft ← map_err Producer_Draft (build_plan_draft receipt inputs);
  Ok (mkDiagnosticArtifacts receipt draft).
End build.
