(* ===== verification/DraftPlans.v ===== *)
(** The theorems about [Draft]: which paths a scope allows, which candidates and
    open items a draft holds, when it is built, and that the order of its inputs
    does not matter. *)
From S2P Require Import Prelude Vectors Identity JsonCbor Network Diagnostic DiagnosticReceipts Draft.
From S2P Require RunResult.
From Stdlib Require Import Ascii ZArith Lia Sorted.
From stdpp Require Import prelude strings list numbers gmap.
Export stdpp.list_relations.list.
Import RunResult(DraftProvenance(..)).

(** * Paths as components *)

(** The components of a normalized absolute path. *)
Definition names (path : string) (cs : list (list byte)) : Prop :=
  Forall path_component cs /\ bytes_of path = "/"%char :: join_with "/"%char cs.
Lemma names_inj path cs ds : names path cs -> names path ds -> cs = ds.
Proof.
  intros [Hc Hp] [Hd Hq]. rewrite Hp in Hq. injection Hq as Hq. by apply join_components_inj.
Qed.
Lemma join_with_app sep (ps qs : list (list byte)) :
  ps <> [] -> qs <> [] -> join_with sep (ps ++ qs) = join_with sep ps ++ sep :: join_with sep qs.
Proof.
  intros Hp Hq. induction ps as [|p ps IH]; [done|]. destruct ps as [|p' ps].
  - destruct qs; done.
  - change ((p :: p' :: ps) ++ qs) with (p :: (p' :: ps) ++ qs).
    change (join_with sep (p :: (p' :: ps) ++ qs)) with (p ++ sep :: join_with sep ((p' :: ps) ++ qs)).
    rewrite IH by done. change (join_with sep (p :: p' :: ps)) with (p ++ sep :: join_with sep (p' :: ps)).
    by rewrite <- app_assoc.
Qed.
Lemma split_with_sep sep (l k : list byte) : split_on sep (l ++ sep :: k) = split_on sep l ++ split_on sep k.
Proof.
  induction l as [|b l IH]; cbn; [by rewrite bool_decide_eq_true_2|]. rewrite IH.
  destruct (split_on_cons sep l) as (c & cs & ->). by case_bool_decide.
Qed.
Lemma prefix_of_normalized path root cs rs :
  names path cs -> names root rs -> rs <> [] ->
  (exists suffix, bytes_of path = bytes_of root ++ "/"%char :: suffix) <-> exists k, k <> [] /\ cs = rs ++ k.
Proof.
  intros [Hc Hp] [Hr Hq] Hne. rewrite Hp, Hq. split.
  - intros (suffix & [= Heq]). assert (cs <> []) as Hc0 by (intros ->; by destruct (join_with _ rs)).
    exists (split_on "/"%char suffix). split; [by destruct (split_on_cons "/"%char suffix) as (? & ? & ->)|].
    rewrite <- (split_components cs Hc Hc0), Heq, split_with_sep. by rewrite split_components.
  - intros (k & Hk & ->). exists (join_with "/"%char k). cbn. by rewrite join_with_app.
Qed.
(** The textual test is the test on components. *)
Lemma path_is_within_components path root cs rs :
  names path cs -> names root rs -> path_is_within path root = true <-> rs `prefix_of` cs.
Proof.
  intros Hpath Hroot. unfold path_is_within. rewrite !orb_true_iff, !String.eqb_eq.
  assert (match strip_prefix_bytes (bytes_of root) (bytes_of path) with
          | Some suffix => bool_decide (head suffix = Some "/"%char) | None => false end = true
          <-> exists suffix, bytes_of path = bytes_of root ++ "/"%char :: suffix) as ->.
  { destruct (strip_prefix_bytes _ _) as [k|] eqn:Hk.
    - apply strip_prefix_bytes_Some in Hk. rewrite bool_decide_eq_true, Hk. split.
      + destruct k as [|b k]; [done|]. intros [= ->]. eauto.
      + by intros (suffix & ->%app_inv_head).
    - split; [done|]. intros (suffix & Hs%strip_prefix_bytes_Some). congruence. }
  destruct (decide (rs = [])) as [->|Hne].
  - split; [intros _; apply prefix_nil|]. intros _. left. right. apply string_bytes_inj. by rewrite (proj2 Hroot).
  - rewrite (prefix_of_normalized _ _ _ _ Hpath Hroot Hne). split.
    + intros [[->|Hrt]|(k & _ & ->)].
      * by rewrite (names_inj _ _ _ Hpath Hroot).
      * subst. destruct Hroot as [Hr Hq]. injection Hq as Hq. symmetry in Hq. by apply join_components_nil in Hq.
      * by apply prefix_app_r.
    + intros [[|c k] Hk]; [left; left|right; exists (c :: k); done]. rewrite app_nil_r in Hk. subst cs.
      apply string_bytes_inj. by rewrite (proj2 Hpath), (proj2 Hroot).
Qed.

Definition below (path root : string) : Prop := exists cs rs, names path cs /\ names root rs /\ rs `prefix_of` cs.
Lemma within_below path root :
  is_normalized_absolute_path path = true -> is_normalized_absolute_path root = true ->
  path_is_within path root = true <-> below path root.
Proof.
  intros (cs & Hcs & Hp)%normalized_path_exact (rs & Hrs & Hr)%normalized_path_exact.
  assert (names path cs) as Hpath by done. assert (names root rs) as Hroot by done.
  rewrite (path_is_within_components _ _ _ _ Hpath Hroot). split; [intros; by exists cs, rs|].
  intros (cs' & rs' & Hpath' & Hroot' & Hpre).
  by rewrite (names_inj _ _ _ Hpath Hpath'), (names_inj _ _ _ Hroot Hroot').
Qed.
Lemma existsb_below path roots :
  is_normalized_absolute_path path = true -> Forall (fun r => is_normalized_absolute_path r = true) roots ->
  existsb (path_is_within path) roots = true <-> exists root, root ∈ roots /\ below path root.
Proof.
  intros Hp Hr. rewrite existsb_exists. rewrite Forall_forall in Hr. split.
  - intros (r & Hin%list_elem_of_In & Hb). exists r. split; [done|]. apply within_below; auto.
  - intros (r & Hin & Hb). exists r. split; [by apply list_elem_of_In|]. apply within_below; auto.
Qed.
Lemma validate_absolute_path_Ok path u :
  validate_absolute_path path = Ok u <-> is_normalized_absolute_path path = true /\ (str_size path <= 1048576)%Z.
Proof.
  unfold validate_absolute_path. destruct u. rewrite <- Z.ltb_ge.
  destruct (is_normalized_absolute_path path), (_ <? _)%Z; cbn; naive_solver.
Qed.
Lemma canonical_path_set_Ok paths allow_root l :
  canonical_path_set paths allow_root = Ok l ->
  l = set_of paths /\ Forall (fun path => is_normalized_absolute_path path = true) l.
Proof.
  unfold canonical_path_set. destruct (_ || _) eqn:Hc; [done|]. intros [= <-]. split; [done|].
  apply orb_false_iff in Hc as [_ Hc%existsb_false]. eapply Forall_impl; [exact Hc|]. cbn. intros path.
  destruct (validate_absolute_path path) as [u|] eqn:Hv; [|done]. by apply validate_absolute_path_Ok in Hv as [-> _].
Qed.
Lemma system_roots_normalized : Forall (fun r => is_normalized_absolute_path r = true) system_roots.
Proof. apply forallb_Forall'. vm_compute. reflexivity. Qed.

(** C15: a path scope allows exactly the normalized absolute paths below one of the
    candidate roots and below none of the home directory, the temporary roots and the
    system directories, in the order of path components and not of text. *)
Theorem scope_allows_exact roots home temps scope path :
  DraftPathScope_new roots home temps = Ok scope ->
  DraftPathScope_allows scope path = true
  <-> (exists root, root ∈ roots /\ below path root) /\ ~ below path home
      /\ (forall root, root ∈ temps -> ~ below path root) /\ (forall root, root ∈ system_roots -> ~ below path root).
Proof.
  unfold DraftPathScope_new. intros Hnew.
  apply bind_Ok in Hnew as (cands & [-> Hcn]%canonical_path_set_Ok & Hnew). case_bool_decide; [done|].
  apply bind_Ok in Hnew as ([] & [Hh _]%validate_absolute_path_Ok & Hnew). destruct (String.eqb home "/"); [done|].
  apply bind_Ok in Hnew as (excl & [-> Hen]%canonical_path_set_Ok & Hnew). destruct (existsb _ _); [done|].
  injection Hnew as <-. unfold DraftPathScope_allows. cbn [candidate_roots excluded_roots].
  destruct (set_of_spec roots) as [_ Hroots], (set_of_spec temps) as [_ Htemps].
  assert (Forall (fun r => is_normalized_absolute_path r = true) (set_insert home (set_of temps))) as Hex.
  { apply Forall_forall. intros r [->|Hr]%elem_of_set_insert; [done|]. rewrite Forall_forall in Hen. by apply Hen. }
  destruct (is_normalized_absolute_path path) eqn:Hp; cbn [andb].
  - rewrite !andb_true_iff, !negb_true_iff, <- !not_true_iff_false. unfold is_system_path.
    rewrite (existsb_below _ system_roots Hp system_roots_normalized), (existsb_below _ _ Hp Hex), (existsb_below _ _ Hp Hcn).
    setoid_rewrite elem_of_set_insert. setoid_rewrite Hroots. setoid_rewrite Htemps. naive_solver.
  - split; [done|]. intros [(r & _ & cs & rs & Hn & _) _]. exfalso.
    assert (is_normalized_absolute_path path = true) as Hn' by (apply normalized_path_exact; by exists cs). congruence.
Qed.

(** * Sets *)

Section sets.
Context {A : Type} `{EqDecision A, LawfulOrd A}.
#[local] Abbreviation strict := (StronglySorted (fun a b : A => rlt a b = true)).
Lemma sort_dedup_set (l : list A) : sort_dedup l = set_of l.
Proof.
  unfold sort_dedup. pose proof (set_of_spec l) as [Hs He]. apply strict_unique; [|done|].
  - apply dedup_by_strict; [intros; apply bool_decide_eq_true|apply sort_weak].
  - intros x. by rewrite (elem_of_dedup_by _ (fun a b => bool_decide_eq_true (a = b))), elem_of_sort, He.
Qed.
Lemma set_extend_spec (l s : list A) :
  strict s -> let t := fold_left (fun s x => set_insert x s) l s in strict t /\ forall x, x ∈ t <-> x ∈ s \/ x ∈ l.
Proof.
  revert s. induction l as [|y l IH]; intros s Hs; cbn; [split; [done|set_solver]|].
  destruct (IH (set_insert y s) (set_insert_strict _ _ Hs)) as [H1 H2]. split; [done|].
  intros x. rewrite H2, elem_of_set_insert. set_solver.
Qed.
End sets.

(** * The map of candidates *)

Definition candidate_wf (c : DraftCandidate) : Prop :=
  dc_provenance c <> [] /\ StronglySorted (fun a b => rlt a b = true) (dc_provenance c).
Definition key_of (c : DraftCandidate) : CandidateKey := (dc_kind c, dc_path c).
(** What the candidates propose, and where it comes from. *)
Definition proposed (cs : list DraftCandidate) (kind : CandidateKind) (path : string) (p : DraftProvenance) : Prop :=
  exists c, c ∈ cs /\ dc_kind c = kind /\ dc_path c = path /\ p ∈ dc_provenance c.
(** Candidates in the order of their keys, one per key, that propose exactly what [P] says. *)
Record candidates_are (cs : list DraftCandidate) (P : CandidateKind -> string -> DraftProvenance -> Prop) : Prop := {
  ca_sorted : StronglySorted (fun a b => rlt (key_of a) (key_of b) = true) cs;
  ca_wf : Forall candidate_wf cs;
  ca_proposed kind path p : proposed cs kind path p <-> P kind path p
}.
Lemma key_lt_candidate a b : rlt (key_of a) (key_of b) = true -> rlt a b = true.
Proof.
  rewrite !rlt_Lt. intros Hk.
  change (cmp_then (rcmp (key_of a) (key_of b)) (rcmp (dc_provenance a) (dc_provenance b)) = Lt). by rewrite Hk.
Qed.
Lemma sorted_key_inj cs c d :
  StronglySorted (fun a b => rlt (key_of a) (key_of b) = true) cs -> c ∈ cs -> d ∈ cs -> key_of c = key_of d -> c = d.
Proof.
  induction 1 as [|x cs Hs IH Hx]; [by intros ?%elem_of_nil|]. rewrite Forall_forall in Hx.
  rewrite !elem_of_cons. intros [->|Hc] [->|Hd] Hk; try done; [..|by apply IH].
  - apply Hx in Hd. by rewrite Hk, rlt_irrefl in Hd.
  - apply Hx in Hc. by rewrite Hk, rlt_irrefl in Hc.
Qed.
Lemma candidates_subset cs ds P : candidates_are cs P -> candidates_are ds P -> forall c, c ∈ cs -> c ∈ ds.
Proof.
  intros [Sc Wc Pc] [Sd Wd Pd] c Hc. rewrite Forall_forall in Wc, Wd. destruct (Wc c Hc) as [Hne Hsc].
  assert (forall p, p ∈ dc_provenance c <-> P (dc_kind c) (dc_path c) p) as Hp.
  { intros p. rewrite <- Pc. split; [by exists c|]. intros (c' & Hc' & Hk & Hpath & Hp).
    assert (c' = c) as -> by (apply (sorted_key_inj cs); [done..|unfold key_of; congruence]). done. }
  destruct (dc_provenance c) as [|p0 l] eqn:Hl; [done|]. rewrite <- Hl in *.
  assert (P (dc_kind c) (dc_path c) p0) as H0 by (apply Hp; rewrite Hl; left).
  apply Pd in H0 as (d & Hd & Hkd & Hpd & _). destruct (Wd d Hd) as [_ Hsd].
  enough (dc_provenance c = dc_provenance d) as He by (destruct c, d; cbn in *; by subst).
  apply strict_unique; [done|done|]. intros p. rewrite Hp, <- Pd. split.
  - intros (d' & Hd' & Hk & Hpath & Hpp).
    assert (d' = d) as -> by (apply (sorted_key_inj ds); [done..|unfold key_of; congruence]). done.
  - intros Hpp. by exists d.
Qed.
Lemma candidates_unique cs ds P : candidates_are cs P -> candidates_are ds P -> cs = ds.
Proof.
  intros Hc Hd. assert (forall ks, candidates_are ks P -> StronglySorted (fun a b : DraftCandidate => rlt a b = true) ks) as Hs.
  { intros ks [Hks _ _]. induction Hks as [|k ks _ IH Hk]; constructor; [done|].
    eapply Forall_impl; [exact Hk|]. apply key_lt_candidate. }
  apply strict_unique; [by apply Hs|by apply Hs|].
  intros c. split; [apply (candidates_subset cs ds P)|apply (candidates_subset ds cs P)]; done.
Qed.

(** A map in the order of its keys, each the key of its candidate. *)
Definition keyed (entries : Candidates) : Prop := Forall (fun e => e.1 = key_of e.2) entries.
Lemma merge_keys entries c :
  keyed entries -> keyed (merge_candidate entries c) /\
  forall d, d ∈ (merge_candidate entries c).*2 -> key_of d = key_of c \/ exists d', d' ∈ entries.*2 /\ key_of d = key_of d'.
Proof.
  unfold merge_candidate, keyed. change (dc_kind c, dc_path c) with (key_of c).
  induction 1 as [|e entries He Hk [IH1 IH2]]; cbn [merge_at].
  - split; [by repeat constructor|]. cbn. intros d ->%list_elem_of_singleton. by left.
  - destruct (rcmp (key_of c) e.1) eqn:Hc; cbn.
    + split; [by constructor|]. intros d [->|Hd]%elem_of_cons; right; [exists e.2|exists d]; (split; [|done]); [left|by right].
    + split; [by repeat constructor|]. intros d [->|Hd]%elem_of_cons; [by left|right; by exists d].
    + split; [by constructor|]. intros d [->|Hd]%elem_of_cons; [right; exists e.2; split; [left|done]|].
      destruct (IH2 d Hd) as [?|(d' & ? & ?)]; [by left|]. right. exists d'. split; [by right|done].
Qed.
Lemma extend_wf d c : candidate_wf d -> candidate_wf (extend_provenance d (dc_provenance c)) /\
  forall p, p ∈ dc_provenance (extend_provenance d (dc_provenance c)) <-> p ∈ dc_provenance d \/ p ∈ dc_provenance c.
Proof.
  intros [Hne Hs]. destruct (set_extend_spec (dc_provenance c) (dc_provenance d) Hs) as [H1 H2]. split; [|exact H2].
  split; [|exact H1]. intros Hn. cbn in Hn. destruct (dc_provenance d) as [|p l] eqn:Hd; [done|].
  apply (not_elem_of_nil p). rewrite <- Hn. apply H2. left. left.
Qed.
Lemma merge_wf entries c :
  candidate_wf c -> Forall candidate_wf entries.*2 -> Forall candidate_wf (merge_candidate entries c).*2.
Proof.
  intros Hc. unfold merge_candidate. induction entries as [|e entries IH]; cbn; [intros _; by apply Forall_singleton|].
  intros [He Hs]%Forall_cons. destruct (rcmp _ _); cbn; rewrite !Forall_cons; [|done|by auto].
  split; [apply (extend_wf e.2 c He)|done].
Qed.
Lemma merge_sorted entries c :
  keyed entries -> StronglySorted (fun a b => rlt (key_of a) (key_of b) = true) entries.*2 ->
  StronglySorted (fun a b => rlt (key_of a) (key_of b) = true) (merge_candidate entries c).*2.
Proof.
  unfold merge_candidate. change (dc_kind c, dc_path c) with (key_of c).
  induction 1 as [|e entries He Hk IH]; cbn; [intros; repeat constructor|].
  intros [Hs Hx]%StronglySorted_inv. rewrite He. destruct (rcmp (key_of c) (key_of e.2)) eqn:Hc; cbn.
  - constructor; [done|exact Hx].
  - apply rlt_Lt in Hc. constructor; [by constructor|]. constructor; [done|].
    eapply Forall_impl; [exact Hx|]. intros d. by apply rlt_trans.
  - constructor; [by apply IH|]. apply Forall_forall. intros d Hd. rewrite Forall_forall in Hx.
    destruct (merge_keys entries c Hk) as [_ Hm]. destruct (Hm d Hd) as [->|(d' & Hd' & ->)]; [|by apply Hx].
    apply rlt_Lt. by rewrite rcmp_opp, Hc.
Qed.
Lemma proposed_cons c cs kind path p :
  proposed (c :: cs) kind path p <-> (dc_kind c = kind /\ dc_path c = path /\ p ∈ dc_provenance c) \/ proposed cs kind path p.
Proof. unfold proposed. setoid_rewrite elem_of_cons. naive_solver. Qed.
Lemma merge_proposed entries c kind path p :
  keyed entries -> Forall candidate_wf entries.*2 ->
  proposed (merge_candidate entries c).*2 kind path p <-> proposed (c :: entries.*2) kind path p.
Proof.
  rewrite proposed_cons. unfold merge_candidate. change (dc_kind c, dc_path c) with (key_of c).
  induction 1 as [|e entries He Hk IH]; cbn; intros Hw.
  - rewrite proposed_cons. done.
  - apply Forall_cons in Hw as [Hwe Hw]. destruct (rcmp (key_of c) e.1) eqn:Hc; cbn; rewrite !proposed_cons; [|done|].
    + apply rcmp_Eq in Hc. rewrite He in Hc. injection Hc as Hck Hcp.
      destruct (extend_wf e.2 c Hwe) as [_ ->]. cbn. rewrite Hck, Hcp. naive_solver.
    + rewrite (IH Hw). naive_solver.
Qed.
(** Merging a candidate adds what it proposes. *)
Lemma merge_candidates_are entries c P :
  keyed entries -> candidates_are entries.*2 P -> candidate_wf c ->
  keyed (merge_candidate entries c)
  /\ candidates_are (merge_candidate entries c).*2
       (fun kind path p => (dc_kind c = kind /\ dc_path c = path /\ p ∈ dc_provenance c) \/ P kind path p).
Proof.
  intros Hk [Hs Hw Hp] Hc. split; [by apply merge_keys|]. constructor; [by apply merge_sorted|by apply merge_wf|].
  intros kind path p. rewrite <- Hp. rewrite (merge_proposed entries c kind path p Hk Hw). apply proposed_cons.
Qed.
Lemma candidates_are_proper cs P Q :
  (forall kind path p, P kind path p <-> Q kind path p) -> candidates_are cs P -> candidates_are cs Q.
Proof. intros HPQ [Hs Hw Hp]. constructor; [done|done|]. intros. by rewrite Hp. Qed.
Lemma merge_all_candidates cs entries P :
  keyed entries -> candidates_are entries.*2 P -> Forall candidate_wf cs ->
  keyed (fold_left merge_candidate cs entries)
  /\ candidates_are (fold_left merge_candidate cs entries).*2
       (fun kind path p => P kind path p \/ proposed cs kind path p).
Proof.
  intros Hk Hp Hw. revert entries P Hk Hp. induction Hw as [|c cs Hc Hw IH]; intros entries P Hk Hp; cbn [fold_left].
  - split; [done|]. eapply candidates_are_proper; [|exact Hp]. unfold proposed. set_solver.
  - destruct (merge_candidates_are entries c P Hk Hp Hc) as [Hk' Hp']. destruct (IH _ _ Hk' Hp') as [Hk'' Hp''].
    split; [done|]. eapply candidates_are_proper; [|exact Hp'']. intros kind path p. cbn. rewrite proposed_cons. tauto.
Qed.

(** * What the events say *)

Definition unresolved_event (event : DiagnosticEvent) : Prop :=
  resolution event = RunResult.Unresolved \/ resolution event = RunResult.Redacted.
(** The path of an event whose target is exact and not a network address. *)
Definition selected (event : DiagnosticEvent) (path : string) : Prop :=
  ~ unresolved_event event /\ resolved_path event = Some path /\ is_network (class event) = false
  /\ is_normalized_absolute_path path = true /\ (str_size path <= 1048576)%Z.
(** An event suggests a candidate when its path is inside the scope and it runs the
    file or opens it without being able to write. *)
Definition suggests (scope : option DraftPathScope) (event : DiagnosticEvent) (kind : CandidateKind) (path : string) : Prop :=
  selected event path /\ scope_allows scope path = true
  /\ match kind with
     | Execute => is_execute (class event) = true
     | Read => is_execute (class event) = false /\ is_read_candidate (class event) = true
               /\ path_event_can_write event = false
     end.
Definition too_broad (scope : option DraftPathScope) (event : DiagnosticEvent) : Prop :=
  exists path, selected event path /\ scope_allows scope path = false.
(** What a person must still decide. *)
Inductive open_for (scope : option DraftPathScope) (capsec : option CapsecInput) (events : list DiagnosticEvent)
    (gaps : list DiagnosticGap) : OpenItem -> Prop :=
| open_environment : open_for scope capsec events gaps
    (mkOpenItem ChooseEnvironment "Select registered environment names." HumanAuthored)
| open_limits : open_for scope capsec events gaps (mkOpenItem ChooseLimits "Select every resource limit." HumanAuthored)
| open_network : open_for scope capsec events gaps (mkOpenItem ChooseNetworkMode "Select the network mode." HumanAuthored)
| open_write_roots : open_for scope capsec events gaps (mkOpenItem ChooseWriteRoots "Select write roots." HumanAuthored)
| open_attempt event : event ∈ events -> is_network (class event) = true ->
    open_for scope capsec events gaps (network_item event)
| open_unresolved event : event ∈ events -> unresolved_event event ->
    open_for scope capsec events gaps (unresolved_item event)
| open_broad event : event ∈ events -> too_broad scope event -> open_for scope capsec events gaps (broad_item event)
| open_gap gap : gap ∈ gaps -> open_for scope capsec events gaps (gap_item gap)
| open_capsec item : capsec_open_item capsec = Some item -> open_for scope capsec events gaps item.

Lemma is_unresolved_spec event : is_unresolved (resolution event) = true <-> unresolved_event event.
Proof. unfold unresolved_event. destruct (resolution event); naive_solver. Qed.
Lemma candidate_kind_spec event kind :
  candidate_kind event = Some kind <->
  match kind with
  | Execute => is_execute (class event) = true
  | Read => is_execute (class event) = false /\ is_read_candidate (class event) = true /\ path_event_can_write event = false
  end.
Proof.
  unfold candidate_kind. destruct (is_execute _), (is_read_candidate _), (path_event_can_write _), kind; naive_solver.
Qed.
(** The tests of the loop, in one. *)
Definition selected_path (event : DiagnosticEvent) : option string :=
  if is_unresolved (resolution event) then None
  else
    match resolved_path event with
    | Some path => if negb (is_ok (validate_absolute_path path)) || is_network (class event) then None else Some path
    | None => None
    end.
Lemma selected_path_Some event path : selected_path event = Some path <-> selected event path.
Proof.
  unfold selected_path, selected. rewrite <- is_unresolved_spec.
  destruct (is_unresolved _); [naive_solver|]. destruct (resolved_path event) as [q|]; [|naive_solver].
  destruct (validate_absolute_path q) as [u|e] eqn:Hv; cbn.
  - apply validate_absolute_path_Ok in Hv. destruct (is_network _); naive_solver.
  - split; [done|]. intros (_ & [= ->] & _ & Hq). apply (validate_absolute_path_Ok path ()) in Hq. congruence.
Qed.
Definition broad_event (scope : option DraftPathScope) (event : DiagnosticEvent) : bool :=
  match selected_path event with Some path => negb (scope_allows scope path) | None => false end.
Lemma broad_event_spec scope event : broad_event scope event = true <-> too_broad scope event.
Proof.
  unfold broad_event, too_broad. setoid_rewrite <- selected_path_Some.
  destruct (selected_path event); [rewrite negb_true_iff|]; naive_solver.
Qed.
Definition suggestion (scope : option DraftPathScope) (event : DiagnosticEvent) : option DraftCandidate :=
  path ← selected_path event;
  if scope_allows scope path then
    kind ← candidate_kind event; Some (mkDraftCandidate kind path [DiagnosticRuntimeObservation])
  else None.
Lemma suggestion_Some scope event c :
  suggestion scope event = Some c
  <-> suggests scope event (dc_kind c) (dc_path c) /\ dc_provenance c = [DiagnosticRuntimeObservation].
Proof.
  unfold suggestion, suggests. rewrite <- candidate_kind_spec, <- selected_path_Some.
  destruct (selected_path event) as [path|]; cbn; [|naive_solver]. destruct (scope_allows scope path) eqn:Ha; [|split; [done|intros [(Hq & Hs & _) _]; congruence]].
  destruct (candidate_kind event) as [kind|]; cbn; [|naive_solver]. destruct c; cbn. naive_solver.
Qed.
Lemma scan_event_alt scope st event :
  scan_event scope st event =
  mkBreadth
    (match suggestion scope event with Some c => merge_candidate (br_candidates st) c | None => br_candidates st end)
    (let items := if is_network (class event) then set_insert (network_item event) (br_open_items st) else br_open_items st in
     if is_unresolved (resolution event) then set_insert (unresolved_item event) items
     else if broad_event scope event then set_insert (broad_item event) items else items)
    (br_denials st + Z.b2z (negb (is_returned (outcome event))))
    (br_unresolved st + Z.b2z (is_unresolved (resolution event)))
    (br_broad_roots st + Z.b2z (broad_event scope event)).
Proof.
  unfold scan_event, suggestion, broad_event, selected_path.
  destruct (is_returned _), (is_network _), (is_unresolved _); cbn -[candidate_kind scope_allows validate_absolute_path].
  all: rewrite ?Z.add_0_r; try (by destruct st).
  all: destruct (resolved_path event) as [path|]; cbn -[candidate_kind scope_allows validate_absolute_path]; rewrite ?Z.add_0_r; try (by destruct st).
  all: rewrite ?orb_true_r, ?orb_false_r; cbn -[candidate_kind scope_allows validate_absolute_path]; rewrite ?Z.add_0_r; try (by destruct st).
  all: destruct (validate_absolute_path path); cbn -[candidate_kind scope_allows]; rewrite ?Z.add_0_r; try (by destruct st).
  all: destruct (scope_allows scope path); cbn -[candidate_kind]; rewrite ?Z.add_0_r; try (by destruct st).
  all: by destruct (candidate_kind event), st; cbn; rewrite ?Z.add_0_r.
Qed.

Definition count_if {A} (p : A -> bool) (l : list A) : Z := Z.of_nat (length (List.filter p l)).
Lemma count_if_cons {A} (p : A -> bool) x l : count_if p (x :: l) = (Z.b2z (p x) + count_if p l)%Z.
Proof. unfold count_if. cbn. destruct (p x); cbn; lia. Qed.
Definition event_opens (scope : option DraftPathScope) (event : DiagnosticEvent) (item : OpenItem) : Prop :=
  is_network (class event) = true /\ item = network_item event
  \/ unresolved_event event /\ item = unresolved_item event
  \/ too_broad scope event /\ item = broad_item event.
#[local] Abbreviation strict := (StronglySorted (fun a b : OpenItem => rlt a b = true)).

Section scan.
Context (scope : option DraftPathScope).
Lemma scan_event_items st event :
  strict (br_open_items st) ->
  strict (br_open_items (scan_event scope st event))
  /\ forall item, item ∈ br_open_items (scan_event scope st event)
       <-> item ∈ br_open_items st \/ event_opens scope event item.
Proof.
  intros Hs. unfold event_opens. setoid_rewrite <- is_unresolved_spec. setoid_rewrite <- broad_event_spec.
  rewrite scan_event_alt. cbn.
  assert (is_unresolved (resolution event) = true -> broad_event scope event = false) as Hb.
  { unfold broad_event, selected_path. by intros ->. }
  split.
  - destruct (is_network _), (is_unresolved _), (broad_event _ _); by repeat apply set_insert_strict.
  - intros item. destruct (is_network _), (is_unresolved _), (broad_event _ _); try (by specialize (Hb eq_refl));
      rewrite ?elem_of_set_insert; naive_solver.
Qed.
Lemma suggestion_wf event c : suggestion scope event = Some c -> candidate_wf c.
Proof. intros [_ Hp]%suggestion_Some. unfold candidate_wf. rewrite Hp. split; [done|repeat constructor]. Qed.
Lemma scan_event_candidates st event P :
  keyed (br_candidates st) -> candidates_are (br_candidates st).*2 P ->
  keyed (br_candidates (scan_event scope st event))
  /\ candidates_are (br_candidates (scan_event scope st event)).*2
       (fun kind path p => P kind path p \/ p = DiagnosticRuntimeObservation /\ suggests scope event kind path).
Proof.
  intros Hk Hp. rewrite scan_event_alt. cbn. destruct (suggestion scope event) as [c|] eqn:Hs.
  - destruct (merge_candidates_are _ c P Hk Hp (suggestion_wf _ _ Hs)) as [Hk' Hp']. split; [done|].
    eapply candidates_are_proper; [|exact Hp']. intros kind path p. cbn.
    pose proof (proj1 (suggestion_Some _ _ _) Hs) as [Hc Hpr]. rewrite Hpr, list_elem_of_singleton. split.
    + intros [(<- & <- & ->)|?]; tauto.
    + intros [?|[-> Hsg]]; [by right|]. left.
      assert (suggestion scope event = Some (mkDraftCandidate kind path [DiagnosticRuntimeObservation])) as Hs'
        by (by apply suggestion_Some). rewrite Hs in Hs'. by injection Hs' as ->.
  - split; [done|]. eapply candidates_are_proper; [|exact Hp]. intros kind path p. cbn. split; [by left|].
    intros [?|[-> Hsg]]; [done|]. exfalso.
    assert (suggestion scope event = Some (mkDraftCandidate kind path [DiagnosticRuntimeObservation])) as Hs'
      by (by apply suggestion_Some). congruence.
Qed.
Lemma scan_events_candidates events st P :
  keyed (br_candidates st) -> candidates_are (br_candidates st).*2 P ->
  keyed (br_candidates (fold_left (scan_event scope) events st))
  /\ candidates_are (br_candidates (fold_left (scan_event scope) events st)).*2
       (fun kind path p => P kind path p
          \/ p = DiagnosticRuntimeObservation /\ exists event, event ∈ events /\ suggests scope event kind path).
Proof.
  revert st P. induction events as [|event events IH]; intros st P Hk Hp; cbn [fold_left].
  - split; [done|]. eapply candidates_are_proper; [|exact Hp]. set_solver.
  - destruct (scan_event_candidates st event P Hk Hp) as [Hk' Hp']. destruct (IH _ _ Hk' Hp') as [Hk'' Hp''].
    split; [done|]. eapply candidates_are_proper; [|exact Hp'']. intros kind path p. cbn.
    setoid_rewrite elem_of_cons. naive_solver.
Qed.
Lemma scan_events_items events st :
  strict (br_open_items st) ->
  strict (br_open_items (fold_left (scan_event scope) events st))
  /\ forall item, item ∈ br_open_items (fold_left (scan_event scope) events st)
       <-> item ∈ br_open_items st \/ exists event, event ∈ events /\ event_opens scope event item.
Proof.
  revert st. induction events as [|event events IH]; intros st Hs; cbn [fold_left]; [split; [done|set_solver]|].
  destruct (scan_event_items st event Hs) as [Hs' Hi]. destruct (IH _ Hs') as [Hs'' Hi']. split; [done|].
  intros item. rewrite Hi', Hi. setoid_rewrite elem_of_cons. naive_solver.
Qed.
Lemma scan_events_counts events st :
  let st' := fold_left (scan_event scope) events st in
  br_denials st' = (br_denials st + count_if (fun e => negb (is_returned (outcome e))) events)%Z
  /\ br_unresolved st' = (br_unresolved st + count_if (fun e => is_unresolved (resolution e)) events)%Z
  /\ br_broad_roots st' = (br_broad_roots st + count_if (broad_event scope) events)%Z.
Proof.
  revert st. induction events as [|event events IH]; intros st; cbn [fold_left]; [unfold count_if; cbn; lia|].
  rewrite !count_if_cons. destruct (IH (scan_event scope st event)) as (H1 & H2 & H3). cbv zeta. rewrite H1, H2, H3.
  rewrite scan_event_alt. cbn. lia.
Qed.
End scan.

(** * The checks of the inputs *)

(** What backs a provenance that a caller claims for a candidate. *)
Inductive backed (closure : list IdentifiedClosureEntry) (c : DraftCandidate) : DraftProvenance -> Prop :=
| backed_executable e : e ∈ closure -> ce_path e = dc_path c -> ce_role e = Executable ->
    ce_provenance e = StaticExecutableClosure -> dc_kind c = Execute -> backed closure c StaticExecutableClosure
| backed_interpreter e : e ∈ closure -> ce_path e = dc_path c -> ce_role e = Interpreter ->
    ce_provenance e = PlatformRequiredClosure -> dc_kind c = Execute -> backed closure c PlatformRequiredClosure
| backed_library e : e ∈ closure -> ce_path e = dc_path c -> ce_role e = RuntimeLibrary ->
    ce_provenance e = PlatformRequiredClosure -> dc_kind c = Read -> backed closure c PlatformRequiredClosure
| backed_capsec : backed closure c CapsecSourceObservation.
Lemma candidate_bound_spec c closure :
  candidate_provenance_is_bound c closure = true <-> Forall (backed closure c) (dc_provenance c).
Proof.
  unfold candidate_provenance_is_bound. rewrite forallb_Forall'. apply Forall_iff. intros p. split.
  - destruct p; try done; try (by constructor); intros (e & Hin%list_elem_of_In & He)%existsb_exists.
    + rewrite !andb_true_iff, String.eqb_eq, !bool_decide_eq_true in He. destruct He as [[[? ?] ?] ?]. by eapply backed_executable.
    + rewrite !andb_true_iff, String.eqb_eq, !bool_decide_eq_true in He. destruct He as [[? ?] Hr].
      destruct (ce_role e) eqn:?, (dc_kind c) eqn:?; try done; [by eapply backed_interpreter|by eapply backed_library].
  - intros [e Hin Hp Hr Hv Hk|e Hin Hp Hr Hv Hk|e Hin Hp Hr Hv Hk|]; [..|done]; apply existsb_exists; exists e;
      (split; [by apply list_elem_of_In|]); rewrite Hp, Hr, Hv, Hk, String.eqb_refl; by rewrite !bool_decide_eq_true_2.
Qed.
Lemma longer_than_false {A} (l : list A) n : longer_than l n = false <-> (Z.of_nat (length l) <= n)%Z.
Proof. unfold longer_than. apply Z.ltb_ge. Qed.

(** What [build_plan_draft] demands of its inputs. *)
Record inputs_ok (inputs : PlanDraftInputs) : Prop := {
  io_inputs : (Z.of_nat (length (set_of (pd_inputs inputs))) <= 65536)%Z;
  io_closure : (Z.of_nat (length (set_of (pd_identified_closure inputs))) <= 258)%Z;
  io_differences : (Z.of_nat (length (pd_differences inputs)) <= 1048576)%Z;
  io_candidates : (Z.of_nat (length (set_of (pd_candidates inputs))) <= 1048576)%Z;
  io_scope c : c ∈ pd_candidates inputs -> scope_allows (pd_path_scope inputs) (dc_path c) = true;
  io_backed c p : c ∈ pd_candidates inputs -> p ∈ dc_provenance c -> backed (pd_identified_closure inputs) c p;
  io_capsec :
    (exists d, d ∈ pd_differences inputs /\ CapsecSourceObservation ∈ df_provenance d)
    \/ (exists c, c ∈ pd_candidates inputs /\ CapsecSourceObservation ∈ dc_provenance c) ->
    exists capsec, pd_capsec inputs = Some capsec /\ cs_usability capsec = Usable
}.
Definition canonical_inputs (inputs : PlanDraftInputs) : PlanDraftInputs :=
  mkPlanDraftInputs (pd_static_scaffold inputs) (set_of (pd_inputs inputs)) (pd_capsec inputs)
    (Prelude.sort (pd_differences inputs)) (set_of (pd_candidates inputs)) (set_of (pd_identified_closure inputs))
    (pd_path_scope inputs).
Lemma sorted_inputs_canonical inputs : sorted_inputs inputs = canonical_inputs inputs.
Proof. unfold sorted_inputs. by rewrite !sort_dedup_set. Qed.
Lemma capsec_unusable_false capsec :
  capsec_unusable capsec = false <-> exists c, capsec = Some c /\ cs_usability c = Usable.
Proof. unfold capsec_unusable. destruct capsec as [c|]; [rewrite negb_false_iff, bool_decide_eq_true|]; naive_solver. Qed.
Lemma check_inputs_cases inputs u :
  check_inputs inputs = Ok u <->
  longer_than (pd_inputs inputs) 65536 = false /\ longer_than (pd_identified_closure inputs) 258 = false
  /\ longer_than (pd_differences inputs) 1048576 = false /\ longer_than (pd_candidates inputs) 1048576 = false
  /\ Forall (fun c => scope_allows (pd_path_scope inputs) (dc_path c) = true
       /\ candidate_provenance_is_bound c (pd_identified_closure inputs) = true) (pd_candidates inputs)
  /\ (capsec_unusable (pd_capsec inputs) = false
      \/ Forall (fun d => from_capsec (df_provenance d) = false) (pd_differences inputs)
         /\ Forall (fun c => from_capsec (dc_provenance c) = false) (pd_candidates inputs)).
Proof.
  unfold check_inputs. rewrite <- !existsb_false.
  assert (forall b b', negb b || negb b' = false <-> b = true /\ b' = true) as Hbb by (intros [] []; naive_solver).
  assert (Forall (fun c => scope_allows (pd_path_scope inputs) (dc_path c) = true
       /\ candidate_provenance_is_bound c (pd_identified_closure inputs) = true) (pd_candidates inputs)
    <-> existsb (fun candidate => negb (scope_allows (pd_path_scope inputs) (dc_path candidate))
            || negb (candidate_provenance_is_bound candidate (pd_identified_closure inputs))) (pd_candidates inputs) = false) as ->.
  { rewrite existsb_false. apply Forall_iff. intros c. by rewrite Hbb. }
  generalize (longer_than (pd_inputs inputs) 65536), (longer_than (pd_identified_closure inputs) 258),
    (longer_than (pd_differences inputs) 1048576), (longer_than (pd_candidates inputs) 1048576).
  intros [] [] [] []; try (split; [done|intros (? & ? & ? & ? & _); done]).
  generalize (existsb (fun candidate => negb (scope_allows (pd_path_scope inputs) (dc_path candidate))
            || negb (candidate_provenance_is_bound candidate (pd_identified_closure inputs))) (pd_candidates inputs)),
    (existsb (fun d => from_capsec (df_provenance d)) (pd_differences inputs)),
    (existsb (fun c => from_capsec (dc_provenance c)) (pd_candidates inputs)), (capsec_unusable (pd_capsec inputs)).
  destruct u. intros [] [] [] []; cbn; naive_solver.
Qed.
Lemma check_inputs_Ok inputs u : check_inputs (canonical_inputs inputs) = Ok u <-> inputs_ok inputs.
Proof.
  destruct (set_of_spec (pd_candidates inputs)) as [_ Hc], (set_of_spec (pd_identified_closure inputs)) as [_ He].
  assert (forall c p, backed (set_of (pd_identified_closure inputs)) c p <-> backed (pd_identified_closure inputs) c p) as Hb.
  { intros c p. split; intros [e Hin|e Hin|e Hin|]; try (apply He in Hin); eauto using backed. }
  rewrite check_inputs_cases. unfold canonical_inputs.
  cbn [pd_inputs pd_capsec pd_differences pd_candidates pd_identified_closure pd_path_scope].
  rewrite !longer_than_false, !Forall_forall, capsec_unusable_false.
  assert (length (Prelude.sort (pd_differences inputs)) = length (pd_differences inputs)) as ->
    by (apply Permutation_length, sort_by_Permutation).
  setoid_rewrite Hc. setoid_rewrite elem_of_sort. setoid_rewrite candidate_bound_spec. setoid_rewrite Forall_forall.
  setoid_rewrite Hb. unfold from_capsec. setoid_rewrite bool_decide_eq_false. split.
  - intros (? & ? & ? & ? & Hsc & Hcap). constructor; try done; [by apply Hsc|by intros c p Hin; apply Hsc|].
    destruct Hcap as [?|[Hd Hcc]]; [done|]. intros [(d & Hin & Hp)|(c & Hin & Hp)]; exfalso; [by apply (Hd d)|by apply (Hcc c)].
  - intros [H1 H2 H3 H4 H5 H6 H7]. repeat (split; [done|]). split; [eauto|].
    destruct (decide (Exists (fun d => CapsecSourceObservation ∈ df_provenance d) (pd_differences inputs))) as [Hd|Hd].
    { left. apply H7. left. by apply Exists_exists in Hd. }
    destruct (decide (Exists (fun c => CapsecSourceObservation ∈ dc_provenance c) (pd_candidates inputs))) as [Hd'|Hd'].
    { left. apply H7. right. by apply Exists_exists in Hd'. }
    right. rewrite Exists_exists in Hd. rewrite Exists_exists in Hd'. naive_solver.
Qed.

(** * The draft document *)

(** What a draft holds: the candidates supplied or observed, and every open item. *)
Record draft_holds (receipt : DiagnosticReceipt) (inputs : PlanDraftInputs) (cs : list DraftCandidate)
    (items : list OpenItem) : Prop := {
  dh_candidates : candidates_are cs (fun kind path p =>
    proposed (pd_candidates inputs) kind path p
    \/ p = DiagnosticRuntimeObservation
       /\ exists event, event ∈ rcp_events receipt /\ suggests (pd_path_scope inputs) event kind path);
  dh_items_sorted : strict items;
  dh_items item : item ∈ items
    <-> open_for (pd_path_scope inputs) (pd_capsec inputs) (rcp_events receipt) (rcp_gaps receipt) item
}.
Lemma draft_holds_unique receipt inputs cs items cs' items' :
  draft_holds receipt inputs cs items -> draft_holds receipt inputs cs' items' -> cs = cs' /\ items = items'.
Proof.
  intros [Hc Hs Hi] [Hc' Hs' Hi']. split; [by eapply candidates_unique|].
  apply strict_unique; [done|done|]. intros item. by rewrite Hi, Hi'.
Qed.
Lemma supplied_candidates inputs :
  Forall candidate_wf (pd_candidates inputs) ->
  keyed (fold_left merge_candidate (set_of (pd_candidates inputs)) [])
  /\ candidates_are (fold_left merge_candidate (set_of (pd_candidates inputs)) []).*2 (proposed (pd_candidates inputs)).
Proof.
  intros Hw. destruct (set_of_spec (pd_candidates inputs)) as [_ Hset].
  assert (Forall candidate_wf (set_of (pd_candidates inputs))) as Hw'.
  { apply Forall_forall. intros c Hc%Hset. by apply (proj1 (Forall_forall _ _) Hw). }
  destruct (merge_all_candidates (set_of (pd_candidates inputs)) [] (fun _ _ _ => False)) as [Hk Hc]; [constructor| |done|].
  { constructor; [constructor..|]. intros. unfold proposed. cbn. set_solver. }
  split; [done|]. eapply candidates_are_proper; [|exact Hc]. intros kind path p. cbn. unfold proposed.
  setoid_rewrite Hset. tauto.
Qed.
Lemma closing_items items gaps capsec :
  strict items ->
  let closed := add_capsec_open_item (fold_left (fun s gap => set_insert (gap_item gap) s) gaps items) capsec in
  strict closed /\ forall item, item ∈ closed
    <-> item ∈ items \/ (exists gap, gap ∈ gaps /\ item = gap_item gap) \/ capsec_open_item capsec = Some item.
Proof.
  intros Hs. assert (forall s, fold_left (fun s gap => set_insert (gap_item gap) s) gaps s
    = fold_left (fun s item => set_insert item s) (map gap_item gaps) s) as ->.
  { clear Hs. induction gaps as [|gap gaps IH]; intros s; [done|]. by apply IH. }
  destruct (set_extend_spec (map gap_item gaps) items Hs) as [Hs' Hi]. unfold add_capsec_open_item. cbv zeta.
  assert (forall item, item ∈ map gap_item gaps <-> exists gap, gap ∈ gaps /\ item = gap_item gap) as Hm
    by (intros item; rewrite list_elem_of_fmap; naive_solver).
  destruct (capsec_open_item capsec) as [open|].
  - split; [by apply set_insert_strict|]. intros item. rewrite elem_of_set_insert, Hi, Hm. naive_solver.
  - split; [done|]. intros item. rewrite Hi, Hm. naive_solver.
Qed.
Lemma mandatory_items item :
  item ∈ mandatory_open_items <->
  item ∈ [mkOpenItem ChooseEnvironment "Select registered environment names." HumanAuthored;
     mkOpenItem ChooseLimits "Select every resource limit." HumanAuthored;
     mkOpenItem ChooseNetworkMode "Select the network mode." HumanAuthored;
     mkOpenItem ChooseWriteRoots "Select write roots." HumanAuthored].
Proof. apply set_of_spec. Qed.
Lemma scan_receipt_holds receipt inputs :
  Forall candidate_wf (pd_candidates inputs) ->
  draft_holds receipt inputs (br_candidates (scan_receipt receipt (canonical_inputs inputs))).*2
    (br_open_items (scan_receipt receipt (canonical_inputs inputs))).
Proof.
  intros Hw. destruct (supplied_candidates inputs Hw) as [Hk Hc].
  unfold scan_receipt. cbn [pd_candidates pd_path_scope pd_capsec canonical_inputs].
  set (start := mkBreadth (fold_left merge_candidate (set_of (pd_candidates inputs)) []) mandatory_open_items 0 0 0).
  destruct (scan_events_candidates (pd_path_scope inputs) (rcp_events receipt) start _ Hk Hc) as [_ Hcs].
  destruct (scan_events_items (pd_path_scope inputs) (rcp_events receipt) start) as [Hs Hi]; [apply set_of_spec|].
  destruct (closing_items _ (rcp_gaps receipt) (pd_capsec inputs) Hs) as [Hs' Hi'].
  constructor; [exact Hcs|exact Hs'|]. intros item. cbn [br_open_items]. rewrite Hi', Hi. cbn [br_open_items start].
  rewrite mandatory_items, !elem_of_cons, elem_of_nil. unfold event_opens. split.
  - intros [[[->|[->|[->|[->|[]]]]]|(e & He & [[Hn ->]|[[Hn ->]|[Hn ->]]])]|[(gap & Hg & ->)|Hcap]]; by econstructor.
  - intros []; subst; naive_solver.
Qed.

Section draft.
Context `{SerdeWriterLaws}.
Definition draft_members (receipt : DiagnosticReceipt) (inputs : PlanDraftInputs) (cs : list DraftCandidate)
    (items : list OpenItem) : list (string * Json) :=
  [("arguments", json_strings (rcp_arguments receipt));
   ("breadth", Json_Object
     [("broad_roots", Json_U64 (count_if (broad_event (pd_path_scope inputs)) (rcp_events receipt)));
      ("denials", Json_U64 (count_if (fun e => negb (is_returned (outcome e))) (rcp_events receipt)));
      ("suggested_roots", Json_U64 (Z.of_nat (length cs)));
      ("unresolved_events", Json_U64 (count_if (fun e => is_unresolved (resolution e)) (rcp_events receipt)))]);
   ("candidates", Json_Array (map DraftCandidate_to_value cs));
   ("capsec", json_option CapsecInput_to_value (pd_capsec inputs));
   ("diagnostic_receipt_commitment", Json_String (digest_text (rcp_commitment receipt)));
   ("differences", Json_Array (map DraftDifference_to_value (Prelude.sort (pd_differences inputs))));
   ("environment_names", json_strings (rcp_environment_names receipt));
   ("gaps", Json_Array (map (fun gap => Json_String (DiagnosticGap_as_str gap)) (rcp_gaps receipt)));
   ("identified_closure", Json_Array (map IdentifiedClosureEntry_to_value (set_of (pd_identified_closure inputs))));
   ("inputs", Json_Array (map DraftInput_to_value (set_of (pd_inputs inputs))));
   ("open_items", Json_Array (map OpenItem_to_value items));
   ("safe_policy", Json_Bool false);
   ("schema", Json_String PLAN_DRAFT_SCHEMA);
   ("seed_plan", Json_String (digest_text (rcp_seed_plan_digest receipt)));
   ("static_scaffold", json_option (fun digest => Json_String (digest_text digest)) (pd_static_scaffold inputs))].
Definition draft_text (receipt : DiagnosticReceipt) (inputs : PlanDraftInputs) (cs : list DraftCandidate)
    (items : list OpenItem) : list byte := json_text (Json_Object (draft_members receipt inputs cs items)).
Lemma draft_members_sorted receipt inputs cs items : object_sorted (draft_members receipt inputs cs items).
Proof. unfold object_sorted. repeat (constructor; [|repeat constructor]). constructor. Qed.
Lemma breadth_value_exact receipt inputs :
  let st := scan_receipt receipt (canonical_inputs inputs) in
  breadth_value st = Json_Object
     [("broad_roots", Json_U64 (count_if (broad_event (pd_path_scope inputs)) (rcp_events receipt)));
      ("denials", Json_U64 (count_if (fun e => negb (is_returned (outcome e))) (rcp_events receipt)));
      ("suggested_roots", Json_U64 (Z.of_nat (length (br_candidates st).*2)));
      ("unresolved_events", Json_U64 (count_if (fun e => is_unresolved (resolution e)) (rcp_events receipt)))].
Proof.
  intros st. unfold breadth_value, json_object. match goal with |- Json_Object (object_of ?m) = _ => rewrite (object_of_members m m) end;
    [|unfold object_sorted; repeat (constructor; [|repeat constructor]); constructor|done].
  rewrite length_fmap. subst st. unfold scan_receipt. cbn [br_denials br_unresolved br_broad_roots br_candidates].
  edestruct scan_events_counts as (-> & -> & ->). done.
Qed.
Lemma draft_pieces_text receipt inputs :
  let st := scan_receipt receipt (canonical_inputs inputs) in
  pieces_text (draft_pieces receipt (canonical_inputs inputs) st)
  = draft_text receipt inputs (br_candidates st).*2 (br_open_items st).
Proof.
  intros st. unfold draft_text. rewrite text_members by (vm_compute; reflexivity).
  unfold pieces_text, draft_pieces, draft_members. subst st. rewrite breadth_value_exact.
  cbn [map concat piece_text members_text fst snd].
  rewrite !text_bool. change (map ?f (?l.*2)) with (map f (map snd l)). rewrite map_map.
  repeat (cbn [app]; rewrite <- !app_assoc). reflexivity.
Qed.

(** What building computes from well-formed candidates. *)
Lemma build_plan_draft_eq receipt inputs :
  (0 <= rcp_output_bound receipt < u64_bound)%Z -> inputs_ok inputs ->
  let st := scan_receipt receipt (canonical_inputs inputs) in
  let text := draft_text receipt inputs (br_candidates st).*2 (br_open_items st) in
  build_plan_draft receipt inputs
  = if longer_than (br_candidates st).*2 1048576 || longer_than (br_open_items st) 1048576 then Err CollectionBoundExceeded
    else if (Z.of_nat (length text) <=? rcp_output_bound receipt)%Z then Ok (mkPlanDraft text) else Err OutputBoundExceeded.
Proof.
  intros Hb Hok st text. unfold build_plan_draft. rewrite sorted_inputs_canonical, (proj2 (check_inputs_Ok inputs ()) Hok).
  cbn [mbind result_bind]. fold st. unfold longer_than at 3. rewrite length_fmap. fold (longer_than (br_candidates st) 1048576).
  destruct (_ || _); [done|]. rewrite write_document_exact by done. unfold st. rewrite draft_pieces_text.
  fold st. fold text. by destruct (_ <=? _)%Z.
Qed.

(** C13: a plan draft is built exactly from inputs whose every candidate is inside the
    reviewed scope and backed by the closure it claims, when it fits its bounds;
    its bytes are then the canonical text of one JSON object that holds every
    candidate supplied or observed, once per kind and path with all its sources, and
    every open item the receipt leaves, and never a safe policy. *)
Theorem plan_draft_exact receipt inputs draft :
  (0 <= rcp_output_bound receipt < u64_bound)%Z -> Forall candidate_wf (pd_candidates inputs) ->
  build_plan_draft receipt inputs = Ok draft <->
  inputs_ok inputs /\ exists cs items,
    draft_holds receipt inputs cs items
    /\ (Z.of_nat (length cs) <= 1048576)%Z /\ (Z.of_nat (length items) <= 1048576)%Z
    /\ (Z.of_nat (length (draft_text receipt inputs cs items)) <= rcp_output_bound receipt)%Z
    /\ draft = mkPlanDraft (draft_text receipt inputs cs items).
Proof.
  intros Hb Hw. pose proof (scan_receipt_holds receipt inputs Hw) as Hh. split.
  - intros Hd. assert (inputs_ok inputs) as Hok.
    { unfold build_plan_draft in Hd. rewrite sorted_inputs_canonical in Hd.
      apply bind_Ok in Hd as (u & Hc & _). by apply check_inputs_Ok in Hc. }
    split; [done|]. rewrite build_plan_draft_eq in Hd by done. cbv zeta in Hd.
    destruct (longer_than _ _) eqn:H1 in Hd; [done|]. destruct (longer_than _ _) eqn:H2 in Hd; [done|]. cbn [orb] in Hd.
    destruct (_ <=? _)%Z eqn:H3 in Hd; [|done]. injection Hd as <-.
    apply longer_than_false in H1, H2. apply Z.leb_le in H3. do 2 eexists. by split; [exact Hh|].
  - intros (Hok & cs & items & Hh' & H1 & H2 & H3 & ->).
    destruct (draft_holds_unique _ _ _ _ _ _ Hh Hh') as [<- <-]. rewrite build_plan_draft_eq by done. cbv zeta.
    apply longer_than_false in H1, H2. apply Z.leb_le in H3. by rewrite H1, H2, H3.
Qed.

(** C14: every candidate of a draft is a path inside the reviewed scope, and each of
    its sources is the closure entry of that role, a usable Capsec report, or an event of
    the receipt that ran the file or opened it without being able to write. *)
Theorem draft_candidates_justified receipt inputs draft :
  (0 <= rcp_output_bound receipt < u64_bound)%Z -> Forall candidate_wf (pd_candidates inputs) ->
  build_plan_draft receipt inputs = Ok draft ->
  exists cs items, draft_bytes draft = draft_text receipt inputs cs items /\
    forall c p, c ∈ cs -> p ∈ dc_provenance c ->
      (exists scope, pd_path_scope inputs = Some scope /\ DraftPathScope_allows scope (dc_path c) = true)
      /\ match p with
         | HumanAuthored => False
         | DiagnosticRuntimeObservation => exists event, event ∈ rcp_events receipt
             /\ resolved_path event = Some (dc_path c) /\ ~ unresolved_event event
             /\ match dc_kind c with
                | Execute => is_execute (class event) = true
                | Read => is_read_candidate (class event) = true /\ path_event_can_write event = false
                end
         | CapsecSourceObservation => exists capsec, pd_capsec inputs = Some capsec /\ cs_usability capsec = Usable
         | _ => backed (pd_identified_closure inputs) c p
         end.
Proof.
  intros Hb Hw Hd. apply bind_Ok in Hd as Hd'. destruct Hd' as (u & Hok & _).
  rewrite sorted_inputs_canonical in Hok. apply check_inputs_Ok in Hok.
  pose proof (scan_receipt_holds receipt inputs Hw) as Hh. rewrite build_plan_draft_eq in Hd by done. cbv zeta in Hd.
  destruct (_ || _) in Hd; [done|]. destruct (_ <=? _)%Z in Hd; [|done]. injection Hd as <-.
  do 2 eexists. split; [reflexivity|]. intros c p Hc Hp.
  assert (forall scope path, scope_allows scope path = true ->
    exists s, scope = Some s /\ DraftPathScope_allows s path = true) as Hsc by (intros [s|] path Ha; [eauto|done]).
  destruct (proj1 (ca_proposed _ _ (dh_candidates _ _ _ _ Hh) (dc_kind c) (dc_path c) p)) as [(d & Hd & Hk & Hpath & Hpd)|Hobs];
    [by exists c|..].
  - split; [apply Hsc; rewrite <- Hpath; by apply Hok|].
    pose proof (io_backed _ Hok d p Hd Hpd) as Hback. destruct p; try by inversion Hback.
    + inversion Hback as [e|e|e|]; subst. eapply (backed_executable _ _ e); congruence.
    + apply (io_capsec _ Hok). right. by exists d.
    + inversion Hback as [e|e|e|]; subst; [eapply (backed_interpreter _ _ e)|eapply (backed_library _ _ e)]; congruence.
  - destruct Hobs as (-> & e & He & (Hn & Hr & _) & Ha & Hkind). split; [by apply Hsc|]. exists e.
    repeat (split; [done|]). destruct (dc_kind c); tauto.
Qed.

(** A draft does not depend on the order in which its inputs are given, nor on
    repeated inputs, candidates or closure entries. *)
Theorem plan_draft_order receipt inputs inputs' :
  (forall i, i ∈ pd_inputs inputs <-> i ∈ pd_inputs inputs') ->
  (forall c, c ∈ pd_candidates inputs <-> c ∈ pd_candidates inputs') ->
  (forall e, e ∈ pd_identified_closure inputs <-> e ∈ pd_identified_closure inputs') ->
  pd_differences inputs ≡ₚ pd_differences inputs' -> pd_capsec inputs = pd_capsec inputs' ->
  pd_static_scaffold inputs = pd_static_scaffold inputs' -> pd_path_scope inputs = pd_path_scope inputs' ->
  build_plan_draft receipt inputs = build_plan_draft receipt inputs'.
Proof.
  intros H1 H2 H3 H4 H5 H6 H7. unfold build_plan_draft. rewrite !sorted_inputs_canonical. unfold canonical_inputs.
  by rewrite (set_of_unique _ _ H1), (set_of_unique _ _ H2), (set_of_unique _ _ H3), (sort_Permutation _ _ H4), H5, H6, H7.
Qed.
End draft.

(** * The golden draft *)

(** [fixture_scope] of the tests of [draft.rs] *)
Definition fixture_scope : DraftPathScope := mkDraftPathScope ["/workspace"] ["/workspace/.tmp"; "/workspace/user-home"].
Lemma fixture_scope_new :
  DraftPathScope_new ["/workspace"] "/workspace/user-home" ["/workspace/.tmp"] = Ok fixture_scope.
Proof. vm_compute. reflexivity. Qed.
Lemma scope_allows_exact_witness :
  DraftPathScope_allows fixture_scope "/workspace/project/config" = true
  /\ (exists root, root ∈ ["/workspace"] /\ below "/workspace/project/config" root)
  /\ ~ below "/workspace/project/config" "/workspace/user-home".
Proof.
  assert (DraftPathScope_allows fixture_scope "/workspace/project/config" = true) as Ha by (vm_compute; reflexivity).
  destruct (proj1 (scope_allows_exact _ _ _ _ "/workspace/project/config" fixture_scope_new) Ha) as (Hr & Hh & _).
  exact (conj Ha (conj Hr Hh)).
Defined.
(** [path_scope_excludes_nested_system_home_and_temporary_roots], and components
    instead of text *)
Example path_scope_excludes :
  map (DraftPathScope_allows fixture_scope)
    ["/usr/local/lib/runtime.so"; "/workspace/user-home/.ssh/config"; "/workspace/.tmp/cache"; "/workspace/project/config";
     "/workspace/user-homes"; "/workspaces"; "/workspace/../etc"]
  = [false; false; false; true; true; false; false]
  /\ map (fun root => DraftPathScope_new [root] "/workspace/user-home" ["/workspace/.tmp"])
       ["/usr/local/project"; "/workspace/user-home/project"; "/workspace/.tmp/project"; "/workspace/../etc"]
     = replicate 4 (Err PathScopeInvalid).
Proof. vm_compute. split; reflexivity. Qed.

Definition fixture_receipt : DiagnosticReceipt := Eval vm_compute in
  match @DiagnosticReceipt_construct compact_writer fixture_sha256 fixture_parts with
  | Ok receipt => receipt
  | Err _ => mkDiagnosticReceipt [] (fixture_digest 0) (fixture_digest 0) [] [] [] [] 0
  end.
Definition fixture_draft_inputs : PlanDraftInputs := mkPlanDraftInputs None [] None [] [] [] (Some fixture_scope).
(** [aggregate_subject_matches_both_canonical_vectors] *)
Example artifacts_match_vectors :
  @build_diagnostic_artifacts compact_writer fixture_sha256 fixture_parts fixture_draft_inputs
  = Ok (mkDiagnosticArtifacts fixture_receipt (mkPlanDraft plan_draft)).
Proof. vm_compute. reflexivity. Qed.

Definition fixture_tool : IdentifiedClosureEntry :=
  mkIdentifiedClosureEntry Executable "/workspace/tool" (mkContentIdentity (fixture_digest 7) 7) 493 StaticExecutableClosure.
Definition fixture_loader : IdentifiedClosureEntry :=
  mkIdentifiedClosureEntry Interpreter "/workspace/loader" (mkContentIdentity (fixture_digest 9) 9) 493 PlatformRequiredClosure.
Definition fixture_library : IdentifiedClosureEntry :=
  mkIdentifiedClosureEntry RuntimeLibrary "/workspace/libfixture.so" (mkContentIdentity (fixture_digest 8) 8) 420
    PlatformRequiredClosure.
Definition closure_inputs (candidates : list DraftCandidate) (closure : list IdentifiedClosureEntry) : PlanDraftInputs :=
  mkPlanDraftInputs None [] None [] candidates closure (Some fixture_scope).
Definition closure_candidates : list DraftCandidate :=
  [mkDraftCandidate Execute "/workspace/tool" [StaticExecutableClosure];
   mkDraftCandidate Execute "/workspace/loader" [PlatformRequiredClosure];
   mkDraftCandidate Read "/workspace/libfixture.so" [PlatformRequiredClosure]].
Definition fixture_closure : list IdentifiedClosureEntry := [fixture_library; fixture_tool; fixture_loader].
(** The invalid candidates of [draft_preserves_provenance_and_network_non_grant] *)
Example unbacked_candidates_refused :
  map (fun c => @build_plan_draft compact_writer fixture_receipt (closure_inputs [c] fixture_closure))
    [mkDraftCandidate Execute "/workspace/other" [StaticExecutableClosure];
     mkDraftCandidate Read "/workspace/tool" [StaticExecutableClosure];
     mkDraftCandidate Read "/workspace/loader" [PlatformRequiredClosure];
     mkDraftCandidate Execute "/workspace/libfixture.so" [PlatformRequiredClosure]]
  = replicate 4 (Err CandidateInvalid).
Proof. vm_compute. reflexivity. Qed.
Definition closure_draft : list byte := Eval vm_compute in
  match @build_plan_draft compact_writer fixture_receipt (closure_inputs closure_candidates fixture_closure) with
  | Ok draft => draft_bytes draft
  | Err _ => []
  end.
Lemma closure_draft_built :
  @build_plan_draft compact_writer fixture_receipt (closure_inputs closure_candidates fixture_closure)
  = Ok (mkPlanDraft closure_draft).
Proof. vm_compute. reflexivity. Qed.
Lemma closure_candidates_wf : Forall candidate_wf closure_candidates.
Proof. repeat constructor; done. Qed.
Lemma fixture_bound : (0 <= rcp_output_bound fixture_receipt < u64_bound)%Z.
Proof. vm_compute. split; [discriminate|reflexivity]. Qed.

Lemma plan_draft_exact_witness :
  (0 <? Z.of_nat (length closure_draft))%Z = true /\ inputs_ok (closure_inputs closure_candidates fixture_closure).
Proof.
  split; [vm_compute; reflexivity|].
  exact (proj1 (proj1 (@plan_draft_exact compact_writer compact_laws fixture_receipt
    (closure_inputs closure_candidates fixture_closure) _ fixture_bound closure_candidates_wf)
    closure_draft_built)).
Defined.
Lemma draft_candidates_justified_witness :
  exists cs items, closure_draft
    = @draft_text compact_writer fixture_receipt (closure_inputs closure_candidates fixture_closure) cs items
    /\ Forall (fun c => DraftPathScope_allows fixture_scope (dc_path c) = true \/ dc_provenance c = []) cs.
Proof.
  destruct (@draft_candidates_justified compact_writer compact_laws fixture_receipt
    (closure_inputs closure_candidates fixture_closure) _ fixture_bound closure_candidates_wf
    closure_draft_built) as (cs & items & Ht & Hc). exists cs, items. split; [exact Ht|].
  apply Forall_forall. intros c Hin. destruct (dc_provenance c) as [|p l] eqn:Hp; [by right|]. left.
  destruct (Hc c p Hin) as [(scope & [= <-] & Ha) _]; [rewrite Hp; left|exact Ha].
Defined.
Lemma plan_draft_order_witness :
  @build_plan_draft compact_writer fixture_receipt
    (closure_inputs (reverse closure_candidates ++ closure_candidates) (fixture_closure ++ [fixture_tool]))
  = Ok (mkPlanDraft closure_draft).
Proof.
  rewrite <- closure_draft_built. apply plan_draft_order; try reflexivity.
  - intros c. unfold closure_inputs. cbn [pd_candidates]. rewrite elem_of_app, elem_of_reverse. tauto.
  - intros e. unfold closure_inputs. cbn [pd_identified_closure]. rewrite elem_of_app, list_elem_of_singleton.
    split; [intros [?| ->]; [done|]; unfold fixture_closure; set_solver|by left].
Defined.
