(* ===== verification/System.v ===== *)
(** System calls: the wrappers of [proofbound-runtime-linux/src/sys.rs] that the
    launcher uses.  The kernel is not source: it is any function of the calls made
    so far and the next call, and a computation appends the calls it makes, with
    their replies, to a history.  Nothing is assumed of the replies; a theorem
    speaks of the calls in the history, their order and the replies they got. *)
From S2P Require Import Prelude.
From S2P Require Seccomp.
From Stdlib Require Import Ascii ZArith Lia Sorted.
From stdpp Require Import prelude strings list numbers.
Export stdpp.list_relations.list.

(** The words of [CapabilityData] and [std::fs::Metadata] that the code reads. *)
Record CapabilityData := mkCapabilityData { cd_effective : Z; cd_permitted : Z; cd_inheritable : Z }.
Definition CapabilityData_default : CapabilityData := mkCapabilityData 0 0 0.
Inductive FileKind := Regular | Directory | Symlink | OtherFile.
#[global] Instance FileKind_eq_dec : EqDecision FileKind.
Proof. solve_decision. Defined.
Record Metadata := mkMetadata {
  md_kind : FileKind;
  md_dev : Z; md_ino : Z; md_len : Z; md_mode : Z;
  md_mtime : Z; md_mtime_nsec : Z; md_ctime : Z; md_ctime_nsec : Z
}.
#[global] Instance Metadata_eq_dec : EqDecision Metadata.
Proof. solve_decision. Defined.
Definition is_dir (m : Metadata) : bool := bool_decide (md_kind m = Directory).
Definition is_file (m : Metadata) : bool := bool_decide (md_kind m = Regular).
Definition is_symlink (m : Metadata) : bool := bool_decide (md_kind m = Symlink).

(** A call and the type of its reply: the returned integer and what the kernel
    writes, or an [option] for an operation of the standard library whose error the
    code drops.  [Close] is the drop of an owned descriptor. *)
Inductive Sys : Type -> Type :=
| Raise_stop : Sys Z
| Write (descriptor : Z) (bytes : list byte) : Sys Z
| Read (descriptor size : Z) : Sys (Z * list byte)
| Fcntl_dup (descriptor minimum : Z) : Sys Z
| Fcntl_close_on_exec (descriptor : Z) : Sys Z
| Close (descriptor : Z) : Sys ()
| Close_inherited (descriptor : Z) : Sys Z
| Socketpair (kind : Z) : Sys (Z * (Z * Z))
| Poll (descriptor milliseconds : Z) : Sys Z
| Close_range (first last : Z) : Sys Z
| Getresuid : Sys (Z * (Z * Z * Z))
| Getresgid : Sys (Z * (Z * Z * Z))
| Capget (version pid : Z) : Sys (Z * (CapabilityData * CapabilityData))
| Capset (version pid : Z) (data : CapabilityData * CapabilityData) : Sys Z
| Prctl (option argument : Z) (argument3 : Z) : Sys Z
| Landlock_create_ruleset (handled_access_fs : Z) : Sys Z
| Landlock_add_rule (ruleset kind parent allowed_access : Z) : Sys Z
| Landlock_restrict_self (ruleset : Z) : Sys Z
| Seccomp_filter (operation flags : Z) (program : list Seccomp.BpfInstruction) : Sys Z
| Fchdir (descriptor : Z) : Sys Z
| Execveat (descriptor : Z) (path : list byte) (arguments environment : list (list byte)) : Sys (Z * Z)
| Try_clone (descriptor : Z) : Sys (option Z)
| File_metadata (descriptor : Z) : Sys (option Metadata)
| File_read_at (descriptor size offset : Z) : Sys (option (list byte))
| Read_to_string (path : string) : Sys (option string).

Inductive Event := | event {R : Type} (c : Sys R) (reply : R).
Definition History : Type := list Event.
Class Kernel := reply : forall R, History -> Sys R -> R.

Section system.
Context `{Kernel}.

Definition syscall {E R} (c : Sys R) : eff History E R := fun h =>
  let r := reply R h c in (Ok r, h ++ [event c r]).
(** [if result == 0 { Ok(()) } else { Err(last_os_error()) }] *)
Definition check_zero (c : Sys Z) : eff History () () :=
  result ← syscall c; if (result =? 0)%Z then mret () else throw ().
(** An owned descriptor is closed when it is dropped, whatever the result. *)
Definition dropping {E A} (descriptor : Z) (m : eff History E A) : eff History E A := fun h =>
  let '(r, h) := m h in
  let '(_, h) := syscall (E := ()) (Close descriptor) h in (r, h).
(** [.map_err(|_| error)] of an [io::Result]. *)
Definition io_err {E A} (error : E) (m : eff History () A) : eff History E A := fun h =>
  let '(r, h) := m h in (map_err (fun _ => error) r, h).
(** A computation that does not panic, among those that may. *)
Definition may_fail {E A} (m : eff History E A) : eff History (fault E) A := fun h =>
  let '(r, h) := m h in (lift_fault r, h).
(** [.map_err(|_| error)?] of an operation of the standard library. *)
Definition std_call {E R} (c : Sys (option R)) (error : E) : eff History E R :=
  r ← syscall c; lift_result (ok_or r error).

Definition pause_current_process : eff History () () := check_zero Raise_stop.
Definition F_DUPFD_MINIMUM : Z := 3.
Definition duplicate_descriptor (descriptor : Z) : eff History () Z :=
  duplicate ← syscall (Fcntl_dup descriptor F_DUPFD_MINIMUM);
  if (duplicate <? 0)%Z then throw () else mret duplicate.
Definition set_descriptor_close_on_exec (descriptor : Z) : eff History () () :=
  check_zero (Fcntl_close_on_exec descriptor).
Definition take_inherited_descriptor (descriptor : Z) : eff History () Z :=
  duplicate ← duplicate_descriptor descriptor;
  result ← syscall (Close_inherited descriptor);
  if (result =? 0)%Z then mret duplicate else dropping duplicate (throw ()).

Definition SOCK_SEQPACKET_CLOEXEC : Z := Z.lor 5 0x80000.
Definition private_socket_pair : eff History () (Z * Z) :=
  '(result, descriptors) ← syscall (Socketpair SOCK_SEQPACKET_CLOEXEC);
  if negb (result =? 0)%Z then throw () else mret descriptors.
Definition send_packet (descriptor : Z) (bytes : list byte) : eff History () () :=
  written ← syscall (Write descriptor bytes);
  if (written <? 0)%Z then throw ()
  else if (written =? Z.of_nat (length bytes))%Z then mret () else throw ().
(** The first [received] bytes of a zeroed buffer of [size] bytes, into which the
    kernel wrote [bytes]. *)
Definition buffer_prefix (size received : Z) (bytes : list byte) : list byte :=
  let n := Z.to_nat received in
  take n (take (Z.to_nat size) bytes ++ replicate (n - length bytes) (mkb 0)).
(** [receive_packet] into a zeroed buffer: the length and that much of the buffer. *)
Definition receive_packet (descriptor size : Z) : eff History () (Z * list byte) :=
  '(received, bytes) ← syscall (Read descriptor size);
  if (received <? 0)%Z then throw () else mret (received, buffer_prefix size received bytes).
(** The timeout is a number of milliseconds. *)
Definition wait_readable (descriptor timeout : Z) : eff History () bool :=
  result ← syscall (Poll descriptor (Z.min timeout 2147483647));
  if (result <? 0)%Z then throw () else mret (0 <? result)%Z.

Definition close_descriptor_range (first last : Z) : eff History () () := check_zero (Close_range first last).
Definition U32_MAX : Z := 4294967295.
Fixpoint close_gaps (keep : list Z) (first : Z) : eff History () () :=
  match keep with
  | [] => close_descriptor_range first U32_MAX
  | descriptor :: keep =>
    _ ← (if (first <? descriptor)%Z then close_descriptor_range first (descriptor - 1) else mret ());
    match u32_try_from (descriptor + 1) with
    | None => throw ()
    | Some first => close_gaps keep first
    end
  end.
Definition close_descriptors_except (keep : list Z) : eff History () () :=
  keep ← lift_result (mapM (fun descriptor => ok_or (u32_try_from descriptor) ()) keep);
  let keep := dedup_by (fun a b => bool_decide (a = b)) (Prelude.sort keep) in
  if existsb (fun descriptor => descriptor <? 3)%Z keep then throw () else close_gaps keep 3.

Definition change_directory (descriptor : Z) : eff History () () := check_zero (Fchdir descriptor).
(** With the error number of a failure. *)
Definition execveat (descriptor : Z) (arguments environment : list (list byte)) : eff History Z () :=
  '(result, errno) ← syscall (Execveat descriptor [] arguments environment);
  if (result =? 0)%Z then mret () else throw errno.

Definition PR_CAP_AMBIENT : Z := 47.
Definition PR_CAP_AMBIENT_IS_SET : Z := 1.
Definition PR_CAP_AMBIENT_CLEAR_ALL : Z := 4.
Definition PR_SET_NO_NEW_PRIVS : Z := 38.
Definition PR_GET_NO_NEW_PRIVS : Z := 39.
Definition LINUX_CAPABILITY_VERSION_3 : Z := 0x20080522.
Definition set_no_new_privileges : eff History () () := check_zero (Prctl PR_SET_NO_NEW_PRIVS 1 0).
(** [match result { 0 => Ok(false), 1 => Ok(true), _ => Err(_) }] *)
Definition prctl_flag (option argument argument3 : Z) : eff History () bool :=
  result ← syscall (Prctl option argument argument3);
  if (result =? 0)%Z then mret false else if (result =? 1)%Z then mret true else throw ().
Definition no_new_privileges_enabled : eff History () bool := prctl_flag PR_GET_NO_NEW_PRIVS 0 0.
Definition process_ids : eff History () (Z * Z * Z * (Z * Z * Z)) :=
  '(result, uids) ← syscall Getresuid;
  if negb (result =? 0)%Z then throw ()
  else
    '(result, gids) ← syscall Getresgid;
    if negb (result =? 0)%Z then throw () else mret (uids, gids).
Record CapabilitySets := mkCapabilitySets { cs_effective : Z; cs_permitted : Z; cs_inheritable : Z }.
(** [u64::from(low) | u64::from(high) << 32] *)
Definition capability_word (low high : Z) : Z := Z.lor low (Z.shiftl high 32).
Definition capability_sets : eff History () CapabilitySets :=
  '(result, (low, high)) ← syscall (Capget LINUX_CAPABILITY_VERSION_3 0);
  if negb (result =? 0)%Z then throw ()
  else mret (mkCapabilitySets (capability_word (cd_effective low) (cd_effective high))
               (capability_word (cd_permitted low) (cd_permitted high))
               (capability_word (cd_inheritable low) (cd_inheritable high))).
Definition clear_capability_sets : eff History () () :=
  check_zero (Capset LINUX_CAPABILITY_VERSION_3 0 (CapabilityData_default, CapabilityData_default)).
Definition clear_ambient_capabilities : eff History () () :=
  check_zero (Prctl PR_CAP_AMBIENT PR_CAP_AMBIENT_CLEAR_ALL 0).
Definition ambient_capability_is_set (capability : Z) : eff History () bool :=
  prctl_flag PR_CAP_AMBIENT PR_CAP_AMBIENT_IS_SET capability.

Definition LANDLOCK_RULE_PATH_BENEATH : Z := 1.
Definition create_landlock_ruleset (handled_access_fs : Z) : eff History () Z :=
  descriptor ← syscall (Landlock_create_ruleset handled_access_fs);
  if (descriptor <? 0)%Z then throw ()
  else if (2147483647 <? descriptor)%Z then throw () else mret descriptor.
Definition add_landlock_path_rule (ruleset parent allowed_access : Z) : eff History () () :=
  check_zero (Landlock_add_rule ruleset LANDLOCK_RULE_PATH_BENEATH parent allowed_access).
Definition restrict_with_landlock (ruleset : Z) : eff History () () := check_zero (Landlock_restrict_self ruleset).

(** The kernel as [Seccomp] uses it.  There [PR_GET_SECCOMP] is a look at the kernel
    without a step of its own, so it is answered after the calls so far and does not
    enter the history. *)
Definition PR_GET_SECCOMP : Z := 21.
#[export] Instance system_seccomp : Seccomp.SeccompKernel History := {
  sys_seccomp operation flags program h :=
    let r := reply Z h (Seccomp_filter operation flags program) in
    (r, h ++ [event (Seccomp_filter operation flags program) r]);
  prctl_get_seccomp h := reply Z h (Prctl PR_GET_SECCOMP 0 0)
}.
End system.

(** * Successful runs

    [succeeds m P]: [m] returns [Ok a] exactly when the kernel answers the calls of
    some list [es] with [P a es]. *)

Section runs.
Context `{Kernel}.

Fixpoint answered (h : History) (es : list Event) : Prop :=
  match es with
  | [] => True
  | @event R c r as e :: es => reply R h c = r /\ answered (h ++ [e]) es
  end.
Definition succeeds {E A} (m : eff History E A) (P : A -> list Event -> Prop) : Prop :=
  forall h a h', m h = (Ok a, h') <-> exists es, h' = h ++ es /\ answered h es /\ P a es.

Lemma answered_app h xs ys : answered h (xs ++ ys) <-> answered h xs /\ answered (h ++ xs) ys.
Proof.
  revert h. induction xs as [|[R c r] xs IH]; intros h; cbn; [rewrite app_nil_r; tauto|].
  rewrite IH, <- app_assoc. cbn. tauto.
Qed.
Lemma succeeds_iff {E A} (m : eff History E A) P Q :
  succeeds m P -> (forall a es, P a es <-> Q a es) -> succeeds m Q.
Proof. intros Hm Hpq h a h'. rewrite (Hm h a h'). by setoid_rewrite Hpq. Qed.
Lemma succeeds_ret {E A} (x : A) : succeeds (mret x : eff History E A) (fun a es => a = x /\ es = []).
Proof.
  intros h a h'. split; [intros [= <- <-]; exists []; by rewrite app_nil_r|]. intros (es & -> & _ & -> & ->). by rewrite app_nil_r.
Qed.
Lemma succeeds_lift {E A} (m : result E A) : succeeds (lift_result m) (fun a es => m = Ok a /\ es = []).
Proof.
  intros h a h'. split; [intros [= -> <-]; exists []; by rewrite app_nil_r|]. intros (es & -> & _ & -> & ->). by rewrite app_nil_r.
Qed.
Lemma succeeds_throw {E A} (e : E) : succeeds (throw e : eff History E A) (fun _ _ => False).
Proof. intros h a h'. split; [done|]. by intros (? & _ & _ & []). Qed.
Lemma succeeds_syscall {E R} (c : Sys R) : succeeds (syscall c : eff History E R) (fun a es => es = [event c a]).
Proof.
  intros h a h'. unfold syscall. split.
  - intros [= <- <-]. exists [event c (reply R h c)]. done.
  - intros (es & -> & Ha & ->). destruct Ha as [Ha _]. by rewrite Ha.
Qed.
Lemma succeeds_bind {E A B} (m : eff History E A) (f : A -> eff History E B) P Q :
  succeeds m P -> (forall a, succeeds (f a) (Q a)) ->
  succeeds (m ≫= f) (fun b es => exists a xs ys, es = xs ++ ys /\ P a xs /\ Q a b ys).
Proof.
  unfold succeeds. intros Hm Hf h b h'. rewrite eff_bind_Ok. split.
  - intros (a & h1 & (xs & -> & Hx & Hp)%Hm & (ys & -> & Hy & Hq)%Hf). exists (xs ++ ys). rewrite app_assoc, answered_app.
    split; [done|]. split; [done|]. by exists a, xs, ys.
  - intros (es & -> & Ha & a & xs & ys & -> & Hp & Hq). apply answered_app in Ha as [Hx Hy]. exists a, (h ++ xs).
    split; [apply Hm; by exists xs|]. apply Hf. exists ys. by rewrite app_assoc.
Qed.
Lemma succeeds_io {E A} (e : E) (m : eff History () A) P : succeeds m P -> succeeds (io_err e m) P.
Proof.
  intros Hm h a h'. rewrite <- (Hm h a h'). unfold io_err. destruct (m h) as [[x|[]] h1]; cbn; naive_solver.
Qed.
Lemma succeeds_dropping {E A} (descriptor : Z) (m : eff History E A) P :
  succeeds m P -> succeeds (dropping descriptor m) (fun a es => exists xs, es = xs ++ [event (Close descriptor) ()] /\ P a xs).
Proof.
  unfold succeeds. intros Hm h a h'. unfold dropping. pose proof (Hm h) as Hh. destruct (m h) as [r h1] eqn:Hr. unfold syscall. split.
  - intros [= -> <-]. destruct (proj1 (Hh a h1) eq_refl) as (xs & -> & Hx & Hp).
    exists (xs ++ [event (Close descriptor) ()]). rewrite app_assoc, answered_app.
    destruct (reply _ _ (Close descriptor)). repeat split; try done; [by cbn; destruct (reply _ _ _)|]. by exists xs.
  - intros (es & -> & Ha & xs & -> & Hp). apply answered_app in Ha as [Hx _].
    assert ((r, h1) = (Ok a, h ++ xs)) as [= -> ->] by (apply Hh; by exists xs). rewrite <- app_assoc.
    by destruct (reply _ _ _).
Qed.
Lemma succeeds_if {E A} (b : bool) (m n : eff History E A) P Q :
  succeeds m P -> succeeds n Q -> succeeds (if b then m else n) (fun a es => if b then P a es else Q a es).
Proof. by destruct b. Qed.
Lemma succeeds_zero (c : Sys Z) : succeeds (check_zero c) (fun _ es => es = [event c 0%Z]).
Proof.
  intros h [] h'. unfold check_zero, syscall, mbind, eff_bind. cbn. split.
  - destruct (Z.eqb_spec (reply Z h c) 0) as [He|]; [|done]. intros [= <-]. rewrite He. exists [event c 0%Z]. done.
  - intros (es & -> & Ha & ->). destruct Ha as [-> _]. done.
Qed.
Lemma succeeds_std {E R} (c : Sys (option R)) (error : E) : succeeds (std_call c error) (fun a es => es = [event c (Some a)]).
Proof.
  eapply succeeds_iff; [eapply succeeds_bind; [apply succeeds_syscall|intros r; apply succeeds_lift]|]. cbn.
  intros a es. split.
  - intros (r & xs & ys & -> & -> & ->%ok_or_Ok & ->). done.
  - intros ->. by exists (Some a), [event c (Some a)], [].
Qed.
(** A call whose reply [r] is acceptable as [a]. *)
Lemma succeeds_call {E R A} (c : Sys R) (f : R -> eff History E A) (P : R -> A -> Prop) :
  (forall r, succeeds (f r) (fun a es => P r a /\ es = [])) ->
  succeeds (r ← syscall c; f r) (fun a es => exists r, P r a /\ es = [event c r]).
Proof.
  intros Hf. eapply succeeds_iff; [eapply succeeds_bind; [apply succeeds_syscall|exact Hf]|]. cbn.
  intros a es. split.
  - intros (r & xs & ys & -> & -> & Hp & ->). by exists r.
  - intros (r & Hp & ->). by exists r, [event c r], [].
Qed.
Lemma succeeds_ret_if {E A} (b : bool) (x : A) (e : E) :
  succeeds (if b then throw e else mret x) (fun a es => (b = false /\ a = x) /\ es = []).
Proof.
  eapply succeeds_iff; [apply succeeds_if; [apply succeeds_throw|apply succeeds_ret]|]. cbn. intros a es. destruct b; naive_solver.
Qed.
Lemma succeeds_flag option argument argument3 :
  succeeds (prctl_flag option argument argument3) (fun b es => es = [event (Prctl option argument argument3) (Z.b2z b)]).
Proof.
  eapply succeeds_iff; [apply (succeeds_call _ _ (fun r b => r = Z.b2z b))|].
  - intros r. eapply succeeds_iff; [apply succeeds_if; [apply succeeds_ret|apply succeeds_if; [apply succeeds_ret|apply succeeds_throw]]|].
    cbn. intros b es. destruct (Z.eqb_spec r 0) as [->|]; [destruct b; naive_solver|].
    destruct (Z.eqb_spec r 1) as [->|]; destruct b; cbn; naive_solver.
  - intros b es. naive_solver.
Qed.
Lemma succeeds_dup descriptor : succeeds (duplicate_descriptor descriptor)
  (fun d es => (0 <= d)%Z /\ es = [event (Fcntl_dup descriptor F_DUPFD_MINIMUM) d]).
Proof.
  eapply succeeds_iff; [apply (succeeds_call _ _ (fun r d => (r <? 0)%Z = false /\ d = r)); intros r; apply succeeds_ret_if|].
  intros d es. cbn. setoid_rewrite Z.ltb_ge. naive_solver.
Qed.
Lemma succeeds_process_ids : succeeds process_ids
  (fun ids es => es = [event Getresuid (0%Z, ids.1); event Getresgid (0%Z, ids.2)]).
Proof.
  intros h [u g] h'. unfold process_ids, syscall, mbind, eff_bind. cbn. split.
  - destruct (reply _ h Getresuid) as [r uids] eqn:Hu. destruct (Z.eqb_spec r 0) as [->|]; cbn; [|done].
    destruct (reply _ _ Getresgid) as [r gids] eqn:Hg. destruct (Z.eqb_spec r 0) as [->|]; cbn; [|done].
    intros [= <- <- <-]. eexists. split; [by rewrite <- app_assoc|]. cbn. done.
  - intros (es & -> & Ha & ->). destruct Ha as (Hu & Hg & _). rewrite Hu. cbn. rewrite Hg. cbn. by rewrite <- app_assoc.
Qed.
Definition sets_of (low high : CapabilityData) : CapabilitySets :=
  mkCapabilitySets (capability_word (cd_effective low) (cd_effective high))
    (capability_word (cd_permitted low) (cd_permitted high)) (capability_word (cd_inheritable low) (cd_inheritable high)).
Lemma succeeds_capability_sets : succeeds capability_sets (fun s es => exists low high,
  s = sets_of low high /\ es = [event (Capget LINUX_CAPABILITY_VERSION_3 0) (0%Z, (low, high))]).
Proof.
  eapply succeeds_iff; [apply (succeeds_call _ _ (fun r s => r.1 = 0%Z /\ s = sets_of r.2.1 r.2.2))|].
  - intros [r [low high]]. eapply succeeds_iff; [apply succeeds_ret_if|]. cbn. intros s es.
    rewrite negb_false_iff, Z.eqb_eq. done.
  - intros s es. cbn. split; [intros ([r [low high]] & [Hr ->] & ->); cbn in Hr; subst r; by exists low, high|].
    intros (low & high & -> & ->). by exists (0%Z, (low, high)).
Qed.

Lemma succeeds_fault {E A} (m : eff History E A) P : succeeds m P -> succeeds (may_fail m) P.
Proof. intros Hm h a h'. rewrite <- (Hm h a h'). unfold may_fail. destruct (m h) as [[x|e] h1]; cbn; naive_solver. Qed.
End runs.

(** * What a run ensures, and the calls that it makes in any case *)

Section ensures.
Context `{Kernel}.

(** [P h a es]: what holds of the calls [es] when [m] returns [Ok a] after [h]. *)
Definition ensures {E A} (m : eff History E A) (P : History -> A -> list Event -> Prop) : Prop :=
  forall h a h', m h = (Ok a, h') -> exists es, h' = h ++ es /\ answered h es /\ P h a es.
Lemma ensures_succeeds {E A} (m : eff History E A) P : succeeds m P -> ensures m (fun _ => P).
Proof. intros Hm h a h'. apply (Hm h a h'). Qed.
Lemma ensures_weaken {E A} (m : eff History E A) P Q :
  ensures m P -> (forall h a es, P h a es -> Q h a es) -> ensures m Q.
Proof. intros Hm Hpq h a h' (es & -> & Ha & Hp)%Hm. exists es. auto. Qed.
Lemma ensures_ret {E A} (x : A) : ensures (mret x : eff History E A) (fun _ a es => a = x /\ es = []).
Proof. apply ensures_succeeds, succeeds_ret. Qed.
Lemma ensures_lift {E A} (m : result E A) : ensures (lift_result m) (fun _ a es => m = Ok a /\ es = []).
Proof. apply ensures_succeeds, succeeds_lift. Qed.
Lemma ensures_throw {E A} (e : E) P : ensures (throw e : eff History E A) P.
Proof. by intros h a h'. Qed.
Lemma ensures_bind {E A B} (m : eff History E A) (f : A -> eff History E B) P Q :
  ensures m P -> (forall a, ensures (f a) (Q a)) ->
  ensures (m ≫= f) (fun h b es => exists a xs ys, es = xs ++ ys /\ P h a xs /\ Q a (h ++ xs) b ys).
Proof.
  intros Hm Hf h b h'. rewrite eff_bind_Ok. intros (a & h1 & (xs & -> & Hx & Hp)%Hm & (ys & -> & Hy & Hq)%Hf).
  exists (xs ++ ys). rewrite app_assoc, answered_app. split; [done|]. split; [done|]. by exists a, xs, ys.
Qed.

Lemma ensures_bind_pair {E A1 A2 B} (m : eff History E (A1 * A2)) (f : A1 * A2 -> eff History E B) P Q :
  ensures m P -> (forall a1 a2, ensures (f (a1, a2)) (Q a1 a2)) ->
  ensures (m ≫= f) (fun h b es => exists a1 a2 xs ys, es = xs ++ ys /\ P h (a1, a2) xs /\ Q a1 a2 (h ++ xs) b ys).
Proof.
  intros Hm Hf. eapply ensures_weaken.
  - apply (ensures_bind m f P (fun a => Q a.1 a.2) Hm). intros [a1 a2]. apply Hf.
  - cbn beta. intros h b es ([a1 a2] & xs & ys & He & Hp & Hq). by exists a1, a2, xs, ys.
Qed.
Lemma ensures_if {E A} (b : bool) (m n : eff History E A) P Q :
  ensures m P -> ensures n Q -> ensures (if b then m else n) (fun h a es => if b then P h a es else Q h a es).
Proof. by destruct b. Qed.
Lemma ensures_dropping {E A} (descriptor : Z) (m : eff History E A) P :
  ensures m P -> ensures (dropping descriptor m) (fun h a es => exists xs, es = xs ++ [event (Close descriptor) ()] /\ P h a xs).
Proof.
  unfold ensures. intros Hm h a h'. unfold dropping. specialize (Hm h). destruct (m h) as [r h1]. unfold syscall.
  intros [= -> <-]. destruct (Hm _ _ eq_refl) as (xs & -> & Hx & Hp). exists (xs ++ [event (Close descriptor) ()]).
  rewrite app_assoc, answered_app. destruct (reply _ _ (Close descriptor)).
  repeat split; try done; [by cbn; destruct (reply _ _ _)|]. by exists xs.
Qed.

(** [execveat] is the only call that can start another program. *)
Definition starts {R} (c : Sys R) : bool := match c with Execveat _ _ _ _ => true | _ => false end.
Definition starts_program (e : Event) : bool := match e with event c _ => starts c end.
(** Whatever the kernel answers, the calls of [m] start no program. *)
Definition quiet {E A} (m : eff History E A) : Prop :=
  forall h, exists es, (m h).2 = h ++ es /\ answered h es /\ Forall (fun e => starts_program e = false) es.
Lemma quiet_ret {E A} (x : A) : quiet (mret x : eff History E A).
Proof. intros h. exists []. by rewrite app_nil_r. Qed.
Lemma quiet_lift {E A} (m : result E A) : quiet (lift_result m).
Proof. intros h. exists []. by rewrite app_nil_r. Qed.
Lemma quiet_throw {E A} (e : E) : quiet (throw e : eff History E A).
Proof. intros h. exists []. by rewrite app_nil_r. Qed.
Lemma quiet_syscall {E R} (c : Sys R) : starts c = false -> quiet (syscall c : eff History E R).
Proof. intros Hc h. exists [event c (reply R h c)]. split; [done|]. split; [done|]. by repeat constructor. Qed.
Lemma quiet_bind {E A B} (m : eff History E A) (f : A -> eff History E B) :
  quiet m -> (forall a, quiet (f a)) -> quiet (m ≫= f).
Proof.
  intros Hm Hf h. destruct (Hm h) as (xs & Hx & Ax & Qx). unfold mbind, eff_bind. destruct (m h) as [[a|e] h1]; cbn in Hx; subst h1.
  - destruct (Hf a (h ++ xs)) as (ys & -> & Ay & Qy). exists (xs ++ ys). rewrite app_assoc, answered_app. repeat split; try done.
    by apply Forall_app.
  - by exists xs.
Qed.
(** A wrapper that only changes the result. *)
Lemma quiet_map {E F A B} (m : eff History E A) (f : result E A -> result F B) :
  quiet m -> quiet (fun h => let '(r, h) := m h in (f r, h)).
Proof. intros Hm h. destruct (Hm h) as (es & He & Hrest). destruct (m h) as [r h1]. cbn in *. by exists es. Qed.
Lemma quiet_after {E F A B} (m : eff History E A) (f : result E A -> eff History F B) :
  quiet m -> (forall r, quiet (f r)) -> quiet (fun h => let '(r, h) := m h in f r h).
Proof.
  intros Hm Hf h. destruct (Hm h) as (xs & Hx & Ax & Qx). destruct (m h) as [r h1]; cbn in Hx; subst h1.
  destruct (Hf r (h ++ xs)) as (ys & -> & Ay & Qy). exists (xs ++ ys). rewrite app_assoc, answered_app. repeat split; try done.
  by apply Forall_app.
Qed.
Lemma quiet_io {E A} (e : E) (m : eff History () A) : quiet m -> quiet (io_err e m).
Proof. apply quiet_map. Qed.
Lemma quiet_fault {E A} (m : eff History E A) : quiet m -> quiet (may_fail m).
Proof. apply quiet_map. Qed.
Lemma quiet_dropping {E A} (descriptor : Z) (m : eff History E A) : quiet m -> quiet (dropping descriptor m).
Proof.
  intros Hm. apply (quiet_after m (fun r h => let '(_, h) := syscall (E := ()) (Close descriptor) h in (r, h)) Hm).
  intros r. apply (quiet_after (syscall (E := ()) (Close descriptor)) (fun _ h => (r, h))); [by apply quiet_syscall|].
  intros _ h. exists []. by rewrite app_nil_r.
Qed.
End ensures.

Create HintDb quiet.
(** Quietness follows the text of the computation. *)
Ltac quietly := repeat first
  [ apply quiet_ret | apply quiet_throw | apply quiet_lift | apply quiet_io | apply quiet_fault | apply quiet_dropping
  | apply quiet_syscall; reflexivity | solve [auto with quiet nocore]
  | match goal with
    | |- quiet (if ?b then _ else _) => destruct b
    | |- quiet (match ?x with _ => _ end) => destruct x
    end
  | apply quiet_bind; [|intros ?] ].

Section wrappers.
Context `{Kernel}.
Lemma quiet_zero (c : Sys Z) : starts c = false -> quiet (check_zero c).
Proof. intros Hc. unfold check_zero. apply quiet_bind; [by apply quiet_syscall|]. intros r. quietly. Qed.
Lemma quiet_std {E R} (c : Sys (option R)) (error : E) : starts c = false -> quiet (std_call c error).
Proof. intros Hc. unfold std_call. apply quiet_bind; [by apply quiet_syscall|]. intros r. quietly. Qed.
Lemma quiet_dup descriptor : quiet (duplicate_descriptor descriptor).
Proof. unfold duplicate_descriptor. quietly. Qed.
Lemma quiet_send descriptor bytes : quiet (send_packet descriptor bytes).
Proof. unfold send_packet. quietly. Qed.
Lemma quiet_receive descriptor size : quiet (receive_packet descriptor size).
Proof. unfold receive_packet. quietly. Qed.
Lemma quiet_gaps keep first : quiet (close_gaps keep first).
Proof.
  revert first. induction keep as [|d keep IH]; intros first; cbn [close_gaps]; [by apply quiet_zero|].
  apply quiet_bind; [destruct (_ <? _)%Z; [by apply quiet_zero|apply quiet_ret]|]. intros _. quietly; apply IH.
Qed.
Lemma quiet_close_except keep : quiet (close_descriptors_except keep).
Proof. unfold close_descriptors_except. quietly. apply quiet_gaps. Qed.
End wrappers.
#[export] Hint Resolve quiet_dup quiet_send quiet_receive quiet_close_except : quiet.
#[export] Hint Extern 1 (quiet (check_zero _)) => apply quiet_zero; reflexivity : quiet.
#[export] Hint Extern 1 (quiet (std_call _ _)) => apply quiet_std; reflexivity : quiet.
