(* ===== verification/Privilege.v ===== *)
(** Removal of privileges: [proofbound-runtime-linux/src/privilege.rs].  The launcher
    locks itself before it installs any boundary: it inspects its identity, clears
    its capabilities, sets [no_new_privs] and reads everything back. *)
From S2P Require Import Prelude System.
From Stdlib Require Import Ascii ZArith Lia Sorted.
From stdpp Require Import prelude strings list numbers.
Export stdpp.list_relations.list.

Record LockedPrivileges := mkLockedPrivileges { user_id : Z; group_id : Z }.
Inductive PrivilegeError :=
| UnsupportedOperatingSystem | InspectionUnavailable | RootIdentity | IdentityMismatch | IdentityDrift
| AmbientClearFailed | CapabilityDropFailed | CapabilityVerificationFailed | NoNewPrivilegesInstallFailed
| NoNewPrivilegesVerificationFailed.
#[global] Instance PrivilegeError_eq_dec : EqDecision PrivilegeError.
Proof. solve_decision. Defined.
Definition PrivilegeError_code (e : PrivilegeError) : string :=
  match e with
  | UnsupportedOperatingSystem => "privilege.os.unsupported"
  | InspectionUnavailable => "privilege.inspection.unavailable"
  | RootIdentity => "privilege.identity.root"
  | IdentityMismatch => "privilege.identity.mismatch"
  | IdentityDrift => "privilege.identity.drift"
  | AmbientClearFailed => "privilege.ambient.clear-failed"
  | CapabilityDropFailed => "privilege.capability.drop-failed"
  | CapabilityVerificationFailed => "privilege.capability.verification-failed"
  | NoNewPrivilegesInstallFailed => "privilege.no-new-privileges.install-failed"
  | NoNewPrivilegesVerificationFailed => "privilege.no-new-privileges.verification-failed"
  end.

Record IdentitySnapshot := mkIdentitySnapshot {
  real_uid : Z; effective_uid : Z; saved_uid : Z;
  real_gid : Z; effective_gid : Z; saved_gid : Z;
  capabilities : CapabilitySets;
  ambient_any : bool;
  no_new_privileges : bool
}.
Definition require_unprivileged_identity (snapshot : IdentitySnapshot) : result PrivilegeError LockedPrivileges :=
  if (real_uid snapshot =? 0)%Z || (effective_uid snapshot =? 0)%Z || (saved_uid snapshot =? 0)%Z
     || (real_gid snapshot =? 0)%Z || (effective_gid snapshot =? 0)%Z || (saved_gid snapshot =? 0)%Z
  then Err RootIdentity
  else if negb (real_uid snapshot =? effective_uid snapshot)%Z || negb (real_uid snapshot =? saved_uid snapshot)%Z
     || negb (real_gid snapshot =? effective_gid snapshot)%Z || negb (real_gid snapshot =? saved_gid snapshot)%Z
  then Err IdentityMismatch
  else Ok (mkLockedPrivileges (real_uid snapshot) (real_gid snapshot)).
Definition validate_locked (identity : LockedPrivileges) (snapshot : IdentitySnapshot) : result PrivilegeError () :=
  if negb (real_uid snapshot =? user_id identity)%Z || negb (effective_uid snapshot =? user_id identity)%Z
     || negb (saved_uid snapshot =? user_id identity)%Z || negb (real_gid snapshot =? group_id identity)%Z
     || negb (effective_gid snapshot =? group_id identity)%Z || negb (saved_gid snapshot =? group_id identity)%Z
  then Err IdentityDrift
  else if negb (cs_effective (capabilities snapshot) =? 0)%Z || negb (cs_permitted (capabilities snapshot) =? 0)%Z
     || negb (cs_inheritable (capabilities snapshot) =? 0)%Z || ambient_any snapshot
  then Err CapabilityVerificationFailed
  else if negb (no_new_privileges snapshot) then Err NoNewPrivilegesVerificationFailed
  else Ok ().

(** [str::trim]: the UTF-8 encodings of the characters that are white space. *)
Definition white_space : list (list byte) :=
  map (map mkb) ([[9]; [10]; [11]; [12]; [13]; [32]; [0xc2; 0x85]; [0xc2; 0xa0]; [0xe1; 0x9a; 0x80]]
    ++ map (fun z => [0xe2; 0x80; z]) (seqZ 0x80 11) ++ [[0xe2; 0x80; 0xa8]; [0xe2; 0x80; 0xa9]; [0xe2; 0x80; 0xaf];
      [0xe2; 0x81; 0x9f]; [0xe3; 0x80; 0x80]])%Z.
Definition strip_bytes (prefix l : list byte) : option (list byte) :=
  if bool_decide (take (length prefix) l = prefix) then Some (drop (length prefix) l) else None.
Fixpoint strip_any (patterns : list (list byte)) (l : list byte) : option (list byte) :=
  match patterns with
  | [] => None
  | p :: patterns => match strip_bytes p l with Some l => Some l | None => strip_any patterns l end
  end.
Fixpoint trim_front (fuel : nat) (patterns : list (list byte)) (l : list byte) : list byte :=
  match fuel with
  | O => l
  | S fuel => match strip_any patterns l with Some l => trim_front fuel patterns l | None => l end
  end.
Definition trim (l : list byte) : list byte :=
  let l := trim_front (length l) white_space l in
  rev (trim_front (length l) (map (@rev byte) white_space) (rev l)).
Example trim_line : trim (String.list_ascii_of_string "  40
") = String.list_ascii_of_string "40".
Proof. reflexivity. Qed.

Section lock.
Context `{Kernel}.

Definition CAP_LAST_CAP : string := "/proc/sys/kernel/cap_last_cap".
(** [.ok().and_then(|value| value.trim().parse::<u32>().ok()).filter(|value| *value < 64)] *)
Definition parse_last_capability (text : option string) : option Z :=
  text ← text;
  number ← u64_parse (trim (String.list_ascii_of_string text));
  number ← u32_try_from number;
  if (number <? 64)%Z then Some number else None.
(** [for capability in 0..=last_capability { ambient_any |= ...?; }] *)
Fixpoint ambient_scan (capabilities : list Z) (ambient_any : bool) : eff History PrivilegeError bool :=
  match capabilities with
  | [] => mret ambient_any
  | capability :: capabilities =>
    is_set ← io_err InspectionUnavailable (ambient_capability_is_set capability);
    ambient_scan capabilities (ambient_any || is_set)
  end.
Definition inspect_privileges : eff History PrivilegeError IdentitySnapshot :=
  '((real_uid, effective_uid, saved_uid), (real_gid, effective_gid, saved_gid)) ←
    io_err InspectionUnavailable process_ids;
  capabilities ← io_err InspectionUnavailable capability_sets;
  text ← syscall (Read_to_string CAP_LAST_CAP);
  last_capability ← lift_result (ok_or (parse_last_capability text) InspectionUnavailable);
  ambient_any ← ambient_scan (seqZ 0 (last_capability + 1)) false;
  no_new_privileges ← io_err InspectionUnavailable no_new_privileges_enabled;
  mret (mkIdentitySnapshot real_uid effective_uid saved_uid real_gid effective_gid saved_gid
    capabilities ambient_any no_new_privileges).
Definition lock_privileges : eff History PrivilegeError LockedPrivileges :=
  initial ← inspect_privileges;
  identity ← lift_result (require_unprivileged_identity initial);
  _ ← io_err AmbientClearFailed clear_ambient_capabilities;
  _ ← io_err CapabilityDropFailed clear_capability_sets;
  _ ← io_err NoNewPrivilegesInstallFailed set_no_new_privileges;
  locked ← inspect_privileges;
  _ ← lift_result (validate_locked identity locked);
  mret identity.
End lock.

(** * What a successful lock did *)

(** The replies of one inspection; [in_last] is the number read from [in_text]. *)
Record Inspection := mkInspection {
  in_uids : Z * Z * Z; in_gids : Z * Z * Z;
  in_low : CapabilityData; in_high : CapabilityData;
  in_text : string; in_last : Z;
  in_ambient : list bool;
  in_no_new_privileges : bool
}.
Definition ambient_calls (capabilities : list Z) (flags : list bool) : list Event :=
  zip_with (fun capability flag => event (Prctl PR_CAP_AMBIENT PR_CAP_AMBIENT_IS_SET capability) (Z.b2z flag)) capabilities flags.
Definition inspection_calls (i : Inspection) : list Event :=
  [event Getresuid (0%Z, in_uids i); event Getresgid (0%Z, in_gids i);
   event (Capget LINUX_CAPABILITY_VERSION_3 0) (0%Z, (in_low i, in_high i)); event (Read_to_string CAP_LAST_CAP) (Some (in_text i))]
  ++ ambient_calls (seqZ 0 (in_last i + 1)) (in_ambient i)
  ++ [event (Prctl PR_GET_NO_NEW_PRIVS 0 0) (Z.b2z (in_no_new_privileges i))].
(** Every capability the kernel has is asked for. *)
Definition inspection_complete (i : Inspection) : Prop :=
  parse_last_capability (Some (in_text i)) = Some (in_last i) /\ length (in_ambient i) = length (seqZ 0 (in_last i + 1)).
Definition snapshot_of (i : Inspection) : IdentitySnapshot :=
  let '(ruid, euid, suid) := in_uids i in
  let '(rgid, egid, sgid) := in_gids i in
  mkIdentitySnapshot ruid euid suid rgid egid sgid (sets_of (in_low i) (in_high i)) (existsb id (in_ambient i)) (in_no_new_privileges i).

Definition unprivileged (i : Inspection) (w : LockedPrivileges) : Prop :=
  in_uids i = (user_id w, user_id w, user_id w) /\ in_gids i = (group_id w, group_id w, group_id w)
  /\ user_id w <> 0%Z /\ group_id w <> 0%Z.
Definition locked (i : Inspection) : Prop :=
  in_low i = CapabilityData_default /\ in_high i = CapabilityData_default
  /\ Forall (fun flag => flag = false) (in_ambient i) /\ in_no_new_privileges i = true.

#[local] Arguments parse_last_capability : simpl never.
Section exact.
Context `{Kernel}.
Lemma succeeds_ambient capabilities acc : succeeds (ambient_scan capabilities acc) (fun b es => exists flags,
  length flags = length capabilities /\ b = acc || existsb id flags /\ es = ambient_calls capabilities flags).
Proof.
  revert acc. induction capabilities as [|c l IH]; intros acc; cbn [ambient_scan].
  - eapply succeeds_iff; [apply succeeds_ret|]. cbn. intros b es. split.
    + intros [-> ->]. exists []. by rewrite orb_false_r.
    + intros ([|] & ? & -> & ->); [|done]. by rewrite orb_false_r.
  - eapply succeeds_iff; [eapply succeeds_bind; [apply succeeds_io, succeeds_flag|intros f; apply (IH (acc || f))]|]. cbn.
    intros b es. split.
    + intros (f & xs & ys & -> & -> & flags & Hl & -> & ->). exists (f :: flags). cbn. rewrite Hl, <- orb_assoc. done.
    + intros ([|f flags] & Hl & -> & ->); [done|]. injection Hl as Hl.
      exists f, [event (Prctl PR_CAP_AMBIENT PR_CAP_AMBIENT_IS_SET c) (Z.b2z f)], (ambient_calls l flags).
      split; [done|]. split; [done|]. exists flags. cbn. unfold id. by rewrite orb_assoc.
Qed.
Lemma succeeds_inspect : succeeds inspect_privileges (fun s es => exists i,
  inspection_complete i /\ s = snapshot_of i /\ es = inspection_calls i).
Proof.
  eapply succeeds_iff.
  { unfold inspect_privileges. eapply (succeeds_bind _ _ _ (fun ids s es => exists low high text last flags nnp,
      let i := mkInspection ids.1 ids.2 low high text last flags nnp in
      inspection_complete i /\ s = snapshot_of i /\ es = drop 2 (inspection_calls i))); [apply succeeds_io, succeeds_process_ids|].
    intros [[[u1 u2] u3] [[g1 g2] g3]]. eapply succeeds_iff.
    { eapply succeeds_bind; [apply succeeds_io, succeeds_capability_sets|]. intros sets.
      eapply succeeds_bind; [apply succeeds_syscall|]. intros text.
      eapply succeeds_bind; [apply succeeds_lift|]. intros last.
      eapply succeeds_bind; [apply succeeds_ambient|]. intros any.
      eapply succeeds_bind; [apply succeeds_io, succeeds_flag|]. intros nnp. apply succeeds_ret. }
    cbn. intros s es. split.
    - intros (sets & a2 & b2 & -> & (low & high & -> & ->) & text & a3 & b3 & -> & -> &
        last & a4 & b4 & -> & [Hl%ok_or_Ok ->] & any & a5 & b5 & -> & (flags & Hlen & -> & ->) & nnp & a6 & b6 & -> & -> & -> & ->).
      destruct text as [text|]; [|done]. by exists low, high, text, last, flags, nnp.
    - intros (low & high & text & last & flags & nnp & [Hl Hlen] & -> & ->). cbn in *.
      exists (sets_of low high), [event (Capget LINUX_CAPABILITY_VERSION_3 0) (0%Z, (low, high))]. eexists.
      split; [reflexivity|]. split; [by exists low, high|]. exists (Some text), [event (Read_to_string CAP_LAST_CAP) (Some text)]. eexists.
      split; [reflexivity|]. split; [done|]. exists last, []. eexists. split; [reflexivity|].
      split; [split; [by rewrite Hl|done]|]. exists (existsb id flags), (ambient_calls (seqZ 0 (last + 1)) flags). eexists. split; [reflexivity|].
      split; [by exists flags|]. exists nnp. eexists _, []. rewrite app_nil_r. done. }
  cbn. intros s es. split.
  - intros (ids & xs & ys & -> & -> & low & high & text & last & flags & nnp & Hc & -> & ->).
    by exists (mkInspection ids.1 ids.2 low high text last flags nnp).
  - intros ([uids gids low high text last flags nnp] & Hc & -> & ->).
    exists (uids, gids), [event Getresuid (0%Z, uids); event Getresgid (0%Z, gids)]. eexists. split; [reflexivity|].
    split; [done|]. by exists low, high, text, last, flags, nnp.
Qed.
Lemma require_unprivileged_Ok i w : require_unprivileged_identity (snapshot_of i) = Ok w <-> unprivileged i w.
Proof.
  unfold snapshot_of, unprivileged. destruct (in_uids i) as [[u1 u2] u3], (in_gids i) as [[g1 g2] g3].
  unfold require_unprivileged_identity. cbn. destruct w as [u g]. cbn.
  destruct (Z.eqb_spec u1 0), (Z.eqb_spec u2 0), (Z.eqb_spec u3 0), (Z.eqb_spec g1 0), (Z.eqb_spec g2 0), (Z.eqb_spec g3 0);
    cbn; try (split; [done|intros (? & ? & ? & ?); congruence]).
  destruct (Z.eqb_spec u1 u2), (Z.eqb_spec u1 u3), (Z.eqb_spec g1 g2), (Z.eqb_spec g1 g3);
    cbn; try (split; [done|intros (? & ? & ? & ?); congruence]).
  split; [intros [= <- <-]; repeat split; congruence|]. intros (? & ? & ? & ?). congruence.
Qed.
Lemma capability_word_zero low high : capability_word low high = 0%Z <-> low = 0%Z /\ high = 0%Z.
Proof. unfold capability_word. rewrite Z.lor_eq_0_iff, Z.shiftl_eq_0_iff by lia. done. Qed.
Lemma existsb_id_false l : existsb id l = false <-> Forall (fun flag => flag = false) l.
Proof. induction l as [|[] l IH]; cbn; [by split|split; [done|by inversion 1]|]. rewrite IH, Forall_cons. tauto. Qed.
Lemma validate_locked_Ok w i u : validate_locked w (snapshot_of i) = Ok u <->
  in_uids i = (user_id w, user_id w, user_id w) /\ in_gids i = (group_id w, group_id w, group_id w) /\ locked i.
Proof.
  destruct u, w as [u g]. unfold snapshot_of, locked, validate_locked.
  destruct i as [[[u1 u2] u3] [[g1 g2] g3] [e1 p1 n1] [e2 p2 n2] text last flags nnp]. cbn. rewrite <- existsb_id_false.
  assert (forall a b, negb (capability_word a b =? 0)%Z = false <-> a = 0%Z /\ b = 0%Z) as Hw.
  { intros a b. by rewrite negb_false_iff, Z.eqb_eq, capability_word_zero. }
  pose proof (Hw e1 e2) as H1. pose proof (Hw p1 p2) as H2. pose proof (Hw n1 n2) as H3.
  destruct (Z.eqb_spec u1 u), (Z.eqb_spec u2 u), (Z.eqb_spec u3 u), (Z.eqb_spec g1 g), (Z.eqb_spec g2 g), (Z.eqb_spec g3 g);
    cbn; try (split; [done|intros (? & ? & ?); congruence]). subst.
  revert H1 H2 H3. generalize (negb (capability_word e1 e2 =? 0)%Z) (negb (capability_word p1 p2 =? 0)%Z) (negb (capability_word n1 n2 =? 0)%Z).
  unfold CapabilityData_default. generalize (existsb id flags). intros [] [] [] []; cbn; intros H1 H2 H3; destruct nnp; cbn;
    (split; [try done|intros (_ & _ & [= ? ? ?] & [= ? ? ?] & ? & ?); subst; intuition congruence]).
  intros _. repeat split; try done; intuition congruence.
Qed.

(** The three calls that drop the privileges. *)
Definition drop_calls : list Event :=
  [event (Prctl PR_CAP_AMBIENT PR_CAP_AMBIENT_CLEAR_ALL 0) 0%Z;
   event (Capset LINUX_CAPABILITY_VERSION_3 0 (CapabilityData_default, CapabilityData_default)) 0%Z;
   event (Prctl PR_SET_NO_NEW_PRIVS 1 0) 0%Z].
Definition lock_run (before after : Inspection) (w : LockedPrivileges) : Prop :=
  inspection_complete before /\ inspection_complete after /\ unprivileged before w
  /\ in_uids after = in_uids before /\ in_gids after = in_gids before /\ locked after.
Lemma succeeds_lock : succeeds lock_privileges (fun w es => exists before after,
  lock_run before after w /\ es = inspection_calls before ++ drop_calls ++ inspection_calls after).
Proof.
  eapply succeeds_iff.
  { unfold lock_privileges. eapply succeeds_bind; [apply succeeds_inspect|]. intros initial.
    eapply succeeds_bind; [apply succeeds_lift|]. intros identity.
    eapply succeeds_bind; [apply succeeds_io, succeeds_zero|]. intros ?.
    eapply succeeds_bind; [apply succeeds_io, succeeds_zero|]. intros ?.
    eapply succeeds_bind; [apply succeeds_io, succeeds_zero|]. intros ?.
    eapply succeeds_bind; [apply succeeds_inspect|]. intros locked.
    eapply succeeds_bind; [apply succeeds_lift|]. intros ?. apply succeeds_ret. }
  cbn beta. intros w es. unfold lock_run. split.
  - intros (s0 & a0 & b0 & -> & (i & Hi & -> & ->) & w0 & a1 & b1 & -> & [Hw%require_unprivileged_Ok ->] &
      ? & a2 & b2 & -> & -> & ? & a3 & b3 & -> & -> & ? & a4 & b4 & -> & -> & s1 & a5 & b5 & -> & (j & Hj & -> & ->) &
      ? & a6 & b6 & -> & [(Hu & Hg & Hl)%validate_locked_Ok ->] & -> & ->).
    exists i, j. pose proof Hw as (Hu0 & Hg0 & _). rewrite app_nil_r. split; [|done].
    repeat split; try done; try apply Hi; try apply Hj; try apply Hw; try apply Hl; congruence.
  - intros (i & j & (Hi & Hj & Hw & Hu & Hg & Hl) & ->). pose proof Hw as (Hu0 & Hg0 & _).
    exists (snapshot_of i), (inspection_calls i). eexists. split; [reflexivity|]. split; [by exists i|].
    exists w, []. eexists. split; [reflexivity|]. split; [split; [by apply require_unprivileged_Ok|done]|].
    unfold drop_calls. do 3 (eexists (), [_]; eexists; split; [cbn [app]; reflexivity|]; split; [reflexivity|]).
    exists (snapshot_of j), (inspection_calls j), []. rewrite app_nil_r. split; [done|]. split; [by exists j|].
    exists (), [], []. split; [done|]. split; [|done]. split; [|done]. apply validate_locked_Ok. rewrite Hu, Hg. done.
Qed.

(** [lock_privileges] succeeds exactly when the launcher runs as one unprivileged
    user and group, the three calls that drop its privileges succeed, in this order,
    between two complete inspections, and the second one reads back the same
    identities, no capability in any set, no ambient capability and [no_new_privs]. *)
Theorem lock_privileges_exact (h : History) (w : LockedPrivileges) (h' : History) :
  lock_privileges h = (Ok w, h') <-> exists before after : Inspection,
    let calls := inspection_calls before ++ drop_calls ++ inspection_calls after in
    h' = h ++ calls /\ answered h calls /\ lock_run before after w.
Proof.
  rewrite (succeeds_lock h w h'). split.
  - intros (es & -> & Ha & i & j & Hr & ->). by exists i, j.
  - intros (i & j & -> & Ha & Hr). eexists. split; [reflexivity|]. split; [done|]. by exists i, j.
Qed.
End exact.
