(* ===== verification/Landlock.v ===== *)
(** The filesystem boundary: [proofbound-runtime-linux/src/landlock.rs]. *)
From S2P Require Import Prelude System.
From Stdlib Require Import Ascii ZArith Lia Sorted.
From stdpp Require Import prelude strings list numbers.
Export stdpp.list_relations.list.

Definition ACCESS_EXECUTE : Z := Z.shiftl 1 0.
Definition ACCESS_WRITE_FILE : Z := Z.shiftl 1 1.
Definition ACCESS_READ_FILE : Z := Z.shiftl 1 2.
Definition ACCESS_READ_DIR : Z := Z.shiftl 1 3.
Definition ACCESS_REMOVE_DIR : Z := Z.shiftl 1 4.
Definition ACCESS_REMOVE_FILE : Z := Z.shiftl 1 5.
Definition ACCESS_MAKE_CHAR : Z := Z.shiftl 1 6.
Definition ACCESS_MAKE_DIR : Z := Z.shiftl 1 7.
Definition ACCESS_MAKE_REG : Z := Z.shiftl 1 8.
Definition ACCESS_MAKE_SOCK : Z := Z.shiftl 1 9.
Definition ACCESS_MAKE_FIFO : Z := Z.shiftl 1 10.
Definition ACCESS_MAKE_BLOCK : Z := Z.shiftl 1 11.
Definition ACCESS_MAKE_SYM : Z := Z.shiftl 1 12.
Definition ACCESS_REFER : Z := Z.shiftl 1 13.
Definition ACCESS_TRUNCATE : Z := Z.shiftl 1 14.
Definition ACCESS_IOCTL_DEV : Z := Z.shiftl 1 15.
Definition ACCESS_RESOLVE_UNIX : Z := Z.shiftl 1 16.
Definition MAX_REVIEWED_ABI : Z := 11.
Definition union (masks : list Z) : Z := foldr Z.lor 0%Z masks.
Definition ACCESS_WRITE_DIRECTORY : Z := union
  [ACCESS_WRITE_FILE; ACCESS_REMOVE_DIR; ACCESS_REMOVE_FILE; ACCESS_MAKE_CHAR; ACCESS_MAKE_DIR; ACCESS_MAKE_REG;
   ACCESS_MAKE_SOCK; ACCESS_MAKE_FIFO; ACCESS_MAKE_BLOCK; ACCESS_MAKE_SYM; ACCESS_REFER; ACCESS_TRUNCATE].

Inductive LandlockAccess := Read | Write | Execute.
#[global] Instance LandlockAccess_eq_dec : EqDecision LandlockAccess.
Proof. solve_decision. Defined.
Record LandlockRule := mkLandlockRule { lr_descriptor : Z; lr_access : LandlockAccess }.
Record LandlockBoundary := mkLandlockBoundary { lb_abi : Z; lb_handled_access_fs : Z; lb_rule_count : nat }.
Inductive LandlockError :=
| UnsupportedOperatingSystem | AbiUnsupported | RuleSetEmpty | FileKindInvalid | DirectoryExecuteForbidden
| RuleSetCreationFailed | RuleInstallationFailed | RestrictionFailed.
#[global] Instance LandlockError_eq_dec : EqDecision LandlockError.
Proof. solve_decision. Defined.
Definition LandlockError_code (e : LandlockError) : string :=
  match e with
  | UnsupportedOperatingSystem => "landlock.os.unsupported"
  | AbiUnsupported => "landlock.abi.unsupported"
  | RuleSetEmpty => "landlock.rules.empty"
  | FileKindInvalid => "landlock.file-kind.invalid"
  | DirectoryExecuteForbidden => "landlock.execute.directory-forbidden"
  | RuleSetCreationFailed => "landlock.ruleset.creation-failed"
  | RuleInstallationFailed => "landlock.rule.installation-failed"
  | RestrictionFailed => "landlock.restriction.failed"
  end.

Definition handled_access (abi : Z) : Z :=
  let access := union
    [ACCESS_EXECUTE; ACCESS_WRITE_FILE; ACCESS_READ_FILE; ACCESS_READ_DIR; ACCESS_REMOVE_DIR; ACCESS_REMOVE_FILE;
     ACCESS_MAKE_CHAR; ACCESS_MAKE_DIR; ACCESS_MAKE_REG; ACCESS_MAKE_SOCK; ACCESS_MAKE_FIFO; ACCESS_MAKE_BLOCK;
     ACCESS_MAKE_SYM; ACCESS_REFER; ACCESS_TRUNCATE] in
  let access := if (5 <=? abi)%Z then Z.lor access ACCESS_IOCTL_DEV else access in
  if (9 <=? abi)%Z then Z.lor access ACCESS_RESOLVE_UNIX else access.
Definition allowed_access (access : LandlockAccess) (is_directory : bool) : result LandlockError Z :=
  match access, is_directory with
  | Read, true => Ok (Z.lor ACCESS_READ_FILE ACCESS_READ_DIR)
  | Read, false => Ok ACCESS_READ_FILE
  | Write, true => Ok ACCESS_WRITE_DIRECTORY
  | Write, false => Ok (Z.lor ACCESS_WRITE_FILE ACCESS_TRUNCATE)
  | Execute, false => Ok ACCESS_EXECUTE
  | Execute, true => Err DirectoryExecuteForbidden
  end.

Section install.
Context `{Kernel}.

Definition descriptor_is_directory (descriptor : Z) : eff History LandlockError bool :=
  file ← std_call (Try_clone descriptor) FileKindInvalid;
  dropping file (
    metadata ← std_call (File_metadata file) FileKindInvalid;
    if is_dir metadata then mret true
    else if is_file metadata then mret false
    else throw FileKindInvalid).
Fixpoint install_rules (ruleset : Z) (rules : list LandlockRule) : eff History LandlockError () :=
  match rules with
  | [] => mret ()
  | rule :: rules =>
    is_directory ← descriptor_is_directory (lr_descriptor rule);
    allowed ← lift_result (allowed_access (lr_access rule) is_directory);
    _ ← io_err RuleInstallationFailed (add_landlock_path_rule ruleset (lr_descriptor rule) allowed);
    install_rules ruleset rules
  end.
(** The witness of locked privileges is not read. *)
Definition install_landlock (abi : Z) (rules : list LandlockRule) : eff History LandlockError LandlockBoundary :=
  if negb ((3 <=? abi)%Z && (abi <=? MAX_REVIEWED_ABI)%Z) then throw AbiUnsupported
  else if bool_decide (rules = []) then throw RuleSetEmpty
  else
    let handled_access_fs := handled_access abi in
    ruleset ← io_err RuleSetCreationFailed (create_landlock_ruleset handled_access_fs);
    dropping ruleset (
      _ ← install_rules ruleset rules;
      _ ← io_err RestrictionFailed (restrict_with_landlock ruleset);
      mret (mkLandlockBoundary abi handled_access_fs (length rules))).
End install.

(** * What a successful installation did *)

(** Every access that a rule may allow is one that the ruleset handles, so that no
    rule is refused for naming another, and what no rule allows is denied. *)
Lemma allowed_access_handled abi access is_directory allowed :
  allowed_access access is_directory = Ok allowed ->
  Z.land allowed (handled_access abi) = allowed.
Proof.
  unfold handled_access. intros Ha. destruct (5 <=? abi)%Z, (9 <=? abi)%Z, access, is_directory; cbn in Ha; simplify_eq;
    vm_compute; reflexivity.
Qed.
(** The calls for a rule: the kind of the file decides what is allowed beneath it. *)
Inductive rule_calls (ruleset : Z) (rule : LandlockRule) : list Event -> Prop :=
| rule_added file metadata allowed :
  is_dir metadata = true \/ is_file metadata = true ->
  allowed_access (lr_access rule) (is_dir metadata) = Ok allowed ->
  rule_calls ruleset rule
    [event (Try_clone (lr_descriptor rule)) (Some file); event (File_metadata file) (Some metadata); event (Close file) ();
     event (Landlock_add_rule ruleset LANDLOCK_RULE_PATH_BENEATH (lr_descriptor rule) allowed) 0%Z].
Inductive rules_calls (ruleset : Z) : list LandlockRule -> list Event -> Prop :=
| rules_none : rules_calls ruleset [] []
| rules_more rule rules xs ys :
  rule_calls ruleset rule xs -> rules_calls ruleset rules ys -> rules_calls ruleset (rule :: rules) (xs ++ ys).
Definition landlock_run (abi : Z) (rules : list LandlockRule) (boundary : LandlockBoundary) (es : list Event) : Prop :=
  (3 <= abi <= MAX_REVIEWED_ABI)%Z /\ rules <> []
  /\ boundary = mkLandlockBoundary abi (handled_access abi) (length rules)
  /\ exists ruleset added, (0 <= ruleset <= 2147483647)%Z /\ rules_calls ruleset rules added
     /\ es = [event (Landlock_create_ruleset (handled_access abi)) ruleset] ++ added
          ++ [event (Landlock_restrict_self ruleset) 0%Z; event (Close ruleset) ()].

Section exact.
Context `{Kernel}.
Lemma succeeds_directory descriptor : succeeds (descriptor_is_directory descriptor) (fun b es => exists file metadata,
  (is_dir metadata = true \/ is_file metadata = true) /\ b = is_dir metadata
  /\ es = [event (Try_clone descriptor) (Some file); event (File_metadata file) (Some metadata); event (Close file) ()]).
Proof.
  unfold descriptor_is_directory. eapply succeeds_iff.
  { eapply succeeds_bind; [apply succeeds_std|]. intros file. apply succeeds_dropping.
    eapply succeeds_bind; [apply succeeds_std|]. intros metadata.
    apply succeeds_if; [apply succeeds_ret|apply succeeds_if; [apply succeeds_ret|apply succeeds_throw]]. }
  cbn. intros b es. split.
  - intros (file & xs & ys & -> & -> & zs & -> & metadata & us & vs & -> & -> & Hk). exists file, metadata.
    destruct (is_dir metadata); [destruct Hk as [-> ->]; by auto|]. destruct (is_file metadata); [destruct Hk as [-> ->]; by auto|done].
  - intros (file & metadata & Hk & -> & ->). exists file, [event (Try_clone descriptor) (Some file)].
    eexists. split; [cbn; reflexivity|]. split; [done|]. exists [event (File_metadata file) (Some metadata)]. split; [done|].
    exists metadata, [event (File_metadata file) (Some metadata)], []. split; [done|]. split; [done|].
    destruct (is_dir metadata); [done|]. destruct (is_file metadata); [done|]. by destruct Hk.
Qed.
Lemma succeeds_rules ruleset rules : succeeds (install_rules ruleset rules) (fun _ es => rules_calls ruleset rules es).
Proof.
  induction rules as [|rule rules IH]; cbn [install_rules].
  - eapply succeeds_iff; [apply succeeds_ret|]. intros [] es. split; [intros [_ ->]; constructor|]. by inversion 1.
  - eapply succeeds_iff.
    { eapply succeeds_bind; [apply succeeds_directory|]. intros b. eapply succeeds_bind; [apply succeeds_lift|]. intros allowed.
      eapply succeeds_bind; [apply succeeds_io, succeeds_zero|]. intros ?. apply IH. }
    cbn. intros u es. split.
    + intros (b & xs & ys & -> & (file & metadata & Hk & -> & ->) & allowed & ? & zs & -> & [Ha ->] & ? & us & vs & -> & -> & Hrest).
      change (rules_calls ruleset (rule :: rules) (([event (Try_clone (lr_descriptor rule)) (Some file);
        event (File_metadata file) (Some metadata); event (Close file) ();
        event (Landlock_add_rule ruleset LANDLOCK_RULE_PATH_BENEATH (lr_descriptor rule) allowed) 0%Z]) ++ vs)).
      constructor; [by constructor|done].
    + inversion 1 as [|? ? xs ys [file metadata allowed Hk Ha] Hrest]; subst.
      exists (is_dir metadata). eexists [_; _; _], _. split; [cbn; reflexivity|]. split; [by exists file, metadata|].
      exists allowed, []. eexists. split; [reflexivity|]. split; [done|].
      eexists (), [_], ys. done.
Qed.
Lemma succeeds_landlock abi rules : succeeds (install_landlock abi rules) (landlock_run abi rules).
Proof.
  unfold install_landlock, landlock_run. eapply succeeds_iff.
  { apply succeeds_if; [apply succeeds_throw|]. apply succeeds_if; [apply succeeds_throw|].
    eapply succeeds_bind; [apply succeeds_io; unfold create_landlock_ruleset|].
    { apply (succeeds_call _ _ (fun r d => (0 <= r <= 2147483647)%Z /\ d = r)). intros r.
      eapply succeeds_iff; [apply succeeds_if; [apply succeeds_throw|apply succeeds_ret_if]|]. cbn. intros d es.
      destruct (Z.ltb_spec r 0); [naive_solver lia|]. rewrite Z.ltb_ge. naive_solver lia. }
    intros ruleset. apply succeeds_dropping. eapply succeeds_bind; [apply succeeds_rules|]. intros ?.
    eapply succeeds_bind; [apply succeeds_io, succeeds_zero|]. intros ?. apply succeeds_ret. }
  cbn beta. intros b es. destruct (negb _) eqn:Habi.
  { split; [done|]. intros (Ha & _). unfold MAX_REVIEWED_ABI in *. lia. }
  case_bool_decide as Hne; [split; [done|naive_solver]|]. split.
  - intros (ruleset & xs & ys & -> & (r & [Hr ->] & ->) & zs & -> & ? & us & vs & -> & Hrules & ? & ws & ts & -> & -> & -> & ->).
    unfold MAX_REVIEWED_ABI in *. split; [lia|]. split; [done|]. split; [done|].
    exists r, us. split; [done|]. split; [done|]. by rewrite <- !app_assoc.
  - intros (_ & _ & -> & ruleset & added & Hr & Hrules & ->). exists ruleset. eexists [_], _. split; [reflexivity|].
    split; [by exists ruleset|]. exists (added ++ [event (Landlock_restrict_self ruleset) 0%Z]). split; [by rewrite <- app_assoc|].
    exists (), added, [event (Landlock_restrict_self ruleset) 0%Z]. split; [done|]. split; [done|].
    by eexists (), [_], [].
Qed.

(** [install_landlock] succeeds exactly when the ABI is one of the reviewed ones, there
    is a rule, and the kernel creates a ruleset that handles every reviewed access,
    accepts for every rule, in their order, what its class allows for the kind of its
    file, and then restricts the process. *)
Theorem install_landlock_exact (abi : Z) (rules : list LandlockRule) (h : History) (boundary : LandlockBoundary) (h' : History) :
  install_landlock abi rules h = (Ok boundary, h')
  <-> exists es, h' = h ++ es /\ answered h es /\ landlock_run abi rules boundary es.
Proof. apply succeeds_landlock. Qed.
End exact.
