(* ===== verification/Executable.v ===== *)
(** The identity of an open executable: [identify_descriptor] and
    [revalidate_inherited_executable] of [proofbound-runtime-linux/src/resolve.rs].
    The launcher compares the file behind its descriptor with the registered
    identity, before it locks itself and again before it executes the file. *)
From S2P Require Import Prelude Identity System.
From Stdlib Require Import Ascii ZArith Lia Sorted.
From stdpp Require Import prelude strings list numbers.
Export stdpp.list_relations.list.

Inductive ResolutionError :=
| UnsupportedOperatingSystem | RootUnavailable | PathEscapesRoot | ExternalPathInvalid | ExternalRoleInvalid
| Openat2Unavailable | PathUnavailable | SymlinkInvalid | ForbiddenFileKind | ExecutableModeMissing
| ArtifactRoleMismatch | IdentityMismatch | IdentityDrift | IdentityUnavailable | ElfMalformed
| ElfArchitectureMismatch | ElfInterpreterInvalid | LoaderIdentityMissing | LoaderIdentityUnexpected.
#[global] Instance ResolutionError_eq_dec : EqDecision ResolutionError.
Proof. solve_decision. Defined.

Definition metadata_changed (before after : Metadata) : bool :=
  negb (md_dev before =? md_dev after)%Z || negb (md_ino before =? md_ino after)%Z
  || negb (md_len before =? md_len after)%Z || negb (md_mode before =? md_mode after)%Z
  || negb (md_mtime before =? md_mtime after)%Z || negb (md_mtime_nsec before =? md_mtime_nsec after)%Z
  || negb (md_ctime before =? md_ctime after)%Z || negb (md_ctime_nsec before =? md_ctime_nsec after)%Z.
Definition IDENTITY_BUFFER_BYTES : Z := 65536.

Section identify.
Context `{Kernel} (sha256 : list byte -> list byte).
Notation M := (eff History (fault ResolutionError)).

(** The loop ends when the file does; every other turn advances the offset, which the
    code bounds by [u64] only.  The fuel bounds the number of turns of the model: a run
    that needs more ends as a panic would, without a result. *)
Fixpoint read_all (fuel : nat) (file : Z) (content : list byte) (offset : Z) : M (list byte * Z) :=
  match fuel with
  | O => throw Panicked
  | S fuel =>
    bytes ← std_call (File_read_at file IDENTITY_BUFFER_BYTES offset) (Failure IdentityUnavailable);
    if bool_decide (bytes = []) then mret (content, offset)
    else if (IDENTITY_BUFFER_BYTES <? Z.of_nat (length bytes))%Z then throw Panicked
    else
      offset ← lift_result (ok_or (u64_checked_add offset (Z.of_nat (length bytes))) (Failure IdentityUnavailable));
      read_all fuel file (content ++ bytes) offset
  end.
Definition identify_descriptor (fuel : nat) (descriptor : Z) (role : ArtifactRole) : M ArtifactIdentity :=
  file ← std_call (Try_clone descriptor) (Failure IdentityUnavailable);
  dropping file (
    before ← std_call (File_metadata file) (Failure IdentityUnavailable);
    if negb (is_file before) || is_symlink before then throw (Failure ForbiddenFileKind)
    else
      '(content, offset) ← read_all fuel file [] 0;
      after ← std_call (File_metadata file) (Failure IdentityUnavailable);
      if metadata_changed before after || negb (offset =? md_len after)%Z then throw (Failure IdentityDrift)
      else
        mode ← lift_result (ok_or (u16_try_from (Z.land (md_mode after) 4095)) (Failure IdentityUnavailable));
        mode ← lift_result (map_err (fun _ => Failure IdentityUnavailable) (FileMode_new mode));
        mret (ArtifactIdentity_new role (Sha256Digest_from_bytes (sha256 content)) (md_len after) mode)).
Definition revalidate_inherited_executable (fuel : nat) (descriptor : Z) (expected : ArtifactIdentity) : M () :=
  if (2147483647 <? descriptor)%Z || negb (bool_decide (role expected = RuntimeExecutable))
  then throw (Failure IdentityDrift)
  else
    descriptor ← may_fail (io_err IdentityDrift (duplicate_descriptor descriptor));
    dropping descriptor (
      observed ← identify_descriptor fuel descriptor RuntimeExecutable;
      if bool_decide (observed = expected) then mret () else throw (Failure IdentityDrift)).
End identify.

(** * What a successful revalidation saw *)

(** The reads of a file from an offset to its end, in pieces. *)
Inductive file_reads (file : Z) : Z -> list byte -> list Event -> Prop :=
| reads_end offset : file_reads file offset [] [event (File_read_at file IDENTITY_BUFFER_BYTES offset) (Some [])]
| reads_more offset bytes content es :
  bytes <> [] -> file_reads file (offset + Z.of_nat (length bytes)) content es ->
  file_reads file offset (bytes ++ content) (event (File_read_at file IDENTITY_BUFFER_BYTES offset) (Some bytes) :: es).
(** The file behind the descriptor is a regular file that did not change while it was
    read, from its start to its end, and has the identity. *)
Inductive identified (sha256 : list byte -> list byte) (descriptor : Z) (identity : ArtifactIdentity) : list Event -> Prop :=
| identified_by duplicate file before after content reads mode :
  is_file before = true -> metadata_changed before after = false ->
  file_reads file 0 content reads -> Z.of_nat (length content) = md_len after ->
  FileMode_new (Z.land (md_mode after) 4095) = Ok mode ->
  identity = ArtifactIdentity_new RuntimeExecutable (Sha256Digest_from_bytes (sha256 content)) (md_len after) mode ->
  identified sha256 descriptor identity
    ([event (Fcntl_dup descriptor F_DUPFD_MINIMUM) duplicate; event (Try_clone duplicate) (Some file);
      event (File_metadata file) (Some before)] ++ reads
     ++ [event (File_metadata file) (Some after); event (Close file) (); event (Close duplicate) ()]).

Section saw.
Context `{Kernel} (sha256 : list byte -> list byte).

Lemma read_all_ensures fuel file content offset :
  ensures (read_all fuel file content offset) (fun _ r es => exists more,
    r = (content ++ more, offset + Z.of_nat (length more))%Z /\ file_reads file offset more es).
Proof.
  revert content offset. induction fuel as [|fuel IH]; intros content offset; cbn [read_all]; [apply ensures_throw|].
  eapply ensures_weaken.
  { eapply ensures_bind; [apply ensures_succeeds, succeeds_std|]. intros bytes.
    instantiate (1 := fun bytes _ r es => exists more, r = (content ++ more, offset + Z.of_nat (length more))%Z /\
      match bytes with [] => more = [] /\ es = [] | _ => exists k, more = bytes ++ k /\ file_reads file (offset + Z.of_nat (length bytes)) k es end).
    cbn beta. case_bool_decide as Hb.
    - subst bytes. eapply ensures_weaken; [apply ensures_ret|]. intros ? r es [-> ->]. exists [].
      by rewrite app_nil_r, Z.add_0_r.
    - case_match; [apply ensures_throw|]. eapply ensures_weaken.
      { eapply ensures_bind; [apply ensures_lift|]. intros offset'. apply IH. }
      cbn beta. intros h r es (offset' & xs & ys & -> & [Ho ->] & more & -> & Hreads).
      apply ok_or_Ok, try_from_Some in Ho as [-> _].
      exists (bytes ++ more). rewrite <- app_assoc, length_app. split; [f_equal; lia|]. destruct bytes as [|b bytes]; [done|].
      by exists more. }
  cbn beta. intros h r es (bytes & xs & ys & -> & -> & more & -> & Hm). exists more. split; [done|].
  destruct bytes as [|b bytes]; [destruct Hm as [-> ->]; constructor|].
  destruct Hm as (k & -> & Hk). by apply (reads_more file offset (b :: bytes) k ys).
Qed.
Lemma revalidate_ensures fuel descriptor expected :
  ensures (revalidate_inherited_executable sha256 fuel descriptor expected) (fun _ _ es => identified sha256 descriptor expected es).
Proof.
  unfold revalidate_inherited_executable, identify_descriptor. destruct (_ || _); [apply ensures_throw|].
  eapply ensures_weaken.
  { eapply ensures_bind; [apply ensures_succeeds, succeeds_fault, succeeds_io, succeeds_dup|]. intros duplicate.
    apply ensures_dropping. eapply ensures_bind.
    { eapply ensures_bind; [apply ensures_succeeds, succeeds_std|]. intros file. apply ensures_dropping.
      eapply ensures_bind; [apply ensures_succeeds, succeeds_std|]. intros before.
      apply (ensures_if (negb (is_file before) || is_symlink before)); [apply (ensures_throw _ (fun _ _ _ => False))|].
      eapply ensures_bind_pair; [apply read_all_ensures|]. intros content offset.
      eapply ensures_bind; [apply ensures_succeeds, succeeds_std|]. intros after.
      apply (ensures_if (metadata_changed before after || negb (offset =? md_len after)%Z));
        [apply (ensures_throw _ (fun _ _ _ => False))|].
      eapply ensures_bind; [apply ensures_lift|]. intros mode. eapply ensures_bind; [apply ensures_lift|]. intros mode'.
      apply ensures_ret. }
    intros observed. apply (ensures_if (bool_decide (observed = expected))); [apply ensures_ret|apply (ensures_throw _ (fun _ _ _ => False))]. }
  cbn beta.
  intros h u es (duplicate & ? & ? & -> & [_ ->] & ? & -> & observed & ? & ? & -> &
    (file & ? & ? & -> & -> & ? & -> & before & ? & ? & -> & -> & Hrest) & Hobs).
  case_bool_decide as Heq; [|done]. destruct Hobs as [_ ->]. destruct (is_file before) eqn:Hf; [|done].
  cbn [negb orb] in Hrest. destruct (is_symlink before); [done|].
  destruct Hrest as (content & offset & reads & ? & -> & (more & [= -> ->] & Hreads) & after & ? & ? & -> & -> & Hrest).
  destruct (metadata_changed before after) eqn:Hch; [done|]. cbn [orb] in Hrest.
  destruct (Z.eqb_spec (0 + Z.of_nat (length more)) (md_len after)) as [Hlen|]; [|done]. cbn [negb] in Hrest.
  destruct Hrest as (mode & ? & ? & -> & [Hm ->] & mode' & ? & ? & -> & [Hmode ->] & -> & ->).
  apply ok_or_Ok, try_from_Some in Hm as [-> _].
  destruct (FileMode_new (Z.land (md_mode after) 4095)) as [m|e] eqn:Hnew; [|done]. injection Hmode as <-.
  pose proof (identified_by sha256 descriptor expected duplicate file before after more reads m Hf Hch Hreads ltac:(lia) Hnew (eq_sym Heq)) as Hid.
  cbn [app] in *. rewrite ?app_nil_r, <- ?app_assoc. exact Hid.
Qed.

Lemma quiet_read_all fuel file content offset : quiet (read_all fuel file content offset).
Proof. revert content offset. induction fuel as [|fuel IH]; intros content offset; cbn [read_all]; quietly; apply IH. Qed.
Lemma quiet_revalidate fuel descriptor expected : quiet (revalidate_inherited_executable sha256 fuel descriptor expected).
Proof. unfold revalidate_inherited_executable, identify_descriptor. quietly; apply quiet_read_all. Qed.
End saw.
#[export] Hint Resolve quiet_revalidate : quiet.
