(* ===== verification/Launcher.v ===== *)
(** The private protocol between supervisor and launcher: the data, the validation
    and the CBOR codec of [proofbound-runtime-linux/src/launcher.rs].  The codec is
    the file's own: it reads more than it writes, and a message is accepted only
    when encoding it again gives the bytes received.  The theorems are in
    [LauncherWire], the launcher's own sequence in [LauncherRun]. *)
From S2P Require Import Prelude Identity.
From S2P Require Receipt JsonCbor Landlock.
From Stdlib Require Import Ascii ZArith Lia Sorted.
From stdpp Require Import prelude strings list numbers gmap.
Export stdpp.list_relations.list.
Import Receipt(ExecutionId, mkExecutionId, ExecutionId_as_bytes, CgroupIdentity, mkCgroupIdentity, cg_mount_id, cg_inode).
Import JsonCbor(is_empty_string, object_of).
Import Landlock(LandlockAccess(..), LandlockAccess_eq_dec).

Definition MAX_LAUNCHER_FRAME_BYTES : Z := 1024 * 1024.
Definition MAX_COLLECTION_ITEMS : Z := 4096.
Definition MAX_NESTING_DEPTH : nat := 32.
Definition INSTALL_SCHEMA : string := "proofbound-runtime-launcher-install/1".
Definition BOUNDARY_SCHEMA : string := "proofbound-runtime-launcher-boundary-installed/1".
Definition RELEASE_SCHEMA : string := "proofbound-runtime-launcher-exec-release/1".
Definition FAILURE_SCHEMA : string := "proofbound-runtime-launcher-failure/1".

Inductive LauncherError :=
| UnsupportedOperatingSystem | ChannelCreationFailed | ChannelReadFailed | ChannelTimeout | ChannelWriteFailed
| PauseFailed | Eof | Truncated | FrameTooLarge | Malformed | NonCanonical | DuplicateKey | TrailingData
| UnsupportedVersion | PolicyIdentityMismatch | CgroupIdentityMismatch | ExecutionIdentityMismatch
| SeccompProgramMismatch | FileDescriptorInvalid | ExecutableIdentityMismatch | PrivilegeInstallationFailed
| LandlockInstallationFailed | SeccompInstallationFailed | WorkingDirectoryFailed | ExecPermissionDenied
| ExecOperationNotPermitted | ExecNotFound | ExecFormatInvalid | ExecFailed | BoundaryNotInstalled
| AcknowledgementMissing | ExecReleaseMissing | UnexpectedMessage.
#[global] Instance LauncherError_eq_dec : EqDecision LauncherError.
Proof. solve_decision. Defined.
Definition LauncherError_code (e : LauncherError) : string :=
  match e with
  | UnsupportedOperatingSystem => "launcher.os.unsupported"
  | ChannelCreationFailed => "launcher.channel.creation-failed"
  | ChannelReadFailed => "launcher.channel.read-failed"
  | ChannelTimeout => "launcher.channel.timeout"
  | ChannelWriteFailed => "launcher.channel.write-failed"
  | PauseFailed => "launcher.pause.failed"
  | Eof => "launcher.protocol.eof"
  | Truncated => "launcher.protocol.truncated"
  | FrameTooLarge => "launcher.protocol.frame-too-large"
  | Malformed => "launcher.protocol.malformed"
  | NonCanonical => "launcher.protocol.non-canonical"
  | DuplicateKey => "launcher.protocol.duplicate-key"
  | TrailingData => "launcher.protocol.trailing-data"
  | UnsupportedVersion => "launcher.protocol.unsupported-version"
  | PolicyIdentityMismatch => "launcher.identity.policy-mismatch"
  | CgroupIdentityMismatch => "launcher.identity.cgroup-mismatch"
  | ExecutionIdentityMismatch => "launcher.identity.execution-mismatch"
  | SeccompProgramMismatch => "launcher.identity.seccomp-program-mismatch"
  | FileDescriptorInvalid => "launcher.file-descriptor.invalid"
  | ExecutableIdentityMismatch => "launcher.identity.executable-mismatch"
  | PrivilegeInstallationFailed => "launcher.privileges.installation-failed"
  | LandlockInstallationFailed => "launcher.landlock.installation-failed"
  | SeccompInstallationFailed => "launcher.seccomp.installation-failed"
  | WorkingDirectoryFailed => "launcher.working-directory.failed"
  | ExecPermissionDenied => "launcher.exec.permission-denied"
  | ExecOperationNotPermitted => "launcher.exec.operation-not-permitted"
  | ExecNotFound => "launcher.exec.not-found"
  | ExecFormatInvalid => "launcher.exec.format-invalid"
  | ExecFailed => "launcher.exec.failed"
  | BoundaryNotInstalled => "launcher.sequence.boundary-not-installed"
  | AcknowledgementMissing => "launcher.sequence.acknowledgement-missing"
  | ExecReleaseMissing => "launcher.sequence.exec-release-missing"
  | UnexpectedMessage => "launcher.sequence.unexpected-message"
  end.

(** * Identities *)

#[global] Instance CgroupIdentity_eq_dec : EqDecision CgroupIdentity.
Proof. solve_decision. Defined.
Record LauncherIdentity := mkLauncherIdentity {
  li_execution_id : ExecutionId;
  li_policy_id : Sha256Digest;
  li_cgroup_id : CgroupIdentity
}.
#[global] Instance LauncherIdentity_eq_dec : EqDecision LauncherIdentity.
Proof. solve_decision. Defined.
Definition LauncherIdentity_verify (self expected : LauncherIdentity) : result LauncherError () :=
  if negb (bool_decide (li_execution_id self = li_execution_id expected)) then Err ExecutionIdentityMismatch
  else if negb (bool_decide (li_policy_id self = li_policy_id expected)) then Err PolicyIdentityMismatch
  else if negb (bool_decide (li_cgroup_id self = li_cgroup_id expected)) then Err CgroupIdentityMismatch
  else Ok ().

(** * The install request *)

Definition access_rank (access : LandlockAccess) : Z := match access with Read => 0 | Write => 1 | Execute => 2 end.
Definition access_name (access : LandlockAccess) : string :=
  match access with Read => "read" | Write => "write" | Execute => "execute" end.
Definition parse_access (value : string) : result LauncherError LandlockAccess :=
  if String.eqb value "read" then Ok Read
  else if String.eqb value "write" then Ok Write
  else if String.eqb value "execute" then Ok Execute
  else Err Malformed.

Definition I32_MAX : Z := 2147483647.
Record LauncherFilesystemRule := mkLauncherFilesystemRule {
  fr_descriptor : Z;
  fr_access : list LandlockAccess
}.
#[global] Instance LauncherFilesystemRule_eq_dec : EqDecision LauncherFilesystemRule.
Proof. solve_decision. Defined.
(** [sort_unstable_by_key]: elements with equal keys make the request invalid, so
    that every sort gives the same result. *)
Definition sort_by_key {A} (key : A -> Z) (l : list A) : list A := sort_by (fun a b => key a <? key b)%Z l.
Definition LauncherFilesystemRule_new (descriptor : Z) (access : list LandlockAccess) :
    result LauncherError LauncherFilesystemRule :=
  if (I32_MAX <? descriptor)%Z || bool_decide (access = []) then Err Malformed
  else
    let access := sort_by_key access_rank access in
    if windows_any (fun a b => bool_decide (a = b)) access then Err Malformed
    else Ok (mkLauncherFilesystemRule descriptor access).

Record InstallRequest := mkInstallRequest {
  ir_identity : LauncherIdentity;
  ir_executable_id : ArtifactIdentity;
  ir_executable_fd : Z;
  ir_working_directory_fd : Z;
  ir_arguments : list string;
  ir_environment : list (string * string);
  ir_filesystem : list LauncherFilesystemRule;
  ir_seccomp_program : list byte;
  ir_close_file_descriptors_from : Z
}.
#[global] Instance InstallRequest_eq_dec : EqDecision InstallRequest.
Proof. solve_decision. Defined.
Definition too_many {A} (l : list A) : bool := (MAX_COLLECTION_ITEMS <? Z.of_nat (length l))%Z.
Definition has_nul (value : string) : bool := bool_decide (mkb 0 ∈ String.list_ascii_of_string value).
Definition environment_entry_invalid (entry : string * string) : bool :=
  is_empty_string entry.1 || (255 <? Z.of_nat (length (String.list_ascii_of_string entry.1)))%Z || has_nul entry.1
  || bool_decide ("="%char ∈ String.list_ascii_of_string entry.1) || has_nul entry.2.
Definition executable_rule (executable_fd : Z) (rule : LauncherFilesystemRule) : bool :=
  (fr_descriptor rule =? executable_fd)%Z && bool_decide (fr_access rule = [Read; Execute]).
(** The three tests of [InstallRequest::new]. *)
Definition bounds_invalid (executable_id : ArtifactIdentity) (executable_fd working_directory_fd : Z)
    (arguments : list string) (environment : list (string * string)) (filesystem : list LauncherFilesystemRule)
    (seccomp_program : list byte) (close_file_descriptors_from : Z) : bool :=
  negb (bool_decide (role executable_id = RuntimeExecutable))
  || (executable_fd <? 3)%Z || (working_directory_fd <? 3)%Z
  || (I32_MAX <? executable_fd)%Z || (I32_MAX <? working_directory_fd)%Z
  || (I32_MAX <? close_file_descriptors_from)%Z || (close_file_descriptors_from <? 3)%Z
  || (close_file_descriptors_from <=? executable_fd)%Z || (close_file_descriptors_from <=? working_directory_fd)%Z
  || bool_decide (arguments = []) || too_many arguments || too_many environment
  || bool_decide (filesystem = []) || too_many filesystem || bool_decide (seccomp_program = []).
(** On the sorted rules. *)
Definition descriptors_invalid (executable_fd close_file_descriptors_from : Z)
    (filesystem : list LauncherFilesystemRule) : bool :=
  let executable_rule_is_closed := existsb (executable_rule executable_fd) filesystem in
  windows_any (fun a b => (fr_descriptor a =? fr_descriptor b)%Z) filesystem
  || existsb (fun rule => (fr_descriptor rule <? 3)%Z || (close_file_descriptors_from <=? fr_descriptor rule)%Z) filesystem
  || negb executable_rule_is_closed.
Definition text_invalid (arguments : list string) (environment : list (string * string)) : bool :=
  existsb has_nul arguments || existsb environment_entry_invalid environment.
Definition InstallRequest_new (identity : LauncherIdentity) (executable_id : ArtifactIdentity)
    (executable_fd working_directory_fd : Z) (arguments : list string) (environment : list (string * string))
    (filesystem : list LauncherFilesystemRule) (seccomp_program : list byte) (close_file_descriptors_from : Z) :
    result LauncherError InstallRequest :=
  if bounds_invalid executable_id executable_fd working_directory_fd arguments environment filesystem seccomp_program
       close_file_descriptors_from
  then Err Malformed
  else
    let filesystem := sort_by_key fr_descriptor filesystem in
    if descriptors_invalid executable_fd close_file_descriptors_from filesystem then Err Malformed
    else if text_invalid arguments environment then Err Malformed
    else Ok (mkInstallRequest identity executable_id executable_fd working_directory_fd arguments environment
               filesystem seccomp_program close_file_descriptors_from).

(** * Messages *)

Inductive LauncherStage :=
| Decode | Stage_Identity | FileDescriptors | Privileges | NoNewPrivileges | Landlock | Seccomp | Acknowledgement | Exec.
#[global] Instance LauncherStage_eq_dec : EqDecision LauncherStage.
Proof. solve_decision. Defined.
Definition LauncherStage_as_str (stage : LauncherStage) : string :=
  match stage with
  | Decode => "decode" | Stage_Identity => "identity" | FileDescriptors => "file-descriptors"
  | Privileges => "privileges" | NoNewPrivileges => "no-new-privileges" | Landlock => "landlock"
  | Seccomp => "seccomp" | Acknowledgement => "acknowledgement" | Exec => "exec"
  end.
Definition LauncherStage_parse (value : string) : result LauncherError LauncherStage :=
  if String.eqb value "decode" then Ok Decode
  else if String.eqb value "identity" then Ok Stage_Identity
  else if String.eqb value "file-descriptors" then Ok FileDescriptors
  else if String.eqb value "privileges" then Ok Privileges
  else if String.eqb value "no-new-privileges" then Ok NoNewPrivileges
  else if String.eqb value "landlock" then Ok Landlock
  else if String.eqb value "seccomp" then Ok Seccomp
  else if String.eqb value "acknowledgement" then Ok Acknowledgement
  else if String.eqb value "exec" then Ok Exec
  else Err Malformed.
Record LauncherFailure := mkLauncherFailure {
  lf_identity : LauncherIdentity;
  lf_stage : LauncherStage;
  lf_error_code : string
}.
#[global] Instance LauncherFailure_eq_dec : EqDecision LauncherFailure.
Proof. solve_decision. Defined.
Definition LauncherFailure_new (identity : LauncherIdentity) (stage : LauncherStage) (error_code : string) :
    result LauncherError LauncherFailure :=
  if is_empty_string error_code || (128 <? Z.of_nat (length (String.list_ascii_of_string error_code)))%Z
     || has_nul error_code
  then Err Malformed else Ok (mkLauncherFailure identity stage error_code).

(** [BoundaryInstalled] and [ExecRelease] hold nothing but the identity. *)
Inductive LauncherMessage :=
| Install (request : InstallRequest)
| Message_BoundaryInstalled (identity : LauncherIdentity)
| Message_ExecRelease (identity : LauncherIdentity)
| Message_Failure (failure : LauncherFailure).
#[global] Instance LauncherMessage_eq_dec : EqDecision LauncherMessage.
Proof. solve_decision. Defined.

Definition verify_launcher_response (message : LauncherMessage) (expected : LauncherIdentity) : result LauncherError () :=
  match message with
  | Message_BoundaryInstalled identity => LauncherIdentity_verify identity expected
  | Message_Failure failure => LauncherIdentity_verify (lf_identity failure) expected
  | Install _ | Message_ExecRelease _ => Err UnexpectedMessage
  end.

(** * The encoder *)

Inductive Value :=
| Unsigned (number : Z)
| Bytes (bytes : list byte)
| Text (text : string)
| Array (items : list Value)
| Map (entries : list (string * Value)).

Definition encode_header (major value : Z) (output : list byte) : list byte :=
  let prefix := Z.shiftl major 5 in
  if (value <=? 23)%Z then output ++ [mkb (Z.lor prefix value)]
  else if (value <=? 0xff)%Z then output ++ [mkb (Z.lor prefix 24); mkb value]
  else if (value <=? 0xffff)%Z then output ++ [mkb (Z.lor prefix 25)] ++ be_bytes 2 value
  else if (value <=? 0xffffffff)%Z then output ++ [mkb (Z.lor prefix 26)] ++ be_bytes 4 value
  else output ++ [mkb (Z.lor prefix 27)] ++ be_bytes 8 value.
(** [encode_header(major, u64::try_from(length)?, output)] *)
Definition encode_length (major : Z) (length : nat) (output : list byte) : result LauncherError (list byte) :=
  length ← ok_or (try_from u64_bound (Z.of_nat length)) FrameTooLarge;
  Ok (encode_header major length output).
(** The test at the end of [encode_value]. *)
Definition within_frame (output : list byte) : result LauncherError (list byte) :=
  if (MAX_LAUNCHER_FRAME_BYTES <? Z.of_nat (length output))%Z then Err FrameTooLarge else Ok output.
Definition encode_text (text : string) (output : list byte) : result LauncherError (list byte) :=
  output ← encode_length 3 (length (String.list_ascii_of_string text)) output;
  within_frame (output ++ String.list_ascii_of_string text).
Definition canonical_key_order (left right : string) : comparison :=
  cmp_then (Nat.compare (length (String.list_ascii_of_string left)) (length (String.list_ascii_of_string right)))
    (rcmp left right).
Definition key_before {A} (left right : string * A) : bool :=
  match canonical_key_order left.1 right.1 with Lt => true | _ => false end.

Definition encoder := list byte -> result LauncherError (list byte).
Fixpoint encode_all (encoders : list encoder) : encoder := fun output =>
  match encoders with
  | [] => Ok output
  | enc :: encoders => output ← enc output; encode_all encoders output
  end.
(** The keys of a message are distinct, so that the unstable sort is the stable one. *)
Fixpoint encode_value (value : Value) : encoder := fun output =>
  output ←
    match value with
    | Unsigned number => Ok (encode_header 0 number output)
    | Bytes bytes => output ← encode_length 2 (length bytes) output; Ok (output ++ bytes)
    | Text text => output ← encode_length 3 (length (String.list_ascii_of_string text)) output;
        Ok (output ++ String.list_ascii_of_string text)
    | Array items => output ← encode_length 4 (length items) output; encode_all (map encode_value items) output
    | Map entries =>
      let entries := sort_by key_before (map (fun kv => (kv.1, encode_value kv.2)) entries) in
      output ← encode_length 5 (length entries) output;
      encode_all (map (fun kv output => output ← encode_text kv.1 output; kv.2 output) entries) output
    end;
  within_frame output.

(** * The decoder *)

(** The [input] from the [position] on. *)
Record Decoder := mkDecoder { position : Z; rest : list byte }.
Definition Dec (A : Type) : Type := eff Decoder LauncherError A.

Definition decoder_bytes (length : Z) : Dec (list byte) := fun self =>
  match try_from u64_bound length with
  | None => (Err FrameTooLarge, self)
  | Some length =>
    match u64_checked_add (position self) length with
    | None => (Err FrameTooLarge, self)
    | Some end_ =>
      if (Z.of_nat (List.length (rest self)) <? length)%Z then (Err Truncated, self)
      else (Ok (take (Z.to_nat length) (rest self)), mkDecoder end_ (drop (Z.to_nat length) (rest self)))
    end
  end.
Definition decoder_byte : Dec byte := fun self =>
  match rest self with
  | [] => (Err Truncated, self)
  | b :: rest => (Ok b, mkDecoder (position self + 1) rest)
  end.
Definition decoder_argument (additional : Z) : Dec Z :=
  if (additional <=? 23)%Z then mret additional
  else if (additional =? 24)%Z then b ← decoder_byte; mret (bval b)
  else if (additional =? 25)%Z then bytes ← decoder_bytes 2; mret (be_value bytes)
  else if (additional =? 26)%Z then bytes ← decoder_bytes 4; mret (be_value bytes)
  else if (additional =? 27)%Z then bytes ← decoder_bytes 8; mret (be_value bytes)
  else throw Malformed.
Definition bounded_count (value : Z) : result LauncherError nat :=
  count ← ok_or (try_from u64_bound value) FrameTooLarge;
  if (MAX_COLLECTION_ITEMS <? count)%Z then Err FrameTooLarge else Ok (Z.to_nat count).

Fixpoint array_items (value : Dec Value) (count : nat) (items : list Value) : Dec (list Value) :=
  match count with
  | O => mret items
  | S count => item ← value; array_items value count (items ++ [item])
  end.
Fixpoint map_items (value : Dec Value) (count : nat) (entries : list (string * Value)) : Dec (list (string * Value)) :=
  match count with
  | O => mret entries
  | S count =>
    key ← value;
    match key with
    | Text key =>
      if existsb (fun entry => String.eqb entry.1 key) entries then throw DuplicateKey
      else item ← value; map_items value count (entries ++ [(key, item)])
    | _ => throw Malformed
    end
  end.
(** The [match major] of [Decoder::value]. *)
Definition decoder_item (value : Dec Value) (major argument : Z) : Dec Value :=
  if (major =? 0)%Z then mret (Unsigned argument)
  else if (major =? 2)%Z then bytes ← decoder_bytes argument; mret (Bytes bytes)
  else if (major =? 3)%Z then
    bytes ← decoder_bytes argument;
    text ← lift_result (ok_or (from_utf8 bytes) Malformed);
    mret (Text text)
  else if (major =? 4)%Z then
    count ← lift_result (bounded_count argument);
    items ← array_items value count [];
    mret (Array items)
  else if (major =? 5)%Z then
    count ← lift_result (bounded_count argument);
    entries ← map_items value count [];
    mret (Map entries)
  else throw Malformed.
(** [Decoder::value(depth)], with the levels [MAX_NESTING_DEPTH - depth] that are left. *)
Fixpoint decoder_value (levels : nat) : Dec Value :=
  match levels with
  | O => throw Malformed
  | S levels =>
    initial ← decoder_byte;
    let major := Z.shiftr (bval initial) 5 in
    let additional := Z.land (bval initial) 0x1f in
    if (additional =? 31)%Z then throw NonCanonical
    else argument ← decoder_argument additional; decoder_item (decoder_value levels) major argument
  end.

(** * Messages as values *)

Definition digest_value (digest : Sha256Digest) : Value :=
  Map [("algorithm", Text "sha256"); ("digest", Bytes (digest_bytes digest))].
Definition cgroup_value (identity : CgroupIdentity) : Value :=
  Map [("mount_id", Unsigned (cg_mount_id identity)); ("inode", Unsigned (cg_inode identity))].
Definition identity_entries (identity : LauncherIdentity) : list (string * Value) :=
  [("execution_id", Bytes (ExecutionId_as_bytes (li_execution_id identity)));
   ("policy_id", digest_value (li_policy_id identity)); ("cgroup_id", cgroup_value (li_cgroup_id identity))].
Definition artifact_value (identity : ArtifactIdentity) : Value :=
  Map [("role", Text (ArtifactRole_as_str (role identity))); ("digest", digest_value (digest identity));
       ("size", Unsigned (Identity.size identity)); ("mode", Unsigned (FileMode_get (mode identity)))].
Definition filesystem_rule_value (rule : LauncherFilesystemRule) : Value :=
  Map [("fd", Unsigned (fr_descriptor rule)); ("access", Array (map (fun item => Text (access_name item)) (fr_access rule)))].
Definition install_entries (request : InstallRequest) : list (string * Value) :=
  identity_entries (ir_identity request) ++
  [("schema", Text INSTALL_SCHEMA); ("executable_id", artifact_value (ir_executable_id request));
   ("executable_fd", Unsigned (ir_executable_fd request));
   ("working_directory_fd", Unsigned (ir_working_directory_fd request));
   ("arguments", Array (map Text (ir_arguments request)));
   ("environment", Map (map (fun nv => (nv.1, Text nv.2)) (ir_environment request)));
   ("filesystem", Array (map filesystem_rule_value (ir_filesystem request)));
   ("seccomp_program", Bytes (ir_seccomp_program request));
   ("close_file_descriptors_from", Unsigned (ir_close_file_descriptors_from request))].
Definition message_to_value (message : LauncherMessage) : Value :=
  match message with
  | Install request => Map (install_entries request)
  | Message_BoundaryInstalled identity =>
    Map (identity_entries identity ++ [("schema", Text BOUNDARY_SCHEMA); ("state", Text "installed")])
  | Message_ExecRelease identity =>
    Map (identity_entries identity ++ [("schema", Text RELEASE_SCHEMA); ("state", Text "released")])
  | Message_Failure failure =>
    Map (identity_entries (lf_identity failure) ++
      [("schema", Text FAILURE_SCHEMA); ("stage", Text (LauncherStage_as_str (lf_stage failure)));
       ("error_code", Text (lf_error_code failure))])
  end.

Definition as_map (value : Value) : result LauncherError (list (string * Value)) :=
  match value with Map value => Ok value | _ => Err Malformed end.
Definition as_array (value : Value) : result LauncherError (list Value) :=
  match value with Array value => Ok value | _ => Err Malformed end.
Definition as_text (value : Value) : result LauncherError string :=
  match value with Text value => Ok value | _ => Err Malformed end.
Definition as_bytes_of (value : Value) : result LauncherError (list byte) :=
  match value with Bytes value => Ok value | _ => Err Malformed end.
Definition as_unsigned (value : Value) : result LauncherError Z :=
  match value with Unsigned value => Ok value | _ => Err Malformed end.
Definition as_u32 (value : Value) : result LauncherError Z :=
  value ← as_unsigned value; ok_or (u32_try_from value) Malformed.
Definition require_keys (map : list (string * Value)) (expected : list string) : result LauncherError () :=
  if negb (length map =? length expected)
     || existsb (fun expected => negb (existsb (fun entry => String.eqb entry.1 expected) map)) expected
  then Err Malformed else Ok ().
Definition field (map : list (string * Value)) (name : string) : result LauncherError Value :=
  ok_or (snd <$> List.find (fun entry => String.eqb entry.1 name) map) Malformed.
(** [<[u8; N]>::try_from(&[u8])] *)
Definition exact_bytes (n : nat) (bytes : list byte) : result LauncherError (list byte) :=
  if length bytes =? n then Ok bytes else Err Malformed.

Definition decode_digest (value : Value) : result LauncherError Sha256Digest :=
  map ← as_map value;
  _ ← require_keys map ["algorithm"; "digest"];
  algorithm ← (field map "algorithm" ≫= as_text);
  if negb (String.eqb algorithm "sha256") then Err Malformed
  else
    bytes ← (field map "digest" ≫= as_bytes_of);
    bytes ← exact_bytes 32 bytes;
    Ok (Sha256Digest_from_bytes bytes).
Definition decode_cgroup (value : Value) : result LauncherError CgroupIdentity :=
  map ← as_map value;
  _ ← require_keys map ["mount_id"; "inode"];
  mount_id ← (field map "mount_id" ≫= as_unsigned);
  inode ← (field map "inode" ≫= as_unsigned);
  Ok (mkCgroupIdentity mount_id inode).
Definition decode_identity (map : list (string * Value)) : result LauncherError LauncherIdentity :=
  execution_bytes ← (field map "execution_id" ≫= as_bytes_of);
  execution_bytes ← exact_bytes 16 execution_bytes;
  execution_id ← map_err (fun _ => Malformed) (Receipt.ExecutionId_from_bytes execution_bytes);
  policy_id ← (field map "policy_id" ≫= decode_digest);
  cgroup_id ← (field map "cgroup_id" ≫= decode_cgroup);
  Ok (mkLauncherIdentity execution_id policy_id cgroup_id).
Definition decode_artifact (value : Value) : result LauncherError ArtifactIdentity :=
  map ← as_map value;
  _ ← require_keys map ["role"; "digest"; "size"; "mode"];
  role ← (field map "role" ≫= as_text);
  if negb (String.eqb role (ArtifactRole_as_str RuntimeExecutable)) then Err Malformed
  else
    mode ← (field map "mode" ≫= as_unsigned);
    mode ← ok_or (value ← u16_try_from mode; result_ok (FileMode_new value)) Malformed;
    digest ← (field map "digest" ≫= decode_digest);
    size ← (field map "size" ≫= as_unsigned);
    Ok (ArtifactIdentity_new RuntimeExecutable digest size mode).
Definition decode_filesystem_rule (value : Value) : result LauncherError LauncherFilesystemRule :=
  map ← as_map value;
  _ ← require_keys map ["fd"; "access"];
  access ← (field map "access" ≫= as_array);
  access ← mapM (fun value => text ← as_text value; parse_access text) access;
  descriptor ← (field map "fd" ≫= as_u32);
  LauncherFilesystemRule_new descriptor access.

Definition decode_install (map : list (string * Value)) : result LauncherError InstallRequest :=
  _ ← require_keys map
        ["schema"; "execution_id"; "policy_id"; "cgroup_id"; "executable_id"; "executable_fd"; "working_directory_fd";
         "arguments"; "environment"; "filesystem"; "seccomp_program"; "close_file_descriptors_from"];
  identity ← decode_identity map;
  executable_id ← (field map "executable_id" ≫= decode_artifact);
  executable_fd ← (field map "executable_fd" ≫= as_u32);
  working_directory_fd ← (field map "working_directory_fd" ≫= as_u32);
  arguments ← (field map "arguments" ≫= as_array);
  arguments ← mapM as_text arguments;
  environment ← (field map "environment" ≫= as_map);
  environment ← mapM (fun nv => value ← as_text nv.2; Ok (nv.1, value)) environment;
  filesystem ← (field map "filesystem" ≫= as_array);
  filesystem ← mapM decode_filesystem_rule filesystem;
  seccomp_program ← (field map "seccomp_program" ≫= as_bytes_of);
  close_file_descriptors_from ← (field map "close_file_descriptors_from" ≫= as_u32);
  InstallRequest_new identity executable_id executable_fd working_directory_fd arguments (object_of environment)
    filesystem seccomp_program close_file_descriptors_from.
(** [decode_boundary] and [decode_release] differ in the state they require. *)
Definition decode_state (state : string) (map : list (string * Value)) : result LauncherError LauncherIdentity :=
  _ ← require_keys map ["schema"; "execution_id"; "policy_id"; "cgroup_id"; "state"];
  value ← (field map "state" ≫= as_text);
  if negb (String.eqb value state) then Err Malformed else decode_identity map.
Definition decode_boundary : list (string * Value) -> result LauncherError LauncherIdentity := decode_state "installed".
Definition decode_release : list (string * Value) -> result LauncherError LauncherIdentity := decode_state "released".
Definition decode_failure (map : list (string * Value)) : result LauncherError LauncherFailure :=
  _ ← require_keys map ["schema"; "execution_id"; "policy_id"; "cgroup_id"; "stage"; "error_code"];
  identity ← decode_identity map;
  stage ← (field map "stage" ≫= as_text);
  stage ← LauncherStage_parse stage;
  error_code ← (field map "error_code" ≫= as_text);
  LauncherFailure_new identity stage error_code.
Definition value_to_message (value : Value) : result LauncherError LauncherMessage :=
  map ← as_map value;
  schema ← (field map "schema" ≫= as_text);
  if String.eqb schema INSTALL_SCHEMA then Install <$> decode_install map
  else if String.eqb schema BOUNDARY_SCHEMA then Message_BoundaryInstalled <$> decode_boundary map
  else if String.eqb schema RELEASE_SCHEMA then Message_ExecRelease <$> decode_release map
  else if String.eqb schema FAILURE_SCHEMA then Message_Failure <$> decode_failure map
  else Err UnsupportedVersion.

Definition encode_launcher_message (message : LauncherMessage) : result LauncherError (list byte) :=
  output ← encode_value (message_to_value message) [];
  within_frame output.
Definition decode_launcher_message (input : list byte) : result LauncherError LauncherMessage :=
  if bool_decide (input = []) then Err Eof
  else if (MAX_LAUNCHER_FRAME_BYTES <? Z.of_nat (length input))%Z then Err FrameTooLarge
  else
    let '(value, decoder) := decoder_value MAX_NESTING_DEPTH (mkDecoder 0 input) in
    value ← value;
    if negb (position decoder =? Z.of_nat (length input))%Z then Err TrailingData
    else
      message ← value_to_message value;
      canonical ← encode_launcher_message message;
      if negb (bool_decide (canonical = input)) then Err NonCanonical else Ok message.
