(* ===== verification/LauncherWire.v ===== *)
(** The launcher protocol on the wire: the encoder of [Launcher] writes the bytes
    of the core codec ([WireV2]), within the limit of a frame, and the decoder
    accepts exactly the bytes that the encoder writes for a well-formed message. *)
From S2P Require Import Prelude Identity Launcher.
From S2P Require WireV2 WireMaps JsonCbor Receipt Landlock.
From Stdlib Require Import Ascii ZArith Lia Sorted.
From stdpp Require Import prelude strings list numbers gmap.
Export stdpp.list_relations.list.
Import Landlock(LandlockAccess(..), LandlockAccess_eq_dec).
Import Receipt(ExecutionId, mkExecutionId, ExecutionId_as_bytes, CgroupIdentity, mkCgroupIdentity, cg_mount_id, cg_inode).
Abbreviation bytes_of s := (String.list_ascii_of_string s).

(** * The order of keys *)

Lemma be_bytes_order n a b x y :
  (0 <= a)%Z -> (a mod 256 ^ Z.of_nat n < b mod 256 ^ Z.of_nat n)%Z ->
  rcmp (be_bytes n a ++ x) (be_bytes n b ++ y) = Lt.
Proof.
  intros Ha. revert x y. induction n as [|n IH]; intros x y Hab.
  { cbn in Hab. rewrite !Z.mod_1_r in Hab. lia. }
  cbn [be_bytes app]. rewrite rcmp_cons.
  assert (forall z, z mod 256 ^ Z.of_nat (S n) = z mod 256 ^ Z.of_nat n + 256 ^ Z.of_nat n * bval (mkb (z / 256 ^ Z.of_nat n)))%Z as Hz.
  { intros z. rewrite bval_mkb, Nat2Z.inj_succ, Z.pow_succ_r, Z.mul_comm by lia. apply Z.rem_mul_r; lia. }
  rewrite (Hz a), (Hz b) in Hab. clear Hz.
  pose proof (Z.mod_pos_bound a (256 ^ Z.of_nat n) ltac:(lia)). pose proof (Z.mod_pos_bound b (256 ^ Z.of_nat n) ltac:(lia)).
  destruct (rcmp (mkb (a / 256 ^ Z.of_nat n)) (mkb (b / 256 ^ Z.of_nat n))) eqn:Hc; cbn.
  - apply rcmp_Eq in Hc. rewrite Hc in Hab. apply IH. lia.
  - done.
  - exfalso. change (bval (mkb (a / 256 ^ Z.of_nat n)) ?= bval (mkb (b / 256 ^ Z.of_nat n)) = Gt)%Z in Hc.
    rewrite Z.compare_gt_iff in Hc. nia.
Qed.
Lemma initial_byte_order i j : (0 <= i < 32)%Z -> (0 <= j < 32)%Z ->
  rcmp (mkb (WireV2.initial_byte 3 i)) (mkb (WireV2.initial_byte 3 j)) = (i ?= j)%Z.
Proof.
  intros Hi Hj. change (bval (mkb (WireV2.initial_byte 3 i)) ?= bval (mkb (WireV2.initial_byte 3 j)) = (i ?= j))%Z.
  rewrite !WireV2.initial_byte_value, !bval_mkb_small by lia.
  destruct (Z.compare_spec i j); [subst; apply Z.compare_refl|rewrite Z.compare_lt_iff; lia|rewrite Z.compare_gt_iff; lia].
Qed.
(** A longer text has the greater head. *)
Lemma argument_order n m x y : (0 <= n < m)%Z -> (m < u64_bound)%Z ->
  rcmp (WireV2.encode_argument 3 n [] ++ x) (WireV2.encode_argument 3 m [] ++ y) = Lt.
Proof.
  intros Hn Hm. rewrite !WireV2.encode_argument_split by lia. cbn [app]. rewrite rcmp_cons.
  rewrite initial_byte_order by (apply WireV2.arg_split_additional; lia). revert Hn Hm.
  unfold WireV2.arg_split. WireV2.pow_consts.
  repeat case_match; cbn [fst snd]; intros Hn Hm; try lia;
    try (rewrite (proj2 (Z.compare_lt_iff _ _)) by lia; done); rewrite Z.compare_refl; cbn [cmp_then];
    apply be_bytes_order; WireV2.pow_consts; rewrite ?Z.mod_small by lia; lia.
Qed.
Lemma key_order a b : WireV2.text_ok a = true -> WireV2.text_ok b = true ->
  canonical_key_order a b = rcmp (WireV2.text_wire a) (WireV2.text_wire b).
Proof.
  intros [_ Ha]%WireV2.text_ok_spec [_ Hb]%WireV2.text_ok_spec. unfold canonical_key_order, WireV2.text_wire.
  destruct (Nat.compare_spec (length (bytes_of a)) (length (bytes_of b))) as [He|Hlt|Hgt]; cbn [cmp_then].
  - rewrite <- He. induction (WireV2.encode_argument 3 _ []) as [|h l IH]; [done|]. cbn [app].
    by rewrite rcmp_cons, rcmp_refl.
  - symmetry. apply argument_order; lia.
  - rewrite rcmp_opp, argument_order by lia. done.
Qed.

(** * Values *)

Section value_induction.
Variable P : Value -> Prop.
Hypothesis HUnsigned : forall number, P (Unsigned number).
Hypothesis HBytes : forall bytes, P (Bytes bytes).
Hypothesis HText : forall text, P (Text text).
Hypothesis HArray : forall items, Forall P items -> P (Array items).
Hypothesis HMap : forall entries, Forall (fun kv => P kv.2) entries -> P (Map entries).
Fixpoint Value_rec_full (v : Value) : P v :=
  match v with
  | Unsigned number => HUnsigned number
  | Bytes bytes => HBytes bytes
  | Text text => HText text
  | Array items =>
    HArray items ((fix go l : Forall P l :=
      match l with [] => Forall_nil_2 _ | v :: l => Forall_cons_2 _ _ _ (Value_rec_full v) (go l) end) items)
  | Map entries =>
    HMap entries ((fix go l : Forall (fun kv => P kv.2) l :=
      match l with [] => Forall_nil_2 _ | kv :: l => Forall_cons_2 _ _ _ (Value_rec_full kv.2) (go l) end) entries)
  end.
End value_induction.

(** The value as one of the core codec. *)
Fixpoint core_value (v : Value) : WireV2.Value :=
  match v with
  | Unsigned number => WireV2.Unsigned number
  | Bytes bytes => WireV2.Bytes bytes
  | Text text => WireV2.Text text
  | Array items => WireV2.Array (map core_value items)
  | Map entries => WireV2.Map (map (fun kv => (kv.1, core_value kv.2)) entries)
  end.
(** The value with its maps in the order the encoder writes them. *)
Fixpoint in_order (v : Value) : Value :=
  match v with
  | Array items => Array (map in_order items)
  | Map entries => Map (sort_by key_before (map (fun kv => (kv.1, in_order kv.2)) entries))
  | v => v
  end.
Definition typed (v : Value) : Prop := WireV2.typed (core_value v) = true.
Definition distinct (v : Value) : Prop := WireV2.distinct_keys (core_value v) = true.

Lemma typed_Array items : typed (Array items) <-> (Z.of_nat (length items) < u64_bound)%Z /\ Forall typed items.
Proof.
  unfold typed. cbn. rewrite andb_true_iff, WireV2.in_u64_spec, forallb_Forall', Forall_fmap, length_map.
  split; [intros [[_ ?] ?]|intros [? ?]]; repeat split; done || lia.
Qed.
Lemma typed_Map entries : typed (Map entries) <->
  (Z.of_nat (length entries) < u64_bound)%Z /\ Forall (fun kv => WireV2.text_ok kv.1 = true /\ typed kv.2) entries.
Proof.
  unfold typed. cbn. rewrite andb_true_iff, WireV2.in_u64_spec, forallb_Forall', Forall_fmap, length_map.
  split; [intros [[_ Hl] H]|intros [Hl H]]; (split; [done || lia|]); (eapply Forall_impl; [exact H|]); cbn; intros kv;
    by rewrite andb_true_iff.
Qed.
Lemma distinct_Array items : distinct (Array items) <-> Forall distinct items.
Proof. unfold distinct. cbn. by rewrite forallb_Forall', Forall_fmap. Qed.
Lemma distinct_Map entries : distinct (Map entries) <-> NoDup entries.*1 /\ Forall (fun kv => distinct kv.2) entries.
Proof.
  unfold distinct. cbn. rewrite andb_true_iff, bool_decide_eq_true, forallb_Forall', Forall_fmap.
  change (map ?f ?l) with (f <$> l). by rewrite <- list_fmap_compose.
Qed.

Lemma sort_by_ext {A} (f g : A -> A -> bool) (l : list A) :
  (forall a b, a ∈ l -> b ∈ l -> f a b = g a b) -> sort_by f l = sort_by g l.
Proof.
  induction l as [|x l IH]; intros H; [done|].
  change (insert_by f x (sort_by f l) = insert_by g x (sort_by g l)).
  rewrite IH by (intros; apply H; by right).
  assert (forall y, y ∈ sort_by g l -> f y x = g y x) as Hx.
  { intros y Hy. rewrite sort_by_Permutation in Hy. apply H; [by right|left]. }
  clear IH H. revert Hx. induction (sort_by g l) as [|y k IHk]; intros Hx; cbn; [done|].
  rewrite (Hx y) by left. destruct (g y x); [|done]. f_equal. apply IHk. intros z Hz. apply Hx. by right.
Qed.
Lemma core_in_order v : typed v -> core_value (in_order v) = WireV2.canon (core_value v).
Proof.
  induction v as [number|bytes|text|items IH|entries IH] using Value_rec_full; intros Hty; cbn; try done.
  - apply typed_Array in Hty as [_ Hty]. f_equal. rewrite !map_map. clear -IH Hty.
    induction IH; inversion Hty; subst; cbn; f_equal; auto.
  - apply typed_Map in Hty as [_ Hty]. f_equal. rewrite map_map. cbn.
    change (map (fun kv : string * Value => (kv.1, core_value kv.2)) ?l) with ((fun kv : string * Value => (kv.1, core_value kv.2)) <$> l).
    rewrite (sort_by_fmap (fun kv : string * Value => (kv.1, core_value kv.2)) key_before
      (fun l r => match canonical_key_order l.1 r.1 with Lt => true | _ => false end)) by done.
    rewrite <- list_fmap_compose. cbn.
    assert ((fun kv : string * Value => (kv.1, core_value (in_order kv.2))) <$> entries
      = (fun kv => (kv.1, WireV2.canon (core_value kv.2))) <$> entries) as He.
    { clear -IH Hty. induction IH as [|kv l H _ IHl]; [done|]. apply Forall_cons in Hty as [[_ Hkv] Hty]. cbn.
      rewrite (H Hkv). f_equal. auto. }
    change (sort_by (fun l r => match canonical_key_order l.1 r.1 with Lt => true | _ => false end)
      ((fun kv : string * Value => (kv.1, core_value (in_order kv.2))) <$> entries)
      = sort_by (fun l r => WireV2.key_lt l.1 r.1) ((fun kv => (kv.1, WireV2.canon (core_value kv.2))) <$> entries)).
    rewrite He. apply sort_by_ext. rewrite Forall_forall in Hty.
    intros a b (x & -> & Hx)%list_elem_of_fmap (y & -> & Hy)%list_elem_of_fmap. cbn. unfold WireV2.key_lt.
    rewrite key_order by (by apply Hty). done.
Qed.

(** * The encoder *)

(** An encoder that appends [w], when the frame stays within its limit. *)
Definition emits (enc : encoder) (w : list byte) : Prop := forall output, enc output = within_frame (output ++ w).
Lemma within_frame_bind x y :
  (output ← within_frame x; within_frame (output ++ y)) = within_frame (x ++ y).
Proof.
  unfold within_frame. destruct (MAX_LAUNCHER_FRAME_BYTES <? Z.of_nat (length x))%Z eqn:Hx; cbn; [|done].
  rewrite length_app. apply Z.ltb_lt in Hx. by rewrite (proj2 (Z.ltb_lt _ _)) by lia.
Qed.
Lemma within_frame_idem x : (within_frame x ≫= within_frame) = within_frame x.
Proof. unfold within_frame. destruct (_ <? _)%Z eqn:Hx; cbn; [done|]. by rewrite Hx. Qed.
Lemma within_frame_Ok x y : within_frame x = Ok y <-> y = x /\ (Z.of_nat (length x) <= MAX_LAUNCHER_FRAME_BYTES)%Z.
Proof. unfold within_frame. destruct (Z.ltb_spec MAX_LAUNCHER_FRAME_BYTES (Z.of_nat (length x))); naive_solver lia. Qed.
Lemma bind_assoc {E A B C} (m : result E A) (f : A -> result E B) (g : B -> result E C) :
  ((m ≫= f) ≫= g) = (m ≫= fun a => f a ≫= g).
Proof. by destruct m. Qed.

Lemma encode_all_emits {A} (enc : A -> encoder) (w : A -> list byte) l :
  Forall (fun a => emits (enc a) (w a)) l ->
  forall output, (encode_all (map enc l) output ≫= within_frame) = within_frame (output ++ concat (map w l)).
Proof.
  induction 1 as [|a l Ha _ IH]; intros output; cbn [map encode_all concat]; [by rewrite app_nil_r|].
  rewrite Ha, bind_assoc, app_assoc, <- (within_frame_bind (output ++ w a)).
  destruct (within_frame (output ++ w a)) as [o|] eqn:Ho; [|done]. cbn [mbind result_bind]. apply IH.
Qed.
Lemma encode_header_core major n output : (0 <= major < 8)%Z -> (0 <= n < u64_bound)%Z ->
  encode_header major n output = output ++ WireV2.encode_argument major n [].
Proof.
  intros Hm Hn. rewrite <- WireV2.encode_argument_app by lia.
  unfold encode_header, WireV2.encode_argument, u8_try_from, u16_try_from, u32_try_from, try_from.
  rewrite (proj2 (Z.leb_le 0 n)) by lia. cbn [andb].
  assert (Z.shiftl major 5 mod 256 = Z.shiftl major 5)%Z as ->.
  { rewrite Z.shiftl_mul_pow2 by lia. apply Z.mod_small. change (2 ^ 5)%Z with 32%Z. lia. }
  WireV2.pow_consts.
  destruct (Z.leb_spec n 23), (Z.ltb_spec n 24); try lia; [done|].
  destruct (Z.leb_spec n 0xff), (Z.ltb_spec n 256); try lia; [done|].
  destruct (Z.leb_spec n 0xffff), (Z.ltb_spec n 65536); try lia; [done|].
  destruct (Z.leb_spec n 0xffffffff), (Z.ltb_spec n 4294967296); try lia; done.
Qed.
Lemma encode_length_core major n output : (0 <= major < 8)%Z -> (Z.of_nat n < u64_bound)%Z ->
  encode_length major n output = Ok (output ++ WireV2.encode_argument major (Z.of_nat n) []).
Proof.
  intros Hm Hn. unfold encode_length. rewrite (proj2 (try_from_Some _ _ (Z.of_nat n))) by lia. cbn.
  by rewrite encode_header_core by lia.
Qed.
Lemma launcher_text_emits text : WireV2.text_ok text = true -> emits (encode_text text) (WireV2.text_wire text).
Proof.
  intros [_ Ht]%WireV2.text_ok_spec output. unfold encode_text. rewrite encode_length_core by lia. cbn.
  by rewrite <- app_assoc.
Qed.
Lemma encode_value_emits v : typed v -> emits (encode_value v) (WireV2.wire (core_value (in_order v))).
Proof.
  induction v as [number|bytes|text|items IH|entries IH] using Value_rec_full; intros Hty output; cbn [encode_value in_order core_value WireV2.wire].
  - apply WireV2.in_u64_spec in Hty. rewrite encode_header_core by lia. done.
  - apply WireV2.in_u64_spec in Hty. rewrite encode_length_core by lia. cbn. by rewrite <- app_assoc.
  - apply WireV2.text_ok_spec in Hty as [_ Hty]. rewrite encode_length_core by lia. cbn. by rewrite <- app_assoc.
  - apply typed_Array in Hty as [Hl Hty]. rewrite encode_length_core by lia. cbn [mbind result_bind].
    rewrite (encode_all_emits _ (fun v => WireV2.wire (core_value (in_order v)))).
    + by rewrite !length_map, !map_map, <- app_assoc.
    + clear Hl. induction IH; inversion Hty; subst; constructor; auto.
  - apply typed_Map in Hty as [Hl Hty].
    change (map (fun kv : string * Value => (kv.1, ?f kv.2)) entries) with ((fun kv : string * Value => (kv.1, f kv.2)) <$> entries).
    rewrite <- !(sort_by_fmap _ key_before key_before) by done.
    pose proof (sort_by_Permutation key_before entries) as Hp. set (ks := sort_by key_before entries) in *.
    rewrite !length_fmap, (Permutation_length Hp), encode_length_core by lia.
    cbn [mbind result_bind]. change (?f <$> ks) with (map f ks). rewrite !map_map. cbn [fst snd].
    rewrite (encode_all_emits (fun kv output => output ← encode_text kv.1 output; encode_value kv.2 output)
      (fun kv => WireV2.text_wire kv.1 ++ WireV2.wire (core_value (in_order kv.2)))).
    + by rewrite <- app_assoc.
    + rewrite Hp. clear Hl Hp. induction IH as [|kv l Hkv _ IHl]; inversion Hty as [|? ? [Hk Hv]]; subst; constructor; [|auto].
      intros o. rewrite (launcher_text_emits _ Hk). rewrite app_assoc, <- (within_frame_bind (o ++ WireV2.text_wire kv.1)).
      destruct (within_frame _); [|done]. cbn. by apply Hkv.
Qed.

(** * The decoder reads what the encoder writes *)

(** [m] reads exactly [w], and returns [a]. *)
Definition reads {A} (m : Dec A) (w : list byte) (a : A) : Prop := forall pos tail,
  (0 <= pos)%Z -> (pos + Z.of_nat (length w) < u64_bound)%Z ->
  m (mkDecoder pos (w ++ tail)) = (Ok a, mkDecoder (pos + Z.of_nat (length w)) tail).
Lemma reads_ret {A} (a : A) : reads (mret a) [] a.
Proof. intros pos tail _ _. cbn. by rewrite Z.add_0_r. Qed.
Lemma reads_lift {A} (m : result LauncherError A) a : m = Ok a -> reads (lift_result m) [] a.
Proof. intros -> pos tail _ _. cbn. by rewrite Z.add_0_r. Qed.
Lemma reads_bind {A B} (m : Dec A) (f : A -> Dec B) x a y b :
  reads m x a -> reads (f a) y b -> reads (m ≫= f) (x ++ y) b.
Proof.
  intros Hm Hf pos tail Hp Hl. rewrite length_app in *. rewrite <- app_assoc.
  rewrite (eff_bind_eq _ _ _ _ _ (Hm pos _ Hp ltac:(lia))). rewrite Hf by lia. do 2 f_equal. lia.
Qed.
Lemma reads_bind_last {A B} (m : Dec A) (f : A -> Dec B) x a b :
  reads m x a -> reads (f a) [] b -> reads (m ≫= f) x b.
Proof. intros Hm Hf. rewrite <- (app_nil_r x). by eapply reads_bind. Qed.
Lemma reads_byte b : reads decoder_byte [b] b.
Proof. done. Qed.
Lemma reads_bytes w n : n = Z.of_nat (length w) -> reads (decoder_bytes n) w w.
Proof.
  intros -> pos tail Hp Hl. unfold decoder_bytes. rewrite (proj2 (try_from_Some _ _ (Z.of_nat (length w)))) by lia.
  cbn [position rest]. unfold u64_checked_add. rewrite (proj2 (try_from_Some _ _ (pos + Z.of_nat (length w)))) by lia.
  rewrite (proj2 (Z.ltb_ge _ _)) by (rewrite length_app; lia).
  by rewrite Nat2Z.id, take_app_length, drop_app_length.
Qed.
Lemma reads_argument n : (0 <= n < u64_bound)%Z ->
  reads (decoder_argument (WireV2.arg_split n).1) (WireV2.arg_split n).2 n.
Proof.
  intros Hn. unfold WireV2.arg_split, decoder_argument. WireV2.pow_consts.
  destruct (Z.ltb_spec n 24); [cbn [fst snd]; rewrite (proj2 (Z.leb_le _ _)) by lia; apply reads_ret|].
  destruct (Z.ltb_spec n 256); [|destruct (Z.ltb_spec n 65536); [|destruct (Z.ltb_spec n 4294967296)]];
    cbn [fst snd Z.leb Z.eqb Z.compare Pos.compare Pos.compare_cont Pos.eqb].
  - eapply reads_bind_last; [apply reads_byte|]. cbn. rewrite Z.div_1_r, bval_mkb_small by lia. apply reads_ret.
  - eapply reads_bind_last; [apply reads_bytes; by rewrite length_be_bytes|].
    rewrite be_value_be_bytes_small by (WireV2.pow_consts; lia). apply reads_ret.
  - eapply reads_bind_last; [apply reads_bytes; by rewrite length_be_bytes|].
    rewrite be_value_be_bytes_small by (WireV2.pow_consts; lia). apply reads_ret.
  - eapply reads_bind_last; [apply reads_bytes; by rewrite length_be_bytes|].
    rewrite be_value_be_bytes_small by (WireV2.pow_consts; lia). apply reads_ret.
Qed.
Lemma reads_head levels major n w v : (0 <= major < 8)%Z -> (0 <= n < u64_bound)%Z ->
  reads (decoder_item (decoder_value levels) major n) w v ->
  reads (decoder_value (S levels)) (WireV2.encode_argument major n [] ++ w) v.
Proof.
  intros Hm Hn Hw. rewrite WireV2.encode_argument_split by lia. cbn [app].
  pose proof (WireV2.arg_split_additional n (proj1 Hn)) as Ha.
  destruct (WireV2.initial_byte_parts major (WireV2.arg_split n).1 Hm Ha) as (Hb & Hmaj & Hadd).
  change (mkb ?b :: ?l ++ w) with ([mkb b] ++ (l ++ w)). cbn [decoder_value].
  eapply reads_bind; [apply reads_byte|]. cbn beta zeta. rewrite Hb, Hmaj, Hadd.
  rewrite (proj2 (Z.eqb_neq (WireV2.arg_split n).1 31)).
  - eapply reads_bind; [by apply reads_argument|exact Hw].
  - unfold WireV2.arg_split. repeat case_match; cbn; lia.
Qed.
Lemma reads_array value (w : Value -> list byte) items : Forall (fun v => reads value (w v) v) items ->
  forall acc, reads (array_items value (length items) acc) (concat (map w items)) (acc ++ items).
Proof.
  induction 1 as [|v items Hv _ IH]; intros acc; cbn; [rewrite app_nil_r; apply reads_ret|].
  eapply reads_bind; [exact Hv|]. replace (acc ++ v :: items) with ((acc ++ [v]) ++ items) by by rewrite <- app_assoc. apply IH.
Qed.
Lemma reads_map value (w : Value -> list byte) entries :
  Forall (fun kv => reads value (WireV2.text_wire kv.1) (Text kv.1) /\ reads value (w kv.2) kv.2) entries ->
  forall acc, NoDup (acc.*1 ++ entries.*1) ->
  reads (map_items value (length entries) acc) (concat (map (fun kv => WireV2.text_wire kv.1 ++ w kv.2) entries))
    (acc ++ entries).
Proof.
  induction 1 as [|[k v] entries [Hk Hv] _ IH]; intros acc Hnd; cbn; [rewrite app_nil_r; apply reads_ret|].
  rewrite <- app_assoc. eapply reads_bind; [exact Hk|]. cbn.
  replace (existsb (fun entry => String.eqb entry.1 k) acc) with false.
  - eapply reads_bind; [exact Hv|]. replace (acc ++ (k, v) :: entries) with ((acc ++ [(k, v)]) ++ entries) by by rewrite <- app_assoc.
    apply IH.
    rewrite fmap_app, <- app_assoc. exact Hnd.
  - symmetry. apply not_true_iff_false. intros ([k' v'] & Hin & He)%existsb_exists. cbn in He.
    apply String.eqb_eq in He as ->. apply NoDup_app in Hnd as (_ & Hd & _). apply (Hd k); [|left].
    apply list_elem_of_fmap. exists (k, v'). split; [done|]. by apply list_elem_of_In.
Qed.

(** Every collection is within the decoder's limit. *)
Fixpoint small (v : Value) : Prop :=
  match v with
  | Array items => (Z.of_nat (length items) <= MAX_COLLECTION_ITEMS)%Z /\ foldr (fun v P => small v /\ P) True items
  | Map entries => (Z.of_nat (length entries) <= MAX_COLLECTION_ITEMS)%Z /\ foldr (fun kv P => small kv.2 /\ P) True entries
  | _ => True
  end.
Definition nesting (v : Value) : nat := WireV2.nesting (core_value v).
Lemma bounded_count_small n : (Z.of_nat n <= MAX_COLLECTION_ITEMS)%Z -> bounded_count (Z.of_nat n) = Ok n.
Proof.
  intros Hn. unfold bounded_count. unfold MAX_COLLECTION_ITEMS in *.
  rewrite (proj2 (try_from_Some _ _ (Z.of_nat n))) by (unfold u64_bound; lia). cbn [ok_or mbind result_bind].
  by rewrite (proj2 (Z.ltb_ge _ _)), Nat2Z.id by lia.
Qed.
Lemma text_reads levels text : WireV2.text_ok text = true -> reads (decoder_value (S levels)) (WireV2.text_wire text) (Text text).
Proof.
  intros [Hs Hl]%WireV2.text_ok_spec. apply reads_head; [lia..|]. cbn [decoder_item Z.eqb Pos.eqb].
  eapply reads_bind_last; [by apply reads_bytes|]. eapply reads_bind_last; [|apply reads_ret].
  apply reads_lift. rewrite (proj2 (from_utf8_Some _ text)); [done|]. done.
Qed.
Lemma value_reads v : forall levels, WireV2.value_ok (core_value v) = true -> nesting v < levels -> small v ->
  reads (decoder_value levels) (WireV2.wire (core_value v)) v.
Proof.
  unfold nesting. induction v as [number|bytes|text|items IH|entries IH] using Value_rec_full; intros [|levels] Hok Hn Hs; try lia;
    cbn [core_value WireV2.wire WireV2.value_ok WireV2.nesting small] in *.
  - apply WireV2.in_u64_spec in Hok. rewrite <- (app_nil_r (WireV2.encode_argument _ _ _)).
    apply reads_head; [lia..|]. apply reads_ret.
  - apply WireV2.in_u64_spec in Hok. apply reads_head; [lia..|]. cbn [decoder_item Z.eqb Pos.eqb].
    eapply reads_bind_last; [by apply reads_bytes|]. apply reads_ret.
  - by apply text_reads.
  - apply andb_true_iff in Hok as [Hl Hok]. rewrite length_map in *. apply WireV2.in_u64_spec in Hl.
    destruct Hs as [Hc Hs]. apply reads_head; [lia..|]. cbn [decoder_item Z.eqb Pos.eqb].
    rewrite <- (app_nil_l (concat _)). eapply reads_bind; [by apply reads_lift, bounded_count_small|].
    eapply reads_bind_last; [|apply reads_ret]. rewrite map_map. apply (reads_array _ (fun v => WireV2.wire (core_value v)) items) with (acc := []).
    rewrite map_map in Hn. apply forallb_Forall', Forall_fmap in Hok.
    clear Hl Hc. induction IH as [|v items Hv _ IHl]; [done|]. apply Forall_cons in Hok as [Hok1 Hok]. destruct Hs as [Hs1 Hs]. unfold WireV2.max_list in *. cbn in Hn.
    constructor; [apply Hv; [done|lia|done]|]. apply IHl; [done|lia|done].
  - apply andb_true_iff in Hok as [[Hl Hok]%andb_true_iff Hw]. rewrite length_map in *. apply WireV2.in_u64_spec in Hl.
    destruct Hs as [Hc Hs]. apply reads_head; [lia..|]. cbn [decoder_item Z.eqb Pos.eqb].
    rewrite <- (app_nil_l (concat _)). eapply reads_bind; [by apply reads_lift, bounded_count_small|].
    eapply reads_bind_last; [|apply reads_ret]. rewrite map_map. cbn [fst snd].
    apply (reads_map _ (fun v => WireV2.wire (core_value v)) entries) with (acc := []).
    + rewrite map_map in Hn. cbn in Hn. apply forallb_Forall', Forall_fmap in Hok. clear Hl Hc Hw.
      induction IH as [|kv entries Hv _ IHl]; [done|]. apply Forall_cons in Hok as [[Hk Hok1]%andb_true_iff Hok].
      destruct Hs as [Hs1 Hs]. unfold WireV2.max_list in *. cbn in Hn. constructor; [|apply IHl; [done|lia|done]].
      destruct levels as [|levels]; [lia|]. split; [by apply text_reads|apply Hv; [done|lia|done]].
    + cbn. change (map ?f entries) with (f <$> entries) in Hw. rewrite <- list_fmap_compose in Hw.
      change (WireV2.key_lt) with (fun k k' => rlt (WireV2.text_wire k) (WireV2.text_wire k')) in Hw.
      rewrite <- (WireV2.windows_all_fmap WireV2.text_wire rlt) in Hw. apply windows_all_rlt, strict_NoDup, NoDup_fmap_1 in Hw.
      exact Hw.
Qed.
Lemma in_order_small v : small v -> small (in_order v).
Proof.
  induction v as [number|bytes|text|items IH|entries IH] using Value_rec_full; cbn; try done.
  - rewrite length_map, !JsonCbor.foldr_Forall. intros [Hl Hs]. split; [done|]. apply Forall_fmap.
    clear Hl. induction IH; inversion Hs; subst; constructor; cbn; auto.
  - rewrite (Permutation_length (sort_by_Permutation _ _)), length_map.
    rewrite (JsonCbor.foldr_Forall (fun kv => small kv.2)), (JsonCbor.foldr_Forall (fun kv => small kv.2)).
    intros [Hl Hs]. split; [done|]. rewrite sort_by_Permutation. apply Forall_fmap.
    clear Hl. induction IH; inversion Hs; subst; constructor; cbn; auto.
Qed.

(** * Validation *)

Lemma sort_by_key_sort {A} (key : A -> Z) (l : list A) : key <$> sort_by_key key l = Prelude.sort (key <$> l).
Proof. unfold sort_by_key, Prelude.sort. by apply sort_by_fmap. Qed.
Lemma sort_by_key_Permutation {A} (key : A -> Z) (l : list A) : sort_by_key key l ≡ₚ l.
Proof. apply sort_by_Permutation. Qed.
Lemma duplicate_keys {A} (key : A -> Z) (same : A -> A -> bool) (l : list A) :
  (forall a b, same a b = bool_decide (key a = key b)) ->
  windows_any same (sort_by_key key l) = false <-> NoDup (key <$> l).
Proof.
  intros Hs. rewrite <- Receipt.adjacent_equal_sort, <- sort_by_key_sort. unfold Receipt.adjacent_equal, windows_any.
  rewrite WireV2.windows_all_fmap. do 2 f_equiv.
  induction (sort_by_key key l) as [|a [|b k] IH]; [done..|]. by rewrite !windows_all_cons, IH, Hs.
Qed.
#[global] Instance access_rank_inj : Inj (=) (=) access_rank.
Proof. by intros [] []. Qed.

Definition no_nul (value : string) : Prop := mkb 0 ∉ bytes_of value.
Record environment_entry_ok (entry : string * string) : Prop := {
  eo_nonempty : entry.1 <> ""%string;
  eo_length : (Z.of_nat (length (bytes_of entry.1)) <= 255)%Z;
  eo_name : no_nul entry.1;
  eo_equals : "="%char ∉ bytes_of entry.1;
  eo_value : no_nul entry.2
}.
Lemma LauncherFilesystemRule_new_Ok fd access r :
  LauncherFilesystemRule_new fd access = Ok r <->
  r = mkLauncherFilesystemRule fd (sort_by_key access_rank access) /\ (fd <= I32_MAX)%Z /\ access <> [] /\ NoDup access.
Proof.
  unfold LauncherFilesystemRule_new. destruct (Z.ltb_spec I32_MAX fd); cbn; [naive_solver lia|].
  case_bool_decide; [naive_solver|].
  assert (windows_any (fun a b => bool_decide (a = b)) (sort_by_key access_rank access) = false <-> NoDup access) as Hd.
  { rewrite (duplicate_keys access_rank), (NoDup_fmap access_rank); [done|].
    intros a b. apply bool_decide_ext. split; [congruence|apply (inj access_rank)]. }
  destruct (windows_any _ _); split.
  - done.
  - intros (_ & _ & _ & Hn). by apply Hd in Hn.
  - intros [= <-]. by rewrite <- Hd.
  - by intros [-> _].
Qed.

Lemma has_nul_false value : has_nul value = false <-> no_nul value.
Proof. unfold has_nul, no_nul. by rewrite bool_decide_eq_false. Qed.
Lemma environment_entry_invalid_false entry : environment_entry_invalid entry = false <-> environment_entry_ok entry.
Proof.
  unfold environment_entry_invalid, JsonCbor.is_empty_string. rewrite !orb_false_iff, !has_nul_false, bool_decide_eq_false, String.eqb_neq, Z.ltb_ge.
  split; [intros [[[[? ?] ?] ?] ?]|intros []]; by repeat split.
Qed.
Lemma text_invalid_false arguments environment :
  text_invalid arguments environment = false <-> Forall no_nul arguments /\ Forall environment_entry_ok environment.
Proof.
  unfold text_invalid. rewrite orb_false_iff, !existsb_false.
  f_equiv; (split; intros H; (eapply Forall_impl; [exact H|])); cbn; intros ?;
    try apply has_nul_false; apply environment_entry_invalid_false.
Qed.
Lemma descriptors_invalid_false efd close_from filesystem :
  descriptors_invalid efd close_from (sort_by_key fr_descriptor filesystem) = false <->
  NoDup (fr_descriptor <$> filesystem) /\ Forall (fun rule => (3 <= fr_descriptor rule < close_from)%Z) filesystem
  /\ exists rule, rule ∈ filesystem /\ fr_descriptor rule = efd /\ fr_access rule = [Read; Execute].
Proof.
  unfold descriptors_invalid. rewrite !orb_false_iff, negb_false_iff, existsb_false, existsb_exists.
  rewrite (duplicate_keys fr_descriptor) by (intros; apply eq_true_iff_eq; by rewrite Z.eqb_eq, bool_decide_eq_true).
  assert (Forall (fun rule => (fr_descriptor rule <? 3)%Z || (close_from <=? fr_descriptor rule)%Z = false)
    (sort_by_key fr_descriptor filesystem) <-> Forall (fun rule => (3 <= fr_descriptor rule < close_from)%Z) filesystem) as ->.
  { rewrite (sort_by_key_Permutation fr_descriptor filesystem).
    split; (intros H; eapply Forall_impl; [exact H|]); cbn; intros rule; rewrite orb_false_iff, Z.ltb_ge, Z.leb_gt; lia. }
  assert ((exists rule, In rule (sort_by_key fr_descriptor filesystem) /\ executable_rule efd rule = true) <->
    exists rule, rule ∈ filesystem /\ fr_descriptor rule = efd /\ fr_access rule = [Read; Execute]) as ->; [|tauto].
  f_equiv. intros rule. rewrite <- list_elem_of_In, sort_by_key_Permutation. unfold executable_rule.
  by rewrite andb_true_iff, Z.eqb_eq, bool_decide_eq_true.
Qed.
(** What [InstallRequest::new] requires of its arguments. *)
Record request_valid (executable_id : ArtifactIdentity) (executable_fd working_directory_fd : Z) (arguments : list string)
    (environment : list (string * string)) (filesystem : list LauncherFilesystemRule) (seccomp_program : list byte)
    (close_from : Z) : Prop := {
  rv_role : role executable_id = RuntimeExecutable;
  rv_close : (close_from <= I32_MAX)%Z;
  rv_executable : (3 <= executable_fd < close_from)%Z;
  rv_directory : (3 <= working_directory_fd < close_from)%Z;
  rv_arguments : arguments <> [] /\ (Z.of_nat (length arguments) <= MAX_COLLECTION_ITEMS)%Z;
  rv_environment : (Z.of_nat (length environment) <= MAX_COLLECTION_ITEMS)%Z;
  rv_filesystem : filesystem <> [] /\ (Z.of_nat (length filesystem) <= MAX_COLLECTION_ITEMS)%Z;
  rv_program : seccomp_program <> [];
  rv_descriptors : NoDup (fr_descriptor <$> filesystem);
  rv_range : Forall (fun rule => (3 <= fr_descriptor rule < close_from)%Z) filesystem;
  rv_executable_rule : exists rule, rule ∈ filesystem /\ fr_descriptor rule = executable_fd /\ fr_access rule = [Read; Execute];
  rv_argument_text : Forall no_nul arguments;
  rv_environment_text : Forall environment_entry_ok environment
}.
Lemma InstallRequest_new_Ok identity executable_id efd wfd arguments environment filesystem program close_from r :
  InstallRequest_new identity executable_id efd wfd arguments environment filesystem program close_from = Ok r <->
  r = mkInstallRequest identity executable_id efd wfd arguments environment (sort_by_key fr_descriptor filesystem) program close_from
  /\ request_valid executable_id efd wfd arguments environment filesystem program close_from.
Proof.
  set (b1 := bounds_invalid executable_id efd wfd arguments environment filesystem program close_from).
  set (b2 := descriptors_invalid efd close_from (sort_by_key fr_descriptor filesystem)).
  assert (InstallRequest_new identity executable_id efd wfd arguments environment filesystem program close_from = Ok r <->
    (b1 = false /\ b2 = false /\ text_invalid arguments environment = false) /\
    r = mkInstallRequest identity executable_id efd wfd arguments environment (sort_by_key fr_descriptor filesystem) program close_from) as ->.
  { unfold InstallRequest_new. fold b1 b2. destruct b1, b2, (text_invalid _ _); naive_solver. }
  unfold b1, b2. rewrite descriptors_invalid_false, text_invalid_false. unfold bounds_invalid, too_many.
  rewrite !orb_false_iff, negb_false_iff, !bool_decide_eq_false, bool_decide_eq_true, !Z.ltb_ge, !Z.leb_gt.
  split.
  - intros [(H & (Hn & Hr & He) & Ha & Hv) ->]. split; [done|]. intuition. split; try done; lia.
  - intros [-> []]. repeat split; try done; try tauto; lia.
Qed.

(** * Well-formed messages *)

(** Values the protocol can carry: typed, with distinct keys, within the limits of the decoder. *)
Record carried (depth : nat) (v : Value) : Prop := {
  ca_typed : typed v;
  ca_distinct : distinct v;
  ca_small : small v;
  ca_nesting : nesting v <= depth
}.
Lemma carried_Unsigned d n : (0 <= n < u64_bound)%Z -> carried d (Unsigned n).
Proof. intros. split; [by apply WireV2.in_u64_spec|done|done|cbn; lia]. Qed.
Lemma carried_Bytes d b : (Z.of_nat (length b) < u64_bound)%Z -> carried d (Bytes b).
Proof. intros. split; [apply WireV2.in_u64_spec; lia|done|done|cbn; lia]. Qed.
Lemma carried_Text d s : WireV2.text_ok s = true -> carried d (Text s).
Proof. intros. split; [done|done|done|cbn; lia]. Qed.
Lemma max_list_le (l : list nat) d : Forall (fun n => n <= d) l -> WireV2.max_list l <= d.
Proof. induction 1; cbn; [lia|]. unfold WireV2.max_list in *. lia. Qed.
Lemma MAX_COLLECTION_u64 : (MAX_COLLECTION_ITEMS < u64_bound)%Z.
Proof. reflexivity. Qed.
Lemma carried_Array d items : (Z.of_nat (length items) <= MAX_COLLECTION_ITEMS)%Z -> Forall (carried d) items ->
  carried (S d) (Array items).
Proof.
  intros Hl Hf. pose proof MAX_COLLECTION_u64. split.
  - apply typed_Array. split; [lia|]. eapply Forall_impl; [exact Hf|]. by intros v [].
  - apply distinct_Array. eapply Forall_impl; [exact Hf|]. by intros v [].
  - cbn. split; [done|]. apply JsonCbor.foldr_Forall. eapply Forall_impl; [exact Hf|]. by intros v [].
  - unfold nesting. cbn. rewrite map_map. apply max_list_le, Forall_fmap.
    eapply Forall_impl; [exact Hf|]. intros v [? ? ? Hn]. unfold nesting in Hn. cbn. lia.
Qed.
Lemma carried_Map d entries : (Z.of_nat (length entries) <= MAX_COLLECTION_ITEMS)%Z -> NoDup entries.*1 ->
  Forall (fun kv => WireV2.text_ok kv.1 = true /\ carried d kv.2) entries -> carried (S d) (Map entries).
Proof.
  intros Hl Hn Hf. pose proof MAX_COLLECTION_u64. split.
  - apply typed_Map. split; [lia|]. eapply Forall_impl; [exact Hf|]. by intros v [? []].
  - apply distinct_Map. split; [done|]. eapply Forall_impl; [exact Hf|]. by intros v [? []].
  - cbn. split; [done|]. apply (JsonCbor.foldr_Forall (fun kv => small kv.2)). eapply Forall_impl; [exact Hf|]. by intros v [? []].
  - unfold nesting. cbn. rewrite map_map. cbn. apply max_list_le, Forall_fmap.
    eapply Forall_impl; [exact Hf|]. intros v [? [? ? ? Hv]]. unfold nesting in Hv. cbn. lia.
Qed.
Create HintDb carried.
#[export] Hint Resolve carried_Unsigned carried_Bytes carried_Text : carried.
(** A map with literal keys. *)
Ltac carried_map :=
  apply carried_Map;
  [vm_compute; discriminate|apply (bool_decide_eq_true_1 (NoDup _)); vm_compute; reflexivity
  |repeat (apply Forall_cons; split; [split; [vm_compute; reflexivity|cbn [snd]]|]); [..|apply Forall_nil; exact I]].

Definition digest_ok (d : Sha256Digest) : Prop := length (digest_bytes d) = 32.
Definition u64_ok (z : Z) : Prop := (0 <= z < u64_bound)%Z.
Record identity_ok (i : LauncherIdentity) : Prop := {
  io_execution : Receipt.ExecutionId_ok (li_execution_id i);
  io_policy : digest_ok (li_policy_id i);
  io_mount : u64_ok (cg_mount_id (li_cgroup_id i));
  io_inode : u64_ok (cg_inode (li_cgroup_id i))
}.
Record executable_ok (a : ArtifactIdentity) : Prop := {
  ao_digest : digest_ok (digest a);
  ao_size : u64_ok (Identity.size a);
  ao_mode : (0 <= FileMode_get (mode a) <= 4095)%Z
}.
Record rule_ok (r : LauncherFilesystemRule) : Prop := {
  ro_descriptor : (0 <= fr_descriptor r)%Z;
  ro_new : LauncherFilesystemRule_new (fr_descriptor r) (fr_access r) = Ok r
}.
(** The machine types of the fields, and the invariant of [InstallRequest::new]. *)
Record install_ok (r : InstallRequest) : Prop := {
  no_identity : identity_ok (ir_identity r);
  no_executable : executable_ok (ir_executable_id r);
  no_arguments : Forall (fun a => WireV2.text_ok a = true) (ir_arguments r);
  no_environment : Forall (fun nv => WireV2.text_ok nv.1 = true /\ WireV2.text_ok nv.2 = true) (ir_environment r);
  no_environment_sorted : JsonCbor.object_sorted (ir_environment r);
  no_filesystem : Forall rule_ok (ir_filesystem r);
  no_program : (Z.of_nat (length (ir_seccomp_program r)) < u64_bound)%Z;
  no_new : InstallRequest_new (ir_identity r) (ir_executable_id r) (ir_executable_fd r) (ir_working_directory_fd r)
    (ir_arguments r) (ir_environment r) (ir_filesystem r) (ir_seccomp_program r) (ir_close_file_descriptors_from r) = Ok r
}.
Record failure_ok (f : LauncherFailure) : Prop := {
  fo_identity : identity_ok (lf_identity f);
  fo_code : WireV2.text_ok (lf_error_code f) = true;
  fo_new : LauncherFailure_new (lf_identity f) (lf_stage f) (lf_error_code f) = Ok f
}.
Definition message_ok (m : LauncherMessage) : Prop :=
  match m with
  | Install request => install_ok request
  | Message_BoundaryInstalled identity | Message_ExecRelease identity => identity_ok identity
  | Message_Failure failure => failure_ok failure
  end.

Lemma carried_digest d digest : digest_ok digest -> carried (S d) (digest_value digest).
Proof. intros Hd. unfold digest_value. carried_map; [by apply carried_Text|apply carried_Bytes; rewrite Hd; done]. Qed.
Lemma carried_cgroup d c : u64_ok (cg_mount_id c) -> u64_ok (cg_inode c) -> carried (S d) (cgroup_value c).
Proof. intros. unfold cgroup_value. carried_map; by apply carried_Unsigned. Qed.
#[export] Hint Resolve carried_digest carried_cgroup : carried.
Lemma carried_execution d i : identity_ok i -> carried d (Bytes (ExecutionId_as_bytes (li_execution_id i))).
Proof. intros [[Hl _] _ _ _]. apply carried_Bytes. rewrite Hl. done. Qed.
Lemma install_valid r : install_ok r -> request_valid (ir_executable_id r) (ir_executable_fd r) (ir_working_directory_fd r)
    (ir_arguments r) (ir_environment r) (ir_filesystem r) (ir_seccomp_program r) (ir_close_file_descriptors_from r).
Proof. intros [_ _ _ _ _ _ _ [_ Hv]%InstallRequest_new_Ok]. exact Hv. Qed.
Lemma small_fd fd bound : (3 <= fd < bound)%Z -> (bound <= I32_MAX)%Z -> u64_ok fd.
Proof. unfold u64_ok, I32_MAX, u64_bound. lia. Qed.

Lemma carried_rule d rule : rule_ok rule -> carried (S (S d)) (filesystem_rule_value rule).
Proof.
  intros [H0 (Hr & Hm & Hne & Hnd)%LauncherFilesystemRule_new_Ok]. unfold filesystem_rule_value. carried_map.
  - apply carried_Unsigned. unfold I32_MAX, u64_bound in *. lia.
  - apply carried_Array.
    + rewrite length_map. assert (length (fr_access rule) <= 3); [|unfold MAX_COLLECTION_ITEMS; lia].
      change 3 with (length [Read; Write; Execute]). apply submseteq_length, NoDup_submseteq; [done|].
      intros [] _; set_solver.
    + apply Forall_fmap, Forall_true. intros []; apply carried_Text; vm_compute; reflexivity.
Qed.
Lemma carried_executable d a : executable_ok a -> role a = RuntimeExecutable -> carried (S (S d)) (artifact_value a).
Proof.
  intros [Hd Hs Hm] Hr. unfold artifact_value. rewrite Hr. carried_map.
  - by apply carried_Text.
  - by apply carried_digest.
  - by apply carried_Unsigned.
  - apply carried_Unsigned. unfold u64_bound. lia.
Qed.
Lemma carried_environment d r : install_ok r -> carried (S d) (Map (map (fun nv => (nv.1, Text nv.2)) (ir_environment r))).
Proof.
  intros Hr. pose proof (install_valid _ Hr) as Hv. apply carried_Map.
  - rewrite length_map. apply Hv.
  - change (map ?f ?l) with (f <$> l). rewrite <- list_fmap_compose. apply JsonCbor.object_sorted_NoDup, Hr.
  - apply Forall_fmap. eapply Forall_impl; [apply (no_environment _ Hr)|]. cbn. intros nv [Hn Ht]. split; [done|]. by apply carried_Text.
Qed.
Lemma message_carried m : message_ok m -> carried 5 (message_to_value m).
Proof.
  destruct m as [r|i|i|f]; cbn [message_ok message_to_value].
  - intros Hr. pose proof (install_valid _ Hr) as Hv. pose proof (no_identity _ Hr) as Hi. cbn [install_entries identity_entries app]. carried_map.
    1: by apply carried_execution. 1: by apply carried_digest, Hi. 1: apply carried_cgroup; apply Hi.
    + by apply carried_Text.
    + apply carried_executable; [apply Hr|apply Hv].
    + eapply carried_Unsigned, small_fd; apply Hv.
    + eapply carried_Unsigned, small_fd; apply Hv.
    + apply carried_Array; [rewrite length_map; apply Hv|]. apply Forall_fmap.
      eapply Forall_impl; [apply (no_arguments _ Hr)|]. intros a. apply carried_Text.
    + by apply carried_environment.
    + apply carried_Array; [rewrite length_map; apply Hv|]. apply Forall_fmap.
      eapply Forall_impl; [apply (no_filesystem _ Hr)|]. intros a. apply carried_rule.
    + apply carried_Bytes, Hr.
    + apply carried_Unsigned. pose proof (rv_close _ _ _ _ _ _ _ _ Hv). pose proof (rv_executable _ _ _ _ _ _ _ _ Hv).
      unfold I32_MAX, u64_bound in *. lia.
  - intros Hi. cbn [identity_entries app]. carried_map; [by apply carried_execution|by apply carried_digest, Hi|apply carried_cgroup; apply Hi|..]; by apply carried_Text.
  - intros Hi. cbn [identity_entries app]. carried_map; [by apply carried_execution|by apply carried_digest, Hi|apply carried_cgroup; apply Hi|..]; by apply carried_Text.
  - intros [Hi Hc _]. cbn [identity_entries app]. carried_map; [by apply carried_execution|by apply carried_digest, Hi|apply carried_cgroup; apply Hi|..]; apply carried_Text; try done.
    by destruct (lf_stage f).
Qed.

(** * Messages read back *)

Definition sorted_entries (entries : list (string * Value)) : list (string * Value) :=
  sort_by key_before (map (fun kv => (kv.1, in_order kv.2)) entries).
Lemma find_Permutation {A} (l k : list (string * A)) name : l ≡ₚ k -> NoDup k.*1 ->
  List.find (fun entry => String.eqb entry.1 name) l = List.find (fun entry => String.eqb entry.1 name) k.
Proof.
  intros Hp Hk. assert (NoDup l.*1) as Hl by by rewrite Hp.
  assert (forall l : list (string * A), NoDup l.*1 -> forall e, List.find (fun entry => String.eqb entry.1 name) l = Some e <-> e ∈ l /\ e.1 = name) as Hf.
  { clear. induction l as [|[k v] l IH]; intros Hn e; cbn.
    - split; [done|]. by intros [?%not_elem_of_nil _].
    - apply NoDup_cons in Hn as [Hni Hn]. rewrite elem_of_cons. destruct (String.eqb_spec k name) as [->|Hne].
      + split; [intros [= <-]; by split; [left|]|]. intros [[->|Hin] He]; [done|]. exfalso. apply Hni.
        apply list_elem_of_fmap. by exists e.
      + rewrite (IH Hn). split; [intros [? ?]; split; [by right|done]|]. intros [[->|?] ?]; done. }
  apply option_eq. intros e. by rewrite !Hf, Hp by done.
Qed.
Lemma field_sorted entries name : NoDup entries.*1 -> field (sorted_entries entries) name = in_order <$> field entries name.
Proof.
  intros Hn. unfold field, sorted_entries.
  rewrite (find_Permutation _ (map (fun kv => (kv.1, in_order kv.2)) entries)).
  - clear Hn. induction entries as [|[k v] l IH]; [done|]. cbn. by destruct (String.eqb k name).
  - apply sort_by_Permutation.
  - change (map ?f ?l) with (f <$> l). by rewrite <- list_fmap_compose.
Qed.
Lemma require_keys_sorted entries expected : require_keys (sorted_entries entries) expected = require_keys entries expected.
Proof.
  unfold require_keys, sorted_entries. rewrite (Permutation_length (sort_by_Permutation _ _)), length_map.
  assert (forall e, existsb (fun entry : string * Value => String.eqb entry.1 e) (sort_by key_before (map (fun kv => (kv.1, in_order kv.2)) entries))
    = existsb (fun entry => String.eqb entry.1 e) entries) as He.
  { intros e. rewrite (existsb_Permutation _ _ _ (sort_by_Permutation _ _)). induction entries; cbn; congruence. }
  assert (existsb (fun e => negb (existsb (fun entry : string * Value => String.eqb entry.1 e) (sort_by key_before (map (fun kv => (kv.1, in_order kv.2)) entries)))) expected
    = existsb (fun e => negb (existsb (fun entry => String.eqb entry.1 e) entries)) expected) as ->; [|done].
  induction expected as [|e l IH]; cbn; [done|]. by rewrite He, IH.
Qed.
#[local] Arguments digest_value : simpl never.
#[local] Arguments cgroup_value : simpl never.
#[local] Arguments artifact_value : simpl never.
#[local] Arguments filesystem_rule_value : simpl never.
#[local] Arguments decode_digest : simpl never.
#[local] Arguments decode_cgroup : simpl never.
#[local] Arguments decode_artifact : simpl never.
#[local] Arguments decode_identity : simpl never.
#[local] Arguments decode_filesystem_rule : simpl never.
#[local] Arguments exact_bytes : simpl never.
#[local] Arguments Receipt.ExecutionId_from_bytes : simpl never.
#[local] Arguments sorted_entries : simpl never.
#[local] Arguments sort_by : simpl never.
Lemma in_order_Map entries : in_order (Map entries) = Map (sorted_entries entries).
Proof. done. Qed.
(** The fields of a map with literal keys. *)
Ltac fields :=
  rewrite ?require_keys_sorted, ?field_sorted by (apply (bool_decide_eq_true_1 (NoDup _)); vm_compute; reflexivity); cbn.
Lemma exact_bytes_Ok n l k : exact_bytes n l = Ok k <-> k = l /\ length l = n.
Proof. unfold exact_bytes. destruct (Nat.eqb_spec (length l) n); naive_solver. Qed.
Lemma decode_digest_value digest : digest_ok digest -> decode_digest (in_order (digest_value digest)) = Ok digest.
Proof.
  intros Hd. unfold decode_digest, digest_value. rewrite in_order_Map. cbn. fields.
  rewrite (proj2 (exact_bytes_Ok 32 _ _) (conj eq_refl Hd)). by destruct digest.
Qed.
Lemma decode_cgroup_value c : decode_cgroup (in_order (cgroup_value c)) = Ok c.
Proof. unfold decode_cgroup, cgroup_value. rewrite in_order_Map. cbn. fields. by destruct c. Qed.
Lemma decode_artifact_value a : executable_ok a -> role a = RuntimeExecutable -> decode_artifact (in_order (artifact_value a)) = Ok a.
Proof.
  intros [Hd Hs Hm] Hr. unfold decode_artifact, artifact_value. rewrite in_order_Map. cbn. fields. rewrite Hr. cbn.
  unfold u16_try_from. rewrite (proj2 (try_from_Some _ _ (FileMode_get (mode a)))) by (unfold u16_bound; lia). cbn.
  unfold FileMode_new. rewrite (proj2 (Z.ltb_ge _ _)) by lia. cbn. rewrite decode_digest_value by done. cbn.
  unfold ArtifactIdentity_new. rewrite <- Hr. by destruct a as [? ? ? []].
Qed.
Lemma parse_access_name a : parse_access (access_name a) = Ok a.
Proof. by destruct a. Qed.
Lemma decode_filesystem_rule_value rule : rule_ok rule -> decode_filesystem_rule (in_order (filesystem_rule_value rule)) = Ok rule.
Proof.
  intros [H0 Hn]. pose proof Hn as (_ & Hm & _)%LauncherFilesystemRule_new_Ok.
  unfold decode_filesystem_rule, filesystem_rule_value. rewrite in_order_Map. cbn. fields.
  change (map ?f ?l) with (f <$> l). rewrite <- list_fmap_compose.
  rewrite (mapM_Ok_map _ _ id) by (intros a _; apply parse_access_name). rewrite list_fmap_id. cbn.
  unfold as_u32. cbn. unfold u32_try_from. rewrite (proj2 (try_from_Some _ _ (fr_descriptor rule))) by (unfold I32_MAX, u32_bound in *; lia).
  done.
Qed.
Lemma decode_identity_value entries i : identity_ok i ->
  field entries "execution_id" = Ok (Bytes (ExecutionId_as_bytes (li_execution_id i))) ->
  field entries "policy_id" = Ok (in_order (digest_value (li_policy_id i))) ->
  field entries "cgroup_id" = Ok (in_order (cgroup_value (li_cgroup_id i))) ->
  decode_identity entries = Ok i.
Proof.
  intros [[Hl He] Hp _ _] H1 H2 H3. unfold decode_identity. rewrite H1, H2, H3. cbn.
  rewrite (proj2 (exact_bytes_Ok 16 _ _) (conj eq_refl Hl)). cbn. rewrite He. cbn.
  rewrite decode_digest_value by done. cbn. rewrite decode_cgroup_value. cbn.
  destruct i as [[] ? ?]. done.
Qed.
Lemma as_u32_Unsigned n : (0 <= n <= I32_MAX)%Z -> as_u32 (Unsigned n) = Ok n.
Proof.
  intros H. unfold as_u32. cbn. unfold u32_try_from.
  by rewrite (proj2 (try_from_Some _ _ n)) by (unfold I32_MAX, u32_bound in *; lia).
Qed.
#[local] Arguments as_u32 : simpl never.
#[local] Arguments InstallRequest_new : simpl never.
#[local] Arguments LauncherFailure_new : simpl never.
#[local] Arguments JsonCbor.object_of : simpl never.
Lemma value_to_message_ok m : message_ok m -> value_to_message (in_order (message_to_value m)) = Ok m.
Proof.
  destruct m as [r|i|i|f]; cbn [message_ok message_to_value]; unfold install_entries, identity_entries;
    cbn [app]; rewrite in_order_Map; unfold value_to_message; cbn [as_map mbind result_bind].
  - intros Hr. pose proof (install_valid _ Hr) as Hv. fields. unfold decode_install. fields.
    rewrite (decode_identity_value _ (ir_identity r)); [|apply Hr|by fields..]. cbn. fields.
    rewrite decode_artifact_value; [|apply Hr|apply Hv]. cbn.
    pose proof (rv_close _ _ _ _ _ _ _ _ Hv) as Hc. pose proof (rv_executable _ _ _ _ _ _ _ _ Hv) as He.
    pose proof (rv_directory _ _ _ _ _ _ _ _ Hv) as Hw. rewrite !as_u32_Unsigned by lia. cbn.
    rewrite !map_map. change (map ?f ?l) with (f <$> l).
    rewrite (mapM_Ok_map as_text _ id), list_fmap_id by done. cbn.
    rewrite <- (sort_by_fmap _ key_before key_before) by done.
    rewrite (mapM_Ok_map (fun nv : string * Value => value ← as_text nv.2; Ok (nv.1, value)) _ id), list_fmap_id
      by (intros []; done). cbn.
    rewrite (JsonCbor.object_of_members _ (ir_environment r)) by (apply Hr || apply sort_by_Permutation).
    rewrite (mapM_Ok_map decode_filesystem_rule _ id), list_fmap_id; [by cbn; rewrite (no_new _ Hr)|].
    intros rule Hin. apply decode_filesystem_rule_value. pose proof (no_filesystem _ Hr) as Hf. rewrite Forall_forall in Hf. by apply Hf.
  - intros Hi. fields. unfold decode_boundary, decode_state. fields.
    rewrite (decode_identity_value _ i); [done|done|by fields..].
  - intros Hi. fields. unfold decode_release, decode_state. fields.
    rewrite (decode_identity_value _ i); [done|done|by fields..].
  - intros [Hi _ Hn]. fields. unfold decode_failure. fields.
    rewrite (decode_identity_value _ (lf_identity f)); [|done|by fields..]. cbn. fields.
    replace (LauncherStage_parse (LauncherStage_as_str (lf_stage f))) with (Ok (E := LauncherError) (lf_stage f)) by (by destruct (lf_stage f)).
    cbn. by rewrite Hn.
Qed.

(** * The decoder returns typed values *)

(** What [m] returns satisfies [P], and [m] does not give input back. *)
Definition returns {A} (m : Dec A) (P : A -> Prop) : Prop := forall s a s', m s = (Ok a, s') ->
  (Z.of_nat (length (rest s)) < u64_bound)%Z -> P a /\ length (rest s') <= length (rest s).
Lemma returns_ret {A} (a : A) (P : A -> Prop) : P a -> returns (mret a) P.
Proof. by intros H s a' s' [= <- <-]. Qed.
Lemma returns_throw {A} e (P : A -> Prop) : returns (throw e) P.
Proof. by intros s a s'. Qed.
Lemma returns_lift {A} (m : result LauncherError A) (P : A -> Prop) : (forall a, m = Ok a -> P a) -> returns (lift_result m) P.
Proof. intros H s a s' [= Hm <-]. auto. Qed.
Lemma returns_bind {A B} (m : Dec A) (f : A -> Dec B) P Q :
  returns m P -> (forall a, P a -> returns (f a) Q) -> returns (m ≫= f) Q.
Proof.
  intros Hm Hf s b s' (a & s1 & H1 & H2)%eff_bind_Ok Hs. destruct (Hm _ _ _ H1 Hs) as [Ha Hl].
  destruct (Hf a Ha _ _ _ H2) as [Hb Hl']; [lia|]. split; [done|lia].
Qed.
Lemma returns_byte : returns decoder_byte (fun _ => True).
Proof. intros [p [|b l]] a s'; [done|]. intros [= <- <-] _. cbn. split; [done|lia]. Qed.
Lemma returns_bytes n : returns (decoder_bytes n) (fun l => Z.of_nat (length l) = n /\ (n < u64_bound)%Z).
Proof.
  intros s a s'. unfold decoder_bytes. destruct (try_from u64_bound n) as [k|] eqn:Hn; [|done]. apply try_from_Some in Hn as [-> Hn].
  destruct (u64_checked_add _ _); [|done]. destruct (Z.ltb_spec (Z.of_nat (length (rest s))) n); [done|].
  intros [= <- <-] Hs. cbn. rewrite length_take, length_drop. lia.
Qed.
Lemma returns_argument additional : (0 <= additional)%Z -> returns (decoder_argument additional) u64_ok.
Proof.
  intros Ha. unfold decoder_argument, u64_ok.
  destruct (Z.leb_spec additional 23); [apply returns_ret; unfold u64_bound; lia|].
  assert (forall n, (n <= 8)%Z -> returns (bytes ← decoder_bytes n; mret (be_value bytes)) u64_ok) as Hb.
  { intros n Hn. eapply returns_bind; [apply returns_bytes|]. cbn. intros l [Hl _]. apply returns_ret.
    pose proof (be_value_bound l) as Hv. unfold u64_ok, u64_bound. split; [lia|].
    apply Z.lt_le_trans with (256 ^ Z.of_nat (length l))%Z; [lia|]. change (2 ^ 64)%Z with (256 ^ 8)%Z. apply Z.pow_le_mono_r; lia. }
  repeat case_match; try (apply Hb; lia); [|apply returns_throw].
  eapply returns_bind; [apply returns_byte|]. intros b _. apply returns_ret. pose proof (bval_bound b). unfold u64_bound. lia.
Qed.
Lemma returns_array value n acc : returns value typed -> Forall typed acc ->
  returns (array_items value n acc) (fun l => length l = length acc + n /\ Forall typed l).
Proof.
  intros Hv. revert acc. induction n as [|n IH]; intros acc Ha; cbn; [apply returns_ret; split; [lia|done]|].
  eapply returns_bind; [exact Hv|]. intros v Hty. intros s a s' Hm Hs. destruct (IH (acc ++ [v])) with (3 := Hs) (2 := Hm) as [[Hl Hf] Hr].
  - by apply Forall_app_2; [|by constructor].
  - rewrite length_app in Hl. cbn in Hl. split; [split; [lia|done]|done].
Qed.
Definition entries_typed (l : list (string * Value)) : Prop := Forall (fun kv => WireV2.text_ok kv.1 = true /\ typed kv.2) l.
Lemma returns_map value n acc : returns value typed -> entries_typed acc ->
  returns (map_items value n acc) (fun l => length l = length acc + n /\ entries_typed l).
Proof.
  intros Hv. revert acc. induction n as [|n IH]; intros acc Ha; cbn; [apply returns_ret; split; [lia|done]|].
  eapply returns_bind; [exact Hv|]. intros k Hk. destruct k as [| |k| |]; try apply returns_throw.
  destruct (existsb _ _); [apply returns_throw|].
  eapply returns_bind; [exact Hv|]. intros v Hty. intros s a s' Hm Hs. destruct (IH (acc ++ [(k, v)])) with (3 := Hs) (2 := Hm) as [[Hl Hf] Hr].
  - apply Forall_app_2; [done|]. by repeat constructor.
  - rewrite length_app in Hl. cbn in Hl. split; [split; [lia|done]|done].
Qed.
Lemma launcher_count_Ok n c : bounded_count n = Ok c -> (Z.of_nat c < u64_bound)%Z.
Proof.
  unfold bounded_count. intros (k & [-> Hk]%ok_or_Ok%try_from_Some & H)%bind_Ok. destruct (_ <? _)%Z; [done|]. injection H as <-. lia.
Qed.
Lemma returns_item value major n : returns value typed -> u64_ok n -> returns (decoder_item value major n) typed.
Proof.
  intros Hv Hn. unfold decoder_item.
  destruct (major =? 0)%Z; [apply returns_ret, WireV2.in_u64_spec, Hn|].
  destruct (major =? 2)%Z.
  { eapply returns_bind; [apply returns_bytes|]. intros l [Hl ?]. apply returns_ret, WireV2.in_u64_spec. lia. }
  destruct (major =? 3)%Z.
  { eapply returns_bind; [apply returns_bytes|]. intros l [Hl ?].
    eapply (returns_bind _ _ (fun t => WireV2.text_ok t = true)); [|intros t Ht; by apply returns_ret].
    apply returns_lift. intros t [Hb Hu]%ok_or_Ok%from_utf8_Some. unfold WireV2.text_ok.
    rewrite Hu, Hb. cbn [andb]. apply WireV2.in_u64_spec. lia. }
  destruct (major =? 4)%Z.
  { eapply (returns_bind _ _ (fun c => Z.of_nat c < u64_bound)%Z); [apply returns_lift; by intros c ?%launcher_count_Ok|]. intros c Hc.
    eapply returns_bind; [by apply returns_array|]. intros l [Hl Hf]. apply returns_ret, typed_Array. cbn in Hl. by rewrite Hl. }
  destruct (major =? 5)%Z; [|apply returns_throw].
  eapply (returns_bind _ _ (fun c => Z.of_nat c < u64_bound)%Z); [apply returns_lift; by intros c ?%launcher_count_Ok|]. intros c Hc.
  eapply returns_bind; [apply returns_map; [done|constructor]|]. intros l [Hl Hf]. apply returns_ret, typed_Map. cbn in Hl. by rewrite Hl.
Qed.
Lemma returns_value levels : returns (decoder_value levels) typed.
Proof.
  induction levels as [|levels IH]; [apply returns_throw|]. cbn.
  eapply returns_bind; [apply returns_byte|]. intros b _. destruct (_ =? 31)%Z; [apply returns_throw|].
  eapply returns_bind; [apply returns_argument; apply Z.land_nonneg; right; lia|]. intros n Hn. by apply returns_item.
Qed.

(** * Decoded messages are well formed *)

Lemma sort_by_key_fixed {A} (key : A -> Z) (l : list A) : sort_by_key key (sort_by_key key l) = sort_by_key key l.
Proof.
  pose proof (sort_weak (key <$> l)) as Hs. rewrite <- sort_by_key_sort in Hs. revert Hs.
  generalize (sort_by_key key l). clear l. induction l as [|a l IH]; [done|].
  cbn. intros [Hs Ha]%StronglySorted_inv. change (insert_by (fun a b => key a <? key b)%Z a (sort_by_key key l) = a :: l).
  rewrite (IH Hs). destruct l as [|b l]; [done|]. cbn in Ha |- *. apply Forall_inv in Ha.
  destruct (Z.ltb_spec (key b) (key a)) as [Hlt|]; [|done]. exfalso. unfold rle in Ha.
  change (match (key a ?= key b)%Z with Gt => false | _ => true end = true) in Ha.
  rewrite (proj2 (Z.compare_gt_iff _ _)) in Ha; done.
Qed.
Lemma sort_by_key_nil {A} (key : A -> Z) (l : list A) : sort_by_key key l = [] <-> l = [].
Proof.
  pose proof (Permutation_length (sort_by_key_Permutation key l)) as Hl.
  split; intros He; [apply length_zero_iff_nil; by rewrite <- Hl, He|by rewrite He].
Qed.
Lemma object_insert_sorted {A} k (v : A) l : JsonCbor.object_sorted l ->
  JsonCbor.object_sorted (JsonCbor.object_insert k v l) /\
  forall e, e ∈ JsonCbor.object_insert k v l -> e = (k, v) \/ e ∈ l.
Proof.
  unfold JsonCbor.object_sorted. induction 1 as [|[k' v'] l Hs [IH1 IH2] Hx]; cbn.
  { split; [repeat constructor|]. set_solver. }
  destruct (rlt k k') eqn:Hlt; [|destruct (String.eqb_spec k k') as [->|Hne]].
  - split; [|set_solver]. constructor; [by constructor|]. constructor; [done|].
    eapply Forall_impl; [exact Hx|]. cbn. intros kv. by apply rlt_trans.
  - split; [by constructor|set_solver].
  - split; [|set_solver]. constructor; [done|]. apply Forall_forall. intros e [->|He]%IH2; cbn.
    + destruct (rlt_total k k') as [|[|]]; [congruence|done|done].
    + rewrite Forall_forall in Hx. by apply Hx.
Qed.
Lemma object_of_sorted {A} (l : list (string * A)) :
  JsonCbor.object_sorted (JsonCbor.object_of l) /\ forall e, e ∈ JsonCbor.object_of l -> e ∈ l.
Proof.
  unfold JsonCbor.object_of.
  cut (forall m : list (string * A), JsonCbor.object_sorted m ->
    let o := fold_left (fun members kv => JsonCbor.object_insert kv.1 kv.2 members) l m in
    JsonCbor.object_sorted o /\ forall e, e ∈ o -> e ∈ l \/ e ∈ m).
  { intros H. destruct (H []) as [H1 H2]; [constructor|]. split; [done|]. intros e [?|?%not_elem_of_nil]%H2; done. }
  induction l as [|[k v] l IH]; intros m Hm; cbn; [by split; [|right]|].
  destruct (object_insert_sorted k v m Hm) as [H1 H2]. destruct (IH _ H1) as [H3 H4]. split; [done|].
  intros e [?|[->|?]%H2]%H4; [left; by right|left; left|by right].
Qed.
Lemma field_typed entries name v : entries_typed entries -> field entries name = Ok v -> typed v.
Proof.
  unfold entries_typed, field. intros Ht H%ok_or_Ok. destruct (List.find _ _) as [[k w]|] eqn:Hf; [|done]. injection H as ->.
  apply find_some in Hf as [Hin _]. apply list_elem_of_In in Hin. rewrite Forall_forall in Ht. by apply Ht in Hin as [_ ?].
Qed.
Lemma as_map_Ok v l : as_map v = Ok l <-> v = Map l.
Proof. destruct v; cbn; naive_solver. Qed.
Lemma as_array_Ok v l : as_array v = Ok l <-> v = Array l.
Proof. destruct v; cbn; naive_solver. Qed.
Lemma as_text_Ok v l : as_text v = Ok l <-> v = Text l.
Proof. destruct v; cbn; naive_solver. Qed.
Lemma as_bytes_Ok v l : as_bytes_of v = Ok l <-> v = Bytes l.
Proof. destruct v; cbn; naive_solver. Qed.
Lemma as_unsigned_Ok v l : as_unsigned v = Ok l <-> v = Unsigned l.
Proof. destruct v; cbn; naive_solver. Qed.
Lemma as_map_typed v l : typed v -> as_map v = Ok l -> entries_typed l.
Proof. intros Hv ->%as_map_Ok. by apply typed_Map in Hv as [_ ?]. Qed.
Lemma as_array_typed v l : typed v -> as_array v = Ok l -> Forall typed l.
Proof. intros Hv ->%as_array_Ok. by apply typed_Array in Hv as [_ ?]. Qed.
Lemma as_text_typed v t : typed v -> as_text v = Ok t -> WireV2.text_ok t = true.
Proof. by intros Hv ->%as_text_Ok. Qed.
Lemma as_bytes_typed v l : typed v -> as_bytes_of v = Ok l -> (Z.of_nat (length l) < u64_bound)%Z.
Proof. intros Hv ->%as_bytes_Ok. apply WireV2.in_u64_spec in Hv. lia. Qed.
Lemma as_unsigned_typed v n : typed v -> as_unsigned v = Ok n -> u64_ok n.
Proof. intros Hv ->%as_unsigned_Ok. by apply WireV2.in_u64_spec in Hv. Qed.
Lemma as_u32_typed v n : typed v -> as_u32 v = Ok n -> (0 <= n)%Z.
Proof.
  intros Hv (k & Hk & H%ok_or_Ok%try_from_Some)%bind_Ok. apply as_unsigned_typed in Hk; [|done]. unfold u64_ok in Hk. lia.
Qed.

Lemma decode_digest_ok v d : decode_digest v = Ok d -> digest_ok d.
Proof.
  unfold decode_digest. intros (map & _ & (_ & _ & (algorithm & _ & H)%bind_Ok)%bind_Ok)%bind_Ok.
  destruct (negb _); [done|]. apply bind_Ok in H as (b & _ & (k & [-> Hl]%exact_bytes_Ok & [= <-])%bind_Ok). exact Hl.
Qed.
Lemma decode_cgroup_ok v c : typed v -> decode_cgroup v = Ok c -> u64_ok (cg_mount_id c) /\ u64_ok (cg_inode c).
Proof.
  intros Hv. unfold decode_cgroup. intros (map & Hm & (_ & _ & (a & (fa & Hfa & Ha)%bind_Ok & (b & (fb & Hfb & Hb)%bind_Ok & [= <-])%bind_Ok)%bind_Ok)%bind_Ok)%bind_Ok.
  pose proof (as_map_typed _ _ Hv Hm) as Ht. split; cbn.
  - exact (as_unsigned_typed _ _ (field_typed _ _ _ Ht Hfa) Ha).
  - exact (as_unsigned_typed _ _ (field_typed _ _ _ Ht Hfb) Hb).
Qed.
Lemma decode_identity_ok map i : entries_typed map -> decode_identity map = Ok i -> identity_ok i.
Proof.
  intros Ht. unfold decode_identity.
  intros (b & _ & (k & [-> Hl]%exact_bytes_Ok & (e & He%map_err_Ok & (p & (fp & _ & Hp)%bind_Ok & (c & (fc & Hfc & Hc)%bind_Ok & [= <-])%bind_Ok)%bind_Ok)%bind_Ok)%bind_Ok)%bind_Ok.
  pose proof (decode_cgroup_ok _ _ (field_typed _ _ _ Ht Hfc) Hc) as [Hm Hi]. split; cbn; try done.
  - unfold Receipt.ExecutionId_ok. assert (e = mkExecutionId b) as ->; [|by split].
    unfold Receipt.ExecutionId_from_bytes in He. destruct (_ || _); [done|]. by injection He.
  - by eapply decode_digest_ok.
Qed.
Lemma decode_artifact_ok v a : typed v -> decode_artifact v = Ok a -> executable_ok a.
Proof.
  intros Hv. unfold decode_artifact. intros (map & Hm & (_ & _ & (r & _ & H)%bind_Ok)%bind_Ok)%bind_Ok.
  pose proof (as_map_typed _ _ Hv Hm) as Ht. destruct (negb _); [done|].
  apply bind_Ok in H as (n & (fn & Hfn & Hn)%bind_Ok & (mo & Hmo%ok_or_Ok & (d & (fd & _ & Hd)%bind_Ok & (s & (fs & Hfs & Hs)%bind_Ok & [= <-])%bind_Ok)%bind_Ok)%bind_Ok).
  split; cbn.
  - by eapply decode_digest_ok.
  - exact (as_unsigned_typed _ _ (field_typed _ _ _ Ht Hfs) Hs).
  - pose proof (as_unsigned_typed _ _ (field_typed _ _ _ Ht Hfn) Hn) as [H0 _].
    destruct (u16_try_from n) as [k|] eqn:Hk; [|done]. apply try_from_Some in Hk as [-> _]. cbn in Hmo. unfold FileMode_new in Hmo.
    destruct (Z.ltb_spec 4095 n); [done|]. injection Hmo as <-. cbn. lia.
Qed.
Lemma decode_filesystem_rule_ok v rule : typed v -> decode_filesystem_rule v = Ok rule -> rule_ok rule.
Proof.
  intros Hv. unfold decode_filesystem_rule.
  intros (map & Hm & (_ & _ & (l & _ & (acc & _ & (n & (fn & Hfn & Hn)%bind_Ok & H)%bind_Ok)%bind_Ok)%bind_Ok)%bind_Ok)%bind_Ok.
  pose proof (as_map_typed _ _ Hv Hm) as Ht. apply LauncherFilesystemRule_new_Ok in H as (-> & Hle & Hne & Hnd). split; cbn.
  - exact (as_u32_typed _ _ (field_typed _ _ _ Ht Hfn) Hn).
  - apply LauncherFilesystemRule_new_Ok. rewrite sort_by_key_fixed. split; [done|]. split; [done|].
    split; [by rewrite sort_by_key_nil|by rewrite sort_by_key_Permutation].
Qed.
Lemma request_valid_Permutation a efd wfd args env fs fs' prog cf :
  fs ≡ₚ fs' -> request_valid a efd wfd args env fs prog cf -> request_valid a efd wfd args env fs' prog cf.
Proof.
  intros Hp [? ? ? ? ? ? [Hne Hl] ? Hn Hr (rule & Hin & ?) ? ?]. split; try done.
  - split; [|by rewrite <- Hp]. intros ->. by apply Hne, Permutation_nil_r.
  - by rewrite <- Hp.
  - by rewrite <- Hp.
  - exists rule. by rewrite <- Hp.
Qed.
Lemma decode_install_ok map r : entries_typed map -> decode_install map = Ok r -> install_ok r.
Proof.
  intros Ht. unfold decode_install.
  intros (_ & _ & (i & Hi & (a & (fa & Hfa & Ha)%bind_Ok & (ef & _ & (wf & _ & H)%bind_Ok)%bind_Ok)%bind_Ok)%bind_Ok)%bind_Ok.
  apply bind_Ok in H as (la & (fl & Hfl & Hla)%bind_Ok & (args & Hargs & (le & (fe & Hfe & Hle)%bind_Ok & (env & Henv & H)%bind_Ok)%bind_Ok)%bind_Ok).
  apply bind_Ok in H as (lf & (ff & Hff & Hlf)%bind_Ok & (fs & Hfs & (prog & (fp & Hfp & Hp)%bind_Ok & (cf & _ & Hn)%bind_Ok)%bind_Ok)%bind_Ok).
  pose proof (as_array_typed _ _ (field_typed _ _ _ Ht Hfl) Hla) as Hta.
  pose proof (as_map_typed _ _ (field_typed _ _ _ Ht Hfe) Hle) as Hte.
  pose proof (as_array_typed _ _ (field_typed _ _ _ Ht Hff) Hlf) as Htf.
  apply mapM_Ok in Hargs, Henv, Hfs. apply InstallRequest_new_Ok in Hn as [-> Hv].
  assert (Forall rule_ok fs) as Hfso.
  { eapply Forall2_Forall_r; [exact Hfs|]. eapply Forall_impl; [exact Htf|]. cbn. intros v Hv' rule. by apply decode_filesystem_rule_ok. }
  destruct (object_of_sorted env) as [Hsort Hsub]. split; cbn.
  - exact (decode_identity_ok _ _ Ht Hi).
  - exact (decode_artifact_ok _ _ (field_typed _ _ _ Ht Hfa) Ha).
  - eapply Forall2_Forall_r; [exact Hargs|]. eapply Forall_impl; [exact Hta|]. cbn. intros v Hv' t. by apply as_text_typed.
  - apply Forall_forall. intros e He%Hsub. revert e He. apply Forall_forall.
    eapply Forall2_Forall_r; [exact Henv|]. eapply Forall_impl; [exact Hte|]. cbn. intros kv [Hk Hvt] nv (t & Htx & [= <-])%bind_Ok.
    split; [done|]. by eapply as_text_typed.
  - done.
  - by rewrite sort_by_key_Permutation.
  - exact (as_bytes_typed _ _ (field_typed _ _ _ Ht Hfp) Hp).
  - apply InstallRequest_new_Ok. rewrite sort_by_key_fixed. split; [done|].
    eapply request_valid_Permutation; [symmetry; apply sort_by_key_Permutation|exact Hv].
Qed.
Lemma decode_failure_ok map f : entries_typed map -> decode_failure map = Ok f -> failure_ok f.
Proof.
  intros Ht. unfold decode_failure.
  intros (_ & _ & (i & Hi & (st & _ & (stage & _ & (code & (fc & Hfc & Hc)%bind_Ok & Hn)%bind_Ok)%bind_Ok)%bind_Ok)%bind_Ok)%bind_Ok.
  assert (f = mkLauncherFailure i stage code) as -> by (unfold LauncherFailure_new in Hn; destruct (_ || _); [done|by injection Hn]).
  split; cbn; [exact (decode_identity_ok _ _ Ht Hi)| |done]. exact (as_text_typed _ _ (field_typed _ _ _ Ht Hfc) Hc).
Qed.
Lemma decode_state_ok state map i : entries_typed map -> decode_state state map = Ok i -> identity_ok i.
Proof.
  intros Ht. unfold decode_state. intros (_ & _ & (v & _ & H)%bind_Ok)%bind_Ok. destruct (negb _); [done|]. by apply decode_identity_ok with map.
Qed.
Lemma value_to_message_sound v m : typed v -> value_to_message v = Ok m -> message_ok m.
Proof.
  intros Hv (map & Hm & (schema & _ & H)%bind_Ok)%bind_Ok. pose proof (as_map_typed _ _ Hv Hm) as Ht.
  repeat destruct (String.eqb _ _); [..|done]; apply fmap_Ok in H as (x & Hx & <-); cbn.
  - by apply (decode_install_ok map).
  - by apply (decode_state_ok "installed" map).
  - by apply (decode_state_ok "released" map).
  - by apply (decode_failure_ok map).
Qed.

(** * The protocol *)

Lemma message_wire m : message_ok m ->
  WireV2.encode (core_value (message_to_value m)) = Ok (WireV2.wire (core_value (in_order (message_to_value m)))) /\
  encode_launcher_message m = within_frame (WireV2.wire (core_value (in_order (message_to_value m)))) /\
  WireV2.value_ok (core_value (in_order (message_to_value m))) = true.
Proof.
  intros [Hty Hd _ _]%message_carried. rewrite core_in_order by done. split; [|split].
  - unfold WireV2.encode. rewrite WireV2.encode_item_spec by done. unfold distinct in Hd. by rewrite Hd.
  - unfold encode_launcher_message. rewrite encode_value_emits, core_in_order, within_frame_idem by done. done.
  - by apply WireV2.canon_value_ok.
Qed.
Lemma message_reads m tail : message_ok m ->
  let w := WireV2.wire (core_value (in_order (message_to_value m))) in
  (Z.of_nat (length w) <= MAX_LAUNCHER_FRAME_BYTES)%Z ->
  decoder_value MAX_NESTING_DEPTH (mkDecoder 0 (w ++ tail))
  = (Ok (in_order (message_to_value m)), mkDecoder (Z.of_nat (length w)) tail).
Proof.
  intros Hm w Hw. pose proof (message_carried m Hm) as [Hty Hd Hs Hn]. pose proof (message_wire m Hm) as (_ & _ & Hok).
  apply (value_reads _ MAX_NESTING_DEPTH Hok); [|by apply in_order_small|done|].
  - unfold nesting in *. rewrite core_in_order, WireMaps.nesting_canon by done. unfold MAX_NESTING_DEPTH. lia.
  - fold w. unfold MAX_LAUNCHER_FRAME_BYTES, u64_bound in *. lia.
Qed.

(** The launcher protocol accepts exactly what it writes.  [decode_launcher_message]
    returns a message for an input exactly when the message is well formed (it holds
    what [InstallRequest::new], [LauncherFilesystemRule::new], [LauncherFailure::new]
    and the identity types require) and [encode_launcher_message] gives that input: no
    message has two encodings, nothing follows it, and no well-formed message within
    the frame limit is refused. *)
Theorem decode_launcher_exact (input : list byte) (m : LauncherMessage) :
  decode_launcher_message input = Ok m <-> message_ok m /\ encode_launcher_message m = Ok input.
Proof.
  unfold decode_launcher_message. split.
  - case_bool_decide; [done|]. destruct (Z.ltb_spec MAX_LAUNCHER_FRAME_BYTES (Z.of_nat (length input))) as [|Hl]; [done|].
    destruct (decoder_value _ _) as [v s] eqn:Hv. intros (value & -> & Hrest)%bind_Ok.
    destruct (returns_value _ _ _ _ Hv) as [Hty _]; [cbn [rest]; unfold MAX_LAUNCHER_FRAME_BYTES, u64_bound in *; lia|].
    destruct (negb _); [done|]. apply bind_Ok in Hrest as (m' & Hm & (canonical & Hc & Hcan)%bind_Ok).
    case_bool_decide; [|done]. injection Hcan as <-. subst. split; [|done]. by apply value_to_message_sound with value.
  - intros [Hm He]. pose proof (message_wire m Hm) as (_ & Hw & _). pose proof He as He'.
    rewrite Hw in He'. apply within_frame_Ok in He' as [Hi Hl]. rewrite <- Hi in Hl.
    rewrite bool_decide_eq_false_2 by (rewrite Hi; apply WireV2.wire_not_nil). rewrite (proj2 (Z.ltb_ge _ _)) by done.
    pose proof (message_reads m [] Hm) as Hr. cbn zeta in Hr. rewrite app_nil_r, <- Hi in Hr. rewrite (Hr Hl). cbn.
    rewrite Z.eqb_refl. cbn. rewrite value_to_message_ok by done. cbn. rewrite He. cbn. by rewrite bool_decide_eq_true_2.
Qed.

(** The launcher's own encoder writes the deterministic CBOR of the core codec: for
    a well-formed message it gives the bytes of [cbor.rs], and fails with
    [FrameTooLarge] exactly when they exceed the limit of a frame. *)
Theorem launcher_encoder_core (m : LauncherMessage) (Hm : message_ok m) :
  encode_launcher_message m =
  (bytes ← map_err (fun _ => Malformed) (WireV2.encode (core_value (message_to_value m))); within_frame bytes).
Proof. pose proof (message_wire m Hm) as (-> & -> & _). done. Qed.

(** The request of the unit tests. *)
Definition example_identity : LauncherIdentity :=
  mkLauncherIdentity (mkExecutionId (map mkb [1; 1; 1; 1; 1; 1; 0x40; 1; 0x80; 1; 1; 1; 1; 1; 1; 1]%Z))
    (Sha256Digest_from_bytes (replicate 32 (mkb 1))) (mkCgroupIdentity 1 2).
Definition example_request : result LauncherError InstallRequest :=
  read_only ← LauncherFilesystemRule_new 4 [Read; Write];
  executable ← LauncherFilesystemRule_new 3 [Execute; Read];
  InstallRequest_new example_identity
    (ArtifactIdentity_new RuntimeExecutable (Sha256Digest_from_bytes (replicate 32 (mkb 7))) 12 (mkFileMode 493)) 3 5
    ["program"; "argument"]%string [("LANG", "C"); ("PATH", "/bin")]%string [read_only; executable] [mkb 1; mkb 2] 6.
Example install_roundtrip :
  exists r bytes, example_request = Ok r /\ encode_launcher_message (Install r) = Ok bytes
    /\ decode_launcher_message bytes = Ok (Install r) /\ fr_descriptor <$> ir_filesystem r = [3; 4]%Z.
Proof. eexists _, _. split; [vm_compute; reflexivity|]. split; [vm_compute; reflexivity|]. split; vm_compute; reflexivity. Qed.
Example truncated_frames :
  exists bytes, encode_launcher_message (Message_BoundaryInstalled example_identity) = Ok bytes
    /\ decode_launcher_message [] = Err Eof
    /\ decode_launcher_message (removelast bytes) = Err Truncated
    /\ decode_launcher_message (bytes ++ [mkb 0]) = Err TrailingData
    /\ decode_launcher_message [mkb 0xa1; mkb 0x61; mkb 97; mkb 0x18; mkb 0] = Err Malformed
    /\ decode_launcher_message [mkb 0xa2; mkb 0x61; mkb 97; mkb 0; mkb 0x61; mkb 97; mkb 0] = Err DuplicateKey.
Proof. eexists. split; [vm_compute; reflexivity|]. repeat split; vm_compute; reflexivity. Qed.
Lemma launcher_encoder_core_witness :
  let m := Message_BoundaryInstalled example_identity in
  message_ok m /\ encode_launcher_message m =
    (bytes ← map_err (fun _ => Malformed) (WireV2.encode (core_value (message_to_value m))); within_frame bytes).
Proof.
  assert (message_ok (Message_BoundaryInstalled example_identity)) as Hm
    by (split; [split; vm_compute; reflexivity|vm_compute; reflexivity|split; vm_compute; congruence || reflexivity..]).
  split; [exact Hm|]. exact (launcher_encoder_core _ Hm).
Defined.
