(* ===== verification/LauncherRun.v ===== *)
(** The launcher: the sequence of [proofbound-runtime-linux/src/launcher.rs] from
    [LauncherChannel] to [advance_sequence].  A launcher stops, receives its install
    request, drops its privileges, installs the two boundaries, acknowledges them,
    waits for its release and only then replaces itself by the target.  The kernel is
    that of [System]: any function of the calls made so far.  The theorem speaks of
    every run, failed ones included. *)
From S2P Require Import Prelude Identity System Launcher.
From S2P Require Seccomp Privilege Landlock Executable LauncherWire.
From Stdlib Require Import Ascii ZArith Lia Sorted.
From stdpp Require Import prelude strings list numbers.
Export stdpp.list_relations.list.
Import Landlock(LandlockAccess(..), LandlockRule, mkLandlockRule).

Record LauncherChannel := mkLauncherChannel { lc_descriptor : Z }.

(** * The sequence *)

Inductive SequenceState := InstallValidated | State_BoundariesInstalled | Acknowledged | ExecReleased | State_ExecAuthorized.
#[global] Instance SequenceState_eq_dec : EqDecision SequenceState.
Proof. solve_decision. Defined.
Inductive SequenceEvent := BoundariesInstalled | AcknowledgementEmitted | ExecReleaseValidated | ExecAuthorized.
Definition advance_sequence (state : SequenceState) (event : SequenceEvent) : result LauncherError SequenceState :=
  match state, event with
  | InstallValidated, BoundariesInstalled => Ok State_BoundariesInstalled
  | State_BoundariesInstalled, AcknowledgementEmitted => Ok Acknowledged
  | Acknowledged, ExecReleaseValidated => Ok ExecReleased
  | ExecReleased, ExecAuthorized => Ok State_ExecAuthorized
  | InstallValidated, AcknowledgementEmitted => Err BoundaryNotInstalled
  | (InstallValidated | State_BoundariesInstalled), ExecAuthorized => Err AcknowledgementMissing
  | Acknowledged, ExecAuthorized => Err ExecReleaseMissing
  | _, _ => Err UnexpectedMessage
  end.
Record PreparedLauncher := mkPreparedLauncher { pl_request : InstallRequest; pl_sequence : SequenceState }.
Record InstalledLauncher := mkInstalledLauncher {
  il_identity : LauncherIdentity; il_request : InstallRequest; il_sequence : SequenceState
}.
Record AcknowledgedLauncher := mkAcknowledgedLauncher { al_request : InstallRequest; al_sequence : SequenceState }.
Record ReleasedLauncher := mkReleasedLauncher { rl_request : InstallRequest; rl_sequence : SequenceState }.
Record ExecAuthorization := mkExecAuthorization { ea_request : InstallRequest; ea_sequence : SequenceState }.
(** The privilege and filesystem witnesses are not read. *)
Definition record_boundary_installed (self : PreparedLauncher) (seccomp : Seccomp.SeccompBoundary) :
    result LauncherError InstalledLauncher :=
  if negb (bool_decide (ir_seccomp_program (pl_request self) = Seccomp.program seccomp)) then Err SeccompProgramMismatch
  else
    sequence ← advance_sequence (pl_sequence self) BoundariesInstalled;
    Ok (mkInstalledLauncher (ir_identity (pl_request self)) (pl_request self) sequence).
Definition authorize_exec (self : ReleasedLauncher) : result LauncherError ExecAuthorization :=
  sequence ← advance_sequence (rl_sequence self) ExecAuthorized;
  Ok (mkExecAuthorization (rl_request self) sequence).

(** * Pure parts of [run_launcher] *)

Definition CString_new (value : list byte) : result LauncherError (list byte) :=
  if bool_decide (mkb 0 ∈ value) then Err Malformed else Ok value.
Definition build_arguments (request : InstallRequest) : result LauncherError (list (list byte)) :=
  mapM (fun value => CString_new (String.list_ascii_of_string value)) (ir_arguments request).
Definition build_environment (request : InstallRequest) : result LauncherError (list (list byte)) :=
  mapM (fun nv : string * string =>
    CString_new (String.list_ascii_of_string nv.1 ++ ["="%char] ++ String.list_ascii_of_string nv.2)) (ir_environment request).
Definition stage_for_protocol_error (error : LauncherError) : LauncherStage :=
  match error with
  | PolicyIdentityMismatch | CgroupIdentityMismatch | ExecutionIdentityMismatch | ExecutableIdentityMismatch
  | SeccompProgramMismatch => Stage_Identity
  | _ => Decode
  end.
Definition privilege_stage (error : Privilege.PrivilegeError) : LauncherStage :=
  match error with
  | Privilege.NoNewPrivilegesInstallFailed | Privilege.NoNewPrivilegesVerificationFailed => NoNewPrivileges
  | _ => Privileges
  end.
(** The error numbers of libc. *)
Definition exec_error (errno : Z) : LauncherError :=
  if (errno =? 13)%Z then ExecPermissionDenied
  else if (errno =? 1)%Z then ExecOperationNotPermitted
  else if (errno =? 2)%Z then ExecNotFound
  else if (errno =? 8)%Z then ExecFormatInvalid
  else ExecFailed.
(** The descriptors of a request: the executable, the directory and those of the rules. *)
Definition declared_descriptors (request : InstallRequest) : list Z :=
  ir_executable_fd request :: ir_working_directory_fd request :: map fr_descriptor (ir_filesystem request).
(** [for access in access { rules.push(LandlockRule::new(descriptor, *access)) }] *)
Definition landlock_rules (descriptor_rules : list (Z * list LandlockAccess)) : list LandlockRule :=
  concat (map (fun da : Z * list LandlockAccess => map (mkLandlockRule da.1) da.2) descriptor_rules).

Section run.
Context `{Kernel} `{Seccomp.Libc} (sha256 : list byte -> list byte).
Abbreviation M := (eff History (fault LauncherError)).

(** * The channel *)

Definition LauncherChannel_pair : eff History LauncherError (LauncherChannel * LauncherChannel) :=
  '(first, second) ← io_err ChannelCreationFailed private_socket_pair;
  mret (mkLauncherChannel first, mkLauncherChannel second).
Definition LauncherChannel_send (channel : LauncherChannel) (message : LauncherMessage) : eff History LauncherError () :=
  bytes ← lift_result (encode_launcher_message message);
  io_err ChannelWriteFailed (send_packet (lc_descriptor channel) bytes).
Definition LauncherChannel_receive (channel : LauncherChannel) : eff History LauncherError LauncherMessage :=
  '(received, buffer) ← io_err ChannelReadFailed (receive_packet (lc_descriptor channel) (MAX_LAUNCHER_FRAME_BYTES + 1));
  if (received =? 0)%Z then throw Eof
  else if (MAX_LAUNCHER_FRAME_BYTES <? received)%Z then throw FrameTooLarge
  else lift_result (decode_launcher_message buffer).
Definition LauncherChannel_receive_timeout (channel : LauncherChannel) (milliseconds : Z) :
    eff History LauncherError LauncherMessage :=
  readable ← io_err ChannelReadFailed (wait_readable (lc_descriptor channel) milliseconds);
  if negb readable then throw ChannelTimeout else LauncherChannel_receive channel.
Definition LauncherChannel_from_inherited_descriptor (descriptor : Z) : eff History LauncherError LauncherChannel :=
  if (2147483647 <? descriptor)%Z then throw FileDescriptorInvalid
  else
    descriptor ← io_err FileDescriptorInvalid (take_inherited_descriptor descriptor);
    mret (mkLauncherChannel descriptor).
Definition pause_for_supervisor : eff History LauncherError () := io_err PauseFailed pause_current_process.

(** [report_failure]: the failure is sent if it can be, and the error is returned. *)
Definition report_failure (channel : LauncherChannel) (identity : LauncherIdentity) (stage : LauncherStage)
    (error : LauncherError) : eff History LauncherError () := fun h =>
  match LauncherFailure_new identity stage (LauncherError_code error) with
  | Ok failure => let '(_, h) := LauncherChannel_send channel (Message_Failure failure) h in (Err error, h)
  | Err _ => (Err error, h)
  end.
(** [.map_err(|e| report_failure(channel, expected, stage, error))?] with the stage and
    the error that [e] gives. *)
Definition reporting {E A} (channel : LauncherChannel) (expected : LauncherIdentity)
    (failure : E -> LauncherStage * LauncherError) (m : eff History (fault E) A) : M A := fun h =>
  match m h with
  | (Ok a, h) => (Ok a, h)
  | (Err (Failure e), h) =>
    let '(_, h) := report_failure channel expected (failure e).1 (failure e).2 h in (Err (Failure (failure e).2), h)
  | (Err Panicked, h) => (Err Panicked, h)
  end.

Definition report_error {A} (channel : LauncherChannel) (expected : LauncherIdentity) (stage : LauncherStage)
    (m : eff History LauncherError A) : M A :=
  reporting channel expected (fun error => (stage, error)) (may_fail m).

(** * The steps *)

Definition receive_install_request (channel : LauncherChannel) (expected : LauncherIdentity) :
    eff History LauncherError PreparedLauncher :=
  message ← LauncherChannel_receive channel;
  match message with
  | Install request =>
    _ ← lift_result (LauncherIdentity_verify (ir_identity request) expected);
    mret (mkPreparedLauncher request InstallValidated)
  | _ => throw UnexpectedMessage
  end.
Definition acknowledge (self : InstalledLauncher) (channel : LauncherChannel) : eff History LauncherError AcknowledgedLauncher :=
  _ ← LauncherChannel_send channel (Message_BoundaryInstalled (il_identity self));
  sequence ← lift_result (advance_sequence (il_sequence self) AcknowledgementEmitted);
  mret (mkAcknowledgedLauncher (il_request self) sequence).
Definition receive_exec_release (self : AcknowledgedLauncher) (channel : LauncherChannel) :
    eff History LauncherError ReleasedLauncher :=
  message ← LauncherChannel_receive channel;
  match message with
  | Message_ExecRelease identity =>
    _ ← lift_result (LauncherIdentity_verify identity (ir_identity (al_request self)));
    sequence ← lift_result (advance_sequence (al_sequence self) ExecReleaseValidated);
    mret (mkReleasedLauncher (al_request self) sequence)
  | _ => throw UnexpectedMessage
  end.
Fixpoint mark_close_on_exec (descriptors : list Z) : eff History LauncherError () :=
  match descriptors with
  | [] => mret ()
  | descriptor :: descriptors =>
    _ ← io_err FileDescriptorInvalid (set_descriptor_close_on_exec descriptor);
    mark_close_on_exec descriptors
  end.
Definition mark_declared_descriptors_close_on_exec (request : InstallRequest) : eff History LauncherError () :=
  mark_close_on_exec (declared_descriptors request).
(** The drop of a vector of owned descriptors, in its order. *)
Fixpoint close_all {E} (descriptors : list Z) : eff History E () :=
  match descriptors with
  | [] => mret ()
  | descriptor :: descriptors => _ ← syscall (Close descriptor); close_all descriptors
  end.
Definition dropping_all {E A} (descriptors : list Z) (m : eff History E A) : eff History E A := fun h =>
  let '(r, h) := m h in
  let '(_, h) := close_all (E := ()) descriptors h in (r, h).
(** [collect] into a [Result<Vec<_>, _>]: a failure drops the descriptors collected. *)
Fixpoint duplicate_rules (rules : list LauncherFilesystemRule) (collected : list (Z * list LandlockAccess)) :
    eff History LauncherError (list (Z * list LandlockAccess)) :=
  match rules with
  | [] => mret collected
  | rule :: rules => fun h =>
    match io_err FileDescriptorInvalid (duplicate_descriptor (fr_descriptor rule)) h with
    | (Ok descriptor, h) => duplicate_rules rules (collected ++ [(descriptor, fr_access rule)]) h
    | (Err error, h) => dropping_all (map fst collected) (throw error) h
    end
  end.
Definition duplicate_rule_descriptors (request : InstallRequest) : eff History LauncherError (list (Z * list LandlockAccess)) :=
  duplicate_rules (ir_filesystem request) [].

(** [run_launcher] in three phases and the exec.  First, until nothing but the declared
    descriptors is open: the request, the arguments and the environment.  The fuel is
    that of [read_all]. *)
Definition launcher_prepare (fuel : nat) (channel : LauncherChannel) (expected : LauncherIdentity)
    (architecture : Seccomp.Architecture) : M (PreparedLauncher * (list (list byte) * list (list byte))) :=
  _ ← may_fail pause_for_supervisor;
  prepared ← reporting channel expected (fun error => (stage_for_protocol_error error, error))
    (may_fail (receive_install_request channel expected));
  let request := pl_request prepared in
  _ ← report_error channel expected FileDescriptors
        (if (lc_descriptor channel <? 0)%Z then throw FileDescriptorInvalid else mret ());
  expected_program ← reporting channel expected (fun _ => (Seccomp, SeccompInstallationFailed))
    (lift_result (Seccomp.compile_deny_network_program architecture));
  _ ← report_error channel expected Stage_Identity
        (if negb (bool_decide (ir_seccomp_program request = expected_program)) then throw SeccompProgramMismatch else mret ());
  _ ← report_error channel expected FileDescriptors (mark_declared_descriptors_close_on_exec request);
  _ ← reporting channel expected (fun _ => (Stage_Identity, ExecutableIdentityMismatch))
        (Executable.revalidate_inherited_executable sha256 fuel (ir_executable_fd request) (ir_executable_id request));
  arguments ← report_error channel expected Exec (lift_result (build_arguments request));
  environment ← report_error channel expected Exec (lift_result (build_environment request));
  _ ← report_error channel expected FileDescriptors
        (io_err FileDescriptorInvalid (close_descriptors_except (declared_descriptors request ++ [lc_descriptor channel])));
  mret (prepared, (arguments, environment)).
(** Then the boundaries. *)
Definition launcher_install (channel : LauncherChannel) (expected : LauncherIdentity)
    (architecture : Seccomp.Architecture) (landlock_abi : Z) (request : InstallRequest) : M Seccomp.SeccompBoundary :=
  locked ← reporting channel expected (fun error => (privilege_stage error, PrivilegeInstallationFailed))
    (may_fail Privilege.lock_privileges);
  descriptor_rules ← report_error channel expected FileDescriptors (duplicate_rule_descriptors request);
  landlock ← dropping_all (map fst descriptor_rules)
        (reporting channel expected (fun _ => (Landlock, LandlockInstallationFailed))
           (may_fail (Landlock.install_landlock landlock_abi (landlock_rules descriptor_rules))));
  reporting channel expected (fun _ => (Seccomp, SeccompInstallationFailed)) (Seccomp.install_deny_network architecture).
(** Then the exchange with the supervisor, and the last tests. *)
Definition launcher_handshake (fuel : nat) (channel : LauncherChannel) (expected : LauncherIdentity)
    (prepared : PreparedLauncher) (seccomp : Seccomp.SeccompBoundary) : M ExecAuthorization :=
  installed ← report_error channel expected Acknowledgement (lift_result (record_boundary_installed prepared seccomp));
  acknowledged ← report_error channel expected Acknowledgement (acknowledge installed channel);
  released ← report_error channel expected Exec (receive_exec_release acknowledged channel);
  authorization ← report_error channel expected Exec (lift_result (authorize_exec released));
  let request := ea_request authorization in
  _ ← reporting channel expected (fun _ => (Stage_Identity, ExecutableIdentityMismatch))
        (Executable.revalidate_inherited_executable sha256 fuel (ir_executable_fd request) (ir_executable_id request));
  _ ← report_error channel expected Exec (io_err WorkingDirectoryFailed (change_directory (ir_working_directory_fd request)));
  mret authorization.
Definition launcher_setup (fuel : nat) (channel : LauncherChannel) (expected : LauncherIdentity)
    (architecture : Seccomp.Architecture) (landlock_abi : Z) : M (InstallRequest * (list (list byte) * list (list byte))) :=
  '(prepared, texts) ← launcher_prepare fuel channel expected architecture;
  seccomp ← launcher_install channel expected architecture landlock_abi (pl_request prepared);
  authorization ← launcher_handshake fuel channel expected prepared seccomp;
  mret (ea_request authorization, texts).
Definition run_launcher (fuel : nat) (channel : LauncherChannel) (expected : LauncherIdentity)
    (architecture : Seccomp.Architecture) (landlock_abi : Z) : M () :=
  '(request, texts) ← launcher_setup fuel channel expected architecture landlock_abi;
  reporting channel expected (fun errno => (Exec, exec_error errno))
    (may_fail (execveat (ir_executable_fd request) texts.1 texts.2)).
End run.

(** * What precedes the exec *)

(** A message received, and one sent, each as one packet of the channel. *)
Inductive received (channel : LauncherChannel) (message : LauncherMessage) : list Event -> Prop :=
| received_packet size bytes :
  (0 < size <= MAX_LAUNCHER_FRAME_BYTES)%Z ->
  decode_launcher_message (buffer_prefix (MAX_LAUNCHER_FRAME_BYTES + 1) size bytes) = Ok message ->
  received channel message [event (System.Read (lc_descriptor channel) (MAX_LAUNCHER_FRAME_BYTES + 1)) (size, bytes)].
Inductive sent (channel : LauncherChannel) (message : LauncherMessage) : list Event -> Prop :=
| sent_packet bytes :
  encode_launcher_message message = Ok bytes ->
  sent channel message [event (System.Write (lc_descriptor channel) bytes) (Z.of_nat (length bytes))].
(** The calls close the descriptors from 3 on, but those kept. *)
Definition closed_range (e : Event) : option (Z * Z) :=
  match e with event c _ => match c with Close_range first last => Some (first, last) | _ => None end end.
Record closes_but (keep : list Z) (es : list Event) : Prop := {
  closes_only e : e ∈ es -> exists first last, e = event (Close_range first last) 0%Z;
  closes_exactly d : (3 <= d <= U32_MAX)%Z ->
    (d ∈ keep <-> forall first last, (first, last) ∈ omap closed_range es -> ~ (first <= d <= last)%Z)
}.
Inductive prepared_run (sha256 : list byte -> list byte) (channel : LauncherChannel) (expected : LauncherIdentity)
    (program : list byte) (request : InstallRequest) (arguments environment : list (list byte)) : list Event -> Prop :=
| prepared_by install check closes :
  received channel (Install request) install ->
  ir_identity request = expected -> ir_seccomp_program request = program ->
  Executable.identified sha256 (ir_executable_fd request) (ir_executable_id request) check ->
  build_arguments request = Ok arguments -> build_environment request = Ok environment ->
  closes_but (declared_descriptors request ++ [lc_descriptor channel]) closes ->
  prepared_run sha256 channel expected program request arguments environment
    ([event Raise_stop 0%Z] ++ install
     ++ map (fun descriptor => event (Fcntl_close_on_exec descriptor) 0%Z) (declared_descriptors request) ++ check ++ closes).
Definition duplicated (rules : list LauncherFilesystemRule) (duplicates : list Z) : list Event :=
  zip_with (fun rule duplicate => event (Fcntl_dup (fr_descriptor rule) F_DUPFD_MINIMUM) duplicate) rules duplicates.
Definition closed (descriptors : list Z) : list Event := map (fun descriptor => event (Close descriptor) ()) descriptors.
(** [h] are the calls before. *)
Inductive installed_run `{Kernel} (landlock_abi : Z) (filter : list Seccomp.BpfInstruction) (request : InstallRequest)
    (h : History) : list Event -> Prop :=
| installed_by before after locked duplicates landlock restrict :
  let rules := ir_filesystem request in
  Privilege.lock_run before after locked ->
  length duplicates = length rules ->
  Landlock.landlock_run landlock_abi (landlock_rules (zip duplicates (map fr_access rules))) landlock restrict ->
  let es := Privilege.inspection_calls before ++ Privilege.drop_calls ++ Privilege.inspection_calls after
    ++ duplicated rules duplicates ++ restrict ++ closed duplicates
    ++ [event (Seccomp_filter Seccomp.SECCOMP_SET_MODE_FILTER Seccomp.SECCOMP_FILTER_FLAG_TSYNC filter) 0%Z] in
  reply Z (h ++ es) (Prctl PR_GET_SECCOMP 0 0) = 2%Z ->
  installed_run landlock_abi filter request h es.
Inductive released_run (sha256 : list byte -> list byte) (channel : LauncherChannel) (request : InstallRequest) : list Event -> Prop :=
| released_by acknowledgement release check :
  sent channel (Message_BoundaryInstalled (ir_identity request)) acknowledgement ->
  received channel (Message_ExecRelease (ir_identity request)) release ->
  Executable.identified sha256 (ir_executable_fd request) (ir_executable_id request) check ->
  released_run sha256 channel request
    (acknowledgement ++ release ++ check ++ [event (Fchdir (ir_working_directory_fd request)) 0%Z]).

Section ensured.
Context `{Kernel} `{Seccomp.Libc} (sha256 : list byte -> list byte).
Implicit Types (channel : LauncherChannel) (expected : LauncherIdentity).

Lemma ensures_may_fail {E A} (m : eff History E A) P : ensures m P -> ensures (may_fail m) P.
Proof. intros Hm h a h'. unfold may_fail. specialize (Hm h). destruct (m h) as [[x|e] h1]; [|done]. intros [= <- <-]. by apply Hm. Qed.
Lemma ensures_io {E A} (e : E) (m : eff History () A) P : ensures m P -> ensures (io_err e m) P.
Proof. intros Hm h a h'. unfold io_err. specialize (Hm h). destruct (m h) as [[x|u] h1]; [|done]. intros [= <- <-]. by apply Hm. Qed.
Lemma ensures_reporting {E A} channel expected failure (m : eff History (fault E) A) P :
  ensures m P -> ensures (reporting channel expected failure m) P.
Proof.
  intros Hm h a h'. unfold reporting. specialize (Hm h). destruct (m h) as [[x|[e|]] h1]; [|by destruct (report_failure _ _ _ _ _)|done].
  intros [= <- <-]. by apply Hm.
Qed.
Lemma ensures_report_error {A} channel expected stage (m : eff History LauncherError A) P :
  ensures m P -> ensures (report_error channel expected stage m) P.
Proof. intros Hm. by apply ensures_reporting, ensures_may_fail. Qed.

Lemma ensures_receive channel : ensures (LauncherChannel_receive channel) (fun _ message es => received channel message es).
Proof.
  unfold LauncherChannel_receive, receive_packet. eapply ensures_weaken.
  { eapply ensures_bind_pair.
    - apply ensures_io. eapply ensures_bind_pair; [apply ensures_succeeds, succeeds_syscall|]. intros size bytes.
      apply (ensures_if (size <? 0)%Z); [apply (ensures_throw _ (fun _ _ _ => False))|apply ensures_ret].
    - intros size buffer. apply (ensures_if (size =? 0)%Z); [apply (ensures_throw _ (fun _ _ _ => False))|].
      apply (ensures_if (MAX_LAUNCHER_FRAME_BYTES <? size)%Z); [apply (ensures_throw _ (fun _ _ _ => False))|apply ensures_lift]. }
  cbn beta. intros h message es (size & buffer & xs & ys & -> & (size' & bytes & us & vs & -> & -> & Hneg) & Hrest).
  destruct (Z.ltb_spec size' 0) as [|Hs]; [done|]. destruct Hneg as [[= -> ->] ->].
  destruct (Z.eqb_spec size' 0) as [|Hz]; [done|]. destruct (Z.ltb_spec MAX_LAUNCHER_FRAME_BYTES size') as [|Hm]; [done|].
  destruct Hrest as [Hd ->]. rewrite !app_nil_r. constructor; [lia|done].
Qed.
Lemma ensures_send channel message : ensures (LauncherChannel_send channel message) (fun _ _ es => sent channel message es).
Proof.
  unfold LauncherChannel_send, send_packet. eapply ensures_weaken.
  { eapply ensures_bind; [apply ensures_lift|]. intros bytes. apply ensures_io.
    eapply ensures_bind; [apply ensures_succeeds, succeeds_syscall|]. intros written.
    apply (ensures_if (written <? 0)%Z); [apply (ensures_throw _ (fun _ _ _ => False))|].
    apply (ensures_if (written =? Z.of_nat (length bytes))%Z); [apply ensures_ret|apply (ensures_throw _ (fun _ _ _ => False))]. }
  cbn beta. intros h u es (bytes & xs & ys & -> & [He ->] & written & us & vs & -> & -> & Hw).
  destruct (written <? 0)%Z; [done|]. destruct (Z.eqb_spec written (Z.of_nat (length bytes))) as [->|]; [|done].
  destruct Hw as [_ ->]. by constructor.
Qed.
Lemma ensures_mark descriptors : ensures (mark_close_on_exec descriptors)
  (fun _ _ es => es = map (fun descriptor => event (Fcntl_close_on_exec descriptor) 0%Z) descriptors).
Proof.
  induction descriptors as [|d descriptors IH]; cbn [mark_close_on_exec].
  - eapply ensures_weaken; [apply ensures_ret|]. by intros h u es [_ ->].
  - eapply ensures_weaken.
    { eapply ensures_bind; [apply ensures_succeeds, succeeds_io, succeeds_zero|]. intros ?. apply IH. }
    cbn. by intros h u es (? & xs & ys & -> & -> & ->).
Qed.

Lemma Z_rlt (a b : Z) : rlt a b = true <-> (a < b)%Z.
Proof. unfold rlt, rcmp, Z_ord, Z.lt. destruct (a ?= b)%Z; naive_solver. Qed.
Lemma ensures_gaps keep first :
  StronglySorted (fun a b => rlt a b = true) keep -> Forall (fun d => first <= d)%Z keep ->
  ensures (close_gaps keep first) (fun _ _ es =>
    (forall e, e ∈ es -> exists a b, e = event (Close_range a b) 0%Z)
    /\ (forall a b, (a, b) ∈ omap closed_range es -> (first <= a)%Z)
    /\ forall d, (first <= d <= U32_MAX)%Z ->
         (d ∈ keep <-> forall a b, (a, b) ∈ omap closed_range es -> ~ (a <= d <= b)%Z)).
Proof.
  intros Hs. revert first. induction Hs as [|k keep Hs IH Hk]; intros first Hf; cbn [close_gaps].
  - eapply ensures_weaken; [apply ensures_succeeds, succeeds_zero|]. cbn beta. intros h u es ->. split; [|split].
    + intros e ->%list_elem_of_singleton. by eexists _, _.
    + intros a b. cbn. rewrite list_elem_of_singleton. by intros [= -> ->].
    + intros d Hd. rewrite elem_of_nil. split; [done|]. intros Hall. apply (Hall first U32_MAX); [cbn; by left|done].
  - apply Forall_cons in Hf as [Hfk _]. destruct (u32_try_from (k + 1)) as [next|] eqn:Hn.
    2: { eapply ensures_weaken; [eapply ensures_bind; [|intros ?; apply (ensures_throw _ (fun _ _ _ => False))]|].
      - apply (ensures_if (first <? k)%Z); [apply ensures_succeeds, succeeds_zero|apply ensures_ret].
      - by intros h u es (? & ? & ? & _ & _ & []). }
    apply try_from_Some in Hn as [-> Hn].
    assert (Forall (fun d => k + 1 <= d)%Z keep) as Hnext by (eapply Forall_impl; [exact Hk|]; cbn; intros d ?%Z_rlt; lia).
    eapply ensures_weaken.
    { eapply ensures_bind; [|intros ?; apply (IH _ Hnext)].
      apply (ensures_if (first <? k)%Z); [apply ensures_succeeds, succeeds_zero|apply ensures_ret]. }
    cbn beta. intros h u es (u' & xs & ys & -> & Hx & Honly & Hfrom & Hexact).
    assert (omap closed_range xs = if (first <? k)%Z then [(first, k - 1)%Z] else []) as Hrange.
    { destruct (first <? k)%Z; [by rewrite Hx|by destruct Hx as [_ ->]]. }
    rewrite omap_app, Hrange. split; [|split].
    + intros e [He|He]%elem_of_app; [|by apply Honly]. destruct (first <? k)%Z.
      * rewrite Hx in He. apply list_elem_of_singleton in He as ->. by eexists _, _.
      * destruct Hx as [_ ->]. by apply elem_of_nil in He.
    + intros a b [Hab|Hab]%elem_of_app; [|apply Hfrom in Hab; lia]. destruct (first <? k)%Z; [|by apply elem_of_nil in Hab].
      apply list_elem_of_singleton in Hab as [= -> ->]. lia.
    + intros d Hd. rewrite elem_of_cons. setoid_rewrite elem_of_app.
      destruct (Z.lt_trichotomy d k) as [Hlt|[->|Hgt]].
      * split.
        { intros [->|Hin]; [lia|]. rewrite Forall_forall in Hnext. apply Hnext in Hin. lia. }
        intros Hall. exfalso. apply (Hall first (k - 1)%Z); [|lia]. left.
        rewrite (proj2 (Z.ltb_lt _ _)) by lia. by left.
      * split; [|by left]. intros _ a b [Hab|Hab] Hin; [|apply Hfrom in Hab; lia].
        destruct (first <? k)%Z; [|by apply elem_of_nil in Hab]. apply list_elem_of_singleton in Hab as [= -> ->]. lia.
      * assert (k + 1 <= d <= U32_MAX)%Z as Hd' by lia. split.
        { intros [->|Hin]; [lia|]. intros a b [Hab|Hab] Hr; [|by apply (proj1 (Hexact d Hd') Hin a b)].
          destruct (first <? k)%Z; [|by apply elem_of_nil in Hab]. apply list_elem_of_singleton in Hab as [= -> ->]. lia. }
        intros Hall. right. apply (Hexact d Hd'). intros a b Hab. apply Hall. by right.
Qed.
Lemma ensures_close_except keep : ensures (close_descriptors_except keep) (fun _ _ es => closes_but keep es).
Proof.
  unfold close_descriptors_except. eapply ensures_weaken.
  { eapply ensures_bind; [apply ensures_lift|]. intros kept.
    instantiate (1 := fun kept _ _ es => kept = keep -> closes_but keep es). cbn beta zeta.
    destruct (existsb _ _) eqn:Hlow; [apply ensures_throw|].
    eapply ensures_weaken; [apply ensures_gaps|].
    - apply dedup_by_strict; [|apply sort_weak]. intros a b. by rewrite bool_decide_eq_true.
    - eapply Forall_impl; [by apply existsb_false|]. cbn. intros d Hd. lia.
    - intros h u es (Honly & _ & Hexact) ->. split; [done|]. intros d Hd. rewrite <- Hexact by done.
      by rewrite elem_of_dedup_by, elem_of_sort by (intros; apply bool_decide_eq_true). }
  cbn beta. intros h u es (kept & xs & ys & -> & [Hk ->] & Hc). apply Hc.
  apply mapM_Ok in Hk. clear Hc. induction Hk as [|d k l l' H1 _ IH]; [done|].
  apply ok_or_Ok, try_from_Some in H1 as [-> _]. by rewrite IH.
Qed.

(** The steps of the boundaries. *)
Lemma close_all_run {E} descriptors h :
  close_all (E := E) descriptors h = (Ok (), h ++ closed descriptors) /\ answered h (closed descriptors).
Proof.
  revert h. induction descriptors as [|d descriptors IH]; intros h; cbn [close_all closed map]; [by rewrite app_nil_r|].
  destruct (IH (h ++ [event (Close d) ()])) as [He Ha]. unfold mbind, eff_bind, syscall. cbn.
  destruct (reply _ h (Close d)). by rewrite He, <- app_assoc.
Qed.
Lemma ensures_dropping_all {E A} descriptors (m : eff History E A) P :
  ensures m P -> ensures (dropping_all descriptors m) (fun h a es => exists xs, es = xs ++ closed descriptors /\ P h a xs).
Proof.
  intros Hm h a h'. unfold dropping_all. specialize (Hm h). destruct (m h) as [r h1].
  destruct (close_all_run (E := ()) descriptors h1) as [-> Hc]. intros [= -> <-].
  destruct (Hm _ _ eq_refl) as (xs & -> & Hx & Hp). exists (xs ++ closed descriptors).
  rewrite app_assoc, answered_app. repeat split; try done. by exists xs.
Qed.
Lemma ensures_duplicate rules collected : ensures (duplicate_rules rules collected) (fun _ r es => exists duplicates,
  length duplicates = length rules /\ r = collected ++ zip duplicates (map fr_access rules) /\ es = duplicated rules duplicates).
Proof.
  revert collected. induction rules as [|rule rules IH]; intros collected; cbn [duplicate_rules].
  - eapply ensures_weaken; [apply ensures_ret|]. intros h r es [-> ->]. exists []. by rewrite app_nil_r.
  - intros h a h'.
    pose proof (ensures_io FileDescriptorInvalid _ _ (ensures_succeeds _ _ (succeeds_dup (fr_descriptor rule))) h) as Hd.
    destruct (io_err _ _ h) as [[d|e] h1]; [|by unfold dropping_all, throw; destruct (close_all_run (E := ()) (map fst collected) h1) as [-> _]].
    destruct (Hd _ _ eq_refl) as (xs & -> & Hx & _ & ->).
    intros (ys & -> & Hy & duplicates & Hl & -> & ->)%IH. exists (event (Fcntl_dup (fr_descriptor rule) F_DUPFD_MINIMUM) d :: duplicated rules duplicates).
    rewrite <- app_assoc. split; [done|]. split; [exact (conj (proj1 Hx) Hy)|]. exists (d :: duplicates). cbn. rewrite Hl, <- app_assoc. done.
Qed.
Lemma ensures_seccomp architecture denied filter :
  (forall E, Seccomp.denied_syscalls (E := E) = Ok denied) -> Seccomp.build_filter architecture denied = Ok filter ->
  ensures (Seccomp.install_deny_network architecture) (fun h boundary es =>
    Seccomp.program boundary = Seccomp.encode_filter filter
    /\ es = [event (Seccomp_filter Seccomp.SECCOMP_SET_MODE_FILTER Seccomp.SECCOMP_FILTER_FLAG_TSYNC filter) 0%Z]
    /\ reply Z (h ++ es) (Prctl PR_GET_SECCOMP 0 0) = 2%Z).
Proof.
  intros Hd Hf h b h'. unfold Seccomp.install_deny_network. rewrite Hd, Hf. cbv zeta.
  unfold Seccomp.install_seccomp_filter. destruct (u16_try_from _); [|done]. cbn [Seccomp.sys_seccomp system_seccomp].
  destruct (reply Z h _ =? 0)%Z eqn:Hz; [|by destruct (_ <? 0)%Z]. apply Z.eqb_eq in Hz.
  unfold Seccomp.seccomp_mode. cbn [Seccomp.prctl_get_seccomp system_seccomp]. rewrite Hz.
  set (es := [event (Seccomp_filter _ _ filter) 0%Z]). destruct (_ <? 0)%Z; [done|].
  destruct (ok_or _ _) as [mode|] eqn:Hm; [|done]. apply ok_or_Ok, try_from_Some in Hm as [-> _].
  destruct (Z.eqb_spec (reply Z (h ++ es) (Prctl PR_GET_SECCOMP 0 0)) 2) as [Hmode|]; [|done]. intros [= <- <-].
  exists es. by repeat split.
Qed.

(** The three phases. *)
Lemma LauncherIdentity_verify_Ok identity expected u : LauncherIdentity_verify identity expected = Ok u <-> identity = expected.
Proof.
  destruct identity as [e p c], expected as [e' p' c'], u. unfold LauncherIdentity_verify. cbn.
  repeat (case_bool_decide; cbn; [|naive_solver]). naive_solver.
Qed.
Lemma ensures_request channel expected : ensures (receive_install_request channel expected) (fun _ prepared es =>
  received channel (Install (pl_request prepared)) es /\ ir_identity (pl_request prepared) = expected
  /\ pl_sequence prepared = InstallValidated).
Proof.
  unfold receive_install_request. eapply ensures_weaken.
  { eapply ensures_bind; [apply ensures_receive|]. intros message.
    instantiate (1 := fun message _ prepared es => es = [] /\ message = Install (pl_request prepared)
      /\ ir_identity (pl_request prepared) = expected /\ pl_sequence prepared = InstallValidated). cbn beta.
    destruct message as [request| | |]; [|apply ensures_throw..]. eapply ensures_weaken.
    { eapply ensures_bind; [apply ensures_lift|]. intros ?. apply ensures_ret. }
    cbn beta. intros h prepared es (u & xs & ys & -> & [Hv%LauncherIdentity_verify_Ok ->] & -> & ->). by cbn. }
  cbn beta. intros h prepared es (message & xs & ys & -> & Hr & -> & -> & Hi & Hs). by rewrite app_nil_r.
Qed.
Lemma ensures_prepare fuel channel expected architecture :
  ensures (launcher_prepare sha256 fuel channel expected architecture) (fun _ r es =>
    exists program, Seccomp.compile_deny_network_program architecture = Ok program
    /\ prepared_run sha256 channel expected program (pl_request r.1) r.2.1 r.2.2 es
    /\ pl_sequence r.1 = InstallValidated).
Proof.
  unfold launcher_prepare. eapply ensures_weaken.
  { eapply ensures_bind; [apply ensures_may_fail, ensures_succeeds, succeeds_io, succeeds_zero|]. intros ?.
    eapply ensures_bind; [apply ensures_reporting, ensures_may_fail, ensures_request|]. intros prepared. cbv zeta.
    eapply ensures_bind; [apply ensures_report_error, (ensures_if (lc_descriptor channel <? 0)%Z);
      [apply (ensures_throw _ (fun _ _ _ => False))|apply ensures_ret]|]. intros ?.
    eapply ensures_bind; [apply ensures_reporting, ensures_lift|]. intros program.
    eapply ensures_bind; [apply ensures_report_error, (ensures_if (negb (bool_decide (ir_seccomp_program (pl_request prepared) = program))));
      [apply (ensures_throw _ (fun _ _ _ => False))|apply ensures_ret]|]. intros ?.
    eapply ensures_bind; [apply ensures_report_error, ensures_mark|]. intros ?.
    eapply ensures_bind; [apply ensures_reporting, Executable.revalidate_ensures|]. intros ?.
    eapply ensures_bind; [apply ensures_report_error, ensures_lift|]. intros arguments.
    eapply ensures_bind; [apply ensures_report_error, ensures_lift|]. intros environment.
    eapply ensures_bind; [apply ensures_report_error, ensures_io, ensures_close_except|]. intros ?. apply ensures_ret. }
  cbn beta. intros h r es (? & a1 & ? & -> & -> & prepared & install & ? & -> & (Hr & Hi & Hs) & ? & a3 & ? & -> & Hchan &
    program & a4 & ? & -> & [Hp ->] & ? & a5 & ? & -> & Hsame & ? & a6 & ? & -> & -> & ? & check & ? & -> & Hcheck &
    arguments & a8 & ? & -> & [Ha ->] & environment & a9 & ? & -> & [He ->] & ? & closes & ? & -> & Hcl & -> & ->).
  destruct (_ <? _)%Z; [done|]. destruct Hchan as [_ ->].
  case_bool_decide as Hprog; cbn [negb] in Hsame; [|done]. destruct Hsame as [_ ->].
  exists program. split; [done|]. split; [|done]. rewrite app_nil_r. cbn [app fst snd]. by constructor.
Qed.
Lemma ensures_install channel expected architecture landlock_abi request denied filter :
  (forall E, Seccomp.denied_syscalls (E := E) = Ok denied) -> Seccomp.build_filter architecture denied = Ok filter ->
  ensures (launcher_install channel expected architecture landlock_abi request) (fun h boundary es =>
    Seccomp.program boundary = Seccomp.encode_filter filter /\ installed_run landlock_abi filter request h es).
Proof.
  intros Hd Hf. unfold launcher_install. eapply ensures_weaken.
  { eapply ensures_bind; [apply ensures_reporting, ensures_may_fail, ensures_succeeds, Privilege.succeeds_lock|]. intros locked.
    eapply ensures_bind; [apply ensures_report_error, ensures_duplicate|]. intros rules.
    eapply ensures_bind; [apply ensures_dropping_all, ensures_reporting, ensures_may_fail, ensures_succeeds, Landlock.succeeds_landlock|].
    intros landlock. apply ensures_reporting, (ensures_seccomp _ _ _ Hd Hf). }
  cbn beta. intros h b es (locked & ? & ? & -> & (before & after & Hlock & ->) & rules & ? & ? & -> & (duplicates & Hl & -> & ->) &
    landlock & ? & ? & -> & (restrict & -> & Hrun) & Hp & -> & Hmode).
  assert (map fst (zip duplicates (map fr_access (ir_filesystem request))) = duplicates) as Hdup.
  { apply fst_zip. by rewrite length_map, Hl. }
  cbn [app] in *. rewrite Hdup in *. split; [done|]. rewrite <- !app_assoc in *.
  by apply (installed_by landlock_abi filter request h before after locked duplicates landlock restrict).
Qed.
Lemma record_boundary_Ok prepared boundary installed :
  record_boundary_installed prepared boundary = Ok installed ->
  il_request installed = pl_request prepared /\ il_identity installed = ir_identity (pl_request prepared).
Proof.
  unfold record_boundary_installed. destruct (negb _); [done|]. intros (s & _ & [= <-])%bind_Ok. done.
Qed.
Lemma ensures_acknowledge channel installed : ensures (acknowledge installed channel) (fun _ acknowledged es =>
  al_request acknowledged = il_request installed /\ sent channel (Message_BoundaryInstalled (il_identity installed)) es).
Proof.
  unfold acknowledge. eapply ensures_weaken.
  { eapply ensures_bind; [apply ensures_send|]. intros ?. eapply ensures_bind; [apply ensures_lift|]. intros s. apply ensures_ret. }
  cbn beta. intros h a es (? & xs & ? & -> & Hs & s & ? & ? & -> & [_ ->] & -> & ->). by rewrite app_nil_r.
Qed.
Lemma ensures_release channel acknowledged : ensures (receive_exec_release acknowledged channel) (fun _ released es =>
  rl_request released = al_request acknowledged
  /\ received channel (Message_ExecRelease (ir_identity (al_request acknowledged))) es).
Proof.
  unfold receive_exec_release. eapply ensures_weaken.
  { eapply ensures_bind; [apply ensures_receive|]. intros message.
    instantiate (1 := fun message _ released es => es = [] /\ rl_request released = al_request acknowledged
      /\ message = Message_ExecRelease (ir_identity (al_request acknowledged))). cbn beta.
    destruct message as [| |identity|]; [apply ensures_throw..| |apply ensures_throw]. eapply ensures_weaken.
    { eapply ensures_bind; [apply ensures_lift|]. intros ?. eapply ensures_bind; [apply ensures_lift|]. intros s. apply ensures_ret. }
    cbn beta. intros h released es (? & ? & ? & -> & [->%LauncherIdentity_verify_Ok ->] & s & ? & ? & -> & [_ ->] & -> & ->). done. }
  cbn beta. intros h released es (message & xs & ys & -> & Hr & -> & -> & ->). by rewrite app_nil_r.
Qed.
Lemma authorize_exec_Ok released authorization :
  authorize_exec released = Ok authorization -> ea_request authorization = rl_request released.
Proof. unfold authorize_exec. by intros (s & _ & [= <-])%bind_Ok. Qed.
Lemma ensures_handshake fuel channel expected prepared boundary :
  ensures (launcher_handshake sha256 fuel channel expected prepared boundary) (fun _ authorization es =>
    ea_request authorization = pl_request prepared /\ released_run sha256 channel (pl_request prepared) es).
Proof.
  unfold launcher_handshake. eapply ensures_weaken.
  { eapply ensures_bind; [apply ensures_report_error, ensures_lift|]. intros installed.
    eapply ensures_bind; [apply ensures_report_error, ensures_acknowledge|]. intros acknowledged.
    eapply ensures_bind; [apply ensures_report_error, ensures_release|]. intros released.
    eapply ensures_bind; [apply ensures_report_error, ensures_lift|]. intros authorization. cbv zeta.
    eapply ensures_bind; [apply ensures_reporting, Executable.revalidate_ensures|]. intros ?.
    eapply ensures_bind; [apply ensures_report_error, ensures_io, ensures_succeeds, succeeds_zero|]. intros ?. apply ensures_ret. }
  cbn beta. intros h a es (installed & ? & ? & -> & [[Hreq Hid]%record_boundary_Ok ->] & acknowledged & ack & ? & -> & [Hack Hsent] &
    released & rel & ? & -> & [Hrel Hreceived] & authorization & ? & ? & -> & [Hauth%authorize_exec_Ok ->] &
    ? & check & ? & -> & Hcheck & ? & ? & ? & -> & -> & -> & ->).
  assert (ea_request authorization = pl_request prepared) as Hea by congruence. split; [done|].
  rewrite Hea in *. rewrite Hack, Hreq in Hreceived. rewrite Hid in Hsent. rewrite app_nil_r. by constructor.
Qed.
(** A launcher that gets as far as the exec has gone through the three phases. *)
Lemma ensures_setup fuel channel expected architecture landlock_abi denied filter :
  (forall E, Seccomp.denied_syscalls (E := E) = Ok denied) -> Seccomp.build_filter architecture denied = Ok filter ->
  ensures (launcher_setup sha256 fuel channel expected architecture landlock_abi) (fun h r es => exists first second third,
    es = first ++ second ++ third
    /\ prepared_run sha256 channel expected (Seccomp.encode_filter filter) r.1 r.2.1 r.2.2 first
    /\ installed_run landlock_abi filter r.1 (h ++ first) second
    /\ released_run sha256 channel r.1 third).
Proof.
  intros Hd Hf. unfold launcher_setup. eapply ensures_weaken.
  { eapply ensures_bind_pair; [apply ensures_prepare|]. intros prepared texts.
    eapply ensures_bind; [apply (ensures_install _ _ _ _ _ _ _ Hd Hf)|]. intros boundary.
    eapply ensures_bind; [apply ensures_handshake|]. intros authorization. apply ensures_ret. }
  cbn beta. intros h r es (prepared & texts & first & ? & -> & (program & Hprogram & Hprep & _) & boundary & second & ? & -> & [_ Hins] &
    authorization & third & ? & -> & [Ha Hrel] & -> & ->). cbn [fst snd] in *. rewrite Ha, app_nil_r. exists first, second, third.
  unfold Seccomp.compile_deny_network_program in Hprogram. rewrite Hd in Hprogram. cbn in Hprogram. rewrite Hf in Hprogram.
  injection Hprogram as <-. done.
Qed.

(** * The calls of every run *)

Lemma quiet_channel_send channel message : quiet (LauncherChannel_send channel message).
Proof. unfold LauncherChannel_send. quietly. Qed.
Lemma quiet_channel_receive channel : quiet (LauncherChannel_receive channel).
Proof. unfold LauncherChannel_receive. quietly. Qed.
Lemma quiet_report_failure channel identity stage error : quiet (report_failure channel identity stage error).
Proof.
  unfold report_failure. destruct (LauncherFailure_new _ _ _) as [f|e]; [|apply (quiet_throw error)].
  apply (quiet_after (LauncherChannel_send channel (Message_Failure f)) (fun _ h => (Err error, h))); [apply quiet_channel_send|].
  intros ?. apply quiet_throw.
Qed.
Lemma quiet_ext {E A} (m n : eff History E A) : (forall h, m h = n h) -> quiet m -> quiet n.
Proof. intros He Hm h. rewrite <- He. apply Hm. Qed.
Lemma quiet_reporting {E A} channel expected failure (m : eff History (fault E) A) :
  quiet m -> quiet (reporting channel expected failure m).
Proof.
  intros Hm. eapply quiet_ext; [|apply (quiet_after m (fun r => match r with
    | Ok a => mret a
    | Err (Failure e) => fun h =>
      let '(_, h) := report_failure channel expected (failure e).1 (failure e).2 h in (Err (Failure (failure e).2), h)
    | Err Panicked => throw Panicked end))].
  - intros h. unfold reporting. destruct (m h) as [[a|[e|]] h1]; done.
  - exact Hm.
  - intros [a|[e|]]; [apply quiet_ret| |apply quiet_throw].
    apply (quiet_after (report_failure channel expected (failure e).1 (failure e).2) (fun _ => throw (Failure (failure e).2)));
      [apply quiet_report_failure|]. intros ?. apply quiet_throw.
Qed.
Lemma quiet_report_error {A} channel expected stage (m : eff History LauncherError A) :
  quiet m -> quiet (report_error channel expected stage m).
Proof. intros Hm. by apply quiet_reporting, quiet_fault. Qed.
Lemma quiet_dropping_all {E A} descriptors (m : eff History E A) : quiet m -> quiet (dropping_all descriptors m).
Proof.
  intros Hm. apply (quiet_after m (fun r h => let '(_, h) := close_all (E := ()) descriptors h in (r, h)) Hm). intros r h.
  destruct (close_all_run (E := ()) descriptors h) as [-> Ha]. exists (closed descriptors). split; [done|]. split; [done|].
  unfold closed. apply Forall_map, Forall_true. done.
Qed.
Lemma quiet_mark descriptors : quiet (mark_close_on_exec descriptors).
Proof. induction descriptors as [|d l IH]; cbn [mark_close_on_exec]; quietly. Qed.
Lemma quiet_duplicate rules collected : quiet (duplicate_rules rules collected).
Proof.
  revert collected. induction rules as [|rule rules IH]; intros collected; cbn [duplicate_rules]; [apply quiet_ret|].
  eapply quiet_ext; [|apply (quiet_after (io_err FileDescriptorInvalid (duplicate_descriptor (fr_descriptor rule))) (fun r => match r with
    | Ok d => duplicate_rules rules (collected ++ [(d, fr_access rule)])
    | Err e => dropping_all (map fst collected) (throw e) end))].
  - intros h. cbn beta. destruct (io_err _ _ h) as [[d|e] h1]; done.
  - quietly.
  - intros [d|e]; [apply IH|]. apply quiet_dropping_all, quiet_throw.
Qed.
Lemma quiet_ambient capabilities acc : quiet (Privilege.ambient_scan capabilities acc).
Proof.
  revert acc. induction capabilities as [|c l IH]; intros acc; cbn [Privilege.ambient_scan]; [apply quiet_ret|].
  unfold ambient_capability_is_set, prctl_flag. quietly.
Qed.
Lemma quiet_inspect : quiet Privilege.inspect_privileges.
Proof.
  unfold Privilege.inspect_privileges, process_ids, capability_sets, no_new_privileges_enabled, prctl_flag.
  quietly. apply quiet_ambient.
Qed.
#[local] Hint Resolve quiet_inspect : quiet.
Lemma quiet_lock : quiet Privilege.lock_privileges.
Proof.
  unfold Privilege.lock_privileges, clear_ambient_capabilities, clear_capability_sets, set_no_new_privileges.
  quietly.
Qed.
Lemma quiet_rules ruleset rules : quiet (Landlock.install_rules ruleset rules).
Proof.
  induction rules as [|rule rules IH]; cbn [Landlock.install_rules]; [apply quiet_ret|].
  unfold Landlock.descriptor_is_directory, add_landlock_path_rule. quietly.
Qed.
Lemma quiet_landlock abi rules : quiet (Landlock.install_landlock abi rules).
Proof.
  unfold Landlock.install_landlock, create_landlock_ruleset, restrict_with_landlock. quietly. apply quiet_rules.
Qed.
Lemma quiet_seccomp architecture : quiet (Seccomp.install_deny_network architecture).
Proof.
  intros h. unfold Seccomp.install_deny_network. destruct Seccomp.denied_syscalls as [d|e]; [|apply (quiet_throw e)].
  destruct (Seccomp.build_filter architecture d) as [f|e]; [|apply (quiet_throw (Failure e))]. cbv zeta.
  unfold Seccomp.install_seccomp_filter. destruct (u16_try_from _); [|apply (quiet_throw (Failure Seccomp.InstallationFailed))].
  cbn [Seccomp.sys_seccomp system_seccomp].
  set (e := event (Seccomp_filter _ _ f) _). exists [e]. split; [|split; [done|by repeat constructor]].
  repeat case_match; simplify_eq; done.
Qed.
#[local] Hint Resolve quiet_channel_send quiet_channel_receive quiet_mark quiet_duplicate quiet_lock quiet_landlock
  quiet_seccomp : quiet.
Lemma quiet_request channel expected : quiet (receive_install_request channel expected).
Proof. unfold receive_install_request. quietly. Qed.
Lemma quiet_acknowledge channel installed : quiet (acknowledge installed channel).
Proof. unfold acknowledge. quietly. Qed.
Lemma quiet_release channel acknowledged : quiet (receive_exec_release acknowledged channel).
Proof. unfold receive_exec_release. quietly. Qed.
#[local] Hint Resolve quiet_request quiet_acknowledge quiet_release Executable.quiet_revalidate : quiet.
#[local] Ltac quiet_steps :=
  repeat first [progress quietly | apply quiet_reporting | apply quiet_report_error | apply quiet_dropping_all].
Lemma quiet_setup fuel channel expected architecture landlock_abi :
  quiet (launcher_setup sha256 fuel channel expected architecture landlock_abi).
Proof.
  unfold launcher_setup. apply quiet_bind; [|intros [prepared texts]; apply quiet_bind; [|intros boundary; apply quiet_bind]].
  - unfold launcher_prepare, pause_for_supervisor, pause_current_process. quiet_steps.
  - unfold launcher_install, duplicate_rule_descriptors. quiet_steps.
  - unfold launcher_handshake, change_directory. quiet_steps.
  - intros ?. quietly.
Qed.

(** C16: The launcher executes the requested program only behind the boundaries.  Take
    any run of [run_launcher]: any kernel, any calls before, any fuel.  Either it starts
    no program and returns an error, or its calls are, in this order: the stop; one packet that decodes to an
    install request for the expected execution, policy and cgroup, whose seccomp program
    is the one compiled here; the marks that close the declared descriptors on exec; the
    revalidation of the executable; the closing of every descriptor that is not declared;
    the removal of the privileges, with everything read back; the Landlock ruleset with
    exactly the rules of the request; a seccomp filter that decides every system call as
    the profile says, with mode 2 read back; the acknowledgement; one packet that
    releases the same identity; the revalidation of the executable again; the change of
    directory; and then one [execveat] of the descriptor revalidated, with the arguments and the
    environment of the request.  No other call starts a program, before or after, and
    the result is the outcome of that [execveat]. *)
Theorem launcher_execs_behind_boundaries (fuel : nat) (channel : LauncherChannel) (expected : LauncherIdentity)
    (architecture : Seccomp.Architecture) (landlock_abi : Z) (h h' : History) (r : result (fault LauncherError) ())
    (HSYS : forall s, (0 <= Seccomp.SYS s < u32_bound)%Z)
    (Hr : run_launcher sha256 fuel channel expected architecture landlock_abi h = (r, h')) :
  exists es, h' = h ++ es /\ answered h es
  /\ ((Forall (fun e => starts_program e = false) es /\ r <> Ok ())
      \/ exists filter request arguments environment first second third outcome rest,
           es = first ++ second ++ third
                ++ [event (Execveat (ir_executable_fd request) [] arguments environment) outcome] ++ rest
           /\ prepared_run sha256 channel expected (Seccomp.encode_filter filter) request arguments environment first
           /\ installed_run landlock_abi filter request (h ++ first) second
           /\ released_run sha256 channel request third
           /\ (forall audit nr, Seccomp.evaluate filter audit nr
                = Some (Seccomp.decision architecture (map Seccomp.SYS Seccomp.denied_catalog) audit nr))
           /\ Forall (fun e => starts_program e = false) (first ++ second ++ third ++ rest)
           /\ r = if (outcome.1 =? 0)%Z then Ok () else Err (Failure (exec_error outcome.2))).
Proof.
  destruct (Seccomp.denied_filter architecture HSYS) as (denied & filter & Hd & Hf & _ & Hdecides).
  pose proof (ensures_setup fuel channel expected architecture landlock_abi denied filter Hd Hf h) as Hs.
  destruct (quiet_setup fuel channel expected architecture landlock_abi h) as (setup & Hh & Ha & Hq).
  unfold run_launcher, mbind, eff_bind in Hr. destruct (launcher_setup _ _ _ _ _ _ h) as [[[request [arguments environment]]|e] h1]; cbn in Hh; subst h1.
  2: { injection Hr as <- <-. exists setup. split; [done|]. split; [done|]. by left. }
  destruct (Hs _ _ eq_refl) as (es & ->%app_inv_head & _ & first & second & third & -> & Hfirst & Hsecond & Hthird).
  cbn [fst snd] in *. unfold reporting, may_fail, execveat, syscall, mbind, eff_bind in Hr.
  set (outcome := reply _ _ (Execveat _ _ _ _)) in Hr. set (es := first ++ second ++ third) in *.
  set (call := event (Execveat _ _ _ _) outcome) in Hr.
  assert (answered h (es ++ [call])) as Hcall by (apply answered_app; split; [done|by split]).
  enough (exists rest, h' = h ++ (es ++ [call]) ++ rest /\ answered (h ++ es ++ [call]) rest
    /\ Forall (fun e => starts_program e = false) rest
    /\ r = if (outcome.1 =? 0)%Z then Ok () else Err (Failure (exec_error outcome.2))) as (rest & -> & Hrest & Hqr & Hres).
  { eexists. split; [done|]. split; [by apply answered_app|]. right.
    exists filter, request, arguments, environment, first, second, third, outcome, rest.
    split; [by unfold es; rewrite <- !app_assoc|]. repeat (split; [done|]). split; [|done].
    rewrite !app_assoc. apply Forall_app. split; [|done]. by rewrite <- !app_assoc. }
  destruct outcome as [result errno]. cbn [fst snd] in *. destruct (result =? 0)%Z; cbn in Hr.
  - injection Hr as <- <-. exists []. by rewrite app_nil_r, app_assoc.
  - destruct (quiet_report_failure channel expected Exec (exec_error errno) ((h ++ es) ++ [call])) as (rest & Hh & Ar & Qr).
    destruct (report_failure _ _ _ _ _) as [? h2]. cbn in Hh. subst h2. injection Hr as <- <-. exists rest.
    by rewrite !app_assoc in *.
Qed.
End ensured.

(** * A run that reaches the exec *)

Definition example_sha256 (content : list byte) : list byte := replicate 32 (mkb 7).
Definition example_channel : LauncherChannel := mkLauncherChannel 7.
Definition example_program : list byte :=
  match Seccomp.compile_deny_network_program (H := Seccomp.x86_64_numbers) Seccomp.X86_64 with Ok p => p | Err _ => [] end.
Definition example_install : list byte :=
  match (read_only ← LauncherFilesystemRule_new 4 [Read; Write];
         executable ← LauncherFilesystemRule_new 3 [Execute; Read];
         request ← InstallRequest_new LauncherWire.example_identity
           (ArtifactIdentity_new RuntimeExecutable (Sha256Digest_from_bytes (replicate 32 (mkb 7))) 12 (mkFileMode 493)) 3 5
           ["program"; "argument"]%string [("LANG", "C"); ("PATH", "/bin")]%string [read_only; executable] example_program 6;
         encode_launcher_message (Install request)) with Ok bytes => bytes | Err _ => [] end.
Definition example_release : list byte :=
  match encode_launcher_message (Message_ExecRelease LauncherWire.example_identity) with Ok bytes => bytes | Err _ => [] end.
Definition is_read (e : Event) : bool := match e with event c _ => match c with System.Read _ _ => true | _ => false end end.
(** A kernel that grants everything to user 1000: the first packet is the request, the
    second the release, and every file is a regular file of twelve bytes. *)
Definition example_kernel (release : list byte) : Kernel := fun R h c =>
  match c in Sys R return R with
  | Raise_stop => 0
  | System.Write _ bytes => Z.of_nat (length bytes)
  | System.Read _ _ =>
    let packet := if existsb is_read h then release else example_install in (Z.of_nat (length packet), packet)
  | Fcntl_dup descriptor _ => descriptor + 100
  | Fcntl_close_on_exec _ => 0
  | Close _ => ()
  | Close_inherited _ => 0
  | Socketpair _ => (-1, (0, 0))
  | Poll _ _ => 1
  | Close_range _ _ => 0
  | Getresuid | Getresgid => (0, (1000, 1000, 1000))
  | Capget _ _ => (0, (CapabilityData_default, CapabilityData_default))
  | Capset _ _ _ => 0
  | Prctl option _ _ => if option =? PR_GET_NO_NEW_PRIVS then 1 else if option =? PR_GET_SECCOMP then 2 else 0
  | Landlock_create_ruleset _ => 50
  | Landlock_add_rule _ _ _ _ => 0
  | Landlock_restrict_self _ => 0
  | Seccomp_filter _ _ _ => 0
  | Fchdir _ => 0
  | Execveat _ _ _ _ => (0, 0)
  | Try_clone descriptor => Some (descriptor + 1)
  | File_metadata _ => Some (mkMetadata Regular 1 2 12 33261 3 4 5 6)
  | File_read_at _ _ offset => Some (if offset =? 0 then replicate 12 (mkb 65) else [])
  | Read_to_string _ => Some "40"%string
  end%Z.
Definition executed (e : Event) : option (Z * list (list byte) * list (list byte)) :=
  match e with event c _ => match c with Execveat d _ arguments environment => Some (d, arguments, environment) | _ => None end end.
Lemma executed_quiet es : Forall (fun e => starts_program e = false) es -> omap executed es = [].
Proof. induction 1 as [|[R c r] es Hc _ IH]; [done|]. cbn. rewrite IH. by destruct c. Qed.
Abbreviation example_run release := (run_launcher (H := example_kernel release) (H0 := Seccomp.x86_64_numbers) example_sha256 3
  example_channel LauncherWire.example_identity Seccomp.X86_64 6 []).
Definition example_exec : Z * list (list byte) * list (list byte) :=
  (3%Z, map String.list_ascii_of_string ["program"; "argument"]%string, map String.list_ascii_of_string ["LANG=C"; "PATH=/bin"]%string).
Example released_run_execs :
  (example_run example_release).1 = Ok () /\ omap executed (example_run example_release).2 = [example_exec].
Proof. split; vm_compute; reflexivity. Qed.
(** Without the release the program is not started. *)
Example unreleased_run_fails :
  let run := example_run example_install in
  run.1 = Err (Failure UnexpectedMessage) /\ omap executed run.2 = [].
Proof. split; vm_compute; reflexivity. Qed.
Lemma launcher_execs_behind_boundaries_witness :
  exists es filter request first second third,
    example_run example_release = (Ok (), es)
    /\ prepared_run example_sha256 example_channel LauncherWire.example_identity (Seccomp.encode_filter filter) request
         example_exec.1.2 example_exec.2 first
    /\ installed_run (H := example_kernel example_release) 6 filter request first second
    /\ released_run example_sha256 example_channel request third
    /\ (first ++ second ++ third) `prefix_of` es.
Proof.
  assert (forall s, (0 <= Seccomp.SYS (Libc := Seccomp.x86_64_numbers) s < u32_bound)%Z) as HSYS by (intros []; done).
  destruct released_run_execs as [Hok Hexec]. destruct (example_run example_release) as [r h'] eqn:Hr.
  destruct (launcher_execs_behind_boundaries (H := example_kernel example_release) example_sha256 3 example_channel LauncherWire.example_identity Seccomp.X86_64 6
    [] h' r HSYS Hr) as (es & -> & _ & [[_ Hne]|Hrun]); cbn [fst snd] in *; [by destruct Hne|]. clear Hr HSYS.
  destruct Hrun as (filter & request & arguments & environment & first & second & third & outcome & rest & -> & Hp & Hi & Hrel & _ & Hq & _).
  exists (first ++ second ++ third ++ [event (Execveat (ir_executable_fd request) [] arguments environment) outcome] ++ rest),
    filter, request, first, second, third.
  rewrite !Forall_app in Hq. destruct Hq as (Q1 & Q2 & Q3 & Q4). cbn [app] in Hexec.
  assert (example_exec = (ir_executable_fd request, arguments, environment)) as ->.
  { rewrite !omap_app, !executed_quiet in Hexec by done. by injection Hexec as -> -> ->. }
  split; [by rewrite Hok|]. split; [done|]. split; [done|]. split; [done|].
  exists ([event (Execveat (ir_executable_fd request) [] arguments environment) outcome] ++ rest). by rewrite <- !app_assoc.
Defined.
